(* ===== verification/_CoqProject ===== *)
-Q . S2P
Prelude.v
Heapq.v
PyHeapq.v
PyStr.v
InMemoryCache.v
RedisCache.v
DualCache.v
Scheduler.v
RouterIndex.v
Masker.v
RetryPolicy.v
Cooldown.v
PatternRouter.v
Strategy.v
LeastBusy.v
LowestTpm.v
Duration.v
FallbackSelect.v
Fallbacks.v
Scheduling.v
Shuffle.v
TagRouting.v
PreCall.v
Routing.v
MockServer.v
PnpmAudit.v
Regex.v
Routes.v
AuthTypes.v
RouteChecks.v
ModelAccess.v
AuthChecks.v
CostCalc.v
UsageMap.v
LowestCost.v
LowestLatency.v
BaseStrategy.v
LowestTpmV2.v
BudgetLimiter.v
Pickers.v
SpendQueue.v
SpendWriter.v
SpendCommit.v
RedisBuffer.v
PodLock.v
SpendPipeline.v
RateLimiter.v
RateWindows.v
LimitHook.v
BatchLimiter.v
SessionLimits.v
