(* ===== verification/Prelude.v ===== *)
(** * LiteLLM gateway: a verification development

    The program is LiteLLM, the LLM gateway kept under
    [src/llm-gateway-competitors/litellm-wheel-src/litellm] (paths below are relative
    to it), with two programs of the repository around it: the mock server of the
    supply gateway and the checker of audit exceptions.

    A request reaches the proxy, which decides from the caller's key, user, team and
    organization whether the route, the models named in the body and the remaining
    budgets allow it.  The router then sends it to one of the deployments of the
    model group.  It keeps a table of deployments, takes failing ones out of rotation
    for a while, and picks one of the rest by a strategy whose counters live in a
    two-level cache; failed calls are retried, then sent to fallback groups; requests
    that find no healthy deployment wait in a priority queue, which is kept in the
    same kind of cache.  Before a call the proxy checks the rate limits of the caller;
    after it the cost is charged to everyone concerned, through queues that a periodic
    job writes to the database, directly or through lists in Redis.

<<
      AuthChecks ---> RouteChecks ---> Routes, Regex          MockServer
           \               |                                  PnpmAudit
            +---------> ModelAccess ----> AuthTypes           (programs of their own)
                             |
      Pickers ---> Routing, PreCall       Fallbacks ---> FallbackSelect
        |            |                       |
        |     Shuffle, TagRouting,        Cooldown     Scheduling ---> Scheduler
        |     PatternRouter              /   |   \                        |
      LeastBusy, LowestTpm,             /    |  RetryPolicy   Duration    |
      LowestCost, LowestLatency,       /     |                 /          |
      LowestTpmV2, BudgetLimiter -----(------(----------------+ CostCalc  |
        |   UsageMap, BaseStrategy,    \     |                             |
        |   Strategy                    \ RouterIndex   Masker            |
                         \         |                                    |
                          DualCache ------------------------------------+
                         /         \
                InMemoryCache    RedisCacheI <- RedisCache <- RedisClient (parameter)
                       |
                Heapq, PyHeapq, PyStr, Prelude

      BatchLimiter ---> LimitHook ---> RateWindows ---> RateLimiter ---> DualCache,
      SessionLimits ----------------------/                  RateScripts (parameter)

      SpendPipeline ---> SpendCommit ---> Prisma (parameter)
            |  \---> PodLock ---> RedisClient (parameter)
            +---> RedisBuffer ---> RedisLists (parameter)
            +---> SpendWriter ---> SpendQueue
>>

    ** Files

    Shared.

    - [Prelude] (this file): exceptions, results [res], the state-and-error monad [M]
      (a method is a function from a state to a result and a state; a raise keeps the
      state changes made before it), Python values [pyval], dicts as association
      lists in insertion order, [PyRuntime], the tactics and the hint database.
    - [Heapq]: CPython's [heapq] on arrays, and that it is a priority queue; [PyHeapq]:
      the same functions on dynamic values, whose comparisons may raise; [PyStr]: string
      methods; [Regex]: the regular expressions the route patterns are made of, their
      language and a matcher.

    Caches.

    - [InMemoryCache] ([caching/in_memory_cache.py], class [InMemoryCache]): record [t]
      is the object ([cache_dict], [ttl_dict], [expiration_heap] and the settings), one
      definition per method.
    - [RedisCache] ([caching/redis_cache.py], [BaseCache.get_ttl]): the wrapper of a
      Redis client; the write buffer also as a small transition system, because its
      flush awaits.
    - [DualCache] ([caching/dual_cache.py]): modules [LimitedDict] and [DualCache].

    Router.

    - [Scheduler] ([scheduler.py]): the queue, its aliasing with the cache entry, and the
      abstract priority queue it refines; [Scheduling] ([Router.schedule_acompletion]):
      requests polling the queue, as interleaved turns.
    - [RouterIndex] ([router.py]: [set_model_list], [_create_deployment],
      [_add_model_to_list_and_index_map], [_update_deployment_indices_after_removal],
      [upsert_deployment], [delete_deployment], [get_model_list], ...).
    - [RetryPolicy] ([router_utils/get_retry_from_policy.py],
      [Router.get_allowed_fails_from_policy], [utils._should_retry]).
    - [FallbackSelect] ([router_utils/fallback_event_handlers.py],
      [Router.validate_fallbacks], the lookups of fallback lists) and [Fallbacks]
      ([Router.async_function_with_retries], [async_function_with_fallbacks],
      [run_async_fallback]): the recursion over fallback groups, with the lists and
      dictionaries the nested calls share.
    - [Cooldown] ([router_utils/cooldown_handlers.py], [cooldown_cache.py],
      [router_callbacks/track_deployment_metrics.py]).
    - [PatternRouter] ([router_utils/pattern_match_deployments.py]).
    - [Strategy], [LeastBusy], [LowestTpm], [Shuffle], [TagRouting]
      ([router_strategy/least_busy.py], [lowest_tpm_rpm.py], [simple_shuffle.py],
      [tag_based_routing.py]); [UsageMap] with [LowestCost] and [LowestLatency]
      ([lowest_cost.py], [lowest_latency.py]); [BaseStrategy] and [LowestTpmV2]
      ([base_routing_strategy.py], [lowest_tpm_rpm_v2.py]): counters that are pushed to
      Redis in batches; [BudgetLimiter] ([budget_limiter.py]).  [Pickers]
      ([Router.routing_strategy_init]) makes them instances of the interface [Routing]
      is proved against.
    - [PreCall] ([Router._pre_call_checks], [get_router_model_info]) and [Routing]
      ([Router.async_get_available_deployment] and its siblings,
      [_common_checks_available_deployment], [router_utils/common_utils.py],
      [handle_error.py]): the choice of a deployment, composed of the components above;
      a strategy is used through the interface [Routing.picker].
    - [CostCalc] ([litellm_core_utils/llm_cost_calc/utils.py] and the helpers of
      [cost_calculator.py]): what a request costs.
    - [Duration] ([litellm_core_utils/duration_parser.py]), [Masker]
      ([litellm_core_utils/sensitive_data_masker.py]).

    Proxy authorization.

    - [Routes] ([proxy/_types.py]): the roles and the tables [LiteLLMRoutes];
      [AuthTypes]: the records of keys, users, teams and the monad of checks.
    - [RouteChecks] ([proxy/auth/route_checks.py]), [ModelAccess] and [AuthChecks]
      ([proxy/auth/auth_checks.py], [auth_utils.get_model_from_request],
      [auth_checks_organization.py]): [AuthChecks.common_checks] is the function every
      request goes through.

    Rate limits ([proxy/hooks/parallel_request_limiter_v3.py]).

    - [RateLimiter]: the two Lua scripts as programs over a store with expiry times, the
      sliding window in memory, [should_rate_limit] with its local copy, the grouping of
      keys by cluster slot, the token increments.
    - [RateWindows]: the abstract limiter, a table of counters, and what the counters
      promise; [LimitHook]: the descriptors of a request, the check before a call and
      the counters after it, with the limit readers of [proxy/auth/auth_utils.py].

    - [BatchLimiter] ([proxy/hooks/batch_rate_limiter.py]): the capacity a batch reserves;
      [SessionLimits] ([max_iterations_limiter.py], [max_budget_per_session_limiter.py]):
      caps on the calls and the cost of a session.

    Spend ([proxy/db/db_spend_update_writer.py] and [proxy/db/db_transaction_queue]).

    - [SpendQueue]: the in-memory queues with their bounds and compaction; [SpendWriter]:
      the charges and daily records of a request.
    - [SpendCommit]: the commits to the tables with their retries, the daily upserts;
      [RedisBuffer]: the lists in Redis and the JSON they hold, and proxies that
      interleave pushes and drains; [PodLock]: the lock of the job, with pods that
      interleave their commands.
    - [SpendPipeline]: the periodic job, composed of these.

    Programs of their own.

    - [MockServer] (the supply gateway's mock server) and [PnpmAudit] (the checker of
      audit exceptions).

    ** What the theorems show

    - Caches: the item bound and the agreement of the two dictionaries are invariants
      of every sequence of calls; eviction never fails on a full cache and drops
      entries in order of expiry; written values are read back until their expiry;
      counters count; expired keys are never served.  The two-level cache keeps
      the invariant, returns what was written, and never raises on reads and writes
      whatever Redis does; its batch-read throttle asks exactly for what is due, a
      rollback restores it, and bulk reads answer from memory first, then Redis.
      [local_only] calls do not touch Redis.
    - Scheduler: refinement of a priority queue ordered by (priority, request id); no
      request overtakes one ahead of it in the queue, and a request that keeps polling
      beside healthy deployments is served.
    - Router: indexed lookups equal scans in every state reached without loading a list
      that repeats an id, and cached access groups are never stale there; deletion and
      upsert change exactly one deployment; which errors cool a deployment down, for how
      long, and after how many failures; without Redis the strategies pick a minimum of
      exact counters (requests in flight, tokens, price) or a deployment within the
      buffer of the lowest latency; the shuffle picks in proportion to the weights when
      the first deployment has one; without Redis a limit of [n] requests admits exactly
      [n]; wildcard patterns match exactly their fillings and the most specific one wins.
      Without Redis and with the asynchronous strategies the deployment chosen among
      several candidates is one that is not cooling down, not another team's, and can
      do what the request asks; a plain group with such a deployment is served; the
      pre-call checks only return deployments within their limits.
    - Budgets (without Redis): spend within a window is the sum of the costs, the filter
      keeps exactly what is within its budgets, and an exhausted provider gets no
      request before its window ends.
    - Retries and fallbacks: the recursion terminates, the number of calls is bounded,
      the first call that returns is the answer, and a request that fails everywhere
      raises the first error.
    - Authorization: a request that passes [common_checks] has passed every check that
      applies to it, free models skip the budgets and only those; which routes a key
      may call, a list of admin routes is closed to users without a role that opens them,
      route templates match exactly their fillings; every model of a request is checked, and revoked access
      groups stop working when the cached entry expires.
    - Costs: no token of a prompt is billed twice once cached tokens are reported, the
      price is that of the highest threshold passed, amounts are not negative, batches
      cost half, and combined usage adds up.
    - Durations: reset times exist, lie in the future and within the duration.
    - Masking: noninterference with the hidden part of secrets above the depth limit, and
      idempotence.
    - Rate limits: without Redis, and with room for the counters, the limiter refines a
      table of counters, response by response, so that a limit of [n] requests admits exactly the first [n] of a window;
      proxies that share a Redis that is no cluster admit at most [n] together; a refusal always names an
      exceeded limit and an admission has none; the keys of a descriptor are in one slot
      of a cluster; tokens are counted for every descriptor but the organization's.  A batch
      reserves exactly what it needs or is refused; exactly the first [n] calls of a
      session pass, over any number of proxies, and it is stopped exactly when its costs
      reach its budget.
    - Spend: the charges of a request are exactly those of its owners; queues, lists and
      drained batches together hold what was charged, however proxies interleave, until
      a push or a drain fails; a commit adds the spend of an entity whole, exactly once
      unless the reply of a committed batch is lost, and the job brings what is queued
      to the database or raises; at most one pod runs it; producers do not wait while
      the entities fit.
    - Mock server: every request leaves a well-formed state.  Audit: the exit code
      is zero exactly when every finding that names a package is covered by an exception
      in force.
    - Limits of the code are theorems of their own, next to the property they limit:
      the unbounded expiration heap, lost buffered writes, deployments lost by a
      rejected upsert, deployments that share an id, queues that raise after a trip through Redis, routes opened by
      a provider name, view-only admins that can write, daily records lost beyond the
      first hundred, team limits counted twice, parallel requests that stay counted or
      are forgotten, counters mixed up on a cluster, and others.

    ** Conventions

    Time is an integer number of microseconds (a [float] of seconds in the code)
    and is read once per call ([now]), except that [RedisCache] TTLs are seconds, as
    the client takes them.  Integers are Python's, unbounded.  Floats that only carry
    counters, weights and money are rationals.  Strings are sequences of ASCII
    characters.  Random choices are an argument.

    Outside code is a parameter: [PyRuntime] (the [json] codec, [ast.literal_eval],
    [sys.getsizeof], [str] of floats and containers), [PyRe] (regular expressions
    outside the modelled syntax), [RedisClient] (any operation may raise; [RedisLaws]
    states what Redis documents for set, get and delete; the toy client satisfies the
    laws), deployment validation, the provider lookup [get_llm_provider], the time
    zones, the token counter, the enterprise package, the database client and what
    [AuthChecks.backend] lists (database lookups, the agent and vector-store
    registries, the extraction of tool names), Starlette's route compiler, the Prisma
    client ([Prisma], with [PrismaLaws] and [WholeBatches] for the batches it documents
    as atomic, whose replies may be lost), the list commands of Redis ([RedisLists], [ListLaws]) and its scripts
    ([RateScripts] and [SessionRedis] with their laws: a script runs to its end, alone).

    ** Fuel

    The loops of [Heapq] run with the length of the array as fuel and those of
    [InMemoryCache.evict_cache] with the length of the heap, which each iteration
    shortens; the specifications ([heappush_spec], [heappop_spec], [heapify_spec],
    [evict_cache_correct]) are proved for exactly these runs, so the fuel does not cut
    one short.  [Fallbacks.async_function_with_fallbacks] runs with one more than the
    fallback depth that is left, which [fallbacks_terminate] proves enough;
    [Shuffle.bisect_loop] with the length of the interval it halves
    ([bisect_loop_spec]).  [RedisBuffer._serialize] recurses to the depth limit
    the code has.  All other loops are structural.

    ** Not modelled

    HTTP and provider calls, the proxy's handlers and its database schema, key lookup and
    JWT validation, logging and integrations, connection handling of the Redis client,
    the other cache backends, and the completion, streaming and batch calls of
    [router.py], which are glue around these: I/O and third-party wire formats.  Of the
    spend path, the payload [update_database] builds from a response, the tool registry's
    readers, the clean-up of spend logs and the budget reset job; of the limiters, the
    older one that [parallel_request_limiter_v3.py] replaces, the dynamic one on top of
    it and the model budgets of a key; of authorization, the team permissions and the cached
    lookups of users and teams. *)

From stdpp Require Import base gmap sets list strings pretty.
From Stdlib Require Import ZArith QArith Lia.

#[global] Open Scope Z_scope.
Set Default Proof Using "Type".

(** ** Python exceptions and results *)

(** The exceptions the modelled code raises or catches.  [GenericError] carries
    the message of a bare [raise Exception(msg)] / [raise ValueError(msg)];
    [DBConnectionError] stands for the classes of [DB_CONNECTION_ERROR_TYPES]. *)
Inductive exn : Type :=
| KeyError | TypeError | ValueError | IndexError | AttributeError
| ZeroDivisionError | RuntimeError | RateLimitError
| DBConnectionError
| GenericError (msg : string).

#[export] Instance exn_eq_dec : EqDecision exn.
Proof. solve_decision. Defined.

(** What a Python call produces: a value, or a raised exception. *)
Inductive res (A : Type) : Type :=
| Ok (a : A)
| Raise (e : exn).
Arguments Ok {A} a.
Arguments Raise {A} e.

Definition is_ok {A} (r : res A) : bool :=
  match r with Ok _ => true | Raise _ => false end.

#[export] Instance res_ret : MRet res := λ A a, Ok a.
#[export] Instance res_bind : MBind res := λ A B f r,
  match r with Ok a => f a | Raise e => Raise e end.
#[export] Instance res_fmap : FMap res := λ A B f r,
  match r with Ok a => Ok (f a) | Raise e => Raise e end.

(** ** The state-and-exception monad of a Python method

    A method body threads the state of its object; when it raises, the mutations
    performed so far stay (Python does not roll back). *)
Definition M (S A : Type) : Type := S → res A * S.

#[export] Instance M_ret {S} : MRet (M S) := λ A a s, (Ok a, s).
#[export] Instance M_bind {S} : MBind (M S) := λ A B f m s,
  match m s with
  | (Ok a, s') => f a s'
  | (Raise e, s') => (Raise e, s')
  end.

Definition m_raise {S A} (e : exn) : M S A := λ s, (Raise e, s).
Definition m_get {S} : M S S := λ s, (Ok s, s).
Definition m_put {S} (s' : S) : M S unit := λ _, (Ok (), s').
Definition m_modify {S} (f : S → S) : M S unit := λ s, (Ok (), f s).
Definition m_lift {S A} (r : res A) : M S A := λ s, (r, s).

(** [try: m except Exception: h]: the handler runs in the state the failing body
    left behind. *)
Definition m_try {S A} (m : M S A) (h : exn → M S A) : M S A := λ s,
  match m s with
  | (Ok a, s') => (Ok a, s')
  | (Raise e, s') => h e s'
  end.

(** Run a method of a sub-object stored in a field of the state. *)
Definition m_zoom {S T A} (get : S → T) (set : T → S → S) (m : M T A) : M S A := λ s,
  match m (get s) with (r, t') => (r, set t' s) end.

(** Python [for x in l: body x]. *)
Fixpoint m_iter {S A} (body : A → M S unit) (l : list A) : M S unit :=
  match l with
  | [] => mret ()
  | x :: l' => body x ;; m_iter body l'
  end.

(** Python [[body(x) for x in l]]. *)
Fixpoint m_map {S A B} (body : A → M S B) (l : list A) : M S (list B) :=
  match l with
  | [] => mret []
  | x :: l' => y ← body x; ys ← m_map body l'; mret (y :: ys)
  end.

(** Inversion of a run that returns. *)
Lemma m_bind_ok {S A B} (m : M S A) (f : A → M S B) s b s' :
  (m ≫= f) s = (Ok b, s') → ∃ a s1, m s = (Ok a, s1) ∧ f a s1 = (Ok b, s').
Proof. unfold mbind, M_bind. destruct (m s) as [[a|] s1]; [eauto|done]. Qed.

Lemma m_bind_run {S A B} (m : M S A) (f : A → M S B) s a s' : m s = (Ok a, s') → (m ≫= f) s = f a s'.
Proof. intros E. unfold mbind, M_bind. by rewrite E. Qed.

(** ** Python values *)

(** Dynamic values as they travel through caches, request dicts and JSON.
    Dictionaries keep insertion order; keys are strings (the code modelled here
    uses no other keys).  A float is the rational it denotes, a [timedelta] its number
    of microseconds. *)
Inductive pyval : Type :=
| PNone
| PBool (b : bool)
| PInt (z : Z)
| PFloat (q : Q)
| PStr (s : string)
| PTuple (l : list pyval)
| PList (l : list pyval)
| PSet (l : list pyval)
| PDict (d : list (string * pyval))
| PTimedelta (us : Z).

(** Structural induction through the nested lists. *)
Section pyval_induction.
Variable P : pyval → Prop.
Hypothesis Hnone : P PNone.
Hypothesis Hbool : ∀ b, P (PBool b).
Hypothesis Hint : ∀ z, P (PInt z).
Hypothesis Hfloat : ∀ q, P (PFloat q).
Hypothesis Hstr : ∀ s, P (PStr s).
Hypothesis Htuple : ∀ l, Forall P l → P (PTuple l).
Hypothesis Hlist : ∀ l, Forall P l → P (PList l).
Hypothesis Hset : ∀ l, Forall P l → P (PSet l).
Hypothesis Hdict : ∀ d, Forall (λ kv, P kv.2) d → P (PDict d).
Hypothesis Htimedelta : ∀ us, P (PTimedelta us).

Fixpoint pyval_ind' (v : pyval) : P v :=
  let fix go (l : list pyval) : Forall P l :=
    match l with [] => Forall_nil_2 P | x :: l' => Forall_cons_2 P x l' (pyval_ind' x) (go l') end in
  let fix god (d : list (string * pyval)) : Forall (λ kv, P kv.2) d :=
    match d with [] => Forall_nil_2 _ | kv :: d' => Forall_cons_2 _ kv d' (pyval_ind' kv.2) (god d') end in
  match v with
  | PNone => Hnone | PBool b => Hbool b | PInt z => Hint z | PFloat q => Hfloat q
  | PStr s => Hstr s
  | PTuple l => Htuple l (go l) | PList l => Hlist l (go l) | PSet l => Hset l (go l)
  | PDict d => Hdict d (god d)
  | PTimedelta us => Htimedelta us
  end.
End pyval_induction.

(** [bool(v)]: the test of [if v], [v or w], [v and w], [not v]. *)
Definition truthy (v : pyval) : bool :=
  match v with
  | PNone => false
  | PBool b => b
  | PInt z => negb (z =? 0)
  | PFloat q => negb (Qeq_bool q 0)
  | PStr s => negb (String.eqb s "")
  | PTuple l | PList l | PSet l => match l with [] => false | _ => true end
  | PDict d => match d with [] => false | _ => true end
  | PTimedelta us => negb (us =? 0)
  end.

(** [v or w]. *)
Definition py_or (v w : pyval) : pyval := if truthy v then v else w.

Definition is_none (v : pyval) : bool :=
  match v with PNone => true | _ => false end.

(** The number a Python numeric value denotes ([bool] is a subclass of [int]). *)
Definition as_num (v : pyval) : option Q :=
  match v with
  | PBool b => Some (inject_Z (Z.b2z b))
  | PInt z => Some (inject_Z z)
  | PFloat q => Some q
  | _ => None
  end.

Definition as_int (v : pyval) : option Z :=
  match v with
  | PBool b => Some (Z.b2z b)
  | PInt z => Some z
  | _ => None
  end.

(** [v + w] on the operand types the code uses; other combinations raise. *)
Definition py_add (v w : pyval) : res pyval :=
  match as_int v, as_int w with
  | Some a, Some b => Ok (PInt (a + b))
  | _, _ =>
    match as_num v, as_num w with
    | Some p, Some q => Ok (PFloat (Qplus p q))
    | _, _ =>
      match v, w with
      | PStr a, PStr b => Ok (PStr (a +:+ b))
      | PList a, PList b => Ok (PList (a ++ b))
      | PTuple a, PTuple b => Ok (PTuple (a ++ b))
      | _, _ => Raise TypeError
      end
    end
  end.

(** [hash(v)] exists: lists, sets and dicts are unhashable. *)
Fixpoint hashable (v : pyval) : bool :=
  match v with
  | PList _ | PSet _ | PDict _ => false
  | PTuple l => forallb hashable l
  | _ => true
  end.

(** [v == w]: numbers compare by value across [bool], [int] and [float];
    containers of one type compare element by element (sets and dicts as
    unordered collections); values of different types differ. *)
Fixpoint py_eqb (v w : pyval) {struct v} : bool :=
  let fix eql (l k : list pyval) {struct l} : bool :=
    match l, k with
    | [], [] => true
    | x :: l', y :: k' => py_eqb x y && eql l' k'
    | _, _ => false
    end in
  match v, w with
  | PNone, PNone => true
  | PStr a, PStr b => String.eqb a b
  | PTimedelta a, PTimedelta b => a =? b
  | PTuple a, PTuple b | PList a, PList b => eql a b
  | PSet a, PSet b =>
      Nat.eqb (length a) (length b) &&
      (fix sub (l : list pyval) : bool :=
         match l with [] => true | x :: l' => existsb (py_eqb x) b && sub l' end) a
  | PDict a, PDict b =>
      Nat.eqb (length a) (length b) &&
      (fix sub (l : list (string * pyval)) : bool :=
         match l with
         | [] => true
         | (k, x) :: l' => existsb (λ kw, String.eqb k kw.1 && py_eqb x kw.2) b && sub l'
         end) a
  | _, _ =>
      match as_num v, as_num w with
      | Some p, Some q => Qeq_bool p q
      | _, _ => false
      end
  end.

(** ** Insertion-ordered dictionaries *)

(** A Python [dict] with string keys: an association list in insertion order.
    Assigning to an existing key keeps its position, as Python does. *)
Fixpoint dget {V} (k : string) (d : list (string * V)) : option V :=
  match d with
  | [] => None
  | (k', v) :: d' => if String.eqb k k' then Some v else dget k d'
  end.

Fixpoint dset {V} (k : string) (v : V) (d : list (string * V)) : list (string * V) :=
  match d with
  | [] => [(k, v)]
  | (k', v') :: d' => if String.eqb k k' then (k', v) :: d' else (k', v') :: dset k v d'
  end.

Fixpoint ddel {V} (k : string) (d : list (string * V)) : list (string * V) :=
  match d with
  | [] => []
  | (k', v') :: d' => if String.eqb k k' then d' else (k', v') :: ddel k d'
  end.

Definition dmem {V} (k : string) (d : list (string * V)) : bool :=
  match dget k d with Some _ => true | None => false end.

Definition dkeys {V} (d : list (string * V)) : list string := d.*1.

(** A real dict has no repeated key. *)
Definition dict_wf {V} (d : list (string * V)) : Prop := NoDup (dkeys d).

(** [d.get(k)] on a value that is a dict; any other receiver has no such method. *)
Definition py_get (v : pyval) (k : string) : res pyval :=
  match v with
  | PDict d => Ok (default PNone (dget k d))
  | _ => Raise AttributeError
  end.

(** [d.get(k, dflt)]. *)
Definition py_get_or (v : pyval) (k : string) (dflt : pyval) : res pyval :=
  match v with
  | PDict d => Ok (default dflt (dget k d))
  | _ => Raise AttributeError
  end.

(** [v[k]] with a string subscript. *)
Definition py_index (v : pyval) (k : string) : res pyval :=
  match v with
  | PDict d => match dget k d with Some x => Ok x | None => Raise KeyError end
  | _ => Raise TypeError
  end.

(** [str(n)] for an integer. *)
Definition str_of_Z (n : Z) : string := pretty n.

(** ** What the interpreter provides

    The caches call [json.loads], [json.dumps], [ast.literal_eval],
    [value.__sizeof__()] and [str()] of floats and containers, whose results the
    modelled code never constrains.  They are the fields of this class, so every
    theorem holds for whatever the interpreter returns; [None] stands for a
    raised exception. *)
Class PyRuntime := {
  json_loads : string → option pyval;
  json_dumps : pyval → option string;
  literal_eval : string → option pyval;
  obj_sizeof : pyval → Z;               (* bytes *)
  float_str : Q → string;
  container_str : pyval → string
}.

(** [str(v)] on the primitive types. *)
Definition prim_str `{PyRuntime} (v : pyval) : option string :=
  match v with
  | PBool b => Some (if b then "True" else "False")
  | PInt z => Some (str_of_Z z)
  | PFloat q => Some (float_str q)
  | PStr s => Some s
  | _ => None
  end.

(** [str(v)]. *)
Definition py_str `{PyRuntime} (v : pyval) : string :=
  match v with PNone => "None" | _ => default (container_str v) (prim_str v) end.

(** Times and durations are integers counting microseconds. *)
Definition seconds (n : Z) : Z := n * 1000000.

(** The [ttl] entry of a keyword dictionary: absent, or present (and possibly
    [None]). *)
Definition ttl_kw : Type := option (option Z).

(** The number a value denotes, 0 when it is none. *)
Definition num (v : pyval) : Q := default 0%Q (as_num v).
Definition is_number (v : pyval) : Prop := is_Some (as_num v).

Lemma py_add_num v w : is_number v → is_number w → ∃ x, py_add v w = Ok x ∧ is_number x ∧ (num x == num v + num w)%Q.
Proof.
  unfold is_number, num. destruct v, w; intros [? ?] [? ?]; simplify_eq/=; eexists; (split; [done|]); (split; [eauto|]); cbn;
    rewrite ?inject_Z_plus; reflexivity.
Qed.

(** ** Generic lemmas *)

Create HintDb pydb.

Section dict.
Context {V : Type}.
Implicit Types (d : list (string * V)) (k : string) (v : V).

Lemma dget_dset_eq k v d : dget k (dset k v d) = Some v.
Proof.
  induction d as [|[k' v'] d IH]; simpl; [by rewrite String.eqb_refl|].
  destruct (String.eqb k k') eqn:E; simpl; by rewrite E.
Qed.

Lemma dget_dset_ne k k' v d : k ≠ k' → dget k' (dset k v d) = dget k' d.
Proof.
  intros Hne. induction d as [|[k0 v0] d IH]; simpl.
  - destruct (String.eqb_spec k' k); congruence.
  - destruct (String.eqb_spec k k0) as [->|]; simpl.
    + destruct (String.eqb_spec k' k0); congruence.
    + destruct (String.eqb k' k0); auto.
Qed.

Lemma dget_dset k k' v d :
  dget k' (dset k v d) = if String.eqb k k' then Some v else dget k' d.
Proof.
  destruct (String.eqb_spec k k') as [->|]; [apply dget_dset_eq|by apply dget_dset_ne].
Qed.

Lemma dget_Some_in k v d : dget k d = Some v → (k, v) ∈ d.
Proof.
  induction d as [|[k' v'] d IH]; simpl; [done|].
  destruct (String.eqb_spec k k') as [->|]; intros H; simplify_eq; [left|right; auto].
Qed.

Lemma dget_None k d : dget k d = None ↔ k ∉ dkeys d.
Proof.
  induction d as [|[k' v'] d IH]; simpl; [split; [set_solver|done]|].
  destruct (String.eqb_spec k k') as [->|].
  - split; [done|set_solver].
  - rewrite IH. set_solver.
Qed.

Lemma dget_in k v d : dict_wf d → (k, v) ∈ d → dget k d = Some v.
Proof.
  unfold dict_wf. induction d as [|[k' v'] d IH]; simpl; [set_solver|].
  intros [Hk Hd]%NoDup_cons [[= -> ->]|Hin]%elem_of_cons.
  - by rewrite String.eqb_refl.
  - destruct (String.eqb_spec k k') as [->|]; [|auto].
    destruct Hk. apply (list_elem_of_fmap_2 fst) in Hin. done.
Qed.

Lemma dkeys_dset k v d :
  dkeys (dset k v d) = if dmem k d then dkeys d else dkeys d ++ [k].
Proof.
  unfold dmem. induction d as [|[k' v'] d IH]; simpl; [done|].
  destruct (String.eqb_spec k k') as [->|]; simpl; [done|].
  rewrite IH. by destruct (dget k d).
Qed.

Lemma dset_wf k v d : dict_wf d → dict_wf (dset k v d).
Proof.
  unfold dict_wf. intros H. rewrite dkeys_dset. unfold dmem.
  destruct (dget k d) eqn:E; [done|]. apply dget_None in E.
  apply NoDup_app; split_and!; [done|set_solver|apply NoDup_singleton].
Qed.

Lemma ddel_dkeys_sub k k' d : k' ∈ dkeys (ddel k d) → k' ∈ dkeys d.
Proof.
  induction d as [|[k0 v0] d IH]; simpl; [done|].
  destruct (String.eqb k k0); simpl; set_solver.
Qed.

Lemma ddel_wf k d : dict_wf d → dict_wf (ddel k d).
Proof.
  unfold dict_wf. induction d as [|[k' v'] d IH]; simpl; [done|].
  intros [Hk Hd]%NoDup_cons. destruct (String.eqb k k'); simpl; [done|].
  apply NoDup_cons. split; [|auto]. intros ?%ddel_dkeys_sub. done.
Qed.

Lemma dget_ddel_eq k d : dict_wf d → dget k (ddel k d) = None.
Proof.
  unfold dict_wf. induction d as [|[k' v'] d IH]; simpl; [done|].
  intros [Hk Hd]%NoDup_cons. destruct (String.eqb_spec k k') as [->|Hne]; simpl.
  - by apply dget_None.
  - destruct (String.eqb_spec k k'); [congruence|auto].
Qed.

Lemma dget_ddel_ne k k' d : k ≠ k' → dget k' (ddel k d) = dget k' d.
Proof.
  intros Hne. induction d as [|[k0 v0] d IH]; simpl; [done|].
  destruct (String.eqb_spec k k0) as [->|]; simpl.
  - destruct (String.eqb_spec k' k0); congruence.
  - by rewrite IH.
Qed.

Lemma length_dset k v d :
  length (dset k v d) = (if dmem k d then length d else S (length d)).
Proof.
  unfold dmem. induction d as [|[k' v'] d IH]; simpl; [done|].
  destruct (String.eqb k k'); simpl; [done|]. rewrite IH. by destruct (dget k d).
Qed.
End dict.

#[export] Hint Resolve dset_wf ddel_wf dget_in : pydb.

(** ** Invariants of methods *)

(** [m] keeps [P], whether it returns or raises. *)
Definition preserves {S A} (P : S → Prop) (m : M S A) : Prop := ∀ s, P s → P (m s).2.

Section preserves.
Context {S : Type} (P : S → Prop).

Lemma preserves_ret {A} (a : A) : preserves P (mret a).
Proof. by intros s. Qed.

Lemma preserves_raise {A} (e : exn) : preserves P (m_raise (A := A) e).
Proof. by intros s. Qed.

Lemma preserves_lift {A} (r : res A) : preserves P (m_lift r).
Proof. by intros s. Qed.

Lemma preserves_modify (f : S → S) : (∀ s, P s → P (f s)) → preserves P (m_modify f).
Proof. intros Hf s Hs. by apply Hf. Qed.

Lemma preserves_bind {A B} (m : M S A) (f : A → M S B) :
  preserves P m → (∀ a, preserves P (f a)) → preserves P (m ≫= f).
Proof.
  intros Hm Hf s Hs. unfold mbind, M_bind. specialize (Hm s Hs).
  destruct (m s) as [[a|e] s']; simpl in *; [by apply Hf|done].
Qed.

Lemma preserves_try {A} (m : M S A) (h : exn → M S A) :
  preserves P m → (∀ e, preserves P (h e)) → preserves P (m_try m h).
Proof.
  intros Hm Hh s Hs. unfold m_try. specialize (Hm s Hs).
  destruct (m s) as [[a|e] s']; simpl in *; [done|by apply Hh].
Qed.

Lemma preserves_iter {A} (body : A → M S unit) l :
  (∀ x, preserves P (body x)) → preserves P (m_iter body l).
Proof.
  intros Hb. induction l; simpl; [apply preserves_ret|].
  apply preserves_bind; [done|by intros _].
Qed.

Lemma preserves_map {A B} (body : A → M S B) l :
  (∀ x, preserves P (body x)) → preserves P (m_map body l).
Proof.
  intros Hb. induction l; simpl; [apply preserves_ret|].
  apply preserves_bind; [done|]. intros y. apply preserves_bind; [done|].
  intros ys. apply preserves_ret.
Qed.
End preserves.

(** Decompose a method body into its calls and close those with a known lemma. *)
Ltac preserves_tac :=
  repeat lazymatch goal with
    | |- preserves _ (mret _) => apply preserves_ret
    | |- preserves _ (m_raise _) => apply preserves_raise
    | |- preserves _ (m_lift _) => apply preserves_lift
    | |- preserves _ (mbind _ _) => apply preserves_bind; [|intros ?]
    | |- preserves _ (m_try _ _) => apply preserves_try; [|intros ?]
    | |- preserves _ (m_iter _ _) => apply preserves_iter; intros ?
    | |- preserves _ (m_map _ _) => apply preserves_map; intros ?
    | |- preserves _ (match _ with _ => _ end) => case_match
    end; try solve [eauto with pydb].

(** A [for] loop of calls that all succeed and return according to [f] on the
    states it goes through. *)
Lemma m_map_ok_app {S A B} (body : A → M S B) l1 l2 s ys1 s1 :
  m_map body l1 s = (Ok ys1, s1) →
  m_map body (l1 ++ l2) s =
    match m_map body l2 s1 with
    | (Ok ys2, s2) => (Ok (ys1 ++ ys2), s2)
    | (Raise e, s2) => (Raise e, s2)
    end.
Proof.
  revert s ys1 s1. induction l1 as [|x l1 IH]; intros s ys1 s1; simpl.
  - intros [= <- <-]. by destruct (m_map body l2 s) as [[?|?] ?].
  - unfold mbind, M_bind. destruct (body x s) as [[y|e] s']; [|done].
    destruct (m_map body l1 s') as [[ys|e] s''] eqn:E; [|done].
    intros [= <- <-]. rewrite (IH _ _ _ E).
    by destruct (m_map body l2 s'') as [[?|?] ?].
Qed.

Lemma m_map_length {S A B} (body : A → M S B) l s ys s' :
  m_map body l s = (Ok ys, s') → length ys = length l.
Proof.
  revert s ys s'. induction l as [|x l IH]; intros s ys s'; simpl; [by intros [= <- _]|].
  unfold mbind, M_bind. destruct (body x s) as [[y|e] s1]; [|done].
  destruct (m_map body l s1) as [[ys1|e] s2] eqn:E; [|done]. intros [= <- _]. simpl. eauto.
Qed.

Lemma m_try_mret_ok {S A} (m : M S A) (f : exn → A) s :
  is_ok (m_try m (λ e, mret (f e)) s).1 = true.
Proof. unfold m_try. by destruct (m s) as [[a|e] s']. Qed.

Lemma preserves_get {S} (P : S → Prop) : preserves P m_get.
Proof. by intros s. Qed.
#[export] Hint Resolve preserves_get : pydb.

(** Filters that agree on the elements of the list. *)
Lemma filter_bool_ext {A} (P Q : A → bool) (l : list A) :
  (∀ x, x ∈ l → P x = Q x) → filter (λ x, P x = true) l = filter (λ x, Q x = true) l.
Proof.
  induction l as [|x l IH]; intros Hpq; [done|]. rewrite !filter_cons, (Hpq x) by set_solver.
  rewrite IH by set_solver. done.
Qed.

(** A concrete interpreter for examples: its JSON knows integers of one digit and
    the literal [123], objects take no space. *)
Definition toy_runtime : PyRuntime := {|
  json_loads s :=
    if String.eqb s "123" then Some (PInt 123) else
    match s with
    | String a EmptyString =>
        let n := Z.of_nat (Ascii.nat_of_ascii a) - 48 in
        if (0 <=? n) && (n <=? 9) then Some (PInt n) else None
    | _ => None
    end;
  json_dumps v := match v with PInt z => Some (str_of_Z z) | PStr s => Some s | _ => None end;
  literal_eval _ := None;
  obj_sizeof _ := 0;
  float_str _ := "0.0";
  container_str _ := "[]"
|}.
