(* ===== verification/Heapq.v ===== *)
(** * Heapq: the standard library's [heapq]

    [caching/in_memory_cache.py] and [scheduler.py] keep their entries in a list
    used through [heapq.heappush], [heapq.heappop] and [heapq.heapify].  This
    file models those three functions on the array layout CPython uses (node [p]
    has children [2p+1] and [2p+2]) and proves that they implement a priority
    queue: pushing adds the item, popping removes a least item, heapifying
    reorders, and all three leave a heap.  Clients reason through the
    [heap_min], [heappush_spec], [heappop_spec] and [heapify_spec] lemmas only. *)

From stdpp Require Import base list strings.
From Stdlib Require Import ZArith Lia ZifyBool.
From S2P Require Import Prelude.

#[local] Open Scope nat_scope.

(** ** The order of the stored items *)

(** What [heapq] needs of the items: Python's [<], a strict total order. *)
Class PyOrder (A : Type) := {
  py_ltb : A → A → bool;
  py_ltb_irrefl a : py_ltb a a = false;
  py_ltb_trans a b c : py_ltb a b = true → py_ltb b c = true → py_ltb a c = true;
  py_ltb_total a b : py_ltb a b = false → py_ltb b a = false → a = b
}.

Definition py_le {A} `{PyOrder A} (a b : A) : Prop := py_ltb b a = false.

Section order.
Context {A : Type} `{PyOrder A}.
Implicit Types a b c : A.

Lemma py_le_refl a : py_le a a.
Proof. apply py_ltb_irrefl. Qed.

Lemma py_ltb_le a b : py_ltb a b = true → py_le a b.
Proof.
  intros Hab. unfold py_le. destruct (py_ltb b a) eqn:Hba; [|done].
  by rewrite <-(py_ltb_irrefl a), (py_ltb_trans a b a).
Qed.

Lemma py_le_trans a b c : py_le a b → py_le b c → py_le a c.
Proof.
  unfold py_le. intros Hab Hbc. destruct (py_ltb c a) eqn:Hca; [|done].
  destruct (py_ltb a b) eqn:Hab'.
  - by rewrite <-Hbc, (py_ltb_trans c a b).
  - rewrite (py_ltb_total a b) in Hca by done. congruence.
Qed.

Lemma py_le_total a b : py_le a b ∨ py_le b a.
Proof. unfold py_le. destruct (py_ltb b a) eqn:E; [right; by apply py_ltb_le|by left]. Qed.

Lemma py_le_antisym a b : py_le a b → py_le b a → a = b.
Proof. intros. by apply py_ltb_total. Qed.
End order.

#[export] Hint Resolve py_le_refl py_ltb_le py_le_trans : pydb.

(** ** The functions of [heapq] *)

(** Exchange the items at two positions of the list. *)
Definition swap {A} (i j : nat) (h : list A) : list A :=
  match h !! i, h !! j with
  | Some x, Some y => <[j := x]> (<[i := y]> h)
  | _, _ => h
  end.

Section heapq.
Context {A : Type} `{PyOrder A}.
Implicit Types (h : list A) (x : A).

(** [_siftdown(heap, startpos, pos)]: move the item at [pos] towards the root
    while it is smaller than its parent.  Every round at least halves [pos], so
    [pos] rounds are enough. *)
Fixpoint siftdown_loop (fuel startpos pos : nat) h : list A :=
  match fuel with
  | O => h
  | S fuel' =>
    if startpos <? pos then
      let parentpos := (pos - 1) / 2 in
      match h !! pos, h !! parentpos with
      | Some newitem, Some parent =>
        if py_ltb newitem parent
        then siftdown_loop fuel' startpos parentpos (swap pos parentpos h)
        else h
      | _, _ => h
      end
    else h
  end.

Definition siftdown (startpos pos : nat) h : list A := siftdown_loop pos startpos pos h.

(** [_siftup(heap, pos)]: move the smaller child up until a leaf is reached, then
    sift the displaced item down to its place.  [pos] grows every round, so
    [len(heap)] rounds are enough. *)
Fixpoint siftup_loop (fuel startpos pos : nat) h : list A :=
  match fuel with
  | O => siftdown startpos pos h
  | S fuel' =>
    let childpos := 2 * pos + 1 in
    if childpos <? length h then
      let rightpos := childpos + 1 in
      let childpos' :=
        match h !! childpos, h !! rightpos with
        | Some l, Some r => if py_ltb l r then childpos else rightpos
        | _, _ => childpos
        end in
      siftup_loop fuel' startpos childpos' (swap pos childpos' h)
    else siftdown startpos pos h
  end.

Definition siftup (pos : nat) h : list A := siftup_loop (length h) pos pos h.

Definition heappush h x : list A := siftdown 0 (length h) (h ++ [x]).

(** [heappop]: [IndexError] on the empty list is [None]. *)
Definition heappop h : option (A * list A) :=
  match last h with
  | None => None
  | Some lastelt =>
    match take (length h - 1) h with
    | [] => Some (lastelt, [])
    | returnitem :: rest => Some (returnitem, siftup 0 (lastelt :: rest))
    end
  end.

Fixpoint heapify_loop (n : nat) h : list A :=
  match n with
  | O => h
  | S i => heapify_loop i (siftup i h)
  end.

Definition heapify h : list A := heapify_loop (length h / 2) h.

(** ** The heap property *)

Definition child (c p : nat) : Prop := c = 2 * p + 1 ∨ c = 2 * p + 2.

(** The parent-child pairs with parent at or after [s] are in order, except
    the pairs [exc] lets off. *)
Definition heap_except (exc : nat → nat → Prop) (s : nat) h : Prop :=
  ∀ p c x y, s ≤ p → child c p → ¬ exc p c →
    h !! p = Some x → h !! c = Some y → py_le x y.

Definition heap_from (s : nat) h : Prop := heap_except (λ _ _, False) s h.
Definition is_heap h : Prop := heap_from 0 h.
End heapq.

#[local] Hint Unfold child : core.

Section swap.
Context {A : Type}.
Implicit Types (h : list A).

Lemma length_swap i j h : length (swap i j h) = length h.
Proof. unfold swap. destruct (h !! i), (h !! j); by rewrite ?length_insert. Qed.

Lemma swap_Permutation i j h : swap i j h ≡ₚ h.
Proof.
  unfold swap. destruct (h !! i) eqn:Hi, (h !! j) eqn:Hj; try done.
  by apply Permutation_insert_swap.
Qed.

Lemma lookup_swap i j h x y k :
  h !! i = Some x → h !! j = Some y →
  swap i j h !! k = if decide (k = j) then Some x else if decide (k = i) then Some y else h !! k.
Proof.
  intros Hi Hj. unfold swap. rewrite Hi, Hj.
  pose proof (lookup_lt_Some _ _ _ Hi). pose proof (lookup_lt_Some _ _ _ Hj).
  repeat case_decide; subst.
  - rewrite list_lookup_insert_eq; [done|]. by rewrite length_insert.
  - rewrite list_lookup_insert_ne, list_lookup_insert_eq; done.
  - by rewrite !list_lookup_insert_ne by done.
Qed.
End swap.

(** The parent position [heapq] computes. *)
Lemma parent_child pos : 0 < pos → child pos ((pos - 1) / 2).
Proof.
  intros Hpos. unfold child.
  pose proof (Nat.div_mod_eq (pos - 1) 2). pose proof (Nat.mod_upper_bound (pos - 1) 2). lia.
Qed.

Lemma child_unique c p p' : child c p → child c p' → p = p'.
Proof. unfold child. lia. Qed.

(** Positions in the subtree of [s]. *)
Inductive desc (s : nat) : nat → Prop :=
| desc_refl : desc s s
| desc_child p c : desc s p → child c p → desc s c.

Lemma desc_ge s p : desc s p → s ≤ p.
Proof. induction 1; unfold child in *; lia. Qed.

Lemma desc_parent s pos p : desc s pos → s < pos → child pos p → desc s p.
Proof.
  inversion 1 as [|p' c Hd Hc]; subst; [lia|]. intros _ Hp.
  by rewrite (child_unique _ _ _ Hp Hc).
Qed.

Lemma desc_root p : desc 0 p.
Proof.
  induction p as [p IH] using lt_wf_ind. destruct (decide (p = 0)) as [->|Hp]; [constructor|].
  pose proof (parent_child p ltac:(lia)) as Hc. eapply desc_child; [|exact Hc].
  apply IH. unfold child in Hc. lia.
Qed.

Section heapq_correct.
Context {A : Type} `{PyOrder A}.
Implicit Types (h : list A) (x : A).

(** Grandparents of the displaced item are in order with its children. *)
Definition bridged (s pos : nat) h : Prop :=
  ∀ p c x y, s ≤ p → child pos p → child c pos → h !! p = Some x → h !! c = Some y → py_le x y.

(** Sifting down: only the pair above [pos] may be out of order. *)
Definition down_ready (s pos : nat) h : Prop :=
  heap_except (λ _ c, c = pos) s h ∧ bridged s pos h.

(** Sifting up: the pairs above and below [pos] may be out of order. *)
Definition up_ready (s pos : nat) h : Prop :=
  heap_except (λ p c, p = pos ∨ c = pos) s h ∧ bridged s pos h.

Lemma down_ready_done s pos h :
  down_ready s pos h →
  (∀ p x y, s ≤ p → child pos p → h !! p = Some x → h !! pos = Some y → py_le x y) →
  heap_from s h.
Proof.
  intros [Hh _] Hpos p c x y Hs Hc _ Hp Hy. destruct (decide (c = pos)) as [->|]; eauto.
Qed.

Lemma down_ready_step s pos p x y h :
  s ≤ p → child pos p → h !! pos = Some x → h !! p = Some y → py_le x y →
  down_ready s pos h → down_ready s p (swap pos p h).
Proof.
  intros Hs Hc Hx Hy Hle [Hh Hb].
  assert (Hsib : ∀ c z, child c p → c ≠ pos → h !! c = Some z → py_le y z).
  { intros c z Hcp Hne Hz. by apply (Hh p c). }
  split.
  - intros q c u v Hq Hcq Hne Hu Hv.
    rewrite (lookup_swap _ _ _ _ _ _ Hx Hy) in Hu. rewrite (lookup_swap _ _ _ _ _ _ Hx Hy) in Hv. unfold child in *.
    repeat case_decide; simplify_eq; try lia; eauto with pydb.
  - intros q c u v Hq Hqp Hcp Hu Hv.
    rewrite (lookup_swap _ _ _ _ _ _ Hx Hy) in Hu. rewrite (lookup_swap _ _ _ _ _ _ Hx Hy) in Hv. unfold child in *.
    assert (py_le u y).
    { repeat case_decide; simplify_eq; try lia; by eapply (Hh q p); [| |lia| |]. }
    repeat case_decide; simplify_eq; try lia; eauto with pydb.
Qed.

Lemma siftdown_loop_heap fuel s pos h :
  pos ≤ fuel → desc s pos → down_ready s pos h → heap_from s (siftdown_loop fuel s pos h).
Proof.
  revert pos h. induction fuel as [|fuel IH]; intros pos h Hf Hd Hr; cbn [siftdown_loop].
  { apply (down_ready_done _ _ _ Hr). intros p u v. unfold child. lia. }
  destruct (Nat.ltb_spec s pos) as [Hlt|Hge]; last first.
  { apply (down_ready_done _ _ _ Hr). intros p u v. unfold child. lia. }
  pose proof (parent_child pos ltac:(lia)) as Hc.
  pose proof (desc_parent _ _ _ Hd Hlt Hc) as Hdp. pose proof (desc_ge _ _ Hdp).
  destruct (h !! pos) as [x|] eqn:Hx; last first.
  { apply (down_ready_done _ _ _ Hr). congruence. }
  destruct (h !! ((pos - 1) / 2)) as [y|] eqn:Hy; last first.
  { apply (down_ready_done _ _ _ Hr). intros p u v _ Hp.
    rewrite (child_unique _ _ _ Hp Hc). congruence. }
  destruct (py_ltb x y) eqn:E.
  - apply IH; [unfold child in Hc; lia|done|]. eapply down_ready_step; eauto with pydb.
  - apply (down_ready_done _ _ _ Hr). intros p u v _ Hp.
    rewrite (child_unique _ _ _ Hp Hc). intros. simplify_eq. done.
Qed.

Lemma siftdown_loop_Permutation fuel s pos h : siftdown_loop fuel s pos h ≡ₚ h.
Proof.
  revert pos h. induction fuel as [|fuel IH]; intros pos h; simpl; [done|].
  repeat case_match; try done. by rewrite IH, swap_Permutation.
Qed.

Lemma siftdown_heap s pos h :
  desc s pos → down_ready s pos h → heap_from s (siftdown s pos h).
Proof. apply siftdown_loop_heap. lia. Qed.

Lemma up_ready_leaf s pos h :
  length h ≤ 2 * pos + 1 → up_ready s pos h → down_ready s pos h.
Proof.
  intros Hl [Hh Hb]. split; [|done]. intros p c x y Hs Hc Hne Hx Hy.
  eapply (Hh p c); eauto. intros [->| ->]; [|done].
  apply lookup_lt_Some in Hy. unfold child in Hc. lia.
Qed.

Lemma up_ready_step s pos c' x y h :
  s ≤ pos → child c' pos → h !! pos = Some x → h !! c' = Some y →
  (∀ c z, child c pos → h !! c = Some z → py_le y z) →
  up_ready s pos h → up_ready s c' (swap pos c' h).
Proof.
  intros Hs Hc Hx Hy Hmin [Hh Hb]. split.
  - intros p c u v Hp Hcp Hne Hu Hv.
    rewrite (lookup_swap _ _ _ _ _ _ Hx Hy) in Hu. rewrite (lookup_swap _ _ _ _ _ _ Hx Hy) in Hv.
    assert (p ≠ c' ∧ c ≠ c') as [] by naive_solver.
    repeat case_decide; simplify_eq; try (unfold child in *; lia).
    + by eapply (Hb p c').
    + by eapply Hmin.
    + eapply (Hh p c); eauto. naive_solver.
  - intros p c u v Hp Hcp Hcc Hu Hv.
    rewrite (lookup_swap _ _ _ _ _ _ Hx Hy) in Hu. rewrite (lookup_swap _ _ _ _ _ _ Hx Hy) in Hv.
    assert (p = pos) as -> by (eapply child_unique; eauto).
    repeat case_decide; simplify_eq; try (unfold child in *; lia).
    eapply (Hh c' c); eauto; unfold child in *; lia.
Qed.

Lemma siftup_loop_heap fuel s pos h :
  length h ≤ fuel + pos → pos < length h → desc s pos →
  up_ready s pos h → heap_from s (siftup_loop fuel s pos h).
Proof.
  revert pos h. induction fuel as [|fuel IH]; intros pos h Hf Hpos Hd Hr; [lia|].
  cbn [siftup_loop]. destruct (Nat.ltb_spec (2 * pos + 1) (length h)) as [Hlt|Hge]; last first.
  { apply siftdown_heap, up_ready_leaf; auto. }
  destruct (lookup_lt_is_Some_2 _ _ Hpos) as [x Hx].
  destruct (lookup_lt_is_Some_2 _ _ Hlt) as [l Hl].
  rewrite Hl. pose proof (desc_ge _ _ Hd).
  destruct (h !! (2 * pos + 1 + 1)) as [r|] eqn:Hr'.
  - pose proof (lookup_lt_Some _ _ _ Hr').
    destruct (py_ltb l r) eqn:E;
      (apply IH; [rewrite length_swap; lia|rewrite length_swap; lia| |]);
      try (eapply desc_child; [done|unfold child; lia]);
      (eapply up_ready_step; [done|unfold child; lia|done|done| |done]);
      intros c z [->| ->] Hz; rewrite ?(Nat.add_assoc _ 1 1) in *; simplify_eq; auto with pydb.
    all: replace (2 * pos + 2) with (2 * pos + 1 + 1) in Hz by lia; simplify_eq; auto with pydb.
  - apply lookup_ge_None in Hr'.
    apply IH; [rewrite length_swap; lia|rewrite length_swap; lia| |].
    + eapply desc_child; [done|unfold child; lia].
    + eapply up_ready_step; [done|unfold child; lia|done|done| |done].
      intros c z [->| ->] Hz; simplify_eq; auto with pydb.
      apply lookup_lt_Some in Hz. lia.
Qed.

Lemma siftup_loop_Permutation fuel s pos h : siftup_loop fuel s pos h ≡ₚ h.
Proof.
  revert pos h. induction fuel as [|fuel IH]; intros pos h;
    cbn [siftup_loop]; [apply siftdown_loop_Permutation|].
  destruct (_ <? _); [|apply siftdown_loop_Permutation].
  by rewrite IH, swap_Permutation.
Qed.

Lemma siftup_Permutation pos h : siftup pos h ≡ₚ h.
Proof. apply siftup_loop_Permutation. Qed.

Lemma siftup_heap pos h :
  pos < length h → heap_from (S pos) h → heap_from pos (siftup pos h).
Proof.
  intros Hpos Hh. apply siftup_loop_heap; [lia|done|constructor|]. split.
  - intros p c x y Hs Hc Hne. apply (Hh p c); [|done|tauto].
    assert (p ≠ pos) by tauto. lia.
  - intros p c x y Hs Hc. unfold child in Hc. lia.
Qed.

(** *** The specifications clients use *)

(** The root of a heap is a least item. *)
Lemma heap_min h x y : is_heap h → h !! 0 = Some x → y ∈ h → py_le x y.
Proof.
  intros Hh Hx [i Hi]%list_elem_of_lookup. revert y Hi.
  induction i as [i IH] using lt_wf_ind. intros y Hi.
  destruct (decide (i = 0)) as [->|Hne]; [simplify_eq; auto with pydb|].
  pose proof (parent_child i ltac:(lia)) as Hc. set (p := (i - 1) / 2) in *.
  assert (p < i) by (unfold child in Hc; lia).
  destruct (lookup_lt_is_Some_2 h p) as [z Hz].
  { apply lookup_lt_Some in Hi. lia. }
  apply py_le_trans with z; [by apply (IH p)|]. apply (Hh p i); auto. lia.
Qed.

Lemma heappush_spec h x : is_heap h → is_heap (heappush h x) ∧ heappush h x ≡ₚ x :: h.
Proof.
  intros Hh. split.
  - apply siftdown_heap; [apply desc_root|]. split.
    + intros p c u v Hs Hc Hne Hu Hv.
      assert (c < length h).
      { apply lookup_lt_Some in Hv. rewrite length_app in Hv. simpl in Hv. lia. }
      rewrite lookup_app_l in Hu, Hv by (unfold child in *; lia). apply (Hh p c u v); auto.
    + intros p c u v Hs Hp Hc Hu Hv. apply lookup_lt_Some in Hv.
      rewrite length_app in Hv. simpl in Hv. unfold child in *. lia.
  - unfold heappush, siftdown. rewrite siftdown_loop_Permutation. by rewrite Permutation_app_comm.
Qed.

Lemma heappop_spec h :
  is_heap h →
  match heappop h with
  | None => h = []
  | Some (x, h') => is_heap h' ∧ h ≡ₚ x :: h' ∧ h !! 0 = Some x ∧ ∀ y, y ∈ h → py_le x y
  end.
Proof.
  intros Hh. unfold heappop.
  destruct (last h) as [z|] eqn:Hl; [|by apply last_None].
  apply last_Some in Hl as [k ->]. rewrite length_app, Nat.add_sub.
  rewrite take_app_length. destruct k as [|x k]; simpl in *.
  { split_and!; try done. intros y ->%list_elem_of_singleton. auto with pydb. }
  assert (Hperm : x :: k ++ [z] ≡ₚ x :: siftup 0 (z :: k)).
  { by rewrite siftup_Permutation, Permutation_app_comm. }
  split_and!; [|done|done|].
  - apply siftup_heap; [simpl; lia|]. intros p c u v Hs Hc _ Hu Hv.
    destruct p as [|p]; [lia|]. destruct c as [|c]; [unfold child in Hc; lia|].
    apply (Hh (S p) (S c)); [lia|done|tauto| |]; simpl in *; by apply lookup_app_l_Some.
  - intros y Hy. by eapply heap_min.
Qed.

Lemma heapify_loop_Permutation n h : heapify_loop n h ≡ₚ h.
Proof.
  revert h. induction n as [|n IH]; intros h; simpl; [done|]. by rewrite IH, siftup_Permutation.
Qed.

Lemma heapify_spec h : is_heap (heapify h) ∧ heapify h ≡ₚ h.
Proof.
  split; [|apply heapify_loop_Permutation]. unfold heapify.
  assert (Hb : length h / 2 ≤ length h) by (apply Nat.Div0.div_le_upper_bound; lia).
  assert (Hh : heap_from (length h / 2) h).
  { intros p c x y Hs Hc _ _ Hy. apply lookup_lt_Some in Hy. unfold child in Hc.
    pose proof (Nat.div_mod_eq (length h) 2). pose proof (Nat.mod_upper_bound (length h) 2). lia. }
  revert Hb Hh. generalize (length h / 2) as n. intros n. revert h.
  induction n as [|n IH]; intros h Hb Hh; simpl; [done|].
  apply IH; [rewrite siftup_Permutation; lia|]. apply siftup_heap; [lia|done].
Qed.
End heapq_correct.

(** ** Instances: strings and (number, string) tuples *)

(** [s < t] on strings: lexicographic on character codes. *)
Fixpoint str_ltb (s t : string) : bool :=
  match s, t with
  | EmptyString, String _ _ => true
  | String a s', String b t' =>
      let ca := Ascii.nat_of_ascii a in
      let cb := Ascii.nat_of_ascii b in
      (ca <? cb) || ((ca =? cb) && str_ltb s' t')
  | _, _ => false
  end.

Lemma nat_of_ascii_inj a b : Ascii.nat_of_ascii a = Ascii.nat_of_ascii b → a = b.
Proof. intros E. by rewrite <-(Ascii.ascii_nat_embedding a), E, Ascii.ascii_nat_embedding. Qed.

Lemma str_ltb_irrefl s : str_ltb s s = false.
Proof. induction s as [|a s IH]; cbn [str_ltb]; [done|]. lia. Qed.

Lemma str_ltb_trans s t u : str_ltb s t = true → str_ltb t u = true → str_ltb s u = true.
Proof.
  revert t u. induction s as [|a s IH]; intros [|b t] [|c u]; cbn [str_ltb]; try done.
  specialize (IH t u). destruct (str_ltb s t), (str_ltb t u), (str_ltb s u); lia.
Qed.

Lemma str_ltb_total s t : str_ltb s t = false → str_ltb t s = false → s = t.
Proof.
  revert t. induction s as [|a s IH]; intros [|b t]; cbn [str_ltb]; try done. intros H1 H2.
  assert (Ascii.nat_of_ascii a = Ascii.nat_of_ascii b) as E by lia.
  rewrite (nat_of_ascii_inj _ _ E) in *. f_equal. apply IH; lia.
Qed.

#[export] Instance string_PyOrder : PyOrder string := {|
  py_ltb := str_ltb;
  py_ltb_irrefl := str_ltb_irrefl;
  py_ltb_trans := str_ltb_trans;
  py_ltb_total := str_ltb_total |}.

(** [(m, s) < (n, t)] on tuples: the numbers first, then the strings. *)
Definition pair_ltb (p q : Z * string) : bool :=
  (p.1 <? q.1)%Z || ((p.1 =? q.1)%Z && str_ltb p.2 q.2).

#[export, refine] Instance pair_PyOrder : PyOrder (Z * string) := {| py_ltb := pair_ltb |}.
Proof.
  - intros [m s]. unfold pair_ltb. simpl. pose proof (str_ltb_irrefl s). lia.
  - intros [m s] [n t] [o u]. unfold pair_ltb. simpl. pose proof (str_ltb_trans s t u).
    destruct (str_ltb s t), (str_ltb t u), (str_ltb s u); lia.
  - intros [m s] [n t]. unfold pair_ltb. simpl. pose proof (str_ltb_total s t).
    destruct (str_ltb s t), (str_ltb t s); intros; f_equal; try lia; auto.
Defined.

Lemma py_le_fst (p q : Z * string) : py_le p q → (p.1 ≤ q.1)%Z.
Proof. unfold py_le. simpl. unfold pair_ltb. lia. Qed.

#[export] Hint Resolve py_le_fst : pydb.

Example heappop_example :
  heappop (heappush (heappush (heappush [] (3%Z, "c")) (1%Z, "b")) (1%Z, "a"))
  = Some ((1%Z, "a"), [(1%Z, "b"); (3%Z, "c")]).
Proof. reflexivity. Qed.
