(* ===== verification/PyHeapq.v ===== *)
(** * PyHeapq: [heapq] on a list of dynamic values

    [scheduler.py] keeps its queue as a plain list of tuples; after a trip through
    Redis the items are lists instead, and comparing a tuple with a list raises.
    This file models Python's [<] on dynamic values with its [TypeError], and the
    [heapq] functions on a list that stays as they left it when a comparison
    raises.  On a list of (number, string) tuples they coincide with the functions
    of [Heapq]; the transport lemmas say so. *)

From stdpp Require Import base list strings.
From Stdlib Require Import ZArith QArith Lia ZifyBool.
From S2P Require Import Prelude Heapq.

#[local] Open Scope nat_scope.

(** ** [<] on dynamic values *)

(** Sequences compare at their first differing position, otherwise by length. *)
Fixpoint py_lt (v w : pyval) {struct v} : res bool :=
  let fix ltl (l k : list pyval) {struct l} : res bool :=
    match l, k with
    | [], [] => Ok false
    | [], _ :: _ => Ok true
    | _ :: _, [] => Ok false
    | x :: l', y :: k' => if py_eqb x y then ltl l' k' else py_lt x y
    end in
  match v, w with
  | PStr a, PStr b => Ok (str_ltb a b)
  | PTimedelta a, PTimedelta b => Ok (a <? b)%Z
  | PTuple a, PTuple b | PList a, PList b => ltl a b
  | PSet a, PSet b =>
      Ok ((length a <? length b) && forallb (λ x, existsb (py_eqb x) b) a)
  | _, _ =>
      match as_num v, as_num w with
      | Some p, Some q => Ok (negb (Qle_bool q p))
      | _, _ => Raise TypeError
      end
  end.

(** ** The functions of [heapq], on a list held in the state *)

Fixpoint py_siftdown_loop (fuel startpos pos : nat) : M (list pyval) unit := λ h,
  match fuel with
  | O => (Ok (), h)
  | S fuel' =>
    if startpos <? pos then
      let parentpos := (pos - 1) / 2 in
      match h !! pos, h !! parentpos with
      | Some newitem, Some parent =>
        match py_lt newitem parent with
        | Ok true => py_siftdown_loop fuel' startpos parentpos (swap pos parentpos h)
        | Ok false => (Ok (), h)
        | Raise e => (Raise e, h)
        end
      | _, _ => (Ok (), h)
      end
    else (Ok (), h)
  end.

Definition py_siftdown (startpos pos : nat) : M (list pyval) unit := py_siftdown_loop pos startpos pos.

Fixpoint py_siftup_loop (fuel startpos pos : nat) : M (list pyval) unit := λ h,
  match fuel with
  | O => py_siftdown startpos pos h
  | S fuel' =>
    let childpos := 2 * pos + 1 in
    if childpos <? length h then
      let rightpos := childpos + 1 in
      let choice :=
        match h !! childpos, h !! rightpos with
        | Some l, Some r =>
            match py_lt l r with
            | Ok b => Ok (if b then childpos else rightpos)
            | Raise e => Raise e
            end
        | _, _ => Ok childpos
        end in
      match choice with
      | Ok childpos' => py_siftup_loop fuel' startpos childpos' (swap pos childpos' h)
      | Raise e => (Raise e, h)
      end
    else py_siftdown startpos pos h
  end.

Definition py_siftup (pos : nat) : M (list pyval) unit := λ h,
  py_siftup_loop (length h) pos pos h.

Definition py_heappush (x : pyval) : M (list pyval) unit := λ h,
  py_siftdown 0 (length h) (h ++ [x]).

Definition py_heappop : M (list pyval) pyval := λ h,
  match last h with
  | None => (Raise IndexError, h)
  | Some lastelt =>
    match take (length h - 1) h with
    | [] => (Ok lastelt, [])
    | returnitem :: rest =>
      match py_siftup 0 (lastelt :: rest) with
      | (Ok _, h') => (Ok returnitem, h')
      | (Raise e, h') => (Raise e, h')
      end
    end
  end.

Fixpoint py_heapify_loop (n : nat) : M (list pyval) unit :=
  match n with
  | O => mret ()
  | S i => py_siftup i ;; py_heapify_loop i
  end.

Definition py_heapify : M (list pyval) unit := λ h, py_heapify_loop (length h / 2) h.

(** ** Agreement with [Heapq] on (number, string) tuples *)

Definition enc (p : Z * string) : pyval := PTuple [PInt p.1; PStr p.2].

Lemma py_lt_enc p q : py_lt (enc p) (enc q) = Ok (py_ltb p q).
Proof.
  destruct p as [m s], q as [n t]. cbn [enc fst snd py_lt py_eqb as_num py_ltb pair_PyOrder].
  unfold pair_ltb. simpl.
  destruct (Qeq_bool (inject_Z m) (inject_Z n)) eqn:E.
  - apply Qeq_bool_iff in E. unfold Qeq in E. simpl in E.
    destruct (String.eqb_spec s t) as [->|]; [rewrite str_ltb_irrefl|]; f_equal; lia.
  - assert (m ≠ n) by (intros ->; rewrite (proj2 (Qeq_bool_iff _ _)) in E; [done|reflexivity]).
    f_equal. unfold Qle_bool, inject_Z. simpl. lia.
Qed.

Lemma swap_fmap {A B} (f : A → B) i j h : swap i j (f <$> h) = f <$> swap i j h.
Proof.
  unfold swap. rewrite !list_lookup_fmap. destruct (h !! i), (h !! j); simpl; try done.
  by rewrite !list_fmap_insert.
Qed.

Lemma py_siftdown_loop_enc fuel s pos h :
  py_siftdown_loop fuel s pos (enc <$> h) = (Ok (), enc <$> siftdown_loop fuel s pos h).
Proof.
  revert pos h. induction fuel as [|fuel IH]; intros pos h; cbn [py_siftdown_loop siftdown_loop]; [done|].
  destruct (s <? pos); [|done]. rewrite !list_lookup_fmap.
  destruct (h !! pos), (h !! ((pos - 1) / 2)); cbn [fmap option_fmap option_map]; try done.
  rewrite py_lt_enc. destruct (py_ltb _ _); [|done]. by rewrite swap_fmap, IH.
Qed.

Lemma py_siftup_loop_enc fuel s pos h :
  py_siftup_loop fuel s pos (enc <$> h) = (Ok (), enc <$> siftup_loop fuel s pos h).
Proof.
  revert pos h. induction fuel as [|fuel IH]; intros pos h; cbn [py_siftup_loop siftup_loop];
    [apply py_siftdown_loop_enc|].
  rewrite length_fmap. destruct (2 * pos + 1 <? length h); [|apply py_siftdown_loop_enc].
  rewrite !list_lookup_fmap.
  destruct (h !! (2 * pos + 1)), (h !! (2 * pos + 1 + 1)); cbn [fmap option_fmap option_map];
    rewrite ?py_lt_enc, swap_fmap; apply IH.
Qed.

Lemma py_heappush_enc p h : py_heappush (enc p) (enc <$> h) = (Ok (), enc <$> heappush h p).
Proof.
  unfold py_heappush, py_siftdown, heappush, siftdown.
  replace ((enc <$> h) ++ [enc p]) with (enc <$> (h ++ [p])) by (by rewrite fmap_app).
  rewrite length_fmap. apply py_siftdown_loop_enc.
Qed.

Lemma py_heappop_enc h p h' :
  heappop h = Some (p, h') → py_heappop (enc <$> h) = (Ok (enc p), enc <$> h').
Proof.
  unfold heappop, py_heappop. rewrite fmap_last. destruct (last h) as [z|]; [|done].
  cbn [fmap option_fmap option_map]. rewrite length_fmap, <-fmap_take.
  destruct (take (length h - 1) h) as [|x k]; [by intros [= <- <-]|]. intros [= <- <-].
  unfold py_siftup, siftup. cbn [fmap list_fmap].
  rewrite <-(fmap_cons enc z k), length_fmap, py_siftup_loop_enc. done.
Qed.

Lemma py_heapify_enc h : py_heapify (enc <$> h) = (Ok (), enc <$> heapify h).
Proof.
  unfold py_heapify, heapify. rewrite length_fmap. generalize (length h / 2) as n.
  intros n. revert h. induction n as [|n IH]; intros h; cbn [py_heapify_loop heapify_loop]; [done|].
  unfold mbind, M_bind, py_siftup, siftup. rewrite length_fmap, py_siftup_loop_enc. apply IH.
Qed.

(** ** Tuples and lists do not mix *)

(** Pushing a tuple onto a non-empty heap of lists raises; the item has already
    been appended. *)
Lemma py_heappush_mixed p h :
  h ≠ [] → Forall (λ v, ∃ l, v = PList l) h →
  py_heappush (enc p) h = (Raise TypeError, h ++ [enc p]).
Proof.
  intros Hne Hl. unfold py_heappush, py_siftdown.
  destruct h as [|v h]; [done|]. set (k := v :: h) in *.
  assert (0 < length k) as Hk by (simpl; lia).
  destruct (length k) as [|n] eqn:En; [lia|]. cbn [py_siftdown_loop].
  destruct (Nat.ltb_spec 0 (S n)); [|lia].
  rewrite lookup_app_r, <-En, Nat.sub_diag by lia. cbn [lookup list_lookup].
  set (pp := (length k - 1) / 2).
  assert (pp < length k) as Hpp.
  { pose proof (Nat.Div0.div_le_upper_bound (length k - 1) 2 (length k - 1)). lia. }
  destruct (lookup_lt_is_Some_2 k pp Hpp) as [w Hw]. rewrite lookup_app_l, Hw by done.
  destruct (proj1 (Forall_lookup _ _) Hl _ _ Hw) as [l ->]. done.
Qed.

Example py_heapq_example :
  (x ← py_heappush (enc (3%Z, "c")); py_heappush (enc (1%Z, "b")) ;; py_heappop) []
  = (Ok (enc (1%Z, "b")), [enc (3%Z, "c")]).
Proof. reflexivity. Qed.
