(* ===== verification/PyStr.v ===== *)
(** * PyStr: the string methods the code uses

    Python strings as Rocq strings of characters, with the methods and operators
    the modelled files call: [in], [lower], [startswith], [endswith], [split],
    [join], [replace], [strip], slices, repetition and [int(...)] of a string.
    Case mapping, white space and digits are those of ASCII. *)

From stdpp Require Import base list strings pretty.
From Stdlib Require Import ZArith Lia ZifyBool Ascii.
From S2P Require Import Prelude.

#[local] Open Scope Z_scope.

(** [sub in s]. *)
Fixpoint str_contains (sub s : string) : bool :=
  String.prefix sub s || match s with EmptyString => false | String _ s' => str_contains sub s' end.

Definition startswith (s p : string) : bool := String.prefix p s.

Fixpoint str_rev_app (s acc : string) : string :=
  match s with EmptyString => acc | String a s' => str_rev_app s' (String a acc) end.
Definition str_rev (s : string) : string := str_rev_app s "".

Definition endswith (s p : string) : bool := String.prefix (str_rev p) (str_rev s).

(** [s[:n]] and [s[n:]] for [n >= 0]. *)
Fixpoint str_take (n : nat) (s : string) : string :=
  match n, s with S n', String a s' => String a (str_take n' s') | _, _ => "" end.
Fixpoint str_drop (n : nat) (s : string) : string :=
  match n, s with S n', String _ s' => str_drop n' s' | _, _ => s end.

(** [c * n]. *)
Fixpoint str_repeat (c : string) (n : nat) : string :=
  match n with O => "" | S n' => c +:+ str_repeat c n' end.

Definition code (a : ascii) : Z := Z.of_nat (nat_of_ascii a).
Definition lower_ascii (a : ascii) : ascii :=
  if (65 <=? code a) && (code a <=? 90) then ascii_of_nat (Z.to_nat (code a + 32)) else a.

Fixpoint str_map (f : ascii → ascii) (s : string) : string :=
  match s with EmptyString => "" | String a s' => String (f a) (str_map f s') end.
Definition lower : string → string := str_map lower_ascii.

(** [s.replace(old, new)] for one-character [old] and [new]. *)
Definition replace_char (old new : ascii) : string → string :=
  str_map (λ a, if Ascii.eqb a old then new else a).

(** [s.split(sep)] for a one-character separator. *)
Fixpoint split_on (sep : ascii) (s : string) : list string :=
  match s with
  | EmptyString => [""]
  | String a s' =>
      if Ascii.eqb a sep then "" :: split_on sep s'
      else match split_on sep s' with
           | [] => [String a ""]
           | w :: ws => String a w :: ws
           end
  end.

(** [s.split(c, 1)]: the part before the first [c], and the part after it. *)
Fixpoint split_once (c : ascii) (s : string) : string * option string :=
  match s with
  | EmptyString => ("", None)
  | String a s' =>
      if Ascii.eqb a c then ("", Some s')
      else let '(x, y) := split_once c s' in (String a x, y)
  end.

(** [sep.join(l)]. *)
Fixpoint str_join (sep : string) (l : list string) : string :=
  match l with [] => "" | [w] => w | w :: ws => w +:+ sep +:+ str_join sep ws end.

Definition is_space (a : ascii) : bool :=
  (code a =? 32) || ((9 <=? code a) && (code a <=? 13)) || ((28 <=? code a) && (code a <=? 31)).

Fixpoint lstrip (s : string) : string :=
  match s with String a s' => if is_space a then lstrip s' else s | EmptyString => "" end.
Definition strip (s : string) : string := str_rev (lstrip (str_rev (lstrip s))).

Definition digit (a : ascii) : option Z :=
  if (48 <=? code a) && (code a <=? 57) then Some (code a - 48) else None.

(** Digits with single underscores between them; [prev] says whether the last
    character was a digit. *)
Fixpoint int_digits (acc : Z) (prev : bool) (s : string) : option Z :=
  match s with
  | EmptyString => if prev then Some acc else None
  | String a s' =>
      match digit a with
      | Some d => int_digits (10 * acc + d) true s'
      | None => if prev && (code a =? 95) then int_digits acc false s' else None
      end
  end.

(** [int(s)]: [None] is [ValueError]. *)
Definition int_of_str (s : string) : option Z :=
  match strip s with
  | String a s' =>
      if code a =? 45 then Z.opp <$> int_digits 0 false s'
      else if code a =? 43 then int_digits 0 false s'
      else int_digits 0 false (String a s')
  | EmptyString => None
  end.

(** ** Lemmas *)

Lemma str_app_cons x (a b : string) : String x a +:+ b = String x (a +:+ b).
Proof. done. Qed.

Lemma str_app_assoc (a b c : string) : (a +:+ b) +:+ c = a +:+ (b +:+ c).
Proof. induction a as [|x a IH]; [done|]. rewrite !str_app_cons. by rewrite IH. Qed.

Lemma str_app_nil_l (a : string) : "" +:+ a = a.
Proof. done. Qed.

Lemma str_app_nil_r (a : string) : a +:+ "" = a.
Proof. induction a as [|x a IH]; [done|]. by rewrite str_app_cons, IH. Qed.

Lemma str_length_app (a b : string) :
  String.length (a +:+ b) = (String.length a + String.length b)%nat.
Proof. induction a as [|x a IH]; [done|]. rewrite str_app_cons. simpl. by rewrite IH. Qed.

Lemma str_take_drop n s : str_take n s +:+ str_drop n s = s.
Proof.
  revert s. induction n as [|n IH]; intros [|a s]; simpl; try done. by rewrite str_app_cons, IH.
Qed.

Lemma str_length_take n s : String.length (str_take n s) = Nat.min n (String.length s).
Proof. revert s. induction n as [|n IH]; intros [|a s]; simpl; try done. by rewrite IH. Qed.

Lemma str_length_drop n s : String.length (str_drop n s) = (String.length s - n)%nat.
Proof. revert s. induction n as [|n IH]; intros [|a s]; simpl; try done. Qed.

Lemma str_length_repeat a n : String.length (str_repeat (String a "") n) = n.
Proof. induction n as [|n IH]; [done|]. cbn [str_repeat]. by rewrite str_length_app, IH. Qed.

Lemma str_take_app a b : str_take (String.length a) (a +:+ b) = a.
Proof. induction a as [|x a IH]; [by destruct b|]. rewrite str_app_cons. simpl. by rewrite IH. Qed.

Lemma str_drop_app a b : str_drop (String.length a) (a +:+ b) = b.
Proof. induction a as [|x a IH]; [by destruct b|]. rewrite str_app_cons. simpl. by rewrite IH. Qed.

Lemma str_app_inj_l (a b c : string) : a +:+ b = a +:+ c → b = c.
Proof. induction a as [|x a IH]; [done|]. rewrite !str_app_cons. intros [= E]. auto. Qed.

Lemma str_app_inj_r (a b c : string) : a +:+ c = b +:+ c → a = b.
Proof.
  revert b. induction a as [|x a IH]; intros [|y b]; rewrite ?str_app_cons; intros E; try done.
  - apply (f_equal String.length) in E. simpl in E. rewrite !str_length_app in E. simpl in E. lia.
  - apply (f_equal String.length) in E. simpl in E. rewrite !str_length_app in E. simpl in E. lia.
  - injection E as -> E. f_equal. eauto.
Qed.

Lemma prefix_app_self (a b : string) : String.prefix a (a +:+ b) = true.
Proof.
  induction a as [|x a IH]; [by destruct b|]. rewrite str_app_cons. simpl. by destruct (ascii_dec x x).
Qed.

(** ** Reversal, suffixes and segments *)

(** Every character satisfies [P]. *)
Fixpoint str_all (P : ascii → bool) (s : string) : bool :=
  match s with EmptyString => true | String a s' => P a && str_all P s' end.

Lemma str_all_app P a b : str_all P (a +:+ b) = str_all P a && str_all P b.
Proof. induction a as [|x a IH]; [done|]. rewrite str_app_cons. simpl. by rewrite IH, andb_assoc. Qed.

Lemma str_rev_app_eq s acc : str_rev_app s acc = str_rev s +:+ acc.
Proof.
  unfold str_rev. revert acc. induction s as [|a s IH]; intros acc; simpl; [done|].
  by rewrite IH, (IH (String a "")), str_app_assoc.
Qed.

Lemma str_rev_cons a s : str_rev (String a s) = str_rev s +:+ String a "".
Proof. unfold str_rev at 1. simpl. apply str_rev_app_eq. Qed.

Lemma str_rev_concat a b : str_rev (a +:+ b) = str_rev b +:+ str_rev a.
Proof.
  induction a as [|x a IH]; [by rewrite str_app_nil_r|].
  by rewrite str_app_cons, !str_rev_cons, IH, str_app_assoc.
Qed.

Lemma str_rev_involutive s : str_rev (str_rev s) = s.
Proof. induction s as [|a s IH]; [done|]. by rewrite str_rev_cons, str_rev_concat, IH. Qed.

Lemma str_all_rev P s : str_all P (str_rev s) = str_all P s.
Proof.
  induction s as [|a s IH]; [done|]. rewrite str_rev_cons, str_all_app, IH. simpl.
  by rewrite andb_true_r, andb_comm.
Qed.

Lemma endswith_app a b : endswith (a +:+ b) b = true.
Proof. unfold endswith. rewrite str_rev_concat. apply prefix_app_self. Qed.

Lemma prefix_comparable a b s :
  String.prefix a s = true → String.prefix b s = true →
  String.prefix a b || String.prefix b a = true.
Proof.
  revert b s. induction a as [|x a IH]; intros [|y b] [|z s]; simpl; try done.
  destruct (ascii_dec x z), (ascii_dec y z); try done. intros Ha Hb. subst.
  destruct (ascii_dec z z); [|done]. eauto.
Qed.

(** Of two suffixes of one string, one is a suffix of the other. *)
Lemma endswith_excl s p q :
  endswith s p = true → endswith p q = false → endswith q p = false → endswith s q = false.
Proof.
  unfold endswith. intros Hp H1 H2. apply not_true_iff_false. intros Hq.
  pose proof (prefix_comparable _ _ _ Hp Hq) as H. rewrite H1, H2 in H. done.
Qed.

Lemma startswith_excl s p q :
  startswith s p = true → startswith p q = false → startswith q p = false → startswith s q = false.
Proof.
  unfold startswith. intros Hp H1 H2. apply not_true_iff_false. intros Hq.
  pose proof (prefix_comparable _ _ _ Hp Hq) as H. rewrite H1, H2 in H. done.
Qed.

Lemma eqb_endswith s c p : endswith s p = true → endswith c p = false → String.eqb s c = false.
Proof. intros Hs Hc. destruct (String.eqb_spec s c); congruence. Qed.

(** Prefixes and suffixes as equations. *)
Lemma startswith_iff s p : startswith s p = true ↔ ∃ u, s = p +:+ u.
Proof.
  unfold startswith. split.
  - revert s. induction p as [|x p IH]; intros s; [by exists s|].
    destruct s as [|y s]; simpl; [done|]. destruct (ascii_dec x y) as [->|]; [|done].
    intros (u & ->)%IH. by exists u.
  - intros (u & ->). apply prefix_app_self.
Qed.

Lemma endswith_iff s p : endswith s p = true ↔ ∃ u, s = u +:+ p.
Proof.
  split; [|intros (u & ->); apply endswith_app].
  intros (u & Hu)%startswith_iff. exists (str_rev u).
  by rewrite <-(str_rev_involutive s), Hu, str_rev_concat, str_rev_involutive.
Qed.

Lemma str_contains_iff sub s : str_contains sub s = true ↔ ∃ a b, s = a +:+ sub +:+ b.
Proof.
  split.
  - induction s as [|c s IH].
    + unfold str_contains. intros H. assert (H' : startswith "" sub = true) by (revert H; by rewrite ?orb_false_r).
      apply startswith_iff in H' as [u Hu]. by exists "", u.
    + cbn [str_contains]. intros [H|H]%orb_true_iff.
      * apply startswith_iff in H as [u Hu]. by exists "", u.
      * destruct (IH H) as (a & b & ->). by exists (String c a), b.
  - intros (a & b & ->). induction a as [|c a IH].
    + rewrite str_app_nil_l. destruct (sub +:+ b) eqn:E; cbn [str_contains]; rewrite <-E, prefix_app_self; done.
    + rewrite str_app_cons. cbn [str_contains]. by rewrite IH, orb_true_r.
Qed.

(** A prefix is cut off a split at its last separator. *)
Lemma split_on_app sep a b :
  str_all (λ x, negb (Ascii.eqb x sep)) a = true →
  split_on sep (a +:+ String sep b) = a :: split_on sep b.
Proof.
  induction a as [|x a IH]; intros Ha; [simpl; by rewrite Ascii.eqb_refl|].
  rewrite str_app_cons. simpl in *. apply andb_true_iff in Ha as [Hx Ha].
  apply negb_true_iff in Hx. by rewrite Hx, IH.
Qed.

Lemma split_on_nonempty sep s : split_on sep s ≠ [].
Proof. destruct s as [|a s]; simpl; [done|]. destruct (Ascii.eqb a sep); [done|]. by destruct (split_on sep s). Qed.

Lemma str_all_impl (P Q : ascii → bool) s :
  (∀ a, P a = true → Q a = true) → str_all P s = true → str_all Q s = true.
Proof. intros HPQ. induction s as [|a s IH]; simpl; [done|]. rewrite !andb_true_iff. intuition. Qed.

Lemma split_once_none c s : str_all (λ a, negb (Ascii.eqb a c)) s = true → split_once c s = (s, None).
Proof.
  induction s as [|a s IH]; simpl; [done|]. intros [Ha Hs]%andb_true_iff.
  apply negb_true_iff in Ha. by rewrite Ha, IH.
Qed.

Lemma split_once_app c a b :
  str_all (λ x, negb (Ascii.eqb x c)) a = true → split_once c (a +:+ String c b) = (a, Some b).
Proof.
  induction a as [|x a IH]; intros Ha; [simpl; by rewrite Ascii.eqb_refl|].
  rewrite str_app_cons. simpl in *. apply andb_true_iff in Ha as [Hx Ha].
  apply negb_true_iff in Hx. by rewrite Hx, IH.
Qed.

(** A string that neither starts nor ends with white space. *)
Definition tight (s : string) : bool :=
  let head_ok s := match s with EmptyString => true | String a _ => negb (is_space a) end in
  head_ok s && head_ok (str_rev s).

Lemma strip_tight s : tight s = true → strip s = s.
Proof.
  assert (Hl : ∀ s, match s with EmptyString => true | String a _ => negb (is_space a) end = true → lstrip s = s).
  { intros [|a x]; simpl; [done|]. by intros ->%negb_true_iff. }
  unfold tight. intros [H1 H2]%andb_true_iff. unfold strip. rewrite (Hl s), Hl by done.
  apply str_rev_involutive.
Qed.

Lemma strip_nospace s : str_all (λ a, negb (is_space a)) s = true → strip s = s.
Proof.
  intros Hs. apply strip_tight. unfold tight. pose proof Hs as Hr. rewrite <- str_all_rev in Hr.
  destruct s, (str_rev _); simpl in *; try done; rewrite ?andb_true_iff in *; naive_solver.
Qed.

Lemma strip_space s : strip (String " " s) = strip s.
Proof. done. Qed.

Lemma str_contains_mid c a b : str_contains (String c "") (a +:+ String c b) = true.
Proof.
  induction a as [|x a IH].
  - simpl. destruct (ascii_dec c c); [|done]. by destruct b.
  - rewrite str_app_cons. cbn [str_contains]. rewrite IH. apply orb_true_r.
Qed.

(** ** Decimal notation *)

Definition is_digit (a : ascii) : bool := match digit a with Some _ => true | None => false end.

Lemma is_digit_not_space a : is_digit a = true → is_space a = false.
Proof. unfold is_digit, digit, is_space. destruct (_ && _) eqn:E; [|done]. lia. Qed.

Lemma strip_digits s : str_all is_digit s = true → strip s = s.
Proof.
  intros Hs. apply strip_nospace. eapply str_all_impl; [|exact Hs].
  intros a Ha. by rewrite is_digit_not_space.
Qed.

Lemma digit_pretty_char (x : N) : (x < 10)%N → digit (pretty_N_char x) = Some (Z.of_N x).
Proof.
  intros Hx. assert (x = 0 ∨ x = 1 ∨ x = 2 ∨ x = 3 ∨ x = 4 ∨ x = 5 ∨ x = 6 ∨ x = 7 ∨ x = 8 ∨ x = 9)%N
    as Hc by lia. by destruct_or! Hc; subst.
Qed.

Lemma pretty_N_go_digits x s : str_all is_digit s = true → str_all is_digit (pretty_N_go x s) = true.
Proof.
  revert s. induction (N.lt_wf_0 x) as [x _ IH]; intros s Hs.
  destruct (decide (x = 0)%N) as [->|Hx]; [done|].
  rewrite pretty_N_go_step by lia. apply IH; [by apply N.div_lt; lia|].
  cbn [str_all]. unfold is_digit at 1. rewrite digit_pretty_char by (apply N.mod_lt; lia). done.
Qed.

Lemma int_digits_pretty_go x p s :
  int_digits 0 p (pretty_N_go x s) =
    if (0 <? x)%N then int_digits (Z.of_N x) true s else int_digits 0 p s.
Proof.
  revert s. induction (N.lt_wf_0 x) as [x _ IH]; intros s.
  destruct (decide (x = 0)%N) as [->|Hx]; [done|].
  rewrite pretty_N_go_step by lia. rewrite IH by (apply N.div_lt; lia).
  assert (Hm : (x mod 10 < 10)%N) by (apply N.mod_lt; lia).
  assert (Hd : x = (10 * (x / 10) + x mod 10)%N) by (apply N.div_mod; lia).
  cbn [int_digits]. rewrite digit_pretty_char by done.
  destruct (N.ltb_spec 0 x); [|lia]. destruct (N.ltb_spec 0 (x / 10)); f_equal; lia.
Qed.

Lemma str_of_Z_pos n : 0 < n → str_of_Z n = pretty_N_go (Z.to_N n) "".
Proof. intros Hn. destruct n; [lia| |lia]. done. Qed.

Lemma str_of_Z_digits n : 0 ≤ n → str_all is_digit (str_of_Z n) = true.
Proof.
  intros Hn. destruct (decide (n = 0)) as [->|]; [done|].
  rewrite str_of_Z_pos by lia. by apply pretty_N_go_digits.
Qed.

(** [int(str(n)) == n]. *)
Lemma int_of_str_of_Z n : 0 ≤ n → int_of_str (str_of_Z n) = Some n.
Proof.
  intros Hn. destruct (decide (n = 0)) as [->|Hz]; [done|].
  pose proof (str_of_Z_digits n Hn) as Hd. unfold int_of_str. rewrite strip_digits by done.
  assert (Hi : int_digits 0 false (str_of_Z n) = Some n).
  { rewrite str_of_Z_pos, int_digits_pretty_go by lia. destruct (N.ltb_spec 0 (Z.to_N n)); [|lia].
    cbn [int_digits]. f_equal. lia. }
  destruct (str_of_Z n) as [|a s]; [done|]. simpl in Hd. apply andb_true_iff in Hd as [Ha _].
  unfold is_digit, digit in Ha. destruct (_ && _) eqn:E; [|done].
  destruct (Z.eqb_spec (code a) 45); [lia|]. destruct (Z.eqb_spec (code a) 43); [lia|]. done.
Qed.

#[export] Instance str_of_Z_inj : Inj (=) (=) str_of_Z.
Proof. apply pretty_Z_inj. Qed.

Example int_of_str_ex : int_of_str " 4_29 " = Some 429 ∧ int_of_str "" = None ∧ int_of_str "a" = None.
Proof. auto. Qed.
Example split_ex : split_on "/" "a/b/" = ["a"; "b"; ""].
Proof. done. Qed.
