(* ===== verification/InMemoryCache.v ===== *)
(** * InMemoryCache: [caching/in_memory_cache.py]

    The TTL cache every other component stores its counters in: [cache_dict] maps
    keys to values, [ttl_dict] to expiry times, and [expiration_heap] is a lazy
    priority queue of [(expiry, key)] pairs that may hold stale entries.

    The state is the record [t]; the methods are functions on it.  A method reads
    the clock once ([now]).  [wf] is the representation invariant; [step] is the
    transition relation of a running cache and [reachable] its closure. *)

From stdpp Require Import base gmap sets list strings fin_maps.
From Stdlib Require Import ZArith QArith Lia ZifyBool.
From S2P Require Import Prelude Heapq.

#[local] Open Scope Z_scope.

(** [litellm.constants]: the second assignment is the effective one. *)
Definition MAX_SIZE_PER_ITEM_IN_MEMORY_CACHE_IN_KB : Z := 512.

Module InMemoryCache.

Record t := mk {
  max_size_in_memory : Z;
  default_ttl : Z;
  max_size_per_item : Z;
  cache_dict : gmap string pyval;
  ttl_dict : gmap string Z;
  expiration_heap : list (Z * string)
}.

Definition with_cache (f : gmap string pyval → gmap string pyval) (c : t) : t :=
  mk (max_size_in_memory c) (default_ttl c) (max_size_per_item c)
     (f (cache_dict c)) (ttl_dict c) (expiration_heap c).

Definition with_ttl (f : gmap string Z → gmap string Z) (c : t) : t :=
  mk (max_size_in_memory c) (default_ttl c) (max_size_per_item c)
     (cache_dict c) (f (ttl_dict c)) (expiration_heap c).

Definition with_heap (h : list (Z * string)) (c : t) : t :=
  mk (max_size_in_memory c) (default_ttl c) (max_size_per_item c)
     (cache_dict c) (ttl_dict c) h.

(** [x or dflt] on an optional integer: [None] and [0] select the default. *)
Definition or_int (x : option Z) (dflt : Z) : Z :=
  match x with Some n => if n =? 0 then dflt else n | None => dflt end.

(** [__init__]. *)
Definition init (max_size : option Z) (ttl per_item : option Z) : t :=
  mk (default 200 max_size) (or_int ttl (seconds 600))
     (or_int per_item MAX_SIZE_PER_ITEM_IN_MEMORY_CACHE_IN_KB) ∅ ∅ [].

(** [InMemoryCache()]. *)
Definition init_default : t := init (Some 200) (Some (seconds 600)) (Some 1024).

Section ops.
Context `{PyRuntime}.

(** Every object has [__sizeof__], so the code after that test never runs. *)
Definition check_value_size (c : t) (value : pyval) : bool :=
  match prim_str value with
  | Some s =>
      (Z.of_nat (String.length s) <? max_size_per_item c * MAX_SIZE_PER_ITEM_IN_MEMORY_CACHE_IN_KB)
      || (obj_sizeof value <=? max_size_per_item c * 1024)
  | None => obj_sizeof value <=? max_size_per_item c * 1024
  end.

Definition _is_key_expired (now : Z) (key : string) (c : t) : bool :=
  match ttl_dict c !! key with Some e => e <? now | None => false end.

Definition _remove_key (key : string) (c : t) : t :=
  with_ttl (delete key) (with_cache (delete key) c).

(** [evict_cache], step 1: pop outdated and expired heap entries.  Every round
    pops one entry. *)
Fixpoint evict_expired (fuel : nat) (now : Z) (c : t) : t :=
  match fuel with
  | O => c
  | S fuel' =>
    match expiration_heap c, heappop (expiration_heap c) with
    | (expiration_time, key) :: _, Some (_, rest) =>
      if decide (ttl_dict c !! key = Some expiration_time) then
        if expiration_time <=? now
        then evict_expired fuel' now (_remove_key key (with_heap rest c))
        else c
      else evict_expired fuel' now (with_heap rest c)
    | _, _ => c
    end
  end.

(** [evict_cache], step 2: while the cache is full, drop the entry that expires
    first; [heappop] on the empty heap raises. *)
Fixpoint evict_full (fuel : nat) : M t unit := λ c,
  match fuel with
  | O => (Ok (), c)
  | S fuel' =>
    if max_size_in_memory c <=? Z.of_nat (size (cache_dict c)) then
      match heappop (expiration_heap c) with
      | None => (Raise IndexError, c)
      | Some ((expiration_time, key), rest) =>
        if decide (ttl_dict c !! key = Some expiration_time)
        then evict_full fuel' (_remove_key key (with_heap rest c))
        else evict_full fuel' (with_heap rest c)
      end
    else (Ok (), c)
  end.

Definition evict_cache (now : Z) : M t unit := λ c,
  let c1 := evict_expired (length (expiration_heap c)) now c in
  evict_full (S (length (expiration_heap c1))) c1.

Definition allow_ttl_override (now : Z) (key : string) (c : t) : bool :=
  match ttl_dict c !! key with
  | None => true
  | Some ttl_time => ttl_time <? now
  end.

(** The expiry time [set_cache] computes from its keyword arguments. *)
Definition expiry (now : Z) (ttl : ttl_kw) (c : t) : Z :=
  match ttl with Some (Some d) => now + d | _ => now + default_ttl c end.

Definition store (now : Z) (key : string) (value : pyval) (ttl : ttl_kw) (c : t) : t :=
  let c1 := with_cache (<[key := value]>) c in
  if allow_ttl_override now key c1 then
    let e := expiry now ttl c1 in
    with_heap (heappush (expiration_heap c1) (e, key)) (with_ttl (<[key := e]>) c1)
  else c1.

Definition set_cache (now : Z) (key : string) (value : pyval) (ttl : ttl_kw) : M t unit :=
  c ← m_get;
  if max_size_in_memory c =? 0 then mret () else
  (if max_size_in_memory c <=? Z.of_nat (size (cache_dict c)) then evict_cache now else mret ()) ;;
  c ← m_get;
  if check_value_size c value then m_put (store now key value ttl c) else mret ().

Definition async_set_cache := set_cache.

(** A given [ttl] reaches [set_cache]; otherwise it is called without one. *)
Definition async_set_cache_pipeline (now : Z) (cache_list : list (string * pyval))
    (ttl : option Z) : M t unit :=
  m_iter (λ kv, set_cache now kv.1 kv.2 (match ttl with Some d => Some (Some d) | None => None end))
    cache_list.

(** The boolean result and the new state. *)
Definition evict_element_if_expired (now : Z) (key : string) (c : t) : bool * t :=
  if _is_key_expired now key c then (true, _remove_key key c) else (false, c).

(** [json.loads] of the stored object; anything but text raises, and the object
    itself is returned. *)
Definition loads_or_self (v : pyval) : pyval :=
  match v with PStr s => default v (json_loads s) | _ => v end.

Definition get_cache (now : Z) (key : string) : M t pyval := λ c,
  match cache_dict c !! key with
  | None => (Ok PNone, c)
  | Some _ =>
    match evict_element_if_expired now key c with
    | (true, c') => (Ok PNone, c')
    | (false, c') => (Ok (loads_or_self (default PNone (cache_dict c' !! key))), c')
    end
  end.

Definition async_get_cache := get_cache.

Definition batch_get_cache (now : Z) (keys : list string) : M t (list pyval) :=
  m_map (get_cache now) keys.

Definition async_batch_get_cache (now : Z) (keys : list string) : M t (list pyval) :=
  m_map (async_get_cache now) keys.

Definition increment_cache (now : Z) (key : string) (value : pyval) (ttl : ttl_kw) : M t pyval :=
  v ← get_cache now key;
  value' ← m_lift (py_add (py_or v (PInt 0)) value);
  set_cache now key value' ttl ;;
  mret value'.

Definition async_increment (now : Z) (key : string) (value : pyval) (ttl : ttl_kw) : M t pyval :=
  v ← async_get_cache now key;
  value' ← m_lift (py_add (py_or v (PInt 0)) value);
  async_set_cache now key value' ttl ;;
  mret value'.

Definition async_increment_pipeline (now : Z) (increment_list : list (string * pyval))
    (ttl : ttl_kw) : M t (list pyval) :=
  m_map (λ kv, async_increment now kv.1 kv.2 ttl) increment_list.

(** [set.add]. *)
Definition set_add (v : pyval) (l : list pyval) : res (list pyval) :=
  if hashable v then Ok (if existsb (py_eqb v) l then l else l ++ [v]) else Raise TypeError.

(** The cached set object is mutated in place, element by element, before it is
    stored again. *)
Definition alias_update (key : string) (v : pyval) (c : t) : t :=
  if decide (is_Some (cache_dict c !! key)) then with_cache (<[key := v]>) c else c.

Fixpoint sadd_loop (key : string) (aliased : bool) (vals : list pyval) (acc : list pyval)
    : M t (list pyval) :=
  match vals with
  | [] => mret acc
  | v :: vals' =>
      acc' ← m_lift (set_add v acc);
      (if aliased then m_modify (alias_update key (PSet acc')) else mret ()) ;;
      sadd_loop key aliased vals' acc'
  end.

Definition async_set_cache_sadd (now : Z) (key : string) (value : list pyval) (ttl : option Z)
    : M t (list pyval) :=
  v ← get_cache now key;
  match py_or v (PSet []) with
  | PSet init_value =>
      acc ← sadd_loop key (truthy v) value init_value;
      set_cache now key (PSet acc) (Some ttl) ;;
      mret value
  | _ => match value with [] => set_cache now key v (Some ttl) ;; mret value
                        | _ => m_raise AttributeError end
  end.

Definition flush_cache (c : t) : t :=
  with_heap [] (with_ttl (λ _, ∅) (with_cache (λ _, ∅) c)).

Definition delete_cache (key : string) (c : t) : t := _remove_key key c.

Definition async_get_ttl (key : string) (c : t) : option Z := ttl_dict c !! key.
End ops.

(** ** The representation invariant *)

(** The part of the invariant that eviction works with: both dictionaries have
    the same keys, the heap is a heap, and every live expiry time has its heap
    entry (the heap may hold more: entries of overwritten or deleted keys). *)
Record core (c : t) : Prop := {
  core_dom : dom (cache_dict c) = dom (ttl_dict c);
  core_heap : is_heap (expiration_heap c);
  core_entry k e : ttl_dict c !! k = Some e → (e, k) ∈ expiration_heap c
}.

Record wf (c : t) : Prop := {
  wf_core : core c;
  wf_max : 0 ≤ max_size_in_memory c;
  wf_size : Z.of_nat (size (cache_dict c)) ≤ max_size_in_memory c
}.

(** The configuration fields, which no method changes. *)
Definition cfg (c : t) : Z * Z * Z := (max_size_in_memory c, default_ttl c, max_size_per_item c).

#[export] Hint Resolve wf_core wf_max wf_size core_heap : pydb.

(** One round of either eviction loop: pop the least heap entry, and drop the key
    when the entry is current. *)
Definition pop_step (c c' : t) : Prop :=
  ∃ e k rest, heappop (expiration_heap c) = Some ((e, k), rest) ∧
    c' = if decide (ttl_dict c !! k = Some e)
         then _remove_key k (with_heap rest c) else with_heap rest c.

(** [c'] keeps some entries of [c], unchanged. *)
Definition shrinks (c c' : t) : Prop :=
  ∀ k, (ttl_dict c' !! k = ttl_dict c !! k ∧ cache_dict c' !! k = cache_dict c !! k) ∨
       (ttl_dict c' !! k = None ∧ cache_dict c' !! k = None).

(** Whatever [c'] dropped expires no later than whatever it kept. *)
Definition earliest_first (c c' : t) : Prop :=
  ∀ k e k' e', ttl_dict c !! k = Some e → ttl_dict c' !! k = None →
    ttl_dict c' !! k' = Some e' → e ≤ e'.

Lemma core_remove k c : core c → core (_remove_key k c).
Proof.
  intros [Hd Hh He]. split; simpl; [by rewrite !dom_delete_L, Hd|done|].
  intros k' e [_ Hk]%lookup_delete_Some. by apply He.
Qed.

Lemma core_pop e k rest c :
  core c → heappop (expiration_heap c) = Some ((e, k), rest) →
  is_heap rest ∧ (∀ k' e', ttl_dict c !! k' = Some e' → (e', k') ≠ (e, k) → (e', k') ∈ rest) ∧
  (∀ k' e', ttl_dict c !! k' = Some e' → e ≤ e').
Proof.
  intros [Hd Hh He] Hpop. pose proof (heappop_spec _ Hh) as Hs. rewrite Hpop in Hs.
  destruct Hs as (Hr & Hperm & _ & Hmin). split_and!; [done| |].
  - intros k' e' Hk Hne. apply He in Hk. rewrite Hperm in Hk. by apply elem_of_cons in Hk as [?|].
  - intros k' e' Hk. by apply He, Hmin, py_le_fst in Hk.
Qed.

Lemma pop_step_core c c' : core c → pop_step c c' → core c'.
Proof.
  intros Hc (e & k & rest & Hpop & ->).
  destruct (core_pop _ _ _ _ Hc Hpop) as (Hr & Hin & _). destruct Hc as [Hd Hh He].
  case_decide as Hk; split; simpl; try done.
  - by rewrite !dom_delete_L, Hd.
  - intros k' e' [Hne Hk']%lookup_delete_Some. apply Hin; [done|congruence].
  - intros k' e' Hk'. apply Hin; [done|congruence].
Qed.

Lemma pop_step_shrinks c c' : pop_step c c' → shrinks c c'.
Proof.
  intros (e & k & rest & _ & ->) k'. case_decide; simpl; [|auto].
  destruct (decide (k = k')) as [->|]; [right|left].
  - by rewrite !lookup_delete_eq.
  - by rewrite !lookup_delete_ne.
Qed.

Lemma pop_step_cfg c c' : pop_step c c' → cfg c' = cfg c.
Proof. intros (e & k & rest & _ & ->). by case_decide. Qed.

Lemma pop_step_earliest c c' : core c → pop_step c c' → earliest_first c c'.
Proof.
  intros Hc (e & k & rest & Hpop & ->) k1 e1 k2 e2 H1 H1' H2.
  destruct (core_pop _ _ _ _ Hc Hpop) as (_ & _ & Hmin).
  case_decide; simpl in *; [|congruence].
  destruct (decide (k = k1)) as [->|]; [|by rewrite lookup_delete_ne in H1'; congruence].
  simplify_eq. apply lookup_delete_Some in H2 as []. eauto.
Qed.

Lemma shrinks_trans c1 c2 c3 : shrinks c1 c2 → shrinks c2 c3 → shrinks c1 c3.
Proof.
  intros H1 H2 k. destruct (H2 k) as [[-> ->]|]; [apply H1|auto].
Qed.

Lemma pop_steps_spec c c' :
  core c → rtc pop_step c c' →
  core c' ∧ cfg c' = cfg c ∧ shrinks c c' ∧ earliest_first c c'.
Proof.
  intros Hc Hs. induction Hs as [c|c1 c2 c3 H12 _ IH].
  { split_and!; [done|done|intros k; auto|]. intros ???? H1 H1'. congruence. }
  pose proof (pop_step_shrinks _ _ H12) as Hsh. pose proof (pop_step_earliest _ _ Hc H12) as He.
  destruct (IH (pop_step_core _ _ Hc H12)) as (Hc3 & Hcfg & Hsh3 & He3). split_and!; [done| | |].
  - by rewrite Hcfg, (pop_step_cfg _ _ H12).
  - by eapply shrinks_trans.
  - intros k1 e1 k2 e2 H1 H1' H2. destruct (Hsh k1) as [[E _]|[E _]].
    + rewrite <-E in H1. eauto.
    + destruct (Hsh3 k2) as [[E2 _]|[E2 _]]; rewrite E2 in H2; [eauto|done].
Qed.

(** ** Eviction *)

Section facts.
Context `{PyRuntime}.

Lemma evict_expired_steps fuel now c : core c → rtc pop_step c (evict_expired fuel now c).
Proof.
  revert c. induction fuel as [|fuel IH]; intros c Hc; simpl; [done|].
  pose proof (heappop_spec _ (core_heap _ Hc)) as Hs.
  destruct (expiration_heap c) as [|[e k] h] eqn:Hh; [done|].
  destruct (heappop ((e, k) :: h)) as [[[e' k'] rest]|] eqn:Hp; [|done].
  destruct Hs as (_ & _ & [= <- <-] & _). rewrite <-Hh in Hp.
  assert (Hst : pop_step c (if decide (ttl_dict c !! k = Some e)
       then _remove_key k (with_heap rest c) else with_heap rest c)) by (by exists e, k, rest).
  pose proof (pop_step_core _ _ Hc Hst). case_decide; [case_match; [|done]|];
    (eapply rtc_l; [exact Hst|]; auto).
Qed.

(** Step 2 ends with room in the cache and never pops an empty heap. *)
Lemma evict_full_spec fuel c :
  core c → 0 < max_size_in_memory c → (length (expiration_heap c) < fuel)%nat →
  ∃ c', evict_full fuel c = (Ok (), c') ∧ rtc pop_step c c' ∧
    Z.of_nat (size (cache_dict c')) < max_size_in_memory c'.
Proof.
  revert c. induction fuel as [|fuel IH]; intros c Hc Hmax Hf; [lia|]. cbn [evict_full].
  destruct (Z.leb_spec (max_size_in_memory c) (Z.of_nat (size (cache_dict c)))) as [Hle|]; last first.
  { exists c. eauto using rtc_refl. }
  pose proof (heappop_spec _ (core_heap _ Hc)) as Hs.
  destruct (heappop _) as [[[e k] rest]|] eqn:Hp.
  - set (c1 := if decide (ttl_dict c !! k = Some e)
       then _remove_key k (with_heap rest c) else with_heap rest c).
    assert (Hst : pop_step c c1) by (by exists e, k, rest).
    destruct Hs as (_ & Hperm%Permutation_length & _). simpl in Hperm.
    destruct (IH c1) as (c' & He & Hr & Hlt).
    + by eapply pop_step_core.
    + pose proof (pop_step_cfg _ _ Hst) as [= -> _ _]. done.
    + unfold c1. case_decide; simpl; lia.
    + exists c'. split_and!; [|by eapply rtc_l|done]. rewrite <-He. unfold c1. by case_decide.
  - destruct Hc as [Hd _ He]. assert (cache_dict c ≠ ∅) as Hne.
    { intros E. rewrite E, map_size_empty in Hle. lia. }
    apply map_choose in Hne as (k & v & Hk).
    assert (is_Some (ttl_dict c !! k)) as [e Hke].
    { apply elem_of_dom. rewrite <-Hd. apply elem_of_dom. eauto. }
    apply He in Hke. rewrite Hs in Hke. by apply not_elem_of_nil in Hke.
Qed.

Lemma evict_cache_spec now c :
  core c → 0 < max_size_in_memory c →
  ∃ c', evict_cache now c = (Ok (), c') ∧ rtc pop_step c c' ∧
    Z.of_nat (size (cache_dict c')) < max_size_in_memory c'.
Proof.
  intros Hc Hmax. unfold evict_cache. set (c1 := evict_expired _ now c).
  pose proof (evict_expired_steps (length (expiration_heap c)) now c Hc) as Hs. fold c1 in Hs.
  destruct (pop_steps_spec _ _ Hc Hs) as (Hc1 & [= Hm _ _] & _ & _).
  destruct (evict_full_spec (S (length (expiration_heap c1))) c1) as (c' & He & Hr & Hlt);
    [done|lia|lia|]. exists c'. split_and!; [done|by etrans|done].
Qed.

(** ** Writing *)

Lemma store_core now key value ttl c : core c → core (store now key value ttl c).
Proof.
  intros Hc. unfold store, allow_ttl_override. simpl.
  assert (Hnew : core (with_heap (heappush (expiration_heap c) (expiry now ttl c, key))
            (with_ttl (<[key:=expiry now ttl c]>) (with_cache <[key:=value]> c)))).
  { destruct Hc as [Hd Hh He]. destruct (heappush_spec _ (expiry now ttl c, key) Hh) as [Hh' Hp].
    split; simpl; [by rewrite !dom_insert_L, Hd|done|].
    intros k e [[<- <-]|[_ Hk]]%lookup_insert_Some; rewrite Hp; [left|right; auto]. }
  destruct (ttl_dict c !! key) as [e|] eqn:Hk; [|done]. destruct (e <? now); [done|].
  destruct Hc as [Hd Hh He]. split; simpl; [|done|done].
  rewrite dom_insert_L, Hd. apply elem_of_dom_2 in Hk. set_solver.
Qed.

Lemma store_cfg now key value ttl c : cfg (store now key value ttl c) = cfg c.
Proof. unfold store. by case_match. Qed.

Lemma store_cache_dict now key value ttl c :
  cache_dict (store now key value ttl c) = <[key := value]> (cache_dict c).
Proof. unfold store. by case_match. Qed.

(** What [set_cache] does to a well-formed cache that stores anything at all. *)
Lemma set_cache_spec now key value ttl c :
  wf c → max_size_in_memory c ≠ 0 →
  ∃ c1, rtc pop_step c c1 ∧ Z.of_nat (size (cache_dict c1)) < max_size_in_memory c1 ∧
    set_cache now key value ttl c =
      (Ok (), if check_value_size c1 value then store now key value ttl c1 else c1).
Proof.
  intros [Hc Hm Hs] Hne.
  unfold set_cache, mbind, M_bind, m_get. rewrite (proj2 (Z.eqb_neq _ _) Hne).
  destruct (Z.leb_spec (max_size_in_memory c) (Z.of_nat (size (cache_dict c)))) as [Hle|Hlt].
  - destruct (evict_cache_spec now c Hc ltac:(lia)) as (c1 & -> & Hr & Hsz).
    exists c1. split_and!; [done|done|]. by destruct (check_value_size c1 value).
  - exists c. split_and!; [done|done|]. simpl. by destruct (check_value_size c value).
Qed.

(** A write to a cache with room leaves the other keys alone. *)
Lemma set_cache_frame now key value ttl c key' :
  Z.of_nat (size (cache_dict c)) < max_size_in_memory c → key' ≠ key →
  cache_dict (set_cache now key value ttl c).2 !! key' = cache_dict c !! key' ∧
  ttl_dict (set_cache now key value ttl c).2 !! key' = ttl_dict c !! key'.
Proof.
  intros Hroom Hne. unfold set_cache, mbind, M_bind, m_get.
  destruct (max_size_in_memory c =? 0); [done|].
  destruct (Z.leb_spec (max_size_in_memory c) (Z.of_nat (size (cache_dict c)))); [lia|]. simpl.
  destruct (check_value_size c value); [|done]. simpl. rewrite store_cache_dict.
  split; [by rewrite lookup_insert_ne|]. unfold store. case_match; simpl; [by rewrite lookup_insert_ne|done].
Qed.

Lemma pop_steps_wf c c1 :
  wf c → rtc pop_step c c1 → Z.of_nat (size (cache_dict c1)) < max_size_in_memory c1 → wf c1.
Proof.
  intros Hwf Hr Hlt. destruct (pop_steps_spec _ _ (wf_core _ Hwf) Hr) as (Hc1 & _ & _ & _).
  split; [done|lia|lia].
Qed.

Lemma size_insert_le {V} (m : gmap string V) k v : (size (<[k := v]> m) ≤ S (size m))%nat.
Proof. rewrite map_size_insert. destruct (m !! k); simpl; lia. Qed.

Lemma set_cache_wf now key value ttl c : wf c → wf (set_cache now key value ttl c).2.
Proof.
  intros Hwf. destruct (decide (max_size_in_memory c = 0)) as [E|Hne].
  { unfold set_cache, mbind, M_bind, m_get. by rewrite E. }
  destruct (set_cache_spec now key value ttl c Hwf Hne) as (c1 & Hr & Hlt & ->). simpl.
  pose proof (pop_steps_wf _ _ Hwf Hr Hlt) as Hwf1. case_match; [|done].
  pose proof (store_cfg now key value ttl c1) as [= Hm _ _].
  split; [apply store_core; auto with pydb|rewrite Hm; auto with pydb|].
  rewrite Hm, store_cache_dict. pose proof (size_insert_le (cache_dict c1) key value). lia.
Qed.

Lemma set_cache_ok now key value ttl c : wf c → (set_cache now key value ttl c).1 = Ok ().
Proof.
  intros Hwf. destruct (decide (max_size_in_memory c = 0)) as [E|Hne].
  { unfold set_cache, mbind, M_bind, m_get. by rewrite E. }
  by destruct (set_cache_spec now key value ttl c Hwf Hne) as (c1 & _ & _ & ->).
Qed.
(** ** The invariant, operation by operation *)

Lemma wf_init max_size ttl per_item :
  0 ≤ default 200 max_size → wf (init max_size ttl per_item).
Proof.
  intros Hm. split; simpl; [split; simpl|done|by rewrite map_size_empty].
  - by rewrite !dom_empty_L.
  - intros p c x y _ _ _ Hx. by rewrite lookup_nil in Hx.
  - intros k e. by rewrite lookup_empty.
Qed.

Lemma remove_key_wf k c : wf c → wf (_remove_key k c).
Proof.
  intros [Hc Hm Hs]. split; [by apply core_remove|done|]. simpl.
  rewrite map_size_delete. destruct (cache_dict c !! k); simpl; lia.
Qed.

Lemma flush_cache_wf c : wf c → wf (flush_cache c).
Proof.
  intros [_ Hm _]. split; simpl; [split; simpl|done|by rewrite map_size_empty].
  - by rewrite !dom_empty_L.
  - intros p x y z _ _ _ Hx. by rewrite lookup_nil in Hx.
  - intros k e. by rewrite lookup_empty.
Qed.

Lemma alias_update_wf k v c : wf c → wf (alias_update k v c).
Proof.
  intros Hwf. unfold alias_update. case_decide as Hk; [|done].
  destruct Hwf as [[Hd Hh He] Hm Hs]. split; [split; simpl; try done|done|simpl].
  - rewrite dom_insert_L. apply elem_of_dom in Hk. rewrite <-Hd. set_solver.
  - rewrite map_size_insert. destruct Hk as [? ->]. simpl. lia.
Qed.

Lemma set_cache_cfg now key value ttl c : wf c → cfg (set_cache now key value ttl c).2 = cfg c.
Proof.
  intros Hwf. destruct (decide (max_size_in_memory c = 0)) as [E|Hne].
  { unfold set_cache, mbind, M_bind, m_get. by rewrite E. }
  destruct (set_cache_spec now key value ttl c Hwf Hne) as (c1 & Hr & _ & ->).
  destruct (pop_steps_spec _ _ (wf_core _ Hwf) Hr) as (_ & <- & _).
  simpl. case_match; [apply store_cfg|done].
Qed.

(** The invariant together with the configuration the cache was built with. *)
Definition inv (k : Z * Z * Z) (c : t) : Prop := wf c ∧ cfg c = k.

Lemma set_cache_preserves k now key value ttl : preserves (inv k) (set_cache now key value ttl).
Proof. intros c [Hwf <-]. split; [by apply set_cache_wf|by apply set_cache_cfg]. Qed.

Lemma get_cache_preserves k now key : preserves (inv k) (get_cache now key).
Proof.
  intros c [Hwf <-]. unfold get_cache, evict_element_if_expired.
  repeat case_match; simplify_eq; simpl; split; auto using remove_key_wf.
Qed.

Lemma alias_update_inv k key v c : inv k c → inv k (alias_update key v c).
Proof.
  intros [Hwf <-]. split; [by apply alias_update_wf|]. unfold alias_update. by case_decide.
Qed.

Lemma delete_cache_inv k key c : inv k c → inv k (delete_cache key c).
Proof. intros [Hwf <-]. split; [by apply remove_key_wf|done]. Qed.

Lemma flush_cache_inv k c : inv k c → inv k (flush_cache c).
Proof. intros [Hwf <-]. split; [by apply flush_cache_wf|done]. Qed.
End facts.

#[export] Hint Resolve set_cache_preserves get_cache_preserves delete_cache_inv flush_cache_inv
  alias_update_inv : pydb.

Section machine.
Context `{PyRuntime} (k : Z * Z * Z).

Lemma increment_cache_preserves now key value ttl :
  preserves (inv k) (increment_cache now key value ttl).
Proof. unfold increment_cache. preserves_tac. Qed.

Lemma async_increment_preserves now key value ttl :
  preserves (inv k) (async_increment now key value ttl).
Proof. unfold async_increment, async_get_cache, async_set_cache. preserves_tac. Qed.

Lemma sadd_loop_preserves key aliased vals acc :
  preserves (inv k) (sadd_loop key aliased vals acc).
Proof.
  revert acc. induction vals as [|v vals IH]; intros acc; simpl; [apply preserves_ret|].
  preserves_tac. apply preserves_modify. auto with pydb.
Qed.

Lemma async_set_cache_sadd_preserves now key value ttl :
  preserves (inv k) (async_set_cache_sadd now key value ttl).
Proof. unfold async_set_cache_sadd. preserves_tac. apply sadd_loop_preserves. Qed.

Lemma async_set_cache_pipeline_preserves now l ttl :
  preserves (inv k) (async_set_cache_pipeline now l ttl).
Proof. unfold async_set_cache_pipeline. preserves_tac. Qed.

Lemma batch_get_cache_preserves now keys : preserves (inv k) (batch_get_cache now keys).
Proof. unfold batch_get_cache. preserves_tac. Qed.

Lemma async_increment_pipeline_preserves now l ttl :
  preserves (inv k) (async_increment_pipeline now l ttl).
Proof. unfold async_increment_pipeline. preserves_tac. apply async_increment_preserves. Qed.

(** A running cache: any method, with any arguments, at any time. *)
Inductive step (c : t) : t → Prop :=
| step_set now key value ttl : step c (set_cache now key value ttl c).2
| step_set_pipeline now l ttl : step c (async_set_cache_pipeline now l ttl c).2
| step_sadd now key value ttl : step c (async_set_cache_sadd now key value ttl c).2
| step_get now key : step c (get_cache now key c).2
| step_batch_get now keys : step c (batch_get_cache now keys c).2
| step_increment now key value ttl : step c (increment_cache now key value ttl c).2
| step_increment_pipeline now l ttl : step c (async_increment_pipeline now l ttl c).2
| step_delete key : step c (delete_cache key c)
| step_flush : step c (flush_cache c).

Definition reachable (max_size ttl per_item : option Z) (c : t) : Prop :=
  rtc step (init max_size ttl per_item) c.

Lemma step_inv c c' : inv k c → step c c' → inv k c'.
Proof.
  intros Hwf Hs.
  destruct Hs;
    first [ by apply set_cache_preserves | by apply async_set_cache_pipeline_preserves
          | by apply async_set_cache_sadd_preserves | by apply get_cache_preserves
          | by apply batch_get_cache_preserves | by apply increment_cache_preserves
          | by apply async_increment_pipeline_preserves | by auto with pydb ].
Qed.
End machine.

Section theorems.
Context `{PyRuntime}.

Lemma reachable_inv max_size ttl per_item c :
  0 ≤ default 200 max_size → reachable max_size ttl per_item c →
  inv (cfg (init max_size ttl per_item)) c.
Proof.
  intros Hm Hr. assert (inv (cfg (init max_size ttl per_item)) (init max_size ttl per_item)) as Hi.
  { split; [by apply wf_init|done]. }
  unfold reachable in Hr. revert Hi. generalize (cfg (init max_size ttl per_item)).
  induction Hr; eauto using step_inv.
Qed.

(** [evict_cache] step 1 leaves no expired entry. *)
Lemma evict_expired_all fuel now c k e :
  core c → (length (expiration_heap c) ≤ fuel)%nat →
  ttl_dict (evict_expired fuel now c) !! k = Some e → now < e.
Proof.
  revert c. induction fuel as [|fuel IH]; intros c Hc Hf Hk; simpl in Hk.
  { apply (core_entry _ Hc) in Hk. destruct (expiration_heap c); simpl in *; [|lia].
    by apply not_elem_of_nil in Hk. }
  pose proof (heappop_spec _ (core_heap _ Hc)) as Hs.
  destruct (expiration_heap c) as [|[e1 k1] h] eqn:Hh.
  { apply (core_entry _ Hc) in Hk. rewrite Hh in Hk. by apply not_elem_of_nil in Hk. }
  destruct (heappop ((e1, k1) :: h)) as [[[e' k'] rest]|] eqn:Hp; [|done].
  destruct Hs as (_ & Hperm%Permutation_length & [= <- <-] & _). rewrite <-Hh in Hp.
  assert (Hst : pop_step c (if decide (ttl_dict c !! k1 = Some e1)
       then _remove_key k1 (with_heap rest c) else with_heap rest c)) by (by exists e1, k1, rest).
  pose proof (pop_step_core _ _ Hc Hst) as Hc'. simpl in Hperm, Hf.
  destruct (core_pop _ _ _ _ Hc Hp) as (_ & _ & Hmin).
  case_decide; [destruct (Z.leb_spec e1 now)|].
  - eapply (IH _ Hc'); [simpl; lia|done].
  - apply Hmin in Hk. lia.
  - eapply (IH _ Hc'); [simpl; lia|done].
Qed.

(** The lookup after a write: the written value until its recorded expiry. *)
Lemma get_cache_entry now key v e c :
  cache_dict c !! key = Some v → ttl_dict c !! key = Some e →
  (get_cache now key c).1 = Ok (if now <=? e then loads_or_self v else PNone).
Proof.
  intros Hv He. unfold get_cache, evict_element_if_expired, _is_key_expired.
  rewrite Hv, He. destruct (Z.ltb_spec e now), (Z.leb_spec now e); try lia; [done|].
  by rewrite Hv.
Qed.

(** What a read at [now] answers. *)
Definition live_value (now : Z) (key : string) (c : t) : pyval :=
  match cache_dict c !! key with
  | None => PNone
  | Some v => if _is_key_expired now key c then PNone else loads_or_self v
  end.

(** A read answers the live value, and changes the answer of no read at the same
    time; it only drops entries. *)
Lemma get_cache_live now key c :
  (get_cache now key c).1 = Ok (live_value now key c) ∧
  (∀ k, live_value now k (get_cache now key c).2 = live_value now k c) ∧
  ttl_dict (get_cache now key c).2 ⊆ ttl_dict c.
Proof.
  unfold get_cache, evict_element_if_expired, live_value.
  destruct (cache_dict c !! key) as [v|] eqn:Ev; [|done].
  destruct (_is_key_expired now key c) eqn:Ee; simpl; [|by rewrite Ev].
  split_and!; [done| |apply delete_subseteq].
  intros k. destruct (decide (key = k)) as [<-|Hne].
  - by rewrite lookup_delete_eq, Ev, Ee.
  - rewrite lookup_delete_ne by done. unfold _is_key_expired. simpl. by rewrite lookup_delete_ne.
Qed.

(** A read keeps every entry that has not expired. *)
Lemma get_cache_keeps_live now key c k e :
  ttl_dict c !! k = Some e → now ≤ e → ttl_dict (get_cache now key c).2 !! k = Some e.
Proof.
  intros Hk Hle. unfold get_cache, evict_element_if_expired, _is_key_expired.
  destruct (cache_dict c !! key); [|done].
  destruct (ttl_dict c !! key) as [x|] eqn:Ex; [|done].
  destruct (Z.ltb_spec x now); simpl; [|done].
  rewrite lookup_delete_ne; [done|]. intros ->. simplify_eq. lia.
Qed.

Lemma batch_get_live now keys c :
  (batch_get_cache now keys c).1 = Ok ((λ k, live_value now k c) <$> keys).
Proof.
  unfold batch_get_cache. revert c. induction keys as [|k keys IH]; intros c; [done|].
  cbn [m_map]. unfold mbind, M_bind. destruct (get_cache_live now k c) as (E & Hk & _).
  destruct (get_cache now k c) as [r c1]. simpl in *. subst r. specialize (IH c1).
  destruct (m_map (get_cache now) keys c1) as [r c2]. simpl in *. subst r. simpl.
  do 2 f_equal. by apply list_fmap_ext.
Qed.

Lemma check_value_size_cfg c c' v : cfg c = cfg c' → check_value_size c v = check_value_size c' v.
Proof. intros [= _ _ E]. unfold check_value_size. by rewrite E. Qed.

Lemma store_ttl now key value ttl c :
  ttl_dict (store now key value ttl c) !! key =
    Some (match ttl_dict c !! key with
          | Some e => if e <? now then expiry now ttl c else e
          | None => expiry now ttl c
          end).
Proof.
  unfold store, allow_ttl_override. simpl. destruct (ttl_dict c !! key) as [e|] eqn:E.
  - destruct (e <? now); simpl; [by rewrite lookup_insert_eq|done].
  - simpl. by rewrite lookup_insert_eq.
Qed.

(** The state after a successful write, as a lookup at the written key. *)
Lemma set_cache_entry now key value ttl c :
  wf c → max_size_in_memory c ≠ 0 → check_value_size c value = true →
  let c' := (set_cache now key value ttl c).2 in
  cache_dict c' !! key = Some value ∧
  ∃ e, ttl_dict c' !! key = Some e ∧
    (e = expiry now ttl c ∨ ttl_dict c !! key = Some e ∧ now ≤ e).
Proof.
  intros Hwf Hne Hsz. simpl.
  destruct (set_cache_spec now key value ttl c Hwf Hne) as (c1 & Hr & _ & ->).
  destruct (pop_steps_spec _ _ (wf_core _ Hwf) Hr) as (_ & Hcfg & Hsh & _).
  rewrite (check_value_size_cfg _ _ _ Hcfg), Hsz. simpl.
  rewrite store_cache_dict, lookup_insert_eq. split; [done|].
  assert (expiry now ttl c1 = expiry now ttl c) as He.
  { unfold expiry. by injection Hcfg as _ -> _. }
  rewrite store_ttl, He. destruct (Hsh key) as [[-> _]|[-> _]]; [|eauto].
  destruct (ttl_dict c !! key) as [e|]; [|eauto].
  destruct (Z.ltb_spec e now); eauto.
Qed.
(** C1: However a cache built with a non-negative [max_size_in_memory] is used,
    it never holds more than that many items, [cache_dict] and [ttl_dict] have
    the same keys, and every key still has its entry in the expiration heap. *)
Theorem reachable_bounded max_size ttl per_item c :
  0 ≤ default 200 max_size → reachable max_size ttl per_item c →
  Z.of_nat (size (cache_dict c)) ≤ default 200 max_size ∧
  dom (cache_dict c) = dom (ttl_dict c) ∧
  ∀ k e, ttl_dict c !! k = Some e → (e, k) ∈ expiration_heap c.
Proof.
  intros Hm Hr. destruct (reachable_inv _ _ _ _ Hm Hr) as [[[Hd Hh He] _ Hs] [= E _ _]].
  rewrite E in Hs. auto.
Qed.

(** The cache a write meets: a full cache is evicted first. *)
Definition met (now : Z) (c : t) : t :=
  if max_size_in_memory c <=? Z.of_nat (size (cache_dict c)) then (evict_cache now c).2 else c.

(** The expiry a write leaves behind: a key that is still live keeps its own, every
    other key expires [ttl] (or the default lifetime) after the write. *)
Definition kept_or_new (now : Z) (ttl : ttl_kw) (key : string) (c : t) : Z :=
  let new := now + (match ttl with Some (Some d) => d | _ => default_ttl c end) in
  match ttl_dict (met now c) !! key with
  | Some old => if now <=? old then old else new
  | None => new
  end.

Lemma set_cache_met now key value ttl c :
  wf c → max_size_in_memory c ≠ 0 → check_value_size c value = true →
  (set_cache now key value ttl c).2 = store now key value ttl (met now c) ∧ cfg (met now c) = cfg c.
Proof.
  intros [Hc Hm Hs] Hne Hsz. unfold set_cache, met, mbind, M_bind, m_get.
  rewrite (proj2 (Z.eqb_neq _ _) Hne).
  destruct (Z.leb_spec (max_size_in_memory c) (Z.of_nat (size (cache_dict c)))) as [Hle|Hlt].
  - destruct (evict_cache_spec now c Hc ltac:(lia)) as (c1 & -> & Hr & _).
    destruct (pop_steps_spec _ _ Hc Hr) as (_ & Hcfg & _ & _). simpl.
    by rewrite (check_value_size_cfg _ _ _ Hcfg), Hsz.
  - simpl. by rewrite Hsz.
Qed.

Lemma set_cache_expiry now key value ttl c :
  wf c → max_size_in_memory c ≠ 0 → check_value_size c value = true →
  ttl_dict (set_cache now key value ttl c).2 !! key = Some (kept_or_new now ttl key c).
Proof.
  intros Hwf Hne Hsz. destruct (set_cache_met now key value ttl c Hwf Hne Hsz) as [-> Hcfg].
  rewrite store_ttl. unfold kept_or_new.
  assert (expiry now ttl (met now c) = now + match ttl with Some (Some d) => d | _ => default_ttl c end) as ->.
  { unfold expiry. injection Hcfg as _ -> _. by destruct ttl as [[]|]. }
  destruct (ttl_dict (met now c) !! key) as [e|]; [|done].
  destruct (Z.ltb_spec e now), (Z.leb_spec now e); try lia; done.
Qed.

(** C34: Read after write.  Writing a value within the size limit of an item to a
    well-formed cache that may hold items at all succeeds; until the recorded expiry a read returns the value (through
    [json.loads] when it is text) and afterwards [None].  The recorded expiry is the
    old one when the key is still live in the cache the write meets (a full cache is
    evicted first), and the time of the write plus the [ttl], or the default lifetime
    when none is given, in every other case. *)
Theorem set_cache_get_cache now key value ttl c :
  wf c → max_size_in_memory c ≠ 0 → check_value_size c value = true →
  (set_cache now key value ttl c).1 = Ok () ∧
  ∀ now', (get_cache now' key (set_cache now key value ttl c).2).1 =
    Ok (if now' <=? kept_or_new now ttl key c then loads_or_self value else PNone).
Proof.
  intros Hwf Hne Hsz. split; [by apply set_cache_ok|]. intros now'. apply get_cache_entry.
  - by destruct (set_cache_entry now key value ttl c Hwf Hne Hsz) as [Hv _].
  - by apply set_cache_expiry.
Qed.

(** Eviction of a full cache succeeds (it never pops an empty heap), makes
    room, drops every expired entry, changes no kept entry, and whatever it
    drops expires no later than whatever it keeps. *)
Theorem evict_cache_correct now c :
  wf c → 0 < max_size_in_memory c →
  ∃ c', evict_cache now c = (Ok (), c') ∧
    Z.of_nat (size (cache_dict c')) < max_size_in_memory c ∧
    (∀ k e, ttl_dict c' !! k = Some e → now < e) ∧
    shrinks c c' ∧ earliest_first c c'.
Proof.
  intros Hwf Hm. pose proof (wf_core _ Hwf) as Hc.
  destruct (evict_cache_spec now c Hc Hm) as (c' & He & Hr & Hlt).
  destruct (pop_steps_spec _ _ Hc Hr) as (_ & [= Hcfg _ _] & Hsh & Hef).
  exists c'. rewrite Hcfg in Hlt. split_and!; [done|done| |done|done].
  intros k e Hk. unfold evict_cache in He.
  pose proof (evict_expired_steps (length (expiration_heap c)) now c Hc) as Hs1.
  destruct (pop_steps_spec _ _ Hc Hs1) as (Hc1 & [= Hm1 _ _] & _ & _).
  edestruct evict_full_spec as (c2 & He2 & Hr2 & _); [exact Hc1|by rewrite Hm1|apply Nat.lt_succ_diag_r|].
  rewrite He2 in He. simplify_eq.
  destruct (pop_steps_spec _ _ Hc1 Hr2) as (_ & _ & Hsh2 & _).
  destruct (Hsh2 k) as [[E _]|[E _]]; rewrite E in Hk; [|done].
  eapply evict_expired_all; [exact Hc| |exact Hk]; lia.
Qed.

(** A key past its expiry is never served: the read returns [None] and
    removes the key, leaving every other key alone. *)
Theorem get_cache_expired now key e c :
  wf c → ttl_dict c !! key = Some e → e < now →
  (get_cache now key c).1 = Ok PNone ∧
  let c' := (get_cache now key c).2 in
  cache_dict c' !! key = None ∧ ttl_dict c' !! key = None ∧
  ∀ k, k ≠ key → cache_dict c' !! k = cache_dict c !! k ∧ ttl_dict c' !! k = ttl_dict c !! k.
Proof.
  intros Hwf He Hlt. unfold get_cache, evict_element_if_expired, _is_key_expired.
  assert (is_Some (cache_dict c !! key)) as [v Hv].
  { apply elem_of_dom. rewrite (core_dom _ (wf_core _ Hwf)). by apply elem_of_dom_2 in He. }
  rewrite Hv, He. destruct (Z.ltb_spec e now); [|lia]. simpl.
  rewrite !lookup_delete_eq. split_and!; [done..|].
  intros k Hk. by rewrite !lookup_delete_ne.
Qed.

(** The running sums of a sequence of increments. *)
Fixpoint sums (acc : Z) (l : list (Z * Z)) : list Z :=
  match l with [] => [] | (_, v) :: l' => (acc + v) :: sums (acc + v) l' end.

(** [increment_cache] called at the given times with the given amounts. *)
Definition increments (key : string) (ttl : ttl_kw) (l : list (Z * Z)) : M t (list pyval) :=
  m_map (λ nv, increment_cache nv.1 key (PInt nv.2) ttl) l.

Lemma increment_cache_step now key acc v ttl e c :
  wf c → max_size_in_memory c ≠ 0 → check_value_size c (PInt (acc + v)) = true →
  (cache_dict c !! key = None ∧ acc = 0 ∨
   cache_dict c !! key = Some (PInt acc) ∧ ttl_dict c !! key = Some e ∧ now ≤ e) →
  ∃ c', increment_cache now key (PInt v) ttl c = (Ok (PInt (acc + v)), c') ∧
    inv (cfg c) c' ∧ cache_dict c' !! key = Some (PInt (acc + v)) ∧
    ∃ e', ttl_dict c' !! key = Some e' ∧
      (e' = expiry now ttl c ∨ ttl_dict c !! key = Some e' ∧ now ≤ e').
Proof.
  intros Hwf Hne Hsz Hst.
  assert (Hget : get_cache now key c = (Ok (if decide (cache_dict c !! key = None)
            then PNone else PInt acc), c)).
  { unfold get_cache, evict_element_if_expired, _is_key_expired.
    destruct Hst as [[-> ->]|(Hv & He & Hle)]; [done|]. rewrite Hv, He. simpl.
    destruct (Z.ltb_spec e now); [lia|]. by rewrite Hv. }
  exists (set_cache now key (PInt (acc + v)) ttl c).2.
  destruct (set_cache_entry now key (PInt (acc + v)) ttl c Hwf Hne Hsz) as (Hv' & He').
  pose proof (set_cache_ok now key (PInt (acc + v)) ttl c Hwf) as Hok.
  split_and!; [|split; [by apply set_cache_wf|by apply set_cache_cfg]|done|done].
  unfold increment_cache, mbind, M_bind. rewrite Hget. simpl.
  assert (py_add (py_or (if decide (cache_dict c !! key = None) then PNone else PInt acc)
    (PInt 0)) (PInt v) = Ok (PInt (acc + v))) as ->.
  { destruct Hst as [[-> ->]|(Hv & _ & _)]; [done|]. rewrite Hv. simpl.
    unfold py_or. simpl. destruct (Z.eqb_spec acc 0) as [->|]; done. }
  simpl. by destruct (set_cache now key (PInt (acc + v)) ttl c) as [[[]|] c'].
Qed.

Lemma increments_live key d l acc e0 lo c :
  wf c → max_size_in_memory c ≠ 0 →
  Forall (λ nv, lo ≤ nv.1 ≤ lo + d) l →
  Forall (λ z, check_value_size c (PInt z) = true) (sums acc l) →
  cache_dict c !! key = Some (PInt acc) → ttl_dict c !! key = Some e0 → lo + d ≤ e0 →
  (increments key (Some (Some d)) l c).1 = Ok (PInt <$> sums acc l).
Proof.
  revert acc e0 c. induction l as [|[now v] l IH]; intros acc e0 c Hwf Hne Ht Hsz Hv He Hle; [done|].
  simpl in Hsz. apply Forall_cons in Ht as [Hn Ht]. apply Forall_cons in Hsz as [Hz Hsz].
  simpl in Hn.
  destruct (increment_cache_step now key acc v (Some (Some d)) e0 c) as
    (c' & Hinc & [Hwf' Hcfg] & Hv' & e' & He' & Hor); [done|done|done|right; split_and!; auto; lia|].
  assert (lo + d ≤ e').
  { destruct Hor as [->|[Hk _]]; [unfold expiry; lia|]. simplify_eq. lia. }
  pose proof Hcfg as [= Hm _ _].
  assert ((increments key (Some (Some d)) l c').1 = Ok (PInt <$> sums (acc + v) l)) as IH'.
  { eapply (IH _ e'); eauto; [by rewrite Hm|]. eapply Forall_impl; [exact Hsz|].
    intros z. by rewrite (check_value_size_cfg _ _ _ Hcfg). }
  unfold increments in *. simpl. unfold mbind, M_bind. rewrite Hinc.
  destruct (m_map _ l c') as [[ys|ex] c'']; simpl in IH'; simplify_eq. done.
Qed.

(** A counter counts.  Starting from an absent key, integer increments
    issued within the TTL window of the first one return the running sums,
    whatever evictions and overwrites the writes cause. *)
Theorem increment_cache_counts key d now0 v0 l c :
  wf c → max_size_in_memory c ≠ 0 → cache_dict c !! key = None → 0 ≤ d →
  Forall (λ nv, now0 ≤ nv.1 ≤ now0 + d) l →
  Forall (λ z, check_value_size c (PInt z) = true) (sums 0 ((now0, v0) :: l)) →
  (increments key (Some (Some d)) ((now0, v0) :: l) c).1
    = Ok (PInt <$> sums 0 ((now0, v0) :: l)).
Proof.
  intros Hwf Hne Hk Hd Ht Hsz. simpl in Hsz. apply Forall_cons in Hsz as [Hz Hsz].
  destruct (increment_cache_step now0 key 0 v0 (Some (Some d)) 0 c) as
    (c' & Hinc & [Hwf' Hcfg] & Hv' & e' & He' & Hor); [done|done|done|by left|].
  assert (now0 + d ≤ e').
  { destruct Hor as [->|[Hk' _]]; [unfold expiry; lia|].
    apply elem_of_dom_2 in Hk'. rewrite <-(core_dom _ (wf_core _ Hwf)) in Hk'.
    apply elem_of_dom in Hk' as [? ?]. congruence. }
  pose proof Hcfg as [= Hm _ _].
  assert ((increments key (Some (Some d)) l c').1 = Ok (PInt <$> sums (0 + v0) l)) as Hl.
  { eapply (increments_live key d l _ e' now0); eauto; [congruence|].
    eapply Forall_impl; [exact Hsz|]. intros z. by rewrite (check_value_size_cfg _ _ _ Hcfg). }
  unfold increments in *. simpl. unfold mbind, M_bind. rewrite Hinc.
  destruct (m_map _ l c') as [[ys|ex] c'']; simpl in Hl; simplify_eq. done.
Qed.

(** A key rewritten with [ttl = 0] once its previous entry has expired. *)
Fixpoint rewrites (n : nat) (c : t) : t :=
  match n with
  | O => c
  | S n' => let c' := rewrites n' c in
            (set_cache (2 * Z.of_nat n') "k" (PInt 0) (Some (Some 0)) c').2
  end.

Definition rewritten (n : nat) (c : t) : Prop :=
  cfg c = (200, seconds 600, 1024) ∧ (size (cache_dict c) ≤ 1)%nat ∧
  length (expiration_heap c) = n ∧
  match n with
  | O => cache_dict c = ∅ ∧ ttl_dict c = ∅
  | S n' => ttl_dict c !! "k" = Some (2 * Z.of_nat n') ∧ is_Some (cache_dict c !! "k")
  end.

Lemma rewrites_rewritten n : rewritten n (rewrites n init_default).
Proof.
  induction n as [|n (Hcfg & Hsz & Hlen & Hst)]; [split_and!; simpl; auto|].
  cbn [rewrites]. set (c := rewrites n init_default) in *. injection Hcfg as Hm Hd Hp.
  set (now := 2 * Z.of_nat n).
  assert (set_cache now "k" (PInt 0) (Some (Some 0)) c =
          (Ok (), store now "k" (PInt 0) (Some (Some 0)) c)) as ->.
  { unfold set_cache, mbind, M_bind, m_get, check_value_size. rewrite Hm. simpl.
    destruct (Z.leb_spec 200 (Z.of_nat (size (cache_dict c)))); [lia|]. simpl. by rewrite Hp. }
  assert (allow_ttl_override now "k" (with_cache <[ "k" := PInt 0 ]> c) = true) as Ha.
  { unfold allow_ttl_override. simpl. destruct n; [by rewrite (proj2 Hst)|].
    rewrite (proj1 Hst). subst now. lia. }
  unfold rewritten, store. rewrite Ha. simpl. split_and!; try done.
  - unfold cfg. simpl. congruence.
  - rewrite map_size_insert. destruct n; [by rewrite (proj1 Hst), lookup_empty, map_size_empty|].
    destruct Hst as [_ [v ->]]. done.
  - unfold heappush, siftdown. rewrite siftdown_loop_Permutation, length_app. simpl. lia.
  - rewrite lookup_insert_eq. unfold expiry. subst now. f_equal. lia.
  - rewrite lookup_insert_eq. eauto.
Qed.

(** The item bound does not bound memory: stale heap entries are dropped
    only by [evict_cache], which runs only when the cache is full, so a cache of
    at most one live item reaches any expiration-heap length. *)
Theorem expiration_heap_unbounded (n : nat) :
  ∃ c, reachable (Some 200) (Some (seconds 600)) (Some 1024) c ∧
    (size (cache_dict c) ≤ 1)%nat ∧ length (expiration_heap c) = n.
Proof.
  exists (rewrites n init_default). destruct (rewrites_rewritten n) as (_ & ? & ? & _).
  split_and!; [|done|done]. unfold reachable. change (init _ _ _) with init_default.
  clear. induction n as [|n IH]; [constructor|]. eapply rtc_r; [exact IH|]. constructor.
Qed.
End theorems.

(** ** Concrete runs *)

Section examples.
#[local] Existing Instance toy_runtime.

Definition ex_full : t :=
  (set_cache 0 "b" (PInt 2) (Some (Some 20))
    (set_cache 0 "a" (PInt 1) (Some (Some 10)) (init (Some 2) None None)).2).2.

Lemma ex_full_reachable : reachable (Some 2) None None ex_full.
Proof.
  unfold reachable, ex_full. eapply rtc_l; [|apply rtc_once]; [|apply step_set]. apply step_set.
Qed.

Lemma ex_full_wf : wf ex_full.
Proof. eapply reachable_inv; [|apply ex_full_reachable]. simpl. lia. Qed.

Definition ex_one : t := (set_cache 0 "a" (PInt 1) (Some (Some 10)) (init (Some 2) None None)).2.

Lemma ex_one_wf : wf ex_one.
Proof.
  eapply (reachable_inv (Some 2) None None); [simpl; lia|]. apply rtc_once, step_set.
Qed.

(** Overwriting a key of a full cache evicts: replacing the value of ["b"]
    needs no room, yet the live entry ["a"] is dropped. *)
Theorem overwrite_evicts_live_entry :
  cache_dict ex_full !! "a" = Some (PInt 1) ∧ ttl_dict ex_full !! "a" = Some 10 ∧
  cache_dict ex_full !! "b" = Some (PInt 2) ∧
  let c' := (set_cache 1 "b" (PInt 3) None ex_full).2 in
  cache_dict c' !! "a" = None ∧ cache_dict c' !! "b" = Some (PInt 3).
Proof. vm_compute. auto. Qed.

Lemma reachable_bounded_witness :
  (size (cache_dict ex_full) = 2)%nat ∧ Z.of_nat (size (cache_dict ex_full)) ≤ 2.
Proof.
  split; [reflexivity|].
  apply (reachable_bounded (Some 2) None None ex_full); [simpl; lia|apply ex_full_reachable].
Defined.

(** A live key keeps its expiry 10 although the new lifetime would be longer; a new
    key gets the new one. *)
Lemma set_cache_get_cache_witness :
  (∀ now', (get_cache now' "a" (set_cache 5 "a" (PStr "123") (Some (Some 70)) ex_one).2).1 =
     Ok (if now' <=? 10 then PInt 123 else PNone)) ∧
  (∀ now', (get_cache now' "c" (set_cache 5 "c" (PStr "123") (Some (Some 7)) ex_full).2).1 =
     Ok (if now' <=? 12 then PInt 123 else PNone)).
Proof.
  split.
  - destruct (set_cache_get_cache 5 "a" (PStr "123") (Some (Some 70)) ex_one) as [_ Hg];
      [apply ex_one_wf|done|reflexivity|exact Hg].
  - destruct (set_cache_get_cache 5 "c" (PStr "123") (Some (Some 7)) ex_full) as [_ Hg];
      [apply ex_full_wf|done|reflexivity|exact Hg].
Defined.

Lemma evict_cache_correct_witness :
  ∃ c', evict_cache 3 ex_full = (Ok (), c') ∧ Z.of_nat (size (cache_dict c')) < 2 ∧
    (∀ k e, ttl_dict c' !! k = Some e → 3 < e) ∧ shrinks ex_full c' ∧ earliest_first ex_full c'.
Proof. apply (evict_cache_correct 3 ex_full); [apply ex_full_wf|done]. Defined.

Lemma get_cache_expired_witness :
  (get_cache 11 "a" ex_full).1 = Ok PNone ∧
  cache_dict (get_cache 11 "a" ex_full).2 !! "a" = None.
Proof.
  destruct (get_cache_expired 11 "a" 10 ex_full) as (H1 & H2 & _);
    [apply ex_full_wf|reflexivity|done|]. split; [exact H1|exact H2].
Defined.

Lemma increment_cache_counts_witness :
  (increments "n" (Some (Some 60)) [(100, 1); (110, 1); (160, 5)] ex_full).1
    = Ok [PInt 1; PInt 2; PInt 7].
Proof.
  apply (increment_cache_counts "n" 60 100 1 [(110, 1); (160, 5)] ex_full);
    [apply ex_full_wf|done|reflexivity|lia| |].
  - repeat constructor; simpl; lia.
  - repeat constructor.
Defined.
End examples.
End InMemoryCache.
