(* ===== verification/RedisCache.v ===== *)
(** * RedisCache: [caching/redis_cache.py]

    The wrapper LiteLLM puts around a Redis client.  The client and the server
    behind it are outside the repository: they are the class [RedisClient], whose
    operations may raise at any call, and [RedisLaws] states what Redis documents
    for them.  The module models the key namespace, the value encoding, the TTL
    handling, the error policy of every method (which errors are swallowed and
    which propagate) and the write buffer.  [RedisCacheI] is the interface
    [DualCache] uses; [RedisCache_instance] discharges it. *)

From stdpp Require Import base gmap sets list strings fin_maps.
From Stdlib Require Import ZArith QArith Lia ZifyBool.
From S2P Require Import Prelude.

#[local] Open Scope Z_scope.

(** ** The Redis client *)

(** A command queued on a pipeline. *)
Inductive redis_cmd : Type :=
| CmdSet (key value : string) (ex : option Z)
| CmdIncrByFloat (key : string) (amount : pyval)
| CmdExpire (key : string) (ttl : Z).

(** The calls the wrapper makes; times to live are in seconds, as Redis takes
    them. *)
Class RedisClient (R : Type) := {
  rc_connect : M R unit;
  rc_get : Z → string → M R (option string);
  rc_mget : Z → list string → M R (list (option string));
  rc_set : Z → string → string → bool → option Z → M R pyval;
  rc_incr : Z → string → pyval → M R pyval;
  rc_incrbyfloat : Z → string → pyval → M R pyval;
  rc_ttl : Z → string → M R Z;
  rc_expire : Z → string → Z → M R unit;
  rc_sadd : Z → string → list pyval → M R unit;
  rc_delete : Z → list string → M R unit;
  rc_flushall : Z → M R unit;
  rc_execute : Z → list redis_cmd → M R (list pyval)
}.

(** ** The interface [DualCache] relies on *)

Class RedisCacheI (R : Type) := {
  rd_set_cache : Z → string → pyval → ttl_kw → M R unit;
  rd_async_set_cache : Z → string → pyval → ttl_kw → M R unit;
  rd_get_cache : Z → string → M R pyval;
  rd_async_get_cache : Z → string → M R pyval;
  rd_async_batch_get_cache : Z → list string → M R (option (list (string * pyval)));
  rd_increment_cache : Z → string → pyval → ttl_kw → M R pyval;
  rd_async_increment : Z → string → pyval → ttl_kw → M R pyval;
  rd_async_set_cache_pipeline : Z → list (string * pyval) → option Z → M R unit;
  rd_async_increment_pipeline : Z → list (string * pyval * option Z) → M R (option (list pyval));
  rd_async_set_cache_sadd : Z → string → list pyval → option Z → M R unit;
  rd_flush_cache : Z → M R unit;
  rd_delete_cache : Z → string → M R unit;
  rd_async_delete_cache : Z → string → M R unit;
  rd_async_get_ttl : Z → string → M R (option Z)
}.

Module RedisCache.

Record t (R : Type) := mk {
  redis_client : R;
  namespace : option string;
  default_ttl : Z;                                     (* seconds *)
  redis_batch_writing_buffer : list (string * pyval);
  redis_flush_size : Z
}.
Arguments mk {R}. Arguments redis_client {R}. Arguments namespace {R}.
Arguments default_ttl {R}. Arguments redis_batch_writing_buffer {R}.
Arguments redis_flush_size {R}.

Section ops.
Context `{PyRuntime} {R : Type} `{RedisClient R}.

(** [__init__]: the parameters the methods read; [litellm.default_redis_ttl]
    when set, otherwise the 60 s of [BaseCache]. *)
Definition init (client : R) (flush_size : option Z) (ns : option string)
    (litellm_default_redis_ttl : option Z) : t R :=
  mk client ns (default 60 litellm_default_redis_ttl) [] (default 100 flush_size).

Definition set_client (r : R) (c : t R) : t R :=
  mk r (namespace c) (default_ttl c) (redis_batch_writing_buffer c) (redis_flush_size c).

Definition set_buffer (b : list (string * pyval)) (c : t R) : t R :=
  mk (redis_client c) (namespace c) (default_ttl c) b (redis_flush_size c).

(** A call on the client held in the object. *)
Definition on_client {A} (m : M R A) : M (t R) A := m_zoom redis_client set_client m.

(** [BaseCache.get_ttl]: [int(ttl)] when one is given, otherwise the default. *)
Definition get_ttl (ttl : ttl_kw) (c : t R) : Z :=
  match ttl with Some (Some d) => Z.quot d 1000000 | _ => default_ttl c end.

Definition check_and_fix_namespace (key : string) (c : t R) : string :=
  match namespace c with
  | Some ns => if String.prefix ns key then key else ns +:+ ":" +:+ key
  | None => key
  end.

(** [json.dumps]. *)
Definition dumps (v : pyval) : res string :=
  match json_dumps v with Some s => Ok s | None => Raise TypeError end.

Definition _get_cache_logic (cached_response : option string) : res pyval :=
  match cached_response with
  | None => Ok PNone
  | Some s =>
    match json_loads s with
    | Some v => Ok v
    | None => match literal_eval s with Some v => Ok v | None => Raise ValueError end
    end
  end.

Definition set_cache (now : Z) (key : string) (value : pyval) (ttl : ttl_kw) : M (t R) unit :=
  c ← m_get;
  let ttl := get_ttl ttl c in
  let key := check_and_fix_namespace key c in
  m_try (on_client (rc_set now key (py_str value) false (Some ttl)) ;; mret ()) (λ _, mret ()).

(** [INCRBY] on the key as given, then a TTL if the key has none. *)
Definition increment_cache (now : Z) (key : string) (value : pyval) (ttl : ttl_kw)
    : M (t R) pyval :=
  c ← m_get;
  let set_ttl := get_ttl ttl c in
  result ← on_client (rc_incr now key value);
  current_ttl ← on_client (rc_ttl now key);
  (if current_ttl =? -1 then on_client (rc_expire now key set_ttl) else mret ()) ;;
  mret result.

Definition async_set_cache (now : Z) (key : string) (value : pyval) (ttl : ttl_kw)
    : M (t R) unit :=
  on_client rc_connect ;;
  c ← m_get;
  let key := check_and_fix_namespace key c in
  let ttl := get_ttl ttl c in
  m_try (json ← m_lift (dumps value);
         on_client (rc_set now key json false (Some ttl)) ;; mret ())
        (λ _, mret ()).

(** The commands [_pipeline_helper] queues. *)
Fixpoint pipeline_cmds (c : t R) (ttl : Z) (cache_list : list (string * pyval))
    : res (list redis_cmd) :=
  match cache_list with
  | [] => Ok []
  | (k, v) :: l =>
      json ← dumps v;
      cmds ← pipeline_cmds c ttl l;
      mret (CmdSet (check_and_fix_namespace k c) json (Some ttl) :: cmds)
  end.

Definition _pipeline_helper (now : Z) (cache_list : list (string * pyval)) (ttl : option Z)
    : M (t R) (list pyval) :=
  c ← m_get;
  cmds ← m_lift (pipeline_cmds c (get_ttl (Some ttl) c) cache_list);
  on_client (rc_execute now cmds).

Definition async_set_cache_pipeline (now : Z) (cache_list : list (string * pyval))
    (ttl : option Z) : M (t R) unit :=
  match cache_list with
  | [] => mret ()
  | _ => on_client rc_connect ;;
         m_try (_pipeline_helper now cache_list ttl ;; mret ()) (λ _, mret ())
  end.

Definition _set_cache_sadd_helper (now : Z) (key : string) (value : list pyval)
    (ttl : option Z) : M (t R) unit :=
  c ← m_get;
  let ttl := get_ttl (Some ttl) c in
  on_client (rc_sadd now key value) ;;
  on_client (rc_expire now key ttl).

Definition async_set_cache_sadd (now : Z) (key : string) (value : list pyval)
    (ttl : option Z) : M (t R) unit :=
  on_client rc_connect ;;
  c ← m_get;
  let key := check_and_fix_namespace key c in
  m_try (_set_cache_sadd_helper now key value ttl) (λ _, mret ()).

Definition async_increment (now : Z) (key : string) (value : pyval) (ttl : ttl_kw)
    : M (t R) pyval :=
  on_client rc_connect ;;
  c ← m_get;
  let _used_ttl := get_ttl ttl c in
  let key := check_and_fix_namespace key c in
  result ← on_client (rc_incrbyfloat now key value);
  current_ttl ← on_client (rc_ttl now key);
  (if current_ttl =? -1 then on_client (rc_expire now key _used_ttl) else mret ()) ;;
  mret result.

Definition flush_cache_buffer (now : Z) : M (t R) unit :=
  c ← m_get;
  async_set_cache_pipeline now (redis_batch_writing_buffer c) None ;;
  m_modify (set_buffer []).

Definition batch_cache_write (now : Z) (key : string) (value : pyval) : M (t R) unit :=
  c ← m_get;
  let key := check_and_fix_namespace key c in
  m_modify (set_buffer (redis_batch_writing_buffer c ++ [(key, value)])) ;;
  c ← m_get;
  if redis_flush_size c <=? Z.of_nat (length (redis_batch_writing_buffer c))
  then flush_cache_buffer now else mret ().

(** Errors are logged and [None] is returned. *)
Definition get_cache (now : Z) (key : string) : M (t R) pyval :=
  m_try (c ← m_get;
         cached_response ← on_client (rc_get now (check_and_fix_namespace key c));
         m_lift (_get_cache_logic cached_response))
        (λ _, mret PNone).

Definition async_get_cache (now : Z) (key : string) : M (t R) pyval :=
  on_client rc_connect ;;
  c ← m_get;
  let key := check_and_fix_namespace key c in
  m_try (cached_response ← on_client (rc_get now key);
         m_lift (_get_cache_logic cached_response))
        (λ _, mret PNone).

Definition _run_redis_mget_operation (now : Z) (keys : list string)
    : M (t R) (list (option string)) := on_client (rc_mget now keys).

Definition _async_run_redis_mget_operation (now : Z) (keys : list string)
    : M (t R) (list (option string)) := on_client rc_connect ;; on_client (rc_mget now keys).

(** [dict(zip(keys, results))]: a repeated key keeps its first position and its
    last value. *)
Definition dict_of {V} (kvs : list (string * V)) : list (string * V) :=
  foldl (λ d kv, dset kv.1 kv.2 d) [] kvs.

Fixpoint decode_all (d : list (string * option string)) : res (list (string * pyval)) :=
  match d with
  | [] => Ok []
  | (k, v) :: d' => v' ← _get_cache_logic v; rest ← decode_all d'; mret ((k, v') :: rest)
  end.

(** Undecoded replies, as they stand in [key_value_dict] when decoding fails. *)
Definition raw (d : list (string * option string)) : list (string * pyval) :=
  (λ kv, (kv.1, match kv.2 with Some s => PStr s | None => PNone end)) <$> d.

(** Whatever fails, a dict is returned: the decoded replies, the raw replies when
    decoding raised, or [{}] when the read itself raised. *)
Definition batch_get_with (mget : Z → list string → M (t R) (list (option string)))
    (now : Z) (key_list : list string) : M (t R) (list (string * pyval)) := λ c,
  match mget now ((λ k, check_and_fix_namespace k c) <$> key_list) c with
  | (Raise _, c') => (Ok [], c')
  | (Ok results, c') =>
      let key_value_dict := dict_of (zip key_list results) in
      match decode_all key_value_dict with
      | Ok decoded => (Ok decoded, c')
      | Raise _ => (Ok (raw key_value_dict), c')
      end
  end.

Definition batch_get_cache := batch_get_with _run_redis_mget_operation.
Definition async_batch_get_cache := batch_get_with _async_run_redis_mget_operation.

Definition delete_cache_keys (now : Z) (keys : list string) : M (t R) unit :=
  on_client rc_connect ;; on_client (rc_delete now keys).

Definition flush_cache (now : Z) : M (t R) unit := on_client (rc_flushall now).

Definition async_delete_cache (now : Z) (key : string) : M (t R) unit :=
  on_client rc_connect ;; on_client (rc_delete now [key]).

Definition delete_cache (now : Z) (key : string) : M (t R) unit :=
  on_client (rc_delete now [key]).

Definition increment_cmds (c : t R) (l : list (string * pyval * option Z)) : list redis_cmd :=
  mjoin ((λ op : string * pyval * option Z,
    let key := check_and_fix_namespace op.1.1 c in
    CmdIncrByFloat key op.1.2 ::
    match op.2 with Some ttl => [CmdExpire key (Z.quot ttl 1000000)] | None => [] end) <$> l).

Definition is_float (v : pyval) : bool := match v with PFloat _ => true | _ => false end.

Definition _pipeline_increment_helper (now : Z) (increment_list : list (string * pyval * option Z))
    : M (t R) (list pyval) :=
  c ← m_get;
  results ← on_client (rc_execute now (increment_cmds c increment_list));
  mret (filter (λ v, is_float v = true) results).

Definition async_increment_pipeline (now : Z)
    (increment_list : list (string * pyval * option Z)) : M (t R) (option (list pyval)) :=
  match increment_list with
  | [] => mret None
  | _ => on_client rc_connect ;;
         results ← _pipeline_increment_helper now increment_list; mret (Some results)
  end.

Definition async_get_ttl (now : Z) (key : string) : M (t R) (option Z) :=
  m_try (on_client rc_connect ;;
         ttl ← on_client (rc_ttl now key);
         mret (if ttl <=? -1 then None else Some ttl))
        (λ _, mret None).
End ops.

#[export] Instance RedisCache_instance `{PyRuntime} {R} `{RedisClient R} : RedisCacheI (t R) := {|
  rd_set_cache := set_cache;
  rd_async_set_cache := async_set_cache;
  rd_get_cache := get_cache;
  rd_async_get_cache := async_get_cache;
  rd_async_batch_get_cache now keys := d ← async_batch_get_cache now keys; mret (Some d);
  rd_increment_cache := increment_cache;
  rd_async_increment := async_increment;
  rd_async_set_cache_pipeline := async_set_cache_pipeline;
  rd_async_increment_pipeline := async_increment_pipeline;
  rd_async_set_cache_sadd := async_set_cache_sadd;
  rd_flush_cache := flush_cache;
  rd_delete_cache := delete_cache;
  rd_async_delete_cache := async_delete_cache;
  rd_async_get_ttl := async_get_ttl
|}.

(** ** The write buffer under concurrent writers

    [flush_cache_buffer] hands the buffer to the pipeline, awaits its execution
    and then assigns [[]].  Other coroutines run during the await, so a flush is
    two atomic steps with [batch_cache_write] calls in between. *)
Record buffer_state := mkB {
  b_buffer : list (string * pyval);              (* redis_batch_writing_buffer *)
  b_in_flight : option (list (string * pyval));  (* the commands being executed *)
  b_written : list (string * pyval)              (* executed by Redis *)
}.

Inductive buffer_event :=
| EvWrite (kv : string * pyval)                  (* append *)
| EvFlushBegin                                   (* queue the buffer, start awaiting *)
| EvFlushEnd.                                    (* the await returns; buffer = [] *)

Definition buffer_step (s : buffer_state) (ev : buffer_event) : option buffer_state :=
  match ev, b_in_flight s with
  | EvWrite kv, _ => Some (mkB (b_buffer s ++ [kv]) (b_in_flight s) (b_written s))
  | EvFlushBegin, None => Some (mkB (b_buffer s) (Some (b_buffer s)) (b_written s))
  | EvFlushEnd, Some cmds => Some (mkB [] None (b_written s ++ cmds))
  | _, _ => None
  end.

Fixpoint buffer_run (s : buffer_state) (evs : list buffer_event) : option buffer_state :=
  match evs with
  | [] => Some s
  | ev :: evs' => s' ← buffer_step s ev; buffer_run s' evs'
  end.

Definition writes (evs : list buffer_event) : list (string * pyval) :=
  omap (λ ev, match ev with EvWrite kv => Some kv | _ => None end) evs.

(** No write happens while a flush is being awaited. *)
Fixpoint atomic_flushes (evs : list buffer_event) : bool :=
  match evs with
  | [] => true
  | EvFlushBegin :: EvFlushEnd :: evs' => atomic_flushes evs'
  | EvWrite _ :: evs' => atomic_flushes evs'
  | _ => false
  end.

(** ** Facts *)

Lemma prefix_app (a b : string) : String.prefix a (a +:+ b) = true.
Proof. induction a as [|x a IH]; simpl; [by destruct b|]. by destruct (Ascii.ascii_dec x x). Qed.

Section facts.
Context `{PyRuntime} {R : Type} `{RedisClient R}.

Lemma bind_get {A} (f : t R → M (t R) A) (c : t R) : (m_get ≫= f) c = f c c.
Proof. done. Qed.

(** The synchronous reads and writes and the TTL query swallow every error
    of the client: whatever Redis does, [set_cache], [get_cache],
    [batch_get_cache], [async_batch_get_cache] and [async_get_ttl] return. *)
Theorem swallowing_methods_return now key value ttl keys (c : t R) :
  is_ok (set_cache now key value ttl c).1 = true ∧
  is_ok (get_cache now key c).1 = true ∧
  is_ok (batch_get_cache now keys c).1 = true ∧
  is_ok (async_batch_get_cache now keys c).1 = true ∧
  is_ok (async_get_ttl now key c).1 = true.
Proof.
  split_and!.
  - unfold set_cache. rewrite bind_get. apply (m_try_mret_ok _ (λ _, ())).
  - apply (m_try_mret_ok _ (λ _, PNone)).
  - unfold batch_get_cache, batch_get_with. by repeat case_match.
  - unfold async_batch_get_cache, batch_get_with. by repeat case_match.
  - apply (m_try_mret_ok _ (λ _, None)).
Qed.

(** A failing bulk read is reported as an empty result, not as an error: when
    [mget] (or connecting) raises, [async_batch_get_cache] returns [{}]. *)
Theorem async_batch_get_cache_error now keys (c c' : t R) e :
  _async_run_redis_mget_operation now ((λ k, check_and_fix_namespace k c) <$> keys) c
    = (Raise e, c') →
  async_batch_get_cache now keys c = (Ok [], c').
Proof. intros E. unfold async_batch_get_cache, batch_get_with. by rewrite E. Qed.

(** Every key sent to Redis by the namespacing methods carries the
    namespace, namespacing twice is namespacing once, and the namespaced form of
    a key is also what its already-prefixed spelling maps to. *)
Theorem check_and_fix_namespace_spec key ns (c : t R) :
  namespace c = Some ns →
  String.prefix ns (check_and_fix_namespace key c) = true ∧
  check_and_fix_namespace (check_and_fix_namespace key c) c = check_and_fix_namespace key c ∧
  (String.prefix ns key = false →
   check_and_fix_namespace (ns +:+ ":" +:+ key) c = check_and_fix_namespace key c).
Proof.
  intros Hns. unfold check_and_fix_namespace. rewrite Hns.
  destruct (String.prefix ns key) eqn:E; [by rewrite E; split_and!|].
  rewrite prefix_app. auto.
Qed.
End facts.

(** What Redis documents for the calls used below: a value set is read until its
    expiry, and deleting other keys does not change it. *)
Class RedisLaws (R : Type) `{RedisClient R} := {
  rc_get_set now k v ex (r r' : R) reply :
    rc_set now k v false (Some ex) r = (Ok reply, r') →
    ∀ now', now ≤ now' < now + seconds ex → rc_get now' k r' = (Ok (Some v), r');
  rc_get_delete now ks (r r' : R) :
    rc_delete now ks r = (Ok (), r') →
    ∀ now' k, k ∉ ks → (rc_get now' k r').1 = (rc_get now' k r).1
}.

Section laws.
Context `{PyRuntime} {R : Type} `{RedisLaws R}.

(** The write as the server sees it. *)
Lemma async_set_cache_stored now key value ttl json (c : t R) r1 reply r2 :
  rc_connect (redis_client c) = (Ok (), r1) → json_dumps value = Some json →
  rc_set now (check_and_fix_namespace key c) json false (Some (get_ttl ttl c)) r1 = (Ok reply, r2) →
  async_set_cache now key value ttl c = (Ok (), set_client r2 c).
Proof.
  intros Hc Hj Hs.
  unfold async_set_cache, on_client, m_zoom, mbind, M_bind, m_get, m_try, m_lift, dumps.
  rewrite Hc, Hj. cbn [redis_client set_client].
  replace (check_and_fix_namespace key (set_client r1 c)) with (check_and_fix_namespace key c) by done.
  replace (get_ttl ttl (set_client r1 c)) with (get_ttl ttl c) by done.
  by rewrite Hs.
Qed.

(** Round trip through Redis: a value written with [async_set_cache] over a
    working connection is read back by [get_cache] as its JSON decoding, until
    the TTL runs out. *)
Theorem redis_roundtrip now now' key value value' ttl json (c : t R) r1 reply r2 :
  rc_connect (redis_client c) = (Ok (), r1) →
  json_dumps value = Some json → json_loads json = Some value' →
  rc_set now (check_and_fix_namespace key c) json false (Some (get_ttl ttl c)) r1 = (Ok reply, r2) →
  now ≤ now' < now + seconds (get_ttl ttl c) →
  (get_cache now' key (async_set_cache now key value ttl c).2).1 = Ok value'.
Proof.
  intros Hc Hj Hl Hs Ht. rewrite (async_set_cache_stored _ _ _ _ _ _ _ _ _ Hc Hj Hs). simpl.
  unfold get_cache, on_client, m_zoom, mbind, M_bind, m_get, m_try, m_lift. simpl.
  replace (check_and_fix_namespace key (set_client r2 c)) with (check_and_fix_namespace key c) by done.
  rewrite (rc_get_set _ _ _ _ _ _ _ Hs _ Ht). simpl. by rewrite Hl.
Qed.

(** [delete_cache] does not apply the namespace that [async_set_cache] and
    [get_cache] apply, so with a namespace a deleted key is still there. *)
Theorem delete_cache_misses_namespaced_key now now' key value value' ttl json ns
    (c : t R) r1 reply r2 r3 :
  namespace c = Some ns → String.prefix ns key = false →
  rc_connect (redis_client c) = (Ok (), r1) →
  json_dumps value = Some json → json_loads json = Some value' →
  rc_set now (check_and_fix_namespace key c) json false (Some (get_ttl ttl c)) r1 = (Ok reply, r2) →
  rc_delete now [key] r2 = (Ok (), r3) →
  now ≤ now' < now + seconds (get_ttl ttl c) →
  let c1 := (async_set_cache now key value ttl c).2 in
  delete_cache now key c1 = (Ok (), set_client r3 c1) ∧
  (get_cache now' key (delete_cache now key c1).2).1 = Ok value'.
Proof.
  intros Hns Hp Hc Hj Hl Hs Hd Ht c1. subst c1.
  rewrite (async_set_cache_stored _ _ _ _ _ _ _ _ _ Hc Hj Hs).
  assert (delete_cache now key (set_client r2 c) = (Ok (), set_client r3 (set_client r2 c))) as Hdel.
  { unfold delete_cache, on_client, m_zoom. simpl. by rewrite Hd. }
  simpl. rewrite Hdel. split; [done|]. simpl.
  unfold get_cache, on_client, m_zoom, mbind, M_bind, m_get, m_try, m_lift. simpl.
  replace (check_and_fix_namespace key (set_client r3 c)) with (check_and_fix_namespace key c) by done.
  assert (check_and_fix_namespace key c ∉ [key]) as Hni.
  { intros Heq%list_elem_of_singleton. unfold check_and_fix_namespace in Heq.
    rewrite Hns, Hp in Heq. rewrite <-Heq, prefix_app in Hp. done. }
  pose proof (rc_get_delete _ _ _ _ Hd now' _ Hni) as Hg.
  rewrite (rc_get_set _ _ _ _ _ _ _ Hs _ Ht) in Hg. simpl in Hg.
  destruct (rc_get now' _ r3) as [[o|e] r4]; simpl in *; simplify_eq. simpl. by rewrite Hl.
Qed.
End laws.

Lemma buffer_run_app s evs1 evs2 :
  buffer_run s (evs1 ++ evs2) = (buffer_run s evs1 ≫= λ s', buffer_run s' evs2).
Proof.
  revert s. induction evs1 as [|ev evs1 IH]; intros s; simpl; [done|].
  by destruct (buffer_step s ev); simpl.
Qed.

Lemma buffer_run_atomic n evs s s' :
  (length evs ≤ n)%nat → atomic_flushes evs = true → b_in_flight s = None →
  buffer_run s evs = Some s' →
  b_in_flight s' = None ∧ b_written s' ++ b_buffer s' = b_written s ++ b_buffer s ++ writes evs.
Proof.
  revert evs s. induction n as [|n IH]; intros evs s Hn Ha Hf Hr.
  { destruct evs; simpl in *; [|lia]. simplify_eq. by rewrite app_nil_r. }
  destruct evs as [|[kv| |] evs]; simpl in *; simplify_eq; [by rewrite app_nil_r| |].
  - apply IH in Hr as [? E]; [|lia|done|done]. split; [done|].
    rewrite E. simpl. by rewrite <-!(assoc_L (++)).
  - destruct evs as [|[kv| |] evs]; simpl in *; try done. rewrite Hf in Hr. simpl in Hr.
    apply IH in Hr as [? E]; [|lia|done|done]. split; [done|].
    rewrite E. simpl. by rewrite <-!(assoc_L (++)).
Qed.

(** When no write happens while a flush is awaited, the buffer loses nothing:
    what Redis executed followed by what is still buffered is exactly what was
    written, in order. *)
Theorem buffer_atomic_flush_lossless evs s' :
  atomic_flushes evs = true → buffer_run (mkB [] None []) evs = Some s' →
  b_written s' ++ b_buffer s' = writes evs.
Proof. intros Ha Hr. by apply (buffer_run_atomic (length evs)) in Hr as [_ ?]. Qed.

(** A write that lands while a flush is awaited is lost: it is neither executed
    by Redis nor left in the buffer. *)
Theorem buffer_write_during_flush_lost s kv :
  b_in_flight s = None →
  ∃ s', buffer_run s [EvFlushBegin; EvWrite kv; EvFlushEnd] = Some s' ∧
    b_buffer s' = [] ∧ b_written s' = b_written s ++ b_buffer s.
Proof. intros Hf. simpl. rewrite Hf. simpl. eauto. Qed.

(** ** A concrete Redis and concrete runs *)

Record toy := mkToy { toy_down : bool; toy_data : gmap string (string * Z) }.

Definition toy_op {A} (f : toy → A * toy) : M toy A := λ r,
  if toy_down r then (Raise RuntimeError, r) else let (a, r') := f r in (Ok a, r').

Definition toy_lookup (now : Z) (k : string) (r : toy) : option string :=
  match toy_data r !! k with Some (v, e) => if now <? e then Some v else None | None => None end.

#[export] Instance toy_client : RedisClient toy := {|
  rc_connect := mret ();
  rc_get now k := toy_op (λ r, (toy_lookup now k r, r));
  rc_mget now ks := toy_op (λ r, ((λ k, toy_lookup now k r) <$> ks, r));
  rc_set now k v nx ex := toy_op (λ r,
    if nx && (match toy_lookup now k r with Some _ => true | None => false end) then (PNone, r) else
    (PBool true, mkToy (toy_down r) (<[k := (v, now + seconds (default 1000000 ex))]> (toy_data r))));
  rc_incr now k v := toy_op (λ r, (v, r));
  rc_incrbyfloat now k v := toy_op (λ r, (v, r));
  rc_ttl now k := toy_op (λ r, (-1, r));
  rc_expire now k ttl := toy_op (λ r, ((), r));
  rc_sadd now k l := toy_op (λ r, ((), r));
  rc_delete now ks := toy_op (λ r, ((), mkToy (toy_down r) (foldr delete (toy_data r) ks)));
  rc_flushall now := toy_op (λ r, ((), mkToy (toy_down r) ∅));
  rc_execute now cmds := toy_op (λ r, ([], r))
|}.

#[export] Instance toy_laws : RedisLaws toy.
Proof.
  constructor.
  - intros now k v ex [[] d] r' reply; simpl; [done|]. intros [= <- <-] now' Ht.
    unfold toy_op, toy_lookup. simpl. rewrite lookup_insert_eq.
    destruct (Z.ltb_spec now' (now + seconds ex)); [done|lia].
  - intros now ks [[] d] r'; simpl; [done|]. intros [= <-] now' k Hk.
    unfold toy_op, toy_lookup. simpl. assert (foldr delete d ks !! k = d !! k) as ->; [|done].
    induction ks as [|k' ks IH]; simpl; [done|]. rewrite lookup_delete_ne by set_solver.
    apply IH. set_solver.
Qed.

Section examples.
#[local] Existing Instance toy_runtime.

Definition ex_redis (ns : option string) : t toy := init (mkToy false ∅) None ns None.

Lemma async_batch_get_cache_error_witness :
  async_batch_get_cache 0 ["a"] (init (mkToy true ∅) None None None : t toy)
    = (Ok [], init (mkToy true ∅) None None None).
Proof. apply (async_batch_get_cache_error 0 ["a"] _ _ RuntimeError). reflexivity. Defined.

Lemma check_and_fix_namespace_spec_witness :
  String.prefix "ns" (check_and_fix_namespace "a" (ex_redis (Some "ns"))) = true.
Proof. apply (check_and_fix_namespace_spec "a" "ns" (ex_redis (Some "ns"))). reflexivity. Defined.

Lemma redis_roundtrip_witness :
  (get_cache 5 "a" (async_set_cache 0 "a" (PInt 7) None (ex_redis (Some "ns"))).2).1 = Ok (PInt 7).
Proof.
  eapply (redis_roundtrip 0 5 "a" (PInt 7)); [reflexivity..|]. vm_compute. split; congruence.
Defined.

Lemma delete_cache_misses_namespaced_key_witness :
  let c1 := (async_set_cache 0 "a" (PInt 7) None (ex_redis (Some "ns"))).2 in
  (get_cache 5 "a" (delete_cache 0 "a" c1).2).1 = Ok (PInt 7).
Proof.
  eapply (delete_cache_misses_namespaced_key 0 5 "a" (PInt 7) (PInt 7) None "7" "ns");
    [reflexivity..|]. vm_compute. split; congruence.
Defined.

Lemma buffer_atomic_flush_lossless_witness :
  [("a", PInt 1)] ++ [("b", PInt 2)] =
    writes [EvWrite ("a", PInt 1); EvFlushBegin; EvFlushEnd; EvWrite ("b", PInt 2)].
Proof.
  apply (buffer_atomic_flush_lossless
    [EvWrite ("a", PInt 1); EvFlushBegin; EvFlushEnd; EvWrite ("b", PInt 2)]
    (mkB [("b", PInt 2)] None [("a", PInt 1)])); reflexivity.
Defined.

Lemma buffer_write_during_flush_lost_witness :
  ∃ s', buffer_run (mkB [("a", PInt 1)] None []) [EvFlushBegin; EvWrite ("b", PInt 2); EvFlushEnd]
    = Some s' ∧ b_buffer s' = [] ∧ b_written s' = [("a", PInt 1)].
Proof. apply (buffer_write_during_flush_lost (mkB [("a", PInt 1)] None [])). reflexivity. Defined.
End examples.
End RedisCache.
