(* ===== verification/DualCache.v ===== *)
(** * DualCache: [caching/dual_cache.py]

    The two-level cache of the router: an [InMemoryCache] in front of an optional
    Redis.  Redis is reached through the interface [RedisCacheI] only, so the
    theorems hold for any implementation of it.  [last_redis_batch_access_time]
    throttles bulk reads: a key that missed in memory is asked of Redis at most
    once per [redis_batch_cache_expiry]. *)

From stdpp Require Import base gmap sets list strings fin_maps.
From Stdlib Require Import ZArith QArith Lia ZifyBool.
From S2P Require Import Prelude Heapq InMemoryCache RedisCache.

#[local] Open Scope Z_scope.

(** ** [LimitedSizeOrderedDict] *)
Module LimitedDict.
Record ldict := mk { items : list (string * Z); max_size : Z }.

(** [__setitem__]: when the dict is full its oldest entry is popped, whether or
    not the key is new; popping an empty dict raises. *)
Definition setitem (key : string) (value : Z) (d : ldict) : res ldict :=
  if max_size d <=? Z.of_nat (length (items d)) then
    match items d with
    | [] => Raise KeyError
    | _ :: rest => Ok (mk (dset key value rest) (max_size d))
    end
  else Ok (mk (dset key value (items d)) (max_size d)).

(** [pop(key, None)]. *)
Definition pop (key : string) (d : ldict) : ldict := mk (ddel key (items d)) (max_size d).

Definition lookup (key : string) (d : ldict) : option Z := dget key (items d).
End LimitedDict.

Module DualCache.

Definition DEFAULT_MAX_REDIS_BATCH_CACHE_SIZE : Z := 1000.

Record t (R : Type) := mk {
  in_memory_cache : InMemoryCache.t;
  redis_cache : option R;
  last_redis_batch_access_time : LimitedDict.ldict;
  redis_batch_cache_expiry : Z;
  default_in_memory_ttl : option Z;
  default_redis_ttl : option Z
}.
Arguments mk {R}. Arguments in_memory_cache {R}. Arguments redis_cache {R}.
Arguments last_redis_batch_access_time {R}. Arguments redis_batch_cache_expiry {R}.
Arguments default_in_memory_ttl {R}. Arguments default_redis_ttl {R}.

(** [x or y or ...] on optional durations: [None] and [0] are skipped. *)
Definition or_opt (x y : option Z) : option Z :=
  match x with Some n => if n =? 0 then y else Some n | None => y end.

(** The module-level settings of [litellm] the constructor reads. *)
Record settings := {
  s_default_in_memory_ttl : option Z;
  s_default_redis_ttl : option Z;
  s_default_redis_batch_cache_expiry : option Z
}.
Definition default_settings : settings := Build_settings None None None.

Section ops.
Context `{PyRuntime} {R : Type} `{RedisCacheI R}.

Definition init (g : settings) (im : option InMemoryCache.t) (redis : option R)
    (im_ttl redis_ttl batch_expiry : option Z) (max_batch : Z) : t R :=
  mk (default InMemoryCache.init_default im) redis (LimitedDict.mk [] max_batch)
     (default (seconds 10) (or_opt batch_expiry (or_opt (s_default_redis_batch_cache_expiry g) None)))
     (or_opt im_ttl (s_default_in_memory_ttl g))
     (or_opt redis_ttl (s_default_redis_ttl g)).

Definition set_im (im : InMemoryCache.t) (c : t R) : t R :=
  mk im (redis_cache c) (last_redis_batch_access_time c) (redis_batch_cache_expiry c)
     (default_in_memory_ttl c) (default_redis_ttl c).
Definition set_redis (r : option R) (c : t R) : t R :=
  mk (in_memory_cache c) r (last_redis_batch_access_time c) (redis_batch_cache_expiry c)
     (default_in_memory_ttl c) (default_redis_ttl c).
Definition set_access (d : LimitedDict.ldict) (c : t R) : t R :=
  mk (in_memory_cache c) (redis_cache c) d (redis_batch_cache_expiry c)
     (default_in_memory_ttl c) (default_redis_ttl c).

Definition update_cache_ttl (im_ttl redis_ttl : option Z) (c : t R) : t R :=
  mk (in_memory_cache c) (redis_cache c) (last_redis_batch_access_time c)
     (redis_batch_cache_expiry c)
     (match im_ttl with Some d => Some d | None => default_in_memory_ttl c end)
     (match redis_ttl with Some d => Some d | None => default_redis_ttl c end).

(** A call on the in-memory cache. *)
Definition on_im {A} (m : M InMemoryCache.t A) : M (t R) A := m_zoom in_memory_cache set_im m.

(** [if self.redis_cache is not None and local_only is False: ...]. *)
Definition on_redis {A} (local_only : bool) (dflt : A) (m : M R A) : M (t R) A := λ c,
  match redis_cache c with
  | Some r => if local_only then (Ok dflt, c)
              else match m r with (a, r') => (a, set_redis (Some r') c) end
  | None => (Ok dflt, c)
  end.

(** [if "ttl" not in kwargs and self.default_in_memory_ttl is not None: ...]. *)
Definition with_default_ttl (ttl : ttl_kw) (c : t R) : ttl_kw :=
  match ttl, default_in_memory_ttl c with None, Some d => Some (Some d) | _, _ => ttl end.

Definition set_cache (now : Z) (key : string) (value : pyval) (local_only : bool) (ttl : ttl_kw)
    : M (t R) unit :=
  c ← m_get;
  let ttl := with_default_ttl ttl c in
  m_try (on_im (InMemoryCache.set_cache now key value ttl) ;;
         on_redis local_only () (rd_set_cache now key value ttl))
        (λ _, mret ()).

Definition increment_cache (now : Z) (key : string) (value : pyval) (local_only : bool)
    (ttl : ttl_kw) : M (t R) pyval :=
  result ← on_im (InMemoryCache.increment_cache now key value ttl);
  on_redis local_only result (rd_increment_cache now key value ttl).

(** Shared by the synchronous and asynchronous reads: memory first, then Redis,
    whose answer is copied into memory. *)
Definition read_through (redis_get : Z → string → M R pyval)
    (now : Z) (key : string) (local_only : bool) (ttl : ttl_kw) : M (t R) pyval :=
  m_try
    (in_memory_result ← on_im (InMemoryCache.get_cache now key);
     if is_none in_memory_result then
       c ← m_get;
       match redis_cache c with
       | Some _ =>
         if local_only then mret PNone else
         redis_result ← on_redis local_only PNone (redis_get now key);
         (if is_none redis_result then mret ()
          else on_im (InMemoryCache.set_cache now key redis_result ttl)) ;;
         mret redis_result
       | None => mret PNone
       end
     else mret in_memory_result)
    (λ _, mret PNone).

Definition get_cache := read_through rd_get_cache.
Definition async_get_cache := read_through rd_async_get_cache.

(** The loop of [_reserve_redis_batch_keys]. *)
Fixpoint reserve_loop (current_time expiry : Z) (kvs : list (string * pyval))
    (sublist : list string) (previous : list (string * option Z)) (d : LimitedDict.ldict)
    : res (list string * list (string * option Z)) * LimitedDict.ldict :=
  match kvs with
  | [] => (Ok (sublist, previous), d)
  | (key, value) :: kvs' =>
    if negb (is_none value) then reserve_loop current_time expiry kvs' sublist previous d else
    let last := LimitedDict.lookup key d in
    if match last with None => true | Some l => expiry <=? current_time - l end then
      match LimitedDict.setitem key current_time d with
      | Ok d' => reserve_loop current_time expiry kvs' (sublist ++ [key]) (dset key last previous) d'
      | Raise e => (Raise e, d)
      end
    else reserve_loop current_time expiry kvs' sublist previous d
  end.

Definition _reserve_redis_batch_keys (current_time : Z) (keys : list string) (result : list pyval)
    : M (t R) (list string * list (string * option Z)) := λ c,
  match reserve_loop current_time (redis_batch_cache_expiry c) (zip keys result) [] []
          (last_redis_batch_access_time c) with
  | (r, d) => (r, set_access d c)
  end.

Fixpoint rollback_loop (previous : list (string * option Z)) (d : LimitedDict.ldict)
    : res unit * LimitedDict.ldict :=
  match previous with
  | [] => (Ok (), d)
  | (key, None) :: l => rollback_loop l (LimitedDict.pop key d)
  | (key, Some tm) :: l =>
      match LimitedDict.setitem key tm d with
      | Ok d' => rollback_loop l d'
      | Raise e => (Raise e, d)
      end
  end.

Definition _rollback_redis_batch_key_reservations (previous : list (string * option Z))
    : M (t R) unit := λ c,
  match rollback_loop previous (last_redis_batch_access_time c) with
  | (r, d) => (r, set_access d c)
  end.

(** [key_to_index]: the last position of a key. *)
Definition key_to_index (key : string) (keys : list string) : option nat :=
  foldl (λ acc p, if String.eqb p.2 key then Some p.1 else acc) None (imap pair keys).

(** The loop over the Redis answer: fill the result and the in-memory cache. *)
Fixpoint fill_loop (now : Z) (ttl : ttl_kw) (keys : list string) (redis_result : list (string * pyval))
    (result : list pyval) : M (t R) (list pyval) :=
  match redis_result with
  | [] => mret result
  | (key, value) :: rest =>
    match key_to_index key keys with
    | None => m_raise KeyError
    | Some i =>
      (if is_none value then mret () else on_im (InMemoryCache.async_set_cache now key value ttl)) ;;
      fill_loop now ttl keys rest (<[i := value]> result)
    end
  end.

Definition batch_body (now : Z) (keys : list string) (local_only : bool) (ttl : ttl_kw)
    : M (t R) (list pyval) :=
  result ← on_im (InMemoryCache.async_batch_get_cache now keys);
  c ← m_get;
  match redis_cache c with
  | Some _ =>
    if existsb is_none result && negb local_only then
      '(sublist_keys, previous) ← _reserve_redis_batch_keys now keys result;
      match sublist_keys with
      | [] => mret result
      | _ =>
        redis_result ←
          m_try (on_redis false None (rd_async_batch_get_cache now sublist_keys))
                (λ e, _rollback_redis_batch_key_reservations previous ;; m_raise e);
        match redis_result with
        | None => mret result
        | Some d => if forallb (λ kv, is_none kv.2) d then mret result
                    else fill_loop now ttl keys d result
        end
      end
    else mret result
  | None => mret result
  end.

(** An exception anywhere is logged and [None] returned. *)
Definition async_batch_get_cache (now : Z) (keys : list string) (local_only : bool) (ttl : ttl_kw)
    : M (t R) (option (list pyval)) :=
  m_try (r ← batch_body now keys local_only ttl; mret (Some r)) (λ _, mret None).

(** Runs [async_batch_get_cache] to completion on an event loop of its own. *)
Definition batch_get_cache := async_batch_get_cache.

Definition async_set_cache (now : Z) (key : string) (value : pyval) (local_only : bool)
    (ttl : ttl_kw) : M (t R) unit :=
  c ← m_get;
  let ttl := with_default_ttl ttl c in
  m_try (on_im (InMemoryCache.async_set_cache now key value ttl) ;;
         on_redis local_only () (rd_async_set_cache now key value ttl))
        (λ _, mret ()).

Definition async_set_cache_pipeline (now : Z) (cache_list : list (string * pyval))
    (local_only : bool) (ttl : ttl_kw) : M (t R) unit :=
  c ← m_get;
  let ttl := with_default_ttl ttl c in
  m_try (on_im (InMemoryCache.async_set_cache_pipeline now cache_list (default None ttl)) ;;
         on_redis local_only () (rd_async_set_cache_pipeline now cache_list (default None ttl)))
        (λ _, mret ()).

Definition async_increment_cache (now : Z) (key : string) (value : pyval) (local_only : bool)
    (ttl : ttl_kw) : M (t R) pyval :=
  result ← on_im (InMemoryCache.async_increment now key value ttl);
  on_redis local_only result (rd_async_increment now key value (Some (default None ttl))).

(** The per-operation [ttl] reaches Redis only. *)
Definition async_increment_cache_pipeline (now : Z)
    (increment_list : list (string * pyval * option Z)) (local_only : bool)
    : M (t R) (option (list pyval)) :=
  result ← on_im (InMemoryCache.async_increment_pipeline now (increment_list.*1) None);
  on_redis local_only (Some result) (rd_async_increment_pipeline now increment_list).

Definition async_set_cache_sadd (now : Z) (key : string) (value : list pyval) (local_only : bool)
    (ttl : ttl_kw) : M (t R) unit :=
  on_im (InMemoryCache.async_set_cache_sadd now key value (default None ttl)) ;;
  on_redis local_only () (rd_async_set_cache_sadd now key value (default None ttl)).

Definition flush_cache (now : Z) : M (t R) unit :=
  on_im (m_modify InMemoryCache.flush_cache) ;;
  on_redis false () (rd_flush_cache now).

Definition delete_cache (now : Z) (key : string) : M (t R) unit :=
  on_im (m_modify (InMemoryCache.delete_cache key)) ;;
  on_redis false () (rd_delete_cache now key).

Definition async_delete_cache (now : Z) (key : string) : M (t R) unit :=
  on_im (m_modify (InMemoryCache.delete_cache key)) ;;
  on_redis false () (rd_async_delete_cache now key).

Definition async_get_ttl (now : Z) (key : string) : M (t R) (option Z) :=
  c ← m_get;
  match InMemoryCache.async_get_ttl key (in_memory_cache c) with
  | Some ttl => mret (Some ttl)
  | None => on_redis false None (rd_async_get_ttl now key)
  end.
End ops.

(** ** The bounded access-time table *)

(** The table never exceeds its size. *)
Definition limited_wf (d : LimitedDict.ldict) : Prop :=
  dict_wf (LimitedDict.items d) ∧ Z.of_nat (length (LimitedDict.items d)) ≤ LimitedDict.max_size d.

Lemma length_ddel_le {V} k (d : list (string * V)) : (length (ddel k d) ≤ length d)%nat.
Proof. induction d as [|[k' v'] d IH]; simpl; [done|]. destruct (String.eqb k k'); simpl; lia. Qed.

Lemma setitem_wf key value d d' :
  limited_wf d → LimitedDict.setitem key value d = Ok d' → limited_wf d'.
Proof.
  intros [Hw Hl]. unfold LimitedDict.setitem, limited_wf in *.
  destruct (Z.leb_spec (LimitedDict.max_size d) (Z.of_nat (length (LimitedDict.items d)))).
  - destruct (LimitedDict.items d) as [|kv rest] eqn:Hi; [done|]. intros [= <-]. simpl in *.
    split; [apply dset_wf; by apply NoDup_cons in Hw as []|].
    rewrite length_dset. destruct (dmem key rest); lia.
  - intros [= <-]. simpl. split; [by apply dset_wf|]. rewrite length_dset.
    destruct (dmem key (LimitedDict.items d)); lia.
Qed.

(** With room left, an assignment is an ordinary dict assignment. *)
Lemma setitem_room key value d :
  Z.of_nat (length (LimitedDict.items d)) < LimitedDict.max_size d →
  LimitedDict.setitem key value d
    = Ok (LimitedDict.mk (dset key value (LimitedDict.items d)) (LimitedDict.max_size d)).
Proof.
  intros Hr. unfold LimitedDict.setitem.
  by destruct (Z.leb_spec (LimitedDict.max_size d) (Z.of_nat (length (LimitedDict.items d)))); [lia|].
Qed.

(** A key Redis may be asked for at [now]. *)
Definition due (now expiry : Z) (d : LimitedDict.ldict) (k : string) : bool :=
  match LimitedDict.lookup k d with None => true | Some l => expiry <=? now - l end.

(** What a reservation loop that started from [d0] has done so far. *)
Record reserving (now expiry : Z) (d0 : LimitedDict.ldict) (sub : list string)
    (prev : list (string * option Z)) (d : LimitedDict.ldict) : Prop := {
  rsv_max : LimitedDict.max_size d = LimitedDict.max_size d0;
  rsv_wf : dict_wf (LimitedDict.items d);
  rsv_due k : k ∈ sub → due now expiry d0 k = true;
  rsv_new k : k ∈ sub → LimitedDict.lookup k d = Some now;
  rsv_old k : k ∉ sub → LimitedDict.lookup k d = LimitedDict.lookup k d0;
  rsv_prev : dict_wf prev ∧ dkeys prev = sub ∧
             ∀ k o, dget k prev = Some o → o = LimitedDict.lookup k d0
}.

Lemma reserving_start now expiry d : dict_wf (LimitedDict.items d) → reserving now expiry d [] [] d.
Proof. intros Hw. split; try done; [by intros ? ?%not_elem_of_nil..|]. split_and!; [constructor|done|done]. Qed.

Lemma reserving_add now expiry d0 sub prev d k :
  0 < expiry → reserving now expiry d0 sub prev d → due now expiry d k = true →
  Z.of_nat (length (LimitedDict.items d)) < LimitedDict.max_size d →
  (k ∉ sub) ∧
  reserving now expiry d0 (sub ++ [k]) (dset k (LimitedDict.lookup k d) prev)
    (LimitedDict.mk (dset k now (LimitedDict.items d)) (LimitedDict.max_size d)).
Proof.
  intros He [Hm Hw Hd Hn Ho (Hpw & Hpk & Hpv)] Hdue Hroom.
  assert (k ∉ sub) as Hk.
  { intros Hin. unfold due in Hdue. rewrite (Hn _ Hin) in Hdue. lia. }
  split; [done|]. split; simpl; [done|by apply dset_wf| | | |].
  - intros k' [Hin| ->%list_elem_of_singleton]%elem_of_app; [by apply Hd|].
    unfold due in *. by rewrite <-(Ho _ Hk).
  - intros k' Hin. unfold LimitedDict.lookup. simpl. rewrite dget_dset.
    destruct (String.eqb_spec k k') as [->|]; [done|]. apply Hn. set_solver.
  - intros k' Hin. unfold LimitedDict.lookup. simpl. rewrite dget_dset.
    destruct (String.eqb_spec k k') as [->|]; [set_solver|]. apply Ho. set_solver.
  - assert (dget k prev = None) as Hnone by (apply dget_None; by rewrite Hpk).
    split_and!; [by apply dset_wf| |].
    + rewrite dkeys_dset. unfold dmem. by rewrite Hnone, Hpk.
    + intros k' o. rewrite dget_dset. destruct (String.eqb_spec k k') as [->|]; [|by apply Hpv].
      intros [= <-]. by apply Ho.
Qed.

Lemma reserve_loop_spec now expiry kvs sub prev d0 d :
  0 < expiry → reserving now expiry d0 sub prev d →
  Z.of_nat (length (LimitedDict.items d)) + Z.of_nat (length kvs) ≤ LimitedDict.max_size d →
  ∃ sub' prev' d',
    reserve_loop now expiry kvs sub prev d = (Ok (sub', prev'), d') ∧
    reserving now expiry d0 sub' prev' d' ∧
    Z.of_nat (length (LimitedDict.items d')) ≤
      Z.of_nat (length (LimitedDict.items d)) + Z.of_nat (length kvs) ∧
    (length sub' ≤ length sub + length kvs)%nat ∧
    (∀ k, k ∈ sub' → k ∈ sub ∨ (k, PNone) ∈ kvs) ∧
    (∀ k, k ∈ sub → k ∈ sub') ∧
    (∀ k, (k, PNone) ∈ kvs → due now expiry d0 k = true → k ∈ sub').
Proof.
  intros He. revert sub prev d. induction kvs as [|[k v] kvs IH]; intros sub prev d Hr Hl; simpl in *.
  { exists sub, prev, d. split_and!; auto; [lia|lia|by intros k ?%not_elem_of_nil]. }
  destruct (is_none v) eqn:Hv; simpl; last first.
  { destruct (IH sub prev d Hr ltac:(lia)) as (s' & p' & d' & E & Hr' & Hl' & H0 & H1 & H2 & H3).
    exists s', p', d'. split_and!; auto; [lia|lia| |].
    - intros k' Hk'. destruct (H1 _ Hk'); [by left|right; by right].
    - intros k' [[= -> <-]|Hin]%elem_of_cons Hdue; [done|auto]. }
  destruct v; try done. fold (due now expiry d k). destruct (due now expiry d k) eqn:Hdue.
  - rewrite setitem_room by lia.
    destruct (reserving_add _ _ _ _ _ _ k He Hr Hdue ltac:(lia)) as [Hk Hr1].
    destruct (IH _ _ _ Hr1) as (s' & p' & d' & E & Hr' & Hl' & H0 & H1 & H2 & H3); simpl.
    { rewrite length_dset. destruct (dmem k _); lia. }
    exists s', p', d'. split_and!; auto.
    + simpl in Hl'. rewrite length_dset in Hl'. destruct (dmem k _); lia.
    + rewrite length_app in H0. simpl in H0. lia.
    + intros k' Hk'. destruct (H1 _ Hk') as [?|?]; [|right; by right]. set_solver.
    + intros k' Hk'. apply H2. set_solver.
    + intros k' [[= ->]|Hin]%elem_of_cons Hd'; [apply H2; set_solver|auto].
  - destruct (IH sub prev d Hr ltac:(lia)) as (s' & p' & d' & E & Hr' & Hl' & H0 & H1 & H2 & H3).
    exists s', p', d'. split_and!; auto; [lia|lia| |].
    + intros k' Hk'. destruct (H1 _ Hk'); [by left|right; by right].
    + intros k' [[= ->]|Hin]%elem_of_cons Hd'; [|auto].
      destruct (decide (k ∈ sub)) as [Hs|Hs]; [auto|].
      unfold due in *. rewrite (rsv_old _ _ _ _ _ _ Hr _ Hs) in Hdue. congruence.
Qed.

Lemma rollback_loop_spec prev d :
  dict_wf prev → dict_wf (LimitedDict.items d) →
  Z.of_nat (length (LimitedDict.items d)) + Z.of_nat (length prev) < LimitedDict.max_size d →
  ∃ d', rollback_loop prev d = (Ok (), d') ∧
    ∀ k, LimitedDict.lookup k d' =
         match dget k prev with Some o => o | None => LimitedDict.lookup k d end.
Proof.
  revert d. induction prev as [|[k o] prev IH]; intros d Hp Hw Hl; simpl in *; [eauto|].
  apply NoDup_cons in Hp as [Hk Hp]. apply dget_None in Hk. simpl in Hk. destruct o as [tm|].
  - rewrite setitem_room by lia.
    destruct (IH (LimitedDict.mk (dset k tm (LimitedDict.items d)) (LimitedDict.max_size d)))
      as (d' & -> & Hd'); [done|by apply dset_wf| |].
    { simpl. rewrite length_dset. destruct (dmem k _); lia. }
    exists d'. split; [done|]. intros k'. rewrite Hd'. unfold LimitedDict.lookup. simpl.
    rewrite dget_dset. destruct (String.eqb_spec k k') as [->|].
    + by rewrite Hk, String.eqb_refl.
    + by destruct (String.eqb_spec k' k); [congruence|].
  - destruct (IH (LimitedDict.pop k d)) as (d' & -> & Hd'); [done|by apply ddel_wf| |].
    { simpl. pose proof (length_ddel_le k (LimitedDict.items d)). lia. }
    exists d'. split; [done|]. intros k'. rewrite Hd'. unfold LimitedDict.lookup. simpl.
    destruct (String.eqb_spec k' k) as [->|].
    + rewrite Hk. by apply dget_ddel_eq.
    + by rewrite dget_ddel_ne.
Qed.

(** ** Both levels together *)

Section theorems.
Context `{PyRuntime} {R : Type} `{RedisCacheI R}.
Implicit Types c : t R.

(** *** Which level a call touches *)

Definition mem_inv (k : Z * Z * Z) c : Prop := InMemoryCache.inv k (in_memory_cache c).
Definition redis_is (r : option R) c : Prop := redis_cache c = r.

Lemma on_im_mem k {A} (m : M InMemoryCache.t A) :
  preserves (InMemoryCache.inv k) m → preserves (mem_inv k) (on_im m).
Proof.
  intros Hm c Hc. unfold on_im, m_zoom. specialize (Hm _ Hc).
  by destruct (m (in_memory_cache c)).
Qed.

Lemma on_redis_mem k {A} lo (d : A) m : preserves (mem_inv k) (on_redis lo d m).
Proof.
  intros c Hc. unfold on_redis. destruct (redis_cache c) as [r|]; [|done].
  destruct lo; [done|]. by destruct (m r).
Qed.

Lemma on_im_redis r {A} (m : M InMemoryCache.t A) : preserves (redis_is r) (on_im m).
Proof. intros c Hc. unfold on_im, m_zoom. by destruct (m (in_memory_cache c)). Qed.

Lemma on_redis_local r {A} (d : A) m : preserves (redis_is r) (on_redis true d m).
Proof. intros c Hc. unfold on_redis. by destruct (redis_cache c). Qed.

Lemma reserve_mem k now keys result : preserves (mem_inv k) (_reserve_redis_batch_keys now keys result).
Proof. intros c Hc. unfold _reserve_redis_batch_keys. by case_match. Qed.

Lemma rollback_mem k prev : preserves (mem_inv k) (_rollback_redis_batch_key_reservations prev).
Proof. intros c Hc. unfold _rollback_redis_batch_key_reservations. by case_match. Qed.

Lemma im_modify_inv k f :
  (∀ im, InMemoryCache.inv k im → InMemoryCache.inv k (f im)) →
  preserves (InMemoryCache.inv k) (m_modify f).
Proof. apply preserves_modify. Qed.

Lemma fill_loop_mem k now ttl keys d result : preserves (mem_inv k) (fill_loop now ttl keys d result).
Proof.
  revert result. induction d as [|[key v] d IH]; intros result; simpl; [apply preserves_ret|].
  unfold InMemoryCache.async_set_cache. preserves_tac. apply on_im_mem, InMemoryCache.set_cache_preserves.
Qed.
End theorems.

#[export] Hint Resolve on_im_mem on_redis_mem on_im_redis on_redis_local reserve_mem rollback_mem
  fill_loop_mem im_modify_inv InMemoryCache.set_cache_preserves InMemoryCache.get_cache_preserves
  InMemoryCache.delete_cache_inv InMemoryCache.flush_cache_inv InMemoryCache.async_set_cache_pipeline_preserves
  InMemoryCache.batch_get_cache_preserves InMemoryCache.async_set_cache_sadd_preserves
  InMemoryCache.increment_cache_preserves InMemoryCache.async_increment_preserves
  InMemoryCache.async_increment_pipeline_preserves : pydb.

Section machine.
Context `{PyRuntime} {R : Type} `{RedisCacheI R}.
Implicit Types c : t R.

Lemma batch_body_mem k now keys lo ttl :
  preserves (mem_inv k) (batch_body (R := R) now keys lo ttl).
Proof.
  unfold batch_body, InMemoryCache.async_batch_get_cache, InMemoryCache.async_get_cache.
  preserves_tac.
Qed.

(** A running two-level cache: any method, any arguments, any time. *)
Inductive step c : t R → Prop :=
| step_set now key v lo ttl : step c (set_cache now key v lo ttl c).2
| step_async_set now key v lo ttl : step c (async_set_cache now key v lo ttl c).2
| step_set_pipeline now l lo ttl : step c (async_set_cache_pipeline now l lo ttl c).2
| step_sadd now key l lo ttl : step c (async_set_cache_sadd now key l lo ttl c).2
| step_get now key lo ttl : step c (get_cache now key lo ttl c).2
| step_async_get now key lo ttl : step c (async_get_cache now key lo ttl c).2
| step_batch_get now keys lo ttl : step c (async_batch_get_cache now keys lo ttl c).2
| step_increment now key v lo ttl : step c (increment_cache now key v lo ttl c).2
| step_async_increment now key v lo ttl : step c (async_increment_cache now key v lo ttl c).2
| step_increment_pipeline now l lo : step c (async_increment_cache_pipeline now l lo c).2
| step_delete now key : step c (delete_cache now key c).2
| step_async_delete now key : step c (async_delete_cache now key c).2
| step_flush now : step c (flush_cache now c).2
| step_update_ttl a b : step c (update_cache_ttl a b c).

Lemma step_mem k c c' : mem_inv k c → step c c' → mem_inv k c'.
Proof.
  intros Hc Hs. revert c Hc Hs.
  assert (Hp : ∀ A (m : M (t R) A), preserves (mem_inv k) m →
            ∀ c, mem_inv k c → mem_inv k (m c).2) by auto.
  intros c Hc Hs. destruct Hs; [apply Hp; [|done]..|done].
  - unfold set_cache. preserves_tac.
  - unfold async_set_cache, InMemoryCache.async_set_cache. preserves_tac.
  - unfold async_set_cache_pipeline. preserves_tac.
  - unfold async_set_cache_sadd. preserves_tac.
  - unfold get_cache, read_through. preserves_tac.
  - unfold async_get_cache, read_through. preserves_tac.
  - unfold async_batch_get_cache. preserves_tac. apply batch_body_mem.
  - unfold increment_cache. preserves_tac.
  - unfold async_increment_cache. preserves_tac.
  - unfold async_increment_cache_pipeline. preserves_tac.
  - unfold delete_cache. preserves_tac.
  - unfold async_delete_cache. preserves_tac.
  - unfold flush_cache. preserves_tac.
Qed.

(** Whatever Redis does, the in-memory level of a running two-level cache
    keeps its invariant and stays within the [max_size_in_memory] it was built
    with. *)
Theorem dual_memory_bounded g max_size ttl per_item redis a b e n c :
  0 ≤ default 200 max_size →
  rtc step (init g (Some (InMemoryCache.init max_size ttl per_item)) redis a b e n) c →
  InMemoryCache.wf (in_memory_cache c) ∧
  Z.of_nat (size (InMemoryCache.cache_dict (in_memory_cache c))) ≤ default 200 max_size.
Proof.
  intros Hm Hr. set (k := InMemoryCache.cfg (InMemoryCache.init max_size ttl per_item)).
  assert (mem_inv k (init g (Some (InMemoryCache.init max_size ttl per_item)) redis a b e n)) as Hi
    by (split; [by apply InMemoryCache.wf_init|done]).
  assert (mem_inv k c) as [Hwf [= E _ _]] by (induction Hr; eauto using step_mem).
  split; [done|]. rewrite <-E. by apply InMemoryCache.wf_size.
Qed.

(** [local_only] calls never reach Redis: its state is the same after any of
    them. *)
Theorem local_only_leaves_redis now key v l ops keys ttl c :
  redis_cache (set_cache now key v true ttl c).2 = redis_cache c ∧
  redis_cache (async_set_cache now key v true ttl c).2 = redis_cache c ∧
  redis_cache (async_set_cache_pipeline now l true ttl c).2 = redis_cache c ∧
  redis_cache (get_cache now key true ttl c).2 = redis_cache c ∧
  redis_cache (async_get_cache now key true ttl c).2 = redis_cache c ∧
  redis_cache (async_batch_get_cache now keys true ttl c).2 = redis_cache c ∧
  redis_cache (increment_cache now key v true ttl c).2 = redis_cache c ∧
  redis_cache (async_increment_cache now key v true ttl c).2 = redis_cache c ∧
  redis_cache (async_increment_cache_pipeline now ops true c).2 = redis_cache c.
Proof.
  assert (Hp : ∀ A (m : M (t R) A), preserves (redis_is (redis_cache c)) m →
            redis_cache (m c).2 = redis_cache c) by (intros A m Hm; by apply Hm).
  split_and!; apply Hp.
  - unfold set_cache. preserves_tac.
  - unfold async_set_cache. preserves_tac.
  - unfold async_set_cache_pipeline. preserves_tac.
  - unfold get_cache, read_through. preserves_tac.
  - unfold async_get_cache, read_through. preserves_tac.
  - unfold async_batch_get_cache, batch_body. preserves_tac.
    all: rewrite andb_false_r in *; done.
  - unfold increment_cache. preserves_tac.
  - unfold async_increment_cache. preserves_tac.
  - unfold async_increment_cache_pipeline. preserves_tac.
Qed.

(** Reads and writes of the two-level cache never raise, whatever the Redis
    behind it does; only the increments propagate its errors. *)
Theorem dual_reads_and_writes_return now key v l keys lo ttl c :
  is_ok (set_cache now key v lo ttl c).1 = true ∧
  is_ok (async_set_cache now key v lo ttl c).1 = true ∧
  is_ok (async_set_cache_pipeline now l lo ttl c).1 = true ∧
  is_ok (get_cache now key lo ttl c).1 = true ∧
  is_ok (async_get_cache now key lo ttl c).1 = true ∧
  is_ok (async_batch_get_cache now keys lo ttl c).1 = true.
Proof.
  split_and!; [apply (m_try_mret_ok _ (λ _, ()))..|apply (m_try_mret_ok _ (λ _, PNone))
    |apply (m_try_mret_ok _ (λ _, PNone))|apply (m_try_mret_ok _ (λ _, None))].
Qed.

(** *** Read after write *)

Lemma on_im_run {A} (m : M InMemoryCache.t A) c a im :
  m (in_memory_cache c) = (a, im) → on_im m c = (a, set_im im c).
Proof. intros E. unfold on_im, m_zoom. by rewrite E. Qed.

Lemma on_redis_im {A} lo (d : A) m c :
  in_memory_cache (on_redis lo d m c).2 = in_memory_cache c.
Proof. unfold on_redis. destruct (redis_cache c); [|done]. destruct lo; [done|]. by case_match. Qed.

Lemma on_redis_run {A} (d : A) m c r a r' :
  redis_cache c = Some r → m r = (a, r') → on_redis false d m c = (a, set_redis (Some r') c).
Proof. intros Hr E. unfold on_redis. by rewrite Hr, E. Qed.

(** The in-memory state after a write does not depend on Redis. *)
Lemma async_set_cache_im now key value lo ttl c :
  InMemoryCache.wf (in_memory_cache c) →
  in_memory_cache (async_set_cache now key value lo ttl c).2 =
    (InMemoryCache.set_cache now key value (with_default_ttl ttl c) (in_memory_cache c)).2.
Proof.
  intros Hwf. pose proof (InMemoryCache.set_cache_ok now key value (with_default_ttl ttl c) _ Hwf).
  unfold async_set_cache, InMemoryCache.async_set_cache, m_try, mbind, M_bind, m_get.
  destruct (InMemoryCache.set_cache now key value (with_default_ttl ttl c) (in_memory_cache c))
    as [r im] eqn:E. simpl in *. subst r. rewrite (on_im_run _ _ _ _ E).
  pose proof (on_redis_im lo () (rd_async_set_cache now key value (with_default_ttl ttl c))
    (set_im im c)) as Hr.
  by destruct (on_redis lo () _ _) as [[u|e] c'].
Qed.

(** Read your writes.  After [async_set_cache] the value is read back from
    either kind of read until its in-memory expiry, whether or not Redis took
    the write or answers at all. *)
Theorem read_your_writes now key value lo ttl c :
  InMemoryCache.wf (in_memory_cache c) →
  InMemoryCache.max_size_in_memory (in_memory_cache c) ≠ 0 →
  InMemoryCache.check_value_size (in_memory_cache c) value = true →
  is_none (InMemoryCache.loads_or_self value) = false →
  ∃ e, (e = InMemoryCache.expiry now (with_default_ttl ttl c) (in_memory_cache c) ∨
        InMemoryCache.ttl_dict (in_memory_cache c) !! key = Some e ∧ now ≤ e) ∧
    ∀ now' lo' ttl', now' ≤ e →
      let c1 := (async_set_cache now key value lo ttl c).2 in
      (get_cache now' key lo' ttl' c1).1 = Ok (InMemoryCache.loads_or_self value) ∧
      (async_get_cache now' key lo' ttl' c1).1 = Ok (InMemoryCache.loads_or_self value).
Proof.
  intros Hwf Hm Hsz Hv.
  destruct (InMemoryCache.set_cache_entry now key value (with_default_ttl ttl c) _ Hwf Hm Hsz)
    as (Hc & e & He & Hor).
  exists e. split; [done|]. intros now' lo' ttl' Hle c1.
  assert ((InMemoryCache.get_cache now' key (in_memory_cache c1)).1 =
          Ok (InMemoryCache.loads_or_self value)) as Hget.
  { subst c1. rewrite async_set_cache_im by done.
    erewrite InMemoryCache.get_cache_entry; [|done|done].
    by destruct (Z.leb_spec now' e); [|lia]. }
  destruct (InMemoryCache.get_cache now' key (in_memory_cache c1)) as [r im] eqn:E.
  simpl in Hget. subst r.
  unfold get_cache, async_get_cache, read_through, m_try, mbind, M_bind.
  rewrite (on_im_run _ _ _ _ E), Hv. done.
Qed.

(** Read-through.  A key that is not in memory and that Redis answers with a
    value is returned and copied into memory; without a [ttl] argument the copy
    lives for the [InMemoryCache] default, not for [default_in_memory_ttl]. *)
Theorem read_through_copies now key v r r' c lo :
  InMemoryCache.wf (in_memory_cache c) →
  InMemoryCache.max_size_in_memory (in_memory_cache c) ≠ 0 →
  InMemoryCache.check_value_size (in_memory_cache c) v = true → is_none v = false →
  InMemoryCache.cache_dict (in_memory_cache c) !! key = None →
  redis_cache c = Some r → rd_async_get_cache now key r = (Ok v, r') → lo = false →
  let c' := (async_get_cache now key lo None c).2 in
  (async_get_cache now key lo None c).1 = Ok v ∧
  redis_cache c' = Some r' ∧
  InMemoryCache.cache_dict (in_memory_cache c') !! key = Some v ∧
  InMemoryCache.ttl_dict (in_memory_cache c') !! key
    = Some (now + InMemoryCache.default_ttl (in_memory_cache c)).
Proof.
  intros Hwf Hm Hsz Hv Hk Hr Hg ->.
  assert (InMemoryCache.get_cache now key (in_memory_cache c) = (Ok PNone, in_memory_cache c)) as Hmiss.
  { unfold InMemoryCache.get_cache. by rewrite Hk. }
  destruct (InMemoryCache.set_cache_entry now key v None _ Hwf Hm Hsz) as (Hc & e & He & Hor).
  pose proof (InMemoryCache.set_cache_ok now key v None _ Hwf) as Hok.
  destruct (InMemoryCache.set_cache now key v None (in_memory_cache c)) as [u im] eqn:Es.
  simpl in *. subst u.
  assert (e = now + InMemoryCache.default_ttl (in_memory_cache c)) as ->.
  { destruct Hor as [->|[Ht _]]; [done|]. apply elem_of_dom_2 in Ht.
    rewrite <-(InMemoryCache.core_dom _ (InMemoryCache.wf_core _ Hwf)) in Ht.
    apply elem_of_dom in Ht as [? ?]. congruence. }
  assert (async_get_cache now key false None c =
          (Ok v, set_im im (set_redis (Some r') (set_im (in_memory_cache c) c)))) as ->; [|done].
  unfold async_get_cache, read_through, m_try, mbind, M_bind, m_get.
  rewrite (on_im_run _ _ _ _ Hmiss). simpl. rewrite Hr.
  rewrite (on_redis_run _ _ (set_im (in_memory_cache c) c) r _ _ Hr Hg). rewrite Hv.
  by rewrite (on_im_run _ _ _ _ (Es : _ (in_memory_cache (set_redis (Some r')
    (set_im (in_memory_cache c) c))) = _)).
Qed.

(** A local read, and a bulk read without Redis, answer from memory. *)
Lemma get_cache_local now key ttl c :
  get_cache now key true ttl c =
    (Ok (InMemoryCache.live_value now key (in_memory_cache c)),
     set_im (InMemoryCache.get_cache now key (in_memory_cache c)).2 c).
Proof.
  destruct (InMemoryCache.get_cache_live now key (in_memory_cache c)) as (E & _).
  unfold get_cache, read_through, m_try, mbind, M_bind, m_get.
  destruct (InMemoryCache.get_cache now key (in_memory_cache c)) as [r im] eqn:Eg. simpl in E. subst r.
  rewrite (on_im_run _ _ _ _ Eg).
  destruct (is_none (InMemoryCache.live_value now key (in_memory_cache c))) eqn:En; [|done].
  destruct (InMemoryCache.live_value now key (in_memory_cache c)); try done. simpl.
  by destruct (redis_cache c).
Qed.

Lemma batch_get_no_redis now keys lo ttl c :
  redis_cache c = None →
  (async_batch_get_cache now keys lo ttl c).1 =
    Ok (Some ((λ k, InMemoryCache.live_value now k (in_memory_cache c)) <$> keys)).
Proof.
  intros Hr. pose proof (InMemoryCache.batch_get_live now keys (in_memory_cache c)) as E.
  unfold async_batch_get_cache, batch_body, m_try, mbind, M_bind, m_get.
  change (InMemoryCache.async_batch_get_cache now keys) with (InMemoryCache.batch_get_cache now keys).
  destruct (InMemoryCache.batch_get_cache now keys (in_memory_cache c)) as [r im] eqn:Eb.
  simpl in E. subst r. rewrite (on_im_run _ _ _ _ Eb). simpl. by rewrite Hr.
Qed.

Lemma set_cache_no_redis now key value lo ttl c im :
  redis_cache c = None →
  InMemoryCache.set_cache now key value (with_default_ttl ttl c) (in_memory_cache c) = (Ok (), im) →
  set_cache now key value lo ttl c = (Ok (), set_im im c).
Proof.
  intros Hr E. unfold set_cache, m_try, mbind, M_bind, m_get. rewrite (on_im_run _ _ _ _ E).
  unfold on_redis. simpl. by rewrite Hr.
Qed.

(** *** Bulk reads *)

(** On distinct keys the reserved ones are, in order, those that missed and are due. *)
Lemma reserve_loop_sub now expiry kvs sub prev d :
  NoDup kvs.*1 → Z.of_nat (length (LimitedDict.items d)) + Z.of_nat (length kvs) ≤ LimitedDict.max_size d →
  ∃ prev' d', reserve_loop now expiry kvs sub prev d =
    (Ok (sub ++ (filter (λ p, is_none p.2 && due now expiry d p.1 = true) kvs).*1, prev'), d').
Proof.
  revert sub prev d. induction kvs as [|[k v] kvs IH]; intros sub prev d Hnd Hl.
  { exists prev, d. by rewrite app_nil_r. }
  rewrite fmap_cons in Hnd. apply NoDup_cons in Hnd as [Hk Hnd]. cbn [length fst] in *. cbn [reserve_loop].
  rewrite filter_cons. cbn [fst snd]. destruct (is_none v) eqn:Ev; cbn [negb andb].
  2: { rewrite decide_False by done. apply IH; [done|lia]. }
  fold (due now expiry d k). destruct (due now expiry d k) eqn:Ed.
  2: { rewrite decide_False by done. apply IH; [done|lia]. }
  rewrite decide_True, setitem_room by (done || lia).
  destruct (IH (sub ++ [k]) (dset k (LimitedDict.lookup k d) prev)
    (LimitedDict.mk (dset k now (LimitedDict.items d)) (LimitedDict.max_size d))) as (prev' & d' & E); [done| |].
  { simpl. rewrite length_dset. destruct (dmem k _); lia. }
  exists prev', d'. rewrite E, fmap_cons, <-(assoc_L (++)). cbn [fst].
  rewrite (filter_bool_ext (λ p, is_none p.2 && due now expiry d p.1)
    (λ p, is_none p.2 && due now expiry (LimitedDict.mk (dset k now (LimitedDict.items d)) (LimitedDict.max_size d)) p.1));
    [done|].
  intros [k' v'] Hin. cbn [fst snd]. f_equal. unfold due, LimitedDict.lookup. simpl. rewrite dget_dset_ne; [done|].
  intros ->. apply Hk. apply (list_elem_of_fmap_2 fst) in Hin. done.
Qed.

Lemma filter_zip_fmap {V} (f : V → bool) (g : string → bool) (h : string → V) keys :
  (filter (λ p, f p.2 && g p.1 = true) (zip keys (h <$> keys))).*1 = filter (λ k, f (h k) && g k = true) keys.
Proof.
  induction keys as [|k keys IH]; [done|]. rewrite fmap_cons. cbn [zip zip_with]. rewrite !filter_cons. cbn [fst snd].
  case_decide; [by rewrite fmap_cons, IH|done].
Qed.

Lemma filter_none_true {A} (P : A → bool) (l : list A) :
  (∀ x, x ∈ l → P x = false) → filter (λ x, P x = true) l = [].
Proof.
  induction l as [|x l IH]; intros Hp; [done|]. rewrite filter_cons, (Hp x) by set_solver.
  rewrite decide_False by done. apply IH. set_solver.
Qed.

Lemma key_to_index_lookup keys i k : NoDup keys → keys !! i = Some k → key_to_index k keys = Some i.
Proof.
  unfold key_to_index. intros Hnd Hi.
  assert (Hskip : ∀ (l : list string) (f : nat → nat) acc, k ∉ l →
    foldl (λ acc (p : nat * string), if String.eqb p.2 k then Some p.1 else acc) acc (imap (λ i x, (f i, x)) l) = acc).
  { intros l. induction l as [|x l IH]; intros f acc Hn; [done|]. rewrite imap_cons. simpl.
    destruct (String.eqb_spec x k) as [->|]; [set_solver|]. apply (IH (f ∘ S)). set_solver. }
  assert (Hgen : ∀ (l : list string) (f : nat → nat) acc j, NoDup l → l !! j = Some k →
    foldl (λ acc (p : nat * string), if String.eqb p.2 k then Some p.1 else acc) acc (imap (λ i x, (f i, x)) l) = Some (f j)).
  { intros l. induction l as [|x l IH]; intros f acc j Hl Hj; [done|]. apply NoDup_cons in Hl as [Hx Hl].
    rewrite imap_cons. destruct j as [|j]; simpl in *.
    - injection Hj as ->. rewrite String.eqb_refl. by apply (Hskip l (f ∘ S)).
    - by apply (IH (f ∘ S)). }
  by apply (Hgen keys id).
Qed.

Lemma insert_fmap_distinct {V} (g : string → V) keys i k v :
  NoDup keys → keys !! i = Some k →
  <[i := v]> (g <$> keys) = (λ k', if String.eqb k k' then v else g k') <$> keys.
Proof.
  intros Hnd Hi. apply list_eq. intros j. rewrite list_lookup_fmap.
  destruct (decide (i = j)) as [<-|Hne].
  - rewrite list_lookup_insert_eq by (rewrite length_fmap; by eapply lookup_lt_Some). rewrite Hi. simpl.
    by rewrite String.eqb_refl.
  - rewrite list_lookup_insert_ne, list_lookup_fmap by done. destruct (keys !! j) as [k'|] eqn:Hj; [|done]. simpl.
    destruct (String.eqb_spec k k') as [->|]; [|done]. destruct Hne. by eapply NoDup_lookup.
Qed.

Lemma fill_loop_values now ttl keys store asked g c :
  InMemoryCache.wf (in_memory_cache c) → NoDup keys → asked ⊆ keys →
  ∃ c', fill_loop now ttl keys ((λ k, (k, store k)) <$> asked) (g <$> keys) c =
    (Ok ((λ k, if bool_decide (k ∈ asked) then store k else g k) <$> keys), c').
Proof.
  intros Hw Hnd. revert g c Hw. induction asked as [|k asked IH]; intros g c Hw Hsub.
  { exists c. cbn [fill_loop fmap list_fmap]. do 2 f_equal. }
  destruct (list_elem_of_lookup_1 keys k) as [i Hi]; [set_solver|].
  cbn [fmap list_fmap fill_loop]. rewrite (key_to_index_lookup _ _ _ Hnd Hi), (insert_fmap_distinct _ _ _ _ _ Hnd Hi).
  assert (∃ c1, (if is_none (store k) then mret ()
            else on_im (InMemoryCache.async_set_cache now k (store k) ttl)) c = (Ok (), c1) ∧
          InMemoryCache.wf (in_memory_cache c1)) as (c1 & E1 & Hw1).
  { destruct (is_none (store k)); [by exists c|].
    pose proof (InMemoryCache.set_cache_ok now k (store k) ttl _ Hw) as Eok.
    pose proof (InMemoryCache.set_cache_wf now k (store k) ttl _ Hw) as Hw1.
    unfold InMemoryCache.async_set_cache.
    destruct (InMemoryCache.set_cache now k (store k) ttl (in_memory_cache c)) as [a im] eqn:E. simpl in *. subst a.
    exists (set_im im c). split; [by apply on_im_run|done]. }
  destruct (IH (λ k', if String.eqb k k' then store k else g k') c1 Hw1) as (c' & E'); [set_solver|].
  exists c'. unfold mbind, M_bind. rewrite E1, E'. do 2 f_equal. apply list_fmap_ext. intros j k' _.
  destruct (String.eqb_spec k k') as [->|Hne]; repeat case_bool_decide; set_solver.
Qed.

(** What a bulk read answers.  For distinct keys, with Redis answering and room in
    the access table, every key gets its live in-memory value, else Redis's value if
    the key is due for a Redis read, else [None]; Redis is asked for exactly the due
    keys, in order. *)
Theorem batch_get_values now keys ttl c r store r' :
  InMemoryCache.wf (in_memory_cache c) → NoDup keys → redis_cache c = Some r →
  Z.of_nat (length (LimitedDict.items (last_redis_batch_access_time c)) + length keys)
    ≤ LimitedDict.max_size (last_redis_batch_access_time c) →
  let live k := InMemoryCache.live_value now k (in_memory_cache c) in
  let ask k := is_none (live k) && due now (redis_batch_cache_expiry c) (last_redis_batch_access_time c) k in
  let asked := filter (λ k, ask k = true) keys in
  (asked ≠ [] → rd_async_batch_get_cache now asked r = (Ok (Some ((λ k, (k, store k)) <$> asked)), r')) →
  (async_batch_get_cache now keys false ttl c).1 =
    Ok (Some ((λ k, if ask k then store k else live k) <$> keys)).
Proof.
  intros Hw Hnd Hr Hroom live ask asked Hrd.
  pose proof (InMemoryCache.batch_get_live now keys (in_memory_cache c)) as E.
  pose proof (InMemoryCache.batch_get_cache_preserves (InMemoryCache.cfg (in_memory_cache c)) now keys
    (in_memory_cache c) (conj Hw eq_refl)) as [Hw' _].
  unfold async_batch_get_cache, batch_body, m_try, mbind, M_bind, m_get.
  change (InMemoryCache.async_batch_get_cache now keys) with (InMemoryCache.batch_get_cache now keys).
  destruct (InMemoryCache.batch_get_cache now keys (in_memory_cache c)) as [res im] eqn:Eb.
  simpl in E, Hw'. subst res. rewrite (on_im_run _ _ _ _ Eb). fold live. cbn [redis_cache set_im]. rewrite Hr.
  assert (Hnone : asked = [] → (λ k, if ask k then store k else live k) <$> keys = live <$> keys).
  { intros Ha. apply list_fmap_ext. intros i k Hk%list_elem_of_lookup_2. destruct (ask k) eqn:Ek; [|done].
    assert (k ∈ asked) as Hin by (by apply list_elem_of_filter). rewrite Ha in Hin. by apply not_elem_of_nil in Hin. }
  destruct (existsb is_none (live <$> keys)) eqn:Ex; cbn [negb andb]; last first.
  { rewrite Hnone; [done|]. apply filter_none_true. intros k Hk. unfold ask. destruct (is_none (live k)) eqn:En; [|done].
    assert (existsb is_none (live <$> keys) = true) as Ht; [|congruence].
    apply existsb_exists. exists (live k). split; [|done]. by apply list_elem_of_In, list_elem_of_fmap_2. }
  destruct (reserve_loop_sub now (redis_batch_cache_expiry c) (zip keys (live <$> keys)) [] []
    (last_redis_batch_access_time c)) as (prev & d & Er).
  { by rewrite fst_zip by (rewrite length_fmap; lia). }
  { rewrite length_zip_with, length_fmap. lia. }
  rewrite filter_zip_fmap in Er. change (filter _ keys) with asked in Er. unfold _reserve_redis_batch_keys.
  cbn [redis_batch_cache_expiry last_redis_batch_access_time set_im]. rewrite Er. cbn [app].
  destruct asked as [|k0 asked'] eqn:Ea; [by rewrite Hnone|]. rewrite <-Ea in *.
  rewrite (on_redis_run _ _ (set_access d (set_im im c)) r _ r' Hr (Hrd ltac:(by rewrite Ea))).
  assert (Hask : ∀ k, k ∈ keys → ask k = bool_decide (k ∈ asked)).
  { intros k Hk. symmetry. rewrite Ea. destruct (ask k) eqn:Ek.
    - apply bool_decide_eq_true_2. rewrite <-Ea. by apply list_elem_of_filter.
    - apply bool_decide_eq_false_2. rewrite <-Ea. intros [? _]%list_elem_of_filter. congruence. }
  destruct (forallb _ _) eqn:Ef.
  - simpl. do 2 f_equal. apply list_fmap_ext. intros i k Hk%list_elem_of_lookup_2. destruct (ask k) eqn:Ek; [|done].
    assert (is_none (store k) = true) as Hs.
    { apply (proj1 (forallb_forall _ _) Ef (k, store k)). apply list_elem_of_In, (list_elem_of_fmap_2 (λ k, (k, store k))).
      rewrite (Hask _ Hk) in Ek. by apply bool_decide_eq_true_1 in Ek. }
    apply andb_prop in Ek as [Hl _]. by destruct (store k), (live k).
  - destruct (fill_loop_values now ttl keys store asked live
      (set_redis (Some r') (set_access d (set_im im c)))) as (c' & Ec); [done|done| |].
    { intros k. rewrite Ea, <-Ea. by intros [_ ?]%list_elem_of_filter. }
    rewrite Ec. simpl. do 2 f_equal. apply list_fmap_ext. intros i k Hk%list_elem_of_lookup_2.
    by rewrite (Hask _ Hk).
Qed.

(** The throttle asks Redis exactly for what is due.  With room in the access
    table, the reserved keys are the keys that missed in memory and were not
    asked for within [redis_batch_cache_expiry]; each gets the current time and
    no other entry changes. *)
Theorem reserve_exactly_due now keys result c :
  0 < redis_batch_cache_expiry c →
  dict_wf (LimitedDict.items (last_redis_batch_access_time c)) →
  Z.of_nat (length (LimitedDict.items (last_redis_batch_access_time c)) + length (zip keys result))
    ≤ LimitedDict.max_size (last_redis_batch_access_time c) →
  ∃ sub prev d,
    _reserve_redis_batch_keys now keys result c = (Ok (sub, prev), set_access d c) ∧
    (∀ k, k ∈ sub ↔ (k, PNone) ∈ zip keys result ∧
       due now (redis_batch_cache_expiry c) (last_redis_batch_access_time c) k = true) ∧
    ∀ k, LimitedDict.lookup k d = if decide (k ∈ sub) then Some now
                                  else LimitedDict.lookup k (last_redis_batch_access_time c).
Proof.
  intros He Hw Hl.
  destruct (reserve_loop_spec now _ (zip keys result) [] [] _ _ He (reserving_start now _ _ Hw)
    ltac:(lia)) as (sub & prev & d & E & Hr & _ & _ & H1 & _ & H3).
  exists sub, prev, d. split_and!; [unfold _reserve_redis_batch_keys; by rewrite E| |].
  - intros k. split; [|intros []; auto]. intros Hk. split; [|by apply (rsv_due _ _ _ _ _ _ Hr)].
    by destruct (H1 _ Hk) as [?%not_elem_of_nil|].
  - intros k. case_decide; [by apply (rsv_new _ _ _ _ _ _ Hr)|by apply (rsv_old _ _ _ _ _ _ Hr)].
Qed.

(** A failed Redis read does not throttle the next one: rolling back the
    reservations of a bulk read restores every access time. *)
Theorem reserve_rollback_restores now keys result c :
  0 < redis_batch_cache_expiry c →
  dict_wf (LimitedDict.items (last_redis_batch_access_time c)) →
  Z.of_nat (length (LimitedDict.items (last_redis_batch_access_time c))
            + 2 * length (zip keys result))
    < LimitedDict.max_size (last_redis_batch_access_time c) →
  ∃ sub prev c1 c2,
    _reserve_redis_batch_keys now keys result c = (Ok (sub, prev), c1) ∧
    _rollback_redis_batch_key_reservations prev c1 = (Ok (), c2) ∧
    ∀ k, LimitedDict.lookup k (last_redis_batch_access_time c2)
       = LimitedDict.lookup k (last_redis_batch_access_time c).
Proof.
  intros He Hw Hl.
  destruct (reserve_loop_spec now _ (zip keys result) [] [] _ _ He (reserving_start now _ _ Hw)
    ltac:(lia)) as (sub & prev & d & E & Hr & Hl' & Hn & _ & _ & _).
  destruct (rsv_prev _ _ _ _ _ _ Hr) as (Hpw & Hpk & Hpv).
  assert (length prev = length sub) as Hlen by (rewrite <-Hpk; unfold dkeys; by rewrite length_fmap).
  destruct (rollback_loop_spec prev d Hpw (rsv_wf _ _ _ _ _ _ Hr)) as (d' & E' & Hd').
  { rewrite (rsv_max _ _ _ _ _ _ Hr). simpl in Hn. lia. }
  exists sub, prev, (set_access d c), (set_access d' c). split_and!.
  - unfold _reserve_redis_batch_keys. by rewrite E.
  - unfold _rollback_redis_batch_key_reservations. simpl. by rewrite E'.
  - intros k. simpl. rewrite Hd'. destruct (dget k prev) as [o|] eqn:Ek; [by apply Hpv|].
    apply dget_None in Ek. rewrite Hpk in Ek. by apply (rsv_old _ _ _ _ _ _ Hr).
Qed.
End machine.

(** ** Concrete runs *)

Section examples.
#[local] Existing Instance toy_runtime.
#[local] Existing Instance RedisCache.toy_client.
#[local] Existing Instance RedisCache.RedisCache_instance.

(** A two-level cache over the concrete Redis: fresh, reachable or down, with
    room for four access times. *)
Definition ex_dual (down : bool) (data : gmap string (string * Z)) : t (RedisCache.t RedisCache.toy) :=
  init default_settings (Some (InMemoryCache.init (Some 2) None None))
    (Some (RedisCache.init (RedisCache.mkToy down data) None None None)) None None None 4.

Lemma ex_dual_wf down data : InMemoryCache.wf (in_memory_cache (ex_dual down data)).
Proof. by apply InMemoryCache.wf_init. Qed.

Lemma dual_memory_bounded_witness :
  let c := (async_set_cache 0 "a" (PInt 7) false None (ex_dual true ∅)).2 in
  Z.of_nat (size (InMemoryCache.cache_dict (in_memory_cache c))) ≤ 2.
Proof.
  apply (dual_memory_bounded default_settings (Some 2) None None
    (Some (RedisCache.init (RedisCache.mkToy true ∅) None None None)) None None None 4); [simpl; lia|].
  apply rtc_once, step_async_set.
Defined.

Lemma read_your_writes_witness :
  ∃ e, ∀ now', now' ≤ e →
    (async_get_cache now' "a" false None
      (async_set_cache 0 "a" (PInt 7) false None (ex_dual true ∅)).2).1 = Ok (PInt 7).
Proof.
  destruct (read_your_writes 0 "a" (PInt 7) false None (ex_dual true ∅) (ex_dual_wf _ _))
    as (e & _ & Hr); [vm_compute; congruence|reflexivity..|].
  exists e. intros now' Hle. by apply (Hr now' false None).
Defined.

Lemma read_through_copies_witness :
  let c := ex_dual false {["a" := ("7", seconds 60)]} in
  (async_get_cache 0 "a" false None c).1 = Ok (PInt 7).
Proof.
  eapply (read_through_copies 0 "a" (PInt 7) _ _ (ex_dual false {["a" := ("7", seconds 60)]}) false
    (ex_dual_wf _ _)); [vm_compute; congruence|reflexivity..| |reflexivity]. vm_compute. reflexivity.
Defined.

Lemma batch_get_values_witness :
  (async_batch_get_cache 0 ["a"; "b"] false None (ex_dual false {["a" := ("7", seconds 60)]})).1
    = Ok (Some [PInt 7; PNone]).
Proof.
  apply (batch_get_values 0 ["a"; "b"] None (ex_dual false {["a" := ("7", seconds 60)]})
    (RedisCache.init (RedisCache.mkToy false {["a" := ("7", seconds 60)]}) None None None)
    (λ k, if String.eqb k "a" then PInt 7 else PNone)
    (RedisCache.init (RedisCache.mkToy false {["a" := ("7", seconds 60)]}) None None None)).
  - apply ex_dual_wf.
  - apply NoDup_cons; split; [set_solver|]. apply NoDup_singleton.
  - reflexivity.
  - simpl. lia.
  - intros _. vm_compute. reflexivity.
Defined.

Lemma reserve_exactly_due_witness :
  ∃ sub prev d, _reserve_redis_batch_keys 0 ["a"; "b"] [PNone; PInt 1] (ex_dual true ∅)
    = (Ok (sub, prev), set_access d (ex_dual true ∅)) ∧ ("a" ∈ sub ↔ ("a", PNone) ∈ [("a", PNone); ("b", PInt 1)] ∧ true = true).
Proof.
  destruct (reserve_exactly_due 0 ["a"; "b"] [PNone; PInt 1] (ex_dual true ∅))
    as (sub & prev & d & E & Hs & _); [vm_compute; reflexivity|constructor|simpl; lia|].
  exists sub, prev, d. split; [exact E|]. exact (Hs "a").
Defined.

Lemma reserve_rollback_restores_witness :
  ∃ sub prev c1 c2, _reserve_redis_batch_keys 0 ["a"] [PNone] (ex_dual true ∅) = (Ok (sub, prev), c1) ∧
    _rollback_redis_batch_key_reservations prev c1 = (Ok (), c2) ∧
    LimitedDict.lookup "a" (last_redis_batch_access_time c2) = None.
Proof.
  destruct (reserve_rollback_restores 0 ["a"] [PNone] (ex_dual true ∅))
    as (sub & prev & c1 & c2 & E1 & E2 & Hk); [vm_compute; reflexivity|constructor|simpl; lia|].
  exists sub, prev, c1, c2. split_and!; [exact E1|exact E2|exact (Hk "a")].
Defined.

(** A failed Redis read does throttle the next one.  [RedisCache.async_batch_get_cache]
    swallows the client error and answers with an empty dict, so the rollback
    branch of [async_batch_get_cache] is not taken: the key stays reserved, a
    read 5 s later (Redis being back) still misses, and only after
    [redis_batch_cache_expiry] is the value found. *)
Theorem failed_batch_read_throttles :
  let down := ex_dual true ∅ in
  let r0 := async_batch_get_cache 0 ["a"] false None down in
  let up := set_redis (redis_cache (ex_dual false {["a" := ("7", seconds 60)]})) r0.2 in
  r0.1 = Ok (Some [PNone]) ∧
  (async_batch_get_cache (seconds 5) ["a"] false None up).1 = Ok (Some [PNone]) ∧
  (async_batch_get_cache (seconds 10) ["a"] false None up).1 = Ok (Some [PInt 7]).
Proof. vm_compute. auto. Qed.

(** [LimitedSizeOrderedDict] pops its oldest entry also when the assigned key
    is already present: re-assigning a key of a full table shrinks it. *)
Theorem limited_dict_overwrite_evicts :
  LimitedDict.setitem "b" 5 (LimitedDict.mk [("a", 1); ("b", 2)] 2)
    = Ok (LimitedDict.mk [("b", 5)] 2).
Proof. reflexivity. Qed.
End examples.
End DualCache.
