(* ===== verification/Scheduler.v ===== *)
(** * Scheduler: [scheduler.py]

    The request queue of the router: one heap per model group, kept as a list in a
    [DualCache].  [get_queue] hands out the cached list object itself, so
    [heapq.heappush] and [heapq.heappop] change the cache entry before [save_queue]
    writes it back; [in_place] models that aliasing.  Every method runs at one time
    [now].  The refinement theorem says that, within the lifetime of the cache
    entry, the scheduler is a priority queue; further theorems show what happens
    after that lifetime and after a trip through Redis. *)

From stdpp Require Import base gmap sets list strings sorting.
From Stdlib Require Import ZArith QArith Lia ZifyBool.
From S2P Require Import Prelude Heapq PyHeapq InMemoryCache RedisCache DualCache.

#[local] Open Scope Z_scope.

Module Scheduler.

(** [SchedulerCacheKeys]. *)
Definition queue_key_prefix : string := "scheduler:queue".
Definition DEFAULT_IN_MEMORY_TTL : Z := seconds 5.
Definition DEFAULT_POLLING_INTERVAL : Z := 30000.

Record FlowItem := mkFlow { priority : Z; request_id : string; model_name : string }.

Record t (R : Type) := mk {
  queue : list pyval;
  cache : DualCache.t R;
  polling_interval : Z
}.
Arguments mk {R}. Arguments queue {R}. Arguments cache {R}. Arguments polling_interval {R}.

Section ops.
Context `{PyRuntime} {R : Type} `{RedisCacheI R}.

Definition init (g : DualCache.settings) (interval : option Z) (redis : option R) : t R :=
  let im_ttl := match redis with Some _ => Some DEFAULT_IN_MEMORY_TTL | None => None end in
  mk [] (DualCache.init g None redis im_ttl None None DualCache.DEFAULT_MAX_REDIS_BATCH_CACHE_SIZE)
     (InMemoryCache.or_int interval DEFAULT_POLLING_INTERVAL).

Definition set_cache_obj (c : DualCache.t R) (s : t R) : t R := mk (queue s) c (polling_interval s).
Definition on_cache {A} (m : M (DualCache.t R) A) : M (t R) A := m_zoom cache set_cache_obj m.

Definition cache_key (model : string) : string := queue_key_prefix +:+ ":" +:+ model.

Definition get_queue (now : Z) (model : string) : M (t R) (list pyval) :=
  response ← on_cache (DualCache.async_get_cache now (cache_key model) false None);
  match response with PList q => mret q | _ => mret [] end.

Definition save_queue (now : Z) (q : list pyval) (model : string) : M (t R) unit :=
  on_cache (DualCache.async_set_cache now (cache_key model) (PList q) false None).

(** Run a mutation of the list [get_queue] returned.  When the in-memory cache
    holds a list at the key, it is that object, and the entry changes with it,
    also when the mutation raises half-way. *)
Definition in_place {A} (model : string) (q : list pyval) (m : M (list pyval) A)
    : M (t R) (A * list pyval) := λ s,
  let (r, q') := m q in
  let im := DualCache.in_memory_cache (cache s) in
  let im' := match InMemoryCache.cache_dict im !! cache_key model with
             | Some (PList _) =>
                 InMemoryCache.with_cache (<[cache_key model := PList q']>) im
             | _ => im
             end in
  let s' := set_cache_obj (DualCache.set_im im' (cache s)) s in
  match r with Ok a => (Ok (a, q'), s') | Raise e => (Raise e, s') end.

Definition add_request (now : Z) (request : FlowItem) : M (t R) unit :=
  q ← get_queue now (model_name request);
  '(_, q') ← in_place (model_name request) q (py_heappush (enc (priority request, request_id request)));
  save_queue now q' (model_name request).

Definition invalid_queue : exn := GenericError "Incorrectly setup. Queue is invalid. Queue=[]".

(** [item[1]]. *)
Definition item_id (v : pyval) : res pyval :=
  match v with
  | PTuple l | PList l => match l !! 1%nat with Some x => Ok x | None => Raise IndexError end
  | PStr s => match String.get 1 s with Some a => Ok (PStr (String a "")) | None => Raise IndexError end
  | PDict _ => Raise KeyError
  | _ => Raise TypeError
  end.

(** [queue[0][1] == id]. *)
Definition at_top (id : string) (top : pyval) : res bool :=
  match item_id top with Ok x => Ok (py_eqb x (PStr id)) | Raise e => Raise e end.

Definition poll (now : Z) (id model : string) (health_deployments : list pyval) : M (t R) bool :=
  q ← get_queue now model;
  match q with
  | [] => m_raise invalid_queue
  | top :: _ =>
    match health_deployments with
    | [] =>
      b ← m_lift (at_top id top);
      if b : bool then
        '(_, q') ← in_place model q py_heappop;
        save_queue now q' model ;;
        mret true
      else mret false
    | _ :: _ => mret true
    end
  end.

(** [[item for item in queue if item[1] != request_id]]. *)
Fixpoint filter_out (id : string) (q : list pyval) : res (list pyval) :=
  match q with
  | [] => Ok []
  | item :: q' =>
    match item_id item with
    | Raise e => Raise e
    | Ok x => match filter_out id q' with
              | Raise e => Raise e
              | Ok r => Ok (if py_eqb x (PStr id) then r else item :: r)
              end
    end
  end.

(** The filtered queue is a list of its own. *)
Definition remove_request (now : Z) (id model : string) : M (t R) unit :=
  q ← get_queue now model;
  filtered_queue ← m_lift (filter_out id q);
  filtered_queue' ← (λ s, match py_heapify filtered_queue with
                          | (Ok _, q') => (Ok q', s) | (Raise e, _) => (Raise e, s) end);
  save_queue now filtered_queue' model.

Definition peek (now : Z) (id model : string) (health_deployments : list pyval) : M (t R) bool :=
  q ← get_queue now model;
  match q with
  | [] => m_raise invalid_queue
  | top :: _ => m_lift (at_top id top)
  end.

Definition get_queue_status (s : t R) : list pyval := queue s.
End ops.

(** ** The abstract priority queue *)

Inductive op : Type :=
| Add (p : Z) (id : string)
| Poll (id : string) (health : list pyval)
| Peek (id : string) (health : list pyval)
| Remove (id : string).

Fixpoint insert_sorted (x : Z * string) (q : list (Z * string)) : list (Z * string) :=
  match q with
  | [] => [x]
  | y :: q' => if py_ltb y x then y :: insert_sorted x q' else x :: q
  end.

(** What the queue of one model group promises: requests wait in order of
    (priority, id); with no healthy deployment only the first is let through, and
    it leaves; [None] is the answer of a call without one. *)
Definition spec_step (o : op) (q : list (Z * string)) : res (option bool) * list (Z * string) :=
  match o with
  | Add p id => (Ok None, insert_sorted (p, id) q)
  | Poll id health =>
      match q, health with
      | [], _ => (Raise invalid_queue, q)
      | _ :: _, _ :: _ => (Ok (Some true), q)
      | (p, id') :: q', [] => if String.eqb id' id then (Ok (Some true), q') else (Ok (Some false), q)
      end
  | Peek id health =>
      match q with
      | [] => (Raise invalid_queue, q)
      | (p, id') :: q' => (Ok (Some (String.eqb id' id)), q)
      end
  | Remove id => (Ok None, filter (λ x, x.2 ≠ id) q)
  end.

Fixpoint spec_run (ops : list (Z * op)) (q : list (Z * string)) : list (res (option bool)) :=
  match ops with
  | [] => []
  | (_, o) :: ops' => (spec_step o q).1 :: spec_run ops' (spec_step o q).2
  end.

(** The same calls on the scheduler. *)
Definition step `{PyRuntime} {R} `{RedisCacheI R} (model : string) (now : Z) (o : op) (s : t R)
    : res (option bool) * t R :=
  match o with
  | Add p id => match add_request now (mkFlow p id model) s with (r, s') => ((λ _, None) <$> r, s') end
  | Poll id health => match poll now id model health s with (r, s') => (Some <$> r, s') end
  | Peek id health => match peek now id model health s with (r, s') => (Some <$> r, s') end
  | Remove id => match remove_request now id model s with (r, s') => ((λ _, None) <$> r, s') end
  end.

Fixpoint run `{PyRuntime} {R} `{RedisCacheI R} (model : string) (ops : list (Z * op)) (s : t R)
    : list (res (option bool)) :=
  match ops with
  | [] => []
  | (now, o) :: ops' => (step model now o s).1 :: run model ops' (step model now o s).2
  end.

(** ** The simulation *)

(** The abstract queue is kept in order, and its head is the root of any heap with
    the same items. *)
Lemma insert_sorted_perm x q : insert_sorted x q ≡ₚ x :: q.
Proof.
  induction q as [|y q IH]; cbn [insert_sorted]; [done|].
  destruct (py_ltb y x); [|done]. rewrite IH. apply Permutation_swap.
Qed.

Lemma insert_sorted_sorted x q : StronglySorted py_le q → StronglySorted py_le (insert_sorted x q).
Proof.
  induction 1 as [|y q Hs IH Hy]; cbn [insert_sorted]; [repeat constructor|].
  destruct (py_ltb y x) eqn:E.
  - constructor; [done|]. rewrite insert_sorted_perm. constructor; [by apply py_ltb_le|done].
  - constructor; [by constructor|]. constructor; [done|].
    eapply Forall_impl; [exact Hy|]. simpl. intros z Hz. by apply (py_le_trans x y z).
Qed.

Lemma filter_sorted (P : Z * string → Prop) `{∀ x, Decision (P x)} q :
  StronglySorted py_le q → StronglySorted py_le (filter P q).
Proof.
  induction 1 as [|y q Hs IH Hy]; [constructor|]. rewrite filter_cons. case_decide; [|done].
  constructor; [done|]. apply Forall_forall. intros z [_ Hz]%list_elem_of_filter.
  by apply (proj1 (Forall_forall _ _) Hy).
Qed.

Lemma heap_sorted_head (l q : list (Z * string)) x y q' :
  is_heap l → l ≡ₚ q → StronglySorted py_le q → l !! 0%nat = Some x → q = y :: q' → x = y.
Proof.
  intros Hh Hp Hs Hx ->. inversion Hs as [|? ? _ Hy]; subst.
  assert (x ∈ y :: q') as Hin by (rewrite <-Hp; by apply list_elem_of_lookup_2 with 0%nat).
  apply py_le_antisym.
  - apply (heap_min l); [done|done|]. rewrite Hp. set_solver.
  - apply elem_of_cons in Hin as [->|Hin]; [apply py_le_refl|].
    by apply (proj1 (Forall_forall _ _) Hy).
Qed.

Section simulation.
Context `{PyRuntime} {R : Type} `{RedisCacheI R}.
Implicit Types (s : t R) (l q : list (Z * string)) (k : Z * Z * Z).

Definition im s : InMemoryCache.t := DualCache.in_memory_cache (cache s).

(** A scheduler without Redis whose cache has configuration [k]; an entry for the
    model group is live at least until [dl]. *)
Record ready (k : Z * Z * Z) (dl : Z) (model : string) s : Prop := {
  r_wf : InMemoryCache.wf (im s);
  r_cfg : InMemoryCache.cfg (im s) = k;
  r_max : k.1.1 ≠ 0;
  r_redis : DualCache.redis_cache (cache s) = None;
  r_ttl : DualCache.default_in_memory_ttl (cache s) = None;
  r_live e : InMemoryCache.ttl_dict (im s) !! cache_key model = Some e → dl ≤ e
}.

(** ... and the waiting requests are [l]. *)
Definition waiting k dl model l s : Prop :=
  ready k dl model s ∧ is_heap l ∧
  match InMemoryCache.cache_dict (im s) !! cache_key model with
  | Some v => v = PList (enc <$> l)
  | None => l = []
  end.

(** Lists of up to [n] items are small enough for the cache. *)
Definition fits k (n : nat) : Prop :=
  ∀ c v, InMemoryCache.cfg c = k → (length v ≤ n)%nat → InMemoryCache.check_value_size c (PList v) = true.

Lemma on_cache_run {A} (m : M (DualCache.t R) A) s a c :
  m (cache s) = (a, c) → on_cache m s = (a, set_cache_obj c s).
Proof. intros E. unfold on_cache, m_zoom. by rewrite E. Qed.

Lemma get_queue_waiting k dl model l now s :
  waiting k dl model l s → now ≤ dl → get_queue now model s = (Ok (enc <$> l), s).
Proof.
  intros (Hr & _ & He) Hn. unfold get_queue, mbind, M_bind.
  assert (Hget : ∃ v, InMemoryCache.get_cache now (cache_key model) (im s) = (Ok v, im s) ∧
                 (v = PList (enc <$> l) ∨ v = PNone ∧ l = [])).
  { unfold InMemoryCache.get_cache.
    destruct (InMemoryCache.cache_dict (im s) !! cache_key model) as [w|] eqn:Ec; [|eauto].
    assert (is_Some (InMemoryCache.ttl_dict (im s) !! cache_key model)) as [e Ee].
    { apply elem_of_dom. rewrite <-(InMemoryCache.core_dom _ (InMemoryCache.wf_core _ (r_wf _ _ _ _ Hr))).
      by apply elem_of_dom_2 in Ec. }
    pose proof (r_live _ _ _ _ Hr _ Ee).
    unfold InMemoryCache.evict_element_if_expired, InMemoryCache._is_key_expired. rewrite Ee.
    destruct (Z.ltb_spec e now); [lia|]. rewrite Ec, He. simpl. eauto. }
  destruct Hget as (v & Hg & Hv).
  assert (E : DualCache.async_get_cache now (cache_key model) false None (cache s) = (Ok v, cache s)).
  { unfold DualCache.async_get_cache, DualCache.read_through, m_try, mbind, M_bind, m_get.
    rewrite (DualCache.on_im_run _ _ _ _ Hg).
    replace (DualCache.set_im (im s) (cache s)) with (cache s) by (unfold im; by destruct (cache s)).
    destruct Hv as [->|[-> ->]]; [done|]. simpl. by rewrite (r_redis _ _ _ _ Hr). }
  rewrite (on_cache_run _ _ _ _ E). unfold set_cache_obj.
  destruct Hv as [->|[-> ->]]; by destruct s.
Qed.

(** Mutating the cached list and mutating a fresh list both leave the cache as
    [save_queue] needs it. *)
Lemma in_place_ready {A} k dl model (m : M (list pyval) A) v v' a s :
  ready k dl model s → m v = (Ok a, v') →
  ∃ s', in_place model v m s = (Ok (a, v'), s') ∧ ready k dl model s'.
Proof.
  intros [Hw Hc Hm Hr Ht Hl] E. unfold in_place. rewrite E. eexists. split; [done|].
  assert (Ha : ∀ w, InMemoryCache.cache_dict (im s) !! cache_key model = Some w →
    InMemoryCache.with_cache (<[cache_key model := PList v']>) (im s) =
    InMemoryCache.alias_update (cache_key model) (PList v') (im s)).
  { intros w Ew. unfold InMemoryCache.alias_update. rewrite decide_True; [done|]. by rewrite Ew. }
  split; unfold im in *; simpl; try done.
  all: destruct (InMemoryCache.cache_dict _ !! cache_key model) as [[]|] eqn:Ec; try done.
  rewrite (Ha _ eq_refl). by apply InMemoryCache.alias_update_wf.
Qed.

Lemma save_queue_waiting k dl model l now s :
  ready k dl model s → is_heap l → fits k (length l) → dl ≤ now + k.1.2 →
  ∃ s', save_queue now (enc <$> l) model s = (Ok (), s') ∧ waiting k dl model l s'.
Proof.
  intros [Hw Hc Hm Hr Ht Hl] Hh Hf Hd. unfold save_queue.
  assert (Hne : InMemoryCache.max_size_in_memory (im s) ≠ 0) by (by rewrite <-Hc in Hm).
  pose proof (Hf (im s) (enc <$> l) Hc ltac:(by rewrite length_fmap)) as Hsz.
  destruct (InMemoryCache.set_cache_entry now (cache_key model) (PList (enc <$> l)) None _ Hw Hne Hsz)
    as (Ev & e & Ee & Hor).
  pose proof (InMemoryCache.set_cache_ok now (cache_key model) (PList (enc <$> l)) None _ Hw) as Hok.
  pose proof (InMemoryCache.set_cache_wf now (cache_key model) (PList (enc <$> l)) None _ Hw) as Hw'.
  pose proof (InMemoryCache.set_cache_cfg now (cache_key model) (PList (enc <$> l)) None _ Hw) as Hc'.
  destruct (InMemoryCache.set_cache now (cache_key model) (PList (enc <$> l)) None (im s))
    as [r im'] eqn:E. simpl in *. subst r.
  assert (Es : DualCache.async_set_cache now (cache_key model) (PList (enc <$> l)) false None (cache s)
               = (Ok (), DualCache.set_im im' (cache s))).
  { unfold DualCache.async_set_cache, InMemoryCache.async_set_cache, m_try, mbind, M_bind, m_get, DualCache.with_default_ttl.
    rewrite Ht. rewrite (DualCache.on_im_run _ _ _ _ E).
    unfold DualCache.on_redis. simpl. by rewrite Hr. }
  rewrite (on_cache_run _ _ _ _ Es). eexists. split; [done|].
  unfold waiting, im. simpl. rewrite Ev. split_and!; try done.
  split; unfold im; simpl; try done; [congruence|].
  intros e' Ee'. rewrite Ee in Ee'. simplify_eq Ee'. intros ->.
  destruct Hor as [->|[Ho _]]; [|by apply Hl]. unfold InMemoryCache.expiry.
  by replace (InMemoryCache.default_ttl (im s)) with k.1.2 by (by rewrite <-Hc).
Qed.

Lemma filter_out_enc id l : filter_out id (enc <$> l) = Ok (enc <$> filter (λ x, x.2 ≠ id) l).
Proof.
  induction l as [|x l IH]; [done|]. rewrite filter_cons. cbn [fmap list_fmap filter_out].
  change (item_id (enc x)) with (Ok (PStr x.2)). cbn iota. rewrite IH.
  cbn [py_eqb]. destruct (String.eqb_spec x.2 id); case_decide; done.
Qed.

(** The scheduler [s] stands for the abstract queue [q]. *)
Definition sim k dl model q s : Prop :=
  ∃ l, waiting k dl model l s ∧ l ≡ₚ q ∧ StronglySorted py_le q.

Lemma sim_add k dl model q now p id s :
  sim k dl model q s → now ≤ dl → dl ≤ now + k.1.2 → fits k (S (length q)) →
  ∃ s', add_request now (mkFlow p id model) s = (Ok (), s') ∧
        sim k dl model (insert_sorted (p, id) q) s'.
Proof.
  intros (l & Hw & Hp & Hs) Hn Hd Hf. pose proof Hw as (Hr & Hh & _).
  destruct (heappush_spec l (p, id) Hh) as [Hh' Hp'].
  destruct (in_place_ready k dl model (py_heappush (enc (p, id))) _ _ _ s Hr (py_heappush_enc (p, id) l))
    as (s1 & E1 & Hr1).
  destruct (save_queue_waiting k dl model (heappush l (p, id)) now s1 Hr1 Hh') as (s2 & E2 & Hw2); [|done|].
  { by rewrite Hp', Hp. }
  exists s2. split.
  - unfold add_request, mbind, M_bind. simpl.
    rewrite (get_queue_waiting _ _ _ _ _ _ Hw Hn). unfold mbind, M_bind in *. by rewrite E1, E2.
  - exists (heappush l (p, id)). split_and!; [done| |by apply insert_sorted_sorted].
    by rewrite insert_sorted_perm, Hp', Hp.
Qed.

(** The first list item, when there is one, is the head of the abstract queue. *)
Lemma sim_top k dl model q now s :
  sim k dl model q s → now ≤ dl →
  ∃ l, waiting k dl model l s ∧ l ≡ₚ q ∧ StronglySorted py_le q ∧
    get_queue now model s = (Ok (enc <$> l), s) ∧ head l = head q.
Proof.
  intros (l & Hw & Hp & Hs) Hn. exists l. split_and!; try done; [by eapply get_queue_waiting|].
  pose proof Hw as (_ & Hh & _).
  destruct l as [|x l], q as [|y q]; simpl; try done.
  - by apply Permutation_nil_cons in Hp.
  - symmetry in Hp. by apply Permutation_nil_cons in Hp.
  - f_equal. by eapply (heap_sorted_head (x :: l)).
Qed.

Lemma sim_peek k dl model q now id health s :
  sim k dl model q s → now ≤ dl →
  peek now id model health s =
    (match q with [] => Raise invalid_queue | (_, id') :: _ => Ok (String.eqb id' id) end, s).
Proof.
  intros Hsim Hn. destruct (sim_top _ _ _ _ _ _ Hsim Hn) as (l & _ & _ & _ & Hg & Ht).
  unfold peek, mbind, M_bind. rewrite Hg.
  by destruct l as [|[p i] l], q as [|[p' i'] q]; simplify_eq/=.
Qed.

Lemma sim_poll k dl model q now id health s :
  sim k dl model q s → now ≤ dl → dl ≤ now + k.1.2 → fits k (length q) →
  ∃ s', poll now id model health s = ((spec_step (Poll id health) q).1 ≫= (λ o, Ok (default false o)), s') ∧
    sim k dl model (spec_step (Poll id health) q).2 s'.
Proof.
  intros Hsim Hn Hd Hf. destruct (sim_top _ _ _ _ _ _ Hsim Hn) as (l & Hw & Hp & Hs & Hg & Ht).
  pose proof Hw as (Hr & Hh & _).
  unfold poll, mbind, M_bind. rewrite Hg.
  destruct l as [|[p i] l], q as [|[p' i'] q]; simplify_eq/=; [by exists s|].
  destruct health as [|h health]; [|by exists s].
  destruct (String.eqb_spec i' id) as [->|Hne]; [|by exists s].
  pose proof (heappop_spec _ Hh) as Hpop.
  destruct (heappop ((p', id) :: l)) as [[x l']|] eqn:Epop; [|done].
  destruct Hpop as (Hh' & Hp' & [= <-] & _).
  assert (l' ≡ₚ q) as Hq by (apply (Permutation_cons_inv (a := (p', id))); by rewrite <-Hp', Hp).
  destruct (in_place_ready k dl model py_heappop _ _ _ s Hr (py_heappop_enc _ _ _ Epop)) as (s1 & E1 & Hr1).
  destruct (save_queue_waiting k dl model l' now s1 Hr1 Hh') as (s2 & E2 & Hw2); [|done|].
  { intros c v Hc Hv. apply Hf; [done|]. simpl. rewrite Hq in Hv. lia. }
  exists s2. rewrite fmap_cons in E1. rewrite E1, E2. split; [done|]. exists l'.
  by inversion Hs.
Qed.

Lemma sim_remove k dl model q now id s :
  sim k dl model q s → now ≤ dl → dl ≤ now + k.1.2 → fits k (length q) →
  ∃ s', remove_request now id model s = (Ok (), s') ∧
    sim k dl model (filter (λ x, x.2 ≠ id) q) s'.
Proof.
  intros (l & Hw & Hp & Hs) Hn Hd Hf. pose proof Hw as (Hr & Hh & _).
  set (l' := filter (λ x, x.2 ≠ id) l). destruct (heapify_spec l') as [Hh' Hp'].
  destruct (save_queue_waiting k dl model (heapify l') now s Hr Hh') as (s2 & E2 & Hw2); [|done|].
  { intros c v Hc Hv. apply Hf; [done|]. rewrite Hp' in Hv.
    pose proof (length_filter (λ x, x.2 ≠ id) l). rewrite <-Hp. unfold l' in Hv. lia. }
  exists s2. split.
  - unfold remove_request, mbind, M_bind. rewrite (get_queue_waiting _ _ _ _ _ _ Hw Hn).
    unfold m_lift. rewrite filter_out_enc, py_heapify_enc. done.
  - exists (heapify l'). split_and!; [done| |by apply filter_sorted].
    rewrite Hp'. unfold l'. by rewrite Hp.
Qed.

Lemma sim_step k dl model q now o s :
  sim k dl model q s → now ≤ dl → dl ≤ now + k.1.2 → fits k (S (length q)) →
  (step model now o s).1 = (spec_step o q).1 ∧
  sim k dl model (spec_step o q).2 (step model now o s).2.
Proof.
  intros Hsim Hn Hd Hf. assert (fits k (length q)) as Hf' by (intros c v Hc Hv; apply Hf; [done|lia]).
  destruct o as [p id|id health|id health|id]; unfold step.
  - by destruct (sim_add _ _ _ _ _ p id _ Hsim Hn Hd Hf) as (s' & -> & Hs').
  - destruct (sim_poll _ _ _ _ _ id health _ Hsim Hn Hd Hf') as (s' & -> & Hs').
    split; [|done]. simpl. destruct q as [|[p i] q], health; simpl; try done. by destruct (String.eqb i id).
  - rewrite (sim_peek _ _ _ _ _ id health _ Hsim Hn). by destruct q as [|[p i] q].
  - by destruct (sim_remove _ _ _ _ _ id _ Hsim Hn Hd Hf') as (s' & -> & Hs').
Qed.

Lemma spec_step_length o q : (length (spec_step o q).2 ≤ S (length q))%nat.
Proof.
  destruct o as [p id|id health|id health|id]; simpl.
  - by rewrite insert_sorted_perm.
  - destruct q as [|[p i] q], health; simpl; try lia. destruct (String.eqb i id); simpl; lia.
  - destruct q as [|[p i] q]; simpl; lia.
  - pose proof (length_filter (λ x, x.2 ≠ id) q). lia.
Qed.

Lemma sim_run k dl model ops q s :
  sim k dl model q s → Forall (λ x, x.1 ≤ dl ∧ dl ≤ x.1 + k.1.2) ops →
  fits k (length q + length ops) → run model ops s = spec_run ops q.
Proof.
  intros Hsim Hops. revert q s Hsim.
  induction Hops as [|[now o] ops [Hn Hd] Hops IH]; intros q s Hsim Hf; [done|].
  cbn [run spec_run length] in *.
  destruct (sim_step _ _ _ _ now o _ Hsim Hn Hd) as [E Hs'].
  { intros c v Hc Hv. apply Hf; [done|lia]. }
  rewrite E. f_equal. apply IH; [done|]. intros c v Hc Hv. apply Hf; [done|].
  pose proof (spec_step_length o q). lia.
Qed.

(** C28: Without Redis, and for as long as the cache entry of the model group
    lives (600 s from [t0]), the scheduler answers any sequence of
    [add_request], [poll], [peek] and [remove_request] calls exactly as a
    priority queue ordered by (priority, request id): with no healthy deployment
    only the first waiting request is let through, and it leaves the queue. *)
Theorem scheduler_refines_priority_queue g interval model t0 ops :
  DualCache.s_default_in_memory_ttl g = None →
  (∀ v, (length v ≤ length ops)%nat → obj_sizeof (PList v) ≤ 1024 * 1024) →
  Forall (λ x, t0 ≤ x.1 ≤ t0 + seconds 600) ops →
  run model ops (init g interval (None : option R)) = spec_run ops [].
Proof.
  intros Hg Hsz Hops. set (c0 := InMemoryCache.init_default).
  assert (Hwf : InMemoryCache.wf c0) by (apply InMemoryCache.wf_init; simpl; lia).
  apply (sim_run (InMemoryCache.cfg c0) (t0 + seconds 600)).
  - exists []. split_and!; [|done|constructor]. split_and!; [|by intros ? ? ? ? _ _ _ ?|done].
    by split.
  - eapply Forall_impl; [exact Hops|]. simpl. lia.
  - intros c v [= _ _ Hc] Hv. unfold InMemoryCache.check_value_size. simpl. rewrite Hc.
    specialize (Hsz v Hv). lia.
Qed.

(** Once the queue went through Redis its items are lists, and the next
    [add_request] compares its tuple with one of them: the call raises
    [TypeError] and the request is not queued in Redis. *)
Theorem add_request_after_redis_raises now p id model s s' (q : list pyval) :
  get_queue now model s = (Ok q, s') → q ≠ [] → Forall (λ v, ∃ items, v = PList items) q →
  (add_request now (mkFlow p id model) s).1 = Raise TypeError ∧
  DualCache.redis_cache (cache (add_request now (mkFlow p id model) s).2) =
    DualCache.redis_cache (cache s').
Proof.
  intros Hg Hne Hl. unfold add_request, mbind, M_bind, in_place. simpl.
  rewrite Hg, (py_heappush_mixed _ _ Hne Hl). done.
Qed.
End simulation.

(** ** Concrete runs *)

Section examples.
#[local] Existing Instance RedisCache.toy_client.
#[local] Existing Instance RedisCache.RedisCache_instance.

(** An interpreter whose JSON knows one queue of one request. *)
Definition queue_runtime : PyRuntime := {|
  json_loads s := if String.eqb s "[[1,a]]" then Some (PList [PList [PInt 1; PStr "a"]]) else None;
  json_dumps v := if py_eqb v (PList [PTuple [PInt 1; PStr "a"]]) then Some "[[1,a]]" else None;
  literal_eval _ := None;
  obj_sizeof v := match v with PList l => 56 + 8 * Z.of_nat (length l) | _ => 0 end;
  float_str _ := "0.0";
  container_str _ := "[]"
|}.
#[local] Existing Instance queue_runtime.

Definition ex_sched (redis : option (RedisCache.t RedisCache.toy)) : t (RedisCache.t RedisCache.toy) :=
  init DualCache.default_settings None redis.

Definition ex_ops : list (Z * op) :=
  [(0, Add 2 "low"); (1, Add 1 "b"); (2, Add 1 "a"); (3, Poll "low" []); (4, Poll "a" []);
   (5, Remove "b"); (6, Poll "low" []); (7, Peek "low" [])].

Lemma scheduler_refines_priority_queue_witness :
  run "m" ex_ops (ex_sched None) =
    [Ok None; Ok None; Ok None; Ok (Some false); Ok (Some true); Ok None; Ok (Some true); Raise invalid_queue].
Proof.
  apply (scheduler_refines_priority_queue DualCache.default_settings None "m" 0 ex_ops); [done| |].
  - intros v Hv. unfold ex_ops in Hv. cbn [length] in Hv. cbn [obj_sizeof queue_runtime]. lia.
  - repeat (constructor; [unfold seconds; simpl; lia|]). constructor.
Defined.

(** Two requests queued at time 0, one of them removed at 4 s; at 6 s the
    in-memory copy (written to live 5 s) is gone and Redis answers. *)
Definition ex_after_redis : t (RedisCache.t RedisCache.toy) :=
  (remove_request (seconds 4) "b" "m"
    (add_request 0 (mkFlow 2 "b" "m")
      (add_request 0 (mkFlow 1 "a" "m") (ex_sched (Some (RedisCache.ex_redis None)))).2).2).2.

Lemma add_request_after_redis_raises_witness :
  (add_request (seconds 6) (mkFlow 2 "b" "m") ex_after_redis).1 = Raise TypeError.
Proof.
  eapply (add_request_after_redis_raises (seconds 6) 2 "b" "m" ex_after_redis);
    [vm_compute; reflexivity|discriminate|repeat constructor; eauto].
Defined.

(** The expiry of the cached queue is fixed by its first write and not
    extended by later ones: a request queued at 599 s is gone at 601 s, and
    polling for it raises instead of waiting its turn. *)
Theorem queue_expires_with_waiting_requests :
  let s1 := (add_request 0 (mkFlow 1 "a" "m") (ex_sched None)).2 in
  let s2 := (add_request (seconds 599) (mkFlow 2 "b" "m") s1).2 in
  (peek (seconds 600) "a" "m" [] s2).1 = Ok true ∧
  (poll (seconds 601) "b" "m" [] s2).1 = Raise invalid_queue.
Proof. vm_compute. auto. Qed.
End examples.
End Scheduler.
