(* ===== verification/RouterIndex.v ===== *)
(** * RouterIndex: the deployment table of [router.py]

    [Router.model_list] holds the deployments; [model_id_to_deployment_index_map]
    and [model_name_to_deployment_indices] index it by deployment id and by model
    group, so that lookups need no scan.  The module models the operations that
    change the three together (loading a model list; adding, upserting and deleting a
    deployment) and the lookups through the indices.  [set_model_list] does not check
    ids, so that a list that repeats an entry, or gives one several organizations,
    makes deployments with one id ([organizations_share_an_id]).  The invariant says that the indices are
    exactly the positions a scan would find; the equivalence theorems say that each
    indexed lookup returns what the linear scan would.  The access groups computed
    from the table are cached; every change of the table drops the cache.  Validation of a deployment
    ([_add_deployment]: provider checks, pass-through credentials, pattern
    registration) is the parameter [validate], which may raise; the wildcard router
    consulted by [get_model_list] is the parameter [pattern_route]. *)

From stdpp Require Import base gmap sets list strings.
From Stdlib Require Import ZArith Lia.
From S2P Require Import Prelude.

#[local] Open Scope nat_scope.

Module RouterIndex.

(** [DeploymentTypedDict]. *)
Record deployment := mkDep {
  model_name : string;
  litellm_params : pyval;
  model_info : list (string * pyval)
}.

(** [model["model_info"].get("id")]; ids are strings. *)
Definition d_id (d : deployment) : option string :=
  match dget "id" (model_info d) with Some (PStr s) => Some s | _ => None end.

Record t := mk {
  model_list : list deployment;
  model_id_to_deployment_index_map : list (string * nat);
  model_name_to_deployment_indices : list (string * list nat);
  model_names : list string;                      (* a set *)
  model_group_alias : list (string * pyval);
  access_groups_cache : option (list (string * list string))
}.

Definition empty (aliases : list (string * pyval)) : t := mk [] [] [] [] aliases None.

Definition set_access_groups_cache (c : option (list (string * list string))) (s : t) : t :=
  mk (model_list s) (model_id_to_deployment_index_map s) (model_name_to_deployment_indices s) (model_names s)
     (model_group_alias s) c.
Definition _invalidate_access_groups_cache : t → t := set_access_groups_cache None.

(** [d.setdefault(name, []).append(idx)]. *)
Definition append_index (name : string) (idx : nat) (m : list (string * list nat))
    : list (string * list nat) :=
  dset name (default [] (dget name m) ++ [idx]) m.

Definition _add_model_to_list_and_index_map (model : deployment) (model_id : option string) (s : t) : t :=
  let idx := length (model_list s) in
  let id_map :=
    match model_id with
    | Some id => dset id idx (model_id_to_deployment_index_map s)
    | None => match d_id model with
              | Some id => dset id idx (model_id_to_deployment_index_map s)
              | None => model_id_to_deployment_index_map s
              end
    end in
  let name_map :=
    if String.eqb (model_name model) "" then model_name_to_deployment_indices s
    else append_index (model_name model) idx (model_name_to_deployment_indices s) in
  let s1 := _invalidate_access_groups_cache s in
  mk (model_list s1 ++ [model]) id_map name_map (model_names s1) (model_group_alias s1) (access_groups_cache s1).

(** Python's [list.remove]: the first occurrence. *)
Fixpoint remove_first (x : nat) (l : list nat) : list nat :=
  match l with [] => [] | y :: l' => if x =? y then l' else y :: remove_first x l' end.

Definition shift (removal_idx idx : nat) : nat := if removal_idx <? idx then idx - 1 else idx.

(** The index list of one model group after the removal; an empty list is dropped. *)
Definition removed (removal_idx : nat) (indices : list nat) : option (list nat) :=
  match shift removal_idx <$> (if bool_decide (removal_idx ∈ indices)
                               then remove_first removal_idx indices else indices) with
  | [] => None
  | updated_indices => Some updated_indices
  end.

Definition _update_deployment_indices_after_removal (model_id : string) (removal_idx : nat) (s : t) : t :=
  let id_map := ddel model_id ((λ p, (p.1, shift removal_idx p.2)) <$> model_id_to_deployment_index_map s) in
  let name_map := omap (λ p : string * list nat, pair p.1 <$> removed removal_idx p.2)
                       (model_name_to_deployment_indices s) in
  mk (model_list s) id_map name_map (model_names s) (model_group_alias s) (access_groups_cache s).

Definition set_model_list_field (l : list deployment) (s : t) : t :=
  mk l (model_id_to_deployment_index_map s) (model_name_to_deployment_indices s) (model_names s)
     (model_group_alias s) (access_groups_cache s).

(** [self.model_list.pop(idx)] followed by the invalidation and the index update. *)
Definition pop_deployment (id : string) (idx : nat) (s : t) : option (deployment * t) :=
  match model_list s !! idx with
  | None => None
  | Some item =>
      Some (item, _update_deployment_indices_after_removal id idx
                    (_invalidate_access_groups_cache (set_model_list_field (delete idx (model_list s)) s)))
  end.

(** An [IndexError] of [pop] is caught; nothing has changed then. *)
Definition delete_deployment (id : string) (s : t) : option deployment * t :=
  match dget id (model_id_to_deployment_index_map s) with
  | Some idx => match pop_deployment id idx s with
                | Some (item, s') => (Some item, s')
                | None => (None, s)
                end
  | None => (None, s)
  end.

Definition has_model_id (candidate_id : string) (s : t) : bool :=
  dmem candidate_id (model_id_to_deployment_index_map s).

(** [self.model_list[self.model_id_to_deployment_index_map[id]]]. *)
Definition get_model_info (id : string) (s : t) : res (option deployment) :=
  match dget id (model_id_to_deployment_index_map s) with
  | Some idx => match model_list s !! idx with Some d => Ok (Some d) | None => Raise IndexError end
  | None => Ok None
  end.

Definition get_deployment := get_model_info.

Section add.
(** [_add_deployment], which checks the deployment and raises when it is invalid, and the
    registration of its pricing in the cost map. *)
Variable validate : deployment → res unit.

Definition add_deployment (d : deployment) : M t (option deployment) := λ s,
  let known := match d_id d with Some id => negb (String.eqb id "") && has_model_id id s | None => false end in
  if known then (Ok None, s) else
  match validate d with
  | Raise e => (Raise e, s)
  | Ok _ =>
    let s1 := _add_model_to_list_and_index_map d (d_id d) s in
    (Ok (Some d), mk (model_list s1) (model_id_to_deployment_index_map s1)
                     (model_name_to_deployment_indices s1)
                     (if bool_decide (model_name d ∈ model_names s1) then model_names s1
                      else model_names s1 ++ [model_name d])
                     (model_group_alias s1) (access_groups_cache s1))
  end.

Variable ignore_invalid_deployments : bool.

Definition upsert_body (d : deployment) : M t (option deployment) :=
  on_router ← (λ s, (get_deployment (default "" (d_id d)) s, s));
  match on_router with
  | Some old =>
      if py_eqb (litellm_params d) (litellm_params old) then mret None else
      (λ s, match d_id d with
            | Some id =>
                match dget id (model_id_to_deployment_index_map s) with
                | Some idx => match pop_deployment id idx s with
                              | Some (_, s') => (Ok (), s')
                              | None => (Raise IndexError, s)
                              end
                | None => (Ok (), s)
                end
            | None => (Ok (), s)
            end) ;;
      add_deployment d ;; mret (Some d)
  | None => add_deployment d ;; mret (Some d)
  end.

Definition upsert_deployment (d : deployment) : M t (option deployment) :=
  m_try (upsert_body d) (λ e, if ignore_invalid_deployments then mret None else m_raise e).
End add.

(** ** Lookups *)

Definition should_include_deployment (name : string) (model : deployment) (team_id : option string) : bool :=
  match team_id with
  | Some team =>
      (py_eqb (default PNone (dget "team_id" (model_info model))) (PStr team)
       && py_eqb (PStr name) (default PNone (dget "team_public_model_name" (model_info model))))
      || String.eqb (model_name model) name
  | None => String.eqb (model_name model) name
  end.

Definition rename (alias : option string) (d : deployment) : deployment :=
  match alias with Some a => mkDep a (litellm_params d) (model_info d) | None => d end.

(** The loop over the indices; an index out of range raises. *)
Fixpoint at_indices (l : list deployment) (indices : list nat) : res (list deployment) :=
  match indices with
  | [] => Ok []
  | i :: indices' =>
      match l !! i with
      | None => Raise IndexError
      | Some d => match at_indices l indices' with Ok ds => Ok (d :: ds) | Raise e => Raise e end
      end
  end.

(** The body of either loop: the deployments that match, under their alias. *)
Definition included (name : string) (alias team_id : option string) (ds : list deployment)
    : list deployment :=
  rename alias <$> filter (λ d, should_include_deployment name d team_id = true) ds.

Definition _get_all_deployments (name : string) (alias team_id : option string) (s : t)
    : res (list deployment) :=
  match dget name (model_name_to_deployment_indices s) with
  | Some indices =>
      included name alias team_id <$> at_indices (model_list s) indices
  | None =>
      match team_id with
      | Some _ => Ok (included name alias team_id (model_list s))
      | None => Ok []
      end
  end.

Definition get_deployment_by_model_group_name (name : string) (s : t) : res (option deployment) :=
  match dget name (model_name_to_deployment_indices s) with
  | Some (i :: _) => match model_list s !! i with Some d => Ok (Some d) | None => Raise IndexError end
  | _ => Ok None
  end.

(** [if exclude_team_models and model["model_info"].get("team_id"): continue]. *)
Definition skip_team (exclude_team_models : bool) (d : deployment) : bool :=
  exclude_team_models && truthy (default PNone (dget "team_id" (model_info d))).

Definition ids_of (exclude_team_models : bool) (ds : list deployment) : list string :=
  omap d_id (filter (λ d, skip_team exclude_team_models d = false) ds).

(** The keys of the id index, with the deployments they lead to. *)
Definition keys_of (exclude_team_models : bool) (kds : list (string * deployment)) : list string :=
  omap (λ p : string * deployment,
          match d_id p.2 with
          | Some _ => if skip_team exclude_team_models p.2 then None else Some p.1
          | None => None
          end) kds.

Definition get_model_ids (name : option string) (exclude_team_models : bool) (s : t) : res (list string) :=
  match name with
  | Some n =>
      match dget n (model_name_to_deployment_indices s) with
      | Some indices => ids_of exclude_team_models <$> at_indices (model_list s) indices
      | None => Ok []
      end
  | None =>
      (λ ds, keys_of exclude_team_models (zip (dkeys (model_id_to_deployment_index_map s)) ds))
      <$> at_indices (model_list s) (model_id_to_deployment_index_map s).*2
  end.

(** The target of an alias item is declared a string. *)
Definition _get_model_from_alias (r : t) (model : string) : res (option string) :=
  match dget model (model_group_alias r) with
  | None => Ok None
  | Some (PStr target) => Ok (Some target)
  | Some item => v ← py_index item "model";
                 match v with PStr target => Ok (Some target) | _ => Raise TypeError end
  end.

Fixpoint alias_loop (s : t) (items : list (string * pyval)) : res (list deployment) :=
  match items with
  | [] => Ok []
  | (model_alias, model_value) :: items' =>
      here ← match model_value with
             | PStr target => _get_all_deployments target (Some model_alias) None s
             | PDict d =>
                 match dget "hidden" d, dget "model" d with
                 | None, _ => Raise KeyError
                 | Some (PBool true), _ => Ok []
                 | Some _, Some (PStr target) => _get_all_deployments target (Some model_alias) None s
                 | Some _, Some v => if hashable v then Ok [] else Raise TypeError
                 | Some _, None => Raise KeyError
                 end
             | _ => Ok []
             end;
      rest ← alias_loop s items';
      mret (here ++ rest)
  end.

Definition get_model_list_from_model_alias (name : option string) (s : t) : res (list deployment) :=
  match name with
  | Some n => match dget n (model_group_alias s) with
              | None => Ok []
              | Some v => alias_loop s [(n, v)]
              end
  | None => alias_loop s (model_group_alias s)
  end.

Section model_list.
(** [self.pattern_router.route] and [self.team_pattern_routers[team].route]. *)
Variable pattern_route : string → list deployment.
Variable team_pattern_route : string → string → list deployment.

Definition get_model_list (name team_id : option string) (s : t) : res (list deployment) :=
  direct ← match name with Some n => _get_all_deployments n None team_id s | None => Ok [] end;
  aliased ← get_model_list_from_model_alias name s;
  let returned := direct ++ aliased in
  match name with
  | Some n =>
      match returned with
      | [] => Ok (rename (Some n) <$>
                   (pattern_route n ++ match team_id with Some tm => team_pattern_route tm n | None => [] end))
      | _ => Ok returned
      end
  | None => Ok (returned ++ model_list s)
  end.

Definition get_model_group (id : string) (s : t) : res (option (list deployment)) :=
  info ← get_model_info id s;
  match info with
  | None => Ok None
  | Some d => Some <$> get_model_list (Some (model_name d)) None s
  end.

(** [_model_info.get("access_groups", []) or []], a sequence of names. *)
Definition access_groups_of (d : deployment) : res (list string) :=
  match py_or (default (PList []) (dget "access_groups" (model_info d))) (PList []) with
  | PList l | PTuple l => mapM (λ v, match v with PStr g => Ok g | _ => Raise TypeError end) l
  | _ => Raise TypeError
  end.

(** [access_groups[group].append(model_name)] for the groups of one deployment. *)
Definition add_to_groups (only : option string) (name : string) (groups : list string)
    (acc : list (string * list string)) : list (string * list string) :=
  foldl (λ a g, if match only with Some o => String.eqb g o | None => true end
                then dset g (default [] (dget g a) ++ [name]) a else a) acc groups.

Fixpoint groups_loop (only : option string) (ds : list deployment) (acc : list (string * list string))
    : res (list (string * list string)) :=
  match ds with
  | [] => Ok acc
  | d :: ds' =>
      match model_info d with
      | [] => groups_loop only ds' acc
      | _ => groups ← access_groups_of d; groups_loop only ds' (add_to_groups only (model_name d) groups acc)
      end
  end.

(** The access groups computed from the model list. *)
Definition compute_access_groups (name group team_id : option string) (s : t)
    : res (list (string * list string)) :=
  ds ← get_model_list name team_id s; groups_loop group ds [].

(** The answer for no arguments is cached. *)
Definition get_model_access_groups (name group team_id : option string) : M t (list (string * list string)) := λ s,
  let use_cache := match name, group, team_id with None, None, None => true | _, _, _ => false end in
  match (if use_cache then access_groups_cache s else None) with
  | Some cached => (Ok cached, s)
  | None =>
      match compute_access_groups name group team_id s with
      | Ok groups => (Ok groups, if use_cache then set_access_groups_cache (Some groups) s else s)
      | Raise e => (Raise e, s)
      end
  end.
End model_list.

Definition _is_team_specific_model (info : list (string * pyval)) : bool :=
  truthy (default PNone (dget "team_id" info)).

Definition _get_team_specific_model (d : deployment) (team_id : option string) : pyval :=
  if py_eqb (match team_id with Some i => PStr i | None => PNone end) (default PNone (dget "team_id" (model_info d)))
  then default PNone (dget "team_public_model_name" (model_info d)) else PNone.

(** The name a deployment is listed under; a team's deployment may have none. *)
Definition listed_name (team_id : option string) (d : deployment) : option pyval :=
  if _is_team_specific_model (model_info d) then
    let n := _get_team_specific_model d team_id in if truthy n then Some n else None
  else Some (PStr (model_name d)).

(** The model list for no name consults no pattern router. *)
Definition get_model_names (team_id : option string) (s : t) : res (list pyval) :=
  ds ← get_model_list (λ _, []) (λ _ _, []) None None s; Ok (omap (listed_name team_id) (ds : list deployment)).

(** ** Loading a model list *)

(** The keys of [CustomPricingLiteLLMParams]. *)
Definition custom_pricing_fields : list string :=
  ["input_cost_per_token"; "output_cost_per_token"; "input_cost_per_second"; "output_cost_per_second";
   "input_cost_per_pixel"; "output_cost_per_pixel"; "input_cost_per_token_flex";
   "input_cost_per_token_priority"; "cache_creation_input_token_cost";
   "cache_creation_input_token_cost_above_1hr"; "cache_creation_input_token_cost_above_200k_tokens";
   "cache_creation_input_audio_token_cost"; "cache_read_input_token_cost";
   "cache_read_input_token_cost_flex"; "cache_read_input_token_cost_priority";
   "cache_read_input_token_cost_above_200k_tokens"; "cache_read_input_audio_token_cost";
   "input_cost_per_character"; "input_cost_per_character_above_128k_tokens";
   "input_cost_per_audio_token"; "input_cost_per_token_cache_hit";
   "input_cost_per_token_above_128k_tokens"; "input_cost_per_token_above_200k_tokens";
   "input_cost_per_query"; "input_cost_per_image"; "input_cost_per_image_above_128k_tokens";
   "input_cost_per_audio_per_second"; "input_cost_per_audio_per_second_above_128k_tokens";
   "input_cost_per_video_per_second"; "input_cost_per_video_per_second_above_128k_tokens";
   "input_cost_per_video_per_second_above_15s_interval";
   "input_cost_per_video_per_second_above_8s_interval"; "input_cost_per_token_batches";
   "output_cost_per_token_batches"; "output_cost_per_token_flex"; "output_cost_per_token_priority";
   "output_cost_per_character"; "output_cost_per_audio_token";
   "output_cost_per_token_above_128k_tokens"; "output_cost_per_token_above_200k_tokens";
   "output_cost_per_character_above_128k_tokens"; "output_cost_per_image";
   "output_cost_per_image_token"; "output_cost_per_reasoning_token";
   "output_cost_per_video_per_second"; "output_cost_per_audio_per_second";
   "search_context_cost_per_query"; "citation_cost_per_token"; "tiered_pricing"].

(** [_model_info[field] = params[field]] for the pricing fields that are set. *)
Definition with_pricing (params : pyval) (info : list (string * pyval)) : list (string * pyval) :=
  foldl (λ i field, match py_get params field with
                    | Ok v => if is_none v then i else dset field v i
                    | Raise _ => i
                    end) info custom_pricing_fields.

(** The info for the key other deployments share: without the pricing. *)
Definition shared_info (info : list (string * pyval)) : list (string * pyval) :=
  filter (λ p, p.1 ∉ custom_pricing_fields) info.

Definition VALID_LITELLM_ENVIRONMENTS : list string := ["development"; "staging"; "production"].

(** The model name with its provider, under which the cost map knows the deployment. *)
Definition backend_name (d : deployment) : res string :=
  model ← py_index (litellm_params d) "model";
  provider ← py_get (litellm_params d) "custom_llm_provider";
  match model, provider with
  | PStr m, PNone => Ok m
  | PStr m, PStr p => Ok (p +:+ "/" +:+ m)
  | _, _ => Raise TypeError
  end.

Section load.
Context `{PyRuntime}.
(** [hashlib.sha256(s.encode()).hexdigest()], the secret manager, the constructors of
    [LiteLLM_Params] and [Deployment], the cost map, and [LITELLM_ENVIRONMENT]. *)
Variable sha256_hex : string → string.
Variable get_secret : string → res pyval.
Variable build : list (string * pyval) → string → list (string * pyval) → list (string * pyval) → res deployment.
Variable register_model : string → list (string * pyval) → res unit.
Variable litellm_environment : option string.
Variable validate : deployment → res unit.
Variable ignore_invalid_deployments : bool.

(** The part of the id a parameter contributes. *)
Definition id_part (v : pyval) : res string :=
  match v with
  | PStr s => Ok s
  | PDict _ => match json_dumps v with Some s => Ok s | None => Raise TypeError end
  | _ => Ok (py_str v)
  end.

Fixpoint id_parts (params : list (string * pyval)) : res string :=
  match params with
  | [] => Ok ""
  | (k, v) :: params' => p ← id_part v; rest ← id_parts params'; Ok (k +:+ p +:+ rest)
  end.

Definition _generate_model_id (model_group : string) (params : list (string * pyval)) : res string :=
  parts ← id_parts params; Ok (sha256_hex (model_group +:+ parts)).

Definition deployment_is_active_for_environment (d : deployment) : res bool :=
  match dget "supported_environments" (model_info d) with
  | None | Some PNone => Ok true
  | Some supported =>
      match litellm_environment with
      | None => Raise ValueError
      | Some env =>
          if bool_decide (env ∈ VALID_LITELLM_ENVIRONMENTS) then
            match supported with
            | PList l | PTuple l | PSet l =>
                if forallb (λ e, existsb (λ v, py_eqb e (PStr v)) VALID_LITELLM_ENVIRONMENTS) l
                then Ok (existsb (py_eqb (PStr env)) l) else Raise ValueError
            | PStr "" => Ok false
            | PStr _ => Raise ValueError
            | PDict l =>
                if forallb (λ p, bool_decide (p.1 ∈ VALID_LITELLM_ENVIRONMENTS)) l
                then Ok (dmem env l) else Raise ValueError
            | _ => Raise TypeError
            end
          else Raise ValueError
      end
  end.

(** Both registrations in the cost map. *)
Definition register (d : deployment) (info : list (string * pyval)) : res unit :=
  match d_id d with Some id => register_model id info | None => Ok () end ≫= λ _,
  name ← backend_name d; register_model name (shared_info info).

(** [_create_deployment] also changes the [_model_info] it is given, which the caller
    uses again; whatever it raises is swallowed if invalid deployments are ignored. *)
Definition _create_deployment (deployment_info : list (string * pyval)) (name : string)
    (params info : list (string * pyval)) (s : t) : res (option deployment) * list (string * pyval) * t :=
  let failed e : res (option deployment) := if ignore_invalid_deployments then Ok None else Raise e in
  match build deployment_info name params info with
  | Raise e => (failed e, info, s)
  | Ok d =>
      let info' := with_pricing (litellm_params d) info in
      match register d info' ≫= λ _, deployment_is_active_for_environment d with
      | Raise e => (failed e, info', s)
      | Ok false => (Ok None, info', s)
      | Ok true =>
          match validate d with
          | Raise e => (failed e, info', s)
          | Ok _ => (Ok (Some d), info', _add_model_to_list_and_index_map d (d_id d) s)
          end
      end
  end.

(** One deployment per organization; they share [_model_info], and with it the id. *)
Fixpoint create_each (deployment_info : list (string * pyval)) (name : string) (params : list (string * pyval))
    (orgs : list pyval) (info : list (string * pyval)) (s : t) : res unit * t :=
  match orgs with
  | [] => (Ok (), s)
  | org :: orgs' =>
      match _create_deployment deployment_info name (dset "organization" org params) info s with
      | (Raise e, _, s') => (Raise e, s')
      | (Ok _, info', s') => create_each deployment_info name params orgs' info' s'
      end
  end.

(** Values that name an environment variable are replaced by the secret. *)
Fixpoint resolve_secrets (params : list (string * pyval)) : res (list (string * pyval)) :=
  match params with
  | [] => Ok []
  | (k, v) :: params' =>
      v' ← match v with PStr s => if String.prefix "os.environ/" s then get_secret s else Ok v | _ => Ok v end;
      rest ← resolve_secrets params'; Ok ((k, v') :: rest)
  end.

(** The entry taken apart: its name, its parameters, its info with an id, and the rest. *)
Definition open_entry (model : list (string * pyval))
    : res (string * list (string * pyval) * list (string * pyval) * list (string * pyval)) :=
  name ← py_index (PDict model) "model_name";
  params ← py_index (PDict model) "litellm_params";
  match name, params, default (PDict []) (dget "model_info" model) with
  | PStr name, PDict params, PDict info =>
      params ← resolve_secrets params;
      info ← (if dmem "id" info then Ok info
              else id ← _generate_model_id name params; Ok (dset "id" (PStr id) info));
      Ok (name, params, info, ddel "model_info" (ddel "litellm_params" (ddel "model_name" model)))
  | _, PDict _, _ => Raise TypeError
  | _, _, _ => Raise AttributeError
  end.

(** The body of the loop over the model list. *)
Definition load_entry (model : list (string * pyval)) : M t unit := λ s,
  match open_entry model with
  | Raise e => (Raise e, s)
  | Ok (name, params, info, rest) =>
      match dget "organization" params with
      | Some (PList orgs) => create_each rest name params orgs info s
      | _ => match _create_deployment rest name params info s with
             | (Raise e, _, s') => (Raise e, s')
             | (Ok _, _, s') => (Ok (), s')
             end
      end
  end.

(** Emptying the tables, first thing. *)
Definition clear_model_list (s : t) : t :=
  _invalidate_access_groups_cache (mk [] [] [] (model_names s) (model_group_alias s) (access_groups_cache s)).

(** [{m["model_name"] for m in model_list}]. *)
Fixpoint names_of (models : list (list (string * pyval))) : res (list string) :=
  match models with
  | [] => Ok []
  | m :: models' =>
      v ← py_index (PDict m) "model_name"; rest ← names_of models';
      match v with
      | PStr n => Ok (if bool_decide (n ∈ rest) then rest else n :: rest)
      | _ => Raise TypeError
      end
  end.

(** [get_model_names] is evaluated for a log line; its result is not used. *)
Definition set_model_list (models : list (list (string * pyval))) : M t unit :=
  m_modify clear_model_list ;;
  m_iter load_entry models ;;
  (λ s, (get_model_names None s, s)) ;;
  names ← m_lift (names_of models);
  m_modify (λ s, mk (model_list s) (model_id_to_deployment_index_map s) (model_name_to_deployment_indices s) names
                    (model_group_alias s) (access_groups_cache s)).
End load.

(** [update_settings(model_group_alias=...)]. *)
Definition update_model_group_alias (aliases : list (string * pyval)) (s : t) : t :=
  mk (model_list s) (model_id_to_deployment_index_map s) (model_name_to_deployment_indices s) (model_names s)
     aliases (access_groups_cache s).

(** ** The scan the indices replace *)

(** The positions, counted from [k], of the deployments of a model group. *)
Fixpoint positions_from (k : nat) (name : string) (l : list deployment) : list nat :=
  match l with
  | [] => []
  | d :: l' => (if String.eqb (model_name d) name then [k] else []) ++ positions_from (S k) name l'
  end.

Definition positions := positions_from 0.

(** The deployment with an id, by scanning. *)
Fixpoint scan_id (id : string) (l : list deployment) : option deployment :=
  match l with
  | [] => None
  | d :: l' => if bool_decide (d_id d = Some id) then Some d else scan_id id l'
  end.

(** ** The invariant *)

Record wf (s : t) : Prop := {
  wf_ids : dict_wf (model_id_to_deployment_index_map s);
  wf_names : dict_wf (model_name_to_deployment_indices s);
  wf_id id i : dget id (model_id_to_deployment_index_map s) = Some i ↔
               ∃ d, model_list s !! i = Some d ∧ d_id d = Some id;
  wf_name n : n ≠ "" →
    dget n (model_name_to_deployment_indices s) =
      match positions n (model_list s) with [] => None | l => Some l end;
  wf_name_empty : dget "" (model_name_to_deployment_indices s) = None
}.

Lemma wf_empty aliases : wf (empty aliases).
Proof. split; simpl; try done; [constructor..|]. intros id i. split; [done|]. by intros (d & ? & _). Qed.

(** *** Positions *)

Lemma positions_from_app k name l d :
  positions_from k name (l ++ [d]) =
  positions_from k name l ++ (if String.eqb (model_name d) name then [k + length l] else []).
Proof.
  revert k. induction l as [|d' l IH]; intros k; simpl.
  - rewrite Nat.add_0_r. by destruct (String.eqb _ _).
  - rewrite IH, <-(assoc_L (++)). by replace (k + S (length l)) with (S (k + length l)) by lia.
Qed.

Lemma positions_from_ge k name l i : i ∈ positions_from k name l → k ≤ i.
Proof.
  revert k. induction l as [|d l IH]; intros k; simpl; [by intros ?%not_elem_of_nil|].
  rewrite elem_of_app. intros [Hi|Hi]; [|apply IH in Hi; lia].
  destruct (String.eqb _ _); [apply list_elem_of_singleton in Hi; lia|by apply not_elem_of_nil in Hi].
Qed.

Lemma remove_first_notin x l : x ∉ l → remove_first x l = l.
Proof.
  induction l as [|y l IH]; simpl; [done|]. intros Hx.
  destruct (Nat.eqb_spec x y) as [->|]; [set_solver|]. rewrite IH; [done|set_solver].
Qed.

Lemma positions_from_shift k name l r :
  r < k → shift r <$> positions_from (S k) name l = positions_from k name l.
Proof.
  revert k. induction l as [|d l IH]; intros k Hk; simpl; [done|].
  rewrite fmap_app, IH by lia. f_equal. destruct (String.eqb _ _); [|done]. simpl. unfold shift.
  destruct (Nat.ltb_spec r (S k)); [|lia]. do 2 f_equal. lia.
Qed.

Lemma positions_from_shift0 k name l :
  shift k <$> positions_from (S k) name l = positions_from k name l.
Proof.
  destruct l as [|d l]; simpl; [done|]. rewrite fmap_app, positions_from_shift by lia. f_equal.
  destruct (String.eqb _ _); [|done]. simpl. unfold shift.
  destruct (Nat.ltb_spec k (S k)); [|lia]. do 2 f_equal. lia.
Qed.

(** Removing position [r] from the list and from its positions agree. *)
Lemma positions_from_delete k name l r :
  positions_from k name (delete r l) =
  shift (k + r) <$> remove_first (k + r) (positions_from k name l).
Proof.
  revert k r. induction l as [|d l IH]; intros k r; [by destruct r|]. destruct r as [|r]; simpl.
  - rewrite Nat.add_0_r. destruct (String.eqb _ _); simpl.
    + rewrite Nat.eqb_refl. by rewrite positions_from_shift0.
    + rewrite remove_first_notin, positions_from_shift0; [done|]. intros ?%positions_from_ge. lia.
  - rewrite IH. replace (k + S r) with (S k + r) by lia. destruct (String.eqb _ _); [|done].
    cbn [app remove_first]. destruct (Nat.eqb_spec (S k + r) k); [lia|]. rewrite fmap_cons. f_equal.
    unfold shift. by destruct (Nat.ltb_spec (S k + r) k); [lia|].
Qed.

Lemma positions_nil_notin name l i d :
  positions name l = [] → l !! i = Some d → model_name d ≠ name.
Proof.
  unfold positions. generalize 0 as k. revert i.
  induction l as [|d' l IH]; intros i k Hp Hi; [done|]. simpl in Hp.
  apply app_eq_nil in Hp as [Hh Ht]. destruct i as [|i]; simplify_eq/=; [|by eapply IH].
  by destruct (String.eqb_spec (model_name d) name).
Qed.

(** *** The helper operations keep the invariant *)

Lemma wf_ids_unique s i j d d' id :
  wf s → model_list s !! i = Some d → model_list s !! j = Some d' →
  d_id d = Some id → d_id d' = Some id → i = j.
Proof.
  intros Hw Hi Hj Ed Ed'.
  assert (dget id (model_id_to_deployment_index_map s) = Some i) by (apply wf_id; eauto).
  assert (dget id (model_id_to_deployment_index_map s) = Some j) by (apply wf_id; eauto). congruence.
Qed.

Lemma add_model_wf s d id :
  wf s → d_id d = Some id → dget id (model_id_to_deployment_index_map s) = None →
  wf (_add_model_to_list_and_index_map d (Some id) s).
Proof.
  intros Hw Hid Hnew. unfold _add_model_to_list_and_index_map. split; simpl.
  - apply dset_wf, Hw.
  - destruct (String.eqb _ _); [apply Hw|]. unfold append_index. apply dset_wf, Hw.
  - intros id' i. rewrite dget_dset. destruct (String.eqb_spec id id') as [<-|Hne].
    + split.
      * intros [= <-]. exists d. by rewrite list_lookup_middle.
      * intros (d' & Hi & Hd'). apply lookup_app_Some in Hi as [Hi|[Hge Hi]].
        -- assert (dget id (model_id_to_deployment_index_map s) = Some i) by (apply wf_id; eauto).
           congruence.
        -- apply list_lookup_singleton_Some in Hi as [Hi _]. f_equal. lia.
    + rewrite (wf_id _ Hw). split; intros (d' & Hi & Hd'); exists d'; (split; [|done]).
      * by apply lookup_app_l_Some.
      * apply lookup_app_Some in Hi as [Hi|[Hge Hi]]; [done|].
        apply list_lookup_singleton_Some in Hi as [_ ->]. congruence.
  - intros n Hn. unfold positions. rewrite positions_from_app. simpl.
    pose proof (wf_name _ Hw n Hn) as E. unfold positions in E.
    destruct (String.eqb_spec (model_name d) "") as [E0|Hne0].
    + destruct (String.eqb_spec (model_name d) n); [congruence|]. by rewrite app_nil_r.
    + unfold append_index. rewrite dget_dset. destruct (String.eqb_spec (model_name d) n) as [->|].
      * rewrite E. by destruct (positions_from 0 n (model_list s)).
      * by rewrite app_nil_r.
  - destruct (String.eqb_spec (model_name d) ""); [apply Hw|]. unfold append_index.
    rewrite dget_dset_ne by done. apply Hw.
Qed.
Lemma dget_fmap {V W} (f : V → W) k (m : list (string * V)) :
  dget k ((λ p, (p.1, f p.2)) <$> m) = f <$> dget k m.
Proof. induction m as [|[k' v] m IH]; simpl; [done|]. by destruct (String.eqb k k'). Qed.

Lemma dkeys_fmap {V W} (f : V → W) (m : list (string * V)) :
  dkeys ((λ p, (p.1, f p.2)) <$> m) = dkeys m.
Proof. unfold dkeys. rewrite <-list_fmap_compose. by apply list_fmap_ext. Qed.

Lemma dkeys_omap_sub {V W} (f : V → option W) (m : list (string * V)) k :
  k ∈ dkeys (omap (λ p : string * V, pair p.1 <$> f p.2) m) → k ∈ dkeys m.
Proof.
  induction m as [|[k' v] m IH]; simpl; [done|]. destruct (f v); simpl; [|set_solver].
  rewrite !elem_of_cons. naive_solver.
Qed.

Lemma dict_wf_omap {V W} (f : V → option W) (m : list (string * V)) :
  dict_wf m → dict_wf (omap (λ p : string * V, pair p.1 <$> f p.2) m).
Proof.
  unfold dict_wf. induction m as [|[k' v] m IH]; simpl; [done|]. intros [Hk Hm]%NoDup_cons.
  destruct (f v); simpl; [|auto]. apply NoDup_cons. split; [|auto]. by intros ?%dkeys_omap_sub.
Qed.

Lemma dget_omap {V W} (f : V → option W) k (m : list (string * V)) :
  dict_wf m → dget k (omap (λ p : string * V, pair p.1 <$> f p.2) m) = dget k m ≫= f.
Proof.
  unfold dict_wf. induction m as [|[k' v] m IH]; [done|]. simpl. intros [Hk Hm]%NoDup_cons.
  destruct (String.eqb_spec k k') as [->|Hne]; simpl.
  - destruct (f v); simpl; [by rewrite String.eqb_refl|]. etrans; [by apply IH|].
    by rewrite (proj2 (dget_None k' m)).
  - destruct (f v); simpl; [|by apply IH]. destruct (String.eqb_spec k k'); [done|by apply IH].
Qed.

Lemma removed_eq r l :
  removed r l = match shift r <$> remove_first r l with [] => None | l' => Some l' end.
Proof. unfold removed. case_bool_decide; [done|]. by rewrite remove_first_notin. Qed.

Lemma pop_deployment_wf s r d id :
  wf s → model_list s !! r = Some d → d_id d = Some id →
  ∃ s', pop_deployment id r s = Some (d, s') ∧ wf s' ∧ model_list s' = delete r (model_list s) ∧
    model_group_alias s' = model_group_alias s.
Proof.
  intros Hw Hr Hd. unfold pop_deployment. rewrite Hr. eexists. split; [done|].
  split; [|done]. unfold _update_deployment_indices_after_removal, set_model_list_field. split; simpl.
  - apply ddel_wf. unfold dict_wf. rewrite dkeys_fmap. apply Hw.
  - apply dict_wf_omap, Hw.
  - intros id' i. destruct (decide (id = id')) as [<-|Hne].
    + rewrite dget_ddel_eq by (unfold dict_wf; rewrite dkeys_fmap; apply Hw). split; [done|].
      intros (d' & Hi & Hd'). exfalso. destruct (decide (i < r)).
      * rewrite list_lookup_delete_lt in Hi by done.
        pose proof (wf_ids_unique _ _ _ _ _ _ Hw Hi Hr Hd' Hd). lia.
      * rewrite list_lookup_delete_ge in Hi by lia.
        pose proof (wf_ids_unique _ _ _ _ _ _ Hw Hi Hr Hd' Hd). lia.
    + rewrite dget_ddel_ne, dget_fmap by done. rewrite fmap_Some. setoid_rewrite (wf_id _ Hw).
      unfold shift. split.
      * intros (j & (d' & Hj & Hd') & ->). exists d'. split; [|done].
        destruct (decide (j = r)) as [->|]; [congruence|]. destruct (Nat.ltb_spec r j).
        -- rewrite list_lookup_delete_ge by lia. by replace (S (j - 1)) with j by lia.
        -- by rewrite list_lookup_delete_lt by lia.
      * intros (d' & Hi & Hd'). destruct (decide (i < r)).
        -- rewrite list_lookup_delete_lt in Hi by done. exists i.
           split; [eauto|]. by destruct (Nat.ltb_spec r i); [lia|].
        -- rewrite list_lookup_delete_ge in Hi by lia. exists (S i).
           split; [eauto|]. destruct (Nat.ltb_spec r (S i)); lia.
  - intros n Hn. rewrite dget_omap by apply Hw. rewrite (wf_name _ Hw n Hn).
    unfold positions. rewrite positions_from_delete. simpl.
    destruct (positions_from 0 n (model_list s)) as [|x l] eqn:E; [done|]. cbn [mbind option_bind].
    by rewrite removed_eq.
  - rewrite dget_omap by apply Hw. by rewrite (wf_name_empty _ Hw).
Qed.

(** The invariant ignores the fields the indices do not describe. *)
Lemma wf_ext s s' :
  wf s → model_list s' = model_list s →
  model_id_to_deployment_index_map s' = model_id_to_deployment_index_map s →
  model_name_to_deployment_indices s' = model_name_to_deployment_indices s → wf s'.
Proof. intros [H1 H2 H3 H4 H5] E1 E2 E3. split; rewrite ?E1, ?E2, ?E3; auto. Qed.

(** ** Lookups and scans *)

Lemma scan_id_lookup s id :
  wf s → get_model_info id s = Ok (scan_id id (model_list s)).
Proof.
  intros Hw. unfold get_model_info.
  assert (Hscan : ∀ l, match scan_id id l with
    | Some d => ∃ i, l !! i = Some d ∧ d_id d = Some id
    | None => ∀ i d, l !! i = Some d → d_id d ≠ Some id end).
  { induction l as [|d l IH]; simpl; [by intros|]. case_bool_decide; [by exists 0|].
    destruct (scan_id id l) as [d'|]; [by destruct IH as (i & ?); exists (S i)|].
    intros [|i] d'; simpl; [by intros [= <-]|eauto]. }
  specialize (Hscan (model_list s)).
  destruct (dget id (model_id_to_deployment_index_map s)) as [i|] eqn:E.
  - apply wf_id in E as (d & Hi & Hd); [|done]. rewrite Hi.
    destruct (scan_id id (model_list s)) as [d'|]; [|by destruct (Hscan i d)].
    destruct Hscan as (j & Hj & Hd'). assert (i = j) as <- by (by eapply wf_ids_unique). congruence.
  - destruct (scan_id id (model_list s)) as [d'|]; [|done]. destruct Hscan as (j & Hj & Hd').
    assert (dget id (model_id_to_deployment_index_map s) = Some j) by (apply wf_id; eauto). congruence.
Qed.

Lemma at_positions k name l pre :
  length pre = k →
  at_indices (pre ++ l) (positions_from k name l) = Ok (filter (λ d, model_name d = name) l).
Proof.
  revert k pre. induction l as [|d l IH]; intros k pre Hk; [done|].
  specialize (IH (S k) (pre ++ [d])). rewrite <-(assoc_L (++)) in IH. simpl in IH.
  rewrite length_app in IH. simpl in IH. specialize (IH ltac:(lia)).
  rewrite filter_cons. simpl. destruct (String.eqb_spec (model_name d) name) as [E|Hne]; simpl.
  - rewrite lookup_app_r, Hk, Nat.sub_diag by lia. simpl. rewrite IH. by case_decide.
  - rewrite IH. by case_decide.
Qed.

Lemma indexed_deployments s name :
  wf s → name ≠ "" →
  match dget name (model_name_to_deployment_indices s) with
  | Some indices => at_indices (model_list s) indices = Ok (filter (λ d, model_name d = name) (model_list s))
                    ∧ indices = positions name (model_list s)
  | None => filter (λ d, model_name d = name) (model_list s) = []
  end.
Proof.
  intros Hw Hn. pose proof (at_positions 0 name (model_list s) [] eq_refl) as Ha. simpl in Ha.
  fold positions in Ha. rewrite (wf_name _ Hw name Hn). unfold positions in *.
  destruct (positions_from 0 name (model_list s)) as [|i l] eqn:E; [simpl in Ha; congruence|]. by split.
Qed.

(** Every key of the id index leads to its deployment. *)
Lemma get_model_ids_all s : wf s → get_model_ids None false s = Ok (dkeys (model_id_to_deployment_index_map s)).
Proof.
  intros Hw. unfold get_model_ids.
  assert (Hm : ∀ m, (∀ p, p ∈ m → ∃ d, model_list s !! p.2 = Some d ∧ d_id d = Some p.1) →
    ∃ ds, at_indices (model_list s) m.*2 = Ok ds ∧ keys_of false (zip (dkeys m) ds) = dkeys m).
  { induction m as [|[id i] m IH]; intros Hp; [by exists []|].
    destruct (Hp (id, i)) as (d & Hi & Hd); [set_solver|]. simpl in Hi, Hd.
    destruct IH as (ds & E & Ek); [intros p ?; apply Hp; set_solver|].
    exists (d :: ds). rewrite fmap_cons. cbn [at_indices snd]. rewrite Hi, E. split; [done|].
    unfold keys_of in *. cbn. rewrite Hd. cbn. f_equal. apply Ek. }
  destruct (Hm (model_id_to_deployment_index_map s)) as (ds & -> & Ek).
  - intros [id i] Hin. apply wf_id; [done|]. by apply dget_in; [apply Hw|].
  - simpl. by rewrite Ek.
Qed.

Lemma filter_all {A} (P : A → Prop) `{∀ x, Decision (P x)} (l : list A) :
  (∀ x, x ∈ l → P x) → filter P l = l.
Proof.
  induction l as [|x l IH]; intros Hp; [done|]. rewrite filter_cons, decide_True by (apply Hp; set_solver).
  rewrite IH; [done|]. intros y Hy. apply Hp. set_solver.
Qed.

(** ** The operations *)

Lemma scan_id_Some id l d : scan_id id l = Some d → ∃ i, l !! i = Some d ∧ d_id d = Some id.
Proof.
  induction l as [|d' l IH]; simpl; [done|]. case_bool_decide; [intros [= <-]; by exists 0|].
  intros (i & ?)%IH. by exists (S i).
Qed.

Lemma scan_id_app id l d :
  scan_id id (l ++ [d]) =
    match scan_id id l with
    | Some d' => Some d' | None => if bool_decide (d_id d = Some id) then Some d else None end.
Proof. induction l as [|d' l IH]; simpl; [done|]. by destruct (bool_decide (d_id d' = Some id)). Qed.

Lemma scan_id_delete id id' r d l :
  l !! r = Some d → d_id d = Some id → id' ≠ id → scan_id id' (delete r l) = scan_id id' l.
Proof.
  revert r. induction l as [|d' l IH]; intros [|r] Hr Hd Hne; simplify_eq/=.
  - rewrite bool_decide_eq_false_2 by congruence. done.
  - by rewrite IH.
Qed.

Lemma add_deployment_spec validate s d id :
  wf s → d_id d = Some id → id ≠ "" →
  (add_deployment validate d s = (Ok None, s) ∧ is_Some (dget id (model_id_to_deployment_index_map s))) ∨
  dget id (model_id_to_deployment_index_map s) = None ∧
  match validate d with
  | Raise e => add_deployment validate d s = (Raise e, s)
  | Ok _ => ∃ s', add_deployment validate d s = (Ok (Some d), s') ∧ wf s' ∧
              model_list s' = model_list s ++ [d] ∧ model_group_alias s' = model_group_alias s
  end.
Proof.
  intros Hw Hd Hne. unfold add_deployment, has_model_id, dmem. rewrite Hd.
  destruct (String.eqb_spec id ""); [done|].
  destruct (dget id (model_id_to_deployment_index_map s)) as [i|] eqn:E; [by left; eauto|]. right.
  split; [done|]. simpl. destruct (validate d) as [u|e]; [|done].
  eexists. split; [done|]. split; [|done].
  eapply wf_ext; [by apply (add_model_wf s d id)|done..].
Qed.

Lemma delete_deployment_spec id s :
  wf s →
  (delete_deployment id s).1 = scan_id id (model_list s) ∧
  wf (delete_deployment id s).2 ∧
  scan_id id (model_list (delete_deployment id s).2) = None ∧
  (∀ id', id' ≠ id → scan_id id' (model_list (delete_deployment id s).2) = scan_id id' (model_list s)).
Proof.
  intros Hw. pose proof (scan_id_lookup s id Hw) as Hs. unfold delete_deployment, get_model_info in *.
  destruct (dget id (model_id_to_deployment_index_map s)) as [r|] eqn:E; simplify_eq/=; [|by rewrite <-Hs].
  apply wf_id in E as (d & Hr & Hd); [|done].
  destruct (pop_deployment_wf _ _ _ _ Hw Hr Hd) as (s' & -> & Hw' & Hl & _). simpl.
  rewrite Hr in Hs. injection Hs as <-. rewrite Hl. split_and!; [done|done| |].
  - pose proof (scan_id_lookup s' id Hw') as Hs'. rewrite Hl in Hs'.
    destruct (scan_id id (delete r (model_list s))) as [d'|] eqn:Es; [|done]. exfalso.
    apply scan_id_Some in Es as (j & Hj & Hd'). destruct (decide (j < r)).
    + rewrite list_lookup_delete_lt in Hj by done.
      pose proof (wf_ids_unique _ _ _ _ _ _ Hw Hj Hr Hd' Hd). lia.
    + rewrite list_lookup_delete_ge in Hj by lia.
      pose proof (wf_ids_unique _ _ _ _ _ _ Hw Hj Hr Hd' Hd). lia.
  - intros id' Hne. by eapply scan_id_delete.
Qed.

(** The part of [upsert_deployment] after an existing deployment was found to
    differ: it is removed, then the new one is added. *)
Lemma upsert_replace validate s d id old :
  wf s → d_id d = Some id → scan_id id (model_list s) = Some old →
  py_eqb (litellm_params d) (litellm_params old) = false →
  upsert_body validate d s =
    (add_deployment validate d ≫= λ _, mret (Some d)) (delete_deployment id s).2.
Proof.
  intros Hw Hd Hs Hp. pose proof (scan_id_lookup s id Hw) as Hg. rewrite Hs in Hg.
  unfold upsert_body, mbind, M_bind. rewrite Hd. simpl. unfold get_deployment. rewrite Hg, Hp.
  unfold delete_deployment, get_model_info in *.
  destruct (dget id (model_id_to_deployment_index_map s)) as [r|] eqn:E; [|done].
  apply wf_id in E as (d' & Hr & Hd'); [|done].
  destruct (pop_deployment_wf _ _ _ _ Hw Hr Hd') as (s' & -> & _). done.
Qed.

Lemma upsert_wf validate ign s d id :
  wf s → d_id d = Some id → id ≠ "" → wf (upsert_deployment validate ign d s).2.
Proof.
  intros Hw Hd Hne. unfold upsert_deployment, m_try.
  assert (Hadd : ∀ s0, wf s0 → wf ((add_deployment validate d ≫= λ _, mret (Some d)) s0).2).
  { intros s0 Hw0. unfold mbind, M_bind.
    destruct (add_deployment_spec validate s0 d id Hw0 Hd Hne) as [[-> _]|[_ Hv]]; [done|].
    destruct (validate d); [by destruct Hv as (s' & -> & ? & _)|by rewrite Hv]. }
  assert (wf (upsert_body validate d s).2) as Hb.
  { destruct (scan_id id (model_list s)) as [old|] eqn:Es.
    - destruct (py_eqb (litellm_params d) (litellm_params old)) eqn:Ep.
      + pose proof (scan_id_lookup s id Hw) as Hg. unfold upsert_body, mbind, M_bind. rewrite Hd.
        simpl. unfold get_deployment. by rewrite Hg, Es, Ep.
      + rewrite (upsert_replace _ _ _ _ _ Hw Hd Es Ep). apply Hadd. by apply delete_deployment_spec.
    - pose proof (scan_id_lookup s id Hw) as Hg. unfold upsert_body. unfold mbind at 1, M_bind at 1.
      rewrite Hd. simpl. unfold get_deployment. rewrite Hg, Es. by apply Hadd. }
  destruct (upsert_body validate d s) as [[o|e] s']; simpl in *; [done|]. by destruct ign.
Qed.

(** *** Loading a model list *)

Definition distinct_ids (l : list deployment) : Prop := Forall (λ d, is_Some (d_id d)) l ∧ NoDup (d_id <$> l).

(** [set_model_list] does not look whether an id is known: the indices agree with the
    table as long as no id has come twice. *)
Definition wf_if_distinct (s : t) : Prop := distinct_ids (model_list s) → wf s.

Lemma add_model_distinct d s :
  wf_if_distinct s → wf_if_distinct (_add_model_to_list_and_index_map d (d_id d) s).
Proof.
  intros Hw [Hids Hnd]. simpl in *. apply Forall_app in Hids as [Hids Hd]. apply Forall_singleton in Hd as [id Hid].
  rewrite fmap_app in Hnd. apply NoDup_app in Hnd as (Hnd & Hdis & _).
  specialize (Hw (conj Hids Hnd)). rewrite Hid. apply add_model_wf; [done|done|].
  destruct (dget id (model_id_to_deployment_index_map s)) as [i|] eqn:E; [|done]. exfalso.
  apply wf_id in E as (d' & Hi & Hd'); [|done]. apply (Hdis (Some id)); [|simpl; rewrite Hid; by left].
  apply list_elem_of_fmap. exists d'. split; [done|]. by eapply list_elem_of_lookup_2.
Qed.

Section loading.
Context `{PyRuntime} (sha256_hex : string → string) (get_secret : string → res pyval).
Context (build : list (string * pyval) → string → list (string * pyval) → list (string * pyval) → res deployment).
Context (register_model : string → list (string * pyval) → res unit) (env : option string).
Context (validate : deployment → res unit) (ign : bool).

#[local] Abbreviation create := (_create_deployment build register_model env validate ign).
#[local] Abbreviation load := (load_entry sha256_hex get_secret build register_model env validate ign).

(** A property of the state that adding a deployment keeps is kept by the loop. *)
Lemma create_deployment_keeps (P : t → Prop) info name params minfo s :
  (∀ d s, P s → P (_add_model_to_list_and_index_map d (d_id d) s)) → P s → P (create info name params minfo s).2.
Proof. intros Hadd Hs. unfold _create_deployment. repeat case_match; simpl; auto. Qed.

Lemma create_each_keeps (P : t → Prop) info name params orgs minfo s :
  (∀ d s, P s → P (_add_model_to_list_and_index_map d (d_id d) s)) → P s →
  P (create_each build register_model env validate ign info name params orgs minfo s).2.
Proof.
  intros Hadd. revert minfo s. induction orgs as [|org orgs IH]; intros minfo s Hs; [done|]. cbn [create_each].
  pose proof (create_deployment_keeps P info name (dset "organization" org params) minfo s Hadd Hs) as Hc.
  destruct (create _ _ _ _ _) as [[[o|e] minfo'] s']; [by apply IH|done].
Qed.

Lemma load_entry_keeps (P : t → Prop) model :
  (∀ d s, P s → P (_add_model_to_list_and_index_map d (d_id d) s)) → preserves P (load model).
Proof.
  intros Hadd s Hs. unfold load_entry. destruct (open_entry _ _ model) as [[[[name params] info] rest]|]; [|done].
  assert (Hone : P (match create rest name params info s with
                    | (Raise e, _, s') => (Raise e, s') | (Ok _, _, s') => (Ok (), s') end).2).
  { pose proof (create_deployment_keeps P rest name params info s Hadd Hs) as Hc.
    by destruct (create _ _ _ _ _) as [[[o|e] minfo'] s']. }
  destruct (dget "organization" params) as [v|]; [|done]. destruct v; try done. by apply create_each_keeps.
Qed.

Lemma set_model_list_wf models : let s' := (λ s, (set_model_list sha256_hex get_secret build register_model env validate ign models s).2) in
  ∀ s, wf_if_distinct (s' s).
Proof.
  intros s' s. unfold s', set_model_list. unfold mbind at 1, M_bind at 1. simpl.
  assert (Hc : wf_if_distinct (clear_model_list s)).
  { intros _. eapply wf_ext; [apply (wf_empty [])|done..]. }
  revert Hc. generalize (clear_model_list s). clear s s'. intros s Hs.
  revert s Hs. apply preserves_bind.
  { apply preserves_iter. intros m. apply load_entry_keeps. apply add_model_distinct. }
  intros _. apply preserves_bind; [by intros s Hs|]. intros _. apply preserves_bind; [apply preserves_lift|].
  intros names. apply preserves_modify. intros s Hs Hd. eapply wf_ext; [by apply Hs|done..].
Qed.
End loading.

(** A router whose deployments come and go; every deployment has a non-empty id,
    as [Deployment] guarantees.  A model list may be loaded at any time, at first or
    again, provided no two of the deployments it makes have the same id. *)
Inductive step (s : t) : t → Prop :=
| step_set_model_list (R : PyRuntime) sha256_hex get_secret build register_model env validate ign models s' :
    s' = (set_model_list sha256_hex get_secret build register_model env validate ign models s).2 →
    distinct_ids (model_list s') → step s s'
| step_add validate d id : d_id d = Some id → id ≠ "" → step s (add_deployment validate d s).2
| step_upsert validate ign d id : d_id d = Some id → id ≠ "" → step s (upsert_deployment validate ign d s).2
| step_delete id : step s (delete_deployment id s).2
| step_access pattern_route team_pattern_route name group team :
    step s (get_model_access_groups pattern_route team_pattern_route name group team s).2.

Definition reachable (aliases : list (string * pyval)) (s : t) : Prop := rtc step (empty aliases) s.

Lemma reachable_wf aliases s : reachable aliases s → wf s.
Proof.
  assert (Hi : ∀ s s', wf s → step s s' → wf s').
  { intros s0 s1 Hw [R sha sec build reg env validate ign models s' -> Hd|validate d id Hd Hne|validate ign d id Hd Hne|id|pr tpr name group team].
    - by apply set_model_list_wf.
    - destruct (add_deployment_spec validate s0 d id Hw Hd Hne) as [[-> _]|[_ Hv]]; [done|].
      destruct (validate d); [by destruct Hv as (s' & -> & ? & _)|by rewrite Hv].
    - by eapply upsert_wf.
    - by apply delete_deployment_spec.
    - unfold get_model_access_groups. repeat case_match; try done; by eapply wf_ext. }
  intros Hr. pose proof (wf_empty aliases) as Hw. induction Hr; eauto.
Qed.

(** The lookups through indices that agree with the table. *)
Lemma wf_lookups_are_scans s id name :
  wf s → name ≠ "" →
  let group := filter (λ d, model_name d = name) (model_list s) in
  get_model_info id s = Ok (scan_id id (model_list s)) ∧
  _get_all_deployments name None None s = Ok group ∧
  get_model_ids (Some name) false s = Ok (omap d_id group) ∧
  get_deployment_by_model_group_name name s = Ok (head group).
Proof.
  intros Hr Hn group. split; [by apply scan_id_lookup|].
  pose proof (indexed_deployments s name Hr Hn) as Hx. fold group in Hx.
  unfold _get_all_deployments, get_model_ids, get_deployment_by_model_group_name.
  destruct (dget name (model_name_to_deployment_indices s)) as [indices|]; [|by rewrite Hx].
  destruct Hx as [Ha _]. rewrite Ha. simpl.
  assert (included name None None group = group) as ->.
  { unfold included. simpl. rewrite list_fmap_id. apply filter_all.
    intros d [Hd _]%list_elem_of_filter. by apply String.eqb_eq. }
  assert (ids_of false group = omap d_id group) as -> by (unfold ids_of; by rewrite filter_all).
  split_and!; [done..|]. clearbody group. destruct indices as [|i l]; simpl in Ha; [by simplify_eq|].
  destruct (model_list s !! i) as [d|]; [|done]. by destruct (at_indices _ l); simplify_eq/=.
Qed.

(** C29: After any sequence of model lists loaded, deployments added, upserted and deleted,
    and access groups queried, in which no loaded list gave two deployments the same
    id, every indexed lookup returns what a scan of [model_list] would: by id the
    deployment with that id, by model group (a name that is not empty) all its
    deployments in order, their ids, and the first of them; no lookup meets a stale
    index. *)
Theorem indexed_lookups_are_scans aliases s id name :
  reachable aliases s → name ≠ "" →
  let group := filter (λ d, model_name d = name) (model_list s) in
  get_model_info id s = Ok (scan_id id (model_list s)) ∧
  _get_all_deployments name None None s = Ok group ∧
  get_model_ids (Some name) false s = Ok (omap d_id group) ∧
  get_deployment_by_model_group_name name s = Ok (head group).
Proof.
  intros Hr%reachable_wf. by apply wf_lookups_are_scans.
Qed.

(** Deleting a deployment returns it, makes it unknown, and leaves every other
    deployment reachable by its id, although the positions after it all shift. *)
Theorem delete_deployment_correct aliases s id :
  reachable aliases s →
  (delete_deployment id s).1 = scan_id id (model_list s) ∧
  get_deployment id (delete_deployment id s).2 = Ok None ∧
  ∀ id', id' ≠ id → get_deployment id' (delete_deployment id s).2 = get_deployment id' s.
Proof.
  intros Hr%reachable_wf. destruct (delete_deployment_spec id s Hr) as (H1 & Hw & H2 & H3).
  unfold get_deployment. split_and!; [done| |intros id' Hne]; rewrite !scan_id_lookup by done;
    [by rewrite H2|by rewrite H3].
Qed.

(** Upserting a valid deployment whose parameters are new or changed makes it
    the deployment of its id and leaves every other one as it was. *)
Theorem upsert_deployment_correct aliases s validate ign d id :
  reachable aliases s → d_id d = Some id → id ≠ "" → validate d = Ok () →
  (∀ old, scan_id id (model_list s) = Some old → py_eqb (litellm_params d) (litellm_params old) = false) →
  let r := upsert_deployment validate ign d s in
  r.1 = Ok (Some d) ∧ get_deployment id r.2 = Ok (Some d) ∧
  ∀ id', id' ≠ id → get_deployment id' r.2 = get_deployment id' s.
Proof.
  intros Hr%reachable_wf Hd Hne Hv Hold. unfold upsert_deployment, m_try.
  assert (Hbody : ∃ s0, wf s0 ∧ scan_id id (model_list s0) = None ∧
    upsert_body validate d s = (add_deployment validate d ≫= λ _, mret (Some d)) s0 ∧
    ∀ id', id' ≠ id → scan_id id' (model_list s0) = scan_id id' (model_list s)).
  { destruct (scan_id id (model_list s)) as [old|] eqn:Es.
    - destruct (delete_deployment_spec id s Hr) as (_ & Hw & H2 & H3).
      exists (delete_deployment id s).2. split_and!; try done. by eapply upsert_replace; auto.
    - exists s. split_and!; try done. pose proof (scan_id_lookup s id Hr) as Hg. rewrite Es in Hg.
      unfold upsert_body. unfold mbind at 1, M_bind at 1. rewrite Hd. simpl. unfold get_deployment.
      by rewrite Hg. }
  destruct Hbody as (s0 & Hw0 & Hn & -> & Hother). unfold mbind, M_bind.
  pose proof (scan_id_lookup s0 id Hw0) as Hg. rewrite Hn in Hg. unfold get_model_info in Hg.
  destruct (add_deployment_spec validate s0 d id Hw0 Hd Hne) as [[_ [i Hi]]|[_ Hadd]].
  { rewrite Hi in Hg. by destruct (model_list s0 !! i). }
  rewrite Hv in Hadd. destruct Hadd as (s' & -> & Hw' & Hl & _). simpl.
  unfold get_deployment. split; [done|]. split; [|intros id' Hne']; rewrite !scan_id_lookup by done; rewrite Hl, scan_id_app.
  - rewrite Hn. by rewrite bool_decide_eq_true_2.
  - rewrite Hother by done. destruct (scan_id id' (model_list s)); [done|].
    by rewrite bool_decide_eq_false_2 by congruence.
Qed.

(** When an update of a known deployment is rejected by validation, the old
    deployment is already gone: afterwards its id is unknown to the router. *)
Theorem rejected_upsert_loses_deployment aliases s validate ign d id old e :
  reachable aliases s → d_id d = Some id → id ≠ "" →
  get_deployment id s = Ok (Some old) →
  py_eqb (litellm_params d) (litellm_params old) = false → validate d = Raise e →
  (upsert_deployment validate ign d s).1 = (if ign then Ok None else Raise e) ∧
  get_deployment id (upsert_deployment validate ign d s).2 = Ok None.
Proof.
  intros Hr%reachable_wf Hd Hne Hg Hp Hv. unfold get_deployment in *.
  rewrite scan_id_lookup in Hg by done. injection Hg as Hs.
  destruct (delete_deployment_spec id s Hr) as (_ & Hw & H2 & _).
  unfold upsert_deployment, m_try. rewrite (upsert_replace _ _ _ _ _ Hr Hd Hs Hp). unfold mbind, M_bind.
  pose proof (scan_id_lookup _ id Hw) as Hg. rewrite H2 in Hg.
  destruct (add_deployment_spec validate _ d id Hw Hd Hne) as [[_ [i Hi]]|[_ Hadd]].
  { unfold get_model_info in Hg. rewrite Hi in Hg. by destruct (_ !! i). }
  rewrite Hv in Hadd. rewrite Hadd. by destruct ign.
Qed.

(** ** Access groups *)

(** The answer cached for the query without arguments is the one a fresh computation
    gives (which consults no pattern router). *)
Definition cache_sound (s : t) : Prop :=
  ∀ groups pr tpr, access_groups_cache s = Some groups → compute_access_groups pr tpr None None None s = Ok groups.

Lemma add_deployment_sound validate d : preserves cache_sound (add_deployment validate d).
Proof. intros s Hs. unfold add_deployment. repeat case_match; done. Qed.

Lemma pop_deployment_sound id idx s item s' : pop_deployment id idx s = Some (item, s') → cache_sound s'.
Proof. unfold pop_deployment. case_match; [|done]. by intros [= <- <-]. Qed.

Lemma upsert_deployment_sound validate ign d : preserves cache_sound (upsert_deployment validate ign d).
Proof.
  apply preserves_try; [|intros e; destruct ign; [apply preserves_ret|apply preserves_raise]]. unfold upsert_body.
  assert (Hadd : preserves cache_sound (add_deployment validate d ≫= λ _, mret (Some d)))
    by (apply preserves_bind; [apply add_deployment_sound|intros _; apply preserves_ret]).
  apply preserves_bind; [by intros s Hs|]. intros [old|]; [|done].
  destruct (py_eqb _ _); [apply preserves_ret|]. apply preserves_bind; [|by intros _].
  intros s Hs. destruct (d_id d) as [id|]; [|done]. destruct (dget id _) as [idx|]; [|done].
  destruct (pop_deployment id idx s) as [[item s']|] eqn:E; [by eapply pop_deployment_sound|done].
Qed.

Lemma alias_loop_ext s s' items :
  model_list s' = model_list s → model_name_to_deployment_indices s' = model_name_to_deployment_indices s →
  alias_loop s' items = alias_loop s items.
Proof.
  intros E1 E2. induction items as [|[a v] items IH]; [done|]. cbn [alias_loop]. rewrite IH.
  unfold _get_all_deployments. by rewrite E1, E2.
Qed.

Lemma compute_access_groups_cache pr tpr pr' tpr' c s :
  compute_access_groups pr' tpr' None None None (set_access_groups_cache c s) =
  compute_access_groups pr tpr None None None s.
Proof.
  unfold compute_access_groups, get_model_list, get_model_list_from_model_alias. by rewrite (alias_loop_ext s).
Qed.

Lemma get_model_access_groups_sound pr tpr name group team :
  preserves cache_sound (get_model_access_groups pr tpr name group team).
Proof.
  intros s Hs. unfold get_model_access_groups.
  destruct name as [n|], group as [g|], team as [tm|]; simpl;
    try (destruct (compute_access_groups _ _ _ _ _ s); exact Hs).
  destruct (access_groups_cache s); [done|]. destruct (compute_access_groups pr tpr None None None s) eqn:E; [|done].
  intros groups pr' tpr' [= ->].
  etrans; [apply (compute_access_groups_cache pr tpr pr' tpr' (Some groups) s)|exact E].
Qed.

Lemma set_model_list_sound (R : PyRuntime) sha sec build reg env validate ign models :
  preserves cache_sound (set_model_list sha sec build reg env validate ign models).
Proof.
  unfold set_model_list. apply preserves_bind; [by apply preserves_modify|]. intros _. apply preserves_bind.
  { apply preserves_iter. intros m. by apply load_entry_keeps. }
  intros _. apply preserves_bind; [by intros s Hs|]. intros _. apply preserves_bind; [apply preserves_lift|].
  intros names. apply preserves_modify. intros s Hs groups pr tpr Hc. rewrite <- (Hs groups pr tpr Hc).
  unfold compute_access_groups, get_model_list, get_model_list_from_model_alias. simpl. by rewrite (alias_loop_ext s).
Qed.

Lemma reachable_cache_sound aliases s : reachable aliases s → cache_sound s.
Proof.
  assert (Hi : ∀ s s', cache_sound s → step s s' → cache_sound s').
  { intros s0 s1 Hs [R sha sec build reg env validate ign models s' -> _|validate d id _ _|validate ign d id _ _|id|pr tpr name group team].
    - by apply set_model_list_sound.
    - by apply add_deployment_sound.
    - by apply upsert_deployment_sound.
    - unfold delete_deployment. destruct (dget id _) as [idx|]; [|done].
      destruct (pop_deployment id idx s0) as [[item s']|] eqn:E; [by eapply pop_deployment_sound|done].
    - by apply get_model_access_groups_sound. }
  intros Hr. assert (cache_sound (empty aliases)) as H0 by done. induction Hr; eauto.
Qed.

(** What one deployment, and a list of them, contribute to a group. *)
Lemma add_to_groups_elem only name groups acc g n :
  n ∈ default [] (dget g (add_to_groups only name groups acc)) ↔
  n ∈ default [] (dget g acc) ∨ (n = name ∧ g ∈ groups ∧ (only = None ∨ only = Some g)).
Proof.
  unfold add_to_groups. revert acc. induction groups as [|g' groups IH]; intros acc; simpl; [set_solver|].
  rewrite IH. clear IH.
  assert (Hm : (if match only with Some o => String.eqb g' o | None => true end : bool then only = None ∨ only = Some g'
                else ¬ (only = None ∨ only = Some g'))).
  { destruct only as [o|]; [|by left]. destruct (String.eqb_spec g' o) as [->|]; naive_solver. }
  destruct (match only with Some o => String.eqb g' o | None => true end).
  - rewrite dget_dset. destruct (String.eqb_spec g' g) as [->|]; simpl; [|set_solver].
    rewrite elem_of_app, list_elem_of_singleton. set_solver.
  - set_solver.
Qed.

Lemma groups_loop_elem only ds acc res g n :
  groups_loop only ds acc = Ok res →
  n ∈ default [] (dget g res) ↔
  n ∈ default [] (dget g acc) ∨
  ∃ d gs, d ∈ ds ∧ model_name d = n ∧ access_groups_of d = Ok gs ∧ g ∈ gs ∧ (only = None ∨ only = Some g).
Proof.
  revert acc. induction ds as [|d ds IH]; intros acc; cbn [groups_loop].
  { intros [= ->]. split; [auto|]. intros [?|(d & gs & ?%not_elem_of_nil & _)]; done. }
  destruct (model_info d) as [|kv info] eqn:Ei.
  - intros E%IH. rewrite E. assert (access_groups_of d = Ok []) as Hd by (unfold access_groups_of; by rewrite Ei).
    split; (intros [?|(d' & gs & Hin & H1 & H2 & H3 & H4)]; [by left|right; exists d', gs]); split_and!; auto; [set_solver|].
    apply elem_of_cons in Hin as [->|?]; [|done]. rewrite Hd in H2. injection H2 as <-. by apply not_elem_of_nil in H3.
  - destruct (access_groups_of d) as [gs|e] eqn:Ed; [|done]. cbn [mbind res_bind]. intros E%IH. rewrite E, add_to_groups_elem.
    split.
    + intros [[?|(-> & ? & ?)]|(d' & gs' & Hin & H1 & H2 & H3)]; [by left|right; exists d, gs; set_solver|].
      right. exists d', gs'. split; [set_solver|done].
    + intros [?|(d' & gs' & [->|Hin]%elem_of_cons & H1 & H2 & H3 & H4)]; [by left; left| |].
      * left. right. rewrite Ed in H2. injection H2 as ->. done.
      * right. by exists d', gs'.
Qed.

(** Access groups are never stale.  In every reachable state any query for access
    groups answers as a fresh computation from the current deployments and aliases
    would, although the answer without arguments is cached; and a group holds exactly
    the names of the deployments that list it. *)
Theorem access_groups_never_stale aliases s pr tpr name group team ds groups :
  reachable aliases s → get_model_list pr tpr name team s = Ok ds → groups_loop group ds [] = Ok groups →
  (get_model_access_groups pr tpr name group team s).1 = Ok groups ∧
  ∀ g n, n ∈ default [] (dget g groups) ↔
    ∃ d gs, d ∈ ds ∧ model_name d = n ∧ access_groups_of d = Ok gs ∧ g ∈ gs ∧ (group = None ∨ group = Some g).
Proof.
  intros Hr Hds Hgs. split.
  - assert (compute_access_groups pr tpr name group team s = Ok groups) as E
      by (unfold compute_access_groups; by rewrite Hds).
    pose proof (reachable_cache_sound aliases s Hr) as Hs. unfold get_model_access_groups. rewrite E.
    destruct name, group, team; try done. destruct (access_groups_cache s) as [c|] eqn:Ec; [|done].
    simpl. rewrite <-E. symmetry. by apply Hs.
  - intros g n. rewrite (groups_loop_elem _ _ _ _ g n Hgs). split; [|auto].
    intros [?%not_elem_of_nil|?]; done.
Qed.

(** ** Concrete runs *)

Definition ex_dep (name id key : string) : deployment :=
  mkDep name (PDict [("model", PStr "openai/gpt-4o"); ("api_key", PStr key)]) [("id", PStr id)].

Definition accept (d : deployment) : res unit := Ok ().

(** Three deployments, two of them in one group, the first deleted again. *)
Definition ex_three : t :=
  (add_deployment accept (ex_dep "gpt" "c" "k3")
    (add_deployment accept (ex_dep "other" "b" "k2")
      (add_deployment accept (ex_dep "gpt" "a" "k1") (empty [])).2).2).2.
Definition ex_two : t := (delete_deployment "a" ex_three).2.

Lemma ex_three_reachable : reachable [] ex_three.
Proof.
  eapply rtc_l; [by apply (step_add _ accept (ex_dep "gpt" "a" "k1") "a")|].
  eapply rtc_l; [by apply (step_add _ accept (ex_dep "other" "b" "k2") "b")|].
  apply rtc_once. by apply (step_add _ accept (ex_dep "gpt" "c" "k3") "c").
Qed.

Lemma ex_two_reachable : reachable [] ex_two.
Proof. eapply rtc_r; [apply ex_three_reachable|apply step_delete]. Qed.

Lemma delete_deployment_correct_witness :
  get_deployment "c" (delete_deployment "a" ex_three).2 = Ok (Some (ex_dep "gpt" "c" "k3")).
Proof.
  destruct (delete_deployment_correct [] ex_three "a" ex_three_reachable) as (_ & _ & H1).
  rewrite (H1 "c"); [reflexivity|discriminate].
Defined.

Lemma upsert_deployment_correct_witness :
  let d := ex_dep "gpt" "c" "rotated" in
  get_deployment "c" (upsert_deployment accept false d ex_two).2 = Ok (Some d).
Proof.
  apply (upsert_deployment_correct [] ex_two accept false (ex_dep "gpt" "c" "rotated") "c" ex_two_reachable);
    [reflexivity|discriminate|reflexivity|]. by intros old [= <-].
Defined.

Lemma rejected_upsert_loses_deployment_witness :
  get_deployment "c" (upsert_deployment (λ _, Raise ValueError) true (ex_dep "gpt" "c" "rotated") ex_two).2
    = Ok None.
Proof.
  eapply (rejected_upsert_loses_deployment [] ex_two (λ _, Raise ValueError) true
    (ex_dep "gpt" "c" "rotated") "c" _ ValueError ex_two_reachable);
    [reflexivity|discriminate|reflexivity..].
Defined.

(** The constructors on an entry, for examples: the parameters and the info as given. *)
Definition plain_build (_ : list (string * pyval)) (name : string) (params info : list (string * pyval)) : res deployment :=
  Ok (mkDep name (PDict params) info).
Definition ex_load (models : list (list (string * pyval))) : t :=
  (set_model_list (H := toy_runtime) id (λ _, Ok PNone) plain_build (λ _ _, Ok ()) None accept false models (empty [])).2.
Definition ex_entry (name : string) (orgs : pyval) : list (string * pyval) :=
  [("model_name", PStr name); ("litellm_params", PDict [("model", PStr "openai/gpt-4o"); ("organization", orgs)])].

(** One entry with two organizations makes two deployments with one id: the index leads
    to the second only, and deleting the id removes that one and leaves the first, which
    no id leads to any more. *)
Theorem organizations_share_an_id :
  let s := ex_load [ex_entry "gpt" (PList [PStr "red"; PStr "blue"])] in
  ∃ id red blue, model_list s = [red; blue] ∧ d_id red = Some id ∧ d_id blue = Some id ∧
    scan_id id (model_list s) = Some red ∧ get_deployment id s = Ok (Some blue) ∧
    model_list (delete_deployment id s).2 = [red] ∧ get_deployment id (delete_deployment id s).2 = Ok None.
Proof. eexists _, _, _. vm_compute. eauto 10. Qed.

(** A list that repeats an entry does the same. *)
Theorem repeated_entry_shares_an_id :
  let s := ex_load [ex_entry "gpt" PNone; ex_entry "gpt" PNone] in
  length (model_list s) = 2 ∧ dkeys (model_id_to_deployment_index_map s) = ["gptmodelopenai/gpt-4oorganizationNone"].
Proof. vm_compute. auto. Qed.

Lemma indexed_lookups_are_scans_witness :
  let s := ex_load [ex_entry "gpt" (PStr "red"); ex_entry "other" PNone; ex_entry "gpt" (PStr "blue")] in
  let s' := (delete_deployment "gptmodelopenai/gpt-4oorganizationred" s).2 in
  ∃ d, d_id d = Some "gptmodelopenai/gpt-4oorganizationblue" ∧
    get_model_info "gptmodelopenai/gpt-4oorganizationblue" s' = Ok (Some d) ∧
    _get_all_deployments "gpt" None None s' = Ok [d].
Proof.
  intros s s'. assert (Hr : reachable [] s').
  { eapply rtc_r; [apply rtc_once|apply step_delete].
    eapply (step_set_model_list _ toy_runtime id (λ _, Ok PNone) plain_build (λ _ _, Ok ()) None accept false); [reflexivity|].
    split; [repeat constructor; eexists; reflexivity|apply (bool_decide_unpack _); vm_compute; exact I]. }
  destruct (indexed_lookups_are_scans [] s' "gptmodelopenai/gpt-4oorganizationblue" "gpt" Hr) as (H1 & H2 & _); [discriminate|].
  eexists. split; [|split; [rewrite H1; vm_compute; reflexivity|rewrite H2; vm_compute; reflexivity]]. reflexivity.
Defined.

(** With a [team_id], a model name that is also the name of a global group
    resolves through the name index to the global deployments only: the team's own
    deployment published under that name, which a scan with
    [should_include_deployment] includes, is not returned. *)
Theorem team_deployment_shadowed_by_index :
  let team_dep := mkDep "gpt_team1_x" (PDict []) [("id", PStr "t"); ("team_id", PStr "team1");
                                                ("team_public_model_name", PStr "gpt")] in
  let s := (add_deployment accept team_dep ex_two).2 in
  _get_all_deployments "gpt" None (Some "team1") s = Ok [ex_dep "gpt" "c" "k3"] ∧
  included "gpt" None (Some "team1") (model_list s) = [ex_dep "gpt" "c" "k3"; team_dep].
Proof. vm_compute. auto. Qed.

(** A deployment in the access group [beta], a cached query, then another one. *)
Definition ex_beta (name id : string) : deployment :=
  mkDep name (PDict []) [("id", PStr id); ("access_groups", PList [PStr "beta"])].
Definition no_route (_ : string) : list deployment := [].
Definition no_team_route (_ _ : string) : list deployment := [].
Definition ex_queried (aliases : list (string * pyval)) : t :=
  (get_model_access_groups no_route no_team_route None None None
    (add_deployment accept (ex_beta "gpt" "a") (empty aliases)).2).2.
Definition ex_groups : t := (add_deployment accept (ex_beta "new" "b") (ex_queried [])).2.

Lemma ex_groups_reachable : reachable [] ex_groups.
Proof.
  eapply rtc_l; [by apply (step_add _ accept (ex_beta "gpt" "a") "a")|].
  eapply rtc_l; [apply (step_access _ no_route no_team_route None None None)|].
  apply rtc_once. by apply (step_add _ accept (ex_beta "new" "b") "b").
Qed.

Lemma access_groups_never_stale_witness :
  access_groups_cache (ex_queried []) = Some [("beta", ["gpt"])] ∧
  (get_model_access_groups no_route no_team_route None None None ex_groups).1 = Ok [("beta", ["gpt"; "new"])].
Proof.
  split; [reflexivity|].
  apply (access_groups_never_stale [] ex_groups no_route no_team_route None None None
    [ex_beta "gpt" "a"; ex_beta "new" "b"] [("beta", ["gpt"; "new"])]);
    [exact ex_groups_reachable|reflexivity|reflexivity].
Defined.

(** Changing the aliases through [update_settings] does not invalidate the cache: the
    answer still names an alias that no longer exists. *)
Theorem alias_update_leaves_stale_access_groups :
  let s := update_model_group_alias [] (ex_queried [("fast", PStr "gpt")]) in
  (get_model_access_groups no_route no_team_route None None None s).1 = Ok [("beta", ["fast"; "gpt"])] ∧
  compute_access_groups no_route no_team_route None None None s = Ok [("beta", ["gpt"])].
Proof. vm_compute. auto. Qed.
End RouterIndex.
