(* ===== verification/Masker.v ===== *)
(** * Masker: [litellm_core_utils/sensitive_data_masker.py]

    The masker that hides secrets in logged and displayed configuration: values
    under sensitive keys keep a visible prefix and suffix, the middle is replaced.
    Theorems: masking keeps lengths and is idempotent, the output does not depend on
    the hidden middle of any secret however deep it is nested (up to the depth
    limit), and, as a limit of the protection, short secrets stay readable. *)

From stdpp Require Import base list strings.
From Stdlib Require Import ZArith Lia Ascii.
From S2P Require Import Prelude PyStr.

#[local] Open Scope nat_scope.

Module Masker.

Definition DEFAULT_MAX_RECURSE_DEPTH_SENSITIVE_DATA_MASKER : nat := 10.

Record t := mk {
  sensitive_patterns : list string;              (* a set *)
  non_sensitive_overrides : list string;         (* a set *)
  visible_prefix : nat;
  visible_suffix : nat;
  mask_char : string
}.

Definition default_patterns : list string :=
  ["password"; "secret"; "key"; "token"; "auth"; "authorization"; "credential"; "access"; "private";
   "certificate"; "fingerprint"; "tenancy"].

(** [x or dflt] on an optional set. *)
Definition or_set (x : option (list string)) (dflt : list string) : list string :=
  match x with Some (w :: ws) => w :: ws | _ => dflt end.

Definition init (patterns overrides : option (list string)) (prefix suffix : nat) (c : string) : t :=
  mk (or_set patterns default_patterns) (or_set overrides ["cost"]) prefix suffix c.

Definition init_default : t := init None None 4 4 "*".

Definition _mask_value (m : t) (value : string) : string :=
  let len := String.length value in
  if String.eqb value "" || (len <? visible_prefix m + visible_suffix m) then value
  else
    let masked_length := len - (visible_prefix m + visible_suffix m) in
    if visible_suffix m =? 0 then
      str_take (visible_prefix m) value +:+ str_repeat (mask_char m) masked_length
    else
      str_take (visible_prefix m) value +:+ str_repeat (mask_char m) masked_length
        +:+ str_drop (len - visible_suffix m) value.

Definition is_sensitive_key (m : t) (key : string) (excluded_keys : option (list string)) : bool :=
  if match excluded_keys with Some ks => bool_decide (key ∈ ks) | None => false end then false
  else
    let key_segments := split_on "_" (replace_char "-" "_" (lower key)) in
    if existsb (λ o, bool_decide (o ∈ key_segments)) (non_sensitive_overrides m) then false
    else existsb (λ p, bool_decide (p ∈ key_segments)) (sensitive_patterns m).

Section mask.
Context `{PyRuntime} (m : t) (max_depth : nat) (excluded_keys : option (list string)).

(** One value at [depth]: an item of a sequence ([seq]) or the value of a key,
    under a key that is sensitive or not.  Nested mappings and lists are at
    [depth + 1] and returned as they are from [max_depth] on. *)
Fixpoint mask_node (seq key_is_sensitive : bool) (depth : nat) (v : pyval) : pyval :=
  match v with
  | PDict d =>
      PDict (if max_depth <=? S depth then d
             else map (λ kv, (kv.1, mask_node false (is_sensitive_key m kv.1 excluded_keys) (S depth) kv.2)) d)
  | PList l =>
      PList (if max_depth <=? S depth then l
             else map (mask_node true key_is_sensitive (S depth)) l)
  | PStr s => if key_is_sensitive then PStr (_mask_value m s) else v
  | PBool _ | PInt _ | PFloat _ =>
      if key_is_sensitive && negb seq then PStr (_mask_value m (py_str v)) else v
  | PNone =>
      if key_is_sensitive && negb seq then PStr (_mask_value m "") else PStr (py_str v)
  | PTuple _ | PSet _ | PTimedelta _ =>
      if key_is_sensitive && negb seq then PStr (_mask_value m (py_str v)) else PStr (py_str v)
  end.

Definition _mask_sequence (values : list pyval) (depth : nat) (key_is_sensitive : bool) : list pyval :=
  if max_depth <=? depth then values else map (mask_node true key_is_sensitive depth) values.

Definition mask_dict (data : list (string * pyval)) (depth : nat) : list (string * pyval) :=
  if max_depth <=? depth then data
  else map (λ kv, (kv.1, mask_node false (is_sensitive_key m kv.1 excluded_keys) depth kv.2)) data.
End mask.

(** ** One value *)

(** Two strings long enough to be masked that agree outside the hidden middle. *)
Definition same_visible (m : t) (v w : string) : Prop :=
  String.length v = String.length w ∧
  visible_prefix m + visible_suffix m ≤ String.length v ∧
  str_take (visible_prefix m) v = str_take (visible_prefix m) w ∧
  str_drop (String.length v - visible_suffix m) v = str_drop (String.length w - visible_suffix m) w.

Lemma mask_value_same_visible m v w : same_visible m v w → _mask_value m v = _mask_value m w.
Proof.
  intros (Hl & Hlong & Hp & Hs). unfold _mask_value. rewrite <-Hl in *. rewrite Hp, Hs.
  destruct (decide (v = "")) as [->|Hv].
  { destruct w; [done|]. by simpl in Hl. }
  assert (w ≠ "") as Hw by (intros ->; by destruct v).
  destruct (String.eqb_spec v ""), (String.eqb_spec w ""); try done. simpl orb.
  by destruct (Nat.ltb_spec (String.length v) (visible_prefix m + visible_suffix m)); [lia|].
Qed.

(** The long case, in one equation. *)
Lemma mask_value_long m v :
  visible_prefix m + visible_suffix m ≤ String.length v → v ≠ "" →
  _mask_value m v =
    str_take (visible_prefix m) v
      +:+ str_repeat (mask_char m) (String.length v - (visible_prefix m + visible_suffix m))
      +:+ str_drop (String.length v - visible_suffix m) v.
Proof.
  intros Hl Hne. unfold _mask_value. destruct (String.eqb_spec v ""); [done|]. simpl orb.
  destruct (Nat.ltb_spec (String.length v) (visible_prefix m + visible_suffix m)); [lia|].
  destruct (Nat.eqb_spec (visible_suffix m) 0) as [E|]; [|done]. rewrite E, Nat.sub_0_r.
  assert (∀ s, str_drop (String.length s) s = "") as ->.
  { intros s. rewrite <-(str_app_nil_r s) at 2. apply str_drop_app. }
  by rewrite str_app_nil_r.
Qed.

(** A long value and its mask differ in the hidden middle only. *)
Lemma mask_value_visible m a v :
  mask_char m = String a "" → v ≠ "" → visible_prefix m + visible_suffix m ≤ String.length v →
  same_visible m (_mask_value m v) v.
Proof.
  intros Hc Hne Hl. pose proof (mask_value_long m v Hl Hne) as E. rewrite Hc in E.
  set (p := str_take (visible_prefix m) v) in *. set (n := String.length v) in *.
  set (r := str_repeat (String a "") (n - (visible_prefix m + visible_suffix m))) in *.
  set (s := str_drop (n - visible_suffix m) v) in *.
  assert (String.length p = visible_prefix m) as Hp by (unfold p; rewrite str_length_take; lia).
  assert (String.length s = visible_suffix m) as Hs by (unfold s; rewrite str_length_drop; lia).
  assert (String.length (_mask_value m v) = n) as Hn.
  { rewrite E, !str_length_app, Hp, Hs. unfold r. rewrite str_length_repeat. lia. }
  split_and!; [done|lia| |].
  - rewrite E at 1. rewrite <-Hp at 1. by rewrite str_take_app.
  - rewrite Hn, E. fold n. fold s. rewrite <-str_app_assoc.
    replace (n - visible_suffix m) with (String.length (p +:+ r)); [by rewrite str_drop_app|].
    rewrite str_length_app, Hp. unfold r. rewrite str_length_repeat. lia.
Qed.

(** Masking a value with a one-character mask keeps its length, leaves the visible
    prefix and suffix of a long enough value as they are, and masking again changes
    nothing. *)
Theorem mask_value_idempotent m a v :
  mask_char m = String a "" →
  String.length (_mask_value m v) = String.length v ∧
  (visible_prefix m + visible_suffix m ≤ String.length v → same_visible m (_mask_value m v) v) ∧
  _mask_value m (_mask_value m v) = _mask_value m v.
Proof.
  intros Hc.
  destruct (decide (v = "")) as [->|Hne].
  { split_and!; [done| |done]. intros Hl. simpl in Hl. split_and!; done || simpl; lia. }
  destruct (decide (visible_prefix m + visible_suffix m ≤ String.length v)) as [Hl|Hl].
  { pose proof (mask_value_visible m a v Hc Hne Hl) as Hv. split_and!; [apply Hv|done|].
    by apply mask_value_same_visible. }
  assert (_mask_value m v = v) as E; [|by rewrite !E].
  unfold _mask_value. destruct (Nat.ltb_spec (String.length v) (visible_prefix m + visible_suffix m));
    [by rewrite orb_true_r|lia].
Qed.

Lemma mask_value_idempotent_witness :
  _mask_value init_default (_mask_value init_default "sk-1234567890abcdef") = "sk-1***********cdef".
Proof.
  rewrite (proj2 (proj2 (mask_value_idempotent init_default "*" "sk-1234567890abcdef" eq_refl))). reflexivity.
Defined.

(** ** Whole structures *)

Section noninterference.
Context `{PyRuntime} (m : t) (max_depth : nat) (excluded_keys : option (list string)).

(** The words of a key: what underscores and hyphens separate, in lower case. *)
Definition words (key : string) : list string := split_on "_" (replace_char "-" "_" (lower key)).

(** A sensitive key: one of its words is a sensitive pattern and none an override, and
    the key is not excluded. *)
Definition sensitive (key : string) : Prop :=
  (∀ ks, excluded_keys = Some ks → key ∉ ks) ∧ (∃ p, p ∈ sensitive_patterns m ∧ p ∈ words key) ∧
  (∀ o, o ∈ non_sensitive_overrides m → o ∉ words key).

Lemma is_sensitive_key_spec key : is_sensitive_key m key excluded_keys = true ↔ sensitive key.
Proof.
  unfold is_sensitive_key, sensitive. fold (words key).
  assert (∀ l, existsb (λ p, bool_decide (p ∈ words key)) l = true ↔ ∃ p, p ∈ l ∧ p ∈ words key) as Hex.
  { intros l. rewrite existsb_exists. setoid_rewrite bool_decide_eq_true. setoid_rewrite list_elem_of_In. done. }
  destruct (match excluded_keys with Some ks => bool_decide (key ∈ ks) | None => false end) eqn:Ex.
  { split; [done|]. intros [Hn _]. destruct excluded_keys as [ks|]; [|done]. apply bool_decide_eq_true in Ex. by destruct (Hn ks). }
  assert (∀ ks, excluded_keys = Some ks → key ∉ ks) as Hn by (intros ks ->; by apply bool_decide_eq_false in Ex).
  destruct (existsb _ (non_sensitive_overrides m)) eqn:Eo.
  - apply Hex in Eo as (o & Ho & Hw). split; [done|]. intros (_ & _ & Hall). by destruct (Hall o).
  - rewrite Hex. split; [|naive_solver]. intros Hp. split_and!; [done..|]. intros o Ho Hw.
    apply not_true_iff_false in Eo. apply Eo, Hex. eauto.
Qed.

(** Values that differ at most in the hidden middle of strings that lie, within lists
    perhaps, under a sensitive key, at a depth the masker reaches; [key] is the key the
    value is under. *)
Inductive same_public : string → nat → pyval → pyval → Prop :=
| sp_refl key depth v : same_public key depth v v
| sp_secret key depth s s' : sensitive key → same_visible m s s' → same_public key depth (PStr s) (PStr s')
| sp_list key depth l l' :
    S depth < max_depth → Forall2 (same_public key (S depth)) l l' → same_public key depth (PList l) (PList l')
| sp_dict key depth d d' :
    S depth < max_depth →
    Forall2 (λ kv kv', kv.1 = kv'.1 ∧ same_public kv.1 (S depth) kv.2 kv'.2) d d' →
    same_public key depth (PDict d) (PDict d').

Lemma mask_node_same seq key depth v w :
  same_public key depth v w →
  let ks := is_sensitive_key m key excluded_keys in
  mask_node m max_depth excluded_keys seq ks depth v = mask_node m max_depth excluded_keys seq ks depth w.
Proof.
  cbn zeta. revert seq key depth w. induction v as [| | | | |l IH|l IH|l IH|d IH|] using pyval_ind';
    intros seq key depth w Hw; inversion Hw as [|? ? s0 s' Hk Hs|? ? l0 l' Hd Hf|? ? d0 d' Hd Hf]; subst; try done.
  - simpl. by rewrite (proj2 (is_sensitive_key_spec key) Hk), (mask_value_same_visible _ _ _ Hs).
  - simpl. f_equal. destruct (Nat.leb_spec max_depth (S depth)); [lia|].
    clear Hw. induction Hf as [|x y l l' Hxy Hf IHf]; [done|]. apply Forall_cons in IH as [Hx IH].
    simpl. f_equal; [by apply Hx|by apply IHf].
  - simpl. f_equal. destruct (Nat.leb_spec max_depth (S depth)); [lia|].
    clear Hw. induction Hf as [|[k x] [k' y] d d' [Hk Hxy] Hf IHf]; [done|].
    apply Forall_cons in IH as [Hx IH]. simpl in *. subst k'. f_equal; [|by apply IHf].
    f_equal. by apply Hx.
Qed.

End noninterference.

#[local] Existing Instance toy_runtime.


(** Beyond the depth limit a secret is returned as it is. *)
Theorem deep_secret_unmasked :
  mask_dict init_default 2 None [("a", PDict [("b", PDict [("api_key", PStr "sk-aaaaaaaaXYZ1")])])] 0 =
  [("a", PDict [("b", PDict [("api_key", PStr "sk-aaaaaaaaXYZ1")])])].
Proof. reflexivity. Qed.

(** The limit of the protection: a secret no longer than the visible prefix and
    suffix together is shown in full. *)
Theorem masking_limits m a v :
  mask_char m = String a "" →
  String.length v ≤ visible_prefix m + visible_suffix m → _mask_value m v = v.
Proof.
  intros Hc Hl. destruct (decide (v = "")) as [->|Hne]; [done|].
  destruct (decide (String.length v < visible_prefix m + visible_suffix m)) as [Hlt|Hge].
  - unfold _mask_value. destruct (Nat.ltb_spec (String.length v) (visible_prefix m + visible_suffix m));
      [by rewrite orb_true_r|lia].
  - rewrite mask_value_long by (done || lia).
    replace (String.length v - (visible_prefix m + visible_suffix m)) with 0 by lia.
    replace (String.length v - visible_suffix m) with (visible_prefix m) by lia. apply str_take_drop.
Qed.

Lemma masking_limits_witness : _mask_value init_default "hunter42" = "hunter42".
Proof. apply (masking_limits init_default "*"); [reflexivity|vm_compute; lia]. Defined.
End Masker.
