(* ===== verification/RetryPolicy.v ===== *)
(** * RetryPolicy: exception classes and per-class settings

    [exceptions.py] defines the exception classes the gateway raises;
    [router_utils/get_retry_from_policy.py] and
    [Router.get_allowed_fails_from_policy] pick a setting by the class of an
    exception, and [utils._should_retry] decides by status code.  The theorems say
    that the chosen setting is that of the most specific class of the exception's
    ancestry that has one, and that the [InternalServerError] settings are never
    consulted. *)

From stdpp Require Import base list strings.
From Stdlib Require Import ZArith Lia.
From S2P Require Import Prelude.

#[local] Open Scope Z_scope.

Module RetryPolicy.

(** The classes of [exceptions.py]; [OtherException] stands for any class of
    another module. *)
Inductive exn_cls : Type :=
| AuthenticationError | NotFoundError | BadRequestError | ImageFetchError
| UnprocessableEntityError | Timeout | PermissionDeniedError | RateLimitError
| ContextWindowExceededError | RejectedRequestError | ContentPolicyViolationError
| ServiceUnavailableError | BadGatewayError | InternalServerError | APIError
| APIConnectionError | APIResponseValidationError | JSONSchemaValidationError
| UnsupportedParamsError | LiteLLMUnknownProvider | MidStreamFallbackError
| OtherException.

#[export] Instance exn_cls_eq_dec : EqDecision exn_cls.
Proof. solve_decision. Defined.

(** The base class, when it is one of them. *)
Definition parent (c : exn_cls) : option exn_cls :=
  match c with
  | ImageFetchError | ContextWindowExceededError | RejectedRequestError
  | ContentPolicyViolationError | UnsupportedParamsError | LiteLLMUnknownProvider => Some BadRequestError
  | JSONSchemaValidationError => Some APIResponseValidationError
  | MidStreamFallbackError => Some ServiceUnavailableError
  | _ => None
  end.

(** [isinstance(e, k)]; no base class has a base class here. *)
Definition isinstance (c k : exn_cls) : bool :=
  bool_decide (c = k) || bool_decide (parent c = Some k).

(** [RetryPolicy] and [AllowedFailsPolicy] have the same shape: a number per class. *)
Record policy := mkPolicy {
  p_BadRequestError : option Z;
  p_AuthenticationError : option Z;
  p_TimeoutError : option Z;
  p_RateLimitError : option Z;
  p_ContentPolicyViolationError : option Z;
  p_InternalServerError : option Z
}.

Definition reset_retry_policy : policy := mkPolicy None None None None None None.

(** [if isinstance(e, k) and setting is not None: return setting], then the rest. *)
Definition choose (c k : exn_cls) (setting : option Z) (rest : option Z) : option Z :=
  if isinstance c k then match setting with Some n => Some n | None => rest end else rest.

Definition get_num_retries_from_retry_policy (exception : exn_cls) (retry_policy : option policy)
    (model_group : option string) (model_group_retry_policy : option (list (string * policy))) : option Z :=
  let retry_policy :=
    match model_group_retry_policy, model_group with
    | Some ps, Some g => match dget g ps with Some p => Some p | None => retry_policy end
    | _, _ => retry_policy
    end in
  match retry_policy with
  | None => None
  | Some p =>
      choose exception AuthenticationError (p_AuthenticationError p) $
      choose exception Timeout (p_TimeoutError p) $
      choose exception RateLimitError (p_RateLimitError p) $
      choose exception ContentPolicyViolationError (p_ContentPolicyViolationError p) $
      choose exception BadRequestError (p_BadRequestError p) None
  end.

Definition get_allowed_fails_from_policy (allowed_fails_policy : option policy) (exception : exn_cls)
    : option Z :=
  match allowed_fails_policy with
  | None => None
  | Some p =>
      choose exception AuthenticationError (p_AuthenticationError p) $
      choose exception Timeout (p_TimeoutError p) $
      choose exception RateLimitError (p_RateLimitError p) $
      choose exception ContentPolicyViolationError (p_ContentPolicyViolationError p) $
      choose exception BadRequestError (p_BadRequestError p) None
  end.

Definition _should_retry (status_code : Z) : bool :=
  if status_code =? 408 then true
  else if status_code =? 409 then true
  else if status_code =? 429 then true
  else 500 <=? status_code.

(** ** The intended reading of a policy *)

(** The setting a policy has for exactly this class. *)
Definition own_setting (p : policy) (c : exn_cls) : option Z :=
  match c with
  | BadRequestError => p_BadRequestError p
  | AuthenticationError => p_AuthenticationError p
  | Timeout => p_TimeoutError p
  | RateLimitError => p_RateLimitError p
  | ContentPolicyViolationError => p_ContentPolicyViolationError p
  | _ => None
  end.

(** The setting of the most specific class that has one. *)
Definition inherited_setting (p : policy) (c : exn_cls) : option Z :=
  match own_setting p c with Some n => Some n | None => parent c ≫= own_setting p end.

Lemma choose_chain p c :
  (choose c AuthenticationError (p_AuthenticationError p) $
   choose c Timeout (p_TimeoutError p) $
   choose c RateLimitError (p_RateLimitError p) $
   choose c ContentPolicyViolationError (p_ContentPolicyViolationError p) $
   choose c BadRequestError (p_BadRequestError p) None) = inherited_setting p c.
Proof.
  unfold inherited_setting, choose, isinstance. destruct c; simpl;
    repeat match goal with |- context [match ?x with Some _ => _ | None => _ end] => destruct x end; done.
Qed.

(** The number of retries is the setting of the most specific class of the
    exception that the policy has a number for (a content-policy violation falls
    back to the bad-request setting), taken from the model group's policy when the
    group has one; the same holds for the allowed number of failures. *)
Theorem policy_most_specific p c :
  (∀ group groups, dget group groups = Some p →
     ∀ q, get_num_retries_from_retry_policy c q (Some group) (Some groups) = inherited_setting p c) ∧
  (∀ group groups, dget group groups = None →
     get_num_retries_from_retry_policy c (Some p) (Some group) (Some groups) = inherited_setting p c) ∧
  get_num_retries_from_retry_policy c (Some p) None None = inherited_setting p c ∧
  get_allowed_fails_from_policy (Some p) c = inherited_setting p c.
Proof.
  unfold get_num_retries_from_retry_policy, get_allowed_fails_from_policy.
  split_and!; [intros group groups -> q|intros group groups ->| |]; apply choose_chain.
Qed.

(** The [InternalServerErrorRetries] and [InternalServerErrorAllowedFails]
    settings have no effect: whatever they are, the answer for every exception is
    the same, and an internal server error gets none. *)
Theorem internal_server_error_setting_ignored p n c :
  let p' := mkPolicy (p_BadRequestError p) (p_AuthenticationError p) (p_TimeoutError p)
              (p_RateLimitError p) (p_ContentPolicyViolationError p) n in
  get_num_retries_from_retry_policy c (Some p') None None =
    get_num_retries_from_retry_policy c (Some p) None None ∧
  get_allowed_fails_from_policy (Some p') c = get_allowed_fails_from_policy (Some p) c ∧
  get_num_retries_from_retry_policy InternalServerError (Some p') None None = None.
Proof. done. Qed.
End RetryPolicy.
