(* ===== verification/Cooldown.v ===== *)
(** * Cooldown: [router_utils/cooldown_cache.py], [router_utils/cooldown_handlers.py],
    [router_utils/router_callbacks/track_deployment_metrics.py]

    A deployment that fails too much is taken out of rotation for a while.  The
    failure counters and the cooldown entries live in the router's [DualCache] (the
    [CooldownCache] shares it), the legacy failure counter in an [InMemoryCache].
    The module models the whole decision, from an exception status to the entry in
    the cache, and the readers that list the deployments in cooldown.  The event
    callback scheduled after a cooldown is not modelled; scheduling it needs a
    running event loop, which is the parameter [event_loop]. *)

From stdpp Require Import base gmap sets list strings.
From Stdlib Require Import ZArith QArith Lia ZifyBool.
From S2P Require Import Prelude Heapq PyHeapq PyStr InMemoryCache RedisCache DualCache Masker RouterIndex RetryPolicy.

#[local] Open Scope Z_scope.

Module Cooldown.

Definition DEFAULT_COOLDOWN_TIME_SECONDS : Z := seconds 5.
Definition DEFAULT_FAILURE_THRESHOLD_MINIMUM_REQUESTS : Z := 5.
Definition DEFAULT_FAILURE_THRESHOLD_PERCENT : Q := 1 # 2.
Definition SINGLE_DEPLOYMENT_TRAFFIC_FAILURE_THRESHOLD : Z := 1000.

(** The exception status: [Union[str, int]]. *)
Inductive status : Type := SInt (n : Z) | SStr (s : string).

(** The exception: its class and its text. *)
Record exception := mkExn { cls : RetryPolicy.exn_cls; text : string }.

(** The fields of [Router] this component uses.  [cooldown_cache] holds no state of
    its own: its cache is the router's. *)
Record t (R : Type) := mk {
  cache : DualCache.t R;
  failed_calls : InMemoryCache.t;
  index : RouterIndex.t;
  cooldown_time : Z;
  allowed_fails : option Z;
  litellm_allowed_fails : Z;
  allowed_fails_policy : option RetryPolicy.policy;
  disable_cooldowns : bool;
  provider_default_deployment_ids : list string
}.
Arguments mk {R}. Arguments cache {R}. Arguments failed_calls {R}. Arguments index {R}.
Arguments cooldown_time {R}. Arguments allowed_fails {R}. Arguments litellm_allowed_fails {R}.
Arguments allowed_fails_policy {R}. Arguments disable_cooldowns {R}.
Arguments provider_default_deployment_ids {R}.

(** [SensitiveDataMasker(visible_prefix=50, visible_suffix=0, mask_char="*")]. *)
Definition exception_masker : Masker.t := Masker.init None None 50 0 "*".

(** A time or duration as the float the code stores. *)
Definition as_float (z : Z) : pyval := PFloat (z # 1000000).

Section ops.
Context `{PyRuntime} {R : Type} `{RedisCacheI R}.

Definition set_cache_field (c : DualCache.t R) (r : t R) : t R :=
  mk c (failed_calls r) (index r) (cooldown_time r) (allowed_fails r) (litellm_allowed_fails r)
     (allowed_fails_policy r) (disable_cooldowns r) (provider_default_deployment_ids r).
Definition set_failed_calls (c : InMemoryCache.t) (r : t R) : t R :=
  mk (cache r) c (index r) (cooldown_time r) (allowed_fails r) (litellm_allowed_fails r)
     (allowed_fails_policy r) (disable_cooldowns r) (provider_default_deployment_ids r).

Definition on_cache {A} (m : M (DualCache.t R) A) : M (t R) A := m_zoom cache set_cache_field m.
Definition on_failed {A} (m : M InMemoryCache.t A) : M (t R) A := m_zoom failed_calls set_failed_calls m.

(** ** [CooldownCache] *)

Definition get_cooldown_cache_key (model_id : string) : string :=
  "deployment:" +:+ model_id +:+ ":cooldown".

Definition _common_add_cooldown_logic (now : Z) (model_id : string) (original_exception : string)
    (exception_status : Z) (cooldown_time : Z) : string * pyval :=
  (get_cooldown_cache_key model_id,
   PDict [("exception_received", PStr (Masker._mask_value exception_masker original_exception));
          ("status_code", PStr (str_of_Z exception_status));
          ("timestamp", as_float now);
          ("cooldown_time", as_float cooldown_time)]).

Definition add_deployment_to_cooldown (now : Z) (model_id original_exception : string)
    (exception_status : Z) (time : option Z) : M (t R) unit :=
  r ← m_get;
  let _cooldown_time := default (cooldown_time r) time in
  let '(cooldown_key, cooldown_data) :=
    _common_add_cooldown_logic now model_id original_exception exception_status _cooldown_time in
  on_cache (DualCache.set_cache now cooldown_key cooldown_data false (Some (Some _cooldown_time))).

(** [if result and isinstance(result, dict)]. *)
Definition active_entry (p : string * pyval) : option (string * pyval) :=
  match p.2 with PDict (kv :: d) => Some (p.1, PDict (kv :: d)) | _ => None end.

Definition async_get_active_cooldowns (now : Z) (model_ids : list string)
    : M (t R) (list (string * pyval)) :=
  results ← on_cache (DualCache.async_batch_get_cache now (get_cooldown_cache_key <$> model_ids) false None);
  match results with
  | None => mret []
  | Some l => if forallb is_none l then mret [] else mret (omap active_entry (zip model_ids l))
  end.

Definition get_active_cooldowns (now : Z) (model_ids : list string) : M (t R) (list (string * pyval)) :=
  results ← on_cache (DualCache.batch_get_cache now (get_cooldown_cache_key <$> model_ids) false None);
  mret (omap active_entry (zip model_ids (default [] results))).

(** The smallest [cooldown_time] of the entries; [PNone] before the first. *)
Fixpoint min_loop (entries : list (string * pyval)) (acc : pyval) : res pyval :=
  match entries with
  | [] => Ok acc
  | (_, v) :: rest =>
      x ← py_index v "cooldown_time";
      if is_none acc then min_loop rest x
      else b ← py_lt x acc; min_loop rest (if b : bool then x else acc)
  end.

Definition get_min_cooldown (now : Z) (model_ids : list string) : M (t R) pyval :=
  entries ← get_active_cooldowns now model_ids;
  m ← m_lift (min_loop entries PNone);
  r ← m_get;
  mret (py_or m (as_float (cooldown_time r))).

(** ** [track_deployment_metrics] *)

Definition increment_deployment_successes_for_current_minute (now : Z) (deployment_id : string)
    : M (t R) string :=
  let key := deployment_id +:+ ":successes" in
  on_cache (DualCache.increment_cache now key (PInt 1) true (Some (Some (seconds 60)))) ;;
  mret key.

Definition increment_deployment_failures_for_current_minute (now : Z) (deployment_id : string)
    : M (t R) unit :=
  on_cache (DualCache.increment_cache now (deployment_id +:+ ":fails") (PInt 1) true
             (Some (Some (seconds 60)))) ;;
  mret ().

Definition get_deployment_successes_for_current_minute (now : Z) (deployment_id : string) : M (t R) pyval :=
  v ← on_cache (DualCache.get_cache now (deployment_id +:+ ":successes") true None);
  mret (py_or v (PInt 0)).

Definition get_deployment_failures_for_current_minute (now : Z) (deployment_id : string) : M (t R) pyval :=
  v ← on_cache (DualCache.get_cache now (deployment_id +:+ ":fails") true None);
  mret (py_or v (PInt 0)).

(** ** [cooldown_handlers] *)

Definition cooldown_for_code (n : Z) : bool :=
  if (400 <=? n) && (n <? 500) then
    if n =? 429 then true else if n =? 401 then true else if n =? 408 then true else n =? 404
  else true.

(** A status that is not a number counts as requiring a cooldown. *)
Definition _is_cooldown_required (exception_status : status) (exception_str : option string) : bool :=
  if match exception_str with Some s => str_contains "APIConnectionError" s | None => false end then false
  else
    match exception_status with
    | SStr "" => false
    | SStr s => match int_of_str s with Some n => cooldown_for_code n | None => true end
    | SInt n => cooldown_for_code n
    end.

Definition cast_exception_status_to_int (exception_status : status) : Z :=
  match exception_status with SInt n => n | SStr s => default 500 (int_of_str s) end.

Definition _is_allowed_fails_set_on_router (r : t R) : bool :=
  match allowed_fails r with None => false | Some n => negb (n =? litellm_allowed_fails r) end.

Section handlers.
(** The wildcard router, see [RouterIndex]. *)
Variable pattern_route : string → list RouterIndex.deployment.
Variable team_pattern_route : string → string → list RouterIndex.deployment.

Definition get_model_group (id : string) : M (t R) (option (list RouterIndex.deployment)) := λ r,
  (RouterIndex.get_model_group pattern_route team_pattern_route id (index r), r).

(** [math.isclose(time, 0.0, abs_tol=1e-9)] holds of no other number of
    microseconds than 0. *)
Definition _should_run_cooldown_logic (deployment : option string) (exception_status : status)
    (original_exception : exception) (time_to_cooldown : option Z) : M (t R) bool :=
  match deployment with
  | None => mret false
  | Some id =>
      group ← get_model_group id;
      match group with
      | None => mret false
      | Some _ =>
          if match time_to_cooldown with Some d => d =? 0 | None => false end then mret false else
          r ← m_get;
          if disable_cooldowns r then mret false
          else if negb (_is_cooldown_required exception_status (Some (text original_exception)))
          then mret false
          else mret (negb (bool_decide (id ∈ provider_default_deployment_ids r)))
      end
  end.

Definition should_cooldown_based_on_allowed_fails_policy (now : Z) (deployment : string)
    (original_exception : exception) : M (t R) bool :=
  r ← m_get;
  let from_policy := RetryPolicy.get_allowed_fails_from_policy (allowed_fails_policy r)
                       (cls original_exception) in
  let allowed := match from_policy with
                 | Some n => if n =? 0 then allowed_fails r else Some n
                 | None => allowed_fails r
                 end in
  let time := if cooldown_time r =? 0 then DEFAULT_COOLDOWN_TIME_SECONDS else cooldown_time r in
  current ← on_failed (InMemoryCache.get_cache now deployment);
  updated_fails ← m_lift (py_add (py_or current (PInt 0)) (PInt 1));
  match allowed, as_num updated_fails with
  | Some n, Some u =>
      if Qle_bool u (inject_Z n) then
        on_failed (InMemoryCache.set_cache now deployment updated_fails (Some (Some time))) ;;
        mret false
      else mret true
  | _, _ => m_raise TypeError
  end.

(** The counters of the current minute, as numbers. *)
Definition as_count (v : pyval) : res Q :=
  match as_num v with Some q => Ok q | None => Raise TypeError end.

(** The decision from the counters and the status. *)
Definition cooldown_decision (single : bool) (status_int : Z) (successes fails : Q) : bool :=
  let total := Qplus successes fails in
  let percent_fails := if negb (Qle_bool total 0) then Qdiv fails total else 0%Q in
  if (status_int =? 429) && negb single then true
  else if Qeq_bool percent_fails 1
          && Qle_bool (inject_Z SINGLE_DEPLOYMENT_TRAFFIC_FAILURE_THRESHOLD) total then true
  else if negb (Qle_bool percent_fails DEFAULT_FAILURE_THRESHOLD_PERCENT)
          && Qle_bool (inject_Z DEFAULT_FAILURE_THRESHOLD_MINIMUM_REQUESTS) total
          && negb single then true
  else negb (RetryPolicy._should_retry status_int).

Definition _should_cooldown_deployment (now : Z) (deployment : string) (exception_status : status)
    (original_exception : exception) : M (t R) bool :=
  group ← get_model_group deployment;
  let single := match group with Some [_] => true | _ => false end in
  r ← m_get;
  if match allowed_fails_policy r with None => true | Some _ => false end
     && negb (_is_allowed_fails_set_on_router r) then
    v ← get_deployment_successes_for_current_minute now deployment;
    w ← get_deployment_failures_for_current_minute now deployment;
    successes ← m_lift (as_count v);
    fails ← m_lift (as_count w);
    mret (cooldown_decision single (cast_exception_status_to_int exception_status) successes fails)
  else should_cooldown_based_on_allowed_fails_policy now deployment original_exception.

Definition _set_cooldown_deployments (event_loop : bool) (now : Z) (original_exception : exception)
    (exception_status : status) (deployment : option string) (time_to_cooldown : option Z)
    : M (t R) bool :=
  run ← _should_run_cooldown_logic deployment exception_status original_exception time_to_cooldown;
  match run, deployment with
  | true, Some id =>
      b ← _should_cooldown_deployment now id exception_status original_exception;
      if b : bool then
        add_deployment_to_cooldown now id (text original_exception)
          (cast_exception_status_to_int exception_status) time_to_cooldown ;;
        if event_loop then mret true else m_raise RuntimeError
      else mret false
  | _, _ => mret false
  end.

(** ** The deployments in cooldown *)

Definition _async_get_cooldown_deployments (now : Z) : M (t R) (list string) :=
  r ← m_get;
  model_ids ← m_lift (RouterIndex.get_model_ids None false (index r));
  cooldown_models ← async_get_active_cooldowns now model_ids;
  mret (cooldown_models.*1).

Definition _async_get_cooldown_deployments_with_debug_info (now : Z)
    : M (t R) (list (string * pyval)) :=
  r ← m_get;
  model_ids ← m_lift (RouterIndex.get_model_ids None false (index r));
  async_get_active_cooldowns now model_ids.

Definition _get_cooldown_deployments (now : Z) : M (t R) (list string) :=
  r ← m_get;
  model_ids ← m_lift (RouterIndex.get_model_ids None false (index r));
  cooldown_models ← get_active_cooldowns now model_ids;
  mret (cooldown_models.*1).
End handlers.
End ops.

(** ** Which errors count *)

(** Which errors may cool a deployment down: a 4xx status only if it is 401,
    404, 408 or 429, any other number always, a text that is not a number always,
    and nothing when the status is empty or the error is an [APIConnectionError]. *)
Theorem cooldown_required_table n s text :
  str_contains "APIConnectionError" text = false →
  (_is_cooldown_required (SInt n) (Some text) = true ↔
     ¬ (400 ≤ n < 500) ∨ n ∈ [401; 404; 408; 429]) ∧
  (int_of_str s = None → s ≠ "" → _is_cooldown_required (SStr s) (Some text) = true) ∧
  _is_cooldown_required (SStr "") (Some text) = false ∧
  ∀ st text', str_contains "APIConnectionError" text' = true →
    _is_cooldown_required st (Some text') = false.
Proof.
  intros Hc. unfold _is_cooldown_required. rewrite Hc. split_and!.
  - rewrite !elem_of_cons, elem_of_nil. unfold cooldown_for_code.
    destruct (Z.leb_spec 400 n), (Z.ltb_spec n 500); simpl; try (split; [lia|done]).
    destruct (Z.eqb_spec n 429), (Z.eqb_spec n 401), (Z.eqb_spec n 408), (Z.eqb_spec n 404); simpl; naive_solver lia.
  - intros Hn Hs. destruct s; [done|]. by rewrite Hn.
  - done.
  - by intros st text' ->.
Qed.

Lemma cooldown_required_table_witness :
  _is_cooldown_required (SInt 429) (Some "RateLimitError") = true.
Proof. apply (cooldown_required_table 429 "" "RateLimitError" eq_refl). right. set_solver. Defined.

Lemma if_orb (a b : bool) : (if a then true else b) = a || b.
Proof. done. Qed.

(** The share of failures, compared in integers. *)
Lemma Qdiv_eq_1 (s f : Z) : 0 < s + f → Qeq_bool (Qdiv (inject_Z f) (Qplus (inject_Z s) (inject_Z f))) 1 = (s =? 0).
Proof.
  intros Ht. apply eq_true_iff_eq. rewrite Qeq_bool_iff, Z.eqb_eq, <-inject_Z_plus.
  destruct (s + f) as [|p|p] eqn:E; [lia| |lia]. unfold Qeq, Qdiv, Qmult, Qinv. simpl. lia.
Qed.

Lemma Qdiv_gt_half (s f : Z) :
  0 < s + f →
  negb (Qle_bool (Qdiv (inject_Z f) (Qplus (inject_Z s) (inject_Z f))) DEFAULT_FAILURE_THRESHOLD_PERCENT)
    = (s <? f).
Proof.
  intros Ht. apply eq_true_iff_eq.
  rewrite negb_true_iff, <-not_true_iff_false, Qle_bool_iff, Z.ltb_lt, <-inject_Z_plus.
  destruct (s + f) as [|p|p] eqn:E; [lia| |lia]. unfold Qle, Qdiv, Qmult, Qinv. simpl. lia.
Qed.

(** The decision from the counters of the current minute: a deployment of a
    group with alternatives cools down on a 429, or when at least 5 requests were
    counted and more failed than succeeded; any deployment cools down when at least
    1000 requests were counted and all failed, or on a status that must not be
    retried. *)
Theorem cooldown_decision_counters single code s f :
  0 ≤ s → 0 ≤ f →
  cooldown_decision single code (inject_Z s) (inject_Z f) = true ↔
    (single = false ∧ (code = 429 ∨ (s < f ∧ 5 ≤ s + f))) ∨ (s = 0 ∧ 1000 ≤ f) ∨
    RetryPolicy._should_retry code = false.
Proof.
  intros Hs Hf. unfold cooldown_decision.
  assert (Hle : ∀ n, Qle_bool (inject_Z n) (Qplus (inject_Z s) (inject_Z f)) = (n <=? s + f)).
  { intros n. rewrite <-inject_Z_plus. unfold Qle_bool. simpl. by rewrite !Z.mul_1_r. }
  assert (Hpos : negb (Qle_bool (Qplus (inject_Z s) (inject_Z f)) 0) = (0 <? s + f)).
  { rewrite <-inject_Z_plus. unfold Qle_bool. simpl. lia. }
  rewrite !Hle, Hpos. unfold SINGLE_DEPLOYMENT_TRAFFIC_FAILURE_THRESHOLD, DEFAULT_FAILURE_THRESHOLD_MINIMUM_REQUESTS.
  destruct (Z.ltb_spec 0 (s + f)).
  - rewrite Qdiv_eq_1, Qdiv_gt_half by done. rewrite !if_orb.
    destruct (RetryPolicy._should_retry code), single; lia.
  - assert (s = 0 ∧ f = 0) as [-> ->] by lia. rewrite !if_orb.
    change (Qeq_bool 0 1) with false. change (Qle_bool 0 DEFAULT_FAILURE_THRESHOLD_PERCENT) with true.
    destruct (RetryPolicy._should_retry code), single; lia.
Qed.

Lemma cooldown_decision_counters_witness : cooldown_decision false 500 (inject_Z 2) (inject_Z 3) = true.
Proof. apply (cooldown_decision_counters false 500 2 3); lia. Defined.

(** ** From the decision to the list of deployments in cooldown *)

Section listing.
Context `{PyRuntime} {R : Type} `{RedisCacheI R}.
Variable pattern_route : string → list RouterIndex.deployment.
Variable team_pattern_route : string → string → list RouterIndex.deployment.
Implicit Types r : t R.

Definition im r : InMemoryCache.t := DualCache.in_memory_cache (cache r).

(** What the decision made at [now] leaves of the router [r0] it started from: reading
    the counters only drops entries that have expired. *)
Record after_reads (now : Z) (r0 r : t R) : Prop := {
  ar_wf : InMemoryCache.wf (im r);
  ar_cfg : InMemoryCache.cfg (im r) = InMemoryCache.cfg (im r0);
  ar_ttl : InMemoryCache.ttl_dict (im r) ⊆ InMemoryCache.ttl_dict (im r0);
  ar_live k e : InMemoryCache.ttl_dict (im r0) !! k = Some e → now ≤ e → InMemoryCache.ttl_dict (im r) !! k = Some e;
  ar_redis : DualCache.redis_cache (cache r) = DualCache.redis_cache (cache r0);
  ar_index : index r = index r0;
  ar_time : cooldown_time r = cooldown_time r0
}.

Lemma after_reads_refl now r : InMemoryCache.wf (im r) → after_reads now r r.
Proof. by split. Qed.

Lemma on_failed_reads now r0 {A} (m : M InMemoryCache.t A) : preserves (after_reads now r0) (on_failed m).
Proof. intros r Hr. unfold on_failed, m_zoom. destruct (m (failed_calls r)). by destruct Hr. Qed.

Lemma get_local_reads r0 now key :
  preserves (after_reads now r0) (on_cache (DualCache.get_cache now key true None)).
Proof.
  intros r [Hw Hc Ht Hl Hr Hi Htm]. unfold on_cache, m_zoom. rewrite DualCache.get_cache_local. simpl.
  destruct (InMemoryCache.get_cache_preserves (InMemoryCache.cfg (im r0)) now key (im r)) as [Hw' Hc'];
    [by split|].
  destruct (InMemoryCache.get_cache_live now key (im r)) as (_ & _ & Hs).
  split; simpl; try done; [by trans (InMemoryCache.ttl_dict (im r))|].
  intros k e Hk Hle. apply InMemoryCache.get_cache_keeps_live; eauto.
Qed.

Lemma get_model_group_reads now r0 id :
  preserves (after_reads now r0) (get_model_group pattern_route team_pattern_route id).
Proof. by intros r Hr. Qed.

Hint Resolve on_failed_reads get_local_reads get_model_group_reads : pydb.

Lemma should_run_reads now r0 dep st e tm :
  preserves (after_reads now r0)
    (_should_run_cooldown_logic pattern_route team_pattern_route dep st e tm).
Proof. unfold _should_run_cooldown_logic. preserves_tac. Qed.

Lemma should_cooldown_reads r0 now id st e :
  preserves (after_reads now r0)
    (_should_cooldown_deployment pattern_route team_pattern_route now id st e).
Proof.
  unfold _should_cooldown_deployment, should_cooldown_based_on_allowed_fails_policy,
    get_deployment_successes_for_current_minute, get_deployment_failures_for_current_minute.
  preserves_tac.
Qed.

(** The expiry of a cooldown of length [d] set at [now]: a deployment that is cooling
    already keeps the one it has. *)
Definition cooling_until (now d : Z) (id : string) r : Z :=
  match InMemoryCache.ttl_dict (im r) !! get_cooldown_cache_key id with
  | Some old => if now <=? old then old else now + d
  | None => now + d
  end.

Lemma cooling_until_after_reads now d id r0 r :
  after_reads now r0 r → cooling_until now d id r = cooling_until now d id r0.
Proof.
  intros [_ _ Ht Hl _ _ _]. unfold cooling_until.
  destruct (InMemoryCache.ttl_dict (im r0) !! _) as [old|] eqn:E0.
  - destruct (Z.leb_spec now old) as [Hle|Hlt]; [rewrite (Hl _ _ E0 Hle); by rewrite (proj2 (Z.leb_le _ _) Hle)|].
    destruct (InMemoryCache.ttl_dict (im r) !! _) as [x|] eqn:E; [|done].
    pose proof (lookup_weaken _ _ _ _ E Ht) as E'. rewrite E0 in E'. injection E' as <-.
    by rewrite (proj2 (Z.leb_gt _ _) Hlt).
  - destruct (InMemoryCache.ttl_dict (im r) !! _) as [x|] eqn:E; [|done].
    pose proof (lookup_weaken _ _ _ _ E Ht) as E'. congruence.
Qed.

Lemma room_after_reads now r0 r :
  InMemoryCache.wf (im r0) → after_reads now r0 r →
  Z.of_nat (size (InMemoryCache.cache_dict (im r0))) < InMemoryCache.max_size_in_memory (im r0) →
  Z.of_nat (size (InMemoryCache.cache_dict (im r))) < InMemoryCache.max_size_in_memory (im r).
Proof.
  intros Hw0 [Hw Hc Ht _ _ _ _] Hroom. injection Hc as -> _ _.
  pose proof (map_subseteq_size _ _ Ht) as Hs.
  rewrite <-!(size_dom (M := gmap string) (D := gset string)) in *.
  rewrite (InMemoryCache.core_dom _ (InMemoryCache.wf_core _ Hw)).
  rewrite (InMemoryCache.core_dom _ (InMemoryCache.wf_core _ Hw0)) in Hroom. lia.
Qed.

(** Without Redis the readers list the known deployments with a live entry. *)
Definition cooling (now : Z) (id : string) r : bool :=
  match InMemoryCache.live_value now (get_cooldown_cache_key id) (im r) with
  | PDict (_ :: _) => true
  | _ => false
  end.

Lemma active_entries_fst now r ids :
  (omap active_entry
    (zip ids ((λ k, InMemoryCache.live_value now k (im r)) <$> (get_cooldown_cache_key <$> ids)))).*1
  = filter (λ id, cooling now id r = true) ids.
Proof.
  induction ids as [|id ids IH]; [done|]. rewrite filter_cons, !fmap_cons. cbn [zip zip_with].
  assert (active_entry (id, InMemoryCache.live_value now (get_cooldown_cache_key id) (im r)) =
          if cooling now id r then Some (id, InMemoryCache.live_value now (get_cooldown_cache_key id) (im r))
          else None) as E.
  { unfold cooling, active_entry. simpl. by destruct (InMemoryCache.live_value _ _ _) as [| | | | | | | |[]|]. }
  cbn [omap list_omap]. rewrite E. destruct (cooling now id r); case_decide; try done.
  rewrite fmap_cons. f_equal. apply IH.
Qed.

Lemma cooldown_deployments_listed now r :
  RouterIndex.wf (index r) → DualCache.redis_cache (cache r) = None →
  let listed := filter (λ id, cooling now id r = true)
                  (dkeys (RouterIndex.model_id_to_deployment_index_map (index r))) in
  (_get_cooldown_deployments now r).1 = Ok listed ∧ (_async_get_cooldown_deployments now r).1 = Ok listed.
Proof.
  intros Hw Hr. set (ids := dkeys (RouterIndex.model_id_to_deployment_index_map (index r))).
  pose proof (DualCache.batch_get_no_redis now (get_cooldown_cache_key <$> ids) false None (cache r) Hr) as Eb.
  pose proof (active_entries_fst now r ids) as Ef. unfold im in Ef.
  unfold _get_cooldown_deployments, _async_get_cooldown_deployments, get_active_cooldowns,
    async_get_active_cooldowns, mbind, M_bind, m_get, m_lift, on_cache, m_zoom.
  rewrite (RouterIndex.get_model_ids_all _ Hw). fold ids. unfold DualCache.batch_get_cache.
  destruct (DualCache.async_batch_get_cache now (get_cooldown_cache_key <$> ids) false None (cache r))
    as [x c']. simpl in Eb. subst x. simpl. split; [by f_equal|].
  destruct (forallb is_none _) eqn:Ea; simpl; [|by f_equal]. f_equal. rewrite <-Ef. clear -Ea.
  induction ids as [|id ids IH]; [done|]. rewrite !fmap_cons in *. cbn [forallb] in Ea.
  apply andb_true_iff in Ea as [E1 E2]. cbn [zip zip_with omap list_omap active_entry snd fst].
  destruct (InMemoryCache.live_value now (get_cooldown_cache_key id) _); try done. by apply IH.
Qed.

(** The write of a cooldown entry to a cache with room. *)
Lemma add_to_cooldown_entry now id txt code tm r :
  InMemoryCache.wf (im r) →
  Z.of_nat (size (InMemoryCache.cache_dict (im r))) < InMemoryCache.max_size_in_memory (im r) →
  DualCache.redis_cache (cache r) = None →
  let d := default (cooldown_time r) tm in
  let data := (_common_add_cooldown_logic now id txt code d).2 in
  InMemoryCache.check_value_size (im r) data = true →
  ∃ r', add_deployment_to_cooldown now id txt code tm r = (Ok (), r') ∧
    DualCache.redis_cache (cache r') = None ∧ index r' = index r ∧
    InMemoryCache.cache_dict (im r') !! get_cooldown_cache_key id = Some data ∧
    InMemoryCache.ttl_dict (im r') !! get_cooldown_cache_key id = Some (cooling_until now d id r).
Proof.
  intros Hw Hroom Hr d data Hsz.
  assert (InMemoryCache.max_size_in_memory (im r) ≠ 0) as Hm by lia.
  destruct (InMemoryCache.set_cache_entry now (get_cooldown_cache_key id) data (Some (Some d)) _ Hw Hm Hsz)
    as (Ev & _).
  pose proof (InMemoryCache.set_cache_expiry now (get_cooldown_cache_key id) data (Some (Some d)) _ Hw Hm Hsz) as Ee.
  unfold InMemoryCache.kept_or_new, InMemoryCache.met in Ee. rewrite (proj2 (Z.leb_gt _ _) Hroom) in Ee.
  pose proof (InMemoryCache.set_cache_ok now (get_cooldown_cache_key id) data (Some (Some d)) _ Hw) as Hok.
  destruct (InMemoryCache.set_cache now (get_cooldown_cache_key id) data (Some (Some d)) (im r))
    as [x im'] eqn:E. simpl in *. subst x.
  exists (set_cache_field (DualCache.set_im im' (cache r)) r). split_and!; try done.
  unfold add_deployment_to_cooldown, mbind, M_bind, m_get, on_cache, m_zoom. simpl.
  by rewrite (DualCache.set_cache_no_redis now (get_cooldown_cache_key id) data false (Some (Some d))
    (cache r) im' Hr E).
Qed.

(** C35: Without Redis and with room in the in-memory cache (for one more entry, and for
    an entry of this size), a deployment the router knows that
    [_set_cooldown_deployments] puts in cooldown is listed as cooling, in the router
    it leaves and by the synchronous and the asynchronous reader alike, up to its
    expiry and not after, and the readers never fail.  The expiry is the one it
    has already if the deployment is cooling at the time, and the cooldown time (of
    the call, else of the router) after the call otherwise. *)
Theorem cooldown_listed_until_expiry aliases loop now e st id tm r r' :
  RouterIndex.reachable aliases (index r) → RouterIndex.has_model_id id (index r) = true →
  DualCache.redis_cache (cache r) = None → InMemoryCache.wf (im r) →
  Z.of_nat (size (InMemoryCache.cache_dict (im r))) < InMemoryCache.max_size_in_memory (im r) →
  let d := default (cooldown_time r) tm in
  InMemoryCache.check_value_size (im r)
    (_common_add_cooldown_logic now id (text e) (cast_exception_status_to_int st) d).2 = true →
  _set_cooldown_deployments pattern_route team_pattern_route loop now e st (Some id) tm r = (Ok true, r') →
  ∀ now', ∃ l, (_get_cooldown_deployments now' r').1 = Ok l ∧
    (_async_get_cooldown_deployments now' r').1 = Ok l ∧ (id ∈ l ↔ now' ≤ cooling_until now d id r).
Proof.
  intros Hreach%RouterIndex.reachable_wf Hknown Hr Hw Hroom d Hsz Hset.
  unfold _set_cooldown_deployments, mbind, M_bind in Hset.
  pose proof (should_run_reads now r (Some id) st e tm r (after_reads_refl now r Hw)) as H1.
  destruct (_should_run_cooldown_logic _ _ _ _ _ _ r) as [[[]|?] r1]; simplify_eq/=.
  pose proof (should_cooldown_reads r now id st e r1 H1) as H2.
  destruct (_should_cooldown_deployment _ _ _ _ _ _ r1) as [[[]|?] r2]; simplify_eq/=.
  pose proof (cooling_until_after_reads now d id _ _ H2) as Hu.
  pose proof (room_after_reads now _ _ Hw H2 Hroom) as Hroom2. destruct H2 as [Hw2 Hc2 _ _ Hr2 Hi2 Htm2].
  edestruct (add_to_cooldown_entry now id (text e) (cast_exception_status_to_int st) tm r2)
    as (r3 & E3 & Hr3 & Hi3 & Hv & He); [done|done|congruence| |].
  { rewrite Htm2. fold d. rewrite (InMemoryCache.check_value_size_cfg _ (im r)) by done. exact Hsz. }
  rewrite Htm2 in He. fold d in He. rewrite Hu in He. rewrite E3 in Hset. destruct loop; [|done]. injection Hset as <-.
  intros now'. rewrite <-Hi2, <-Hi3 in Hreach.
  destruct (cooldown_deployments_listed now' r3 Hreach Hr3) as [Es Ea]. eexists. split_and!; [done..|].
  rewrite list_elem_of_filter. rewrite Hi3, Hi2. unfold cooling, InMemoryCache.live_value.
  rewrite Hv. unfold InMemoryCache._is_key_expired. rewrite He.
  unfold RouterIndex.has_model_id, dmem in Hknown.
  destruct (dget id (RouterIndex.model_id_to_deployment_index_map (index r))) as [i|] eqn:Eg; [|done].
  assert (id ∈ dkeys (RouterIndex.model_id_to_deployment_index_map (index r))) as Hin.
  { apply dget_Some_in in Eg. by apply (list_elem_of_fmap_2 fst) in Eg. }
  destruct (Z.ltb_spec (cooling_until now d id r) now'); simpl; split; try done; [by intros []|lia].
Qed.

(** ** The legacy failure count *)

Section counting.
Variables (r0 : t R) (now0 n : Z) (id : string) (e : exception).
Hypothesis Hn : 0 ≤ n.
Hypothesis Hpolicy : RetryPolicy.get_allowed_fails_from_policy (allowed_fails_policy r0) (cls e) = None.
Hypothesis Htime : 0 < cooldown_time r0.
Hypothesis Hmax : InMemoryCache.max_size_in_memory (failed_calls r0) ≠ 0.
Hypothesis Hsize : ∀ k c, InMemoryCache.cfg c = InMemoryCache.cfg (failed_calls r0) →
                     InMemoryCache.check_value_size c (PInt k) = true.

(** [j] failures are recorded for the deployment. *)
Definition recorded (j : Z) (c : InMemoryCache.t) : Prop :=
  InMemoryCache.wf c ∧ InMemoryCache.cfg c = InMemoryCache.cfg (failed_calls r0) ∧
  if j =? 0 then InMemoryCache.cache_dict c !! id = None
  else InMemoryCache.cache_dict c !! id = Some (PInt j) ∧
       ∃ x, InMemoryCache.ttl_dict c !! id = Some x ∧ now0 + cooldown_time r0 ≤ x.

Lemma recorded_get j now c :
  recorded j c → now ≤ now0 + cooldown_time r0 →
  ∃ v, InMemoryCache.get_cache now id c = (Ok v, c) ∧ py_or v (PInt 0) = PInt j.
Proof.
  intros (Hw & Hc & Hj) Hle. unfold InMemoryCache.get_cache. destruct (Z.eqb_spec j 0) as [->|Hne].
  - rewrite Hj. eauto.
  - destruct Hj as [Hv (x & Hx & Hle')]. rewrite Hv.
    unfold InMemoryCache.evict_element_if_expired, InMemoryCache._is_key_expired. rewrite Hx.
    destruct (Z.ltb_spec x now); [lia|]. rewrite Hv. eexists. split; [done|].
    unfold py_or. simpl. by destruct (Z.eqb_spec j 0).
Qed.

Lemma recorded_set j now c :
  recorded j c → 0 ≤ j → now0 ≤ now →
  ∃ c', InMemoryCache.set_cache now id (PInt (j + 1)) (Some (Some (cooldown_time r0))) c = (Ok (), c') ∧
    recorded (j + 1) c'.
Proof.
  intros (Hw & Hc & Hj) Hj0 Hle.
  assert (InMemoryCache.max_size_in_memory c ≠ 0) as Hm.
  { injection Hc as Hc _ _. by rewrite Hc. }
  destruct (InMemoryCache.set_cache_entry now id (PInt (j + 1)) (Some (Some (cooldown_time r0))) c Hw Hm
    (Hsize _ _ Hc)) as (Ev & x & Ex & Hor).
  pose proof (InMemoryCache.set_cache_ok now id (PInt (j + 1)) (Some (Some (cooldown_time r0))) c Hw) as Hok.
  pose proof (InMemoryCache.set_cache_wf now id (PInt (j + 1)) (Some (Some (cooldown_time r0))) c Hw) as Hw'.
  pose proof (InMemoryCache.set_cache_cfg now id (PInt (j + 1)) (Some (Some (cooldown_time r0))) c Hw) as Hc'.
  destruct (InMemoryCache.set_cache now id (PInt (j + 1)) _ c) as [o c'] eqn:E. simpl in *. subst o.
  exists c'. split; [done|]. split_and!; [done|congruence|].
  destruct (Z.eqb_spec (j + 1) 0); [lia|]. split; [done|]. exists x. split; [done|].
  destruct Hor as [->|[Ho _]]; [simpl; lia|].
  destruct (Z.eqb_spec j 0) as [->|].
  - apply elem_of_dom_2 in Ho. rewrite <-(InMemoryCache.core_dom _ (InMemoryCache.wf_core _ Hw)) in Ho.
    apply elem_of_dom in Ho as [? ?]. congruence.
  - destruct Hj as [_ (x' & Hx' & ?)]. congruence.
Qed.

(** The router after some of the calls: only the counter may have changed. *)
Definition counting (j : Z) r : Prop :=
  recorded j (failed_calls r) ∧ allowed_fails r = Some n ∧
  allowed_fails_policy r = allowed_fails_policy r0 ∧ cooldown_time r = cooldown_time r0.

Lemma count_step j now r :
  counting j r → 0 ≤ j → now0 ≤ now ≤ now0 + cooldown_time r0 →
  ∃ r', should_cooldown_based_on_allowed_fails_policy now id e r = (Ok (negb (j + 1 <=? n)), r') ∧
    counting (if j + 1 <=? n then j + 1 else j) r'.
Proof.
  intros (Hrec & Ha & Hp & Ht) Hj [Hlo Hhi].
  destruct (recorded_get j now _ Hrec Hhi) as (v & Eg & Ev).
  unfold should_cooldown_based_on_allowed_fails_policy, mbind, M_bind, m_get, on_failed, m_zoom, m_lift.
  rewrite Ha, Hp, Ht, Hpolicy, Eg, Ev. simpl.
  destruct (Z.eqb_spec (cooldown_time r0) 0); [lia|].
  unfold Qle_bool. simpl. rewrite !Z.mul_1_r. destruct (Z.leb_spec (j + 1) n); simpl.
  - destruct (recorded_set j now _ Hrec Hj Hlo) as (c' & Es & Hrec'). rewrite Es. eexists. by split.
  - eexists. split; [done|]. by split.
Qed.

Lemma count_run times k j r :
  counting j r → (j = Z.of_nat k ∧ j ≤ n ∨ j = n ∧ n ≤ Z.of_nat k) →
  Forall (λ x, now0 ≤ x ≤ now0 + cooldown_time r0) times →
  (m_map (λ now, should_cooldown_based_on_allowed_fails_policy now id e) times r).1
    = Ok ((λ i, negb (Z.of_nat i <=? n)) <$> seq (S k) (length times)).
Proof.
  intros Hc Hk Ht. revert k j r Hc Hk. induction Ht as [|now times Hnow Ht IH]; intros k j r Hc Hk; [done|].
  destruct (count_step j now r Hc) as (r' & E & Hc'); [lia|done|].
  cbn [m_map length seq]. rewrite fmap_cons. unfold mbind, M_bind. rewrite E.
  specialize (IH (S k) _ r' Hc').
  destruct (m_map _ times r') as [o r'']. simpl in IH |- *. rewrite IH.
  - simpl. do 2 f_equal. f_equal. lia.
  - destruct (Z.leb_spec (j + 1) n); lia.
Qed.
End counting.

(** Failure counting.  With [allowed_fails] set to [n] for the router (and no
    setting of a policy for the exception), failures of a deployment within one
    cooldown window are counted exactly: the calls up to the [n]-th are let
    pass, every later one cools the deployment down. *)
Theorem allowed_fails_exact now0 n id e r times :
  allowed_fails r = Some n → 0 ≤ n →
  RetryPolicy.get_allowed_fails_from_policy (allowed_fails_policy r) (cls e) = None →
  0 < cooldown_time r →
  InMemoryCache.wf (failed_calls r) → InMemoryCache.max_size_in_memory (failed_calls r) ≠ 0 →
  (∀ k c, InMemoryCache.cfg c = InMemoryCache.cfg (failed_calls r) →
     InMemoryCache.check_value_size c (PInt k) = true) →
  InMemoryCache.cache_dict (failed_calls r) !! id = None →
  Forall (λ x, now0 ≤ x ≤ now0 + cooldown_time r) times →
  (m_map (λ now, should_cooldown_based_on_allowed_fails_policy now id e) times r).1
    = Ok ((λ k, negb (Z.of_nat k <=? n)) <$> seq 1 (length times)).
Proof.
  intros Ha Hn Hp Ht Hw Hm Hsz Hnone Htimes.
  apply (count_run r now0 n id e Hn Hp Ht Hm Hsz times 0 0 r); [by split|lia|done].
Qed.

(** A policy that allows 0 failures of some class is taken for no policy: the
    decision is the one made with the router's [allowed_fails]. *)
Theorem zero_allowed_fails_ignored now id e r p :
  allowed_fails_policy r = Some p →
  RetryPolicy.get_allowed_fails_from_policy (Some p) (cls e) = Some 0 →
  (should_cooldown_based_on_allowed_fails_policy now id e r).1 =
    (should_cooldown_based_on_allowed_fails_policy now id e
      (mk (cache r) (failed_calls r) (index r) (cooldown_time r) (allowed_fails r)
          (litellm_allowed_fails r) None (disable_cooldowns r) (provider_default_deployment_ids r))).1.
Proof.
  intros Hp Hz. unfold should_cooldown_based_on_allowed_fails_policy, mbind, M_bind, m_get, on_failed, m_zoom.
  rewrite Hp, Hz. simpl. destruct (InMemoryCache.get_cache now id (failed_calls r)) as [[v|x] c]; [|done].
  simpl. unfold m_lift. destruct (py_add _ _) as [u|x]; [|done].
  destruct (allowed_fails r), (as_num u) as [q|]; try done. destruct (Qle_bool q _); [|done]. simpl.
  by destruct (InMemoryCache.set_cache _ _ _ _ c) as [[]].
Qed.
End listing.

(** ** Concrete runs *)

Section examples.
#[local] Existing Instance toy_runtime.
#[local] Existing Instance RedisCache.toy_client.
#[local] Existing Instance RedisCache.RedisCache_instance.

Definition no_route (name : string) : list RouterIndex.deployment := [].
Definition no_team_route (team name : string) : list RouterIndex.deployment := [].

(** A router with three deployments and no Redis. *)
Definition ex_router (allowed : Z) (policy : option RetryPolicy.policy)
    : t (RedisCache.t RedisCache.toy) :=
  mk (DualCache.init DualCache.default_settings None None None None None 1000)
     InMemoryCache.init_default RouterIndex.ex_three (seconds 5) (Some allowed) 3 policy false [].

Definition rate_limited : exception := mkExn RetryPolicy.RateLimitError "litellm.RateLimitError".

Lemma init_wf : InMemoryCache.wf InMemoryCache.init_default.
Proof. apply InMemoryCache.wf_init. simpl. lia. Qed.

(** The router after a first failure at time 0 with a cooldown of 5 s. *)
Definition ex_cooling : t (RedisCache.t RedisCache.toy) :=
  (_set_cooldown_deployments no_route no_team_route true 0 rate_limited (SInt 429) (Some "a") None (ex_router 3 None)).2.

Lemma ex_cooling_wf : InMemoryCache.wf (im ex_cooling).
Proof.
  assert (im ex_cooling = (InMemoryCache.set_cache 0 (get_cooldown_cache_key "a")
    (_common_add_cooldown_logic 0 "a" (text rate_limited) (cast_exception_status_to_int (SInt 429)) (seconds 5)).2
    (Some (Some (seconds 5))) InMemoryCache.init_default).2) as -> by (vm_compute; reflexivity).
  by apply (InMemoryCache.set_cache_preserves (InMemoryCache.cfg InMemoryCache.init_default)).
Qed.

(** A first failure cools for 5 s; a second one a second later, asking for 60 s, does
    not prolong the cooldown. *)
Lemma cooldown_listed_until_expiry_witness :
  let r' := (_set_cooldown_deployments no_route no_team_route true (seconds 1) rate_limited (SInt 429) (Some "a")
               (Some (seconds 60)) ex_cooling).2 in
  (∀ now', ∃ l, (_get_cooldown_deployments now' ex_cooling).1 = Ok l ∧
     (_async_get_cooldown_deployments now' ex_cooling).1 = Ok l ∧ ("a" ∈ l ↔ now' ≤ seconds 5)) ∧
  (∀ now', ∃ l, (_get_cooldown_deployments now' r').1 = Ok l ∧
     (_async_get_cooldown_deployments now' r').1 = Ok l ∧ ("a" ∈ l ↔ now' ≤ seconds 5)).
Proof.
  split.
  - apply (cooldown_listed_until_expiry no_route no_team_route [] true 0 rate_limited (SInt 429) "a" None
      (ex_router 3 None)); [exact RouterIndex.ex_three_reachable|reflexivity|reflexivity|exact init_wf
      |vm_compute; reflexivity|reflexivity|].
    vm_compute. reflexivity.
  - apply (cooldown_listed_until_expiry no_route no_team_route [] true (seconds 1) rate_limited (SInt 429) "a"
      (Some (seconds 60)) ex_cooling); [exact RouterIndex.ex_three_reachable|reflexivity|reflexivity|
      exact ex_cooling_wf|vm_compute; reflexivity|reflexivity|].
    vm_compute. reflexivity.
Defined.

Lemma allowed_fails_exact_witness :
  (m_map (λ now, should_cooldown_based_on_allowed_fails_policy now "a" rate_limited) [0; 1; 2; 3]
     (ex_router 2 None)).1 = Ok [false; false; true; true].
Proof.
  apply (allowed_fails_exact 0 2 "a" rate_limited (ex_router 2 None) [0; 1; 2; 3]);
    try reflexivity; try lia; [exact init_wf|vm_compute; discriminate| |].
  - intros k c [= _ _ Hc]. unfold InMemoryCache.check_value_size. rewrite Hc. simpl. by rewrite orb_true_r.
  - repeat (constructor; [vm_compute; intuition discriminate|]). constructor.
Defined.

Definition zero_policy : RetryPolicy.policy := RetryPolicy.mkPolicy None None None (Some 0) None None.

Lemma zero_allowed_fails_ignored_witness :
  (should_cooldown_based_on_allowed_fails_policy 0 "a" rate_limited (ex_router 3 (Some zero_policy))).1
    = Ok false.
Proof.
  rewrite (zero_allowed_fails_ignored 0 "a" rate_limited (ex_router 3 (Some zero_policy)) zero_policy);
    reflexivity.
Defined.
End examples.
End Cooldown.
