(* ===== verification/PatternRouter.v ===== *)
(** * PatternRouter: [router_utils/pattern_match_deployments.py]

    Wildcard model names ([openai/*]) are stored as regular expressions; a requested
    model is matched against them, most specific first, and the wildcards of the
    deployment's own model are filled with what the pattern's wildcards matched.
    The regular expressions are of one shape (escaped characters and dot-star groups):
    [re.escape] and [re.match] are modelled on that shape, greedy matching and
    backtracking included.  The provider lookup of [get_pattern]
    ([get_llm_provider]) is a parameter. *)

From stdpp Require Import base sets list strings sorting.
From Stdlib Require Import ZArith Lia Ascii.
From S2P Require Import Prelude PyStr RouterIndex.

#[local] Open Scope nat_scope.

Module PatternRouter.
Import RouterIndex.

(** ** Regular expressions *)

Definition backslash : ascii := ascii_of_nat 92.
Definition newline : ascii := ascii_of_nat 10.
Definition star : ascii := "*".

(** The characters [re.escape] escapes. *)
Definition special (a : ascii) : bool :=
  existsb (λ n, nat_of_ascii a =? n)
    [40; 41; 91; 93; 123; 125; 63; 42; 43; 45; 124; 94; 36; 92; 46; 38; 126; 35; 32; 9; 10; 13; 11; 12].

Fixpoint re_escape (s : string) : string :=
  match s with
  | EmptyString => ""
  | String a s' => if special a then String backslash (String a (re_escape s')) else String a (re_escape s')
  end.

(** Replace every escaped star by a dot-star group. *)
Fixpoint replace_escaped_star (s : string) : string :=
  match s with
  | EmptyString => ""
  | String a s' =>
      match s' with
      | String b s'' =>
          if Ascii.eqb a backslash && Ascii.eqb b star then "(.*)" +:+ replace_escaped_star s''
          else String a (replace_escaped_star s')
      | EmptyString => s
      end
  end.

Definition _pattern_to_regex (pattern : string) : string := replace_escaped_star (re_escape pattern).

(** What such an expression is made of. *)
Inductive token : Type := Lit (a : ascii) | Group.

#[export] Instance token_eq_dec : EqDecision token.
Proof. solve_decision. Defined.

(** Read the expression back: a dot-star in parentheses is a group, an escaped character and any other
    character stand for themselves. *)
Fixpoint parse_regex (s : string) : list token :=
  match s with
  | EmptyString => []
  | String a s' =>
      match s' with
      | EmptyString => [Lit a]
      | String b s'' =>
          if Ascii.eqb a backslash then Lit b :: parse_regex s''
          else
            match s'' with
            | String c (String d s4) =>
                if String.eqb (String a (String b (String c (String d "")))) "(.*)"
                then Group :: parse_regex s4 else Lit a :: parse_regex s'
            | _ => Lit a :: parse_regex s'
            end
      end
  end.

(** Match a prefix of [s]; a group takes as much as it can and gives back what the
    rest needs.  The result is the groups. *)
Fixpoint match_tokens (ts : list token) (s : string) {struct ts} : option (list string) :=
  match ts with
  | [] => Some []
  | Lit a :: ts' =>
      match s with
      | String b s' => if Ascii.eqb a b then match_tokens ts' s' else None
      | EmptyString => None
      end
  | Group :: ts' =>
      (fix group (s : string) : option (list string) :=
         let stop := match match_tokens ts' s with Some gs => Some ("" :: gs) | None => None end in
         match s with
         | String b s' =>
             if Ascii.eqb b newline then stop
             else match group s' with
                  | Some (g :: gs) => Some (String b g :: gs)
                  | _ => stop
                  end
         | EmptyString => stop
         end) s
  end.

(** [re.match(pattern, request)]. *)
Definition re_match (pattern request : string) : option (list string) :=
  match_tokens (parse_regex pattern) request.

(** ** Specificity *)

Fixpoint count_char (a : ascii) (s : string) : nat :=
  match s with EmptyString => 0 | String b s' => (if Ascii.eqb a b then 1 else 0) + count_char a s' end.

Definition complexity_chars : list ascii :=
  ["*"%char; "+"%char; "?"%char; backslash; "^"%char; "$"%char; "|"%char; "("%char; ")"%char].

Definition calculate_pattern_specificity (pattern : string) : nat * nat :=
  (String.length pattern, sum_list ((λ a, count_char a pattern) <$> complexity_chars)).

(** Tuples compare lexicographically. *)
Definition spec_ltb (p q : nat * nat) : bool := (p.1 <? q.1) || ((p.1 =? q.1) && (p.2 <? q.2)).

(** [sorted(..., reverse=True)]: descending, equal keys in their original order. *)
Fixpoint insert_desc {V} (x : string * V) (l : list (string * V)) : list (string * V) :=
  match l with
  | [] => [x]
  | y :: l' =>
      if spec_ltb (calculate_pattern_specificity y.1) (calculate_pattern_specificity x.1)
      then x :: l else y :: insert_desc x l'
  end.

Definition sorted_patterns {V} (patterns : list (string * V)) : list (string * V) :=
  foldl (λ acc x, insert_desc x acc) [] patterns.

(** ** The router *)

Record t := mk { patterns : list (string * list deployment) }.

Definition init : t := mk [].

Definition add_pattern (pattern : string) (llm_deployment : deployment) (r : t) : t :=
  let regex := _pattern_to_regex pattern in
  mk (dset regex (default [] (dget regex (patterns r)) ++ [llm_deployment]) (patterns r)).

(** [s.replace("*", segment, 1)]. *)
Fixpoint replace_first_star (segment s : string) : string :=
  match s with
  | EmptyString => ""
  | String a s' => if Ascii.eqb a star then segment +:+ s' else String a (replace_first_star segment s')
  end.

Definition set_deployment_model_name (groups : list string) (request model : string) : string :=
  if str_contains "*" model then
    if count_char star model <? length groups then request
    else foldl (λ m segment, replace_first_star segment m) model groups
  else model.

(** The deployments of a matching pattern, with their model filled in. *)
Fixpoint _return_pattern_matched_deployments (groups : list string) (request : string)
    (deployments : list deployment) : res (list deployment) :=
  match deployments with
  | [] => Ok []
  | d :: ds =>
      match litellm_params d with
      | PDict params =>
          match dget "model" params with
          | Some (PStr m) =>
              match _return_pattern_matched_deployments groups request ds with
              | Ok ds' =>
                  Ok (mkDep (model_name d)
                        (PDict (dset "model" (PStr (set_deployment_model_name groups request m)) params))
                        (model_info d) :: ds')
              | Raise e => Raise e
              end
          | Some _ => Raise TypeError
          | None => Raise KeyError
          end
      | _ => Raise TypeError
      end
  end.

Fixpoint route_loop (request : string) (filtered : option (list string))
    (sorted : list (string * list deployment)) : res (option (list deployment)) :=
  match sorted with
  | [] => Ok None
  | (pattern, llm_deployments) :: rest =>
      if match filtered with Some names => negb (bool_decide (pattern ∈ names)) | None => false end
      then route_loop request filtered rest
      else
        match re_match pattern request with
        | Some groups => Some <$> _return_pattern_matched_deployments groups request llm_deployments
        | None => route_loop request filtered rest
        end
  end.

(** An exception is logged and [None] returned. *)
Definition route (request : option string) (filtered_model_names : option (list string)) (r : t)
    : option (list deployment) :=
  match request with
  | None => None
  | Some q =>
      match route_loop q (fmap (map _pattern_to_regex) filtered_model_names) (sorted_patterns (patterns r)) with
      | Ok o => o
      | Raise _ => None
      end
  end.

Section provider.
(** [get_llm_provider(model)]: the provider, or [None] when it raises. *)
Variable get_llm_provider : string → option string.

(** [self.route(model) or self.route(f"{provider}/{model}")]. *)
Definition get_pattern (model : string) (custom_llm_provider : option string) (r : t)
    : option (list deployment) :=
  let provider := match custom_llm_provider with Some p => Some p | None => get_llm_provider model end in
  match route (Some model) None r with
  | Some (d :: ds) => Some (d :: ds)
  | _ => route (Some (default "None" provider +:+ "/" +:+ model)) None r
  end.

Definition get_deployments_by_pattern (model : string) (custom_llm_provider : option string) (r : t)
    : list deployment :=
  default [] (get_pattern model custom_llm_provider r).
End provider.

(** ** Patterns and their expressions *)

(** The pattern as the user reads it: [*] is a wildcard, everything else literal. *)
Fixpoint wildcard (pattern : string) : list token :=
  match pattern with
  | EmptyString => []
  | String a p => (if Ascii.eqb a star then Group else Lit a) :: wildcard p
  end.

(** The text a pattern stands for when its wildcards are filled. *)
Fixpoint fill (ts : list token) (gs : list string) : string :=
  match ts, gs with
  | [], _ => ""
  | Lit a :: ts', _ => String a (fill ts' gs)
  | Group :: ts', g :: gs' => g +:+ fill ts' gs'
  | Group :: ts', [] => fill ts' []
  end.

Definition groups_of (ts : list token) : nat := length (filter (λ t, t = Group) ts).

Lemma re_escape_head p : match re_escape p with String b _ => b ≠ star | EmptyString => True end.
Proof.
  destruct p as [|a p]; simpl; [done|]. destruct (special a) eqn:E; simpl; [done|].
  intros ->. done.
Qed.

Lemma replace_cons a p :
  replace_escaped_star (String a (re_escape p)) = String a (replace_escaped_star (re_escape p)).
Proof.
  pose proof (re_escape_head p) as Hh. destruct (re_escape p) as [|b r]; [done|].
  cbn [replace_escaped_star]. destruct (Ascii.eqb_spec b star); [done|]. by rewrite andb_false_r.
Qed.

Lemma parse_lit a s : special a = false → parse_regex (String a s) = Lit a :: parse_regex s.
Proof.
  intros Ha. destruct s as [|b s]; [done|]. cbn [parse_regex].
  destruct (Ascii.eqb_spec a backslash) as [->|]; [done|].
  destruct s as [|c [|d s4]]; [done..|].
  destruct (String.eqb_spec (String a (String b (String c (String d "")))) "(.*)") as [E|]; [|done].
  injection E as -> _ _ _. done.
Qed.

(** The stored expression reads back as the pattern. *)
Lemma parse_pattern p : parse_regex (_pattern_to_regex p) = wildcard p.
Proof.
  unfold _pattern_to_regex. induction p as [|a p IH]; [done|]. cbn [re_escape wildcard].
  destruct (special a) eqn:Ha.
  - destruct (Ascii.eqb_spec a star) as [->|Hne].
    + change (replace_escaped_star (String backslash (String star (re_escape p))))
        with ("(.*)" +:+ replace_escaped_star (re_escape p)).
      change (parse_regex ("(.*)" +:+ replace_escaped_star (re_escape p)))
        with (Group :: parse_regex (replace_escaped_star (re_escape p))). by rewrite IH.
    + assert (replace_escaped_star (String backslash (String a (re_escape p))) =
              String backslash (replace_escaped_star (String a (re_escape p)))) as ->.
      { cbn [replace_escaped_star]. destruct (Ascii.eqb_spec a star); [done|]. by rewrite andb_false_r. }
      rewrite replace_cons. cbn [parse_regex]. by rewrite Ascii.eqb_refl, IH.
  - rewrite replace_cons, parse_lit, IH by done.
    by destruct (Ascii.eqb_spec a star) as [->|].
Qed.

(** ** Matching *)

Definition no_newline (g : string) : Prop := count_char newline g = 0.

Lemma no_newline_cons b s : no_newline (String b s) ↔ b ≠ newline ∧ no_newline s.
Proof.
  unfold no_newline. cbn [count_char]. destruct (Ascii.eqb_spec newline b) as [<-|]; split; try lia.
  - by intros [].
  - intros; split; [congruence|lia].
Qed.

(** What matching yields: a prefix of the request is the filled pattern. *)
Lemma match_tokens_sound ts s gs :
  match_tokens ts s = Some gs →
  length gs = groups_of ts ∧ Forall no_newline gs ∧ ∃ rest, s = fill ts gs +:+ rest.
Proof.
  unfold groups_of. revert s gs. induction ts as [|[a|] ts IH]; intros s gs.
  - intros [= <-]. split_and!; [done|constructor|]. by exists s.
  - cbn [match_tokens]. destruct s as [|b s]; [done|]. destruct (Ascii.eqb_spec a b) as [<-|]; [|done].
    intros (Hl & Hn & rest & ->)%IH. rewrite filter_cons. split_and!; [done..|]. by exists rest.
  - rewrite filter_cons, decide_True by done.
    assert (Hstop : ∀ s gs, match match_tokens ts s with Some gs => Some ("" :: gs) | None => None end
              = Some gs → length gs = S (length (filter (λ t, t = Group) ts)) ∧ Forall no_newline gs ∧
              ∃ rest, s = fill (Group :: ts) gs +:+ rest).
    { intros s' gs'. destruct (match_tokens ts s') as [gs0|] eqn:E; [|done]. intros [= <-].
      apply IH in E as (Hl & Hn & rest & E). simpl. split_and!; [lia|by constructor|]. by exists rest. }
    revert gs. induction s as [|b s IHs]; intros gs; cbn [match_tokens]; [apply Hstop|].
    destruct (Ascii.eqb_spec b newline) as [|Hb]; [apply Hstop|].
    match goal with |- context [match ?f s with _ => _ end] => set (group := f) in * end.
    destruct (group s) as [[|g gs']|] eqn:E; [apply Hstop| |apply Hstop].
    intros [= <-]. destruct (IHs (g :: gs') E) as (Hl & [Hg Hn]%Forall_cons & rest & ->).
    split_and!; [done|by constructor; [apply no_newline_cons|]|]. by exists rest.
Qed.

Lemma match_group_cons ts b s :
  b ≠ newline →
  match_tokens (Group :: ts) (String b s) =
    match match_tokens (Group :: ts) s with
    | Some (g :: gs) => Some (String b g :: gs)
    | _ => match match_tokens ts (String b s) with Some gs => Some ("" :: gs) | None => None end
    end.
Proof. intros Hb. cbn [match_tokens]. by destruct (Ascii.eqb_spec b newline). Qed.

Lemma match_group_nonempty ts s gs : match_tokens (Group :: ts) s = Some gs → ∃ g gs', gs = g :: gs'.
Proof.
  intros (Hl & _ & _)%match_tokens_sound. unfold groups_of in Hl. rewrite filter_cons, decide_True in Hl by done.
  destruct gs as [|g gs]; [done|]. eauto.
Qed.

(** Every way to read a prefix of the request as the filled pattern is found. *)
Lemma match_tokens_complete ts gs rest :
  length gs = groups_of ts → Forall no_newline gs → is_Some (match_tokens ts (fill ts gs +:+ rest)).
Proof.
  unfold groups_of. revert gs. induction ts as [|[a|] ts IH]; intros gs Hl Hn; [by eexists| |].
  - cbn [fill]. rewrite str_app_cons. cbn [match_tokens]. rewrite Ascii.eqb_refl. by apply IH.
  - rewrite filter_cons, decide_True in Hl by done. destruct gs as [|g gs]; [done|].
    apply Forall_cons in Hn as [Hg Hn]. cbn [fill]. rewrite str_app_assoc.
    destruct (IH gs) as [x Hx]; [simpl in Hl; lia|done|]. clear Hl.
    induction g as [|b g IHg].
    + change ("" +:+ (fill ts gs +:+ rest)) with (fill ts gs +:+ rest).
      destruct (fill ts gs +:+ rest) as [|b s] eqn:E; [cbn [match_tokens]; by rewrite Hx|].
      destruct (decide (b = newline)) as [->|Hb]; [cbn [match_tokens]; by rewrite Hx|].
      rewrite match_group_cons by done. destruct (match_tokens (Group :: ts) s) as [[|]|]; rewrite ?Hx; eauto.
    + apply no_newline_cons in Hg as [Hb Hg]. rewrite str_app_cons, match_group_cons by done.
      destruct (IHg Hg) as [y Hy]. rewrite Hy. destruct (match_group_nonempty _ _ _ Hy) as (g' & gs' & ->). eauto.
Qed.

(** A pattern that ends in a wildcard matches the whole request. *)
Lemma match_tokens_trailing ts s gs :
  match_tokens (ts ++ [Group]) s = Some gs → no_newline s → s = fill (ts ++ [Group]) gs.
Proof.
  revert s gs. induction ts as [|[a|] ts IH]; intros s gs.
  - simpl app. revert gs. induction s as [|b s IHs]; intros gs; [by intros [= <-]|].
    intros Hm [Hb Hs]%no_newline_cons. rewrite match_group_cons in Hm by done.
    destruct (match_tokens_complete [Group] [s] "") as [x Hx]; [done|by constructor|].
    cbn [fill] in Hx. rewrite !str_app_nil_r in Hx. rewrite Hx in Hm.
    destruct (match_group_nonempty _ _ _ Hx) as (g & gs' & ->). injection Hm as <-.
    rewrite (IHs _ Hx Hs) at 1. done.
  - simpl app. cbn [match_tokens]. destruct s as [|b s]; [done|].
    destruct (Ascii.eqb_spec a b) as [<-|]; [|done]. intros Hm [_ Hs]%no_newline_cons.
    cbn [fill]. f_equal. by apply IH.
  - simpl app. revert gs. induction s as [|b s IHs]; intros gs.
    + cbn [match_tokens]. destruct (match_tokens (ts ++ [Group]) "") as [gs'|] eqn:E; [|done].
      intros [= <-] Hs. cbn [fill]. by rewrite <-(IH _ _ E Hs).
    + intros Hm Hs. pose proof Hs as [Hb Hs']%no_newline_cons. rewrite match_group_cons in Hm by done.
      destruct (match_tokens (Group :: ts ++ [Group]) s) as [[|g gs']|] eqn:E.
      * by destruct (match_group_nonempty _ _ _ E) as (? & ? & ?).
      * injection Hm as <-. by rewrite (IHs _ eq_refl Hs') at 1.
      * destruct (match_tokens (ts ++ [Group]) (String b s)) as [gs'|] eqn:E'; [|done].
        injection Hm as <-. cbn [fill]. by rewrite <-(IH _ _ E' Hs).
Qed.

Lemma pattern_match_iff_aux p q :
  (is_Some (re_match (_pattern_to_regex p) q) ↔
     ∃ gs rest, q = fill (wildcard p) gs +:+ rest ∧ length gs = groups_of (wildcard p) ∧
       Forall no_newline gs) ∧
  ∀ gs, re_match (_pattern_to_regex p) q = Some gs →
    (∃ rest, q = fill (wildcard p) gs +:+ rest) ∧
    (no_newline q → last (wildcard p) = Some Group → q = fill (wildcard p) gs).
Proof.
  unfold re_match. rewrite parse_pattern. split; [split|].
  - intros [gs (Hl & Hn & rest & E)%match_tokens_sound]. eauto.
  - intros (gs & rest & -> & Hl & Hn). by apply match_tokens_complete.
  - intros gs Hm. split; [by apply match_tokens_sound in Hm as (_ & _ & ?)|]. intros Hq Hlast.
    apply last_Some in Hlast as [ts Ets]. rewrite Ets in *. by apply match_tokens_trailing.
Qed.

(** C36: A wildcard pattern matches a request exactly when some prefix of the request
    is the pattern with its wildcards filled (by text without line breaks); the
    groups of a match fill the pattern to such a prefix, and to the whole request
    when the pattern ends in a wildcard. *)
Theorem pattern_match_iff p q :
  (is_Some (re_match (_pattern_to_regex p) q) ↔
     ∃ gs rest, q = fill (wildcard p) gs +:+ rest ∧ length gs = groups_of (wildcard p) ∧
       Forall no_newline gs) ∧
  ∀ gs, re_match (_pattern_to_regex p) q = Some gs →
    (∃ rest, q = fill (wildcard p) gs +:+ rest) ∧
    (no_newline q → last (wildcard p) = Some Group → q = fill (wildcard p) gs).
Proof. apply pattern_match_iff_aux. Qed.

(** ** Filling the deployment's model *)

Lemma replace_first_star_app g m s :
  count_char star g = 0 → replace_first_star s (g +:+ m) = g +:+ replace_first_star s m.
Proof.
  induction g as [|a g IH]; [done|]. cbn [count_char]. rewrite str_app_cons. intros Hc.
  cbn [replace_first_star]. destruct (Ascii.eqb_spec star a) as [<-|Hne]; [lia|].
  destruct (Ascii.eqb_spec a star); [congruence|]. by rewrite IH by lia.
Qed.

Lemma fold_replace_app g m gs :
  count_char star g = 0 →
  foldl (λ m segment, replace_first_star segment m) (g +:+ m) gs
    = g +:+ foldl (λ m segment, replace_first_star segment m) m gs.
Proof.
  intros Hg. revert m. induction gs as [|s gs IH]; intros m; [done|]. simpl.
  by rewrite replace_first_star_app, IH.
Qed.

Lemma fold_replace_fill m gs :
  length gs = count_char star m → Forall (λ g, count_char star g = 0) gs →
  foldl (λ m segment, replace_first_star segment m) m gs = fill (wildcard m) gs.
Proof.
  revert gs. induction m as [|a m IH]; intros gs Hl Hs.
  { by destruct gs. }
  cbn [count_char wildcard] in *. destruct (Ascii.eqb_spec star a) as [<-|Hne].
  - destruct gs as [|g gs]; [done|]. apply Forall_cons in Hs as [Hg Hs]. simpl in Hl.
    cbn [foldl replace_first_star fill]. rewrite Ascii.eqb_refl. cbn [fill].
    rewrite fold_replace_app by done. f_equal. apply IH; [lia|done].
  - destruct (Ascii.eqb_spec a star); [congruence|]. cbn [fill].
    rewrite <-(IH gs) by (done || lia).
    apply (fold_replace_app (String a "")). cbn [count_char].
    destruct (Ascii.eqb_spec star a); [congruence|done].
Qed.

Lemma contains_star m : str_contains "*" m = negb (count_char star m =? 0).
Proof.
  induction m as [|a m IH]; [done|]. cbn [str_contains count_char String.prefix].
  destruct (ascii_dec "*" a) as [<-|Hne].
  - destruct (Ascii.eqb_spec star "*"); [by destruct m|done].
  - rewrite IH. destruct (Ascii.eqb_spec star a); [done|]. done.
Qed.

(** Filling a deployment's model with as many wildcards as the pattern: the
    result is the model with its wildcards replaced, in order, by what the pattern's
    wildcards matched; when the deployment uses the pattern itself, a pattern ending
    in a wildcard reproduces the request.  (The matched texts must not contain a
    star.) *)
Theorem wildcard_model_filled p m q gs :
  re_match (_pattern_to_regex p) q = Some gs →
  count_char star m = count_char star p → Forall (λ g, count_char star g = 0) gs →
  set_deployment_model_name gs q m = fill (wildcard m) gs ∧
  (m = p → no_newline q → last (wildcard p) = Some Group → set_deployment_model_name gs q m = q).
Proof.
  intros Hm Hc Hs.
  assert (groups_of (wildcard p) = count_char star p) as Hg.
  { clear. unfold groups_of. induction p as [|a p IH]; [done|]. cbn [wildcard count_char].
    rewrite filter_cons. destruct (Ascii.eqb_spec a star) as [->|Hne].
    - rewrite decide_True, Ascii.eqb_refl by done. simpl. by rewrite IH.
    - rewrite decide_False by done. destruct (Ascii.eqb_spec star a); [congruence|]. by rewrite IH. }
  assert (Hlen : length gs = count_char star m).
  { unfold re_match in Hm. rewrite parse_pattern in Hm. apply match_tokens_sound in Hm as (Hl & _). congruence. }
  assert (Heq : set_deployment_model_name gs q m = fill (wildcard m) gs).
  { unfold set_deployment_model_name. rewrite contains_star.
    destruct (Nat.eqb_spec (count_char star m) 0) as [E|]; simpl.
    - rewrite <-fold_replace_fill by done. destruct gs; [done|]. simpl in Hlen. lia.
    - destruct (Nat.ltb_spec (count_char star m) (length gs)); [lia|]. by apply fold_replace_fill. }
  split; [done|]. intros -> Hq Hlast. rewrite Heq. symmetry.
  by apply (proj2 (pattern_match_iff_aux p q) gs Hm).
Qed.

(** ** Routing *)

Section sorting.
Context {V : Type}.
Implicit Types (x y : string * V) (l : list (string * V)).

(** [x] is at least as specific as [y]. *)
Definition at_least (x y : string * V) : Prop :=
  spec_ltb (calculate_pattern_specificity x.1) (calculate_pattern_specificity y.1) = false.

Lemma at_least_trans x y z : at_least x y → at_least y z → at_least x z.
Proof.
  unfold at_least, spec_ltb. generalize (calculate_pattern_specificity x.1) as a.
  generalize (calculate_pattern_specificity y.1) as b. generalize (calculate_pattern_specificity z.1) as c.
  intros c b a. rewrite !orb_false_iff, !andb_false_iff, !Nat.ltb_ge, !Nat.eqb_neq. lia.
Qed.

Lemma insert_desc_perm x l : insert_desc x l ≡ₚ x :: l.
Proof.
  induction l as [|y l IH]; simpl; [done|]. destruct (spec_ltb _ _); [done|].
  rewrite IH. apply Permutation_swap.
Qed.

Lemma insert_desc_sorted x l : StronglySorted at_least l → StronglySorted at_least (insert_desc x l).
Proof.
  induction 1 as [|y l Hs IH Hy]; cbn [insert_desc]; [repeat constructor|].
  destruct (spec_ltb (calculate_pattern_specificity y.1) (calculate_pattern_specificity x.1)) eqn:E.
  - assert (at_least x y) as Hxy.
    { unfold at_least, spec_ltb in *. apply orb_true_iff in E. rewrite andb_true_iff, !Nat.ltb_lt, Nat.eqb_eq in E.
      rewrite orb_false_iff, andb_false_iff, !Nat.ltb_ge, Nat.eqb_neq. lia. }
    constructor; [by constructor|]. constructor; [done|].
    eapply Forall_impl; [exact Hy|]. intros z. by apply at_least_trans.
  - constructor; [done|]. rewrite insert_desc_perm. constructor; [done|done].
Qed.

Lemma sorted_patterns_spec l : sorted_patterns l ≡ₚ l ∧ StronglySorted at_least (sorted_patterns l).
Proof.
  unfold sorted_patterns.
  assert (Hg : ∀ acc, StronglySorted at_least acc →
    foldl (λ acc x, insert_desc x acc) acc l ≡ₚ acc ++ l ∧
    StronglySorted at_least (foldl (λ acc x, insert_desc x acc) acc l)).
  { induction l as [|x l IH]; intros acc Ha; simpl; [by rewrite app_nil_r|].
    destruct (IH (insert_desc x acc) (insert_desc_sorted x acc Ha)) as [Hp Hs]. split; [|done].
    rewrite Hp, insert_desc_perm. simpl. by rewrite Permutation_middle. }
  destruct (Hg [] ltac:(constructor)) as [Hp Hs]. done.
Qed.
End sorting.

(** A deployment whose parameters name a model, as [LiteLLM_Params] requires. *)
Definition routable (d : deployment) : Prop :=
  ∃ params m, litellm_params d = PDict params ∧ dget "model" params = Some (PStr m).

Lemma matched_deployments_ok groups request ds :
  Forall routable ds → ∃ ds', _return_pattern_matched_deployments groups request ds = Ok ds' ∧
    length ds' = length ds ∧ model_name <$> ds' = model_name <$> ds.
Proof.
  induction 1 as [|d ds (params & m & E & Em) Hds (ds' & E' & Hl & Hn)]; simpl; [by exists []|].
  rewrite E, Em, E'. eexists. split; [done|]. simpl. rewrite Hl. split; [done|]. f_equal. apply Hn.
Qed.

Lemma route_loop_spec q sorted :
  StronglySorted at_least sorted → Forall (λ x, Forall routable x.2) sorted →
  match route_loop q None sorted with
  | Raise _ => False
  | Ok None => Forall (λ x, re_match x.1 q = None) sorted
  | Ok (Some ds) =>
      ∃ x gs, x ∈ sorted ∧ re_match x.1 q = Some gs ∧
        _return_pattern_matched_deployments gs q x.2 = Ok ds ∧
        ∀ y, y ∈ sorted → is_Some (re_match y.1 q) → at_least x y
  end.
Proof.
  induction 1 as [|[p ds0] l Hs IH Hall]; intros Hr; simpl; [constructor|].
  apply Forall_cons in Hr as [Hd Hr]. simpl in Hd.
  destruct (re_match p q) as [gs|] eqn:Em.
  - destruct (matched_deployments_ok gs q ds0 Hd) as (ds & E & _). rewrite E. simpl.
    exists (p, ds0), gs. split_and!; [set_solver|done|done|].
    intros y [->|Hy]%elem_of_cons _.
    + unfold at_least, spec_ltb. rewrite orb_false_iff, andb_false_iff, !Nat.ltb_irrefl. auto.
    + by apply (proj1 (Forall_forall _ _) Hall).
  - specialize (IH Hr). destruct (route_loop q None l) as [[ds|]|]; [|by constructor|done].
    destruct IH as (x & gs & Hx & H1 & H2 & H3). exists x, gs. split_and!; [set_solver|done|done|].
    intros y [->|Hy]%elem_of_cons; [|by apply H3]. simpl. rewrite Em. by intros [? ?].
Qed.

(** Routing finds a deployment whenever a pattern matches, and takes a pattern
    that is at least as specific (longer, then with more special characters) as
    every other matching one, with its deployments' models filled in. *)
Theorem route_most_specific q r :
  Forall (λ x, Forall routable x.2) (patterns r) →
  match route (Some q) None r with
  | None => ∀ x, x ∈ patterns r → re_match x.1 q = None
  | Some ds =>
      ∃ x gs, x ∈ patterns r ∧ re_match x.1 q = Some gs ∧
        _return_pattern_matched_deployments gs q x.2 = Ok ds ∧
        ∀ y, y ∈ patterns r → is_Some (re_match y.1 q) → at_least x y
  end.
Proof.
  intros Hr. destruct (sorted_patterns_spec (patterns r)) as [Hp Hs].
  assert (Forall (λ x, Forall routable x.2) (sorted_patterns (patterns r))) as Hr' by (by rewrite Hp).
  pose proof (route_loop_spec q _ Hs Hr') as Hl. unfold route. simpl.
  destruct (route_loop q None (sorted_patterns (patterns r))) as [[ds|]|]; [| |done].
  - destruct Hl as (x & gs & Hx & H1 & H2 & H3). exists x, gs.
    split_and!; [by rewrite <-Hp|done|done|]. intros y Hy. apply H3. by rewrite Hp.
  - intros x Hx. apply (proj1 (Forall_forall _ _) Hl). by rewrite Hp.
Qed.

(** ** Concrete runs *)

Definition ex_pat (model : string) : deployment := mkDep "" (PDict [("model", PStr model)]) [].

Definition ex_patterns : t :=
  add_pattern "*" (ex_pat "openai/*") (add_pattern "llmengine/*" (ex_pat "openai/*") init).

Lemma pattern_match_example : re_match (_pattern_to_regex "llmengine/*") "llmengine/foo" = Some ["foo"].
Proof. reflexivity. Qed.

Lemma route_most_specific_witness :
  ∃ ds x gs, route (Some "llmengine/foo") None ex_patterns = Some ds ∧
    litellm_params <$> ds = [PDict [("model", PStr "openai/foo")]] ∧
    x ∈ patterns ex_patterns ∧ re_match x.1 "llmengine/foo" = Some gs ∧
    ∀ y, y ∈ patterns ex_patterns → is_Some (re_match y.1 "llmengine/foo") → at_least x y.
Proof.
  assert (Forall (λ x, Forall routable x.2) (patterns ex_patterns)) as Hr.
  { repeat constructor; repeat eexists. }
  assert (∃ ds, route (Some "llmengine/foo") None ex_patterns = Some ds ∧
                litellm_params <$> ds = [PDict [("model", PStr "openai/foo")]]) as (ds & E & Hds).
  { eexists. split; vm_compute; reflexivity. }
  pose proof (route_most_specific "llmengine/foo" ex_patterns Hr) as Hm. rewrite E in Hm.
  destruct Hm as (x & gs & Hx & Hgs & _ & Hmax). exists ds, x, gs. split_and!; assumption.
Defined.

Lemma wildcard_model_filled_witness :
  set_deployment_model_name ["foo"] "llmengine/foo" "openai/*" = "openai/foo".
Proof.
  apply (wildcard_model_filled "llmengine/*" "openai/*" "llmengine/foo" ["foo"]);
    [reflexivity|reflexivity|repeat constructor].
Defined.

(** A pattern is matched against a prefix of the request only: a pattern that
    does not end in a wildcard also accepts requests with anything after it. *)
Theorem pattern_not_anchored :
  route (Some "openai/gpt-4-turbo-DELETED") None (add_pattern "openai/*-turbo" (ex_pat "azure/*-turbo") init)
    = Some [ex_pat "azure/gpt-4-turbo"].
Proof. vm_compute. reflexivity. Qed.

(** A matched text that itself contains a star is filled into the wildcards of
    the model a second time: the later wildcard receives the wrong text. *)
Theorem star_in_request_misfilled :
  set_deployment_model_name ["a*"; "b"] "x/a*::b" "y/*::*" = "y/ab::*".
Proof. vm_compute. reflexivity. Qed.
End PatternRouter.
