(* ===== verification/Strategy.v ===== *)
(** * Strategy: what the routing strategies share

    The strategies of [router_strategy] keep their counters as one dict per model
    group in the router's [DualCache].  [get_cache] returns the cached dict object
    itself, so an assignment into it changes the cache entry at once; [write_back]
    models that.  Deployments are plain dicts here.  Deployment ids are strings (an
    integer id is turned into one by the code). *)

From stdpp Require Import base gmap sets list strings.
From Stdlib Require Import ZArith QArith Lia ZifyBool.
From S2P Require Import Prelude Heapq PyHeapq InMemoryCache RedisCache DualCache.

#[local] Open Scope Z_scope.

(** [random.choice(l)]: any element; [pick] is what the generator yields. *)
Definition random_choice {A} (pick : nat) (l : list A) : res A :=
  match l with
  | [] => Raise IndexError
  | x :: _ => Ok (default x (l !! (pick mod length l)%nat))
  end.

Lemma random_choice_in {A} pick (l : list A) : l ≠ [] → ∃ x, random_choice pick l = Ok x ∧ x ∈ l.
Proof.
  intros Hl. unfold random_choice. destruct l as [|x l]; [done|].
  destruct (lookup_lt_is_Some_2 (x :: l) (pick mod length (x :: l))%nat) as [y Hy].
  { apply Nat.mod_upper_bound. done. }
  rewrite Hy. exists y. split; [done|]. by apply list_elem_of_lookup_2 in Hy.
Qed.

(** [m["model_info"]["id"]], where ids are strings. *)
Definition dep_id (m : pyval) : res string :=
  info ← py_index m "model_info";
  id ← py_index info "id";
  match id with PStr s => Ok s | _ => Raise TypeError end.

(** The key a dict is subscripted with: a string, or an integer made one by the
    code before. *)
Definition id_key `{PyRuntime} (id : pyval) : res string :=
  match id with
  | PStr s => Ok s
  | PInt _ | PBool _ => Ok (py_str id)
  | _ => Raise TypeError
  end.

(** The model group and the deployment id of a logged call; [None] when there is
    nothing to log. *)
Definition call_target `{PyRuntime} (kwargs : pyval) : res (option (pyval * string)) :=
  params ← py_index kwargs "litellm_params";
  metadata ← py_get params "metadata";
  if is_none metadata then Ok None else
  model_group ← py_get metadata "model_group";
  info ← py_get_or params "model_info" (PDict []);
  id ← py_get info "id";
  if is_none model_group || is_none id then Ok None else
  k ← id_key id;
  Ok (Some (model_group, k)).

(** The keyword arguments of a logged call. *)
Definition call_kwargs (model_group id : string) : pyval :=
  PDict [("litellm_params",
          PDict [("metadata", PDict [("model_group", PStr model_group)]);
                 ("model_info", PDict [("id", PStr id)])])].

Section shared.
Context `{PyRuntime} {R : Type} `{RedisCacheI R}.

(** [self.router_cache.get_cache(key) or {}], as a dict. *)
Definition get_counts (getter : M (DualCache.t R) pyval) : M (DualCache.t R) (list (string * pyval)) :=
  v ← getter;
  match py_or v (PDict []) with PDict d => mret d | _ => m_raise AttributeError end.

(** The in-place assignments to the dict [get_counts] returned: when the cache
    holds a non-empty dict at the key it is that object. *)
Definition write_back (key : string) (d : list (string * pyval)) : M (DualCache.t R) unit :=
  DualCache.on_im (m_modify (λ im,
    match InMemoryCache.cache_dict im !! key with
    | Some (PDict (_ :: _)) => InMemoryCache.with_cache (<[key := PDict d]>) im
    | _ => im
    end)).
End shared.


(** ** Counter dicts *)

(** Healthy deployments not yet used count 0. *)
Fixpoint fill_zeros (healthy : list pyval) (counts : list (string * pyval)) : res (list (string * pyval)) :=
  match healthy with
  | [] => Ok counts
  | m :: ms =>
      id ← dep_id m;
      fill_zeros ms (if dmem id counts then counts else dset id (PInt 0) counts)
  end.

Lemma fill_zeros_spec healthy counts :
  Forall (λ m, is_ok (dep_id m) = true) healthy →
  ∃ counts', fill_zeros healthy counts = Ok counts' ∧
    (∀ id v, dget id counts = Some v → dget id counts' = Some v) ∧
    (∀ m id, m ∈ healthy → dep_id m = Ok id → is_Some (dget id counts')) ∧
    (∀ id v, dget id counts' = Some v → dget id counts = Some v ∨ v = PInt 0) ∧
    (∀ id v, dget id counts' = Some v → dget id counts = Some v ∨ ∃ m, m ∈ healthy ∧ dep_id m = Ok id) ∧
    (dict_wf counts → dict_wf counts').
Proof.
  intros Hh. revert counts. induction Hh as [|m ms Hm Hms IH]; intros counts; simpl.
  { exists counts. split_and!; auto. by intros m id ?%not_elem_of_nil. }
  destruct (dep_id m) as [k|e] eqn:E; simpl; [|done].
  destruct (IH (if dmem k counts then counts else dset k (PInt 0) counts)) as (c' & -> & H1 & H2 & H3 & H4 & H5).
  assert (Hk : is_Some (dget k (if dmem k counts then counts else dset k (PInt 0) counts))).
  { unfold dmem. destruct (dget k counts) eqn:Ek; [eauto|]. rewrite dget_dset_eq. eauto. }
  assert (Hold : ∀ id v, dget id (if dmem k counts then counts else dset k (PInt 0) counts) = Some v →
            dget id counts = Some v ∨ (v = PInt 0 ∧ id = k)).
  { intros id v. unfold dmem. destruct (dget k counts) eqn:Ek; [auto|]. rewrite dget_dset.
    destruct (String.eqb_spec k id) as [->|]; [intros [= <-]; auto|auto]. }
  exists c'. split_and!; [done| | | | |].
  - intros id v Hv. apply H1. unfold dmem. destruct (dget k counts) eqn:Ek; [done|].
    rewrite dget_dset_ne; [done|]. intros ->. congruence.
  - intros m' id [->|Hin]%elem_of_cons Hid; [|by eapply H2].
    assert (id = k) as -> by congruence. destruct Hk as [v Hv]. eauto.
  - intros id v Hv. destruct (H3 id v Hv) as [Hv'|]; [|auto]. destruct (Hold _ _ Hv') as [|[? _]]; auto.
  - intros id v Hv. destruct (H4 id v Hv) as [Hv'|(m' & ? & ?)]; [|right; exists m'; split; [set_solver|done]].
    destruct (Hold _ _ Hv') as [|[_ ->]]; [auto|]. right. exists m. split; [set_solver|done].
  - intros Hw. apply H5. destruct (dmem k counts); [done|by apply dset_wf].
Qed.

(** All counts are integers. *)
Definition int_counts (counts : list (string * pyval)) : Prop :=
  Forall (λ p, ∃ n, p.2 = PInt n) counts.

Lemma py_lt_int a b : py_lt (PInt a) (PInt b) = Ok (a <? b).
Proof. simpl. f_equal. unfold Qle_bool, inject_Z. simpl. lia. Qed.

Definition count_of (counts : list (string * pyval)) (id : string) : Z :=
  match dget id counts with Some (PInt n) => n | _ => 0 end.

Lemma int_counts_get counts id v : int_counts counts → dget id counts = Some v → v = PInt (count_of counts id).
Proof.
  intros Hc Hg. unfold count_of. rewrite Hg. apply dget_Some_in in Hg.
  apply (proj1 (Forall_forall _ _) Hc) in Hg as [n Hn]. simpl in Hn. by subst v.
Qed.

Lemma int_counts_intro counts :
  dict_wf counts → (∀ id v, dget id counts = Some v → ∃ n, v = PInt n) → int_counts counts.
Proof.
  intros Hw Hg. apply Forall_forall. intros [id v] Hin. simpl. apply (Hg id). by apply dget_in.
Qed.

(** Filling in the zeros changes no count. *)
Lemma fill_zeros_int healthy counts counts' :
  Forall (λ m, is_ok (dep_id m) = true) healthy → dict_wf counts → int_counts counts →
  fill_zeros healthy counts = Ok counts' → int_counts counts'.
Proof.
  intros Hids Hw Hint Ef. destruct (fill_zeros_spec healthy counts Hids) as (c' & Ef' & _ & _ & H3 & _ & H5).
  rewrite Ef in Ef'. injection Ef' as <-. apply int_counts_intro; [by apply H5|]. intros id v Hv.
  destruct (H3 id v Hv) as [Hv'| ->]; [|eauto]. eexists. by apply (int_counts_get counts).
Qed.

Lemma fill_zeros_count healthy counts counts' id :
  Forall (λ m, is_ok (dep_id m) = true) healthy →
  fill_zeros healthy counts = Ok counts' → count_of counts' id = count_of counts id.
Proof.
  intros Hids Ef. destruct (fill_zeros_spec healthy counts Hids) as (c' & Ef' & H1 & _ & H3 & _ & _).
  rewrite Ef in Ef'. injection Ef' as <-.
  unfold count_of. destruct (dget id counts) as [v|] eqn:E; [by rewrite (H1 _ _ E)|].
  destruct (dget id counts') as [v|] eqn:E'; [|done]. destruct (H3 _ _ E') as [| ->]; [congruence|done].
Qed.

Lemma dset_int_counts id n d : int_counts d → int_counts (dset id (PInt n) d).
Proof.
  unfold int_counts. induction d as [|[k v] d IH]; simpl; intros Hd.
  - repeat constructor. by exists n.
  - apply Forall_cons in Hd as [Hv Hd]. destruct (String.eqb id k); constructor; simpl; eauto.
Qed.

Lemma get_int d id : int_counts d → default (PInt 0) (dget id d) = PInt (count_of d id).
Proof.
  intros Hi. destruct (dget id d) as [v|] eqn:E; simpl; [by apply int_counts_get|].
  unfold count_of. by rewrite E.
Qed.

Lemma dset_nonnil {V} id (v : V) d : dset id v d ≠ [].
Proof. destruct d as [|[k w] d]; simpl; [done|]. by destruct (String.eqb id k). Qed.

(** ** Counters of a router without Redis *)

Section counters.
Context `{PyRuntime} {R : Type} `{RedisCacheI R}.
Implicit Types c : DualCache.t R.

Definition mem c : InMemoryCache.t := DualCache.in_memory_cache c.

(** The entry at [key] is the dict [d] (no entry when [d] is empty) and stays
    live until [dl]. *)
Record holds (k : Z * Z * Z) (dl : Z) (key : string) (d : list (string * pyval)) c : Prop := {
  h_wf : InMemoryCache.wf (mem c);
  h_cfg : InMemoryCache.cfg (mem c) = k;
  h_max : k.1.1 ≠ 0;
  h_redis : DualCache.redis_cache c = None;
  h_ttl : DualCache.default_in_memory_ttl c = None;
  h_live e : InMemoryCache.ttl_dict (mem c) !! key = Some e → dl ≤ e;
  h_entry : InMemoryCache.cache_dict (mem c) !! key = match d with [] => None | _ => Some (PDict d) end
}.

Lemma holds_lookup k dl key d c now :
  holds k dl key d c → now ≤ dl →
  let v := match d with [] => PNone | _ => PDict d end in
  DualCache.get_cache now key false None c = (Ok v, c) ∧
  DualCache.async_get_cache now key false None c = (Ok v, c).
Proof.
  intros [Hw Hc Hm Hr Ht Hl He] Hn v. unfold mem in *.
  assert (Hget : InMemoryCache.get_cache now key (mem c) = (Ok v, mem c)).
  { unfold InMemoryCache.get_cache, mem, v. rewrite He. destruct d as [|kv d]; [done|].
    assert (is_Some (InMemoryCache.ttl_dict (mem c) !! key)) as [e Ee].
    { apply elem_of_dom. unfold mem. rewrite <-(InMemoryCache.core_dom _ (InMemoryCache.wf_core _ Hw)).
      by apply elem_of_dom_2 in He. }
    pose proof (Hl _ Ee). unfold InMemoryCache.evict_element_if_expired, InMemoryCache._is_key_expired.
    unfold mem in Ee. rewrite Ee. destruct (Z.ltb_spec e now); [lia|]. by rewrite He. }
  unfold DualCache.get_cache, DualCache.async_get_cache, DualCache.read_through, m_try, mbind, M_bind, m_get.
  rewrite (DualCache.on_im_run _ _ _ _ Hget).
  replace (DualCache.set_im (mem c) c) with c by (unfold mem; by destruct c).
  unfold v. destruct d as [|kv d]; [|done]. simpl. by rewrite Hr.
Qed.

Lemma holds_get k dl key d c now :
  holds k dl key d c → now ≤ dl →
  get_counts (DualCache.get_cache now key false None) c = (Ok d, c) ∧
  get_counts (DualCache.async_get_cache now key false None) c = (Ok d, c).
Proof.
  intros Hh Hn. destruct (holds_lookup k dl key d c now Hh Hn) as [Eg Ea].
  unfold get_counts, mbind, M_bind. rewrite Eg, Ea. by destruct d.
Qed.

Lemma write_back_ready k dl key d d' c :
  holds k dl key d c → d' ≠ [] →
  ∃ c', write_back key d' c = (Ok (), c') ∧ (d ≠ [] → holds k dl key d' c') ∧ (d = [] → holds k dl key d c').
Proof.
  intros [Hw Hc Hm Hr Ht Hl He] Hne. unfold write_back, DualCache.on_im, m_zoom, m_modify.
  eexists. split; [done|]. unfold mem in *. rewrite He. destruct d as [|kv d].
  - split; [done|]. intros _. by split.
  - split; [intros _|done]. destruct d' as [|kv' d']; [done|].
    split; unfold mem; simpl; try done; [|by rewrite lookup_insert_eq].
    assert (InMemoryCache.with_cache <[key:=PDict (kv' :: d')]> (DualCache.in_memory_cache c) =
            InMemoryCache.alias_update key (PDict (kv' :: d')) (DualCache.in_memory_cache c)) as ->.
    { unfold InMemoryCache.alias_update. rewrite decide_True; [done|]. by rewrite He. }
    by apply InMemoryCache.alias_update_wf.
Qed.

(** From [c] to [c'] no entry but that of [key] changes. *)
Definition keeps_others (key : string) c c' : Prop :=
  ∀ key', key' ≠ key →
    InMemoryCache.cache_dict (mem c') !! key' = InMemoryCache.cache_dict (mem c) !! key' ∧
    InMemoryCache.ttl_dict (mem c') !! key' = InMemoryCache.ttl_dict (mem c) !! key'.

Definition has_room c : Prop :=
  Z.of_nat (size (InMemoryCache.cache_dict (mem c))) < InMemoryCache.max_size_in_memory (mem c).

Lemma holds_other k dl key d key' d' c c' :
  holds k dl key d c' → holds k dl key' d' c → key' ≠ key → keeps_others key c c' → holds k dl key' d' c'.
Proof.
  intros [Hw Hc Hm Hr Ht _ _] [_ _ _ _ _ Hl He] Hne Hk. destruct (Hk key' Hne) as [Ec Et].
  split; [done..| |]; [by rewrite Et|by rewrite Ec].
Qed.

(** Every key of the in-memory level is one of [keys]. *)
Definition only (keys : list string) c : Prop :=
  ∀ key, key ∉ keys → InMemoryCache.cache_dict (mem c) !! key = None.

Lemma only_keeps keys key c c' : only keys c → key ∈ keys → keeps_others key c c' → only keys c'.
Proof. intros Ho Hin Hk key' Hn. destruct (Hk key') as [-> _]; [set_solver|by apply Ho]. Qed.

Lemma only_room keys c :
  only keys c → Z.of_nat (length keys) < InMemoryCache.max_size_in_memory (mem c) → has_room c.
Proof.
  intros Ho Hl. unfold has_room.
  enough (size (InMemoryCache.cache_dict (mem c)) ≤ length keys)%nat by lia.
  rewrite <-size_dom. transitivity (size (list_to_set keys : gset string)).
  - apply subseteq_size. intros key Hk. apply elem_of_list_to_set.
    destruct (decide (key ∈ keys)) as [|Hn]; [done|]. apply Ho in Hn. by apply elem_of_dom in Hk as [? ?]; congruence.
  - clear. induction keys as [|x l IH]; simpl; [vm_compute; lia|].
    pose proof (size_union_alt ({[x]} : gset string) (list_to_set l)).
    assert (size ((list_to_set l : gset string) ∖ {[x]}) ≤ size (list_to_set l : gset string))%nat
      by (apply subseteq_size; set_solver).
    rewrite size_singleton in *. lia.
Qed.

Lemma write_back_keeps key d c : keeps_others key c (write_back key d c).2 ∧ (has_room c → has_room (write_back key d c).2).
Proof.
  unfold write_back, DualCache.on_im, m_zoom, m_modify, keeps_others, has_room, mem. simpl.
  destruct (InMemoryCache.cache_dict _ !! key) as [v|] eqn:E; [|done].
  destruct v; try done. case_match; [done|]. simpl. split.
  - intros key' Hne. by rewrite lookup_insert_ne.
  - by rewrite map_size_insert_Some.
Qed.

Lemma write_back_ok key d c : ∃ c', write_back key d c = (Ok (), c').
Proof. unfold write_back, DualCache.on_im, m_zoom, m_modify. eauto. Qed.

(** Storing the updated dict, by either writer; [None] stands for no [ttl]
    argument. *)
Lemma holds_set k dl key d d' c now ttl :
  holds k dl key d c → d' ≠ [] → now ≤ dl →
  InMemoryCache.check_value_size (mem c) (PDict d') = true →
  dl ≤ now + match ttl with Some x => x | None => k.1.2 end →
  ∃ c', holds k dl key d' c' ∧ (has_room c → keeps_others key c c') ∧
    DualCache.set_cache now key (PDict d') false (option_map Some ttl) c = (Ok (), c') ∧
    DualCache.async_set_cache now key (PDict d') false (option_map Some ttl) c = (Ok (), c').
Proof.
  intros [Hw Hc Hm Hr Ht Hl He] Hne Hn Hsz Hd. set (tk := option_map Some ttl).
  assert (InMemoryCache.max_size_in_memory (mem c) ≠ 0) as Hmx by (by rewrite <-Hc in Hm).
  destruct (InMemoryCache.set_cache_entry now key (PDict d') tk _ Hw Hmx Hsz) as (Ev & e & Ee & Hor).
  pose proof (InMemoryCache.set_cache_ok now key (PDict d') tk _ Hw) as Hok.
  pose proof (InMemoryCache.set_cache_wf now key (PDict d') tk _ Hw) as Hw'.
  pose proof (InMemoryCache.set_cache_cfg now key (PDict d') tk _ Hw) as Hc'.
  pose proof (InMemoryCache.set_cache_frame now key (PDict d') tk (mem c)) as Hfr.
  destruct (InMemoryCache.set_cache now key (PDict d') tk (mem c)) as [r im'] eqn:E. simpl in *. subst r.
  assert (DualCache.with_default_ttl tk c = tk) as Etk.
  { unfold DualCache.with_default_ttl. rewrite Ht. by destruct tk. }
  exists (DualCache.set_im im' c). split_and!.
  - split; unfold mem in *; simpl; try done; [congruence| |].
    + intros e' Ee'. rewrite Ee in Ee'. injection Ee' as <-. destruct Hor as [->|[Ho _]]; [|by apply Hl].
      unfold InMemoryCache.expiry, tk. destruct ttl as [x|]; simpl; [done|].
      by replace (InMemoryCache.default_ttl (DualCache.in_memory_cache c)) with k.1.2 by (by rewrite <-Hc).
    + rewrite Ev. by destruct d'.
  - intros Hroom key' Hne'. unfold mem. simpl. by apply Hfr.
  - apply DualCache.set_cache_no_redis; [done|]. by rewrite Etk.
  - unfold DualCache.async_set_cache, InMemoryCache.async_set_cache, m_try, mbind, M_bind, m_get.
    rewrite Etk, (DualCache.on_im_run _ _ _ _ E). unfold DualCache.on_redis. simpl. by rewrite Hr.
Qed.

(** Dicts of up to [n] entries are small enough for the cache. *)
Definition fits (k : Z * Z * Z) (n : nat) : Prop :=
  ∀ im d, InMemoryCache.cfg im = k → (length d ≤ n)%nat → InMemoryCache.check_value_size im (PDict d) = true.

(** An in-place update followed by the store. *)
Lemma holds_update k dl key d d' c now ttl :
  holds k dl key d c → d' ≠ [] → now ≤ dl → fits k (length d') →
  dl ≤ now + match ttl with Some x => x | None => k.1.2 end →
  ∃ c1 c', write_back key d' c = (Ok (), c1) ∧ holds k dl key d' c' ∧
    (has_room c → keeps_others key c c') ∧
    DualCache.set_cache now key (PDict d') false (option_map Some ttl) c1 = (Ok (), c') ∧
    DualCache.async_set_cache now key (PDict d') false (option_map Some ttl) c1 = (Ok (), c').
Proof.
  intros Hh Hne Hn Hf Hd. destruct (write_back_ready k dl key d d' c Hh Hne) as (c1 & E1 & H1 & H2).
  assert (∃ d0, holds k dl key d0 c1) as [d0 Hd0].
  { destruct d as [|kv d]; [eexists; by apply H2|eexists; by apply H1]. }
  destruct (holds_set k dl key d0 d' c1 now ttl Hd0 Hne Hn) as (c' & Hc' & Hk & Hs & Ha); [|done|].
  { apply Hf; [by destruct Hd0|lia]. }
  exists c1, c'. split_and!; [done|done| |done|done].
  intros Hroom key' Hne'. pose proof (write_back_keeps key d' c) as [Hk1 Hr1]. rewrite E1 in Hk1, Hr1. simpl in *.
  destruct (Hk1 key' Hne'), (Hk (Hr1 Hroom) key' Hne'). split; congruence.
Qed.
End counters.
