(* ===== verification/LeastBusy.v ===== *)
(** * LeastBusy: [router_strategy/least_busy.py]

    The handler counts requests in flight per deployment (one more before a call,
    one less after its success or failure) and picks the deployment with the
    smallest count.  Theorems: while the counter entry lives, the count of a
    deployment is the number of its calls started minus finished; the pick is a
    healthy deployment, with the least count when only healthy ones are counted. *)

From stdpp Require Import base gmap sets list strings.
From Stdlib Require Import ZArith QArith Lia ZifyBool.
From S2P Require Import Prelude Heapq PyHeapq InMemoryCache RedisCache DualCache Strategy.

#[local] Open Scope Z_scope.

Module LeastBusy.

Record t (R : Type) := mk {
  router_cache : DualCache.t R;
  test_flag : bool;
  logged_success : Z;
  logged_failure : Z
}.
Arguments mk {R}. Arguments router_cache {R}. Arguments test_flag {R}.
Arguments logged_success {R}. Arguments logged_failure {R}.

Section ops.
Context `{PyRuntime} {R : Type} `{RedisCacheI R}.

Definition init (c : DualCache.t R) : t R := mk c false 0 0.

Definition set_cache_field (c : DualCache.t R) (h : t R) : t R :=
  mk c (test_flag h) (logged_success h) (logged_failure h).
Definition on_cache {A} (m : M (DualCache.t R) A) : M (t R) A := m_zoom router_cache set_cache_field m.

Definition count_key (model_group : pyval) : string := py_str model_group +:+ "_request_count".

(** [d[id] = d.get(id, 0) + 1], then store. *)
Definition log_pre_api_call (now : Z) (kwargs : pyval) : M (t R) unit :=
  m_try
    (target ← m_lift (call_target kwargs);
     match target with
     | None => mret ()
     | Some (model_group, id) =>
         let key := count_key model_group in
         d ← on_cache (get_counts (DualCache.get_cache now key false None));
         n ← m_lift (py_add (default (PInt 0) (dget id d)) (PInt 1));
         on_cache (write_back key (dset id n d)) ;;
         on_cache (DualCache.set_cache now key (PDict (dset id n d)) false None)
     end)
    (λ _, mret ()).

(** The decrement shared by the four completion callbacks; [testing] is the
    counter of the test flag. *)
Definition log_end (getter : Z → string → M (DualCache.t R) pyval)
    (setter : Z → string → pyval → M (DualCache.t R) unit) (testing : t R → t R)
    (now : Z) (kwargs : pyval) : M (t R) unit :=
  m_try
    (target ← m_lift (call_target kwargs);
     match target with
     | None => mret ()
     | Some (model_group, id) =>
         let key := count_key model_group in
         d ← on_cache (get_counts (getter now key));
         let value := default (PInt 0) (dget id d) in
         if is_none value then mret () else
         n ← m_lift (py_add value (PInt (-1)));
         on_cache (write_back key (dset id n d)) ;;
         on_cache (setter now key (PDict (dset id n d))) ;;
         m_modify (λ h, if test_flag h then testing h else h)
     end)
    (λ _, mret ()).

Definition count_success (h : t R) : t R :=
  mk (router_cache h) (test_flag h) (logged_success h + 1) (logged_failure h).
Definition count_failure (h : t R) : t R :=
  mk (router_cache h) (test_flag h) (logged_success h) (logged_failure h + 1).

Definition sync_get (now : Z) (key : string) : M (DualCache.t R) pyval := DualCache.get_cache now key false None.
Definition async_get (now : Z) (key : string) : M (DualCache.t R) pyval :=
  DualCache.async_get_cache now key false None.
Definition sync_set (now : Z) (key : string) (v : pyval) : M (DualCache.t R) unit :=
  DualCache.set_cache now key v false None.
Definition async_set (now : Z) (key : string) (v : pyval) : M (DualCache.t R) unit :=
  DualCache.async_set_cache now key v false None.

Definition log_success_event := log_end sync_get sync_set count_success.
Definition log_failure_event := log_end sync_get sync_set count_failure.
Definition async_log_success_event := log_end async_get async_set count_success.
Definition async_log_failure_event := log_end async_get async_set count_failure.

(** The first id with the least count; [None] stands for infinity. *)
Fixpoint min_loop (counts : list (string * pyval)) (best : option (string * pyval))
    : res (option (string * pyval)) :=
  match counts with
  | [] => Ok best
  | (k, v) :: rest =>
      less ← match best with
             | Some (_, m) => py_lt v m
             | None => match as_num v with Some _ => Ok true | None => Raise TypeError end
             end;
      min_loop rest (if less : bool then Some (k, v) else best)
  end.

(** The first healthy deployment with the id. *)
Fixpoint find_dep (healthy : list pyval) (id : string) : res (option pyval) :=
  match healthy with
  | [] => Ok None
  | m :: ms => k ← dep_id m; if String.eqb k id then Ok (Some m) else find_dep ms id
  end.

Definition pick_deployment (pick : nat) (healthy : list pyval) (counts : list (string * pyval)) : res pyval :=
  best ← min_loop counts None;
  match best with
  | Some (id, _) =>
      found ← find_dep healthy id;
      match found with Some m => Ok m | None => random_choice pick healthy end
  | None => random_choice pick healthy
  end.

(** [_get_available_deployments]; the zeros are assigned into the dict that was
    passed in. *)
Definition _get_available_deployments (pick : nat) (healthy_deployments : list pyval) (key : string)
    (all_deployments : list (string * pyval)) : M (t R) pyval :=
  counts ← m_lift (fill_zeros healthy_deployments all_deployments);
  on_cache (write_back key counts) ;;
  m_lift (pick_deployment pick healthy_deployments counts).

Definition get_available_deployments (now : Z) (pick : nat) (model_group : string)
    (healthy_deployments : list pyval) : M (t R) pyval :=
  let key := count_key (PStr model_group) in
  d ← on_cache (get_counts (sync_get now key));
  _get_available_deployments pick healthy_deployments key d.

Definition async_get_available_deployments (now : Z) (pick : nat) (model_group : string)
    (healthy_deployments : list pyval) : M (t R) pyval :=
  let key := count_key (PStr model_group) in
  d ← on_cache (get_counts (async_get now key));
  _get_available_deployments pick healthy_deployments key d.
End ops.

(** ** The pick *)

Lemma find_dep_in healthy id m : find_dep healthy id = Ok (Some m) → m ∈ healthy ∧ dep_id m = Ok id.
Proof.
  induction healthy as [|m' ms IH]; simpl; [done|].
  destruct (dep_id m') as [k|e] eqn:E; simpl; [|done].
  destruct (String.eqb_spec k id) as [->|]; [intros [= <-]; split; [set_solver|done]|].
  intros [? ?]%IH. split; [set_solver|done].
Qed.

Lemma find_dep_total healthy id :
  Forall (λ m, is_ok (dep_id m) = true) healthy →
  ∃ o, find_dep healthy id = Ok o ∧ (o = None → ∀ m, m ∈ healthy → dep_id m ≠ Ok id).
Proof.
  induction 1 as [|m ms Hm Hms IH]; simpl; [eexists; split; [done|]; by intros _ m ?%not_elem_of_nil|].
  destruct (dep_id m) as [k|e] eqn:E; simpl; [|done].
  destruct (String.eqb_spec k id) as [->|Hne]; [by exists (Some m)|].
  destruct IH as (o & -> & Ho). exists o. split; [done|]. intros ->.
  intros m' [->|Hin]%elem_of_cons; [congruence|by apply Ho].
Qed.

Lemma min_loop_spec counts best :
  int_counts counts → match best with Some (_, v) => ∃ n, v = PInt n | None => True end →
  ∃ o, min_loop counts best = Ok o ∧
    match o with
    | None => counts = [] ∧ best = None
    | Some (k, v) => ∃ n, v = PInt n ∧ ((k, v) ∈ counts ∨ best = Some (k, v)) ∧
        (∀ k' n', (k', PInt n') ∈ counts → n ≤ n') ∧
        (∀ k' n', best = Some (k', PInt n') → n ≤ n')
    end.
Proof.
  intros Hc. revert best. induction Hc as [|[k v] counts [n Hn] Hc IH]; intros best Hb.
  { exists best. split; [done|]. destruct best as [[k v]|]; [|done]. destruct Hb as [n ->].
    exists n. split_and!; [done|by right|by intros ? ? ?%not_elem_of_nil|]. intros k' n' [= <- <-]. lia. }
  simpl in Hn. subst v. cbn [min_loop]. destruct best as [[bk bv]|].
  - destruct Hb as [b ->]. rewrite py_lt_int. cbn [mbind res_bind].
    destruct (IH (if n <? b then Some (k, PInt n) else Some (bk, PInt b))) as (o & E & Ho).
    { destruct (n <? b); eauto. }
    cbn [snd] in *. exists o. split; [exact E|]. destruct o as [[ok ov]|]; [|destruct Ho as [_ Ho]; by destruct (n <? b)].
    destruct Ho as (x & -> & Hin & H1 & H2). exists x. split_and!; [done| | |].
    + destruct Hin as [Hin|Hin]; [left; set_solver|]. destruct (n <? b); [|by right].
      injection Hin as -> ->. left. set_solver.
    + intros k' n' [[= -> ->]|Hin']%elem_of_cons; [|by eapply H1].
      destruct (Z.ltb_spec n b); [by apply (H2 k)|]. specialize (H2 bk b eq_refl). lia.
    + intros k' n' [= <- <-]. destruct (Z.ltb_spec n b); [|by apply (H2 bk)].
      specialize (H2 k n eq_refl). lia.
  - cbn [as_num snd mbind res_bind]. destruct (IH (Some (k, PInt n))) as (o & E & Ho); [by eexists|].
    exists o. split; [exact E|]. destruct o as [[ok ov]|]; [|by destruct Ho].
    destruct Ho as (x & -> & Hin & H1 & H2). exists x. split_and!; [done| | |done].
    + left. destruct Hin as [Hin|[= -> ->]]; set_solver.
    + intros k' n' [[= -> ->]|Hin']%elem_of_cons; [by apply (H2 k)|by eapply H1].
Qed.

(** The pick is always one of the healthy deployments; when every counted
    deployment is healthy it is one with the least count (an unused one counts 0). *)
Lemma pick_least pick healthy counts :
  healthy ≠ [] → Forall (λ m, is_ok (dep_id m) = true) healthy →
  dict_wf counts → int_counts counts →
  ∃ counts' m, fill_zeros healthy counts = Ok counts' ∧
    pick_deployment pick healthy counts' = Ok m ∧ m ∈ healthy ∧
    ((∀ id v, dget id counts = Some v → ∃ m', m' ∈ healthy ∧ dep_id m' = Ok id) →
     ∀ id m' id', dep_id m = Ok id → m' ∈ healthy → dep_id m' = Ok id' →
       count_of counts id ≤ count_of counts id').
Proof.
  intros Hne Hids Hw Hint.
  destruct (fill_zeros_spec healthy counts Hids) as (counts' & Ef & H1 & H2 & H3 & H4 & H5).
  assert (Hint' : int_counts counts') by (by eapply fill_zeros_int).
  assert (Hsame : ∀ id, count_of counts' id = count_of counts id) by (intros id; by eapply fill_zeros_count).
  destruct (random_choice_in pick healthy Hne) as (x & Ex & Hx).
  destruct (min_loop_spec counts' None Hint' I) as (o & Em & Ho).
  exists counts'. unfold pick_deployment. rewrite Em. cbn [mbind res_bind].
  destruct o as [[k v]|].
  - destruct Ho as (n & -> & Hin & Hmin & _).
    destruct (find_dep_total healthy k Hids) as (o & Eo & Hnone). rewrite Eo. cbn [mbind res_bind].
    assert (dget k counts' = Some (PInt n)) as Hk.
    { destruct Hin as [Hin|]; [|done]. apply dget_in; [by apply H5|done]. }
    destruct o as [m|].
    + apply find_dep_in in Eo as [Hm Hid]. exists m. split_and!; [done|done|done|].
      intros _ id m' id' Hid' Hm' Hi'. assert (id = k) as -> by congruence. rewrite <-!Hsame.
      destruct (H2 _ _ Hm' Hi') as [v' Hv'].
      pose proof (int_counts_get _ _ _ Hint' Hv') as ->. apply dget_Some_in, Hmin in Hv'.
      unfold count_of at 1. by rewrite Hk.
    + exists x. split_and!; [done|done|done|]. intros Hall. exfalso.
      destruct (H4 _ _ Hk) as [Hc|(m' & Hm' & Hi')]; [|by eapply Hnone].
      destruct (Hall _ _ Hc) as (m' & Hm' & Hi'). by eapply Hnone.
  - destruct Ho as [-> _]. exfalso. destruct healthy as [|m ms]; [done|].
    apply Forall_cons in Hids as [Hm _]. destruct (dep_id m) as [k|e] eqn:E; [|done].
    destruct (H2 m k ltac:(set_solver) E) as [? ?]. done.
Qed.

(** ** The counts *)

#[local] Opaque write_back.

Section counting.
Context `{PyRuntime} {R : Type} `{RedisCacheI R}.
Implicit Types h : t R.

(** A call starts, or ends through one of the four completion callbacks. *)
Inductive ending : Type := Success | Failure | AsyncSuccess | AsyncFailure.
Inductive event : Type := Started (id : string) | Ended (how : ending) (id : string).

Definition event_id (ev : event) : string := match ev with Started id | Ended _ id => id end.

Definition end_callback (how : ending) : Z → pyval → M (t R) unit :=
  match how with
  | Success => log_success_event | Failure => log_failure_event
  | AsyncSuccess => async_log_success_event | AsyncFailure => async_log_failure_event
  end.

Definition apply_event (group : string) (ev : Z * event) : M (t R) unit :=
  match ev.2 with
  | Started id => log_pre_api_call ev.1 (call_kwargs group id)
  | Ended how id => end_callback how ev.1 (call_kwargs group id)
  end.

Definition delta (id : string) (ev : Z * event) : Z :=
  match ev.2 with
  | Started id' => if String.eqb id' id then 1 else 0
  | Ended _ id' => if String.eqb id' id then -1 else 0
  end.

(** Calls started minus calls ended. *)
Definition in_flight (id : string) (evs : list (Z * event)) : Z := foldr (λ ev n, delta id ev + n) 0 evs.

(** The handler's counter entry for the group is [d]. *)
Definition counts_are k dl group d h : Prop :=
  holds k dl (count_key (PStr group)) d (router_cache h) ∧ int_counts d ∧ dict_wf d.

Lemma event_step k dl group d h ev :
  counts_are k dl group d h → ev.1 ≤ dl → dl ≤ ev.1 + k.1.2 → fits k (S (length d)) →
  ∃ h' d', apply_event group ev h = (Ok (), h') ∧ counts_are k dl group d' h' ∧
    (length d' ≤ S (length d))%nat ∧ (∀ id, count_of d' id = count_of d id + delta id ev) ∧
    ∀ id v, dget id d' = Some v → (∃ w, dget id d = Some w) ∨ id = event_id ev.2.
Proof.
  intros (Hh & Hi & Hw) Hn Hd Hf. destruct ev as [now ev]. simpl in Hn, Hd.
  destruct (holds_get _ _ _ _ _ now Hh Hn) as [Eg Eag].
  set (id := match ev with Started i | Ended _ i => i end).
  set (x := match ev with Started _ => 1 | Ended _ _ => -1 end).
  set (d' := dset id (PInt (count_of d id + x)) d).
  assert (Hlen : (length d' ≤ S (length d))%nat) by (unfold d'; rewrite length_dset; destruct (dmem id d); lia).
  destruct (holds_update k dl (count_key (PStr group)) d d' (router_cache h) now None Hh)
    as (c1 & c' & Ew & Hc' & Hkeep & Es & Eas); [apply dset_nonnil|done|by intros im x0 ? ?; apply Hf; [|lia]|done|].
  assert (Hd' : ∀ i, count_of d' i = count_of d i + delta i (now, ev)).
  { intros i. unfold count_of at 1, d'. rewrite dget_dset. unfold delta. simpl.
    unfold id, x. destruct ev as [j|how j]; destruct (String.eqb_spec j i) as [->|]; try lia; unfold count_of; lia. }
  assert (Hkeys : ∀ i v, dget i d' = Some v → (∃ w, dget i d = Some w) ∨ i = event_id ev).
  { intros i v. unfold d'. rewrite dget_dset. destruct (String.eqb_spec id i) as [<-|]; [right|left; eauto].
    by destruct ev. }
  assert (Hfinal : ∀ h', router_cache h' = c' → counts_are k dl group d' h').
  { intros h' E. split_and!; [by rewrite E|by apply dset_int_counts|by apply dset_wf]. }
  destruct ev as [i|how i]; unfold apply_event; cbn [fst snd].
  - exists (set_cache_field c' h), d'. split_and!; [|by apply Hfinal|done|done|done].
    unfold log_pre_api_call, m_try, mbind, M_bind, on_cache, m_zoom. simpl. rewrite Eg.
    unfold m_lift. rewrite (get_int _ _ Hi). simpl. unfold d', id, x in Ew, Es. rewrite Ew. simpl.
    simpl in Es. by rewrite Es.
  - assert (∃ h', end_callback how now (call_kwargs group i) h = (Ok (), h') ∧ router_cache h' = c')
      as (h' & Eh & Eh'); [|exists h', d'; split_and!; auto].
    unfold end_callback, log_success_event, log_failure_event, async_log_success_event,
      async_log_failure_event, log_end, sync_get, async_get, sync_set, async_set.
    unfold d', id, x in Ew, Es, Eas. simpl in Es, Eas.
    destruct how; unfold m_try, mbind, M_bind, on_cache, m_zoom, m_lift, m_modify; simpl;
      rewrite ?Eg, ?Eag, (get_int _ _ Hi); simpl; rewrite Ew; simpl; rewrite ?Es, ?Eas;
      eexists; (split; [done|]); simpl; by destruct (test_flag h).
Qed.

Lemma events_run k dl group evs d h :
  counts_are k dl group d h → Forall (λ ev, ev.1 ≤ dl ∧ dl ≤ ev.1 + k.1.2) evs →
  fits k (length d + length evs) →
  ∃ h' d', m_iter (apply_event group) evs h = (Ok (), h') ∧ counts_are k dl group d' h' ∧
    (∀ id, count_of d' id = count_of d id + in_flight id evs) ∧
    ∀ id v, dget id d' = Some v → (∃ w, dget id d = Some w) ∨ ∃ ev, ev ∈ evs ∧ id = event_id ev.2.
Proof.
  intros Hc He. revert d h Hc. induction He as [|ev evs [Hn Hd] He IH]; intros d h Hc Hf.
  { exists h, d. split_and!; [done|done| |eauto]. intros id. simpl. lia. }
  destruct (event_step k dl group d h ev Hc Hn Hd) as (h1 & d1 & E1 & Hc1 & Hl1 & Hd1 & Hk1).
  { intros im x ? ?. apply Hf; [done|]. simpl. lia. }
  destruct (IH d1 h1 Hc1) as (h' & d' & E' & Hc' & Hd' & Hk').
  { intros im x ? ?. apply Hf; [done|]. simpl. lia. }
  exists h', d'. cbn [m_iter]. unfold mbind, M_bind. rewrite E1. split_and!; [done|done| |].
  - intros id. rewrite Hd', Hd1. simpl. lia.
  - intros id v [[w Hw]|(ev' & Hin & ->)]%Hk'; [|right; exists ev'; set_solver].
    destruct (Hk1 _ _ Hw) as [|Hi]; [auto|]. right. exists ev. set_solver.
Qed.

(** A handler built as the router builds it, after events of one lifetime of the
    counter entry. *)
Lemma events_from_init g group t0 evs :
  DualCache.s_default_in_memory_ttl g = None →
  (∀ d, (length d ≤ length evs)%nat → obj_sizeof (PDict d) ≤ 1024 * 1024) →
  Forall (λ ev, t0 ≤ ev.1 ≤ t0 + seconds 600) evs →
  ∃ h d, m_iter (apply_event group) evs (init (DualCache.init g None (None : option R) None None None 1000))
      = (Ok (), h) ∧
    counts_are (InMemoryCache.cfg InMemoryCache.init_default) (t0 + seconds 600) group d h ∧
    (∀ id, count_of d id = in_flight id evs) ∧
    ∀ id v, dget id d = Some v → ∃ ev, ev ∈ evs ∧ id = event_id ev.2.
Proof.
  intros Hg Hsz He. set (c0 := InMemoryCache.init_default).
  assert (Hwf : InMemoryCache.wf c0) by (apply InMemoryCache.wf_init; simpl; lia).
  destruct (events_run (InMemoryCache.cfg c0) (t0 + seconds 600) group evs []
    (init (DualCache.init g None (None : option R) None None None 1000))) as (h & d & E & Hc & Hd & Hk).
  - split_and!; [by split|constructor|constructor].
  - eapply Forall_impl; [exact He|]. simpl. lia.
  - intros im x [= _ _ Hc] Hl. unfold InMemoryCache.check_value_size. simpl. rewrite Hc.
    specialize (Hsz x Hl). lia.
  - exists h, d. split_and!; [done|done|by intros id; rewrite Hd|].
    intros id v [[w Hw]|?]%Hk; done.
Qed.

(** Within the lifetime of the counter entry, the handler's count for a
    deployment is the number of its calls started minus the number ended, through
    whichever of the four completion callbacks; no callback fails. *)
Theorem in_flight_counts_exact g group t0 evs now :
  DualCache.s_default_in_memory_ttl g = None →
  (∀ d, (length d ≤ length evs)%nat → obj_sizeof (PDict d) ≤ 1024 * 1024) →
  Forall (λ ev, t0 ≤ ev.1 ≤ t0 + seconds 600) evs → t0 ≤ now ≤ t0 + seconds 600 →
  let h0 := init (DualCache.init g None (None : option R) None None None 1000) in
  ∃ h d, m_iter (apply_event group) evs h0 = (Ok (), h) ∧
    get_counts (sync_get now (count_key (PStr group))) (router_cache h) = (Ok d, router_cache h) ∧
    ∀ id, count_of d id = in_flight id evs.
Proof.
  intros Hg Hsz He Hnow h0. destruct (events_from_init g group t0 evs Hg Hsz He) as (h & d & E & Hc & Hd & _).
  exists h, d. split_and!; [done| |done].
  destruct Hc as (Hh & _). by destruct (holds_get _ _ _ _ _ now Hh) as [? _]; [lia|].
Qed.

(** Least-busy routing.  After any calls within the lifetime of the counter entry,
    all of them to healthy deployments, both pickers return the same deployment: a
    healthy one with the fewest requests in flight. *)
Theorem pick_is_least_busy g group t0 evs now pick healthy :
  DualCache.s_default_in_memory_ttl g = None →
  (∀ d, (length d ≤ length evs)%nat → obj_sizeof (PDict d) ≤ 1024 * 1024) →
  Forall (λ ev, t0 ≤ ev.1 ≤ t0 + seconds 600) evs → t0 ≤ now ≤ t0 + seconds 600 →
  healthy ≠ [] → Forall (λ m, is_ok (dep_id m) = true) healthy →
  (∀ ev, ev ∈ evs → ∃ m, m ∈ healthy ∧ dep_id m = Ok (event_id ev.2)) →
  let h0 := init (DualCache.init g None (None : option R) None None None 1000) in
  ∃ h m, m_iter (apply_event group) evs h0 = (Ok (), h) ∧
    (get_available_deployments now pick group healthy h).1 = Ok m ∧
    (async_get_available_deployments now pick group healthy h).1 = Ok m ∧
    m ∈ healthy ∧
    ∀ id m' id', dep_id m = Ok id → m' ∈ healthy → dep_id m' = Ok id' → in_flight id evs ≤ in_flight id' evs.
Proof.
  intros Hg Hsz He Hnow Hne Hids Hall h0.
  destruct (events_from_init g group t0 evs Hg Hsz He) as (h & d & E & (Hh & Hi & Hw) & Hd & Hk).
  destruct (pick_least pick healthy d Hne Hids Hw Hi) as (counts & m & Ef & Ep & Hm & Hmin).
  destruct (holds_get _ _ _ _ _ now Hh) as [Eg Eag]; [lia|].
  exists h, m. split_and!; [done| | |done|].
  1,2: unfold get_available_deployments, async_get_available_deployments, _get_available_deployments,
    sync_get, async_get, mbind, M_bind, on_cache, m_zoom, m_lift; rewrite ?Eg, ?Eag; rewrite Ef;
    unfold set_cache_field; cbn [router_cache];
    destruct (write_back_ok (count_key (PStr group)) counts (router_cache h)) as [c' ->]; by rewrite Ep.
  intros id m' id' ? ? ?. rewrite <-!Hd. apply (Hmin ltac:(intros i v [ev [? ->]]%Hk; auto) id m' id'); done.
Qed.
End counting.

#[local] Transparent write_back.

(** ** Concrete runs *)

Section examples.
#[local] Existing Instance toy_runtime.
#[local] Existing Instance RedisCache.toy_client.
#[local] Existing Instance RedisCache.RedisCache_instance.

Definition ex_dep (id : string) : pyval := PDict [("model_info", PDict [("id", PStr id)])].

Definition ex_handler : t (RedisCache.t RedisCache.toy) :=
  init (DualCache.init DualCache.default_settings None None None None None 1000).

Definition ex_events : list (Z * event) :=
  [(0, Started "a"); (1, Started "a"); (2, Started "b"); (3, Ended AsyncSuccess "a"); (4, Ended Failure "b")].

Lemma pick_is_least_busy_witness :
  ∃ h m, m_iter (apply_event "g") ex_events ex_handler = (Ok (), h) ∧
    (get_available_deployments 5 0 "g" [ex_dep "a"; ex_dep "b"] h).1 = Ok m ∧
    (async_get_available_deployments 5 0 "g" [ex_dep "a"; ex_dep "b"] h).1 = Ok m ∧
    m ∈ [ex_dep "a"; ex_dep "b"] ∧
    ∀ id m' id', dep_id m = Ok id → m' ∈ [ex_dep "a"; ex_dep "b"] → dep_id m' = Ok id' →
      in_flight id ex_events ≤ in_flight id' ex_events.
Proof.
  apply (pick_is_least_busy (R := RedisCache.t RedisCache.toy) DualCache.default_settings "g" 0 ex_events 5 0
    [ex_dep "a"; ex_dep "b"]); [reflexivity|intros; vm_compute; discriminate| |unfold seconds; lia|done| |].
  - repeat (constructor; [unfold seconds; simpl; lia|]). constructor.
  - repeat constructor.
  - intros ev Hev. exists (ex_dep (event_id ev.2)). split; [|reflexivity].
    unfold ex_events in Hev. repeat (apply elem_of_cons in Hev as [->|Hev]; [set_solver|]).
    by apply not_elem_of_nil in Hev.
Defined.

Lemma in_flight_counts_exact_witness :
  ∃ h d, m_iter (apply_event "g") ex_events ex_handler = (Ok (), h) ∧
    get_counts (sync_get 5 (count_key (PStr "g"))) (router_cache h) = (Ok d, router_cache h) ∧
    count_of d "a" = 1.
Proof.
  destruct (in_flight_counts_exact (R := RedisCache.t RedisCache.toy) DualCache.default_settings "g" 0 ex_events 5)
    as (h & d & H1 & H2 & H3); [reflexivity|intros; vm_compute; discriminate| |unfold seconds; lia|].
  - repeat (constructor; [unfold seconds; simpl; lia|]). constructor.
  - exists h, d. split_and!; [exact H1|exact H2|exact (H3 "a")].
Defined.

(** When the least counted deployment is not among the healthy ones, the pick
    is random: here the deployment with five requests in flight is taken although
    another healthy one has a single request. *)
Theorem unhealthy_minimum_defeats_least_busy :
  pick_deployment 0 [ex_dep "a"; ex_dep "b"] [("down", PInt 0); ("a", PInt 5); ("b", PInt 1)] = Ok (ex_dep "a").
Proof. vm_compute. reflexivity. Qed.

(** A call that outlives the counter entry (600 s) leaves a negative count, so
    its deployment is preferred over idle ones. *)
Theorem count_negative_after_expiry :
  let h1 := (log_pre_api_call 0 (call_kwargs "g" "a") ex_handler).2 in
  let h2 := (log_success_event (seconds 601) (call_kwargs "g" "a") h1).2 in
  (get_counts (sync_get (seconds 601) (count_key (PStr "g"))) (router_cache h2)).1 = Ok [("a", PInt (-1))] ∧
  (get_available_deployments (seconds 601) 1 "g" [ex_dep "b"; ex_dep "a"] h2).1 = Ok (ex_dep "a").
Proof. vm_compute. auto. Qed.
End examples.
End LeastBusy.
