(* ===== verification/LowestTpm.v ===== *)
(** * LowestTpm: [router_strategy/lowest_tpm_rpm.py]

    Usage-based routing: tokens and requests per deployment are accumulated per
    minute, and the deployment with the fewest tokens that stays within its limits
    is picked.  Theorems: the pick is an eligible deployment with the least usage,
    none is returned only when none is eligible, and the accumulated usage is the
    sum of the logged tokens.  The minute stamp ([strftime]) and the number of input
    tokens ([token_counter], 0 when it raises) are arguments. *)

From stdpp Require Import base gmap sets list strings.
From Stdlib Require Import ZArith QArith Lia ZifyBool.
From S2P Require Import Prelude Heapq PyHeapq PyStr InMemoryCache RedisCache DualCache Strategy.

#[local] Open Scope Z_scope.

Module LowestTpm.

Record t (R : Type) := mk {
  router_cache : DualCache.t R;
  ttl : Z;                                   (* routing_args.ttl *)
  test_flag : bool;
  logged_success : Z
}.
Arguments mk {R}. Arguments router_cache {R}. Arguments ttl {R}. Arguments test_flag {R}.
Arguments logged_success {R}.

Section ops.
Context `{PyRuntime} {R : Type} `{RedisCacheI R}.

Definition init (c : DualCache.t R) (routing_ttl : option Z) : t R :=
  mk c (default (seconds 60) routing_ttl) false 0.

Definition set_cache_field (c : DualCache.t R) (h : t R) : t R :=
  mk c (ttl h) (test_flag h) (logged_success h).
Definition on_cache {A} (m : M (DualCache.t R) A) : M (t R) A := m_zoom router_cache set_cache_field m.

Definition tpm_key (model_group : pyval) (minute : string) : string :=
  py_str model_group +:+ ":tpm:" +:+ minute.
Definition rpm_key (model_group : pyval) (minute : string) : string :=
  py_str model_group +:+ ":rpm:" +:+ minute.

(** [d[id] = d.get(id, 0) + amount], then store with the handler's [ttl]. *)
Definition accumulate (getter : Z → string → M (DualCache.t R) pyval)
    (setter : Z → string → pyval → ttl_kw → M (DualCache.t R) unit)
    (now : Z) (key id : string) (amount : pyval) : M (t R) unit :=
  h ← m_get;
  d ← on_cache (get_counts (getter now key));
  n ← m_lift (py_add (default (PInt 0) (dget id d)) amount);
  on_cache (write_back key (dset id n d)) ;;
  on_cache (setter now key (PDict (dset id n d)) (Some (Some (ttl h)))).

Definition count_success : M (t R) unit :=
  m_modify (λ h, if test_flag h then mk (router_cache h) (ttl h) (test_flag h) (logged_success h + 1) else h).

Definition sync_get (now : Z) (key : string) : M (DualCache.t R) pyval := DualCache.get_cache now key false None.
Definition async_get (now : Z) (key : string) : M (DualCache.t R) pyval :=
  DualCache.async_get_cache now key false None.
Definition sync_set (now : Z) (key : string) (v : pyval) (tl : ttl_kw) : M (DualCache.t R) unit :=
  DualCache.set_cache now key v false tl.
Definition async_set (now : Z) (key : string) (v : pyval) (tl : ttl_kw) : M (DualCache.t R) unit :=
  DualCache.async_set_cache now key v false tl.

(** ["litellm_params" not in kwargs or kwargs["litellm_params"] is None]. *)
Definition no_params (kwargs : pyval) : res bool :=
  match kwargs with PDict d => Ok (is_none (default PNone (dget "litellm_params" d))) | _ => Raise TypeError end.

Definition total_tokens (response_obj : pyval) : res pyval :=
  usage ← py_index response_obj "usage"; py_index usage "total_tokens".

Definition log_success_event (now : Z) (minute : string) (kwargs response_obj : pyval) : M (t R) unit :=
  m_try
    (skip ← m_lift (no_params kwargs);
     if skip : bool then mret () else
     target ← m_lift (call_target kwargs);
     match target with
     | None => mret ()
     | Some (model_group, id) =>
         tokens ← m_lift (total_tokens response_obj);
         accumulate sync_get sync_set now (tpm_key model_group minute) id tokens ;;
         accumulate sync_get sync_set now (rpm_key model_group minute) id (PInt 1) ;;
         count_success
     end)
    (λ _, mret ()).

(** The asynchronous callback reads [model_info] more leniently. *)
Definition async_target (kwargs : pyval) : res (option (pyval * string)) :=
  params ← py_index kwargs "litellm_params";
  metadata ← py_get params "metadata";
  if is_none metadata then Ok None else
  model_group ← py_get metadata "model_group";
  info ← py_get params "model_info";
  let id := match info with PDict d => default PNone (dget "id" d) | _ => PNone end in
  if is_none model_group || is_none id then Ok None else
  k ← id_key id;
  Ok (Some (model_group, k)).

Definition async_log_success_event (now : Z) (minute : string) (kwargs response_obj : pyval) : M (t R) unit :=
  m_try
    (skip ← m_lift (no_params kwargs);
     if skip : bool then mret () else
     target ← m_lift (async_target kwargs);
     match target with
     | None => mret ()
     | Some (model_group, id) =>
         match response_obj with
         | PDict r =>
             if dmem "usage" r then
               tokens ← m_lift (total_tokens response_obj);
               accumulate async_get async_set now (tpm_key model_group minute) id tokens ;;
               accumulate async_get async_set now (rpm_key model_group minute) id (PInt 1) ;;
               count_success
             else mret ()
         | _ => m_raise TypeError
         end
     end)
    (λ _, mret ()).

(** ** The pick *)

(** The last healthy deployment with the id. *)
Fixpoint find_last (healthy : list pyval) (id : string) (acc : option pyval) : res (option pyval) :=
  match healthy with
  | [] => Ok acc
  | m :: ms => k ← dep_id m; find_last ms id (if String.eqb id k then Some m else acc)
  end.

(** [d.get(k)], then [litellm_params], then [model_info]; [PNone] stands for
    infinity. *)
Definition limit_of (m : pyval) (what : string) : res pyval :=
  v ← py_get m what;
  if is_none v then
    params ← py_get_or m "litellm_params" (PDict []);
    v ← py_get params what;
    if is_none v then
      info ← py_get_or m "model_info" (PDict []);
      py_get info what
    else Ok v
  else Ok v.

(** [used > limit] and [used >= limit]. *)
Definition exceeds (used limit : pyval) : res bool :=
  if is_none limit then match as_num used with Some _ => Ok false | None => Raise TypeError end
  else py_lt limit used.
Definition reaches (used limit : pyval) : res bool :=
  if is_none limit then match as_num used with Some _ => Ok false | None => Raise TypeError end
  else b ← py_lt used limit; Ok (negb b).

(** Whether one more request keeps the deployment within its limits. *)
Definition within_limits (rpm_dict : option (list (string * pyval))) (input_tokens : Z)
    (item : string) (item_tpm m : pyval) : res bool :=
  tpm_limit ← limit_of m "tpm";
  rpm_limit ← limit_of m "rpm";
  projected ← py_add item_tpm (PInt input_tokens);
  over_tpm ← exceeds projected tpm_limit;
  if over_tpm : bool then Ok false else
  match rpm_dict ≫= dget item with
  | Some used => next ← py_add used (PInt 1); over_rpm ← reaches next rpm_limit; Ok (negb over_rpm)
  | None => Ok true
  end.

Fixpoint select_loop (healthy : list pyval) (rpm_dict : option (list (string * pyval))) (input_tokens : Z)
    (counts : list (string * pyval)) (best : option (pyval * pyval)) : res (option (pyval * pyval)) :=
  match counts with
  | [] => Ok best
  | (item, item_tpm) :: rest =>
      found ← find_last healthy item None;
      match found with
      | None => select_loop healthy rpm_dict input_tokens rest best
      | Some m =>
          ok ← within_limits rpm_dict input_tokens item item_tpm m;
          if ok : bool then
            less ← match best with
                   | Some (lowest, _) => py_lt item_tpm lowest
                   | None => match as_num item_tpm with Some _ => Ok true | None => Raise TypeError end
                   end;
            select_loop healthy rpm_dict input_tokens rest (if less : bool then Some (item_tpm, m) else best)
          else select_loop healthy rpm_dict input_tokens rest best
      end
  end.

(** The in-place zeros of an existing [tpm_dict]. *)
Definition write_zeros (key : string) (d : list (string * pyval)) : M (DualCache.t R) unit :=
  DualCache.on_im (m_modify (λ im,
    match InMemoryCache.cache_dict im !! key with
    | Some (PDict _) => InMemoryCache.with_cache (<[key := PDict d]>) im
    | _ => im
    end)).

Definition get_available_deployments (now : Z) (minute : string) (model_group : string)
    (healthy_deployments : list pyval) (input_tokens : Z) : M (t R) (option pyval) :=
  let key := tpm_key (PStr model_group) minute in
  tpm ← on_cache (sync_get now key);
  rpm ← on_cache (sync_get now (rpm_key (PStr model_group) minute));
  rpm_dict ← match rpm with PNone => mret None | PDict d => mret (Some d) | _ => m_raise TypeError end;
  counts ← match tpm with
           | PNone => m_lift (fill_zeros healthy_deployments [])
           | PDict d => m_lift (fill_zeros healthy_deployments d)
           | _ => m_raise AttributeError
           end;
  (match tpm with PDict _ => on_cache (write_zeros key counts) | _ => mret () end) ;;
  best ← m_lift (select_loop healthy_deployments rpm_dict input_tokens counts None);
  mret (snd <$> best).
End ops.

(** ** The pick is the least used eligible deployment *)

(** A limit that is absent or an integer. *)
Definition opt_limit (v : pyval) : option (option Z) :=
  match v with PNone => Some None | PInt z => Some (Some z) | _ => None end.

(** What the pick reads of a deployment: its id and its two limits. *)
Definition view (m : pyval) : option (string * option Z * option Z) :=
  match dep_id m, limit_of m "tpm", limit_of m "rpm" with
  | Ok id, Ok a, Ok b =>
      match opt_limit a, opt_limit b with Some x, Some y => Some (id, x, y) | _, _ => None end
  | _, _, _ => None
  end.

Definition rpm_used (rpm_dict : option (list (string * pyval))) (id : string) : option Z :=
  match rpm_dict ≫= dget id with Some (PInt n) => Some n | _ => None end.

(** One more request of [input] tokens stays within the token limit, and below the
    request limit. *)
Definition eligible (counts : list (string * pyval)) (rpm_dict : option (list (string * pyval))) (input : Z)
    (m : pyval) : bool :=
  match view m with
  | Some (id, tpm, rpm) =>
      match tpm with Some z => count_of counts id + input <=? z | None => true end
      && match rpm_used rpm_dict id, rpm with Some u, Some z => u + 1 <? z | _, _ => true end
  | None => false
  end.

Definition has_id (m : pyval) (id : string) : Prop := dep_id m = Ok id.

Lemma view_id m id a b : view m = Some (id, a, b) → has_id m id.
Proof.
  unfold view, has_id. destruct (dep_id m), (limit_of m "tpm") as [x|], (limit_of m "rpm") as [y|]; try done.
  destruct (opt_limit x), (opt_limit y); naive_solver.
Qed.

Section pick.
Variables (healthy : list pyval) (counts : list (string * pyval))
          (rpm_dict : option (list (string * pyval))) (input : Z).
Hypothesis Hview : Forall (λ m, is_Some (view m)) healthy.
Hypothesis Huniq : ∀ m m' id, m ∈ healthy → m' ∈ healthy → has_id m id → has_id m' id → m = m'.
Hypothesis Hrpm : match rpm_dict with Some d => int_counts d | None => True end.

Lemma find_last_spec id acc l :
  (∀ m, m ∈ l → m ∈ healthy) →
  ∃ o, find_last l id acc = Ok o ∧
    match o with
    | Some m => m ∈ l ∧ has_id m id ∨ acc = Some m ∧ ∀ m', m' ∈ l → ¬ has_id m' id
    | None => acc = None ∧ ∀ m', m' ∈ l → ¬ has_id m' id
    end.
Proof.
  revert acc. induction l as [|m l IH]; intros acc Hl; simpl.
  { exists acc. split; [done|]. destruct acc; [right|]; (split; [done|]); by intros ? ?%not_elem_of_nil. }
  assert (is_Some (view m)) as [[[k a] b] Hv] by (apply (proj1 (Forall_forall _ _) Hview), Hl; set_solver).
  pose proof (view_id _ _ _ _ Hv) as Hk. unfold has_id in Hk. rewrite Hk. cbn [mbind res_bind].
  destruct (IH (if String.eqb id k then Some m else acc)) as (o & E & Ho); [intros m' ?; apply Hl; set_solver|].
  exists o. split; [done|]. destruct (String.eqb_spec id k) as [->|Hne].
  - destruct o as [m'|]; [|by destruct Ho]. left. destruct Ho as [[? ?]|[[= <-] _]]; split; auto; set_solver.
  - assert (¬ has_id m id) as Hm by (unfold has_id; congruence).
    destruct o as [m'|].
    + destruct Ho as [[? ?]|[? Hno]]; [left; split; [set_solver|done]|right; split; [done|]].
      intros m'' [->|]%elem_of_cons; auto.
    + destruct Ho as [? Hno]. split; [done|]. intros m'' [->|]%elem_of_cons; auto.
Qed.

Lemma within_limits_eligible m id a b :
  view m = Some (id, a, b) →
  within_limits rpm_dict input id (PInt (count_of counts id)) m = Ok (eligible counts rpm_dict input m).
Proof.
  intros Hv. unfold eligible. rewrite Hv. unfold within_limits, view in *.
  destruct (dep_id m) as [k|]; [|done]. destruct (limit_of m "tpm") as [x|]; [|done].
  destruct (limit_of m "rpm") as [y|]; [|done].
  destruct (opt_limit x) as [x'|] eqn:Ex, (opt_limit y) as [y'|] eqn:Ey; simplify_eq.
  cbn [mbind res_bind]. change (py_add (PInt (count_of counts id)) (PInt input))
    with (Ok (PInt (count_of counts id + input))). cbn [mbind res_bind].
  assert (exceeds (PInt (count_of counts id + input)) x =
          Ok (negb match a with Some z => count_of counts id + input <=? z | None => true end)) as ->.
  { unfold exceeds. destruct x; simplify_eq/=; try done. cbn. f_equal. unfold Qle_bool. simpl. lia. }
  cbn [mbind res_bind]. destruct (match a with Some z => _ | None => true end); [|done]. cbn [negb andb].
  unfold rpm_used. destruct (rpm_dict ≫= dget id) as [u|] eqn:Eu; [|done].
  assert (∃ n, u = PInt n) as [n ->].
  { destruct rpm_dict as [d|]; [|done]. simpl in Eu. eexists. by apply (int_counts_get d id). }
  change (py_add (PInt n) (PInt 1)) with (Ok (PInt (n + 1))). cbn [mbind res_bind].
  unfold reaches. destruct y; simplify_eq/=; try done. cbn. f_equal. unfold Qle_bool. simpl. lia.
Qed.

(** The best so far is an eligible deployment with its usage. *)
Definition good (best : option (pyval * pyval)) : Prop :=
  match best with
  | Some (x, m) => m ∈ healthy ∧ eligible counts rpm_dict input m = true ∧
                   ∃ id, has_id m id ∧ x = PInt (count_of counts id)
  | None => True
  end.

Lemma select_loop_spec l best :
  (∀ k v, (k, v) ∈ l → v = PInt (count_of counts k)) → good best →
  ∃ o, select_loop healthy rpm_dict input l best = Ok o ∧ good o ∧
    match o with
    | None => best = None ∧ ∀ k v m, (k, v) ∈ l → m ∈ healthy → has_id m k → eligible counts rpm_dict input m = false
    | Some (x, _) =>
        ∃ n, x = PInt n ∧
        (∀ k v m, (k, v) ∈ l → m ∈ healthy → has_id m k → eligible counts rpm_dict input m = true →
           n ≤ count_of counts k) ∧
        (∀ y m, best = Some (PInt y, m) → n ≤ y)
    end.
Proof.
  revert best. induction l as [|[k v] l IH]; intros best Hl Hb.
  { exists best. split; [done|]. split; [done|]. destruct best as [[x m]|].
    - destruct Hb as (_ & _ & id & _ & ->). eexists. split_and!; [done|by intros ? ? ? ?%not_elem_of_nil|].
      intros y m' [= <- <-]. lia.
    - split; [done|]. by intros ? ? ? ?%not_elem_of_nil. }
  assert (Hl' : ∀ k' v', (k', v') ∈ l → v' = PInt (count_of counts k')) by (intros; apply Hl; set_solver).
  assert (v = PInt (count_of counts k)) as -> by (apply Hl; set_solver).
  cbn [select_loop]. destruct (find_last_spec k None healthy (λ _ H, H)) as (o & -> & Ho). cbn [mbind res_bind].
  (** An entry that is not taken changes nothing. *)
  assert (Hskip : (∀ m, m ∈ healthy → has_id m k → eligible counts rpm_dict input m = false ∨
                     ∃ y m0, best = Some (PInt y, m0) ∧ y ≤ count_of counts k) →
    ∃ o, select_loop healthy rpm_dict input l best = Ok o ∧ good o ∧
    match o with
    | None => best = None ∧ ∀ k' v' m, (k', v') ∈ (k, PInt (count_of counts k)) :: l → m ∈ healthy → has_id m k' →
                eligible counts rpm_dict input m = false
    | Some (x, _) => ∃ n, x = PInt n ∧
        (∀ k' v' m, (k', v') ∈ (k, PInt (count_of counts k)) :: l → m ∈ healthy → has_id m k' →
           eligible counts rpm_dict input m = true → n ≤ count_of counts k') ∧
        (∀ y m, best = Some (PInt y, m) → n ≤ y)
    end).
  { intros Hno. destruct (IH best Hl' Hb) as (o' & E & Hg & Ho'). exists o'. split_and!; [done|done|].
    destruct o' as [[x m]|].
    - destruct Ho' as (n & -> & H1 & H2). exists n. split_and!; [done| |done].
      intros k' v' m' [[= -> ->]|Hin]%elem_of_cons Hm' Hid Hel; [|by eapply H1].
      destruct (Hno m' Hm' Hid) as [|(y & m0 & -> & Hy)]; [congruence|]. specialize (H2 _ _ eq_refl). lia.
    - destruct Ho' as [-> H1]. split; [done|].
      intros k' v' m' [[= -> ->]|Hin]%elem_of_cons Hm' Hid; [|by eapply H1].
      by destruct (Hno m' Hm' Hid) as [|(? & ? & ? & _)]. }
  destruct o as [m|]; last first.
  { destruct Ho as [_ Hno]. apply Hskip. intros m Hm Hid. by destruct (Hno m Hm). }
  destruct Ho as [[Hm Hid]|[? _]]; [|done].
  destruct (proj1 (Forall_forall _ _) Hview m Hm) as [[[id a] b] Hv].
  assert (id = k) as -> by (pose proof (view_id _ _ _ _ Hv); unfold has_id in *; congruence).
  rewrite (within_limits_eligible _ _ _ _ Hv). cbn [mbind res_bind].
  destruct (eligible counts rpm_dict input m) eqn:Hel; last first.
  { apply Hskip. intros m' Hm' Hid'. left. by rewrite (Huniq m' m k). }
  set (less := match best with
               | Some (lowest, _) => py_lt (PInt (count_of counts k)) lowest
               | None => match as_num (PInt (count_of counts k)) with Some _ => Ok true | None => Raise TypeError end
               end).
  assert (less = Ok (match best with Some (PInt y, _) => count_of counts k <? y | _ => true end)) as ->.
  { unfold less. destruct best as [[x m0]|]; [|done]. destruct Hb as (_ & _ & id & _ & ->). apply py_lt_int. }
  cbn [mbind res_bind]. destruct (match best with Some (PInt y, _) => _ | _ => true end) eqn:Hless; last first.
  { apply Hskip. intros m' Hm' Hid'. right. destruct best as [[x m0]|]; [|done].
    destruct Hb as (_ & _ & id & _ & ->). eexists _, m0. split; [done|]. lia. }
  destruct (IH (Some (PInt (count_of counts k), m)) Hl') as (o' & E & Hg & Ho').
  { split_and!; [done|done|]. by exists k. }
  exists o'. split_and!; [done|done|]. destruct o' as [[x mx]|]; [|by destruct Ho'].
  destruct Ho' as (n & -> & H1 & H2). specialize (H2 _ _ eq_refl) as Hn. exists n. split_and!; [done| |].
  - intros k' v' m' [[= -> ->]|Hin]%elem_of_cons Hm' Hid' Hel'; [lia|by eapply H1].
  - intros y m0 ->. destruct Hb as (_ & _ & id & _ & Hy). lia.
Qed.
End pick.

(** The loop picks an eligible deployment with the least count, if there is one. *)
Lemma select_lowest healthy counts rpm_dict input :
  Forall (λ m, is_Some (view m)) healthy →
  (∀ m m' id, m ∈ healthy → m' ∈ healthy → has_id m id → has_id m' id → m = m') →
  dict_wf counts → int_counts counts → match rpm_dict with Some d => int_counts d | None => True end →
  ∃ counts' best, fill_zeros healthy counts = Ok counts' ∧
    select_loop healthy rpm_dict input counts' None = Ok best ∧
    match snd <$> best with
    | None => ∀ m, m ∈ healthy → eligible counts rpm_dict input m = false
    | Some m => m ∈ healthy ∧ eligible counts rpm_dict input m = true ∧
        ∀ m' id id', m' ∈ healthy → has_id m id → has_id m' id' → eligible counts rpm_dict input m' = true →
          count_of counts id ≤ count_of counts id'
    end.
Proof.
  intros Hview Huniq Hw Hint Hrpm.
  assert (Hids : Forall (λ m, is_ok (dep_id m) = true) healthy).
  { eapply Forall_impl; [exact Hview|]. intros m [[[id a] b] Hv]. by rewrite (view_id _ _ _ _ Hv). }
  destruct (fill_zeros_spec healthy counts Hids) as (counts' & Ef & H1 & H2 & H3 & H4 & H5).
  assert (Hint' : int_counts counts') by (by eapply fill_zeros_int).
  assert (Hsame : ∀ id, count_of counts' id = count_of counts id) by (intros id; by eapply fill_zeros_count).
  assert (Hel : ∀ m, eligible counts' rpm_dict input m = eligible counts rpm_dict input m).
  { intros m. unfold eligible. destruct (view m) as [[[id a] b]|]; [|done]. by rewrite Hsame. }
  destruct (select_loop_spec healthy counts' rpm_dict input Hview Huniq Hrpm counts' None) as (o & Es & Hg & Ho).
  { intros k v Hin. apply (int_counts_get counts'); [done|]. apply dget_in; [by apply H5|done]. }
  { done. }
  assert (Hentry : ∀ m id, m ∈ healthy → has_id m id → (id, PInt (count_of counts' id)) ∈ counts').
  { intros m id Hm Hid. destruct (H2 m id Hm Hid) as [v Hv]. pose proof (int_counts_get _ _ _ Hint' Hv) as ->.
    by apply dget_Some_in. }
  exists counts', o. split_and!; [done|done|]. destruct o as [[x m]|]; simpl.
  - destruct Hg as (Hm & Hme & id & Hid & Ex). destruct Ho as (n & -> & Hmin & _). simplify_eq Ex. intros ->.
    split_and!; [done|by rewrite <-Hel|]. intros m' id1 id' Hm' Hid1 Hid' Hel'.
    assert (id1 = id) as -> by (unfold has_id in *; congruence).
    rewrite <-!Hsame. eapply Hmin; [by eapply Hentry|done|done|by rewrite Hel].
  - destruct Ho as [_ Hno]. intros m Hm. rewrite <-Hel.
    destruct (proj1 (Forall_forall _ _) Hview m Hm) as [[[id a] b] Hv].
    eapply Hno; [by eapply Hentry, (view_id _ _ _ _ Hv)|done|by eapply view_id].
Qed.

(** ** Accumulated usage *)

#[local] Opaque write_back.

Section usage.
Context `{PyRuntime} {R : Type} `{RedisCacheI R}.
Implicit Types h : t R.

(** Successful calls of one model group within one minute. *)
Record call := mkCall { at_time : Z; by_async : bool; to_id : string; tokens : Z }.

Definition response (n : Z) : pyval := PDict [("usage", PDict [("total_tokens", PInt n)])].

Definition log_call (group minute : string) (x : call) : M (t R) unit :=
  (if by_async x then async_log_success_event else log_success_event)
    (at_time x) minute (call_kwargs group (to_id x)) (response (tokens x)).

Definition sum_of (f : call → Z) (id : string) (log : list call) : Z :=
  foldr (λ x n, (if String.eqb (to_id x) id then f x else 0) + n) 0 log.
Definition tokens_of : string → list call → Z := sum_of tokens.
Definition requests_of : string → list call → Z := sum_of (λ _, 1).

Lemma sum_of_snoc f id log x :
  sum_of f id (log ++ [x]) = sum_of f id log + (if String.eqb (to_id x) id then f x else 0).
Proof. unfold sum_of. induction log as [|y log IH]; simpl in *; lia. Qed.

Lemma requests_nonneg id log : 0 ≤ requests_of id log.
Proof. unfold requests_of, sum_of. induction log as [|x log IH]; simpl; [lia|]. destruct (String.eqb _ _); lia. Qed.

(** Both variants of one accumulation have the same effect. *)
Lemma accumulate_step k dl key d h now id amount :
  holds k dl key d (router_cache h) → int_counts d → dict_wf d →
  now ≤ dl → dl ≤ now + ttl h → fits k (S (length d)) →
  ∃ c, let h' := set_cache_field c h in
    accumulate sync_get sync_set now key id (PInt amount) h = (Ok (), h') ∧
    accumulate async_get async_set now key id (PInt amount) h = (Ok (), h') ∧
    holds k dl key (dset id (PInt (count_of d id + amount)) d) c ∧
    (has_room (router_cache h) → keeps_others key (router_cache h) c).
Proof.
  intros Hh Hi Hw Hn Hd Hf. set (d' := dset id (PInt (count_of d id + amount)) d).
  destruct (holds_get _ _ _ _ _ now Hh Hn) as [Eg Eag].
  assert (Hlen : (length d' ≤ S (length d))%nat) by (unfold d'; rewrite length_dset; destruct (dmem id d); lia).
  destruct (holds_update k dl key d d' (router_cache h) now (Some (ttl h)) Hh) as (c1 & c' & Ew & Hc' & Hkeep & Es & Eas);
    [apply dset_nonnil|done|by intros im x ? ?; apply Hf; [|lia]|done|].
  exists c'. split_and!; [| |done|done].
  all: unfold accumulate, sync_get, sync_set, async_get, async_set, mbind, M_bind, m_get, on_cache, m_zoom, m_lift.
  all: unfold d' in Ew, Es, Eas; simpl in Es, Eas; simpl; rewrite ?Eg, ?Eag, (get_int _ _ Hi); simpl;
    rewrite Ew; simpl; by rewrite ?Es, ?Eas.
Qed.

(** The two counter dicts of the minute record the log, and nothing else is cached. *)
Record logged (k : Z * Z * Z) (dl : Z) (group minute : string) (log : list call)
    (dt dr : list (string * pyval)) h : Prop := {
  l_tpm : holds k dl (tpm_key (PStr group) minute) dt (router_cache h);
  l_rpm : holds k dl (rpm_key (PStr group) minute) dr (router_cache h);
  l_only : only [tpm_key (PStr group) minute; rpm_key (PStr group) minute] (router_cache h);
  l_int : int_counts dt ∧ int_counts dr;
  l_wf : dict_wf dt ∧ dict_wf dr;
  l_len : (length dt ≤ length log ∧ length dr ≤ length log)%nat;
  l_tokens id : count_of dt id = tokens_of id log;
  l_requests id : dget id dr = if requests_of id log =? 0 then None else Some (PInt (requests_of id log))
}.

Lemma keys_differ group minute : tpm_key (PStr group) minute ≠ rpm_key (PStr group) minute.
Proof. unfold tpm_key, rpm_key. by intros E%str_app_inj_l. Qed.

Lemma log_call_accumulates group minute x h h1 h2 :
  (if by_async x then accumulate async_get async_set (at_time x) (tpm_key (PStr group) minute) (to_id x) (PInt (tokens x)) h
   else accumulate sync_get sync_set (at_time x) (tpm_key (PStr group) minute) (to_id x) (PInt (tokens x)) h) = (Ok (), h1) →
  (if by_async x then accumulate async_get async_set (at_time x) (rpm_key (PStr group) minute) (to_id x) (PInt 1) h1
   else accumulate sync_get sync_set (at_time x) (rpm_key (PStr group) minute) (to_id x) (PInt 1) h1) = (Ok (), h2) →
  ∃ h', log_call group minute x h = (Ok (), h') ∧ router_cache h' = router_cache h2 ∧ ttl h' = ttl h2.
Proof.
  intros E1 E2. unfold log_call. destruct x as [now [|] id n]; simpl in *;
    unfold async_log_success_event, log_success_event, m_try, mbind, M_bind, m_lift; simpl;
    rewrite E1, E2; eexists; (split; [done|]); by destruct (test_flag h2).
Qed.

Lemma log_call_step k dl group minute log dt dr h x :
  logged k dl group minute log dt dr h → 2 < k.1.1 →
  at_time x ≤ dl → dl ≤ at_time x + ttl h → fits k (S (length log)) →
  ∃ h' dt' dr', log_call group minute x h = (Ok (), h') ∧ logged k dl group minute (log ++ [x]) dt' dr' h' ∧
    ttl h' = ttl h.
Proof.
  intros [Ht Hr Ho [Hit Hir] [Hwt Hwr] [Hlt Hlr] Htok Hreq] Hk Hn Hd Hf.
  set (dt' := dset (to_id x) (PInt (count_of dt (to_id x) + tokens x)) dt).
  set (dr' := dset (to_id x) (PInt (count_of dr (to_id x) + 1)) dr).
  pose proof (keys_differ group minute) as Hne.
  assert (∀ (c : DualCache.t R) d' key, holds k dl key d' c → only [tpm_key (PStr group) minute; rpm_key (PStr group) minute] c →
            has_room c) as Hroom.
  { intros c d' key Hh Hon. eapply only_room; [exact Hon|]. destruct Hh as [_ Hc _ _ _ _ _].
    replace (InMemoryCache.max_size_in_memory (mem c)) with k.1.1 by (by rewrite <-Hc). simpl. lia. }
  destruct (accumulate_step k dl _ dt h (at_time x) (to_id x) (tokens x) Ht Hit Hwt Hn Hd)
    as (c1 & E1 & E1' & Ht1 & Hk1); [by intros im y ? ?; apply Hf; [|lia]|].
  specialize (Hk1 (Hroom _ _ _ Ht Ho)).
  assert (Hr1 : holds k dl (rpm_key (PStr group) minute) dr c1) by (by eapply holds_other; [exact Ht1| |congruence|]).
  assert (Ho1 : only [tpm_key (PStr group) minute; rpm_key (PStr group) minute] c1) by (by eapply only_keeps; [|by left|]).
  destruct (accumulate_step k dl _ dr (set_cache_field c1 h) (at_time x) (to_id x) 1 Hr1 Hir Hwr Hn Hd)
    as (c2 & E2 & E2' & Hr2 & Hk2); [by intros im y ? ?; apply Hf; [|lia]|].
  specialize (Hk2 (Hroom _ _ _ Hr1 Ho1)).
  destruct (log_call_accumulates group minute x h (set_cache_field c1 h) (set_cache_field c2 (set_cache_field c1 h))) as (h' & El & Ec & Etl);
    [by destruct (by_async x)|by destruct (by_async x)|].
  exists h', dt', dr'. split_and!; [done| |done].
  split; rewrite ?Ec; simpl.
  - by eapply holds_other; [exact Hr2| | |].
  - done.
  - by eapply only_keeps; [|right; by left|].
  - split; by apply dset_int_counts.
  - split; by apply dset_wf.
  - rewrite length_app. simpl. unfold dt', dr'. rewrite !length_dset.
    destruct (dmem _ dt), (dmem _ dr); lia.
  - intros id. unfold tokens_of in *. rewrite sum_of_snoc. unfold dt', count_of at 1. rewrite dget_dset.
    destruct (String.eqb_spec (to_id x) id) as [<-|]; [by rewrite Htok|]. fold (count_of dt id). rewrite Htok. lia.
  - intros id. pose proof (requests_nonneg id log) as Hnn. unfold requests_of in *. rewrite sum_of_snoc.
    unfold dr'. rewrite dget_dset. destruct (String.eqb_spec (to_id x) id) as [<-|]; [|by rewrite Z.add_0_r].
    unfold count_of. rewrite Hreq. destruct (Z.eqb_spec (sum_of (λ _, 1) (to_id x) log) 0) as [->|]; [done|].
    destruct (Z.eqb_spec (sum_of (λ _, 1) (to_id x) log + 1) 0); [lia|done].
Qed.

Lemma log_calls_run k dl group minute log dt dr h l :
  logged k dl group minute log dt dr h → 2 < k.1.1 →
  Forall (λ x, at_time x ≤ dl ∧ dl ≤ at_time x + ttl h) l → fits k (length log + length l) →
  ∃ h' dt' dr', m_iter (log_call group minute) l h = (Ok (), h') ∧ logged k dl group minute (log ++ l) dt' dr' h'.
Proof.
  intros Hl Hk. revert log dt dr h Hl. induction l as [|x l IH]; intros log dt dr h Hl Hall Hf.
  { exists h, dt, dr. rewrite app_nil_r. done. }
  apply Forall_cons in Hall as [[Hn Hd] Hall]. simpl in Hf.
  destruct (log_call_step k dl group minute log dt dr h x Hl Hk Hn Hd) as (h1 & dt1 & dr1 & E1 & Hl1 & Et).
  { intros im y ? ?. apply Hf; [done|lia]. }
  destruct (IH (log ++ [x]) dt1 dr1 h1 Hl1) as (h' & dt' & dr' & E & Hl'); [by rewrite Et| |].
  { intros im y ? Hy. apply Hf; [done|]. rewrite length_app in Hy. simpl in Hy. lia. }
  exists h', dt', dr'. cbn [m_iter]. unfold mbind, M_bind. rewrite E1. rewrite <-(assoc_L (++)) in Hl'. done.
Qed.

Lemma log_calls_from_init g group minute tl t0 l :
  DualCache.s_default_in_memory_ttl g = None →
  (∀ d, (length d ≤ length l)%nat → obj_sizeof (PDict d) ≤ 1024 * 1024) →
  Forall (λ x, t0 ≤ at_time x ≤ t0 + default (seconds 60) tl) l →
  ∃ h dt dr, m_iter (log_call group minute) l (init (DualCache.init g None (None : option R) None None None 1000) tl)
      = (Ok (), h) ∧
    logged (InMemoryCache.cfg InMemoryCache.init_default) (t0 + default (seconds 60) tl) group minute l dt dr h.
Proof.
  intros Hg Hsz He. set (c0 := InMemoryCache.init_default).
  assert (Hwf : InMemoryCache.wf c0) by (apply InMemoryCache.wf_init; simpl; lia).
  apply (log_calls_run _ _ _ _ [] [] []).
  - split; try done; split; constructor.
  - done.
  - eapply Forall_impl; [exact He|]. simpl. lia.
  - intros im x [= _ _ Hc] Hl. unfold InMemoryCache.check_value_size. simpl. rewrite Hc.
    specialize (Hsz x Hl). lia.
Qed.

(** Usage is recorded exactly.  After any calls within the lifetime of the minute's
    counters, logged by the synchronous or the asynchronous callback, the
    recorded tokens of a deployment are the sum of the tokens of its calls and the
    recorded requests their number; no callback fails. *)
Theorem usage_adds_up g group minute tl t0 l now :
  DualCache.s_default_in_memory_ttl g = None →
  (∀ d, (length d ≤ length l)%nat → obj_sizeof (PDict d) ≤ 1024 * 1024) →
  Forall (λ x, t0 ≤ at_time x ≤ t0 + default (seconds 60) tl) l →
  t0 ≤ now ≤ t0 + default (seconds 60) tl →
  let h0 := init (DualCache.init g None (None : option R) None None None 1000) tl in
  ∃ h dt dr, m_iter (log_call group minute) l h0 = (Ok (), h) ∧
    get_counts (sync_get now (tpm_key (PStr group) minute)) (router_cache h) = (Ok dt, router_cache h) ∧
    get_counts (sync_get now (rpm_key (PStr group) minute)) (router_cache h) = (Ok dr, router_cache h) ∧
    ∀ id, count_of dt id = tokens_of id l ∧ count_of dr id = requests_of id l.
Proof.
  intros Hg Hsz He Hnow h0.
  destruct (log_calls_from_init g group minute tl t0 l Hg Hsz He) as (h & dt & dr & E & Hl).
  exists h, dt, dr. split; [done|].
  destruct (holds_get _ _ _ _ _ now (l_tpm _ _ _ _ _ _ _ _ Hl)) as [Et _]; [lia|].
  destruct (holds_get _ _ _ _ _ now (l_rpm _ _ _ _ _ _ _ _ Hl)) as [Er _]; [lia|].
  split_and!; [done|done|]. intros id. split; [apply Hl|].
  unfold count_of. rewrite (l_requests _ _ _ _ _ _ _ _ Hl).
  by destruct (Z.eqb_spec (requests_of id l) 0) as [->|].
Qed.

(** One more request of [input] tokens keeps the deployment within its token limit and
    below its request limit, given the calls of the minute. *)
Definition permitted (l : list call) (input : Z) (m : pyval) : bool :=
  match view m with
  | Some (id, tpm, rpm) =>
      match tpm with Some z => tokens_of id l + input <=? z | None => true end
      && match rpm with Some z => (requests_of id l =? 0) || (requests_of id l + 1 <? z) | None => true end
  | None => false
  end.

Lemma permitted_eligible k dl group minute l dt dr h input m o :
  logged k dl group minute l dt dr h → o = None ∧ dr = [] ∨ o = Some dr →
  eligible dt o input m = permitted l input m.
Proof.
  intros Hl Ho. unfold eligible, permitted. destruct (view m) as [[[id tpm] rpm]|]; [|done].
  assert (rpm_used o id = if requests_of id l =? 0 then None else Some (requests_of id l)) as ->.
  { unfold rpm_used. assert (o ≫= dget id = dget id dr) as -> by (by destruct Ho as [[-> ->]| ->]).
    rewrite (l_requests _ _ _ _ _ _ _ _ Hl). by destruct (requests_of id l =? 0). }
  rewrite (l_tokens _ _ _ _ _ _ _ _ Hl). f_equal.
  by destruct (requests_of id l =? 0), rpm.
Qed.

(** Usage-based routing.  After any calls within the lifetime of the minute's
    counters, the pick is a healthy deployment that one more request keeps within its
    limits, with the fewest tokens used among all such deployments; there is no pick
    only when every healthy deployment is at a limit. *)
Theorem pick_is_lowest_eligible g group minute tl t0 l now healthy input :
  DualCache.s_default_in_memory_ttl g = None →
  (∀ d, (length d ≤ length l)%nat → obj_sizeof (PDict d) ≤ 1024 * 1024) →
  Forall (λ x, t0 ≤ at_time x ≤ t0 + default (seconds 60) tl) l →
  t0 ≤ now ≤ t0 + default (seconds 60) tl →
  Forall (λ m, is_Some (view m)) healthy →
  (∀ m m' id, m ∈ healthy → m' ∈ healthy → has_id m id → has_id m' id → m = m') →
  let h0 := init (DualCache.init g None (None : option R) None None None 1000) tl in
  ∃ h o, m_iter (log_call group minute) l h0 = (Ok (), h) ∧
    (get_available_deployments now minute group healthy input h).1 = Ok o ∧
    match o with
    | None => ∀ m, m ∈ healthy → permitted l input m = false
    | Some m => m ∈ healthy ∧ permitted l input m = true ∧
        ∀ m' id id', m' ∈ healthy → has_id m id → has_id m' id' → permitted l input m' = true →
          tokens_of id l ≤ tokens_of id' l
    end.
Proof.
  intros Hg Hsz He Hnow Hview Huniq h0.
  destruct (log_calls_from_init g group minute tl t0 l Hg Hsz He) as (h & dt & dr & E & Hl).
  destruct (holds_lookup _ _ _ _ _ now (l_tpm _ _ _ _ _ _ _ _ Hl)) as [Et _]; [lia|].
  destruct (holds_lookup _ _ _ _ _ now (l_rpm _ _ _ _ _ _ _ _ Hl)) as [Er _]; [lia|].
  set (rpm_dict := match dr with [] => None | _ => Some dr end).
  assert (rpm_dict = None ∧ dr = [] ∨ rpm_dict = Some dr) as Hrpm by (unfold rpm_dict; destruct dr; auto).
  destruct (l_int _ _ _ _ _ _ _ _ Hl) as [Hit Hir]. destruct (l_wf _ _ _ _ _ _ _ _ Hl) as [Hwt _].
  destruct (select_lowest healthy dt rpm_dict input Hview Huniq Hwt Hit) as (counts & best & Ef & Es & Hb).
  { by destruct Hrpm as [[-> _]| ->]. }
  exists h, (snd <$> best). split_and!; [done| |].
  - unfold get_available_deployments, sync_get, mbind, M_bind, on_cache, m_zoom, m_lift. rewrite Et.
    unfold set_cache_field; cbn [router_cache]. rewrite Er.
    replace (match (match dr with [] => PNone | _ :: _ => PDict dr end) with
             | PNone => mret None | PDict d => mret (Some d) | _ => m_raise TypeError end)
      with (mret rpm_dict : M (t R) _) by (unfold rpm_dict; by destruct dr).
    cbn [mret M_ret]. destruct dt as [|kv dt]; rewrite Ef; cbn [fst]; [by rewrite Es|].
    unfold write_zeros, DualCache.on_im, m_zoom, m_modify. by rewrite Es.
  - assert (∀ m, eligible dt rpm_dict input m = permitted l input m) as Hp
      by (intros m; by eapply permitted_eligible).
    destruct (snd <$> best) as [m|]; [|intros m Hm; rewrite <-Hp; by apply Hb].
    destruct Hb as (Hm & Hel & Hmin). split_and!; [done|by rewrite <-Hp|].
    intros m' id id' ? ? ? ?. rewrite <-!(l_tokens _ _ _ _ _ _ _ _ Hl). eapply Hmin; [done..|by rewrite Hp].
Qed.
End usage.

#[local] Transparent write_back.

(** ** Concrete runs *)

Section examples.
#[local] Existing Instance toy_runtime.
#[local] Existing Instance RedisCache.toy_client.
#[local] Existing Instance RedisCache.RedisCache_instance.

Definition ex_dep (id : string) (tpm rpm : pyval) : pyval :=
  PDict [("model_info", PDict [("id", PStr id)]); ("litellm_params", PDict [("tpm", tpm); ("rpm", rpm)])].

Definition ex_healthy : list pyval := [ex_dep "a" (PInt 100) PNone; ex_dep "b" PNone (PInt 10)].

Definition ex_handler : t (RedisCache.t RedisCache.toy) :=
  init (DualCache.init DualCache.default_settings None None None None None 1000) None.

Definition ex_log : list call :=
  [mkCall 0 false "a" 97; mkCall 1 true "b" 120; mkCall 2 false "b" 3].

Lemma ex_log_window : Forall (λ x, 0 ≤ at_time x ≤ 0 + default (seconds 60) None) ex_log.
Proof. repeat (constructor; [vm_compute; intuition discriminate|]). constructor. Qed.

Lemma usage_adds_up_witness :
  ∃ h dt dr, m_iter (log_call "g" "12-30") ex_log ex_handler = (Ok (), h) ∧
    get_counts (sync_get 5 (tpm_key (PStr "g") "12-30")) (router_cache h) = (Ok dt, router_cache h) ∧
    get_counts (sync_get 5 (rpm_key (PStr "g") "12-30")) (router_cache h) = (Ok dr, router_cache h) ∧
    ∀ id, count_of dt id = tokens_of id ex_log ∧ count_of dr id = requests_of id ex_log.
Proof.
  apply (usage_adds_up (R := RedisCache.t RedisCache.toy) DualCache.default_settings "g" "12-30" None 0 ex_log 5);
    [reflexivity|intros; vm_compute; discriminate|apply ex_log_window|vm_compute; intuition discriminate].
Defined.

Lemma pick_is_lowest_eligible_witness :
  ∃ h, m_iter (log_call "g" "12-30") ex_log ex_handler = (Ok (), h) ∧
    (get_available_deployments 5 "12-30" "g" ex_healthy 4 h).1 = Ok (Some (ex_dep "b" PNone (PInt 10))).
Proof.
  destruct (pick_is_lowest_eligible (R := RedisCache.t RedisCache.toy) DualCache.default_settings "g" "12-30" None 0
    ex_log 5 ex_healthy 4) as (h & o & H1 & H2 & H3).
  - reflexivity.
  - intros; vm_compute; discriminate.
  - apply ex_log_window.
  - vm_compute. intuition discriminate.
  - repeat constructor; by eexists.
  - intros m m' id [->|[->|?%not_elem_of_nil]%elem_of_cons]%elem_of_cons
      [->|[->|?%not_elem_of_nil]%elem_of_cons]%elem_of_cons; try done;
      unfold has_id; intros E1 E2; vm_compute in E1, E2; congruence.
  - exists h. split; [exact H1|]. rewrite H2. clear h H1 H2. destruct o as [m|].
    + destruct H3 as ([->|[->|?%not_elem_of_nil]%elem_of_cons]%elem_of_cons & Hp & _); [|reflexivity|done].
      vm_compute in Hp. discriminate.
    + specialize (H3 (ex_dep "b" PNone (PInt 10)) ltac:(right; left)). vm_compute in H3. discriminate.
Defined.

(** The request limit is one request short: a deployment allowed 2 requests per
    minute of which 1 is used is already refused ([rpm + 1 >= limit]). *)
Theorem last_permitted_request_refused :
  let m := ex_dep "a" PNone (PInt 2) in
  eligible [("a", PInt 7)] (Some [("a", PInt 1)]) 0 m = false ∧
  select_loop [m] (Some [("a", PInt 1)]) 0 [("a", PInt 7)] None = Ok None.
Proof. vm_compute. auto. Qed.
End examples.
End LowestTpm.
