(* ===== verification/Duration.v ===== *)
(** * Duration: [litellm_core_utils/duration_parser.py]

    Budget durations ([30s], [1h], [7d], [1mo]) and the time a budget resets.
    Date-times are wall-clock records with their calendar ([datetime] arithmetic is
    wall-clock arithmetic, also for aware values); the conversion to a time zone is
    the parameter [astimezone].  Theorems: a reset time is strictly in the future
    and no further than the duration for hours, minutes and seconds; a month
    is 28 to 31 days; durations parse to the documented number of seconds. *)

From stdpp Require Import base list strings.
From Stdlib Require Import ZArith Lia ZifyBool Ascii.
From S2P Require Import Prelude PyStr.

#[local] Open Scope Z_scope.
Ltac Zify.zify_post_hook ::= Z.to_euclidean_division_equations.

Module Duration.

(** ** The calendar *)

Record datetime := mkDt {
  year : Z; month : Z; day : Z; hour : Z; minute : Z; second : Z; microsecond : Z
}.

Definition is_leap (y : Z) : bool := (y mod 4 =? 0) && (negb (y mod 100 =? 0) || (y mod 400 =? 0)).

Definition days_in_month (y m : Z) : Z :=
  if m =? 2 then (if is_leap y then 29 else 28)
  else if (m =? 4) || (m =? 6) || (m =? 9) || (m =? 11) then 30 else 31.

(** The day after, and the day before, a date. *)
Definition next_date (y m d : Z) : Z * Z * Z :=
  if d <? days_in_month y m then (y, m, d + 1)
  else if m <? 12 then (y, m + 1, 1) else (y + 1, 1, 1).
Definition prev_date (y m d : Z) : Z * Z * Z :=
  if 1 <? d then (y, m, d - 1)
  else if 1 <? m then (y, m - 1, days_in_month y (m - 1)) else (y - 1, 12, 31).

Definition out_of_range : exn := GenericError "date value out of range".

(** [dt + timedelta(days=n)]; years end at 9999. *)
Fixpoint add_days (n : nat) (dt : datetime) : res datetime :=
  match n with
  | O => if year dt <=? 9999 then Ok dt else Raise out_of_range
  | S n' =>
      let '(y, m, d) := next_date (year dt) (month dt) (day dt) in
      add_days n' (mkDt y m d (hour dt) (minute dt) (second dt) (microsecond dt))
  end.

(** [datetime(year=..., month=..., day=1, ...)] at midnight. *)
Definition first_of_month (y m : Z) : res datetime :=
  if (1 <=? y) && (y <=? 9999) then Ok (mkDt y m 1 0 0 0 0) else Raise ValueError.

(** [dt.replace(hour=..., minute=..., second=..., microsecond=...)]. *)
Definition at_time (dt : datetime) (h mi s us : Z) : datetime :=
  mkDt (year dt) (month dt) (day dt) h mi s us.

(** ** Parsing *)

(** The longest run of digits, its value, and the rest; [None] without a digit. *)
Fixpoint read_digits (acc : Z) (seen : bool) (s : string) : option (Z * string) :=
  match s with
  | String a s' =>
      match digit a with
      | Some d => read_digits (10 * acc + d) true s'
      | None => if seen then Some (acc, s) else None
      end
  | EmptyString => if seen then Some (acc, s) else None
  end.

(** The regular expression: digits, then [mo] or at most one of the letters [smhdw]. *)
Definition _extract_from_regex (duration : string) : res (Z * string) :=
  match read_digits 0 false duration with
  | None => Raise ValueError
  | Some (value, rest) =>
      Ok (value,
          if startswith rest "mo" then "mo"
          else match rest with
               | String a _ =>
                   if existsb (Ascii.eqb a) ["s"; "m"; "h"; "d"; "w"]%char then String a "" else ""
               | EmptyString => ""
               end)
  end.

Definition is_lower (a : ascii) : bool := (97 <=? code a) && (code a <=? 122).

Fixpoint take_lower (s : string) : string :=
  match s with String a s' => if is_lower a then String a (take_lower s') else "" | EmptyString => "" end.

(** Digits followed by at least one lower-case letter. *)
Definition _parse_duration (duration : string) : option (Z * string) :=
  match read_digits 0 false duration with
  | None => None
  | Some (value, rest) => match take_lower rest with "" => None | unit => Some (value, unit) end
  end.

(** ** Durations in seconds *)

Definition get_last_day_of_month (y m : Z) : res Z :=
  if m =? 12 then Ok 31
  else if (1 <=? y) && (y <=? 9999) then Ok (let '(_, _, d) := prev_date y (m + 1) 1 in d)
  else Raise ValueError.

(** [_ymd2ord]: days since the first of January of year 1. *)
Definition days_before_year (y : Z) : Z :=
  let y := y - 1 in y * 365 + y / 4 - y / 100 + y / 400.
Fixpoint days_before (y : Z) (m : nat) : Z :=
  match m with O => 0 | S m' => days_before y m' + days_in_month y (Z.of_nat m) end.
Definition toordinal (y m d : Z) : Z := days_before_year y + days_before y (Z.to_nat (m - 1)) + d.

(** The [mo] branch: the same day of the target month, or its last day. *)
Definition month_target (value : Z) (now : datetime) : res datetime :=
  let total_months := month now - 1 + value in
  let target_year := year now + total_months / 12 in
  let target_month := total_months mod 12 + 1 in
  last ← get_last_day_of_month target_year target_month;
  let target_day := if last <? day now then last else day now in
  if (1 <=? target_year) && (target_year <=? 9999)
  then Ok (mkDt target_year target_month target_day (hour now) (minute now) (second now) (microsecond now))
  else Raise ValueError.

Definition duration_in_seconds (now : datetime) (duration : string) : res Z :=
  '(value, unit) ← _extract_from_regex duration;
  if String.eqb unit "s" then Ok value
  else if String.eqb unit "m" then Ok (value * 60)
  else if String.eqb unit "h" then Ok (value * 3600)
  else if String.eqb unit "d" then Ok (value * 86400)
  else if String.eqb unit "w" then Ok (value * 604800)
  else if String.eqb unit "mo" then
    next ← month_target value now;
    Ok (86400 * (toordinal (year next) (month next) (day next) - toordinal (year now) (month now) (day now)))
  else Raise ValueError.

(** ** Reset times *)

(** Days since Monday; the first of January of year 1 was a Monday. *)
Definition weekday (dt : datetime) : Z := (toordinal (year dt) (month dt) (day dt) + 6) mod 7.

Definition next_month_first (dt : datetime) : res datetime :=
  if month dt =? 12 then first_of_month (year dt + 1) 1 else first_of_month (year dt) (month dt + 1).

Definition _handle_day_reset (current_time base_midnight : datetime) (value : Z) : res datetime :=
  if value =? 0 then Ok current_time
  else if value =? 1 then add_days 1 base_midnight
  else if value =? 7 then
    let days_until_monday := (7 - weekday current_time) mod 7 in
    add_days (Z.to_nat (if days_until_monday =? 0 then 7 else days_until_monday)) base_midnight
  else if value =? 30 then next_month_first current_time
  else add_days (Z.to_nat value) (at_time current_time 0 0 0 0).

(** The next multiple of [value] after [current], on the counter's own scale. *)
Definition next_aligned (current value : Z) : Z :=
  if negb (current mod value =? 0) then current + value - current mod value else current + value.

Definition _handle_hour_reset (current_time base_midnight : datetime) (value : Z) : res datetime :=
  if value =? 0 then Ok current_time else
  let next_hour := next_aligned (hour current_time) value in
  if 24 <=? next_hour then
    next_day ← add_days 1 base_midnight;
    Ok (at_time next_day (next_hour mod 24) (minute next_day) (second next_day) (microsecond next_day))
  else Ok (at_time current_time next_hour 0 0 0).

Definition _handle_minute_reset (current_time base_midnight : datetime) (value : Z) : res datetime :=
  if value =? 0 then Ok current_time else
  let next_minute := next_aligned (minute current_time) value in
  let next_hour := hour current_time + next_minute / 60 in
  if 24 <=? next_hour then
    next_day ← add_days 1 base_midnight;
    Ok (at_time next_day (next_hour mod 24) (next_minute mod 60) 0 0)
  else Ok (at_time current_time next_hour (next_minute mod 60) 0 0).

Definition _handle_second_reset (current_time base_midnight : datetime) (value : Z) : res datetime :=
  if value =? 0 then Ok current_time else
  let next_second := next_aligned (second current_time) value in
  let next_minute := minute current_time + next_second / 60 in
  let next_hour := hour current_time + next_minute / 60 in
  if 24 <=? next_hour then
    next_day ← add_days 1 base_midnight;
    Ok (at_time next_day (next_hour mod 24) (next_minute mod 60) (next_second mod 60) 0)
  else Ok (at_time current_time next_hour (next_minute mod 60) (next_second mod 60) 0).

Definition _handle_month_reset (current_time base_midnight : datetime) (value : Z) : res datetime :=
  if negb (value =? 1) then Raise ValueError
  else next_month_first current_time.

Section timezone.
(** [ZoneInfo] looks a zone up by name (and raises on an unknown one); [astimezone]
    rewrites the wall-clock time of one zone as that of another. *)
Context {tzinfo : Type} (utc : tzinfo) (ZoneInfo : string → option tzinfo)
        (astimezone : tzinfo → tzinfo → datetime → datetime).

(** A naive time ([tz_of = None]) is taken to be UTC, and so is an unknown zone. *)
Definition _setup_timezone (current_time : datetime) (tz_of : option tzinfo) (timezone_str : option string)
    : datetime * tzinfo :=
  let tz := match timezone_str with
            | None => utc
            | Some name => default utc (ZoneInfo name)
            end in
  (astimezone (default utc tz_of) tz current_time, tz).

Definition get_next_standardized_reset_time (duration : string) (current_time : datetime)
    (tz_of : option tzinfo) (timezone_str : option string) : res datetime :=
  let '(current_time, tz) := _setup_timezone current_time tz_of timezone_str in
  match _parse_duration duration with
  | None => add_days 1 (at_time current_time 0 0 0 0)
  | Some (value, unit) =>
      let base_midnight := at_time current_time 0 0 0 0 in
      if String.eqb unit "d" then _handle_day_reset current_time base_midnight value
      else if String.eqb unit "h" then _handle_hour_reset current_time base_midnight value
      else if String.eqb unit "m" then _handle_minute_reset current_time base_midnight value
      else if String.eqb unit "s" then _handle_second_reset current_time base_midnight value
      else if String.eqb unit "mo" then _handle_month_reset current_time base_midnight value
      else add_days 1 base_midnight
  end.
End timezone.

Example ex_weekday : weekday (mkDt 2024 2 29 0 0 0 0) = 3.
Proof. reflexivity. Qed.
Example ex_extract : _extract_from_regex "10mo" = Ok (10, "mo") ∧ _extract_from_regex "5x" = Ok (5, "").
Proof. auto. Qed.

(** ** Calendar lemmas *)

Record valid (dt : datetime) : Prop := {
  v_year : 1 ≤ year dt ≤ 9999;
  v_month : 1 ≤ month dt ≤ 12;
  v_day : 1 ≤ day dt ≤ days_in_month (year dt) (month dt);
  v_hour : 0 ≤ hour dt < 24;
  v_minute : 0 ≤ minute dt < 60;
  v_second : 0 ≤ second dt < 60;
  v_us : 0 ≤ microsecond dt < 1000000
}.

Definition ordinal (dt : datetime) : Z := toordinal (year dt) (month dt) (day dt).

(** Microseconds since the first of January of year 1. *)
Definition instant (dt : datetime) : Z :=
  (((ordinal dt * 24 + hour dt) * 60 + minute dt) * 60 + second dt) * 1000000 + microsecond dt.

Lemma days_in_month_bounds y m : 28 ≤ days_in_month y m ≤ 31.
Proof. unfold days_in_month. repeat case_match; lia. Qed.

Lemma days_before_S y m : 1 ≤ m → days_before y (Z.to_nat m) = days_before y (Z.to_nat (m - 1)) + days_in_month y m.
Proof.
  intros Hm. replace (Z.to_nat m) with (S (Z.to_nat (m - 1))) by lia. cbn [days_before].
  do 2 f_equal. lia.
Qed.

Lemma days_before_nonneg y m : 0 ≤ days_before y m.
Proof. induction m as [|m IH]; cbn [days_before]; [lia|]. pose proof (days_in_month_bounds y (Z.of_nat (S m))). lia. Qed.

Lemma days_before_year_S y : days_before_year (y + 1) = days_before_year y + days_before y 12.
Proof.
  unfold days_before_year. replace (days_before y 12) with (365 + (if is_leap y then 1 else 0)).
  - unfold is_leap. destruct (Z.eqb_spec (y mod 4) 0), (Z.eqb_spec (y mod 100) 0), (Z.eqb_spec (y mod 400) 0);
      simpl; lia.
  - simpl. unfold days_in_month. simpl. destruct (is_leap y); reflexivity.
Qed.

(** The first day of the month after. *)
Lemma toordinal_next_month y m :
  1 ≤ m ≤ 12 →
  (if m <? 12 then toordinal y (m + 1) 1 else toordinal (y + 1) 1 1) = toordinal y m (days_in_month y m) + 1.
Proof.
  intros Hm. unfold toordinal. destruct (Z.ltb_spec m 12).
  - replace (m + 1 - 1) with m by lia. rewrite (days_before_S y m) by lia. lia.
  - assert (m = 12) as -> by lia. rewrite days_before_year_S.
    change (days_before y 12) with (days_before y 11 + days_in_month y 12). simpl (Z.to_nat _). simpl. lia.
Qed.

Lemma toordinal_day y m d d' : toordinal y m d' = toordinal y m d + (d' - d).
Proof. unfold toordinal. lia. Qed.

Lemma next_date_spec y m d :
  1 ≤ m ≤ 12 → 1 ≤ d ≤ days_in_month y m →
  let '(y', m', d') := next_date y m d in
  toordinal y' m' d' = toordinal y m d + 1 ∧ 1 ≤ m' ≤ 12 ∧ 1 ≤ d' ≤ days_in_month y' m' ∧ y ≤ y' ≤ y + 1.
Proof.
  intros Hm Hd. unfold next_date. pose proof (toordinal_next_month y m Hm) as Hn.
  destruct (Z.ltb_spec d (days_in_month y m)).
  - rewrite (toordinal_day y m d (d + 1)). lia.
  - pose proof (days_in_month_bounds y (m + 1)). pose proof (days_in_month_bounds (y + 1) 1).
    rewrite (toordinal_day y m d (days_in_month y m)) in Hn.
    destruct (Z.ltb_spec m 12); lia.
Qed.

Lemma add_days_spec n dt r :
  1 ≤ year dt → 1 ≤ month dt ≤ 12 → 1 ≤ day dt ≤ days_in_month (year dt) (month dt) →
  add_days n dt = Ok r →
  ordinal r = ordinal dt + Z.of_nat n ∧ hour r = hour dt ∧ minute r = minute dt ∧ second r = second dt ∧
  microsecond r = microsecond dt.
Proof.
  revert dt. induction n as [|n IH]; intros dt Hy Hm Hd; cbn [add_days].
  { destruct (year dt <=? 9999); [|done]. intros [= <-]. lia. }
  pose proof (next_date_spec (year dt) (month dt) (day dt) Hm Hd) as Hn.
  destruct (next_date (year dt) (month dt) (day dt)) as [[y m] d]. destruct Hn as (Ho & Hm' & Hd' & Hy').
  intros E. apply IH in E as (E1 & E2); simpl in *; [|lia|done|done]. split; [|done].
  unfold ordinal in *. simpl in E1. lia.
Qed.

(** A date is out of range only past the last day of year 9999. *)
Lemma add_days_raise n dt e :
  1 ≤ month dt ≤ 12 → 1 ≤ day dt ≤ days_in_month (year dt) (month dt) →
  add_days n dt = Raise e → toordinal 10000 1 1 ≤ ordinal dt + Z.of_nat n.
Proof.
  revert dt. induction n as [|n IH]; intros dt Hm Hd; cbn [add_days].
  { destruct (Z.leb_spec (year dt) 9999); [done|]. intros _. pose proof (days_before_nonneg (year dt) (Z.to_nat (month dt - 1))).
    unfold ordinal, toordinal. change (days_before 10000 (Z.to_nat (1 - 1))) with 0.
    unfold days_before_year. lia. }
  pose proof (next_date_spec (year dt) (month dt) (day dt) Hm Hd) as Hn.
  destruct (next_date (year dt) (month dt) (day dt)) as [[y m] d]. destruct Hn as (Ho & Hm' & Hd' & Hy').
  intros E. apply IH in E; simpl in *; [|done..]. unfold ordinal in *. simpl in E. lia.
Qed.

Lemma add_one_day dt :
  valid dt → year dt < 9999 → ∃ r, add_days 1 dt = Ok r.
Proof.
  intros [Hy Hm Hd _ _ _ _] Hlt. cbn [add_days].
  pose proof (next_date_spec (year dt) (month dt) (day dt) Hm Hd) as Hn.
  destruct (next_date (year dt) (month dt) (day dt)) as [[y m] d]. destruct Hn as (_ & _ & _ & Hy').
  simpl. destruct (Z.leb_spec y 9999); [eauto|lia].
Qed.

Lemma midnight_valid dt : valid dt → valid (at_time dt 0 0 0 0).
Proof. intros [? ? ? ? ? ? ?]. split; simpl; try done; lia. Qed.

Lemma next_aligned_bounds c v : 0 ≤ c → 0 < v → c < next_aligned c v ≤ c + v.
Proof.
  intros Hc Hv. unfold next_aligned. pose proof (Z.mod_pos_bound c v Hv) as Hr.
  destruct (Z.eqb_spec (c mod v) 0); simpl; [lia|]. revert Hr n. generalize (c mod v). lia.
Qed.

(** ** Bounds of reset times *)

(** A later day. *)
Lemma instant_later_day a b : valid a → ordinal a < ordinal b → 0 ≤ hour b → 0 ≤ minute b → 0 ≤ second b →
  0 ≤ microsecond b → instant a < instant b.
Proof. intros [_ _ _ ? ? ? ?] ? ? ? ? ?. unfold instant. nia. Qed.

(** The two ways the handlers build their result: a time of day past the end of the
    day, cut to the next day, and a time of the same day.  [h], [mi], [s] are the
    target's fields before the cut. *)
Lemma reset_next_day cur nd h mi s :
  valid cur → add_days 1 (at_time cur 0 0 0 0) = Ok nd → 24 ≤ h → 0 ≤ mi < 60 → 0 ≤ s < 60 →
  let r := at_time nd (h mod 24) mi s 0 in
  instant cur < instant r ≤ (((ordinal cur * 24 + h) * 60 + mi) * 60 + s) * 1000000.
Proof.
  intros Hv End Hh Hmi Hs r. apply add_days_spec in End as (Ho & _); [|apply Hv..].
  assert (ordinal r = ordinal cur + 1) as Hr by (unfold ordinal in *; simpl in *; lia).
  pose proof (Z.mod_pos_bound h 24 ltac:(lia)) as Hb.
  assert (24 + h mod 24 ≤ h) as Hc by lia.
  split; [apply instant_later_day; [done|lia|simpl; lia..]|].
  unfold instant. rewrite Hr. unfold r. simpl. revert Hb Hc. generalize (h mod 24). intros. lia.
Qed.

Lemma reset_bounds cur h mi s period :
  valid cur → year cur < 9999 → 0 ≤ mi < 60 → 0 ≤ s < 60 →
  instant cur < (((ordinal cur * 24 + h) * 60 + mi) * 60 + s) * 1000000 ≤ instant cur + period →
  ∃ r, (if 24 <=? h then
          next_day ← add_days 1 (at_time cur 0 0 0 0); Ok (at_time next_day (h mod 24) mi s 0)
        else Ok (at_time cur h mi s 0)) = Ok r ∧
    instant cur < instant r ≤ instant cur + period.
Proof.
  intros Hv Hy Hmi Hs Hb. destruct (add_one_day _ (midnight_valid cur Hv) Hy) as [nd End].
  destruct (Z.leb_spec 24 h).
  - rewrite End. eexists. split; [done|].
    destruct (reset_next_day cur nd h mi s Hv End ltac:(done) Hmi Hs). lia.
  - eexists. split; [done|]. unfold instant, ordinal in *. simpl. lia.
Qed.

Lemma hour_reset_bounds cur v :
  valid cur → year cur < 9999 → 0 < v →
  ∃ r, _handle_hour_reset cur (at_time cur 0 0 0 0) v = Ok r ∧
    instant cur < instant r ≤ instant cur + v * 3600 * 1000000.
Proof.
  intros Hv Hy Hpos. unfold _handle_hour_reset. destruct (Z.eqb_spec v 0); [lia|].
  pose proof (next_aligned_bounds (hour cur) v ltac:(apply Hv) Hpos) as Hna.
  destruct (add_one_day _ (midnight_valid cur Hv) Hy) as [nd End].
  apply add_days_spec in End as Hnd; [|apply Hv..]. destruct Hnd as (_ & _ & Hmi & Hs & Hus).
  destruct (reset_bounds cur (next_aligned (hour cur) v) 0 0 (v * 3600 * 1000000) Hv Hy) as (r & E & Hr);
    [lia|lia| |].
  { destruct Hv as [_ _ _ ? ? ? ?]. unfold instant. lia. }
  rewrite End in *. cbn [mbind res_bind] in *. simpl in Hmi, Hs, Hus. rewrite Hmi, Hs, Hus. eauto.
Qed.

Lemma minute_reset_bounds cur v :
  valid cur → year cur < 9999 → 0 < v →
  ∃ r, _handle_minute_reset cur (at_time cur 0 0 0 0) v = Ok r ∧
    instant cur < instant r ≤ instant cur + v * 60 * 1000000.
Proof.
  intros Hv Hy Hpos. unfold _handle_minute_reset. destruct (Z.eqb_spec v 0); [lia|].
  pose proof (next_aligned_bounds (minute cur) v ltac:(apply Hv) Hpos) as Hna.
  revert Hna. generalize (next_aligned (minute cur) v) as na. intros na Hna.
  apply reset_bounds; [done|done|lia|lia|]. destruct Hv as [_ _ _ ? ? ? ?]. unfold instant. lia.
Qed.

Lemma second_reset_bounds cur v :
  valid cur → year cur < 9999 → 0 < v →
  ∃ r, _handle_second_reset cur (at_time cur 0 0 0 0) v = Ok r ∧
    instant cur < instant r ≤ instant cur + v * 1000000.
Proof.
  intros Hv Hy Hpos. unfold _handle_second_reset. destruct (Z.eqb_spec v 0); [lia|].
  pose proof (next_aligned_bounds (second cur) v ltac:(apply Hv) Hpos) as Hna.
  revert Hna. generalize (next_aligned (second cur) v) as na. intros na Hna.
  apply reset_bounds; [done|done|lia|lia|]. destruct Hv as [_ _ _ ? ? ? ?]. unfold instant. lia.
Qed.

Lemma add_days_future cur n r :
  valid cur → (0 < n)%nat → add_days n (at_time cur 0 0 0 0) = Ok r → instant cur < instant r.
Proof.
  intros Hv Hn E. apply add_days_spec in E as (Ho & Hh & Hmi & Hs & Hus); [|apply Hv..].
  apply instant_later_day; [done|unfold ordinal in *; simpl in *; lia|rewrite ?Hh, ?Hmi, ?Hs, ?Hus; simpl; lia..].
Qed.

Lemma next_month_future cur r : valid cur → next_month_first cur = Ok r → instant cur < instant r.
Proof.
  intros Hv. pose proof (toordinal_next_month (year cur) (month cur) ltac:(apply Hv)) as Hn.
  pose proof (v_day _ Hv) as Hd. pose proof (v_month _ Hv) as Hm.
  rewrite (toordinal_day _ _ (day cur) (days_in_month (year cur) (month cur))) in Hn.
  unfold next_month_first, first_of_month.
  destruct (Z.eqb_spec (month cur) 12), (Z.ltb_spec (month cur) 12); try lia;
    (destruct (_ && _); [|done]); intros [= <-]; (apply instant_later_day; [done| |simpl; lia..]);
    unfold ordinal; simpl; lia.
Qed.

Lemma day_reset_future cur v r :
  valid cur → 0 < v → _handle_day_reset cur (at_time cur 0 0 0 0) v = Ok r → instant cur < instant r.
Proof.
  intros Hv Hpos. unfold _handle_day_reset.
  destruct (Z.eqb_spec v 0); [lia|]. destruct (Z.eqb_spec v 1); [by apply add_days_future; [|lia]|].
  destruct (Z.eqb_spec v 7).
  { apply add_days_future; [done|]. pose proof (Z.mod_pos_bound (7 - weekday cur) 7 ltac:(lia)) as Hb.
    revert Hb. generalize ((7 - weekday cur) mod 7). intros w Hb. destruct (Z.eqb_spec w 0); lia. }
  destruct (Z.eqb_spec v 30); [by apply next_month_future|]. by apply add_days_future; [|lia].
Qed.

Lemma next_month_total cur : valid cur → year cur < 9999 → ∃ r, next_month_first cur = Ok r.
Proof.
  intros [Hy _ _ _ _ _ _] Hlt. unfold next_month_first, first_of_month.
  destruct (month cur =? 12); rewrite (proj2 (Z.leb_le 1 _)), (proj2 (Z.leb_le _ 9999)) by lia; simpl; eauto.
Qed.

Lemma next_day_future cur :
  valid cur → year cur < 9999 → ∃ r, add_days 1 (at_time cur 0 0 0 0) = Ok r ∧ instant cur < instant r.
Proof.
  intros Hv Hy. destruct (add_one_day _ (midnight_valid cur Hv) Hy) as [r Hr].
  exists r. split; [done|]. by apply (add_days_future cur 1); [|lia|].
Qed.

Lemma day_reset_total cur v :
  valid cur → year cur < 9999 → 0 < v →
  match _handle_day_reset cur (at_time cur 0 0 0 0) v with
  | Ok r => instant cur < instant r
  | Raise _ => ∃ v', Some (v, "d") = Some (v', "mo") ∧ v' ≠ 1 ∨
                     Some (v, "d") = Some (v', "d") ∧ toordinal 10000 1 1 ≤ ordinal cur + v'
  end.
Proof.
  intros Hv Hy Hpos. destruct (_handle_day_reset _ _ _) as [r|e] eqn:E; [by eapply day_reset_future|].
  exists v. right. split; [done|].
  assert (Hr : ∀ n, (Z.of_nat n ≤ v) → add_days n (at_time cur 0 0 0 0) = Raise e → toordinal 10000 1 1 ≤ ordinal cur + v).
  { intros n Hn En. apply add_days_raise in En; [|apply Hv..]. unfold ordinal in *. simpl in En. lia. }
  unfold _handle_day_reset in E. destruct (Z.eqb_spec v 0); [done|].
  destruct (Z.eqb_spec v 1); [apply (Hr 1%nat); [lia|done]|].
  destruct (Z.eqb_spec v 7).
  { eapply Hr; [|exact E]. pose proof (Z.mod_pos_bound (7 - weekday cur) 7 ltac:(lia)) as Hb.
    revert Hb. generalize ((7 - weekday cur) mod 7). intros w Hb. destruct (Z.eqb_spec w 0); lia. }
  destruct (Z.eqb_spec v 30); [|eapply Hr; [|exact E]; lia].
  destruct (next_month_total cur Hv Hy) as [r Hm]. congruence.
Qed.

(** The reset times of the units below a day: the latest they can be. *)
Definition period (value : Z) (unit : string) : option Z :=
  if String.eqb unit "h" then Some (value * 3600 * 1000000)
  else if String.eqb unit "m" then Some (value * 60 * 1000000)
  else if String.eqb unit "s" then Some (value * 1000000)
  else None.

Section reset.
Context {tzinfo : Type} (utc : tzinfo) (ZoneInfo : string → option tzinfo)
        (astimezone : tzinfo → tzinfo → datetime → datetime).
#[local] Abbreviation reset := (get_next_standardized_reset_time utc ZoneInfo astimezone).
#[local] Abbreviation local now tz zone := (fst (_setup_timezone utc ZoneInfo astimezone now tz zone)).

(** A budget never resets in the past.  For a duration with a positive number,
    and for one that does not parse, there is a reset time, strictly later than the
    current time in the zone of the budget; the only durations refused are
    months other than one and days that lead past the year 9999. *)
Theorem reset_in_future duration now tz zone :
  valid (local now tz zone) → year (local now tz zone) < 9999 →
  match _parse_duration duration with Some (v, _) => 0 < v | None => True end →
  match reset duration now tz zone with
  | Ok r => instant (local now tz zone) < instant r
  | Raise _ =>
      ∃ v, (_parse_duration duration = Some (v, "mo") ∧ v ≠ 1) ∨
           (_parse_duration duration = Some (v, "d") ∧ toordinal 10000 1 1 ≤ ordinal (local now tz zone) + v)
  end.
Proof.
  unfold get_next_standardized_reset_time.
  destruct (_setup_timezone _ _ _ _ _ _) as [cur tz']. cbn [fst]. intros Hv Hy Hpos.
  pose proof (next_day_future cur Hv Hy) as (nd & Hnd & Hlt).
  destruct (_parse_duration duration) as [[v u]|]; [|by rewrite Hnd].
  destruct (String.eqb_spec u "d") as [->|_]; [by apply day_reset_total|].
  destruct (String.eqb u "h"); [by edestruct hour_reset_bounds as (r & -> & ? & _)|].
  destruct (String.eqb u "m"); [by edestruct minute_reset_bounds as (r & -> & ? & _)|].
  destruct (String.eqb u "s"); [by edestruct second_reset_bounds as (r & -> & ? & _)|].
  destruct (String.eqb_spec u "mo") as [->|_]; [|by rewrite Hnd].
  unfold _handle_month_reset. destruct (Z.eqb_spec v 1); simpl; [|eauto].
  destruct (next_month_total cur Hv Hy) as [r Hr]. rewrite Hr. by apply next_month_future.
Qed.

(** A duration of hours, minutes or seconds always has a reset time, strictly
    later than the current time and at most the duration away: no budget window is
    longer than it was configured. *)
Theorem reset_within_duration duration now tz zone v u p :
  valid (local now tz zone) → year (local now tz zone) < 9999 →
  _parse_duration duration = Some (v, u) → 0 < v → period v u = Some p →
  ∃ r, reset duration now tz zone = Ok r ∧
    instant (local now tz zone) < instant r ≤ instant (local now tz zone) + p.
Proof.
  unfold get_next_standardized_reset_time, period.
  destruct (_setup_timezone _ _ _ _ _ _) as [cur tz']. cbn [fst]. intros Hv Hy -> Hpos.
  destruct (String.eqb_spec u "h") as [->|_];
    [|destruct (String.eqb_spec u "m") as [->|_]; [|destruct (String.eqb_spec u "s") as [->|_]; [|done]]];
    intros [= <-]; simpl; auto using hour_reset_bounds, minute_reset_bounds, second_reset_bounds.
Qed.
End reset.

(** ** Months in seconds *)

Lemma last_day_spec y m :
  1 ≤ m ≤ 12 → 1 ≤ y ≤ 9999 → get_last_day_of_month y m = Ok (days_in_month y m).
Proof.
  intros Hm Hy. unfold get_last_day_of_month, prev_date.
  destruct (Z.eqb_spec m 12) as [->|]; [done|].
  rewrite (proj2 (Z.leb_le 1 _)), (proj2 (Z.leb_le _ 9999)), (proj2 (Z.ltb_lt 1 (m + 1))) by lia.
  simpl. do 2 f_equal. lia.
Qed.

(** One month from any valid date is a valid date of the next month, the same day
    or, where the next month is too short, its last day, at the same time of day; the
    seconds returned lead exactly there, and are 28 to 31 days. *)
Theorem one_month_in_seconds now :
  valid now → year now < 9999 →
  ∃ next, month_target 1 now = Ok next ∧ valid next ∧
    day next = Z.min (day now) (days_in_month (year next) (month next)) ∧
    (year next * 12 + month next = year now * 12 + month now + 1) ∧
    ∃ s, duration_in_seconds now "1mo" = Ok s ∧ instant next = instant now + s * 1000000 ∧
         28 * 86400 ≤ s ≤ 31 * 86400.
Proof.
  intros Hv Hy. pose proof Hv as [Hvy Hm Hd Hh Hmi Hs Hus].
  set (y' := year now + (month now - 1 + 1) / 12). set (m' := (month now - 1 + 1) mod 12 + 1).
  assert (1 ≤ m' ≤ 12 ∧ 1 ≤ y' ≤ 9999 ∧ y' * 12 + m' = year now * 12 + month now + 1 ∧
          (month now < 12 ∧ m' = month now + 1 ∧ y' = year now ∨ month now = 12 ∧ m' = 1 ∧ y' = year now + 1))
    as (Hm' & Hy' & Hnext & Hcase) by (subst y' m'; lia).
  pose proof (toordinal_next_month (year now) (month now) Hm) as Hn.
  pose proof (days_in_month_bounds y' m') as Hb'. pose proof (days_in_month_bounds (year now) (month now)) as Hb.
  set (d' := if days_in_month y' m' <? day now then days_in_month y' m' else day now).
  assert (d' = Z.min (day now) (days_in_month y' m')) as Hd'
    by (subst d'; destruct (Z.ltb_spec (days_in_month y' m') (day now)); lia).
  assert (month_target 1 now = Ok (mkDt y' m' d' (hour now) (minute now) (second now) (microsecond now))) as Ht.
  { unfold month_target. fold y' m'. rewrite last_day_spec by done. simpl. fold d'.
    by rewrite (proj2 (Z.leb_le 1 _)), (proj2 (Z.leb_le _ 9999)) by lia. }
  clearbody y' m' d'. rewrite Ht. eexists. split; [done|]. split; [split; simpl; done || lia|].
  split; [done|]. split; [done|].
  unfold duration_in_seconds. change (_extract_from_regex "1mo") with (Ok (1, "mo")).
  cbn [mbind res_bind String.eqb Ascii.eqb Bool.eqb]. rewrite Ht. eexists. split; [reflexivity|].
  assert (28 ≤ toordinal y' m' d' - toordinal (year now) (month now) (day now) ≤ 31) as Hdays.
  { rewrite (toordinal_day _ _ 1 d'), (toordinal_day (year now) (month now) (days_in_month (year now) (month now)) (day now)).
    destruct Hcase as [(Hlt & -> & ->)|(E12 & -> & ->)].
    - rewrite (proj2 (Z.ltb_lt _ _)) in Hn by lia. lia.
    - rewrite E12 in *. change (12 <? 12) with false in Hn. change (days_in_month (year now) 12) with 31 in *.
      change (days_in_month (year now + 1) 1) with 31 in *. cbv iota in Hn. lia. }
  split; [|cbn [year month day]; lia]. unfold instant, ordinal. simpl. lia.
Qed.

(** ** Examples and limits *)

(** One zone, UTC: enough to run the functions. *)
Definition one_zone (name : string) : option Z := if String.eqb name "UTC" then Some 0 else None.
Definition same_zone (_ _ : Z) (dt : datetime) : datetime := dt.
#[local] Abbreviation run duration now :=
  (get_next_standardized_reset_time 0 one_zone same_zone duration now None (Some "UTC")).

Definition new_year's_eve : datetime := mkDt 2024 12 31 22 10 0 0.
Lemma new_year's_eve_valid : valid new_year's_eve.
Proof. split; vm_compute; split; (reflexivity || discriminate). Qed.

Lemma reset_in_future_witness : instant new_year's_eve < instant (mkDt 2025 1 1 0 0 0 0).
Proof.
  apply (reset_in_future 0 one_zone same_zone "30d" new_year's_eve None (Some "UTC"));
    [apply new_year's_eve_valid|vm_compute; reflexivity..].
Defined.

Lemma reset_within_duration_witness :
  ∃ r, run "4h" new_year's_eve = Ok r ∧
    instant new_year's_eve < instant r ≤ instant new_year's_eve + 4 * 3600 * 1000000.
Proof.
  apply (reset_within_duration 0 one_zone same_zone "4h" new_year's_eve None (Some "UTC") 4 "h");
    [apply new_year's_eve_valid|vm_compute; reflexivity..].
Defined.

Lemma one_month_in_seconds_witness :
  ∃ next, month_target 1 (mkDt 2024 1 31 9 0 0 0) = Ok next ∧ valid next ∧
    day next = Z.min 31 (days_in_month (year next) (month next)) ∧
    (year next * 12 + month next = 2024 * 12 + 1 + 1) ∧
    ∃ s, duration_in_seconds (mkDt 2024 1 31 9 0 0 0) "1mo" = Ok s ∧
         instant next = instant (mkDt 2024 1 31 9 0 0 0) + s * 1000000 ∧ 28 * 86400 ≤ s ≤ 31 * 86400.
Proof.
  apply (one_month_in_seconds (mkDt 2024 1 31 9 0 0 0)); [split; vm_compute; split; (reflexivity || discriminate)|vm_compute; reflexivity].
Defined.

(** The two readers of a duration do not agree.  A week is 604800 seconds to
    [duration_in_seconds] but a budget with that duration resets at the next midnight,
    two hours away here; and a duration of two days given in hours resets the
    next midnight as well, although the same two days given as [2d] reset two
    midnights later. *)
Theorem weeks_and_long_hours_reset_early :
  duration_in_seconds new_year's_eve "1w" = Ok 604800 ∧
  run "1w" new_year's_eve = Ok (mkDt 2025 1 1 0 0 0 0) ∧
  duration_in_seconds new_year's_eve "48h" = duration_in_seconds new_year's_eve "2d" ∧
  run "48h" new_year's_eve = Ok (mkDt 2025 1 1 0 0 0 0) ∧
  run "2d" new_year's_eve = Ok (mkDt 2025 1 2 0 0 0 0).
Proof. vm_compute. auto. Qed.
End Duration.
