(* ===== verification/FallbackSelect.v ===== *)
(** * FallbackSelect: which model groups a failed request falls back to

    [router_utils/fallback_event_handlers.py] ([_check_stripped_model_group],
    [get_fallback_model_group], [_check_non_standard_fallback_format]) and the helpers
    of [router.py] that read a fallback list ([validate_fallbacks],
    [_get_fallback_model_group_from_fallbacks], [_get_first_default_fallback],
    [_has_default_fallbacks], [_should_raise_content_policy_error]).  A fallback list is
    a list of dynamic values; [get_fallback_model_group] also returns the list it
    leaves behind, because it pops strings off it while it enumerates it.  The list of
    known providers is an argument. *)

From stdpp Require Import base sets list strings.
From Stdlib Require Import ZArith Lia Ascii.
From S2P Require Import Prelude PyStr.

#[local] Open Scope Z_scope.

Module FallbackSelect.

(** [s.replace(sub, "")] for a non-empty [sub]: occurrences are removed from left to
    right; [skip] counts the characters of the current one that are left. *)
Fixpoint remove_all (skip : nat) (sub s : string) : string :=
  match s with
  | EmptyString => ""
  | String a s' =>
      match skip with
      | S k => remove_all k sub s'
      | O => if startswith s sub then remove_all (String.length sub - 1) sub s'
             else String a (remove_all 0 sub s')
      end
  end.

(** A variable that holds [v]: [None] is the value [None]. *)
Definition not_none (v : pyval) : option pyval := if is_none v then None else Some v.

Section providers.
Variable provider_list : list string.

Definition _check_stripped_model_group (model_group fallback_key : string) : bool :=
  existsb (λ provider,
    startswith model_group (provider +:+ "/") &&
    String.eqb (remove_all 0 (provider +:+ "/") model_group) fallback_key) provider_list.

(** [list(item.keys())[0]] and [item[that key]]. *)
Definition first_entry (d : list (string * pyval)) : res (string * pyval) :=
  match d with [] => Raise IndexError | kv :: _ => Ok kv end.

(** The variables of the loop. *)
Record found := mkFound {
  generic_fallback_idx : option nat;
  stripped_model_fallback : option pyval;
  fallback_model_group : option pyval
}.

(** The loop [for idx, item in enumerate(fallbacks)].  [before] is the part of the
    list below [idx]; a pop removes the current item, so that the next one is
    skipped. *)
Fixpoint fallback_loop (model_group : string) (before rest : list pyval) (f : found)
  : res found * list pyval :=
  match rest with
  | [] => (Ok f, before)
  | item :: rest' =>
      match item with
      | PDict d =>
          match first_entry d with
          | Raise e => (Raise e, before ++ rest)
          | Ok (key, groups) =>
              if String.eqb key model_group then
                (Ok (mkFound (generic_fallback_idx f) (stripped_model_fallback f) (not_none groups)), before ++ rest)
              else if _check_stripped_model_group model_group key then
                fallback_loop model_group (before ++ [item]) rest'
                  (mkFound (generic_fallback_idx f) (not_none groups) (fallback_model_group f))
              else if String.eqb key "*" then
                fallback_loop model_group (before ++ [item]) rest'
                  (mkFound (Some (length before)) (stripped_model_fallback f) (fallback_model_group f))
              else fallback_loop model_group (before ++ [item]) rest' f
          end
      | PStr s =>
          let f := mkFound (generic_fallback_idx f) (stripped_model_fallback f) (Some (PList [PStr s])) in
          match rest' with
          | [] => (Ok f, before)
          | next :: rest'' => fallback_loop model_group (before ++ [next]) rest'' f
          end
      | _ => fallback_loop model_group (before ++ [item]) rest' f
      end
  end.

(** [v["*"]]. *)
Definition star_of (v : option pyval) : res pyval :=
  match v with Some v => py_index v "*" | None => Raise IndexError end.

(** The group, the index of the generic entry, and the list afterwards. *)
Definition get_fallback_model_group (fallbacks : list pyval) (model_group : string)
  : res (option pyval * option nat) * list pyval :=
  match fallback_loop model_group [] fallbacks (mkFound None None None) with
  | (Raise e, l) => (Raise e, l)
  | (Ok f, l) =>
      (match fallback_model_group f with
       | Some g => Ok (Some g, generic_fallback_idx f)
       | None =>
           match stripped_model_fallback f with
           | Some g => Ok (Some g, generic_fallback_idx f)
           | None =>
               match generic_fallback_idx f with
               | Some i => g ← star_of (l !! i); Ok (not_none g, Some i)
               | None => Ok (None, None)
               end
           end
       end, l)
  end.
End providers.

(** The parameters whose presence marks a list of request bodies. *)
Definition LiteLLMParams_keys : list string :=
  ["model"; "custom_llm_provider"; "tpm"; "rpm"; "order"; "weight"; "max_parallel_requests";
   "api_key"; "api_base"; "api_version"; "timeout"; "stream_timeout"; "max_retries";
   "organization"; "configurable_clientside_auth_params"; "drop_params"; "region_name";
   "vertex_project"; "vertex_location"; "aws_access_key_id"; "aws_secret_access_key";
   "aws_region_name"; "vector_bucket_name"; "index_name"; "embedding_model"; "watsonx_region_name";
   "input_cost_per_token"; "output_cost_per_token"; "input_cost_per_second";
   "output_cost_per_second"; "num_retries"; "mock_response"; "tags"; "max_budget"; "budget_duration"].

Definition is_str (v : pyval) : bool := match v with PStr _ => true | _ => false end.
Definition is_dict (v : pyval) : bool := match v with PDict _ => true | _ => false end.

(** [None] is a list that is [None] or no list. *)
Definition _check_non_standard_fallback_format (fallbacks : option (list pyval)) : bool :=
  match fallbacks with
  | None | Some [] => false
  | Some ((first :: _) as l) =>
      if forallb is_str l then true
      else if forallb is_dict l then
        match first with PDict d => existsb (λ key, dmem key d) LiteLLMParams_keys | _ => false end
      else false
  end.

Definition validate_fallbacks (fallback_param : option (list pyval)) : res unit :=
  match fallback_param with
  | None => Ok ()
  | Some l =>
      (fix go (l : list pyval) : res unit :=
         match l with
         | [] => Ok ()
         | PDict d :: l' => if Nat.eqb (length d) 1 then go l' else Raise ValueError
         | _ :: _ => Raise ValueError
         end) l
  end.

(** [for item in fallbacks: if list(item.keys())[0] == model_group: ...]. *)
Fixpoint first_exact (fallbacks : list pyval) (model_group : string) : res (option pyval) :=
  match fallbacks with
  | [] => Ok None
  | PDict d :: l =>
      '(key, groups) ← first_entry d;
      if String.eqb key model_group then Ok (not_none groups) else first_exact l model_group
  | _ :: _ => Raise AttributeError
  end.

Definition _get_fallback_model_group_from_fallbacks (fallbacks : list pyval) (model_group : option string)
  : res (option pyval) :=
  match model_group with None => Ok None | Some g => first_exact fallbacks g end.

Fixpoint _get_first_default_fallback (fallbacks : list pyval) : option pyval :=
  match fallbacks with
  | [] => None
  | PDict d :: l =>
      match dget "*" d with
      | Some (PList (x :: _)) => Some x
      | _ => _get_first_default_fallback l
      end
  | _ :: l => _get_first_default_fallback l
  end.

Definition _has_default_fallbacks (fallbacks : option (list pyval)) : bool :=
  match fallbacks with
  | None => false
  | Some l => existsb (λ v, match v with PDict d => dmem "*" d | _ => false end) l
  end.

(** [finish_reasons] are those of the response's choices. *)
Definition _should_raise_content_policy_error (self_fallbacks : option (list pyval)) (model : string)
    (finish_reasons : list string) (content_policy_fallbacks : option (list pyval)) : res bool :=
  match finish_reasons with
  | fr :: _ =>
      if negb (String.eqb fr "content_filter") then Ok false
      else match content_policy_fallbacks with
           | Some l => g ← first_exact l model; Ok (bool_decide (is_Some g))
           | None => Ok (_has_default_fallbacks self_fallbacks)
           end
  | [] =>
      match content_policy_fallbacks with
      | Some l => g ← first_exact l model; Ok (bool_decide (is_Some g))
      | None => Ok (_has_default_fallbacks self_fallbacks)
      end
  end.

(** ** A validated list *)

(** What [validate_fallbacks] accepts: one-entry dictionaries. *)
Definition entries_of (cfg : list (string * pyval)) : list pyval := (λ kv, PDict [kv]) <$> cfg.

Lemma validate_fallbacks_iff l :
  validate_fallbacks (Some l) = Ok () ↔ ∃ cfg, l = entries_of cfg.
Proof.
  simpl. induction l as [|v l IH]; [split; [by exists []|done]|]. split.
  - destruct v; try done. destruct d as [|kv [|??]]; try done. simpl.
    intros [cfg ->]%IH. by exists (kv :: cfg).
  - intros [[|kv cfg] E]; [done|]. injection E as -> ->. simpl. apply IH. by exists cfg.
Qed.

Section select.
Variable provider_list : list string.
#[local] Abbreviation stripped := (_check_stripped_model_group provider_list).

(** The last entry that satisfies [P]. *)
Definition find_last (P : string → bool) (cfg : list (string * pyval)) : option pyval :=
  snd <$> last (filter (λ kv, P kv.1 = true) cfg).

(** The documented precedence: the exact entry, then one for the name without its
    provider, then the generic one. *)
Definition best_match (cfg : list (string * pyval)) (model_group : string) : option pyval :=
  match dget model_group cfg with
  | Some g => Some g
  | None =>
      match find_last (stripped model_group) cfg with
      | Some g => Some g
      | None => find_last (String.eqb "*") cfg
      end
  end.

Lemma dget_app {V} k (d1 d2 : list (string * V)) :
  dget k (d1 ++ d2) = match dget k d1 with Some v => Some v | None => dget k d2 end.
Proof. induction d1 as [|[k' v'] d1 IH]; [done|]. simpl. by destruct (String.eqb k k'). Qed.

Lemma find_last_snoc P cfg kv :
  find_last P (cfg ++ [kv]) = if P kv.1 then Some kv.2 else find_last P cfg.
Proof.
  unfold find_last. rewrite filter_app, filter_cons. destruct (P kv.1) eqn:E.
  - rewrite decide_True, filter_nil by done. by rewrite last_snoc.
  - rewrite decide_False, filter_nil, app_nil_r by congruence. done.
Qed.

(** Every entry has a value. *)
Definition typed (cfg : list (string * pyval)) : Prop := Forall (λ kv, is_none kv.2 = false) cfg.

Lemma not_none_typed v : is_none v = false → not_none v = Some v.
Proof. unfold not_none. by intros ->. Qed.

(** What the loop variables hold after the entries [pre], none of which is exact. *)
Definition loop_inv (model_group : string) (pre : list (string * pyval)) (f : found) : Prop :=
  fallback_model_group f = None ∧ dget model_group pre = None ∧
  stripped_model_fallback f = find_last (stripped model_group) pre ∧
  (find_last (stripped model_group) pre = None →
   (v ← generic_fallback_idx f; snd <$> pre !! v) = find_last (String.eqb "*") pre) ∧
  (∀ i, generic_fallback_idx f = Some i → ∃ g, pre !! i = Some ("*", g)).

Lemma loop_inv_step model_group pre f k g :
  loop_inv model_group pre f → is_none g = false → String.eqb k model_group = false →
  loop_inv model_group (pre ++ [(k, g)])
    (if stripped model_group k then mkFound (generic_fallback_idx f) (not_none g) (fallback_model_group f)
     else if String.eqb k "*" then mkFound (Some (length pre)) (stripped_model_fallback f) (fallback_model_group f)
     else f).
Proof.
  intros (H1 & H2 & H3 & H4 & H5) Hg Hk. rewrite (not_none_typed g Hg). unfold loop_inv. rewrite dget_app, H2, !find_last_snoc.
  cbn [dget]. rewrite (String.eqb_sym model_group k), Hk. cbn [fst snd].
  assert (Hidx : ∀ i x, pre !! i = Some x → (pre ++ [(k, g)]) !! i = Some x)
    by (intros i x Hx; by apply lookup_app_l_Some).
  destruct (stripped model_group k) eqn:Es; [|destruct (String.eqb_spec k "*") as [->|Hs]];
    cbn [generic_fallback_idx stripped_model_fallback fallback_model_group].
  - split_and!; try done. intros i Hi. destruct (H5 i Hi) as [g' Hg']. eauto.
  - split_and!; try done.
    + intros _. cbn [mbind option_bind]. by rewrite lookup_app_r, Nat.sub_diag by lia.
    + intros i [= <-]. exists g. by rewrite lookup_app_r, Nat.sub_diag by lia.
  - destruct (String.eqb_spec "*" k); [congruence|]. split_and!; try done.
    + intros Hn. rewrite <- (H4 Hn). destruct (generic_fallback_idx f) as [i|]; [|done].
      cbn [mbind option_bind]. destruct (H5 i eq_refl) as [g' Hg']. by rewrite Hg', (Hidx i _ Hg').
    + intros i Hi. destruct (H5 i Hi) as [g' Hg']. eauto.
Qed.

Lemma fallback_loop_entries model_group cfg pre f :
  loop_inv model_group pre f → typed cfg →
  ∃ f', fallback_loop provider_list model_group (entries_of pre) (entries_of cfg) f = (Ok f', entries_of (pre ++ cfg)) ∧
    (dget model_group (pre ++ cfg) = None → loop_inv model_group (pre ++ cfg) f') ∧
    (∀ g, dget model_group (pre ++ cfg) = Some g → fallback_model_group f' = Some g).
Proof.
  revert pre f. induction cfg as [|[k g] cfg IH]; intros pre f Hinv Ht.
  { exists f. rewrite app_nil_r. split_and!; [done..|]. intros g Hg.
    destruct Hinv as (_ & E & _). congruence. }
  apply Forall_cons in Ht as [Hg Ht]. cbn [snd] in Hg.
  cbn [entries_of fmap list_fmap fallback_loop first_entry].
  assert (Hsnoc : ∀ l : list pyval, entries_of pre ++ PDict [(k, g)] :: l = entries_of (pre ++ [(k, g)]) ++ l).
  { intros l. unfold entries_of. by rewrite fmap_app, <- app_assoc. }
  destruct (String.eqb_spec k model_group) as [->|Hk].
  - eexists. split; [by rewrite Hsnoc; unfold entries_of; rewrite <- fmap_app, <- app_assoc|].
    destruct Hinv as (_ & E & _). rewrite dget_app, E, (not_none_typed g Hg). simpl. rewrite String.eqb_refl.
    split; [done|]. by intros g' [= <-].
  - apply String.eqb_neq in Hk. pose proof (loop_inv_step model_group pre f k g Hinv Hg Hk) as Hinv'.
    destruct (IH _ _ Hinv' Ht) as (f' & Hloop & Ha & Hb). exists f'.
    change ((k, g) :: cfg) with ([(k, g)] ++ cfg). rewrite app_assoc. split; [|done].
    rewrite <- Hloop. replace (entries_of pre ++ [PDict [(k, g)]]) with (entries_of (pre ++ [(k, g)])).
    2:{ unfold entries_of. by rewrite fmap_app. }
    replace (length (entries_of pre)) with (length pre) by (unfold entries_of; by rewrite length_fmap).
    destruct (stripped model_group k); [done|]. by destruct (String.eqb k "*").
Qed.

Lemma find_last_typed P cfg g : typed cfg → find_last P cfg = Some g → is_none g = false.
Proof.
  intros Ht. unfold find_last. intros ([k v] & Hl & ->)%fmap_Some. apply last_Some_elem_of in Hl.
  apply list_elem_of_filter in Hl as [_ Hin]. unfold typed in Ht. rewrite Forall_forall in Ht. apply (Ht _ Hin).
Qed.

Lemma get_fallback_entries cfg model_group :
  typed cfg → ∃ idx, get_fallback_model_group provider_list (entries_of cfg) model_group
         = (Ok (best_match cfg model_group, idx), entries_of cfg) ∧
       (best_match cfg model_group = None → idx = None).
Proof.
  intros Ht. unfold get_fallback_model_group.
  destruct (fallback_loop_entries model_group cfg [] (mkFound None None None)) as (f & Hf & Hn & Hs).
  { split_and!; try done. }
  { done. }
  change (entries_of []) with (@nil pyval) in Hf. rewrite Hf. cbn [app] in *. unfold best_match.
  destruct (dget model_group cfg) as [g|] eqn:Hd.
  { rewrite (Hs g eq_refl). by eexists. }
  destruct (Hn eq_refl) as (H1 & _ & H3 & H4 & H5). rewrite H1, H3.
  destruct (find_last (stripped model_group) cfg) as [g|]; [by eexists|].
  specialize (H4 eq_refl). destruct (generic_fallback_idx f) as [i|]; cbn [mbind option_bind] in H4;
    [|rewrite <- H4; by eexists].
  destruct (H5 i eq_refl) as [g Hg]. rewrite Hg in H4. cbn [fmap option_fmap option_map snd] in H4. rewrite <- H4.
  exists (Some i). unfold entries_of. rewrite list_lookup_fmap, Hg. cbn.
  by rewrite (not_none_typed g) by (symmetry in H4; by apply (find_last_typed (String.eqb "*") cfg)).
Qed.

(** On a list that [validate_fallbacks] accepts the lookup never raises and never
    changes the list (no entry being [None]); it answers the entry of the model group itself, else the last
    entry for the name without its provider prefix, else the last generic entry, else
    nothing. *)
Theorem validated_fallbacks_precedence (l : list pyval) (model_group : string)
    (Hv : validate_fallbacks (Some l) = Ok ()) (Ht : ∀ k, PDict [(k, PNone)] ∉ l) :
  ∃ cfg idx, l = entries_of cfg ∧
    get_fallback_model_group provider_list l model_group = (Ok (best_match cfg model_group, idx), l).
Proof.
  apply validate_fallbacks_iff in Hv as [cfg ->].
  destruct (get_fallback_entries cfg model_group) as (idx & E & _); [|eauto].
  apply Forall_forall. intros [k v] Hin. destruct v; try done. destruct (Ht k).
  apply list_elem_of_fmap. eauto.
Qed.

(** Entries that match neither exactly, nor stripped, nor generically are passed over. *)
Lemma fallback_loop_skip model_group pre rest f tl :
  dget model_group rest = None → find_last (stripped model_group) rest = None →
  find_last (String.eqb "*") rest = None →
  fallback_loop provider_list model_group (entries_of pre) (entries_of rest ++ tl) f
  = fallback_loop provider_list model_group (entries_of (pre ++ rest)) tl f.
Proof.
  revert pre. induction rest as [|[k g] rest IH]; intros pre H1 H2 H3; [by rewrite app_nil_r|].
  assert (Hl : ∀ P, find_last P ((k, g) :: rest) = None → P k = false ∧ find_last P rest = None).
  { intros P. unfold find_last. rewrite filter_cons. cbn [fst]. destruct (decide (P k = true)) as [E|E].
    - intros HP%fmap_None. rewrite last_cons in HP. by destruct (last _).
    - intros HP. split; [by apply not_true_is_false|done]. }
  apply Hl in H2 as [H2 H2'], H3 as [H3 H3']. cbn [dget] in H1.
  destruct (String.eqb_spec model_group k) as [|Hk]; [done|].
  cbn [entries_of fmap list_fmap app fallback_loop first_entry].
  destruct (String.eqb_spec k model_group); [congruence|]. rewrite H2.
  rewrite String.eqb_sym in H3. rewrite H3.
  change (list_fmap _ _ (λ kv : string * pyval, PDict [kv]) rest) with (entries_of rest).
  specialize (IH (pre ++ [(k, g)]) H1 H2' H3'). rewrite <- app_assoc in IH. simpl in IH. rewrite <- IH.
  f_equal. unfold entries_of. by rewrite fmap_app.
Qed.

(** A string in a fallback list is used up: the lookup answers it and removes it, so
    the next lookup on the same list object answers without it. *)
Theorem string_fallback_used_up (cfg : list (string * pyval)) (s model_group : string)
    (Hn : best_match cfg model_group = None) :
  get_fallback_model_group provider_list (entries_of cfg ++ [PStr s]) model_group
    = (Ok (Some (PList [PStr s]), None), entries_of cfg) ∧
  (get_fallback_model_group provider_list (entries_of cfg) model_group).1 = Ok (None, None).
Proof.
  assert (Hnone : dget model_group cfg = None ∧ find_last (stripped model_group) cfg = None ∧
                  find_last (String.eqb "*") cfg = None).
  { unfold best_match in Hn. by repeat case_match. }
  destruct Hnone as (Hd & Hs & Hg).
  unfold get_fallback_model_group. split.
  - change (@nil pyval) with (entries_of []) at 1. rewrite fallback_loop_skip by done. done.
  - rewrite <- (app_nil_r (entries_of cfg)). change (@nil pyval) with (entries_of []) at 1.
    rewrite fallback_loop_skip by done. done.
Qed.
End select.

Definition sample_config : list (string * pyval) :=
  [("*", PList [PStr "generic"]); ("gpt-4", PList [PStr "claude"]); ("gpt-3.5", PList [PStr "haiku"])].

Lemma validated_fallbacks_precedence_witness :
  (∃ cfg idx, entries_of sample_config = entries_of cfg ∧
    get_fallback_model_group ["openai"; "azure"] (entries_of sample_config) "openai/gpt-4"
      = (Ok (best_match ["openai"; "azure"] cfg "openai/gpt-4", idx), entries_of sample_config)) ∧
  best_match ["openai"; "azure"] sample_config "openai/gpt-4" = Some (PList [PStr "claude"]) ∧
  best_match ["openai"; "azure"] sample_config "o1" = Some (PList [PStr "generic"]).
Proof.
  split; [|by vm_compute].
  apply (validated_fallbacks_precedence ["openai"; "azure"] (entries_of sample_config) "openai/gpt-4").
  - reflexivity.
  - intros k. unfold sample_config, entries_of. cbn. set_solver.
Defined.

Lemma string_fallback_used_up_witness :
  get_fallback_model_group [] (entries_of [("a", PList [PStr "b"])] ++ [PStr "c"]) "m"
    = (Ok (Some (PList [PStr "c"]), None), entries_of [("a", PList [PStr "b"])]) ∧
  (get_fallback_model_group [] (entries_of [("a", PList [PStr "b"])]) "m").1 = Ok (None, None).
Proof. apply (string_fallback_used_up [] [("a", PList [PStr "b"])] "c" "m"). reflexivity. Defined.

Example remove_all_example :
  remove_all 0 "azure/" "azure/x/azure/y" = "x/y" ∧ remove_all 0 "aa" "aaa" = "a".
Proof. done. Qed.
End FallbackSelect.
