(* ===== verification/Fallbacks.v ===== *)
(** * Fallbacks: retries and fallbacks of a request

    [Router.async_function_with_fallbacks], [async_function_with_fallbacks_common_utils],
    [async_function_with_retries], [should_retry_this_error], [log_retry],
    [make_call], [set_response_headers] and [get_remaining_model_group_usage] of [router.py], and [run_async_fallback] of
    [router_utils/fallback_event_handlers.py].

    A request is its keyword dictionary.  Fallback lists and metadata dictionaries are
    shared between the dictionaries of nested calls and are changed in place, so they
    live in a store and the dictionaries hold references; a list inside a
    fallback's own parameters becomes an object of its own when it is used.  The
    provider call ([original_function]), the deployment table, the lookups of a group's
    limits and usage for the headers of an answer, and the world they act on are
    arguments.  The two functions call each other; the recursion takes fuel, and
    running out of it is an outcome of its own, which is shown never to happen.
    Exceptions carry what the code inspects: class, status code, [num_retries].
    Logging callbacks, sleeping and the texts appended to exception messages are left
    out. *)

From stdpp Require Import base sets list strings.
From Stdlib Require Import ZArith Lia.
From S2P Require Import Prelude PyStr RetryPolicy FallbackSelect.

#[local] Open Scope Z_scope.

Module Fallbacks.
Import RetryPolicy FallbackSelect.

(** ** Exceptions and responses *)

Record exc := mkExc {
  cls : exn_cls;
  status_code : option Z;
  e_num_retries : option Z;
  e_max_retries : option Z;
  openai_rate_limit : bool;   (* of another module, but openai's RateLimitError *)
  openai_auth : bool;         (* of another module, but openai's AuthenticationError *)
  type_name : string;
  text : string
}.

Definition litellm_exc (c : exn_cls) (code : Z) (retries : option Z) (name : string) : exc :=
  mkExc c (Some code) retries None false false name "".

(** An exception of a called function. *)
Definition py_exc (e : exn) : exc :=
  match e with
  | Prelude.RateLimitError => litellm_exc RateLimitError 429 None "RateLimitError"
  | _ =>
    mkExc OtherException None None None false false
      match e with
      | KeyError => "KeyError" | TypeError => "TypeError" | ValueError => "ValueError"
      | IndexError => "IndexError" | AttributeError => "AttributeError"
      | ZeroDivisionError => "ZeroDivisionError" | RuntimeError => "RuntimeError"
      | _ => "Exception"
      end ""
  end.

Definition is_openai_rate_limit (e : exc) : bool := isinstance (cls e) RateLimitError || openai_rate_limit e.
Definition is_openai_auth (e : exc) : bool := isinstance (cls e) AuthenticationError || openai_auth e.

(** [LITELLM_EXCEPTION_TYPES], compared with [type(e)]. *)
Definition LITELLM_EXCEPTION_TYPES : list exn_cls :=
  [AuthenticationError; NotFoundError; BadRequestError; UnprocessableEntityError; UnsupportedParamsError;
   Timeout; PermissionDeniedError; RateLimitError; ContextWindowExceededError; RejectedRequestError;
   ContentPolicyViolationError; InternalServerError; ServiceUnavailableError; BadGatewayError; APIError;
   APIConnectionError; APIResponseValidationError; JSONSchemaValidationError].

(** A keyword argument: a plain value, or a reference to a shared object. *)
Inductive kwval :=
| V (v : pyval)
| FbRef (a : nat)
| MetaRef (a : nat)
| PrevModels
| Policies (p : list (string * policy)).

#[local] Abbreviation kwargs := (list (string * kwval)).

Record router := mkRouter {
  self_fallbacks : option nat;
  self_context_window_fallbacks : option (list pyval);
  self_content_policy_fallbacks : option (list pyval);
  max_fallbacks : Z;
  retry_policy : option policy;
  model_group_retry_policy : option (list (string * policy))
}.

(** [response._hidden_params["additional_headers"]]; [None] for a response that is no
    model object and takes no headers. *)
Record response (B : Type) := mkResponse { body : B; headers : option (list (string * pyval)) }.
Arguments mkResponse {B} _ _.
Arguments body {B} _.
Arguments headers {B} _.

Definition _add_headers_to_response {B} (r : response B) (hs : list (string * pyval)) : response B :=
  mkResponse (body r) ((λ h, fold_left (λ d kv, dset kv.1 kv.2 d) hs h) <$> headers r).

Definition add_retry_headers_to_response {B} (r : response B) (attempted : Z) (max_retries : option Z) : response B :=
  _add_headers_to_response r
    (("x-litellm-attempted-retries", PInt attempted) ::
     match max_retries with Some n => [("x-litellm-max-retries", PInt n)] | None => [] end).

Definition add_fallback_headers_to_response {B} (r : response B) (attempted : Z) : response B :=
  _add_headers_to_response r [("x-litellm-attempted-fallbacks", PInt attempted)].

(** How a call ends; [NoFuel] is no behaviour of the code. *)
Inductive outcome (A : Type) := Ret (a : A) | Exc (e : exc) | NoFuel.
Arguments Ret {A} a.
Arguments Exc {A} e.
Arguments NoFuel {A}.

Section router.
Context {W B : Type}.

(** What the functions take from the rest of the system. *)
Record environment := mkEnv {
  original_function : kwargs → W → (response B + exc) * W;
  model_group_limits : string → W → ((option Z * option Z) + exc) * W;   (* tpm and rpm of get_model_group_info *)
  get_model_group_usage : string → W → ((option Z * option Z) + exc) * W;
  healthy_deployments : string → W → (nat * nat) * W;   (* of the group: healthy, all *)
  model_list_size : string → W → option Z;
  only_deployment_retries : option string → W → option Z;
  provider_list : list string
}.

Variable env : environment.
Variable self : router.

(** How a call of [original_function] ended: it raised, it answered but the answer was
    lost to an error in the processing of its headers, or it answered. *)
Inductive call_result := Raised | HeadersFailed | Answered.

(** [trace] is a ghost: the calls of [original_function] so far, latest first, and how
    they ended. *)
Record store := mkStore {
  fb_lists : list (list pyval);
  metas : list kwargs;
  previous_models : list kwargs;
  world : W;
  trace : list (kwargs * call_result)
}.

Definition F (A : Type) : Type := store → outcome A * store.

#[local] Instance F_ret : MRet F := λ A a s, (Ret a, s).
#[local] Instance F_bind : MBind F := λ A C f m s,
  match m s with
  | (Ret a, s') => f a s'
  | (Exc e, s') => (Exc e, s')
  | (NoFuel, s') => (NoFuel, s')
  end.

Definition f_raise {A} (e : exc) : F A := λ s, (Exc e, s).
Definition f_get : F store := λ s, (Ret s, s).
Definition f_modify (f : store → store) : F unit := λ s, (Ret (), f s).
Definition f_lift {A} (r : res A) : F A := λ s,
  (match r with Ok a => Ret a | Raise e => Exc (py_exc e) end, s).
(** [try: m except Exception as e: h(e)]. *)
Definition f_try {A} (m : F A) (h : exc → F A) : F A := λ s,
  match m s with (Exc e, s') => h e s' | x => x end.

(** ** Keyword dictionaries *)

Definition kw_get (k : string) (kw : kwargs) : kwval := default (V PNone) (dget k kw).

(** [kwargs.get("model")]. *)
Definition model_of (kw : kwargs) : option string :=
  match dget "model" kw with Some (V (PStr s)) => Some s | _ => None end.

(** An integer argument; comparing anything else with one raises. *)
Definition int_arg (v : kwval) : res Z :=
  match v with V v => match as_int v with Some n => Ok n | None => Raise TypeError end | _ => Raise TypeError end.

(** [kwargs.get(k, dflt)] of a fallback list that is only read. *)
Definition list_arg (k : string) (dflt : option (list pyval)) (kw : kwargs) : option (list pyval) :=
  match dget k kw with
  | Some (V (PList l)) => Some l
  | Some _ => None
  | None => dflt
  end.

(** [kwargs.get("fallbacks", self.fallbacks)]. *)
Definition fallbacks_arg (kw : kwargs) : option nat :=
  match dget "fallbacks" kw with
  | Some (FbRef a) => Some a
  | Some _ => None
  | None => self_fallbacks self
  end.

Definition set_meta (a : nat) (m : kwargs) (s : store) : store :=
  mkStore (fb_lists s) (<[a := m]> (metas s)) (previous_models s) (world s) (trace s).
Definition set_fb (a : nat) (l : list pyval) (s : store) : store :=
  mkStore (<[a := l]> (fb_lists s)) (metas s) (previous_models s) (world s) (trace s).
Definition new_meta (m : kwargs) : F nat := λ s,
  (Ret (length (metas s)),
   mkStore (fb_lists s) (metas s ++ [m]) (previous_models s) (world s) (trace s)).
Definition new_fb (l : list pyval) : F nat := λ s,
  (Ret (length (fb_lists s)),
   mkStore (fb_lists s ++ [l]) (metas s) (previous_models s) (world s) (trace s)).

(** [metadata[k] = v] on a shared dictionary. *)
Definition meta_put (a : nat) (k : string) (v : kwval) : F unit :=
  f_modify (λ s, set_meta a (dset k v (default [] (metas s !! a))) s).

(** ** [log_retry] *)

Definition metadata_var (kw : kwargs) : string :=
  if dmem "litellm_metadata" kw then "litellm_metadata" else "metadata".

(** The breadcrumb of a failed call: the arguments except the messages and the
    function, and a copy of the metadata without the older breadcrumbs. *)
Fixpoint breadcrumb (var : string) (kw : kwargs) (acc : kwargs) : F kwargs :=
  match kw with
  | [] => mret acc
  | (k, v) :: kw' =>
      if negb (existsb (String.eqb k) [var; "messages"; "original_function"]) then
        breadcrumb var kw' (dset k v acc)
      else if String.eqb k var then
        match v with
        | MetaRef a =>
            s ← f_get;
            b ← new_meta (ddel "previous_models" (default [] (metas s !! a)));
            breadcrumb var kw' (dset var (MetaRef b) acc)
        | _ => breadcrumb var kw' acc
        end
      else breadcrumb var kw' acc
  end.

(** [if len(l) > 3: l.pop(0)], then append. *)
Definition push_previous (m : kwargs) (l : list kwargs) : list kwargs :=
  (if (3 <? length l)%nat then tail l else l) ++ [m].

Definition log_retry (kw : kwargs) (e : exc) : F kwargs :=
  let var := metadata_var kw in
  m ← breadcrumb var kw [("exception_type", V (PStr (type_name e))); ("exception_string", V (PStr (text e)))];
  f_modify (λ s, mkStore (fb_lists s) (metas s) (push_previous m (previous_models s)) (world s) (trace s));;
  match dget var kw with
  | Some (MetaRef a) => meta_put a "previous_models" PrevModels;; mret kw
  | Some _ => f_raise (py_exc TypeError)
  | None => f_raise (py_exc KeyError)
  end.

(** ** Calls *)

(** Ask the rest of the system. *)
Definition f_ask {A} (q : W → (A + exc) * W) : F A := λ s,
  let '(r, w) := q (world s) in
  (match r with inl a => Ret a | inr e => Exc e end,
   mkStore (fb_lists s) (metas s) (previous_models s) w (trace s)).

Definition get_remaining_model_group_usage (model_group : string) : F (list (string * pyval)) :=
  '(tpm_limit, rpm_limit) ← f_ask (model_group_limits env model_group);
  match tpm_limit, rpm_limit with
  | None, None => mret []
  | _, _ =>
      '(current_tpm, current_rpm) ← f_ask (get_model_group_usage env model_group);
      mret (match tpm_limit with
            | Some n => [("x-ratelimit-remaining-tokens", PInt (n - default 0 current_tpm)); ("x-ratelimit-limit-tokens", PInt n)]
            | None => []
            end ++
            match rpm_limit with
            | Some n => [("x-ratelimit-remaining-requests", PInt (n - default 0 current_rpm)); ("x-ratelimit-limit-requests", PInt n)]
            | None => []
            end)
  end.

(** The limits of the model group go into the headers of the answer, unless it came with
    limits of its own. *)
Definition set_response_headers (r : response B) (model_group : option string) : F (response B) :=
  match headers r with
  | None => mret r
  | Some h =>
      let h := dset "x-litellm-model-group" (match model_group with Some g => PStr g | None => PNone end) h in
      match model_group with
      | Some g =>
          if negb (dmem "x-ratelimit-remaining-tokens" h) && negb (dmem "x-ratelimit-remaining-requests" h) then
            remaining_usage ← get_remaining_model_group_usage g;
            mret (_add_headers_to_response (mkResponse (body r) (Some h)) remaining_usage)
          else mret (mkResponse (body r) (Some h))
      | None => mret (mkResponse (body r) (Some h))
      end
  end.

Definition log_call (kw : kwargs) (c : call_result) (s : store) : store :=
  mkStore (fb_lists s) (metas s) (previous_models s) (world s) ((kw, c) :: trace s).

(** The headers are processed before the call returns, inside whatever [try] surrounds
    it. *)
Definition make_call (kw : kwargs) : F (response B) := λ s,
  match f_ask (original_function env kw) s with
  | (Ret r, s1) =>
      match set_response_headers r (model_of kw) s1 with
      | (Ret r', s2) => (Ret r', log_call kw Answered s2)
      | (Exc e, s2) => (Exc e, log_call kw HeadersFailed s2)
      | (NoFuel, s2) => (NoFuel, s2)
      end
  | (Exc e, s1) => (Exc e, log_call kw Raised s1)
  | (NoFuel, s1) => (NoFuel, s1)
  end.

Definition get_healthy (model : string) : F (nat * nat) := λ s,
  let '(n, w) := healthy_deployments env model (world s) in
  (Ret n, mkStore (fb_lists s) (metas s) (previous_models s) w (trace s)).

(** Whether [should_retry_this_error] returns instead of raising the error. *)
Definition should_retry_this_error (error : exc) (healthy all : nat)
    (context_window_fallbacks content_policy_fallbacks : option (list pyval))
    (regular_fallbacks : option nat) (num_regular : nat) : bool :=
  if isinstance (cls error) ContextWindowExceededError && bool_decide (is_Some context_window_fallbacks) then false
  else if isinstance (cls error) ContentPolicyViolationError && bool_decide (is_Some content_policy_fallbacks) then false
  else if match status_code error with
          | Some c => negb (_should_retry c) && negb ((c =? 401) || (c =? 403))
          | None => false
          end then false
  else if isinstance (cls error) NotFoundError then false
  else if is_openai_rate_limit error && (healthy <=? 0)%nat &&
          bool_decide (is_Some regular_fallbacks) && (0 <? num_regular)%nat then false
  else if is_openai_auth error && (all <=? 1)%nat then false
  else if (healthy <=? 0)%nat then false
  else true.

(** [_metadata]: the shared dictionary, unless there is none or it is empty. *)
Definition meta_ref (kw : kwargs) (s : store) : option nat :=
  match (match dget "litellm_metadata" kw with Some v => Some v | None => dget "metadata" kw end) with
  | Some (MetaRef a) => match metas s !! a with Some (_ :: _) => Some a | _ => None end
  | _ => None
  end.

Definition put_opt (a : option nat) (k : string) (v : kwval) : F unit :=
  match a with Some a => meta_put a k v | None => mret () end.

(** [_metadata.get("model_group")], when it is a string. *)
Definition meta_model_group (a : option nat) (s : store) : option string :=
  match a with
  | Some a => match dget "model_group" (default [] (metas s !! a)) with Some (V (PStr g)) => Some g | _ => None end
  | None => None
  end.

Definition nonempty (s : option string) : option string :=
  match s with Some "" => None | _ => s end.

(** The flag is popped by the caller. *)
Definition _handle_mock_testing_rate_limit_error (model_group : option string) (kw : kwargs) : F unit :=
  match kw_get "mock_testing_rate_limit_error" kw with
  | V (PBool true) =>
      s ← f_get;
      f_raise (litellm_exc RateLimitError 429 (only_deployment_retries env model_group (world s)) "RateLimitError")
  | _ => mret ()
  end.

(** [setattr(e, "max_retries", n); setattr(e, "num_retries", attempts)]. *)
Definition set_attempts (e : exc) (n attempts : Z) : exc :=
  if bool_decide (cls e ∈ LITELLM_EXCEPTION_TYPES) then
    mkExc (cls e) (status_code e) (Some attempts) (Some n) (openai_rate_limit e) (openai_auth e) (type_name e) (text e)
  else e.

Section retries.
Variables (context_window_fallbacks content_policy_fallbacks : option (list pyval)) (fallbacks : option nat).
Variables (all : nat) (policy_applies : bool) (meta : option nat) (num_retries : Z).

Definition num_regular (s : store) : nat :=
  match fallbacks with Some a => length (default [] (fb_lists s !! a)) | None => 0 end.

(** [for current_attempt in range(num_retries)], with [n] attempts left. *)
Fixpoint retry_loop (n : nat) (kw : kwargs) (original_exception : exc) : F (response B) :=
  match n with
  | O => f_raise (set_attempts original_exception num_retries num_retries)
  | S n' =>
      let current_attempt := num_retries - Z.of_nat n in
      put_opt meta "attempted_retries" (V (PInt (current_attempt + 1)));;
      put_opt meta "max_retries" (V (PInt num_retries));;
      f_try (r ← make_call kw;
             mret (add_retry_headers_to_response r (current_attempt + 1) (Some num_retries)))
        (λ e,
          kw' ← log_retry kw e;
          healthy ← (match model_of kw' with Some m => h ← get_healthy m; mret h.1 | None => mret 0%nat end);
          s ← f_get;
          if negb policy_applies &&
             negb (should_retry_this_error e healthy all context_window_fallbacks content_policy_fallbacks
                     fallbacks (num_regular s))
          then f_raise e
          else retry_loop n' kw' e)
  end.
End retries.

(** The setting a retry policy has for this error, if one applies. *)
Definition policy_retries (e : exc) (policies : option (list (string * policy))) (model_group : option string)
    (meta : option nat) (kw : kwargs) (s : store) : option Z :=
  match retry_policy self, policies with
  | None, None => None
  | _, _ =>
      let g := match nonempty model_group with
               | Some g => Some g
               | None => match nonempty (meta_model_group meta s) with Some g => Some g | None => model_of kw end
               end in
      get_num_retries_from_retry_policy (cls e) (retry_policy self) g policies
  end.

(** The retry count of a failed call: the exception's own overrides the argument, the
    policy overrides both. *)
Definition effective_retries (e : exc) (num_retries : kwval) (policy : option Z) : kwval :=
  match policy with
  | Some n => V (PInt n)
  | None => match e_num_retries e with Some n => V (PInt n) | None => num_retries end
  end.

(** The [except] block: decide whether to retry, and retry. *)
Definition after_failure (kw : kwargs) (e : exc) (model_group : option string) (meta : option nat)
    (num_retries : kwval) (fallbacks : option nat)
    (context_window_fallbacks content_policy_fallbacks : option (list pyval))
    (policies : option (list (string * policy))) : F (response B) :=
  h ← get_healthy (default "" (model_of kw));
  s ← f_get;
  let policy := policy_retries e policies model_group meta kw s in
  let policy_applies := bool_decide (is_Some policy) in
  let num_retries := effective_retries e num_retries policy in
  if negb policy_applies &&
     negb (should_retry_this_error e h.1 h.2 context_window_fallbacks content_policy_fallbacks
             fallbacks (num_regular fallbacks s))
  then f_raise e
  else
    put_opt meta "max_retries" num_retries;;
    n ← f_lift (int_arg num_retries);
    if 0 <? n then
      kw' ← log_retry kw e;
      retry_loop context_window_fallbacks content_policy_fallbacks fallbacks h.2 policy_applies meta n
        (Z.to_nat n) kw' e
    else f_raise e.

Definition async_function_with_retries (kw : kwargs) : F (response B) :=
  let fallbacks := fallbacks_arg kw in
  let kw := ddel "fallbacks" kw in
  let context_window_fallbacks := list_arg "context_window_fallbacks" (self_context_window_fallbacks self) kw in
  let kw := ddel "context_window_fallbacks" kw in
  let content_policy_fallbacks := list_arg "content_policy_fallbacks" (self_content_policy_fallbacks self) kw in
  let kw := ddel "content_policy_fallbacks" kw in
  let policies := match dget "model_group_retry_policy" kw with
                  | Some (Policies p) => Some p | Some _ => None | None => model_group_retry_policy self end in
  let kw := ddel "model_group_retry_policy" kw in
  let model_group := model_of kw in
  num_retries ← f_lift (match dget "num_retries" kw with Some v => Ok v | None => Raise KeyError end);
  let kw := ddel "num_retries" kw in
  s ← f_get;
  let meta := meta_ref kw s in
  (match meta_model_group meta s with
   | Some g => match model_list_size env g (world s) with
               | Some n => put_opt meta "model_group_size" (V (PInt n))
               | None => mret ()
               end
   | None => mret ()
   end);;
  put_opt meta "attempted_retries" (V (PInt 0));;
  put_opt meta "max_retries" num_retries;;
  let kw' := ddel "mock_testing_rate_limit_error" kw in
  f_try (_handle_mock_testing_rate_limit_error model_group kw;;
         r ← make_call kw';
         mret (add_retry_headers_to_response r 0 None))
    (λ e, after_failure kw' e model_group meta num_retries fallbacks
            context_window_fallbacks content_policy_fallbacks policies).

(** ** Fallbacks *)

(** What [for mg in v] iterates over. *)
Fixpoint chars (s : string) : list pyval :=
  match s with EmptyString => [] | String a s' => PStr (String a "") :: chars s' end.
Definition iter_val (v : pyval) : res (list pyval) :=
  match v with
  | PList l | PTuple l | PSet l => Ok l
  | PStr s => Ok (chars s)
  | PDict d => Ok (PStr <$> dkeys d)
  | _ => Raise TypeError
  end.

(** A value that enters a keyword dictionary through [kwargs.update(mg)]. *)
Definition import_val (k : string) (v : pyval) : F kwval :=
  match v with
  | PList l => if String.eqb k "fallbacks" then a ← new_fb l; mret (FbRef a) else mret (V v)
  | PDict d =>
      if String.eqb k "metadata" || String.eqb k "litellm_metadata"
      then a ← new_meta ((λ kv, (kv.1, V kv.2)) <$> d); mret (MetaRef a) else mret (V v)
  | _ => mret (V v)
  end.

Fixpoint update_kwargs (d : list (string * pyval)) (kw : kwargs) : F kwargs :=
  match d with
  | [] => mret kw
  | (k, v) :: d' => x ← import_val k v; update_kwargs d' (dset k x kw)
  end.

Definition apply_group (mg : pyval) (kw : kwargs) : F kwargs :=
  match mg with
  | PStr s => mret (dset "model" (V (PStr s)) kw)
  | PDict d => update_kwargs d kw
  | _ => mret kw
  end.

(** [kwargs.setdefault("metadata", {}).update({"model_group": kwargs.get("model")})];
    the dictionary after it, and whether it raised. *)
Definition note_model_group (kw : kwargs) : F (kwargs * bool) :=
  match dget "metadata" kw with
  | Some (MetaRef a) => meta_put a "model_group" (kw_get "model" kw);; mret (kw, true)
  | Some _ => mret (kw, false)
  | None => a ← new_meta [("model_group", kw_get "model" kw)]; mret (dset "metadata" (MetaRef a) kw, true)
  end.

Section run.
Variable async_function_with_fallbacks : kwargs → F (response B).

(** The loop over the fallback groups. *)
Fixpoint fallback_groups (mgs : list pyval) (original_model_group : string) (original_exception : exc)
    (max : Z) (depth : Z) (kw : kwargs) (error : exc) : F (response B) :=
  match mgs with
  | [] => f_raise error
  | mg :: mgs' =>
      if py_eqb mg (PStr original_model_group) then
        fallback_groups mgs' original_model_group original_exception max depth kw error
      else λ s,
        match log_retry kw original_exception s with
        | (Exc e, s1) => fallback_groups mgs' original_model_group original_exception max depth kw e s1
        | (NoFuel, s1) => (NoFuel, s1)
        | (Ret kw, s1) =>
            (kw1 ← apply_group mg kw;
             '(kw2, noted) ← note_model_group kw1;
             if negb noted then
               fallback_groups mgs' original_model_group original_exception max depth kw2 (py_exc AttributeError)
             else
               let depth' := depth + 1 in
               let kw3 := dset "max_fallbacks" (V (PInt max)) (dset "fallback_depth" (V (PInt depth')) kw2) in
               f_try (r ← async_function_with_fallbacks kw3; mret (add_fallback_headers_to_response r depth'))
                 (λ e, fallback_groups mgs' original_model_group original_exception max depth' kw3 e)) s1
        end
  end.

Definition run_async_fallback (kw : kwargs) (fallback_model_group : pyval) (original_model_group : string)
    (original_exception : exc) (max depth : kwval) : F (response B) :=
  d ← f_lift (int_arg depth);
  m ← f_lift (int_arg max);
  if m <=? d then f_raise original_exception
  else
    mgs ← f_lift (iter_val fallback_model_group);
    fallback_groups mgs original_model_group original_exception m d kw original_exception.

(** The groups of a context-window or content-policy list. *)
Definition special_groups (l : list pyval) (model_group : option string) (e : exc) : F pyval :=
  g ← f_lift (_get_fallback_model_group_from_fallbacks l model_group);
  match g with Some g => mret g | None => f_raise e end.

(** The groups to try: [None] when the block ends without a fallback call. *)
Definition choose_groups (e : exc) (fallbacks : option nat)
    (context_window_fallbacks content_policy_fallbacks : option (list pyval)) (model_group : option string)
  : F (option pyval) :=
  s ← f_get;
  let fb := match fallbacks with Some a => fb_lists s !! a | None => None end in
  if _check_non_standard_fallback_format fb then mret (PList <$> fb)
  else
    match (if isinstance (cls e) ContextWindowExceededError then context_window_fallbacks
           else if isinstance (cls e) ContentPolicyViolationError then content_policy_fallbacks else None) with
    | Some l => g ← special_groups l model_group e; mret (Some g)
    | None =>
        match fallbacks, fb, model_group with
        | Some a, Some l, Some mg =>
            let '(r, l') := get_fallback_model_group (provider_list env) l mg in
            f_modify (set_fb a l');;
            '(g, idx) ← f_lift r;
            g ← f_lift (match g, idx with
                 | None, Some i => not_none <$> star_of (l' !! i)
                 | _, _ => Ok g
                 end : res (option pyval));
            match g with Some g => mret (Some g) | None => f_raise e end
        | _, _, _ => mret None
        end
    end.
(** The keyword arguments that reach [run_async_fallback] beside its own parameters. *)
Definition rest_kwargs (kw : kwargs) : kwargs :=
  ddel "max_fallbacks" (ddel "fallback_depth" (ddel "fallback_model_group" (ddel "original_model_group"
    (ddel "litellm_router" (ddel "original_exception" kw))))).

(** Every way out of the [try] block but a response ends in the original exception. *)
Definition async_function_with_fallbacks_common_utils (e : exc) (disable_fallbacks : kwval)
    (fallbacks : option nat) (context_window_fallbacks content_policy_fallbacks : option (list pyval))
    (model_group : option string) (kw : kwargs) : F (response B) :=
  match disable_fallbacks, model_of kw with
  | V (PBool true), _ | _, None => f_raise e
  | _, Some original_model_group =>
      let max := default (V (PInt (max_fallbacks self))) (dget "max_fallbacks" kw) in
      let depth := default (V (PInt 0)) (dget "fallback_depth" kw) in
      f_try (g ← choose_groups e fallbacks context_window_fallbacks content_policy_fallbacks model_group;
             match g with
             | Some g => run_async_fallback (rest_kwargs kw) g original_model_group e max depth
             | None => f_raise e
             end)
        (λ _, f_raise e)
  end.
End run.

(** [secret_managers.main.str_to_bool]. *)
Definition str_to_bool (s : string) : option bool :=
  let v := lower (strip s) in
  if String.eqb v "true" then Some true else if String.eqb v "false" then Some false else None.

Definition bool_param (name : string) (kw : kwargs) : bool :=
  match kw_get name kw with
  | V (PBool b) => b
  | V (PStr s) => default false (str_to_bool s)
  | _ => false
  end.

(** The flags are popped by the caller. *)
Definition _handle_mock_testing_fallbacks (kw : kwargs) : F unit :=
  if bool_param "mock_testing_fallbacks" kw then f_raise (litellm_exc InternalServerError 500 None "InternalServerError")
  else if bool_param "mock_testing_context_fallbacks" kw then
    f_raise (litellm_exc ContextWindowExceededError 400 None "ContextWindowExceededError")
  else if bool_param "mock_testing_content_policy_fallbacks" kw then
    f_raise (litellm_exc ContentPolicyViolationError 400 None "ContentPolicyViolationError")
  else mret ().

(** [kwargs] after the pops of [async_function_with_fallbacks]. *)
Definition pop_flags (kw : kwargs) : kwargs :=
  ddel "mock_testing_content_policy_fallbacks" (ddel "mock_testing_context_fallbacks"
    (ddel "mock_testing_fallbacks" (ddel "mock_timeout" (ddel "disable_fallbacks" kw)))).

(** The first part: the call with its retries. *)
Definition first_try (kw : kwargs) : F (response B) :=
  let mock_timeout := kw_get "mock_timeout" kw in
  let kw' := pop_flags kw in
  _handle_mock_testing_fallbacks kw;;
  r ← async_function_with_retries
        (match mock_timeout with V PNone => kw' | _ => dset "mock_timeout" mock_timeout kw' end);
  mret (add_fallback_headers_to_response r 0).

Fixpoint async_function_with_fallbacks (fuel : nat) (kw : kwargs) : F (response B) :=
  match fuel with
  | O => λ s, (NoFuel, s)
  | S fuel' =>
      f_try (first_try kw)
        (λ e, async_function_with_fallbacks_common_utils (async_function_with_fallbacks fuel') e
                (default (V (PBool false)) (dget "disable_fallbacks" kw))
                (fallbacks_arg kw)
                (list_arg "context_window_fallbacks" (self_context_window_fallbacks self) kw)
                (list_arg "content_policy_fallbacks" (self_content_policy_fallbacks self) kw)
                (model_of kw) (pop_flags kw))
  end.

(** The depth that is left to a request, and with it the fuel it needs. *)
Definition depth_left (kw : kwargs) : nat :=
  match int_arg (default (V (PInt (max_fallbacks self))) (dget "max_fallbacks" kw)),
        int_arg (default (V (PInt 0)) (dget "fallback_depth" kw)) with
  | Ok m, Ok d => Z.to_nat (m - d)
  | _, _ => 0
  end.

Definition run_request (kw : kwargs) : F (response B) := async_function_with_fallbacks (S (depth_left kw)) kw.

(** ** The recursion is bounded by the fallback depth *)

(** [m] does not run out of fuel. *)
Definition total {A} (m : F A) : Prop := ∀ s, (m s).1 ≠ NoFuel.

Lemma total_ret {A} (a : A) : total (mret a).
Proof. by intros s. Qed.
Lemma total_raise {A} e : total (f_raise (A := A) e).
Proof. by intros s. Qed.
Lemma total_get : total f_get.
Proof. by intros s. Qed.
Lemma total_modify f : total (f_modify f).
Proof. by intros s. Qed.
Lemma total_lift {A} (r : res A) : total (f_lift r).
Proof. intros s. by destruct r. Qed.
Lemma total_new_meta m : total (new_meta m).
Proof. by intros s. Qed.
Lemma total_new_fb l : total (new_fb l).
Proof. by intros s. Qed.
Lemma total_ask {A} (q : W → (A + exc) * W) : total (f_ask q).
Proof. intros s. unfold f_ask. by destruct (q (world s)) as [[a|e] w]. Qed.
Lemma total_get_healthy m : total (get_healthy m).
Proof. intros s. unfold get_healthy. by destruct (healthy_deployments _ _ _). Qed.

Lemma total_bind {A C} (m : F A) (f : A → F C) : total m → (∀ a, total (f a)) → total (m ≫= f).
Proof.
  intros Hm Hf s. unfold mbind, F_bind. specialize (Hm s).
  destruct (m s) as [[a|e|] s']; simpl in *; [apply Hf|done|done].
Qed.
Lemma total_try {A} (m : F A) (h : exc → F A) : total m → (∀ e, total (h e)) → total (f_try m h).
Proof.
  intros Hm Hh s. unfold f_try. specialize (Hm s). destruct (m s) as [[a|e|] s']; simpl in *; [done|apply Hh|done].
Qed.

Create HintDb fbdb.
Hint Resolve total_ret total_raise total_get total_modify total_lift total_new_meta total_new_fb
  total_ask total_get_healthy : fbdb.

Ltac total_tac :=
  repeat lazymatch goal with
    | |- total (mbind _ _) => apply total_bind; [|intros ?]
    | |- total (f_try _ _) => apply total_try; [|intros ?]
    | |- total (match _ with _ => _ end) => case_match
    end; try solve [eauto with fbdb].

Lemma total_set_headers r g : total (set_response_headers r g).
Proof. unfold set_response_headers, get_remaining_model_group_usage. total_tac. Qed.

Lemma total_make_call kw : total (make_call kw).
Proof.
  intros s. unfold make_call. pose proof (total_ask (original_function env kw) s) as Ha.
  destruct (f_ask _ s) as [[r|e|] s1]; try done. pose proof (total_set_headers r (model_of kw) s1) as Hh.
  by destruct (set_response_headers _ _ s1) as [[]?].
Qed.
Hint Resolve total_make_call : fbdb.

(** *** What a call changes *)

(** [m] changes only what the rest of the system keeps. *)
Definition outside {A} (m : F A) : Prop :=
  ∀ s, fb_lists (m s).2 = fb_lists s ∧ trace (m s).2 = trace s ∧ previous_models (m s).2 = previous_models s.

Lemma outside_ret {A} (a : A) : outside (mret a).
Proof. by intros s. Qed.
Lemma outside_ask {A} (q : W → (A + exc) * W) : outside (f_ask q).
Proof. intros s. unfold f_ask. by destruct (q (world s)). Qed.
Lemma outside_bind {A C} (m : F A) (f : A → F C) : outside m → (∀ a, outside (f a)) → outside (m ≫= f).
Proof.
  intros Hm Hf s. unfold mbind, F_bind. specialize (Hm s). destruct (m s) as [[a|e|] s']; simpl in *; [|done..].
  destruct (Hf a s') as (-> & -> & ->). done.
Qed.

Lemma set_headers_outside r g : outside (set_response_headers r g).
Proof.
  unfold set_response_headers, get_remaining_model_group_usage.
  repeat first [apply outside_bind; [apply outside_ask|intros [? ?]]|apply outside_bind; [|intros ?]|case_match; try apply outside_ret];
    apply outside_ret.
Qed.

Lemma set_headers_body r g s r' s' : set_response_headers r g s = (Ret r', s') → body r' = body r.
Proof.
  unfold set_response_headers, mbind, F_bind. destruct (headers r); [|by intros [= <- _]].
  destruct g as [g|]; [|by intros [= <- _]]. destruct (_ && _); [|by intros [= <- _]].
  destruct (get_remaining_model_group_usage g s) as [[u|e|] s1]; [|done..]. by intros [= <- _].
Qed.

(** A call is logged once, with how it ended. *)
Lemma make_call_run kw s :
  ∃ c, fb_lists (make_call kw s).2 = fb_lists s ∧ previous_models (make_call kw s).2 = previous_models s ∧
    trace (make_call kw s).2 = (kw, c) :: trace s ∧
    match (make_call kw s).1 with
    | Ret r => c = Answered ∧ ∃ w w' r0, original_function env kw w = (inl r0, w') ∧ body r = body r0
    | Exc e => c = Raised ∧ (∃ w w', original_function env kw w = (inr e, w')) ∨
               c = HeadersFailed ∧ ∃ r0 s1 s2, set_response_headers r0 (model_of kw) s1 = (Exc e, s2)
    | NoFuel => False
    end.
Proof.
  unfold make_call, f_ask. destruct (original_function env kw (world s)) as [[r|e] w] eqn:E.
  - set (s1 := mkStore _ _ _ _ _). destruct (set_headers_outside r (model_of kw) s1) as (H1 & H2 & H3).
    pose proof (total_set_headers r (model_of kw) s1) as Hn.
    destruct (set_response_headers r (model_of kw) s1) as [[r'|e|] s2] eqn:Eh; simpl in *; [| |done].
    + exists Answered. rewrite H1, H2, H3. split_and!; [done..|]. exists (world s), w, r. split; [done|].
      by eapply set_headers_body.
    + exists HeadersFailed. rewrite H1, H2, H3. split_and!; [done..|]. right. eauto.
  - exists Raised. simpl. split_and!; [done..|]. left. eauto.
Qed.


Lemma total_put_opt a k v : total (put_opt a k v).
Proof. unfold put_opt, meta_put. total_tac. Qed.
Hint Resolve total_put_opt : fbdb.

Lemma total_breadcrumb var kw acc : total (breadcrumb var kw acc).
Proof. revert acc. induction kw as [|[k v] kw IH]; intros acc; cbn [breadcrumb]; total_tac. Qed.
Hint Resolve total_breadcrumb : fbdb.

Lemma total_log_retry kw e : total (log_retry kw e).
Proof. unfold log_retry, meta_put. total_tac. Qed.
Hint Resolve total_log_retry : fbdb.

Lemma total_retry_loop cw cp fb all pol meta nr n kw e : total (retry_loop cw cp fb all pol meta nr n kw e).
Proof. revert kw e. induction n as [|n IH]; intros kw e; cbn [retry_loop]; total_tac. Qed.
Hint Resolve total_retry_loop : fbdb.

Lemma total_retries kw : total (async_function_with_retries kw).
Proof.
  unfold async_function_with_retries, after_failure, _handle_mock_testing_rate_limit_error. total_tac.
Qed.
Hint Resolve total_retries : fbdb.

Lemma total_first_try kw : total (first_try kw).
Proof. unfold first_try, _handle_mock_testing_fallbacks. total_tac. Qed.
Hint Resolve total_first_try : fbdb.

Lemma total_apply_group mg kw : total (apply_group mg kw).
Proof.
  unfold apply_group. destruct mg; total_tac. revert kw. induction d as [|[k v] d IH]; intros kw; cbn [update_kwargs]; total_tac.
  unfold import_val. total_tac.
Qed.
Lemma total_note kw : total (note_model_group kw).
Proof. unfold note_model_group, meta_put. total_tac. Qed.
Hint Resolve total_apply_group total_note : fbdb.

Lemma total_choose_groups e fb cw cp mg : total (choose_groups e fb cw cp mg).
Proof. unfold choose_groups, special_groups. total_tac. Qed.
Hint Resolve total_choose_groups : fbdb.

(** The dictionary of a nested call, and the depth it has left. *)
Lemma depth_left_nested kw m d :
  depth_left (dset "max_fallbacks" (V (PInt m)) (dset "fallback_depth" (V (PInt d)) kw)) = Z.to_nat (m - d).
Proof. unfold depth_left. rewrite dget_dset_eq, dget_dset_ne, dget_dset_eq by done. done. Qed.

(** Two bodies for the nested calls that agree, and are total, on requests with less
    depth left than [n]. *)
Definition agree (n : nat) (rec1 rec2 : kwargs → F (response B)) : Prop :=
  ∀ kw s, (depth_left kw < n)%nat → rec1 kw s = rec2 kw s ∧ (rec1 kw s).1 ≠ NoFuel.

Lemma fallback_groups_agree n rec1 rec2 mgs orig e m d kw err s :
  agree n rec1 rec2 → (0 < n)%nat → m - d ≤ Z.of_nat n →
  fallback_groups rec1 mgs orig e m d kw err s = fallback_groups rec2 mgs orig e m d kw err s ∧
  (fallback_groups rec1 mgs orig e m d kw err s).1 ≠ NoFuel.
Proof.
  intros Hag Hn. revert d kw err s. induction mgs as [|mg mgs IH]; intros d kw err s Hd; cbn [fallback_groups]; [done|].
  destruct (py_eqb mg (PStr orig)); [by apply IH|].
  pose proof (total_log_retry kw e s) as Hl. destruct (log_retry kw e s) as [[kw0|e0|] s1]; [|by apply IH|done].
  unfold mbind, F_bind. pose proof (total_apply_group mg kw0 s1) as Ha.
  destruct (apply_group mg kw0 s1) as [[kw1|e1|] s2]; [|done|done].
  pose proof (total_note kw1 s2) as Ht. destruct (note_model_group kw1 s2) as [[[kw2 noted]|e2|] s3]; [|done|done].
  destruct noted; cbn [negb]; [|by apply IH].
  unfold f_try. set (kw3 := dset _ _ _).
  destruct (Hag kw3 s3) as [<- Hr]; [unfold kw3; rewrite depth_left_nested; lia|].
  destruct (rec1 kw3 s3) as [[r|e3|] s4]; [done| |done]. apply IH. lia.
Qed.

Lemma depth_left_pop kw :
  dget "max_fallbacks" (pop_flags kw) = dget "max_fallbacks" kw ∧
  dget "fallback_depth" (pop_flags kw) = dget "fallback_depth" kw.
Proof. unfold pop_flags. by rewrite !dget_ddel_ne. Qed.

Lemma common_utils_agree n rec1 rec2 e dis fb cw cp mg kw s :
  agree n rec1 rec2 → (depth_left kw ≤ n)%nat →
  async_function_with_fallbacks_common_utils rec1 e dis fb cw cp mg (pop_flags kw) s =
  async_function_with_fallbacks_common_utils rec2 e dis fb cw cp mg (pop_flags kw) s ∧
  (async_function_with_fallbacks_common_utils rec1 e dis fb cw cp mg (pop_flags kw) s).1 ≠ NoFuel.
Proof.
  intros Hag Hn. unfold async_function_with_fallbacks_common_utils.
  destruct (depth_left_pop kw) as [-> ->]. unfold depth_left in Hn.
  set (max := default _ (dget "max_fallbacks" kw)) in *. set (depth := default _ (dget "fallback_depth" kw)) in *.
  assert (Htry : ∀ og, let body rec := f_try (g ← choose_groups e fb cw cp mg;
             match g with
             | Some g => run_async_fallback rec (rest_kwargs (pop_flags kw)) g og e max depth
             | None => f_raise e
             end) (λ _, f_raise e) in body rec1 s = body rec2 s ∧ (body rec1 s).1 ≠ NoFuel).
  { intros og. unfold f_try, mbind, F_bind. pose proof (total_choose_groups e fb cw cp mg s) as Hc.
    destruct (choose_groups e fb cw cp mg s) as [[[g|]|e1|] s1]; try done.
    unfold run_async_fallback, mbind, F_bind, f_lift.
    destruct (int_arg depth) as [d|]; [|done]. destruct (int_arg max) as [m|]; [|done].
    destruct (Z.leb_spec m d); [done|]. destruct (iter_val g) as [mgs|]; [|done].
    destruct (fallback_groups_agree n rec1 rec2 mgs og e m d (rest_kwargs (pop_flags kw)) e s1)
      as [-> Ht]; [done|lia|lia|].
    destruct (fallback_groups rec2 _ _ _ _ _ _ _ _) as [[]?]; done. }
  destruct dis as [v|?|?| |?]; try destruct v as [|[]|?|?|?|?|?|?|?|?];
    destruct (model_of (pop_flags kw)); try done; apply Htry.
Qed.

Lemma fuel_irrelevant f1 f2 kw s :
  (depth_left kw < f1)%nat → (depth_left kw < f2)%nat →
  async_function_with_fallbacks f1 kw s = async_function_with_fallbacks f2 kw s ∧
  (async_function_with_fallbacks f1 kw s).1 ≠ NoFuel.
Proof.
  revert f2 kw s. induction f1 as [|f1 IH]; intros [|f2] kw s H1 H2; try lia. cbn [async_function_with_fallbacks].
  unfold f_try. pose proof (total_first_try kw s) as Ht. destruct (first_try kw s) as [[r|e|] s1]; [done| |done].
  apply (common_utils_agree (depth_left kw)); [|done]. intros kw' s' Hk. apply IH; lia.
Qed.

(** C25: The nested calls of a request end: fuel for the depth it has left is enough, more
    fuel changes nothing, whatever the provider calls do and however the fallback
    lists refer to each other, cyclically or not. *)
Theorem fallbacks_terminate (kw : kwargs) (s : store) (fuel : nat) (Hf : (depth_left kw < fuel)%nat) :
  async_function_with_fallbacks fuel kw s = run_request kw s ∧ (run_request kw s).1 ≠ NoFuel.
Proof.
  destruct (fuel_irrelevant (S (depth_left kw)) fuel kw s) as [E Hn]; [lia|done|].
  split; [by symmetry|done].
Qed.

(** ** The error a client sees *)

Lemma common_utils_error rec e dis fb cw cp mg kw s e' :
  (async_function_with_fallbacks_common_utils rec e dis fb cw cp mg kw s).1 = Exc e' → e' = e.
Proof.
  unfold async_function_with_fallbacks_common_utils.
  assert (Htry : ∀ (m : F (response B)), (f_try m (λ _, f_raise e) s).1 = Exc e' → e' = e).
  { intros m. unfold f_try. destruct (m s) as [[a|e1|] s1]; simpl; congruence. }
  destruct dis as [v|?|?| |?]; try destruct v as [|[]|?|?|?|?|?|?|?|?];
    destruct (model_of kw); try apply Htry; simpl; congruence.
Qed.

(** When a request fails, the error is the one its own first call ended with after its
    retries: whatever goes wrong in the fallbacks stays inside. *)
Theorem failed_request_raises_first_error (kw : kwargs) (s : store) (e : exc)
    (He : (run_request kw s).1 = Exc e) :
  ∃ s', first_try kw s = (Exc e, s').
Proof.
  unfold run_request in He. cbn [async_function_with_fallbacks] in He. unfold f_try in He.
  destruct (first_try kw s) as [[r|e1|] s1]; [done| |done].
  apply common_utils_error in He as ->. eauto.
Qed.

(** ** How many provider calls a request makes *)

Section cost.
(** The fallback lists, which the operations below leave alone. *)
Variable FB : list (list pyval).
Variable R : nat.

(** [m] makes at most [n] provider calls and leaves the fallback lists alone. *)
Definition costs {A} (n : nat) (m : F A) : Prop :=
  ∀ s, fb_lists s = FB → fb_lists (m s).2 = FB ∧ (length (trace (m s).2) ≤ length (trace s) + n)%nat.

Lemma costs_weaken {A} n n' (m : F A) : costs n m → (n ≤ n')%nat → costs n' m.
Proof. intros Hm Hn s Hs. destruct (Hm s Hs). split; [done|lia]. Qed.
Lemma costs_bind {A C} n1 n2 (m : F A) (f : A → F C) :
  costs n1 m → (∀ a, costs n2 (f a)) → costs (n1 + n2) (m ≫= f).
Proof.
  intros Hm Hf s Hs. unfold mbind, F_bind. destruct (Hm s Hs) as [H1 H2].
  destruct (m s) as [[a|e|] s']; simpl in *; [|split; [done|lia]..].
  destruct (Hf a s' H1). split; [done|lia].
Qed.
Lemma costs_bind0 {A C} n (m : F A) (f : A → F C) : costs 0 m → (∀ a, costs n (f a)) → costs n (m ≫= f).
Proof. intros Hm Hf. by apply (costs_bind 0 n). Qed.
Lemma costs_try {A} n1 n2 (m : F A) (h : exc → F A) :
  costs n1 m → (∀ s e s', m s = (Exc e, s') → costs n2 (h e)) → costs (n1 + n2) (f_try m h).
Proof.
  intros Hm Hh s Hs. unfold f_try. destruct (Hm s Hs) as [H1 H2].
  destruct (m s) as [[a|e|] s'] eqn:E; simpl in *; [split; [done|lia]| |split; [done|lia]].
  destruct (Hh s e s' E s' H1). split; [done|lia].
Qed.
Lemma costs_ret {A} (a : A) n : costs n (mret a).
Proof. intros s Hs. simpl. split; [done|lia]. Qed.
Lemma costs_raise {A} e n : costs n (f_raise (A := A) e).
Proof. intros s Hs. simpl. split; [done|lia]. Qed.
Lemma costs_get n : costs n f_get.
Proof. intros s Hs. simpl. split; [done|lia]. Qed.
Lemma costs_lift {A} (r : res A) n : costs n (f_lift r).
Proof. intros s Hs. simpl. split; [done|lia]. Qed.
Lemma costs_lift_bind {A C} (r : res A) (f : A → F C) n :
  (∀ a, r = Ok a → costs n (f a)) → costs n (f_lift r ≫= f).
Proof.
  intros Hf s Hs. unfold mbind, F_bind, f_lift. destruct r as [a|]; [by apply Hf|]. simpl. split; [done|lia].
Qed.
Lemma costs_modify f n : (∀ s, fb_lists (f s) = fb_lists s ∧ trace (f s) = trace s) → costs n (f_modify f).
Proof. intros Hf s Hs. simpl. destruct (Hf s) as [-> ->]. split; [done|lia]. Qed.
Lemma costs_new_meta m n : costs n (new_meta m).
Proof. intros s Hs. simpl. split; [done|lia]. Qed.
Lemma costs_meta_put a k v n : costs n (meta_put a k v).
Proof. intros s Hs. simpl. split; [done|lia]. Qed.
Lemma costs_put_opt a k v n : costs n (put_opt a k v).
Proof. destruct a; [apply costs_meta_put|apply costs_ret]. Qed.
Lemma costs_healthy m n : costs n (get_healthy m).
Proof. intros s Hs. unfold get_healthy. destruct (healthy_deployments _ _ _). simpl. split; [done|lia]. Qed.
Lemma costs_make_call kw : costs 1 (make_call kw).
Proof.
  intros s Hs. destruct (make_call_run kw s) as (c & -> & _ & -> & _). simpl. split; [done|lia].
Qed.

Hint Resolve costs_ret costs_raise costs_get costs_lift costs_new_meta costs_meta_put costs_put_opt costs_healthy : fbdb.

Ltac costs_tac :=
  repeat lazymatch goal with
    | |- costs _ (mbind _ _) => apply costs_bind0; [|intros ?]
    | |- costs _ (match _ with _ => _ end) => case_match
    end; try solve [eauto with fbdb].

Lemma costs_breadcrumb var kw acc : costs 0 (breadcrumb var kw acc).
Proof. revert acc. induction kw as [|[k v] kw IH]; intros acc; cbn [breadcrumb]; costs_tac. Qed.
Hint Resolve costs_breadcrumb : fbdb.

Lemma costs_log_retry kw e : costs 0 (log_retry kw e).
Proof. unfold log_retry. costs_tac. Qed.
Hint Resolve costs_log_retry : fbdb.

(** The loop makes at most the attempts it has left. *)
Lemma costs_retry_loop cw cp fb all pol meta nr n kw e : costs n (retry_loop cw cp fb all pol meta nr n kw e).
Proof.
  revert kw e. induction n as [|n IH]; intros kw e; cbn [retry_loop]; [apply costs_raise|].
  do 2 (apply costs_bind0; [apply costs_put_opt|intros _]). apply (costs_try 1 n).
  - apply (costs_bind 1 0); [apply costs_make_call|]. intros r. apply costs_ret.
  - intros s e1 s' _. apply costs_bind0; [eauto with fbdb|]. intros kw'. costs_tac.
Qed.

(** All retry counts that a request can meet are at most [R]: those of the router's
    policies, of the deployments, of the exceptions of calls and header lookups, and its own. *)
Record limits : Prop := {
  lim_call : ∀ kw w e w' n, original_function env kw w = (inr e, w') → e_num_retries e = Some n → n ≤ Z.of_nat R;
  lim_limits : ∀ g w e w' n, model_group_limits env g w = (inr e, w') → e_num_retries e = Some n → n ≤ Z.of_nat R;
  lim_usage : ∀ g w e w' n, get_model_group_usage env g w = (inr e, w') → e_num_retries e = Some n → n ≤ Z.of_nat R;
  lim_only : ∀ g w n, only_deployment_retries env g w = Some n → n ≤ Z.of_nat R;
  lim_policy : ∀ c g n, get_num_retries_from_retry_policy c (retry_policy self) g (model_group_retry_policy self) = Some n →
                        n ≤ Z.of_nat R
}.

Definition own_limit (kw : kwargs) : Prop :=
  dget "model_group_retry_policy" kw = None ∧ ∀ v n, dget "num_retries" kw = Some v → int_arg v = Ok n → n ≤ Z.of_nat R.

Lemma effective_retries_bound e v pol n :
  (∀ n, pol = Some n → n ≤ Z.of_nat R) → (∀ n, e_num_retries e = Some n → n ≤ Z.of_nat R) →
  (∀ n, int_arg v = Ok n → n ≤ Z.of_nat R) → int_arg (effective_retries e v pol) = Ok n → n ≤ Z.of_nat R.
Proof.
  intros H1 H2 H3. unfold effective_retries.
  destruct pol; [intros [= <-]; eauto|]. destruct (e_num_retries e); [intros [= <-]; eauto|eauto].
Qed.

Lemma costs_after_failure kw e g meta v fb cw cp :
  limits → (∀ n, e_num_retries e = Some n → n ≤ Z.of_nat R) → (∀ n, int_arg v = Ok n → n ≤ Z.of_nat R) →
  costs R (after_failure kw e g meta v fb cw cp (model_group_retry_policy self)).
Proof.
  intros Hl He Hv. unfold after_failure. apply costs_bind0; [eauto with fbdb|]. intros h.
  apply costs_bind0; [eauto with fbdb|]. intros s. case_match; [eauto with fbdb|].
  set (pol := policy_retries _ _ _ _ _ _).
  assert (Hpol : ∀ n, pol = Some n → n ≤ Z.of_nat R).
  { intros n. unfold pol, policy_retries. destruct (retry_policy self) eqn:E1, (model_group_retry_policy self) eqn:E2;
      try done; rewrite <- ?E1, <- ?E2; apply (lim_policy Hl). }
  apply costs_bind0; [eauto with fbdb|]. intros _. apply costs_lift_bind. intros n En.
  pose proof (effective_retries_bound e v pol n Hpol He Hv En) as Hn.
  case_match; [|eauto with fbdb]. apply costs_bind0; [eauto with fbdb|]. intros kw'.
  eapply costs_weaken; [apply costs_retry_loop|lia].
Qed.

Lemma header_error r g s e s' n :
  limits → set_response_headers r g s = (Exc e, s') → e_num_retries e = Some n → n ≤ Z.of_nat R.
Proof.
  intros Hl. unfold set_response_headers, get_remaining_model_group_usage, mbind, F_bind, f_ask.
  destruct (headers r); [|done]. destruct g as [g|]; [|done]. destruct (_ && _); [|done].
  destruct (model_group_limits env g (world s)) as [[[t u]|e1] w] eqn:E1.
  - assert (∀ s1, (match get_model_group_usage env g (world s1) with
       | (inl _, _) => True | (inr e1, _) => e1 = e → e_num_retries e = Some n → n ≤ Z.of_nat R end)) as Hu.
    { intros s1. destruct (get_model_group_usage env g (world s1)) as [[?|e1] w1] eqn:E2; [done|]. intros ->. by eapply (lim_usage Hl). }
    specialize (Hu (mkStore (fb_lists s) (metas s) (previous_models s) w (trace s))). simpl in *.
    destruct t, u; simpl; try done; destruct (get_model_group_usage env g w) as [[[? ?]|e1] w1]; try done;
      intros [= <- _]; by apply Hu.
  - intros [= <- _]. by eapply (lim_limits Hl).
Qed.

(** The errors of the first call come from the mock, from the provider or from the
    processing of the headers. *)
Lemma first_call_error g kw kw' s e s' n :
  limits →
  (_handle_mock_testing_rate_limit_error g kw;;
   r ← make_call kw'; mret (add_retry_headers_to_response r 0 None)) s = (Exc e, s') →
  e_num_retries e = Some n → n ≤ Z.of_nat R.
Proof.
  intros Hl. unfold _handle_mock_testing_rate_limit_error.
  assert (Hcall : ∀ s, (r ← make_call kw'; mret (add_retry_headers_to_response r 0 None)) s = (Exc e, s') →
    e_num_retries e = Some n → n ≤ Z.of_nat R).
  { intros s0. unfold mbind, F_bind. destruct (make_call_run kw' s0) as (c & _ & _ & _ & Hc).
    destruct (make_call kw' s0) as [[r|e1|] s1]; simpl in *; [done| |done]. intros [= <- _].
    destruct Hc as [[_ (w & w' & E)]|[_ (r0 & s2 & s3 & E)]]; [by eapply (lim_call Hl)|by eapply header_error]. }
  destruct (kw_get "mock_testing_rate_limit_error" kw) as [[|[]|?|?|?|?|?|?|?|?]|?|?| |?]; try apply Hcall.
  unfold mbind, F_bind, f_get. simpl. intros [= <- _]. simpl. apply (lim_only Hl).
Qed.

Lemma costs_retries kw : limits → own_limit kw → costs (S R) (async_function_with_retries kw).
Proof.
  intros Hl [Hp Hn]. unfold async_function_with_retries. rewrite !dget_ddel_ne by done. rewrite Hp.
  apply costs_lift_bind. intros v Hv. apply costs_bind0; [eauto with fbdb|]. intros s.
  apply costs_bind0; [costs_tac|]. intros _. do 2 (apply costs_bind0; [eauto with fbdb|]; intros _).
  apply (costs_try 1 R).
  - apply costs_bind0; [unfold _handle_mock_testing_rate_limit_error; costs_tac|]. intros _.
    apply (costs_bind 1 0); [apply costs_make_call|]. intros r. apply costs_ret.
  - intros s0 e s1 Hbody. apply costs_after_failure; [done| |].
    + intros n He. eapply first_call_error; eauto.
    + intros n. apply Hn. destruct (dget "num_retries" kw); congruence.
Qed.

(** ** With the router's own fallback lists *)

Variable L : nat.

(** A list of at most [L] model groups. *)
Definition groups_ok (v : pyval) : Prop := ∃ ms, v = PList (PStr <$> ms) ∧ (length ms ≤ L)%nat.

(** A validated fallback list whose groups are lists of names. *)
Definition list_ok (l : list pyval) : Prop :=
  ∃ cfg, l = entries_of cfg ∧ Forall (λ kv, groups_ok kv.2) cfg.

Record config_ok : Prop := {
  cfg_regular : ∀ a, self_fallbacks self = Some a → ∃ l, FB !! a = Some l ∧ list_ok l ∧
                  _check_non_standard_fallback_format (Some l) = false;
  cfg_context : ∀ l, self_context_window_fallbacks self = Some l → list_ok l;
  cfg_content : ∀ l, self_content_policy_fallbacks self = Some l → list_ok l
}.

(** A request that brings no fallback lists and no retry policies of its own. *)
Definition ordinary (kw : kwargs) : Prop :=
  dget "fallbacks" kw = None ∧ dget "context_window_fallbacks" kw = None ∧
  dget "content_policy_fallbacks" kw = None ∧ own_limit kw.

Lemma ordinary_dset k v kw :
  k ∉ ["fallbacks"; "context_window_fallbacks"; "content_policy_fallbacks"; "model_group_retry_policy"; "num_retries"] →
  ordinary kw → ordinary (dset k v kw).
Proof. unfold ordinary, own_limit. intros Hk. rewrite !dget_dset_ne by set_solver. done. Qed.

Lemma ordinary_ddel k kw :
  k ∉ ["fallbacks"; "context_window_fallbacks"; "content_policy_fallbacks"; "model_group_retry_policy"; "num_retries"] →
  ordinary kw → ordinary (ddel k kw).
Proof. unfold ordinary, own_limit. intros Hk. rewrite !dget_ddel_ne by set_solver. done. Qed.

Lemma ordinary_pop kw : ordinary kw → ordinary (pop_flags kw).
Proof. intros Hk. unfold pop_flags. repeat (apply ordinary_ddel; [set_solver|]). done. Qed.

Lemma ordinary_rest kw : ordinary kw → ordinary (rest_kwargs kw).
Proof. intros Hk. unfold rest_kwargs. repeat (apply ordinary_ddel; [set_solver|]). done. Qed.

Lemma list_ok_typed cfg : Forall (λ kv, groups_ok kv.2) cfg → typed cfg.
Proof. unfold typed. rewrite !Forall_forall. intros Hf [k v] Hin. by destruct (Hf _ Hin) as (ms & -> & _). Qed.

Lemma elem_groups_ok (cfg : list (string * pyval)) k v : Forall (λ kv, groups_ok kv.2) cfg → (k, v) ∈ cfg → groups_ok v.
Proof. rewrite Forall_forall. intros Hf Hin. apply (Hf _ Hin). Qed.

Lemma best_match_ok cfg mg g :
  Forall (λ kv, groups_ok kv.2) cfg → best_match (provider_list env) cfg mg = Some g → groups_ok g.
Proof.
  intros Hf. unfold best_match.
  assert (Hl : ∀ P, find_last P cfg = Some g → groups_ok g).
  { intros P. unfold find_last. intros ([k v] & Hl & ->)%fmap_Some. apply last_Some_elem_of in Hl.
    apply list_elem_of_filter in Hl as [_ Hin]. eauto using elem_groups_ok. }
  destruct (dget mg cfg) as [v|] eqn:E; [intros [= <-]; eauto using elem_groups_ok, dget_Some_in|].
  destruct (find_last _ cfg) eqn:E2; [intros [= <-]; eauto|apply Hl].
Qed.

Lemma first_exact_ok cfg mg g :
  Forall (λ kv, groups_ok kv.2) cfg → first_exact (entries_of cfg) mg = Ok (Some g) → groups_ok g.
Proof.
  induction cfg as [|[k v] cfg IH]; [done|]. intros [Hv Hf]%Forall_cons. cbn.
  destruct (String.eqb k mg); [|by apply IH]. destruct Hv as (ms & E & Hm). simpl in E. subst v.
  intros [= <-]. by exists ms.
Qed.

Lemma special_groups_ok l mg e s :
  list_ok l →
  (∀ g s', special_groups l mg e s = (Ret g, s') → groups_ok g) ∧ (special_groups l mg e s).2 = s.
Proof.
  intros (cfg & -> & Hf). unfold special_groups, _get_fallback_model_group_from_fallbacks, mbind, F_bind, f_lift.
  destruct mg as [mg|]; [|done]. destruct (first_exact _ mg) as [[g|]|] eqn:E; try done.
  split; [|done]. intros g' s' [= <- _]. eauto using first_exact_ok.
Qed.

(** The groups that are tried are short lists of names, and choosing them changes
    nothing. *)
Lemma choose_groups_ok e fb cw cp mg s :
  config_ok → fb = self_fallbacks self → cw = self_context_window_fallbacks self →
  cp = self_content_policy_fallbacks self → fb_lists s = FB →
  (∀ g s', choose_groups e fb cw cp mg s = (Ret (Some g), s') → groups_ok g) ∧
  fb_lists (choose_groups e fb cw cp mg s).2 = FB ∧ trace (choose_groups e fb cw cp mg s).2 = trace s.
Proof.
  intros Hcfg -> -> -> Hs. destruct (choose_groups _ _ _ _ mg s) as [r s1] eqn:E. cbn [snd].
  unfold choose_groups in E. unfold mbind at 1, F_bind at 1, f_get in E. rewrite Hs in E.
  assert (Hns : _check_non_standard_fallback_format
                  match self_fallbacks self with Some a => FB !! a | None => None end = false).
  { destruct (self_fallbacks self) as [a|] eqn:Ea; [|done].
    destruct (cfg_regular Hcfg a Ea) as (l & -> & _ & ->). done. }
  rewrite Hns in E.
  destruct (if isinstance (cls e) ContextWindowExceededError then _ else _) as [l|] eqn:Esp in E.
  - assert (Hl : list_ok l).
    { clear E Hns. destruct (isinstance (cls e) ContextWindowExceededError); [by apply (cfg_context Hcfg)|].
      destruct (isinstance (cls e) ContentPolicyViolationError); [by apply (cfg_content Hcfg)|done]. }
    destruct (special_groups_ok l mg e s Hl) as [H1 H2]. unfold mbind, F_bind, mret, F_ret in E.
    destruct (special_groups l mg e s) as [[g|e1|] s2]; simpl in *; simplify_eq; try done.
    split; [|done]. intros g' s' [= <- _]. by eapply H1.
  - destruct (self_fallbacks self) as [a|] eqn:Ea; [|by injection E as <- <-].
    destruct (cfg_regular Hcfg a Ea) as (l & Hl & (cfg & -> & Hf) & _). rewrite Hl in E.
    destruct mg as [mg|]; [|by injection E as <- <-].
    destruct (get_fallback_entries (provider_list env) cfg mg (list_ok_typed cfg Hf)) as (idx & Eg & Hidx).
    rewrite Eg in E. unfold mbind, F_bind, f_modify, f_lift in E.
    destruct (best_match (provider_list env) cfg mg) as [g|] eqn:Eb; [|rewrite Hidx in E by done];
      simpl in E; injection E as <- <-; simpl; rewrite Hs, list_insert_id by done; split; try done.
    intros g' s' [= <- _]. eauto using best_match_ok.
Qed.

(** The number of calls of a request that has [k] levels of fallbacks left. *)
Definition call_bound (k : nat) : nat :=
  match k with O => S R | _ => S R * S L * 2 ^ k end.

Lemma call_bound_le k : (call_bound k ≤ S R * S L * 2 ^ k)%nat.
Proof. destruct k; simpl; [|done]. nia. Qed.

(** One nested call and the rest of the loop with one level less. *)
Lemma call_bound_step k k' n :
  (k' ≤ pred k)%nat →
  (call_bound k' + (S R * S L * (2 ^ pred k - 1) + S R * n) ≤ S R * S L * (2 ^ k - 1) + S R * S n)%nat.
Proof.
  intros Hk. destruct k as [|k].
  - destruct k'; simpl in *; nia.
  - cbn [pred] in *. pose proof (call_bound_le k') as Hb. pose proof (Nat.pow_le_mono_r 2 k' k ltac:(done) Hk) as Hp.
    pose proof (Nat.pow_nonzero 2 k ltac:(done)) as Hz. cbn [Nat.pow].
    remember (2 ^ k)%nat as x. remember (2 ^ k')%nat as y. remember (S R * S L)%nat as z.
    assert (z * y ≤ z * x)%nat by nia.
    replace (2 * x - 1)%nat with (x + (x - 1))%nat by lia. nia.
Qed.

Lemma costs_note kw s :
  ordinary kw → fb_lists s = FB →
  fb_lists (note_model_group kw s).2 = FB ∧ trace (note_model_group kw s).2 = trace s ∧
  match (note_model_group kw s).1 with Ret (kw', _) => ordinary kw' | _ => True end.
Proof.
  intros Hk Hs. unfold note_model_group, meta_put, new_meta, mbind, F_bind.
  destruct (dget "metadata" kw) as [[| | | |]|]; simpl; split_and!; try done.
  apply ordinary_dset; [set_solver|done].
Qed.

Lemma log_retry_kw kw e s kw' s' : log_retry kw e s = (Ret kw', s') → kw' = kw.
Proof.
  unfold log_retry, mbind, F_bind, mret, F_ret, meta_put, f_modify, f_raise.
  destruct (breadcrumb _ _ _ s) as [[m|?|] s1]; [|done..].
  destruct (dget (metadata_var kw) kw) as [[| | | |]|]; congruence.
Qed.

(** The loop over the groups: the nested calls have less and less depth left. *)
Lemma costs_fallback_groups rec k ms orig e m d kw err :
  (∀ kw, ordinary kw → costs (call_bound (depth_left kw)) (rec kw)) → ordinary kw →
  m - d ≤ Z.of_nat k →
  costs (S R * S L * (2 ^ k - 1) + S R * length ms) (fallback_groups rec (PStr <$> ms) orig e m d kw err).
Proof.
  intros Hrec. revert k d kw err. induction ms as [|mg ms IH]; intros k d kw err Hkw Hd; cbn [fmap list_fmap fallback_groups].
  { apply costs_raise. }
  assert (Hmono : (S R * S L * (2 ^ k - 1) + S R * length ms ≤ S R * S L * (2 ^ k - 1) + S R * length (mg :: ms))%nat)
    by (cbn [length]; nia).
  pose proof (λ k', call_bound_step k k' (length ms)) as Hstep. revert Hmono Hstep. cbn [length].
  generalize (S R * S L * (2 ^ k - 1) + S R * S (length ms))%nat as c. intros c Hmono Hstep.
  destruct (py_eqb (PStr mg) (PStr orig)); [eapply costs_weaken; [by apply (IH k)|done]|].
  intros s Hs. pose proof (costs_log_retry kw e s Hs) as [L1 L2].
  destruct (log_retry kw e s) as [[kw0|e0|] s1] eqn:El; simpl in L1, L2; cycle 1.
  { destruct (costs_weaken _ c _ (IH k d kw e0 Hkw Hd) Hmono s1 L1) as [G1 G2]. split; [done|lia]. }
  { split; [done|simpl; lia]. }
  apply log_retry_kw in El as ->. cbn [apply_group]. unfold mbind, F_bind. cbn [mret F_ret].
  assert (Hkw1 : ordinary (dset "model" (V (PStr mg)) kw)) by (apply ordinary_dset; [set_solver|done]).
  destruct (costs_note _ s1 Hkw1 L1) as (N1 & N2 & N3).
  destruct (note_model_group (dset "model" (V (PStr mg)) kw) s1) as [[[kw2 noted]|e2|] s2]; simpl in N1, N2, N3;
    [|split; [done|simpl; rewrite N2; lia]..].
  destruct noted; cbn [negb]; cycle 1.
  { destruct (costs_weaken _ c _ (IH k d kw2 (py_exc AttributeError) N3 Hd) Hmono s2 N1) as [G1 G2].
    split; [done|]. rewrite N2 in G2. lia. }
  set (kw3 := dset _ _ _).
  assert (Hkw3 : ordinary kw3) by (unfold kw3; apply ordinary_dset; [set_solver|]; by apply ordinary_dset; [set_solver|]).
  assert (Hdl : (depth_left kw3 ≤ pred k)%nat) by (unfold kw3; rewrite depth_left_nested; lia).
  specialize (Hstep _ Hdl). pose proof (Nat.le_trans _ _ _ (Nat.le_add_r _ _) Hstep) as Hc.
  destruct (Hrec kw3 Hkw3 s2 N1) as [R1 R2]. rewrite N2 in R2. unfold f_try.
  destruct (rec kw3 s2) as [[r|e3|] s3]; simpl in R1, R2; [split; [done|simpl; lia]| |split; [done|simpl; lia]].
  destruct (IH (pred k) (d + 1) kw3 e3 Hkw3 ltac:(lia) s3 R1) as [G1 G2]. split; [done|lia].
Qed.

Lemma costs_common_utils rec e dis fb cw cp mg kw :
  config_ok → fb = self_fallbacks self → cw = self_context_window_fallbacks self →
  cp = self_content_policy_fallbacks self → ordinary kw →
  (∀ kw, ordinary kw → costs (call_bound (depth_left kw)) (rec kw)) →
  costs (call_bound (depth_left kw) - S R)
    (async_function_with_fallbacks_common_utils rec e dis fb cw cp mg (pop_flags kw)).
Proof.
  intros Hcfg Hfb Hcw Hcp Hkw Hrec. unfold async_function_with_fallbacks_common_utils.
  destruct (depth_left_pop kw) as [-> ->]. unfold depth_left.
  set (max := default _ (dget "max_fallbacks" kw)). set (depth := default _ (dget "fallback_depth" kw)).
  set (k := match int_arg max with Ok m => _ | Raise _ => _ end).
  assert (Hrun : ∀ og g, groups_ok g → costs (call_bound k - S R)
      (run_async_fallback rec (rest_kwargs (pop_flags kw)) g og e max depth)).
  { intros og g (ms & -> & Hms). unfold run_async_fallback. apply costs_lift_bind. intros d Hd.
    apply costs_lift_bind. intros m Hm. destruct (Z.leb_spec m d); [apply costs_raise|].
    apply costs_lift_bind. intros l [= <-].
    assert (Hk : k = Z.to_nat (m - d)) by (unfold k; by rewrite Hm, Hd).
    eapply costs_weaken; [apply (costs_fallback_groups rec k); [done|by apply ordinary_rest, ordinary_pop|lia]|].
    destruct k as [|k']; [lia|]. unfold call_bound. pose proof (Nat.pow_nonzero 2 (S k') ltac:(done)).
    remember (2 ^ S k')%nat as x. nia. }
  assert (Htry : ∀ og, costs (call_bound k - S R)
      (f_try (g ← choose_groups e fb cw cp mg;
              match g with
              | Some g => run_async_fallback rec (rest_kwargs (pop_flags kw)) g og e max depth
              | None => f_raise e
              end) (λ _, f_raise e))).
  { intros og. rewrite <- (Nat.add_0_r (_ - _)). apply costs_try; [|intros; apply costs_raise].
    intros s Hs. destruct (choose_groups_ok e fb cw cp mg s Hcfg Hfb Hcw Hcp Hs) as (H1 & H2 & H3).
    unfold mbind, F_bind. destruct (choose_groups e fb cw cp mg s) as [[[g|]|e1|] s1]; simpl in H2, H3;
      rewrite <- H3; try (split; [done|simpl; lia]).
    apply Hrun; eauto. }
  destruct dis as [v|?|?| |?]; try destruct v as [|[]|?|?|?|?|?|?|?|?];
    destruct (model_of (pop_flags kw)); try apply costs_raise; apply Htry.
Qed.

Lemma costs_first_try kw : limits → ordinary kw → costs (S R) (first_try kw).
Proof.
  intros Hl Hkw. unfold first_try.
  apply costs_bind0; [unfold _handle_mock_testing_fallbacks; costs_tac|]. intros _.
  rewrite <- (Nat.add_0_r (S R)). apply costs_bind; [|intros r; apply costs_ret].
  apply costs_retries; [done|]. pose proof (ordinary_pop kw Hkw) as Hp.
  destruct (kw_get "mock_timeout" kw) as [[]|?|?| |?]; try apply Hp;
    (apply (ordinary_dset "mock_timeout"); [set_solver|done]).
Qed.

Lemma costs_request fuel kw :
  limits → config_ok → ordinary kw → costs (call_bound (depth_left kw)) (async_function_with_fallbacks fuel kw).
Proof.
  intros Hl Hcfg. revert kw. induction fuel as [|fuel IH]; intros kw Hkw; cbn [async_function_with_fallbacks].
  { intros s Hs. simpl. split; [done|lia]. }
  replace (call_bound (depth_left kw)) with (S R + (call_bound (depth_left kw) - S R))%nat.
  2:{ assert (S R ≤ call_bound (depth_left kw))%nat; [|lia]. unfold call_bound. destruct (depth_left kw); [done|].
      pose proof (Nat.pow_nonzero 2 (S n) ltac:(done)). remember (2 ^ S n)%nat as x. nia. }
  apply costs_try; [by apply costs_first_try|]. intros s e s' _. destruct Hkw as (H1 & H2 & H3 & H4).
  apply costs_common_utils; [done| | | | |done].
  - unfold fallbacks_arg. by rewrite H1.
  - unfold list_arg. by rewrite H2.
  - unfold list_arg. by rewrite H3.
  - by split_and!.
Qed.

End cost.

(** ** Bounds for a request *)

(** The retries of one model group make at most one call more than the largest retry
    count any of its sources allows. *)
Theorem retries_bounded (R : nat) (kw : kwargs) (s : store) (Hl : limits R) (Hk : own_limit R kw) :
  (length (trace (async_function_with_retries kw s).2) ≤ length (trace s) + S R)%nat.
Proof. by apply (costs_retries (fb_lists s) R kw Hl Hk s). Qed.

(** With fallback lists of at most [L] names and at most [R] retries, a request that has
    [k] levels of fallbacks left makes at most [(R + 1) * (L + 1) * 2 ^ k] provider
    calls, even when the lists are cyclic; with no level left, at most [R + 1].  It
    leaves the fallback lists as they were. *)
Theorem request_calls_bounded (R L : nat) (kw : kwargs) (s : store)
    (Hl : limits R) (Hc : config_ok (fb_lists s) L) (Hk : ordinary R kw) :
  (length (trace (run_request kw s).2) ≤ length (trace s) + call_bound R L (depth_left kw))%nat ∧
  (call_bound R L (depth_left kw) ≤ S R * S L * 2 ^ depth_left kw)%nat ∧
  fb_lists (run_request kw s).2 = fb_lists s.
Proof.
  destruct (costs_request (fb_lists s) R L (S (depth_left kw)) kw Hl Hc Hk s eq_refl) as [H1 H2].
  split_and!; [done|apply call_bound_le|done].
Qed.

(** ** The first success is the answer *)

(** [m] makes no provider call. *)
Definition silent {A} (m : F A) : Prop := ∀ s, trace (m s).2 = trace s.

Lemma silent_bind {A C} (m : F A) (f : A → F C) : silent m → (∀ a, silent (f a)) → silent (m ≫= f).
Proof.
  intros Hm Hf s. unfold mbind, F_bind. specialize (Hm s). destruct (m s) as [[a|e|] s']; simpl in *; [|done..].
  by rewrite Hf.
Qed.
Lemma silent_healthy m : silent (get_healthy m).
Proof. intros s. unfold get_healthy. by destruct (healthy_deployments _ _ _). Qed.

Ltac silent_tac :=
  repeat lazymatch goal with
    | |- silent (mbind _ _) => apply silent_bind; [|intros ?]
    | |- silent (match _ with _ => _ end) => case_match
    end; try solve [done | eauto with fbdb].

Lemma silent_put_opt a k v : silent (put_opt a k v).
Proof. unfold put_opt, meta_put. silent_tac. Qed.
Lemma silent_breadcrumb var kw acc : silent (breadcrumb var kw acc).
Proof. revert acc. induction kw as [|[k v] kw IH]; intros acc; cbn [breadcrumb]; silent_tac. Qed.
Hint Resolve silent_healthy silent_put_opt silent_breadcrumb : fbdb.
Lemma silent_log_retry kw e : silent (log_retry kw e).
Proof. unfold log_retry, meta_put. silent_tac. Qed.
Lemma silent_mock g kw : silent (_handle_mock_testing_rate_limit_error g kw).
Proof. unfold _handle_mock_testing_rate_limit_error. silent_tac. Qed.
Lemma silent_mock_fallbacks kw : silent (_handle_mock_testing_fallbacks kw).
Proof. unfold _handle_mock_testing_fallbacks. silent_tac. Qed.
Lemma silent_apply_group mg kw : silent (apply_group mg kw).
Proof.
  unfold apply_group. destruct mg; silent_tac. revert kw.
  induction d as [|[k v] d IH]; intros kw; cbn [update_kwargs]; silent_tac. unfold import_val. silent_tac.
Qed.
Lemma silent_note kw : silent (note_model_group kw).
Proof. unfold note_model_group, meta_put. silent_tac. Qed.
Lemma silent_choose_groups e fb cw cp mg : silent (choose_groups e fb cw cp mg).
Proof. unfold choose_groups, special_groups. silent_tac. Qed.
Hint Resolve silent_log_retry silent_mock silent_mock_fallbacks silent_apply_group silent_note silent_choose_groups : fbdb.

(** What a call with retries or fallbacks adds to the trace: failed calls, and after
    them, if it returns, one that returned the same body. *)
Definition answered (r : response B) (before failed after : list (kwargs * call_result)) : Prop :=
  ∃ kw w w' r0, after = (kw, Answered) :: failed ++ before ∧ original_function env kw w = (inl r0, w') ∧ body r = body r0.

(** The lookups for the headers never raise. *)
Definition headers_never_raise : Prop :=
  ∀ g w, (∃ l w', model_group_limits env g w = (inl l, w')) ∧ (∃ u w', get_model_group_usage env g w = (inl u, w')).

Lemma set_headers_return r g s e s' : headers_never_raise → set_response_headers r g s ≠ (Exc e, s').
Proof.
  intros Hn. unfold set_response_headers, get_remaining_model_group_usage, mbind, F_bind, f_ask.
  destruct (headers r); [|done]. destruct g as [g|]; [|done]. destruct (_ && _); [|done].
  destruct (Hn g (world s)) as [([t u] & w & ->) _]. simpl. destruct (Hn g w) as [_ ([? ?] & w' & E)].
  destruct t, u; simpl; rewrite ?E; done.
Qed.

(** A call that is no answer: it raised, or its headers could not be processed. *)
Definition failed_call (c : kwargs * call_result) : Prop :=
  c.2 ≠ Answered ∧ (headers_never_raise → c.2 = Raised).

Definition first_success (m : F (response B)) : Prop :=
  ∀ s, ∃ failed, Forall failed_call failed ∧
    match m s with
    | (Ret r, s') => answered r (trace s) failed (trace s')
    | (_, s') => trace s' = failed ++ trace s
    end.

Lemma fs_raise e : first_success (f_raise e).
Proof. intros s. by exists []. Qed.

Lemma fs_silent {A} (m : F A) (f : A → F (response B)) :
  silent m → (∀ a, first_success (f a)) → first_success (m ≫= f).
Proof.
  intros Hm Hf s. unfold mbind, F_bind. specialize (Hm s). destruct (m s) as [[a|e|] s']; simpl in *.
  - destruct (Hf a s') as (l & Hl & H). exists l. by rewrite <- Hm.
  - exists []. by rewrite Hm.
  - exists []. by rewrite Hm.
Qed.

Lemma fs_map (m : F (response B)) (f : response B → response B) :
  (∀ r, body (f r) = body r) → first_success m → first_success (r ← m; mret (f r)).
Proof.
  intros Hf Hm s. destruct (Hm s) as (l & Hl & H). exists l. split; [done|]. unfold mbind, F_bind.
  destruct (m s) as [[r|e|] s']; [|done..]. destruct H as (kw & w & w' & r0 & H1 & H2 & H3).
  exists kw, w, w', r0. by rewrite Hf.
Qed.

Lemma fs_call kw : first_success (make_call kw).
Proof.
  intros s. destruct (make_call_run kw s) as (c & _ & _ & Ht & Hc).
  destruct (make_call kw s) as [[r|e|] s']; simpl in *; [| |done].
  - destruct Hc as [-> (w & w' & r0 & H1 & H2)]. exists []. split; [done|]. by exists kw, w, w', r0.
  - exists [(kw, c)]. split; [|done]. constructor; [|done]. split; simpl.
    + by destruct Hc as [[-> _]|[-> _]].
    + intros Hn. destruct Hc as [[-> _]|[_ (r0 & s1 & s2 & E)]]; [done|]. by apply set_headers_return in E.
Qed.

Lemma fs_try m h : first_success m → (∀ e, first_success (h e)) → first_success (f_try m h).
Proof.
  intros Hm Hh s. unfold f_try. destruct (Hm s) as (l & Hl & H). destruct (m s) as [[r|e|] s']; [by exists l| |by exists l].
  destruct (Hh e s') as (l' & Hl' & H'). exists (l' ++ l). split; [by apply Forall_app|].
  destruct (h e s') as [[r|e'|] s'']; unfold answered in *; rewrite H in H'; rewrite <- app_assoc; done.
Qed.

Lemma fs_retry_loop cw cp fb all pol meta nr n kw e : first_success (retry_loop cw cp fb all pol meta nr n kw e).
Proof.
  revert kw e. induction n as [|n IH]; intros kw e; cbn [retry_loop]; [apply fs_raise|].
  do 2 (apply fs_silent; [eauto with fbdb|intros _]). apply fs_try.
  - apply fs_map; [done|apply fs_call].
  - intros e1. apply fs_silent; [eauto with fbdb|]. intros kw'. apply fs_silent; [silent_tac|]. intros healthy.
    apply fs_silent; [done|]. intros s. case_match; [apply fs_raise|apply IH].
Qed.

Lemma fs_after_failure kw e g meta v fb cw cp pol : first_success (after_failure kw e g meta v fb cw cp pol).
Proof.
  unfold after_failure. apply fs_silent; [eauto with fbdb|]. intros h. apply fs_silent; [done|]. intros s1.
  case_match; [apply fs_raise|]. apply fs_silent; [eauto with fbdb|]. intros _. apply fs_silent; [done|]. intros n.
  destruct (0 <? n); [|apply fs_raise]. apply fs_silent; [eauto with fbdb|]. intros kw'. apply fs_retry_loop.
Qed.

Lemma fs_retries kw : first_success (async_function_with_retries kw).
Proof.
  unfold async_function_with_retries. apply fs_silent; [done|]. intros v. apply fs_silent; [done|]. intros s.
  apply fs_silent; [silent_tac|]. intros _. do 2 (apply fs_silent; [eauto with fbdb|intros _]). apply fs_try.
  - apply fs_silent; [eauto with fbdb|]. intros _. apply fs_map; [done|apply fs_call].
  - intros e. apply fs_after_failure.
Qed.

Lemma fs_first_try kw : first_success (first_try kw).
Proof.
  unfold first_try. apply fs_silent; [eauto with fbdb|]. intros _. apply fs_map; [done|apply fs_retries].
Qed.

Lemma fs_fallback_groups rec mgs orig e m d kw err :
  (∀ kw, first_success (rec kw)) → first_success (fallback_groups rec mgs orig e m d kw err).
Proof.
  intros Hrec. revert d kw err. induction mgs as [|mg mgs IH]; intros d kw err; cbn [fallback_groups]; [apply fs_raise|].
  case_match; [apply IH|]. intros s. pose proof (silent_log_retry kw e s) as Hs.
  destruct (log_retry kw e s) as [[kw0|e0|] s1]; simpl in Hs; rewrite <- Hs; cycle 1.
  { apply IH. } { by exists []. }
  match goal with |- context [?f s1] => change (λ s, f s) with f; enough (first_success f) by auto end.
  apply fs_silent; [eauto with fbdb|]. intros kw1. apply fs_silent; [eauto with fbdb|]. intros [kw2 noted].
  case_match; [apply IH|]. apply fs_try; [apply fs_map; [done|apply Hrec]|]. intros e1. apply IH.
Qed.

Lemma fs_request fuel kw : first_success (async_function_with_fallbacks fuel kw).
Proof.
  revert kw. induction fuel as [|fuel IH]; intros kw; cbn [async_function_with_fallbacks]; [intros s; by exists []|].
  apply fs_try; [apply fs_first_try|]. intros e. unfold async_function_with_fallbacks_common_utils.
  assert (Htry : ∀ og mx dp, first_success (f_try (g ← choose_groups e (fallbacks_arg kw)
      (list_arg "context_window_fallbacks" (self_context_window_fallbacks self) kw)
      (list_arg "content_policy_fallbacks" (self_content_policy_fallbacks self) kw) (model_of kw);
      match g with
      | Some g => run_async_fallback (async_function_with_fallbacks fuel) (rest_kwargs (pop_flags kw)) g og e mx dp
      | None => f_raise e
      end) (λ _, f_raise e))).
  { intros og mx dp. apply fs_try; [|intros; apply fs_raise]. apply fs_silent; [eauto with fbdb|].
    intros [g|]; [|apply fs_raise]. unfold run_async_fallback. apply fs_silent; [done|]. intros d.
    apply fs_silent; [done|]. intros m. case_match; [apply fs_raise|]. apply fs_silent; [done|]. intros mgs.
    by apply fs_fallback_groups. }
  destruct (default _ _) as [v|?|?| |?]; try destruct v as [|[]|?|?|?|?|?|?|?|?];
    destruct (model_of (pop_flags kw)); try apply fs_raise; apply Htry.
Qed.

(** C24: A request asks providers one after the other until the first call returns: no
    call before the last one returned, the answer has the body the last call got from the
    provider, and a request that fails has seen no call return.  A call does not return when
    the provider raises, or when the lookup of the limits for the headers of its answer
    does (then the answer is lost and asked for again); as long as these lookups never
    raise, all calls before the last have raised. *)
Theorem first_success_is_the_answer (kw : kwargs) (s : store) :
  ∃ failed,
    Forall (λ c, c.2 ≠ Answered) failed ∧ (headers_never_raise → Forall (λ c, c.2 = Raised) failed) ∧
    match run_request kw s with
    | (Ret r, s') => ∃ kw' w w' r0, trace s' = (kw', Answered) :: failed ++ trace s ∧
                       original_function env kw' w = (inl r0, w') ∧ body r = body r0
    | (_, s') => trace s' = failed ++ trace s
    end.
Proof.
  destruct (fs_request (S (depth_left kw)) kw s) as (failed & Hf & H). exists failed. split_and!; [..|exact H].
  - eapply Forall_impl; [exact Hf|]. by intros c [? _].
  - intros Hn. eapply Forall_impl; [exact Hf|]. intros c [_ Hc]. by apply Hc.
Qed.

(** ** Breadcrumbs *)

(** At most four breadcrumbs are kept. *)
Definition few (s : store) : Prop := (length (previous_models s) ≤ 4)%nat.
Definition keeps_few {A} (m : F A) : Prop := ∀ s, few s → few (m s).2.

Lemma kf_bind {A C} (m : F A) (f : A → F C) : keeps_few m → (∀ a, keeps_few (f a)) → keeps_few (m ≫= f).
Proof.
  intros Hm Hf s Hs. unfold mbind, F_bind. specialize (Hm s Hs). destruct (m s) as [[a|e|] s']; simpl in *; [|done..].
  by apply Hf.
Qed.
Lemma kf_try {A} (m : F A) (h : exc → F A) : keeps_few m → (∀ e, keeps_few (h e)) → keeps_few (f_try m h).
Proof.
  intros Hm Hh s Hs. unfold f_try. specialize (Hm s Hs). destruct (m s) as [[a|e|] s']; simpl in *; [done| |done].
  by apply Hh.
Qed.
Lemma kf_healthy m : keeps_few (get_healthy m).
Proof. intros s Hs. unfold get_healthy. by destruct (healthy_deployments _ _ _). Qed.
Lemma kf_make_call kw : keeps_few (make_call kw).
Proof. intros s Hs. unfold few. by destruct (make_call_run kw s) as (c & _ & -> & _). Qed.
Hint Resolve kf_healthy kf_make_call : fbdb.

Ltac kf_tac :=
  repeat lazymatch goal with
    | |- keeps_few (mbind _ _) => apply kf_bind; [|intros ?]
    | |- keeps_few (f_try _ _) => apply kf_try; [|intros ?]
    | |- keeps_few (match _ with _ => _ end) => case_match
    end; try solve [by intros ? ? | eauto with fbdb].

Lemma length_push m l : (length l ≤ 4)%nat → (length (push_previous m l) ≤ 4)%nat.
Proof.
  unfold push_previous. rewrite length_app. intros Hl. simpl.
  destruct (Nat.ltb_spec 3 (length l)); [destruct l; simpl in *; lia|lia].
Qed.

Lemma kf_breadcrumb var kw acc : keeps_few (breadcrumb var kw acc).
Proof. revert acc. induction kw as [|[k v] kw IH]; intros acc; cbn [breadcrumb]; kf_tac. Qed.
Hint Resolve kf_breadcrumb : fbdb.
Lemma kf_log_retry kw e : keeps_few (log_retry kw e).
Proof. unfold log_retry, meta_put. kf_tac. intros s Hs. by apply length_push. Qed.
Lemma kf_put_opt a k v : keeps_few (put_opt a k v).
Proof. destruct a; by intros s Hs. Qed.
Hint Resolve kf_log_retry kf_put_opt : fbdb.
Lemma kf_retry_loop cw cp fb all pol meta nr n kw e : keeps_few (retry_loop cw cp fb all pol meta nr n kw e).
Proof. revert kw e. induction n as [|n IH]; intros kw e; cbn [retry_loop]; kf_tac. Qed.
Hint Resolve kf_retry_loop : fbdb.
Lemma kf_first_try kw : keeps_few (first_try kw).
Proof.
  unfold first_try, _handle_mock_testing_fallbacks, async_function_with_retries, after_failure,
    _handle_mock_testing_rate_limit_error. kf_tac.
Qed.
Lemma kf_apply_group mg kw : keeps_few (apply_group mg kw).
Proof.
  unfold apply_group. destruct mg; kf_tac. revert kw.
  induction d as [|[k v] d IH]; intros kw; cbn [update_kwargs]; kf_tac. unfold import_val. kf_tac.
Qed.
Lemma kf_note kw : keeps_few (note_model_group kw).
Proof. unfold note_model_group, meta_put. kf_tac. Qed.
Lemma kf_choose_groups e fb cw cp mg : keeps_few (choose_groups e fb cw cp mg).
Proof. unfold choose_groups, special_groups. kf_tac. Qed.
Hint Resolve kf_first_try kf_apply_group kf_note kf_choose_groups : fbdb.

Lemma kf_fallback_groups rec mgs orig e m d kw err :
  (∀ kw, keeps_few (rec kw)) → keeps_few (fallback_groups rec mgs orig e m d kw err).
Proof.
  intros Hrec. revert d kw err. induction mgs as [|mg mgs IH]; intros d kw err; cbn [fallback_groups]; [kf_tac|].
  case_match; [apply IH|]. intros s Hs. pose proof (kf_log_retry kw e s Hs) as Hl.
  destruct (log_retry kw e s) as [[kw0|e0|] s1]; simpl in Hl; [|by apply IH|done].
  match goal with |- few (?f s1).2 => enough (keeps_few f) by auto end. kf_tac.
Qed.

Lemma kf_request fuel kw : keeps_few (async_function_with_fallbacks fuel kw).
Proof.
  revert kw. induction fuel as [|fuel IH]; intros kw; cbn [async_function_with_fallbacks]; [by intros s Hs|].
  apply kf_try; [apply kf_first_try|]. intros e. unfold async_function_with_fallbacks_common_utils, run_async_fallback.
  kf_tac; by apply kf_fallback_groups.
Qed.

(** However many retries and fallbacks a request takes, the router keeps at most four
    breadcrumbs of failed calls. *)
Theorem breadcrumbs_bounded (kw : kwargs) (s : store) (Hs : (length (previous_models s) ≤ 4)%nat) :
  (length (previous_models (run_request kw s).2) ≤ 4)%nat.
Proof. by apply kf_request. Qed.

End router.

(** ** A concrete router *)

Module Sample.

(** A provider that only answers for the model group [good]. *)
Definition provider (kw : list (string * kwval)) (w : nat) : (response string + exc) * nat :=
  match model_of kw with
  | Some "good" => (inl (mkResponse "hello" (Some [])), S w)
  | _ => (inr (litellm_exc InternalServerError 500 None "InternalServerError"), S w)
  end.

Definition env : environment (W := nat) (B := string) :=
  mkEnv provider (λ _ w, (inl (None, Some 100), w)) (λ _ w, (inl (None, Some 7), w))
    (λ _ w, ((1, 2)%nat, w)) (λ _ _, Some 2) (λ _ _, None) ["openai"].

(** [a] and [b] fall back to each other. *)
Definition cyclic : list pyval :=
  entries_of [("a", PList [PStr "b"]); ("b", PList [PStr "a"; PStr "c"])].
Definition helpful : list pyval :=
  entries_of [("a", PList [PStr "b"; PStr "good"; PStr "c"])].

Definition self : router := mkRouter (Some 0%nat) None None 5 None None.
Definition start (fb : list pyval) : store (W := nat) := mkStore [fb] [[("user", V (PStr "u"))]] [] 0%nat [].
Definition request : list (string * kwval) :=
  [("model", V (PStr "a")); ("metadata", MetaRef 0); ("num_retries", V (PInt 1))].

Lemma sample_limits : limits env self 1.
Proof.
  split; [|done..]. intros kw w e w' n E En.
  assert (e = litellm_exc InternalServerError 500 None "InternalServerError") as ->; [|done].
  revert E. simpl. unfold provider. repeat case_match; congruence.
Qed.

Lemma request_ordinary : ordinary 1 request.
Proof. split_and!; [done..|]. split; [done|]. intros v n [= <-] [= <-]. lia. Qed.

Lemma cyclic_ok : config_ok self (fb_lists (start cyclic)) 2.
Proof.
  split; [|done|done]. intros a [= <-]. exists cyclic. split; [done|]. split; [|done].
  eexists. split; [done|]. repeat constructor.
  - by exists ["b"]; split; [|simpl; lia].
  - by exists ["a"; "c"]; split; [|simpl; lia].
Qed.

End Sample.
Import Sample.

Lemma fallbacks_terminate_witness :
  async_function_with_fallbacks env self 9 request (start cyclic) = run_request env self request (start cyclic) ∧
  (run_request env self request (start cyclic)).1 ≠ NoFuel.
Proof. apply (fallbacks_terminate env self request (start cyclic) 9). vm_compute. lia. Defined.

(** The request to [a] takes the second fallback; the header says so. *)
Example helpful_answer :
  (run_request env self request (start helpful)).1
  = Ret (mkResponse "hello" (Some [("x-litellm-model-group", PStr "good"); ("x-ratelimit-remaining-requests", PInt 93);
      ("x-ratelimit-limit-requests", PInt 100); ("x-litellm-attempted-retries", PInt 0);
      ("x-litellm-attempted-fallbacks", PInt 2)])) ∧
  length (trace (run_request env self request (start helpful)).2) = 5%nat.
Proof. by vm_compute. Qed.

(** When the lookup of the limits raises, the provider has answered, the answer is lost and
    the call is repeated as if it had failed. *)
Definition broken_limits : environment (W := nat) (B := string) :=
  mkEnv provider (λ _ w, (inr (py_exc TypeError), w)) (λ _ w, (inl (None, Some 7), w))
    (λ _ w, ((1, 2)%nat, w)) (λ _ _, Some 2) (λ _ _, None) ["openai"].

Theorem answer_lost_to_headers :
  let kw := [("model", V (PStr "good")); ("metadata", MetaRef 0); ("num_retries", V (PInt 1))] in
  let '(r, s) := async_function_with_retries broken_limits self kw (start []) in
  r = Exc (py_exc TypeError) ∧ snd <$> trace s = [HeadersFailed; HeadersFailed] ∧ world s = 2%nat.
Proof. by vm_compute. Qed.

Lemma failed_request_raises_first_error_witness :
  ∃ s', first_try env self request (start cyclic) =
    (Exc (mkExc InternalServerError (Some 500) (Some 1) (Some 1) false false "InternalServerError" ""), s').
Proof. apply (failed_request_raises_first_error env self request (start cyclic)). vm_compute. reflexivity. Defined.

Lemma retries_bounded_witness :
  (length (trace (async_function_with_retries env self request (start cyclic)).2) ≤ 0 + 2)%nat.
Proof.
  apply (retries_bounded env self 1 request (start cyclic)); [apply sample_limits|apply request_ordinary].
Defined.

Lemma request_calls_bounded_witness :
  (length (trace (run_request env self request (start cyclic)).2) ≤ 0 + call_bound 1 2 5)%nat ∧
  (call_bound 1 2 5 ≤ 2 * 3 * 2 ^ 5)%nat ∧
  fb_lists (run_request env self request (start cyclic)).2 = [cyclic].
Proof.
  apply (request_calls_bounded env self 1 2 request (start cyclic));
    [apply sample_limits|apply cyclic_ok|apply request_ordinary].
Defined.

(** The number of calls the cyclic lists really lead to. *)
Example cyclic_calls : length (trace (run_request env self request (start cyclic)).2) = 16%nat.
Proof. by vm_compute. Qed.

Lemma breadcrumbs_bounded_witness :
  (length (previous_models (run_request env self request (start cyclic)).2) ≤ 4)%nat.
Proof. apply (breadcrumbs_bounded env self request (start cyclic)). simpl. lia. Defined.

End Fallbacks.
