(* ===== verification/Scheduling.v ===== *)
(** * Scheduling: clients waiting for their turn

    [Router.schedule_acompletion] (and [_schedule_factory], whose waiting part is the
    same) of [router.py]: a client queues its request and polls the scheduler until it
    is let through or its time is over, then calls the model or leaves the queue.
    Clients are cooperative coroutines: between two [await]s of one client any others
    may run, so a run is a sequence of turns, each one iteration of the polling loop
    of one client at some time and with some healthy deployments.  The theorems say
    who is let through, in which order, and that under a fair schedule nobody waits
    for ever; and that a request let through because a deployment was healthy stays in
    the queue and blocks the requests behind it. *)

From stdpp Require Import base gmap sets list strings.
From Stdlib Require Import ZArith Lia Sorting.
From S2P Require Import Prelude Heapq PyHeapq InMemoryCache RedisCache DualCache Scheduler.

#[local] Open Scope Z_scope.

Module Scheduling.
Import Scheduler.

(** Where a client is: in the polling loop, about to call the model, or out because
    its time was over or the scheduler raised. *)
Inductive phase := Polling | Granted | TimedOut | Failed (e : exn).

#[export] Instance phase_eq_dec : EqDecision phase.
Proof. solve_decision. Defined.

Section clients.
Context `{PyRuntime} {R : Type} `{RedisCacheI R}.
Variable model : string.

(** One iteration of [while curr_time < end_time] at time [now], or the end of the
    loop. *)
Definition turn (now end_time : Z) (id : string) (health : list pyval) : M (t R) phase :=
  if now <? end_time then
    make_request ← poll now id model health;
    mret (if make_request : bool then Granted else Polling)
  else
    remove_request now id model;;
    mret TimedOut.

(** The clients: phase and [end_time] by request id. *)
#[local] Abbreviation clients := (list (string * (phase * Z))).

(** A turn of a client that is still polling; other clients have nothing to do. *)
Definition client_turn (now : Z) (id : string) (health : list pyval) (cs : clients) (s : t R) : clients * t R :=
  match dget id cs with
  | Some (Polling, end_time) =>
      let '(r, s') := turn now end_time id health s in
      (dset id (match r with Ok p => p | Raise e => Failed e end, end_time) cs, s')
  | _ => (cs, s)
  end.

Fixpoint run_turns (sched : list (Z * string * list pyval)) (cs : clients) (s : t R) : clients * t R :=
  match sched with
  | [] => (cs, s)
  | (now, id, health) :: sched' =>
      let '(cs', s') := client_turn now id health cs s in run_turns sched' cs' s'
  end.

(** Clients arrive: [scheduler.add_request] with their priority. *)
Fixpoint enqueue_all (now : Z) (arrivals : list (Z * string)) (s : t R) : t R :=
  match arrivals with
  | [] => s
  | (p, id) :: arrivals' => enqueue_all now arrivals' (add_request now (mkFlow p id model) s).2
  end.

Definition start_clients (end_time : Z) (arrivals : list (Z * string)) : clients :=
  (λ x, (x.2, (Polling, end_time))) <$> arrivals.

Definition phase_of (id : string) (cs : clients) : option phase := fst <$> dget id cs.

(** The order in which the arrivals are served. *)
Definition serving_order (arrivals : list (Z * string)) : list (Z * string) :=
  fold_left (λ q x, insert_sorted x q) arrivals [].

Lemma serving_order_from arrivals q :
  fold_left (λ q x, insert_sorted x q) arrivals q ≡ₚ arrivals ++ q.
Proof.
  revert q. induction arrivals as [|x arrivals IH]; intros q; simpl; [done|].
  rewrite IH, insert_sorted_perm. by rewrite Permutation_middle.
Qed.

Lemma serving_order_perm arrivals : serving_order arrivals ≡ₚ arrivals.
Proof. unfold serving_order. by rewrite serving_order_from, app_nil_r. Qed.

Lemma enqueue_all_sim k dl now arrivals q s :
  sim k dl model q s → now ≤ dl → dl ≤ now + k.1.2 → fits k (length q + length arrivals) →
  sim k dl model (fold_left (λ q x, insert_sorted x q) arrivals q) (enqueue_all now arrivals s).
Proof.
  revert q s. induction arrivals as [|[p id] arrivals IH]; intros q s Hsim Hn Hd Hf; simpl; [done|].
  destruct (sim_add k dl model q now p id s Hsim Hn Hd) as (s' & -> & Hs').
  { intros c v Hc Hv. apply Hf; [done|simpl; lia]. }
  apply IH; [done..|]. intros c v Hc Hv. apply Hf; [done|]. rewrite insert_sorted_perm in Hv. simpl in *. lia.
Qed.

(** ** No overtaking, and everyone is served *)

(** The queue [q] holds exactly the clients that still poll; the others have been let
    through. *)
Definition in_step (arrivals q : list (Z * string)) (end_time : Z) (cs : clients) : Prop :=
  dkeys cs = arrivals.*2 ∧
  ∀ x, x ∈ arrivals → dget x.2 cs = Some (if decide (x.2 ∈ q.*2) then Polling else Granted, end_time).

Lemma dkeys_dset_mem {V} key (v : V) d : key ∈ dkeys d → dkeys (dset key v d) = dkeys d.
Proof.
  intros Hin. rewrite dkeys_dset. unfold dmem. destruct (dget key d) eqn:E; [done|]. by apply dget_None in E.
Qed.

Lemma turn_in_step k dl arrivals q end_time now id cs s :
  sim k dl model q s → now ≤ dl → dl ≤ now + k.1.2 → fits k (length q) → now < end_time →
  in_step arrivals q end_time cs → NoDup q.*2 → q.*2 ⊆ arrivals.*2 →
  ∃ q', sim k dl model q' (client_turn now id [] cs s).2 ∧ in_step arrivals q' end_time (client_turn now id [] cs s).1 ∧
    (q' = q ∧ (∀ x, head q = Some x → x.2 ≠ id) ∨ q' = tail q ∧ q ≠ []).
Proof.
  intros Hsim Hn Hd Hf He [Hk Hc] Hnd Hsub. unfold client_turn.
  assert (Hstay : (∀ x, head q = Some x → x.2 ≠ id) →
    ∃ q', sim k dl model q' s ∧ in_step arrivals q' end_time cs ∧
      (q' = q ∧ (∀ x, head q = Some x → x.2 ≠ id) ∨ q' = tail q ∧ q ≠ [])).
  { intros Hh. exists q. split_and!; [done|done|by left]. }
  destruct (dget id cs) as [[ph e]|] eqn:Eid.
  2:{ apply Hstay. intros x Hx Heq. subst id. apply dget_None in Eid. rewrite Hk in Eid. apply Eid, Hsub.
      destruct q; simplify_eq/=. by left. }
  apply dget_Some_in in Eid as Hin. apply (list_elem_of_fmap_2 fst) in Hin. change (id ∈ dkeys cs) in Hin.
  assert (Hin' := Hin). rewrite Hk in Hin'. apply list_elem_of_fmap in Hin' as (x & -> & Hx).
  rewrite (Hc x Hx) in Eid. injection Eid as <- <-.
  destruct (decide (x.2 ∈ q.*2)) as [Hq|Hq].
  2:{ apply Hstay. intros y Hy Heq. apply Hq. rewrite <- Heq. destruct q; simplify_eq/=. by left. }
  unfold turn. destruct (Z.ltb_spec now end_time); [|lia].
  destruct (sim_poll k dl model q now x.2 [] s Hsim Hn Hd Hf) as (s' & Ep & Hs').
  unfold mbind, M_bind. rewrite Ep. destruct q as [|[p i] q]; [by apply elem_of_nil in Hq|].
  simpl in Hs' |- *. destruct (String.eqb_spec i x.2) as [Ei|Ei]; simpl.
  - exists q. split_and!; [done| |right; done]. split; [by rewrite dkeys_dset_mem|].
    intros y Hy. rewrite dget_dset. simpl in Hnd. apply NoDup_cons in Hnd as [Hnd _].
    destruct (String.eqb_spec x.2 y.2) as [Exy|Exy].
    + rewrite decide_False; [done|]. by rewrite <- Exy, <- Ei.
    + rewrite (Hc y Hy). simpl. f_equal. f_equal. do 2 case_decide; set_solver.
  - exists ((p, i) :: q). split_and!; [done| |left; split; [done|]].
    + split; [by rewrite dkeys_dset_mem|]. intros y Hy. rewrite dget_dset.
      destruct (String.eqb_spec x.2 y.2) as [Exy|Exy]; [|by apply Hc].
      rewrite decide_True; [done|]. by rewrite <- Exy.
    + by intros z [= <-].
Qed.

(** After any turns the clients let through are the first ones of the serving
    order; each turn of the first waiting client lets it through. *)
Lemma run_in_step k dl arrivals q end_time sched cs s :
  sim k dl model q s → fits k (length q) →
  Forall (λ x, x.1.1 ≤ dl ∧ dl ≤ x.1.1 + k.1.2 ∧ x.1.1 < end_time ∧ x.2 = []) sched →
  in_step arrivals q end_time cs → NoDup q.*2 → q.*2 ⊆ arrivals.*2 →
  ∃ n, sim k dl model (drop n q) (run_turns sched cs s).2 ∧ in_step arrivals (drop n q) end_time (run_turns sched cs s).1 ∧
    (∀ x, head q = Some x → x.2 ∈ (λ x, x.1.2) <$> sched → (0 < n)%nat).
Proof.
  intros Hsim Hf Hs. revert q cs s Hsim Hf. induction Hs as [|[[now id] health] sched Hx Hs IH];
    intros q cs s Hsim Hf Hin Hnd Hsub.
  { exists 0%nat. rewrite drop_0. split_and!; [done..|]. intros x _ Hx. by apply elem_of_nil in Hx. }
  destruct Hx as (H1 & H2 & H3 & H4). simpl in H1, H2, H3, H4. subst health. cbn [run_turns].
  destruct (turn_in_step k dl arrivals q end_time now id cs s Hsim H1 H2 Hf H3 Hin Hnd Hsub)
    as (q' & Hq' & Hin' & Hcase).
  destruct (client_turn now id [] cs s) as [cs' s']. simpl in Hq', Hin'.
  destruct Hcase as [[-> Hh]|[-> Hne]].
  - destruct (IH q cs' s' Hq' Hf Hin' Hnd Hsub) as (n & G1 & G2 & G3). exists n. split_and!; [done..|].
    intros x Hx Hmem. simpl in Hmem. apply elem_of_cons in Hmem as [Heq|Hmem]; [|eauto].
    by destruct (Hh x Hx).
  - destruct q as [|y q]; [done|]. simpl in Hq', Hin', Hnd, Hsub. apply NoDup_cons in Hnd as [_ Hnd].
    destruct (IH q cs' s' Hq') as (n & G1 & G2 & _); [|done|done|set_solver|].
    { intros c v Hc Hv. apply Hf; [done|simpl; lia]. }
    exists (S n). split_and!; [done..|]. intros. lia.
Qed.

Lemma run_turns_app s1 s2 cs s :
  run_turns (s1 ++ s2) cs s = let '(cs', s') := run_turns s1 cs s in run_turns s2 cs' s'.
Proof.
  revert cs s. induction s1 as [|[[now id] health] s1 IH]; intros cs s; simpl; [done|].
  destruct (client_turn now id health cs s) as [cs' s']. apply IH.
Qed.

(** As many rounds as there are requests, each with a turn of every one of them, let
    all of them through. *)
Lemma rounds_in_step k dl arrivals q end_time rounds cs s :
  sim k dl model q s → fits k (length q) →
  Forall (Forall (λ x, x.1.1 ≤ dl ∧ dl ≤ x.1.1 + k.1.2 ∧ x.1.1 < end_time ∧ x.2 = [])) rounds →
  Forall (λ round, q.*2 ⊆ (λ x, x.1.2) <$> round) rounds → (length q ≤ length rounds)%nat →
  in_step arrivals q end_time cs → NoDup q.*2 → q.*2 ⊆ arrivals.*2 →
  in_step arrivals [] end_time (run_turns (concat rounds) cs s).1.
Proof.
  revert q cs s. induction rounds as [|round rounds IH]; intros q cs s Hsim Hf Ht Hr Hl Hin Hnd Hsub.
  { by destruct q; simpl in Hl; [|lia]. }
  apply Forall_cons in Ht as [Ht Ht'], Hr as [Hr Hr']. cbn [concat]. rewrite run_turns_app.
  destruct (run_in_step k dl arrivals q end_time round cs s Hsim Hf Ht Hin Hnd Hsub) as (n & G1 & G2 & G3).
  destruct (run_turns round cs s) as [cs' s']. simpl in G1, G2.
  apply (IH (drop n q)); try done.
  - intros c v Hc Hv. apply Hf; [done|]. rewrite length_drop in Hv. lia.
  - eapply Forall_impl; [exact Hr'|]. simpl. intros r Hsubr. rewrite fmap_drop.
    etrans; [apply subseteq_drop|done].
  - rewrite length_drop. simpl in Hl. destruct q as [|x q]; [simpl; lia|].
    assert (0 < n)%nat by (apply (G3 x); [done|]; apply Hr; by left). simpl in *. lia.
  - rewrite fmap_drop. eapply sublist_NoDup; [done|apply sublist_drop].
  - rewrite fmap_drop. etrans; [apply subseteq_drop|done].
Qed.

(** ** From an empty scheduler *)

Section fresh.
Context (g : DualCache.settings) (interval : option Z) (t0 : Z) (arrivals : list (Z * string)).
Hypothesis Hg : DualCache.s_default_in_memory_ttl g = None.
Hypothesis Hsize : ∀ v, (length v ≤ length arrivals)%nat → obj_sizeof (PList v) ≤ 1024 * 1024.
Hypothesis Hids : NoDup arrivals.*2.

(** The scheduler after the arrivals. *)
Definition queued : t R := enqueue_all t0 arrivals (init g interval None).

(** The window in which the queue entry lives. *)
Definition in_window (end_time : Z) (x : Z * string * list pyval) : Prop :=
  t0 ≤ x.1.1 ≤ t0 + seconds 600 ∧ x.1.1 < end_time ∧ x.2 = [].

#[local] Abbreviation k0 := (InMemoryCache.cfg InMemoryCache.init_default).
#[local] Abbreviation dl0 := (t0 + seconds 600).

Lemma k0_ttl : k0.1.2 = seconds 600.
Proof. done. Qed.

Lemma queued_fits : fits k0 (length (serving_order arrivals)).
Proof.
  intros c v [= _ _ Hc] Hv. unfold InMemoryCache.check_value_size. rewrite Hc. simpl.
  rewrite serving_order_perm in Hv. specialize (Hsize v Hv). lia.
Qed.

Lemma queued_sim : sim k0 dl0 model (serving_order arrivals) queued.
Proof.
  assert (Hwf : InMemoryCache.wf InMemoryCache.init_default) by (apply InMemoryCache.wf_init; simpl; lia).
  unfold queued, serving_order. apply enqueue_all_sim; [|unfold seconds; lia|rewrite k0_ttl; lia|].
  - exists []. split_and!; [|done|constructor]. split_and!; [|by intros ? ? ? ? _ _ _ ?|done]. by split.
  - intros c v Hc Hv. apply queued_fits; [done|]. by rewrite serving_order_perm.
Qed.

Lemma start_in_step end_time : in_step arrivals (serving_order arrivals) end_time (start_clients end_time arrivals).
Proof.
  unfold in_step, start_clients. split; [unfold dkeys; rewrite <- list_fmap_compose; done|].
  intros x Hx. apply dget_in.
  - unfold dict_wf, dkeys. rewrite <- list_fmap_compose. done.
  - apply list_elem_of_fmap. exists x. rewrite decide_True; [done|]. rewrite serving_order_perm.
    by apply list_elem_of_fmap_2.
Qed.

Lemma serving_ids : NoDup (serving_order arrivals).*2 ∧ (serving_order arrivals).*2 ⊆ arrivals.*2.
Proof. rewrite serving_order_perm. done. Qed.

Lemma window_times end_time sched :
  Forall (in_window end_time) sched →
  Forall (λ x, x.1.1 ≤ dl0 ∧ dl0 ≤ x.1.1 + k0.1.2 ∧ x.1.1 < end_time ∧ x.2 = []) sched.
Proof.
  intros Hs. eapply Forall_impl; [exact Hs|]. intros x ([H1 H2] & H3 & H4). rewrite k0_ttl.
  split_and!; [done|lia|done|done].
Qed.

(** C37: For requests with distinct ids that are all queued at one time in an empty
    scheduler without Redis (and fit in one cache item) before any client polls, while
    no deployment is healthy, within the 600 s in which the queue entry lives and before
    the clients' common end time: requests are let through strictly in the order of
    (priority, id), however the clients' turns are interleaved. At every moment those
    that have been let through are the first ones of that order, and all others are
    still waiting. *)
Theorem no_overtaking (end_time : Z) (sched : list (Z * string * list pyval))
    (Hs : Forall (in_window end_time) sched) :
  ∃ n, ∀ i x, serving_order arrivals !! i = Some x →
    phase_of x.2 (run_turns sched (start_clients end_time arrivals) queued).1
    = Some (if (i <? n)%nat then Granted else Polling).
Proof.
  destruct serving_ids as [Hnd Hsub].
  destruct (run_in_step k0 dl0 arrivals (serving_order arrivals) end_time sched (start_clients end_time arrivals) queued)
    as (n & _ & [_ Hc] & _);
    [apply queued_sim|apply queued_fits|by apply window_times|apply start_in_step|done|done|].
  exists n. intros i x Hi. unfold phase_of.
  assert (Hx : x ∈ arrivals) by (rewrite <- serving_order_perm; by eapply list_elem_of_lookup_2).
  rewrite (Hc x Hx). simpl. f_equal. rewrite fmap_drop.
  destruct (Nat.ltb_spec i n) as [Hlt|Hge].
  - rewrite decide_False; [done|]. intros (j & Hj)%list_elem_of_lookup. rewrite lookup_drop in Hj.
    assert (Hi' : (serving_order arrivals).*2 !! i = Some x.2) by (by rewrite list_lookup_fmap, Hi).
    pose proof (NoDup_lookup _ _ _ _ Hnd Hj Hi'). lia.
  - rewrite decide_True; [done|]. apply list_elem_of_lookup. exists (i - n)%nat.
    rewrite lookup_drop, list_lookup_fmap. replace (n + (i - n))%nat with i by lia. by rewrite Hi.
Qed.

(** C26: For requests with distinct ids that are all queued at one time in an empty
    scheduler without Redis (and fit in one cache item) before any client polls, and
    whose clients give up at a common end time: when the turns, all within the 600 s in
    which the queue entry lives and before that end, contain as many rounds as there are
    requests, each round with a turn of every client in any order, every request has
    been let through, without any deployment becoming healthy. *)
Theorem waiting_requests_are_served (end_time : Z) (rounds : list (list (Z * string * list pyval)))
    (Hs : Forall (Forall (in_window end_time)) rounds)
    (Hfair : Forall (λ round, arrivals.*2 ⊆ (λ x, x.1.2) <$> round) rounds)
    (Hn : (length arrivals ≤ length rounds)%nat) :
  ∀ x, x ∈ arrivals →
    phase_of x.2 (run_turns (concat rounds) (start_clients end_time arrivals) queued).1 = Some Granted.
Proof.
  destruct serving_ids as [Hnd Hsub].
  destruct (rounds_in_step k0 dl0 arrivals (serving_order arrivals) end_time rounds (start_clients end_time arrivals) queued)
    as [_ Hc]; [apply queued_sim|apply queued_fits| | | |apply start_in_step|done|done|].
  - eapply Forall_impl; [exact Hs|]. intros r. apply window_times.
  - eapply Forall_impl; [exact Hfair|]. simpl. intros r Hr. by etrans.
  - by rewrite serving_order_perm.
  - intros x Hx. unfold phase_of. by rewrite (Hc x Hx).
Qed.
End fresh.

(** ** A granted request that stays in the queue *)

(** Nobody but [others] has been let through, and the queue is headed by [ghost]. *)
Definition blocked (k : Z * Z * Z) (dl : Z) (p : Z) (ghost : string) (n : nat) (others : list string)
    (x : clients * t R) : Prop :=
  (∃ q, sim k dl model ((p, ghost) :: q) x.2 ∧ (length ((p, ghost) :: q) ≤ n)%nat) ∧
  (∀ id, phase_of id x.1 = Some Granted → id ∈ others) ∧ phase_of ghost x.1 ≠ Some Polling.

Lemma turn_blocked k dl p ghost n others now id cs s :
  blocked k dl p ghost n others (cs, s) → now ≤ dl → dl ≤ now + k.1.2 → fits k n →
  blocked k dl p ghost n others (client_turn now id [] cs s).
Proof.
  intros Hb Hn Hd Hf. pose proof Hb as ((q & Hsim & Hlen) & Hg & Hgh). simpl in Hsim, Hg, Hgh. unfold client_turn.
  destruct (dget id cs) as [[[| | |] e]|] eqn:Eid; try done.
  assert (Hne : ghost ≠ id) by (intros ->; apply Hgh; unfold phase_of; by rewrite Eid).
  assert (Hfits : fits k (length ((p, ghost) :: q))) by (intros c v Hc Hv; apply Hf; [done|lia]).
  assert (Hphase : ∀ ph, ph ≠ Granted → ∀ s', (∃ q, sim k dl model ((p, ghost) :: q) s' ∧ (length ((p, ghost) :: q) ≤ n)%nat) →
    blocked k dl p ghost n others (dset id (ph, e) cs, s')).
  { intros ph Hph s' Hs'. split_and!; [done| |]; simpl; unfold phase_of.
    - intros i. rewrite dget_dset. destruct (String.eqb_spec id i); [simpl; congruence|apply Hg].
    - by rewrite dget_dset_ne by done. }
  unfold turn. destruct (Z.ltb_spec now e).
  - destruct (sim_poll k dl model _ now id [] s Hsim Hn Hd Hfits) as (s' & Ep & Hs').
    unfold mbind, M_bind. rewrite Ep. simpl in Hs' |- *.
    destruct (String.eqb_spec ghost id); [done|]. simpl. apply Hphase; [done|eauto].
  - destruct (sim_remove k dl model _ now id s Hsim Hn Hd Hfits) as (s' & Er & Hs').
    unfold mbind, M_bind. rewrite Er. simpl. apply Hphase; [done|].
    rewrite filter_cons, decide_True in Hs' by done.
    exists (filter (λ x : Z * string, x.2 ≠ id) q). split; [done|].
    pose proof (length_filter (λ x : Z * string, x.2 ≠ id) q). simpl in *. lia.
Qed.

Lemma run_blocked k dl p ghost n others sched x :
  blocked k dl p ghost n others x → fits k n →
  Forall (λ e, e.1.1 ≤ dl ∧ dl ≤ e.1.1 + k.1.2 ∧ e.2 = []) sched →
  blocked k dl p ghost n others (run_turns sched x.1 x.2).
Proof.
  intros Hb Hf Hs. revert x Hb. induction Hs as [|[[now id] health] sched Hx Hs IH]; intros [cs s] Hb; [done|].
  destruct Hx as (H1 & H2 & H3). simpl in H1, H2, H3. subst health. cbn [run_turns fst snd].
  pose proof (turn_blocked k dl p ghost n others now id cs s Hb H1 H2 Hf) as Hb'.
  destruct (client_turn now id [] cs s) as [cs' s']. apply (IH (cs', s') Hb').
Qed.

(** The first request of the queue is let through while a deployment is healthy.  Its
    entry stays in the queue, and once no deployment is healthy it blocks everyone
    else: whatever turns follow while the queue entry lives, no other client is let
    through. *)
Theorem granted_request_blocks_queue (g : DualCache.settings) (interval : option Z) (t0 : Z)
    (arrivals : list (Z * string)) (p : Z) (ghost : string) (rest : list (Z * string)) (end_time : Z)
    (sched : list (Z * string * list pyval)) (h : pyval)
    (Hg : DualCache.s_default_in_memory_ttl g = None)
    (Hsize : ∀ v, (length v ≤ length arrivals)%nat → obj_sizeof (PList v) ≤ 1024 * 1024)
    (Hids : NoDup arrivals.*2) (Hq : serving_order arrivals = (p, ghost) :: rest) (He : t0 < end_time)
    (Hs : Forall (λ x, t0 ≤ x.1.1 ≤ t0 + seconds 600 ∧ x.2 = []) sched) :
  let cs := (run_turns ((t0, ghost, [h]) :: sched) (start_clients end_time arrivals) (queued g interval t0 arrivals)).1 in
  phase_of ghost cs = Some Granted ∧ ∀ id, id ≠ ghost → phase_of id cs ≠ Some Granted.
Proof.
  cbn zeta. cbn [run_turns]. unfold client_turn.
  pose proof (queued_sim g interval t0 arrivals Hg Hsize) as Hsim. rewrite Hq in Hsim.
  pose proof (queued_fits arrivals Hsize) as Hf. rewrite Hq in Hf.
  destruct (start_in_step arrivals Hids end_time) as [Hk Hc]. rewrite Hq in Hc.
  assert (Hin : (p, ghost) ∈ arrivals) by (rewrite <- serving_order_perm, Hq; by left).
  pose proof (Hc _ Hin) as Hg0. simpl in Hg0. rewrite decide_True in Hg0 by (by left). rewrite Hg0.
  unfold turn. destruct (Z.ltb_spec t0 end_time); [|lia].
  destruct (sim_poll _ _ model _ t0 ghost [h] _ Hsim) as (s' & Ep & Hs'); [unfold seconds; lia|rewrite k0_ttl; lia|done|].
  unfold mbind, M_bind. rewrite Ep. simpl in Hs' |- *. set (cs1 := dset ghost (Granted, end_time) _).
  assert (Hb : blocked (InMemoryCache.cfg InMemoryCache.init_default) (t0 + seconds 600) p ghost (S (length rest)) [ghost] (cs1, s')).
  { split_and!; [by exists rest| |].
    - intros id. simpl. unfold phase_of, cs1. rewrite dget_dset. destruct (String.eqb_spec ghost id) as [->|]; [by left|].
      destruct (dget id _) as [[ph e]|] eqn:E; [|done]. simpl. intros [= ->]. exfalso.
      apply dget_Some_in in E. unfold start_clients in E. apply list_elem_of_fmap in E as (y & E & _). congruence.
    - simpl. unfold phase_of, cs1. by rewrite dget_dset_eq. }
  apply (run_blocked _ _ _ _ _ _ sched (cs1, s')) in Hb; [|done|].
  2:{ eapply Forall_impl; [exact Hs|]. intros x [[T1 T2] T3]. rewrite k0_ttl. split_and!; [done|lia|done]. }
  simpl in Hb. split.
  - assert (Hstay : ∀ sched cs s, phase_of ghost cs = Some Granted → phase_of ghost (run_turns sched cs s).1 = Some Granted).
    { clear. induction sched as [|[[now id] health] sched IH]; intros cs s Hgr; [done|]. cbn [run_turns].
      destruct (client_turn now id health cs s) as [cs' s'] eqn:E. apply IH. unfold client_turn in E.
      unfold phase_of in *. destruct (dget id cs) as [[[| | |] e]|] eqn:Eid; simplify_eq; try done.
      destruct (turn now e id health s) as [r s1]. simplify_eq. rewrite dget_dset_ne; [done|].
      intros ->. rewrite Eid in Hgr. done. }
    apply Hstay. unfold phase_of, cs1. by rewrite dget_dset_eq.
  - intros id Hne Hgr. destruct Hb as (_ & Hb & _). apply Hb in Hgr. set_solver.
Qed.

End clients.

(** ** Examples *)

Section examples.
#[local] Existing Instance queue_runtime.
#[local] Existing Instance RedisCache.toy_client.
#[local] Existing Instance RedisCache.RedisCache_instance.

Definition two_arrivals : list (Z * string) := [(2, "low"); (1, "high")].
Definition round_at (now : Z) : list (Z * string * list pyval) := [(now, "low", []); (now + 1, "high", [])].

Lemma sizes_ok v : (length v ≤ 2)%nat → obj_sizeof (PList v) ≤ 1024 * 1024.
Proof. cbn [obj_sizeof queue_runtime]. lia. Qed.

Lemma ids_ok : NoDup two_arrivals.*2.
Proof. apply (bool_decide_unpack _). reflexivity. Qed.

Lemma no_overtaking_witness :
  ∃ n, ∀ i x, serving_order two_arrivals !! i = Some x →
    phase_of x.2 (run_turns (R := RedisCache.t RedisCache.toy) "m" (round_at 5) (start_clients 1000 two_arrivals)
                    (queued "m" DualCache.default_settings None 0 two_arrivals)).1
    = Some (if (i <? n)%nat then Granted else Polling).
Proof.
  apply (no_overtaking "m" DualCache.default_settings None 0 two_arrivals); [done|apply sizes_ok|apply ids_ok|].
  repeat constructor; simpl; unfold seconds; lia.
Defined.

Lemma waiting_requests_are_served_witness :
  phase_of "low" (run_turns (R := RedisCache.t RedisCache.toy) "m" (concat [round_at 5; round_at 9])
                    (start_clients 1000 two_arrivals) (queued "m" DualCache.default_settings None 0 two_arrivals)).1
    = Some Granted.
Proof.
  apply (waiting_requests_are_served "m" DualCache.default_settings None 0 two_arrivals
           ltac:(done) sizes_ok ids_ok 1000 [round_at 5; round_at 9]) with (x := (2, "low")); [| |done|by left].
  - repeat constructor; simpl; unfold seconds; lia.
  - apply Forall_forall. intros r Hr. assert (r = round_at 5 ∨ r = round_at 9) as [-> | ->] by set_solver;
      unfold round_at, two_arrivals; simpl; set_solver.
Defined.

Lemma granted_request_blocks_queue_witness :
  let cs := (run_turns (R := RedisCache.t RedisCache.toy) "m" ((0, "high", [PStr "d"]) :: round_at 5 ++ round_at 9)
               (start_clients 1000 two_arrivals) (queued "m" DualCache.default_settings None 0 two_arrivals)).1 in
  phase_of "high" cs = Some Granted ∧ ∀ id, id ≠ "high" → phase_of id cs ≠ Some Granted.
Proof.
  apply (granted_request_blocks_queue "m" DualCache.default_settings None 0 two_arrivals 1 "high" [(2, "low")] 1000);
    [done|apply sizes_ok|apply ids_ok|reflexivity|lia|].
  repeat constructor; simpl; unfold seconds; lia.
Defined.
End examples.
End Scheduling.
