(* ===== verification/Shuffle.v ===== *)
(** * Shuffle: the weighted random pick

    [router_strategy/simple_shuffle.py], with [Router.print_deployment], which the pick
    evaluates for its log line.  The weights are dynamic values, added and
    divided as Python does, with floats as rationals; [random.choices] is CPython's:
    cumulative weights and a binary search for [random() * total].  What [random()]
    and [random.choice] yield is an argument.  The theorem says which random numbers
    lead to which deployment, so that the share of a deployment is its weight. *)

From stdpp Require Import base sets list strings.
From Stdlib Require Import Ascii ZArith QArith Lia Lqa.
From S2P Require Import Prelude Heapq PyHeapq PyStr InMemoryCache RedisCache DualCache Masker Strategy.

#[local] Open Scope Z_scope.

Module Shuffle.

(** ** [bisect] and [random.choices] *)

(** [a[i]]. *)
Definition at_ (a : list Q) (i : nat) : Q := default 0%Q (a !! i).

(** The loop of [bisect.bisect_right(a, x, lo, hi)]. *)
Fixpoint bisect_loop (fuel : nat) (a : list Q) (x : Q) (lo hi : nat) : nat :=
  match fuel with
  | O => lo
  | S fuel' =>
      if (lo <? hi)%nat then
        let mid := Nat.div2 (lo + hi) in
        if Qle_bool (at_ a mid) x then bisect_loop fuel' a x (S mid) hi
        else bisect_loop fuel' a x lo mid
      else lo
  end.

(** Each iteration shortens the interval, so its length is enough fuel. *)
Definition bisect_right (a : list Q) (x : Q) (lo hi : nat) : nat := bisect_loop (hi - lo) a x lo hi.

(** [list(itertools.accumulate(ws))], from a running total. *)
Fixpoint accumulate (acc : Q) (ws : list Q) : list Q :=
  match ws with [] => [] | w :: ws' => (acc + w)%Q :: accumulate (acc + w) ws' end.

(** [random.choices(range(len(ws)), weights=ws)[0]], where [random()] is [u]. *)
Definition choices (ws : list Q) (u : Q) : res nat :=
  let cum := accumulate 0 ws in
  match last cum with
  | None => Raise IndexError
  | Some total =>
      if Qle_bool total 0 then Raise ValueError
      else Ok (bisect_right cum (u * total) 0 (length ws - 1))
  end.

(** ** [print_deployment] *)

(** [SensitiveDataMasker(visible_prefix=2, visible_suffix=0)]. *)
Definition print_masker : Masker.t := Masker.init None None 2 0 "*".

(** The deployment as it is logged; it is evaluated whether or not it is printed. *)
Definition print_deployment `{PyRuntime} (redact_user_api_key_info : bool) (deployment : pyval) : res pyval :=
  params ← py_index deployment "litellm_params";
  match deployment, params with
  | PDict d, PDict p =>
      if redact_user_api_key_info then
        Ok (PDict (dset "litellm_params"
          (PDict (Masker.mask_dict print_masker Masker.DEFAULT_MAX_RECURSE_DEPTH_SENSITIVE_DATA_MASKER None p 0)) d))
      else
        match dget "api_key" p with
        | None => Ok deployment
        | Some (PStr k) =>
            Ok (PDict (dset "litellm_params" (PDict (dset "api_key" (PStr (str_take 2 k +:+ str_repeat "*" 10)) p)) d))
        | Some _ => Raise TypeError
        end
  | _, _ => Raise TypeError
  end.

(** ** [simple_shuffle] *)

(** [m["litellm_params"].get(key, 0)] *)
Definition weight_in (key : string) (m : pyval) : res pyval :=
  params ← py_index m "litellm_params"; py_get_or params key (PInt 0).

(** [sum(l)], from a start value. *)
Fixpoint py_sum (acc : pyval) (l : list pyval) : res pyval :=
  match l with [] => Ok acc | v :: l' => acc' ← py_add acc v; py_sum acc' l' end.

(** [v / w] of numbers. *)
Definition py_div (v w : pyval) : res Q :=
  match as_num v, as_num w with
  | Some p, Some q => if Qeq_bool q 0 then Raise ZeroDivisionError else Ok (p / q)%Q
  | _, _ => Raise TypeError
  end.

(** A list comprehension. *)
Fixpoint res_map {A B} (f : A → res B) (l : list A) : res (list B) :=
  match l with [] => Ok [] | x :: l' => y ← f x; ys ← res_map f l'; Ok (y :: ys) end.

Section shuffle.
Context `{PyRuntime}.

(** The picked deployment is printed for the log line, which is evaluated at any log
    level; what [print_deployment] raises leaves the pick. *)
Definition weighted_pick (redact : bool) (key : string) (healthy_deployments : list pyval) (u : Q) : res pyval :=
  weights ← res_map (weight_in key) healthy_deployments;
  total_weight ← py_sum (PInt 0) weights;
  ws ← res_map (λ w, py_div w total_weight) weights;
  i ← choices ws u;
  match healthy_deployments !! i with
  | Some deployment => _ ← print_deployment redact deployment; Ok deployment
  | None => Raise IndexError
  end.

(** The loop over ["weight"], ["rpm"], ["tpm"], then the plain pick. *)
Fixpoint shuffle_by (redact : bool) (keys : list string) (healthy_deployments : list pyval) (u : Q) (pick : nat) : res pyval :=
  match keys with
  | [] => random_choice pick healthy_deployments
  | key :: keys' =>
      first ← (match healthy_deployments with d :: _ => Ok d | [] => Raise IndexError end);
      params ← py_get first "litellm_params";
      weight ← py_get params key;
      if is_none weight then shuffle_by redact keys' healthy_deployments u pick
      else weighted_pick redact key healthy_deployments u
  end.

Definition simple_shuffle (redact : bool) (healthy_deployments : list pyval) (u : Q) (pick : nat) : res pyval :=
  shuffle_by redact ["weight"; "rpm"; "tpm"] healthy_deployments u pick.
End shuffle.

(** ** The binary search *)

(** [a] does not decrease. *)
Definition ascending (a : list Q) : Prop := ∀ i j, (i ≤ j)%nat → (j < length a)%nat → (at_ a i <= at_ a j)%Q.

Lemma bisect_loop_spec fuel a x lo hi :
  ascending a → (hi ≤ length a)%nat → (lo ≤ hi)%nat → (hi - lo ≤ fuel)%nat →
  (∀ j, (j < lo)%nat → (at_ a j <= x)%Q) → (∀ j, (hi ≤ j < length a)%nat → ¬ (at_ a j <= x)%Q) →
  let i := bisect_loop fuel a x lo hi in
  (lo ≤ i ≤ hi)%nat ∧ (∀ j, (j < i)%nat → (at_ a j <= x)%Q) ∧ (∀ j, (i ≤ j < length a)%nat → ¬ (at_ a j <= x)%Q).
Proof.
  intros Ha. revert lo hi. induction fuel as [|fuel IH]; intros lo hi Hlen Hle Hf Hlo Hhi; simpl.
  { assert (lo = hi) as -> by lia. done. }
  destruct (Nat.ltb_spec lo hi) as [Hlt|Hge]; [|assert (lo = hi) as -> by lia; done].
  set (mid := Nat.div2 (lo + hi)).
  assert (Hmid : (lo ≤ mid < hi)%nat).
  { unfold mid. rewrite Nat.div2_div. split; [apply Nat.div_le_lower_bound|apply Nat.Div0.div_lt_upper_bound]; lia. }
  destruct (Qle_bool (at_ a mid) x) eqn:E.
  - apply Qle_bool_iff in E. destruct (IH (S mid) hi) as (H1 & H2 & H3); try lia; try done.
    + intros j Hj. eapply Qle_trans; [|exact E]. apply Ha; lia.
    + split; [lia|done].
  - assert (¬ (at_ a mid <= x)%Q) as Hn by (rewrite <- Qle_bool_iff; congruence).
    destruct (IH lo mid) as (H1 & H2 & H3); try lia; try done.
    + intros j Hj Hc. apply Hn. eapply Qle_trans; [|exact Hc]. apply Ha; lia.
    + split; [lia|done].
Qed.

(** ** Cumulative sums *)

Definition qsum (ws : list Q) : Q := fold_right Qplus 0%Q ws.

Lemma length_accumulate acc ws : length (accumulate acc ws) = length ws.
Proof. revert acc. induction ws as [|w ws IH]; intros acc; simpl; [done|]. by rewrite IH. Qed.

Lemma at_accumulate acc ws i :
  (i < length ws)%nat → (at_ (accumulate acc ws) i == acc + qsum (take (S i) ws))%Q.
Proof.
  revert acc i. induction ws as [|w ws IH]; intros acc i Hi; simpl in Hi; [lia|].
  destruct i as [|i]; simpl; unfold at_ in *; simpl.
  - rewrite ?take_0. simpl. ring.
  - rewrite IH by lia. simpl. ring.
Qed.

Lemma last_at (a : list Q) : last a = a !! (length a - 1)%nat.
Proof. rewrite last_lookup. f_equal. lia. Qed.

Lemma qsum_take_S ws i :
  (i < length ws)%nat → (qsum (take (S i) ws) == qsum (take i ws) + at_ ws i)%Q.
Proof.
  revert i. induction ws as [|w ws IH]; intros i Hi; simpl in Hi; [lia|]. destruct i as [|i]; simpl.
  - unfold at_. simpl. rewrite ?take_0. simpl. ring.
  - change (at_ (w :: ws) (S i)) with (at_ ws i). specialize (IH i ltac:(lia)). simpl in IH. rewrite IH. ring.
Qed.

Lemma qsum_nonneg ws : Forall (λ w, 0 <= w)%Q ws → (0 <= qsum ws)%Q.
Proof. induction 1; simpl; lra. Qed.

Lemma qsum_take_mono ws i j :
  Forall (λ w, 0 <= w)%Q ws → (i ≤ j)%nat → (qsum (take i ws) <= qsum (take j ws))%Q.
Proof.
  intros Hw. revert i j. induction Hw as [|w ws Hw Hws IH]; intros i j Hij; [by rewrite !take_nil|].
  destruct i as [|i], j as [|j]; simpl; try lia; try lra.
  - pose proof (qsum_nonneg (take j ws) (Forall_take _ j _ Hws)). lra.
  - specialize (IH i j ltac:(lia)). lra.
Qed.

(** The pick of [random.choices] is the first index whose cumulative weight exceeds
    [u] times the total. *)
Lemma choices_spec ws u :
  Forall (λ w, 0 <= w)%Q ws → (0 < qsum ws)%Q → (0 <= u < 1)%Q →
  ∃ i, choices ws u = Ok i ∧ (i < length ws)%nat ∧
    (qsum (take i ws) <= u * qsum ws)%Q ∧ (u * qsum ws < qsum (take (S i) ws))%Q.
Proof.
  intros Hw Ht [Hu0 Hu1].
  assert (Hne : (0 < length ws)%nat) by (destruct ws; simpl in *; [lra|lia]).
  unfold choices. rewrite last_at, length_accumulate.
  destruct (lookup_lt_is_Some_2 (accumulate 0 ws) (length ws - 1)) as [total Hl]; [rewrite length_accumulate; lia|].
  rewrite Hl.
  assert (Htot : (total == qsum ws)%Q).
  { pose proof (at_accumulate 0 ws (length ws - 1) ltac:(lia)) as Ha. unfold at_ in Ha. rewrite Hl in Ha. simpl default in Ha.
    rewrite Ha. rewrite take_ge by lia. ring. }
  destruct (Qle_bool total 0) eqn:E; [apply Qle_bool_iff in E; lra|].
  set (a := accumulate 0 ws). set (x := (u * total)%Q). set (n := (length ws - 1)%nat).
  assert (Hasc : ascending a).
  { intros i j Hij Hj. unfold a in *. rewrite length_accumulate in Hj. rewrite !at_accumulate by lia.
    pose proof (qsum_take_mono ws (S i) (S j) Hw ltac:(lia)). lra. }
  assert (Hx : (x == u * qsum ws)%Q) by (unfold x; rewrite Htot; reflexivity).
  assert (Hlast : ∀ j, (n ≤ j < length a)%nat → ¬ (at_ a j <= x)%Q).
  { intros j Hj Hc. unfold a in Hj. rewrite length_accumulate in Hj. assert (j = n) as -> by lia.
    unfold a in Hc. rewrite at_accumulate, take_ge in Hc by lia. rewrite Hx in Hc. nra. }
  destruct (bisect_loop_spec (n - 0) a x 0 n Hasc) as (H1 & H2 & H3);
    [unfold a; rewrite length_accumulate; lia|lia|lia|lia|done|].
  exists (bisect_right a x 0 n). split; [done|]. unfold bisect_right. set (i := bisect_loop _ _ _ _ _) in *.
  split; [lia|]. split.
  - destruct i as [|i]; [rewrite ?take_0; simpl; nra|].
    specialize (H2 i ltac:(lia)). unfold a in H2. rewrite at_accumulate in H2 by lia. rewrite <- Hx. lra.
  - specialize (H3 i). unfold a in H3. rewrite length_accumulate, at_accumulate in H3 by lia.
    rewrite <- Hx. apply Qnot_le_lt. intros Hc. apply H3; [lia|]. lra.
Qed.

(** ** The deployments *)

Section picks.
Context `{PyRuntime} (redact : bool).

(** The deployment can be printed: its parameters are a dictionary, and its key, if it is
    not masked with the rest, is a string. *)
Definition printable_key (d : pyval) : Prop :=
  ∃ fs p, d = PDict fs ∧ dget "litellm_params" fs = Some (PDict p) ∧
    (redact = true ∨ ∀ v, dget "api_key" p = Some v → ∃ s, v = PStr s).

Lemma print_deployment_ok d : printable_key d → ∃ v, print_deployment redact d = Ok v.
Proof.
  intros (fs & p & -> & Hp & Hk). unfold print_deployment. cbn [py_index]. rewrite Hp. cbn [mbind res_bind].
  destruct redact; [eauto|]. destruct Hk as [|Hk]; [done|].
  destruct (dget "api_key" p) as [v|] eqn:Hv; [|eauto]. destruct (Hk v eq_refl) as [s ->]. eauto.
Qed.

(** The deployments have these integer weights under [key]. *)
Definition have_weights (key : string) (deps : list pyval) (ws : list Z) : Prop :=
  Forall2 (λ d w, weight_in key d = Ok (PInt w)) deps ws.

Definition zsum (ws : list Z) : Z := fold_right Z.add 0 ws.

Lemma res_map_weights key deps ws :
  have_weights key deps ws → res_map (weight_in key) deps = Ok (PInt <$> ws).
Proof. induction 1 as [|d w deps ws Hd _ IH]; cbn; [done|]. by rewrite Hd, IH. Qed.

Lemma py_sum_ints acc ws : py_sum (PInt acc) (PInt <$> ws) = Ok (PInt (acc + zsum ws)).
Proof.
  revert acc. induction ws as [|w ws IH]; intros acc.
  - cbn. by rewrite Z.add_0_r.
  - change (py_sum (PInt (acc + w)) (PInt <$> ws) = Ok (PInt (acc + (w + zsum ws)))). rewrite IH. do 2 f_equal. lia.
Qed.

Lemma Qeq_bool_inject t : t ≠ 0 → Qeq_bool (inject_Z t) 0 = false.
Proof. intros Ht. apply not_true_iff_false. rewrite Qeq_bool_iff. unfold Qeq. simpl. lia. Qed.

Lemma res_map_div ws t :
  t ≠ 0 → res_map (λ w, py_div w (PInt t)) (PInt <$> ws) = Ok ((λ w, inject_Z w / inject_Z t)%Q <$> ws).
Proof.
  intros Ht. induction ws as [|w ws IH]; [done|].
  change (PInt <$> w :: ws) with (PInt w :: (PInt <$> ws)). cbn [res_map]. rewrite IH.
  unfold py_div. cbn [as_num]. by rewrite Qeq_bool_inject.
Qed.

Lemma qsum_div ws t : ¬ (inject_Z t == 0)%Q →
  (qsum ((λ w, inject_Z w / inject_Z t)%Q <$> ws) == inject_Z (zsum ws) / inject_Z t)%Q.
Proof.
  intros Ht. induction ws as [|w ws IH]; simpl; [unfold Qdiv; ring|].
  rewrite IH, inject_Z_plus. field. done.
Qed.

Lemma weighted_pick_spec key deps ws u :
  have_weights key deps ws → Forall (λ w, 0 ≤ w) ws → 0 < zsum ws → (0 <= u < 1)%Q →
  ∃ i d w, weighted_pick redact key deps u = (_ ← print_deployment redact d; Ok d) ∧ deps !! i = Some d ∧ ws !! i = Some w ∧
    (inject_Z (zsum (take i ws)) <= u * inject_Z (zsum ws) < inject_Z (zsum (take i ws) + w))%Q.
Proof.
  intros Hd Hw Ht Hu. unfold weighted_pick. rewrite (res_map_weights _ _ _ Hd). cbn [mbind res_bind].
  rewrite py_sum_ints, Z.add_0_l. cbn [mbind res_bind]. rewrite res_map_div by lia. cbn [mbind res_bind].
  set (T := inject_Z (zsum ws)).
  assert (HT : (0 < T)%Q) by (unfold T, Qlt; simpl; lia).
  assert (HT0 : ¬ (T == 0)%Q) by lra.
  set (qs := (λ w, inject_Z w / T)%Q <$> ws).
  assert (Hsum : ∀ l, (qsum ((λ w, inject_Z w / T)%Q <$> l) == inject_Z (zsum l) / T)%Q) by (intros l; by apply qsum_div).
  assert (Hone : (qsum qs == 1)%Q) by (unfold qs; rewrite Hsum; unfold T; field; exact HT0).
  destruct (choices_spec qs u) as (i & -> & Hi & H1 & H2); [|rewrite Hone; reflexivity|done|].
  { unfold qs. apply Forall_fmap. eapply Forall_impl; [exact Hw|]. intros w Hw0. simpl in *.
    apply Qle_shift_div_l; [done|]. rewrite Qmult_0_l. unfold Qle, inject_Z. cbn [Qnum Qden]. lia. }
  unfold qs in Hi. rewrite length_fmap in Hi. cbn [mbind res_bind].
  destruct (lookup_lt_is_Some_2 ws i Hi) as [w Hwi]. destruct (lookup_lt_is_Some_2 deps i) as [d Hdi].
  { by rewrite (Forall2_length _ _ _ Hd). }
  assert (Hdiv : ∀ z, (inject_Z z / T * T == inject_Z z)%Q) by (intros z; field; done).
  exists i, d, w. rewrite Hdi. split_and!; try done.
  - rewrite Hone in H1. unfold qs in H1. rewrite <- fmap_take, Hsum in H1.
    apply (Qmult_le_r _ _ T) in H1; [|done]. rewrite Hdiv, Qmult_1_r in H1. done.
  - rewrite Hone in H2. unfold qs in H2. rewrite <- fmap_take, Hsum in H2.
    apply (Qmult_lt_r _ _ T) in H2; [|done]. rewrite Hdiv, Qmult_1_r in H2.
    replace (zsum (take i ws) + w) with (zsum (take (S i) ws)); [done|].
    clear -Hwi. revert i Hwi. induction ws as [|v ws IH]; intros [|i] Hwi; simpl in *; simplify_eq.
    + rewrite ?take_0. simpl. lia.
    + rewrite (IH i Hwi). lia.
Qed.

(** The key the loop stops at: the first one that the first deployment has. *)
Definition used_key (keys : list string) (deps : list pyval) : option string :=
  match deps with
  | d :: _ =>
      match py_get d "litellm_params" with
      | Ok params => find (λ k, match py_get params k with Ok v => negb (is_none v) | Raise _ => false end) keys
      | Raise _ => None
      end
  | [] => None
  end.

Lemma shuffle_by_used keys deps key u pick :
  used_key keys deps = Some key → shuffle_by redact keys deps u pick = weighted_pick redact key deps u.
Proof.
  unfold used_key. destruct deps as [|d deps]; [done|].
  destruct (py_get d "litellm_params") as [params|] eqn:Ep; [|done].
  induction keys as [|k keys IH]; [done|]. cbn [find shuffle_by mbind res_bind]. rewrite Ep. cbn [mbind res_bind].
  destruct (py_get params k) as [v|] eqn:E; cbn [mbind res_bind].
  - destruct (is_none v); simpl; [apply IH|]. by intros [= ->].
  - clear IH. intros Hk. exfalso. assert (Hn : ∀ k', py_get params k' = Raise AttributeError) by (by destruct params).
    clear E. induction keys as [|k' keys IH]; [done|]. simpl in Hk. rewrite Hn in Hk. by apply IH.
Qed.

Lemma shuffle_by_unused keys d deps p u pick :
  py_get d "litellm_params" = Ok (PDict p) → used_key keys (d :: deps) = None →
  shuffle_by redact keys (d :: deps) u pick = random_choice pick (d :: deps).
Proof.
  intros Hp. induction keys as [|k keys IH]; intros Hk; [done|]. cbn [shuffle_by]. cbn [mbind res_bind].
  rewrite Hp. cbn. simpl in Hk. rewrite Hp in Hk. simpl in Hk.
  destruct (is_none (default PNone (dget k p))); simpl in Hk; [|done]. apply IH. simpl. by rewrite Hp.
Qed.

(** C38: The pick is proportional to the weights, when the first deployment carries one
    ([weight], else [rpm], else [tpm]): where the setting is an integer that is not
    negative (0 when it is absent) for every deployment, not 0 for all, and no API key
    is anything but a string, the random number [u] selects the deployment whose slice of
    the total contains [u * total]; slices lie side by side and are as long as the weights,
    so a deployment of weight 0 is not picked then.  Quotients are exact rationals. *)
Theorem shuffle_proportional (deps : list pyval) (key : string) (ws : list Z) (u : Q) (pick : nat)
    (Hk : used_key ["weight"; "rpm"; "tpm"] deps = Some key) (Hd : have_weights key deps ws)
    (Hw : Forall (λ w, 0 ≤ w) ws) (Ht : 0 < zsum ws) (Hu : (0 <= u < 1)%Q)
    (Hp : Forall printable_key deps) :
  ∃ i d w, simple_shuffle redact deps u pick = Ok d ∧ deps !! i = Some d ∧ ws !! i = Some w ∧ 0 < w ∧
    (inject_Z (zsum (take i ws)) <= u * inject_Z (zsum ws) < inject_Z (zsum (take i ws) + w))%Q.
Proof.
  unfold simple_shuffle. rewrite (shuffle_by_used _ _ _ _ _ Hk).
  destruct (weighted_pick_spec key deps ws u Hd Hw Ht Hu) as (i & d & w & H1 & H2 & H3 & H4 & H5).
  destruct (print_deployment_ok d) as [v Ev]; [by eapply Forall_lookup_1|]. rewrite Ev in H1.
  exists i, d, w. split_and!; try done.
  assert ((inject_Z (zsum (take i ws)) < inject_Z (zsum (take i ws) + w))%Q) as Hlt by (eapply Qle_lt_trans; eauto).
  unfold Qlt in Hlt. simpl in Hlt. lia.
Qed.

(** When the first deployment has none of the three settings the pick is uniform,
    whatever weights the other deployments have. *)
Theorem first_without_weight_uniform (d : pyval) (deps : list pyval) (p : list (string * pyval)) (u : Q) (pick : nat)
    (Hp : py_get d "litellm_params" = Ok (PDict p)) (Hk : used_key ["weight"; "rpm"; "tpm"] (d :: deps) = None) :
  simple_shuffle redact (d :: deps) u pick = random_choice pick (d :: deps) ∧
  ∃ x, simple_shuffle redact (d :: deps) u pick = Ok x ∧ x ∈ d :: deps.
Proof.
  unfold simple_shuffle. rewrite (shuffle_by_unused _ d deps p) by done. split; [done|].
  by apply random_choice_in.
Qed.

(** A deployment that is drawn and whose key is no string is not returned: printing it
    for the log raises. *)
Theorem unprintable_key_raises (fs p : list (string * pyval)) (key : string) (w : Z) (k : pyval) (u : Q) (pick : nat)
    (Hf : dget "litellm_params" fs = Some (PDict p)) (Hk : used_key ["weight"; "rpm"; "tpm"] [PDict fs] = Some key)
    (Hd : have_weights key [PDict fs] [w]) (Hw : 0 < w) (Hu : (0 <= u < 1)%Q)
    (Hr : redact = false) (Ha : dget "api_key" p = Some k) (Hs : ∀ s, k ≠ PStr s) :
  simple_shuffle redact [PDict fs] u pick = Raise TypeError.
Proof.
  unfold simple_shuffle. rewrite (shuffle_by_used _ _ _ _ _ Hk).
  destruct (weighted_pick_spec key [PDict fs] [w] u Hd) as (i & d & w' & -> & Hi & _); [by repeat constructor; lia|simpl; lia|done|].
  destruct i as [|i]; [|done]. injection Hi as <-. unfold print_deployment. cbn [py_index]. rewrite Hf. cbn [mbind res_bind].
  rewrite Hr, Ha. destruct k; try done. by destruct (Hs s).
Qed.

(** Weights that are all zero make the pick fail. *)
Theorem zero_weights_raise (deps : list pyval) (key : string) (ws : list Z) (u : Q) (pick : nat)
    (Hk : used_key ["weight"; "rpm"; "tpm"] deps = Some key) (Hd : have_weights key deps ws) (Hz : Forall (λ w, w = 0) ws) :
  simple_shuffle redact deps u pick = Raise ZeroDivisionError.
Proof.
  unfold simple_shuffle. rewrite (shuffle_by_used _ _ _ _ _ Hk). unfold weighted_pick.
  rewrite (res_map_weights _ _ _ Hd). cbn [mbind res_bind]. rewrite py_sum_ints. cbn [mbind res_bind].
  assert (zsum ws = 0) as -> by (clear Hd; induction Hz; simpl; lia).
  destruct ws as [|w ws]; [|done]. inversion Hd; subst. done.
Qed.

End picks.

Definition dep (settings : list (string * pyval)) : pyval := PDict [("litellm_params", PDict settings)].

Definition sample_weights : list Z := [3; 0; 1].

Lemma shuffle_proportional_witness :
  let deps := [dep [("rpm", PInt 3)]; dep [("tpm", PInt 9)]; dep [("rpm", PInt 1)]] in
  ∃ i d w, simple_shuffle (H := toy_runtime) false deps (4 # 5) 0 = Ok d ∧ deps !! i = Some d ∧ sample_weights !! i = Some w ∧ 0 < w ∧
    (inject_Z (zsum (take i sample_weights)) <= (4 # 5) * inject_Z (zsum sample_weights) < inject_Z (zsum (take i sample_weights) + w))%Q.
Proof.
  apply (shuffle_proportional (H := toy_runtime) false [dep [("rpm", PInt 3)]; dep [("tpm", PInt 9)]; dep [("rpm", PInt 1)]] "rpm" sample_weights (4 # 5) 0).
  - reflexivity.
  - repeat constructor.
  - repeat constructor; lia.
  - simpl. lia.
  - split; [discriminate|reflexivity].
  - repeat (apply Forall_nil_2 || (apply Forall_cons_2; [eexists _, _; split; [reflexivity|split; [reflexivity|]];
      right; intros v Hv; discriminate Hv|])).
Defined.

Lemma first_without_weight_uniform_witness :
  simple_shuffle (H := toy_runtime) false [dep []; dep [("weight", PInt 5)]] 0 0 = random_choice 0 [dep []; dep [("weight", PInt 5)]] ∧
  ∃ x, simple_shuffle (H := toy_runtime) false [dep []; dep [("weight", PInt 5)]] 0 0 = Ok x ∧ x ∈ [dep []; dep [("weight", PInt 5)]].
Proof. apply (first_without_weight_uniform (H := toy_runtime) false (dep []) [dep [("weight", PInt 5)]] [] 0 0); reflexivity. Defined.

Lemma zero_weights_raise_witness : simple_shuffle (H := toy_runtime) false [dep [("rpm", PInt 0)]] (1 # 2) 0 = Raise ZeroDivisionError.
Proof.
  apply (zero_weights_raise (H := toy_runtime) false [dep [("rpm", PInt 0)]] "rpm" [0] (1 # 2) 0); [reflexivity|repeat constructor..].
Defined.
End Shuffle.
