(* ===== verification/TagRouting.v ===== *)
(** * TagRouting: which deployments a tagged request may use

    [router_strategy/tag_based_routing.py].  Deployments and request arguments are
    dynamic values; the router's two settings are arguments.  The theorems give the
    exact result for deployments that are typed as the code expects, and the cases in
    which the function raises although the request is harmless. *)

From stdpp Require Import base sets list strings.
From Stdlib Require Import ZArith Lia.
From S2P Require Import Prelude PyStr.

#[local] Open Scope Z_scope.

Module TagRouting.

(** [set(v)]: the members, which have to be hashable. *)
Definition set_of (v : pyval) : res (list pyval) :=
  match v with
  | PList l | PTuple l | PSet l => if forallb hashable l then Ok l else Raise TypeError
  | PStr s => Ok ((λ a, PStr (String a "")) <$> String.list_ascii_of_string s)
  | PDict d => Ok (PStr <$> dkeys d)
  | _ => Raise TypeError
  end.

Definition mem (v : pyval) (l : list pyval) : bool := existsb (py_eqb v) l.

Definition is_valid_deployment_tag (deployment_tags request_tags : pyval) (match_any : bool) : res bool :=
  if negb (truthy request_tags) then Ok false
  else
    dep_set ← set_of deployment_tags;
    req_set ← set_of request_tags;
    Ok (if match_any then existsb (λ t, mem t req_set) dep_set
        else forallb (λ t, mem t dep_set) req_set).

(** ["default" in v]. *)
Definition has_default (v : pyval) : res bool :=
  match v with
  | PList l | PTuple l | PSet l => Ok (mem (PStr "default") l)
  | PDict d => Ok (dmem "default" d)
  | PStr s => Ok (str_contains "default" s)
  | _ => Raise TypeError
  end.

(** The loop for a tagged request: matching deployments and default ones. *)
Fixpoint tagged_loop (deps : list pyval) (request_tags : pyval) (match_any : bool) (new defaults : list pyval)
  : res (list pyval * list pyval) :=
  match deps with
  | [] => Ok (new, defaults)
  | deployment :: deps' =>
      params ← py_get deployment "litellm_params";
      deployment_tags ← py_get params "tags";
      if is_none deployment_tags then tagged_loop deps' request_tags match_any new defaults
      else
        ok ← is_valid_deployment_tag deployment_tags request_tags match_any;
        let new := if ok : bool then new ++ [deployment] else new in
        def ← has_default deployment_tags;
        tagged_loop deps' request_tags match_any new (if def : bool then defaults ++ [deployment] else defaults)
  end.

(** The loop for a request without tags. *)
Fixpoint default_loop (deps : list pyval) (acc : list pyval) : res (list pyval) :=
  match deps with
  | [] => Ok acc
  | deployment :: deps' =>
      params ← py_get_or deployment "litellm_params" (PDict []);
      tags ← py_get_or params "tags" (PList []);
      def ← has_default tags;
      default_loop deps' (if def : bool then acc ++ [deployment] else acc)
  end.

Definition untagged (healthy_deployments : list pyval) : res (list pyval) :=
  defaults ← default_loop healthy_deployments [];
  Ok (match defaults with [] => healthy_deployments | _ => defaults end).

Definition no_deployments_with_tag_routing : exn :=
  GenericError "Not allowed to access model due to tags configuration".

(** [request_kwargs] is [None] when there are none. *)
Definition get_deployments_for_tag (enable_tag_filtering : pyval) (tag_filtering_match_any : bool)
    (healthy_deployments : option (list pyval)) (request_kwargs : option (list (string * pyval)))
    (metadata_variable_name : string) : res (option (list pyval)) :=
  match enable_tag_filtering, request_kwargs, healthy_deployments with
  | PBool true, Some kw, Some deps =>
      match dget metadata_variable_name kw with
      | Some metadata =>
          request_tags ← py_get metadata "tags";
          if truthy request_tags then
            '(new, defaults) ← tagged_loop deps request_tags tag_filtering_match_any [] [];
            match new, defaults with
            | [], [] => Raise no_deployments_with_tag_routing
            | [], _ => Ok (Some defaults)
            | _, _ => Ok (Some new)
            end
          else l ← untagged deps; Ok (Some l)
      | None => l ← untagged deps; Ok (Some l)
      end
  | _, _, _ => Ok healthy_deployments
  end.

(** [tags if tags is not None else []]. *)
Definition tags_or_empty (tags : pyval) : pyval := if is_none tags then PList [] else tags.

Definition _get_tags_from_request_kwargs (request_kwargs : option (list (string * pyval)))
    (metadata_variable_name : string) : res pyval :=
  match request_kwargs with
  | None => Ok (PList [])
  | Some kw =>
      match dget metadata_variable_name kw with
      | Some metadata =>
          tags ← py_get_or (py_or metadata (PDict [])) "tags" (PList []); Ok (tags_or_empty tags)
      | None =>
          match dget "litellm_params" kw with
          | Some params =>
              metadata ← py_get_or (py_or params (PDict [])) metadata_variable_name (PDict []);
              tags ← py_get_or (py_or metadata (PDict [])) "tags" (PList []);
              Ok (tags_or_empty tags)
          | None => Ok (PList [])
          end
      end
  end.

(** ** Typed deployments *)

Definition strs (l : list string) : pyval := PList (PStr <$> l).

(** The tags of a deployment: absent, or a list of strings. *)
Definition dep_tags (d : pyval) : option (list string) :=
  match d with
  | PDict m =>
      match dget "litellm_params" m with
      | Some (PDict p) =>
          match dget "tags" p with
          | Some (PList l) => Some (omap (λ v, match v with PStr s => Some s | _ => None end) l)
          | _ => None
          end
      | _ => None
      end
  | _ => None
  end.

(** A deployment as its type says: parameters, and tags that are missing or a list of
    strings. *)
Definition typed_dep (d : pyval) : Prop :=
  ∃ m p, d = PDict m ∧ dget "litellm_params" m = Some (PDict p) ∧
    (dget "tags" p = None ∨ ∃ l, dget "tags" p = Some (strs l)).

(** A deployment matches the request. *)
Definition matches (match_any : bool) (req : list string) (d : pyval) : bool :=
  match dep_tags d with
  | Some tags =>
      if match_any then existsb (λ t, existsb (String.eqb t) req) tags
      else forallb (λ t, existsb (String.eqb t) tags) req
  | None => false
  end.
Definition is_default (d : pyval) : bool :=
  match dep_tags d with Some tags => existsb (String.eqb "default") tags | None => false end.

Lemma omap_strs (l : list string) : omap (λ v, match v with PStr s => Some s | _ => None end) (PStr <$> l) = l.
Proof. induction l as [|s l IH]; [done|]. cbn. by f_equal. Qed.

Lemma mem_strs s (l : list string) : mem (PStr s) (PStr <$> l) = existsb (String.eqb s) l.
Proof. unfold mem. induction l as [|x l IH]; [done|]. cbn [fmap list_fmap existsb]. by rewrite IH. Qed.

Lemma forallb_hashable_strs (l : list string) : forallb hashable (PStr <$> l) = true.
Proof. by induction l. Qed.

Lemma existsb_mem_strs (req l : list string) :
  existsb (λ t, mem t (PStr <$> req)) (PStr <$> l) = existsb (λ t, existsb (String.eqb t) req) l.
Proof. induction l as [|s l IH]; [done|]. cbn [fmap list_fmap existsb]. by rewrite mem_strs, IH. Qed.

Lemma forallb_mem_strs (l req : list string) :
  forallb (λ t, mem t (PStr <$> l)) (PStr <$> req) = forallb (λ t, existsb (String.eqb t) l) req.
Proof. induction req as [|s req IH]; [done|]. cbn [fmap list_fmap forallb]. by rewrite mem_strs, IH. Qed.

(** [filter] with a boolean predicate. *)
#[local] Abbreviation bfilter P := (filter (λ d : pyval, P d = true)).

Lemma bfilter_cons (P : pyval → bool) d l : bfilter P (d :: l) = if P d then d :: bfilter P l else bfilter P l.
Proof. rewrite filter_cons. destruct (P d) eqn:E; [by rewrite decide_True|by rewrite decide_False]. Qed.

Lemma tagged_loop_typed deps req match_any new defaults :
  req ≠ [] → Forall typed_dep deps →
  tagged_loop deps (strs req) match_any new defaults
  = Ok (new ++ bfilter (matches match_any req) deps, defaults ++ bfilter is_default deps).
Proof.
  intros Hreq Hd. revert new defaults. induction Hd as [|d deps Hd Hds IH]; intros new defaults.
  { by rewrite !filter_nil, !app_nil_r. }
  destruct Hd as (m & p & -> & Hp & Ht). cbn [tagged_loop py_get]. rewrite Hp.
  cbn [from_option mbind res_bind id py_get].
  rewrite !bfilter_cons.
  assert (Htags : dep_tags (PDict m) = match dget "tags" p with
      | Some (PList l) => Some (omap (λ v, match v with PStr s => Some s | _ => None end) l) | _ => None end)
    by (unfold dep_tags; by rewrite Hp).
  unfold matches at 1, is_default at 1. rewrite Htags. unfold py_get.
  destruct Ht as [E | [l E]]; rewrite !E; [cbn; apply IH|].
  cbn [from_option is_none strs]. rewrite omap_strs.
  assert (Htr : truthy (strs req) = true) by by destruct req.
  unfold is_valid_deployment_tag. rewrite Htr. unfold strs, id. cbn [negb is_none set_of has_default].
  rewrite !forallb_hashable_strs. cbn [mbind res_bind]. rewrite existsb_mem_strs, forallb_mem_strs, mem_strs.
  change (PList (PStr <$> req)) with (strs req). rewrite IH.
  repeat case_match; by rewrite <- ?app_assoc.
Qed.

Lemma default_loop_typed deps acc :
  Forall typed_dep deps → default_loop deps acc = Ok (acc ++ bfilter is_default deps).
Proof.
  intros Hd. revert acc. induction Hd as [|d deps Hd Hds IH]; intros acc; [by rewrite filter_nil, app_nil_r|].
  destruct Hd as (m & p & -> & Hp & Ht). cbn [default_loop py_get_or]. rewrite Hp.
  cbn [from_option mbind res_bind id py_get_or].
  rewrite bfilter_cons. unfold is_default at 1, dep_tags. rewrite Hp. unfold id.
  destruct Ht as [E | [l E]]; cbn [mbind res_bind py_get_or]; rewrite !E; [cbn; apply IH|].
  unfold strs. cbn [from_option has_default mbind res_bind]. rewrite omap_strs, mem_strs, IH.
  case_match; by rewrite <- ?app_assoc.
Qed.

(** ** The result is part of what was given *)

Lemma tagged_loop_sub deps tags match_any new defaults new' defaults' :
  tagged_loop deps tags match_any new defaults = Ok (new', defaults') →
  ∀ d, d ∈ new' ∨ d ∈ defaults' → d ∈ new ∨ d ∈ defaults ∨ d ∈ deps.
Proof.
  revert new defaults. induction deps as [|d0 deps IH]; intros new defaults; cbn [tagged_loop].
  { intros [= <- <-] d. tauto. }
  destruct (py_get d0 "litellm_params") as [params|]; [|done]. cbn [mbind res_bind].
  destruct (py_get params "tags") as [dt|]; [|done]. cbn [mbind res_bind].
  destruct (is_none dt); [intros Hl d Hd; specialize (IH _ _ Hl d Hd); set_solver|].
  destruct (is_valid_deployment_tag _ _ _) as [ok|]; [|done]. cbn [mbind res_bind].
  destruct (has_default dt) as [def|]; [|done]. cbn [mbind res_bind].
  intros Hl d Hd. specialize (IH _ _ Hl d Hd). destruct ok, def; set_solver.
Qed.

Lemma default_loop_sub deps acc l : default_loop deps acc = Ok l → ∀ d, d ∈ l → d ∈ acc ∨ d ∈ deps.
Proof.
  revert acc. induction deps as [|d0 deps IH]; intros acc; cbn [default_loop]; [intros [= <-]; auto|].
  destruct (py_get_or d0 _ _) as [params|]; [|done]. cbn [mbind res_bind].
  destruct (py_get_or params _ _) as [tags|]; [|done]. cbn [mbind res_bind].
  destruct (has_default tags) as [def|]; [|done]. cbn [mbind res_bind].
  intros Hl d Hd. specialize (IH _ Hl d Hd). destruct def; set_solver.
Qed.

Lemma untagged_sub deps l : untagged deps = Ok l → ∀ d, d ∈ l → d ∈ deps.
Proof.
  unfold untagged. destruct (default_loop deps []) as [ds|] eqn:El; [|done]. cbn [mbind res_bind].
  intros [= <-]. destruct ds; [done|]. intros d Hd. destruct (default_loop_sub _ _ _ El d Hd); set_solver.
Qed.

Lemma deployments_for_tag_sub enable match_any deps kw var o :
  get_deployments_for_tag enable match_any (Some deps) kw var = Ok o → ∀ d, d ∈ default [] o → d ∈ deps.
Proof.
  unfold get_deployments_for_tag.
  assert (∀ l, (l ← untagged deps; Ok (Some l)) = Ok l → ∀ d, d ∈ default [] l → d ∈ deps) as Hu.
  { intros l. destruct (untagged deps) as [l'|] eqn:El; [|done]. intros [= <-]. by apply untagged_sub. }
  destruct enable as [|[]| | | | | | | |], kw as [kw|]; try (by intros [= <-]).
  destruct (dget var kw) as [metadata|]; [|apply Hu].
  destruct (py_get metadata "tags") as [tags|]; [|done]. cbn [mbind res_bind].
  destruct (truthy tags); [|apply Hu].
  destruct (tagged_loop _ _ _ _ _) as [[new defaults]|] eqn:El; [|done]. cbn [mbind res_bind].
  pose proof (tagged_loop_sub _ _ _ _ _ _ _ El) as Hs.
  destruct new as [|x new]; [destruct defaults as [|y defaults]; [done|]|]; intros [= <-] d Hd; cbn in Hd;
    destruct (Hs d) as [|[|]]; set_solver.
Qed.

(** ** The routing rule *)

(** A request with tags gets exactly the deployments whose tags match: share one with
    the request, or in the strict mode contain them all; if there are none, the
    deployments tagged [default]; if there are none of those either, an error.  A
    deployment without tags is never used for it. *)
Theorem tagged_request (deps : list pyval) (kw meta : list (string * pyval)) (req : list string)
    (match_any : bool) (var : string)
    (Hm : dget var kw = Some (PDict meta)) (Ht : dget "tags" meta = Some (strs req)) (Hr : req ≠ [])
    (Hd : Forall typed_dep deps) :
  get_deployments_for_tag (PBool true) match_any (Some deps) (Some kw) var =
    match bfilter (matches match_any req) deps, bfilter is_default deps with
    | [], [] => Raise no_deployments_with_tag_routing
    | [], defaults => Ok (Some defaults)
    | new, _ => Ok (Some new)
    end.
Proof.
  unfold get_deployments_for_tag. rewrite Hm. cbn [mbind res_bind py_get]. rewrite Ht. cbn [from_option mbind res_bind]. unfold id.
  replace (truthy (strs req)) with true by by destruct req.
  rewrite tagged_loop_typed by done. cbn [mbind res_bind app]. by repeat case_match.
Qed.

(** A request without tags gets the deployments tagged [default], or all of them when
    there is none. *)
Theorem untagged_request (deps : list pyval) (kw : list (string * pyval)) (match_any : bool) (var : string)
    (Hm : dget var kw = None ∨ ∃ meta, dget var kw = Some (PDict meta) ∧ truthy (default PNone (dget "tags" meta)) = false)
    (Hd : Forall typed_dep deps) :
  get_deployments_for_tag (PBool true) match_any (Some deps) (Some kw) var =
    Ok (Some (match bfilter is_default deps with [] => deps | defaults => defaults end)).
Proof.
  unfold get_deployments_for_tag, untagged. destruct Hm as [-> | (meta & -> & Ht)].
  - rewrite default_loop_typed by done. cbn [mbind res_bind app]. by destruct (bfilter is_default deps).
  - cbn [mbind res_bind py_get]. rewrite Ht, default_loop_typed by done.
    cbn [mbind res_bind app]. by destruct (bfilter is_default deps).
Qed.

(** Two requests that should route like untagged ones fail: one whose metadata is
    [None], and any untagged one as soon as a deployment has [tags] set to [None]. *)
Theorem none_metadata_raises (deps : list pyval) (match_any : bool) :
  get_deployments_for_tag (PBool true) match_any (Some deps) (Some [("metadata", PNone)]) "metadata"
    = Raise AttributeError ∧
  _get_tags_from_request_kwargs (Some [("metadata", PNone)]) "metadata" = Ok (PList []) ∧
  get_deployments_for_tag (PBool true) match_any
    (Some (PDict [("litellm_params", PDict [("tags", PNone)])] :: deps)) (Some []) "metadata" = Raise TypeError.
Proof. done. Qed.

Definition dep (tags : list string) : pyval := PDict [("litellm_params", PDict [("tags", strs tags)])].
Definition bare : pyval := PDict [("litellm_params", PDict [])].

Lemma dep_typed tags : typed_dep (dep tags).
Proof. eexists _, _. split_and!; try done. right. by eexists. Qed.
Lemma bare_typed : typed_dep bare.
Proof. eexists _, _. split_and!; try done. by left. Qed.

Lemma tagged_request_witness :
  get_deployments_for_tag (PBool true) true (Some [dep ["free"]; bare; dep ["paid"; "default"]])
    (Some [("metadata", PDict [("tags", strs ["free"; "x"])])]) "metadata" = Ok (Some [dep ["free"]]).
Proof.
  apply (tagged_request [dep ["free"]; bare; dep ["paid"; "default"]] _ [("tags", strs ["free"; "x"])] ["free"; "x"] true "metadata");
    try done.
  repeat constructor; first [apply dep_typed | apply bare_typed].
Defined.

Lemma untagged_request_witness :
  get_deployments_for_tag (PBool true) true (Some [dep ["free"]; bare; dep ["paid"; "default"]]) (Some []) "metadata"
  = Ok (Some [dep ["paid"; "default"]]).
Proof.
  apply (untagged_request [dep ["free"]; bare; dep ["paid"; "default"]] [] true "metadata"); [by left|].
  repeat constructor; first [apply dep_typed | apply bare_typed].
Defined.
End TagRouting.
