(* ===== verification/PreCall.v ===== *)
(** * PreCall: the checks of [Router._pre_call_checks]

    Before a deployment is picked, [router.py] removes those whose context window is
    too small, that reached their requests per minute, that lie in another region or
    do not know a parameter of the request ([_pre_call_checks], with
    [get_router_model_info], and of [utils.py] [is_region_allowed],
    [get_non_default_params] and [_get_order_filtered_deployments]).  The usage dict
    read from the cache is the cached object, and the loop writes to it.

    The file also defines the exceptions of the deployment choice and the monad [RM]
    of methods that raise them.  What the checks ask of the rest of the program (token
    counter, model map, parameter validation, provider lookup, supported parameters)
    is the record [env]. *)

From stdpp Require Import base gmap sets list strings.
From Stdlib Require Import ZArith QArith Lia.
From S2P Require Import Prelude Heapq PyHeapq PyStr InMemoryCache RedisCache DualCache Strategy RouterIndex PatternRouter.

#[local] Open Scope Z_scope.

Module PreCall.
#[local] Abbreviation dict := (list (string * pyval)).

(** ** Exceptions of the deployment choice *)

(** [litellm.BadRequestError], [ContextWindowExceededError] and the two errors of
    [types/router.py]; anything else is a Python exception. *)
Inductive rexn : Type :=
| Py (e : exn)
| BadRequestError (message : string) (model : string)
| ContextWindowExceededError (message : string) (model : pyval)
| RouterRateLimitErrorBasic (model : pyval)
| RouterRateLimitError (model : string) (cooldown_time : pyval) (enable_pre_call_checks : bool)
    (cooldown_list : list string).

Inductive rres (A : Type) : Type := ROk (a : A) | RRaise (e : rexn).
Arguments ROk {A} a. Arguments RRaise {A} e.

Definition RM (S A : Type) : Type := S → rres A * S.

#[export] Instance RM_ret {S} : MRet (RM S) := λ A a s, (ROk a, s).
#[export] Instance RM_bind {S} : MBind (RM S) := λ A B f m s,
  match m s with (ROk a, s') => f a s' | (RRaise e, s') => (RRaise e, s') end.

Definition r_raise {S A} (e : rexn) : RM S A := λ s, (RRaise e, s).
Definition r_of {A} (r : res A) : rres A := match r with Ok a => ROk a | Raise e => RRaise (Py e) end.
Definition r_res {S A} (r : res A) : RM S A := λ s, (r_of r, s).
Definition r_lift {S A} (m : M S A) : RM S A := λ s, match m s with (r, s') => (r_of r, s') end.
Definition r_get {S} : RM S S := λ s, (ROk s, s).
(** Run a method of a sub-object. *)
Definition r_zoom {S T A} (get : S → T) (set : T → S → S) (m : RM T A) : RM S A := λ s,
  match m (get s) with (r, t') => (r, set t' s) end.

(** Inversion of a run that returns. *)
Lemma r_bind_ok {S A B} (m : RM S A) (f : A → RM S B) s b s' :
  (m ≫= f) s = (ROk b, s') → ∃ a s1, m s = (ROk a, s1) ∧ f a s1 = (ROk b, s').
Proof. unfold mbind, RM_bind. destruct (m s) as [[a|] s1]; [eauto|done]. Qed.

Lemma r_res_ok {S A} (r : res A) (s s' : S) a : r_res r s = (ROk a, s') → r = Ok a ∧ s' = s.
Proof. unfold r_res. destruct r; cbn; intros [=]; by subst. Qed.

Lemma r_lift_ok {S A} (m : M S A) (s s' : S) a : r_lift m s = (ROk a, s') → m s = (Ok a, s').
Proof. unfold r_lift. destruct (m s) as [[]]; cbn; intros [=]; by subst. Qed.

Lemma r_zoom_ok {S T A} (get : S → T) set (m : RM T A) s s' a :
  r_zoom get set m s = (ROk a, s') → ∃ t', m (get s) = (ROk a, t') ∧ s' = set t' s.
Proof. unfold r_zoom. destruct (m (get s)) as [r t']. intros [= -> <-]. eauto. Qed.

(** ** What the checks call *)

Record env := mkEnv {
  token_counter : pyval → res Z;
  get_model_info : string → res (option dict);                  (* litellm.get_model_info *)
  LiteLLM_Params : dict → res dict;                             (* validated parameters *)
  get_llm_provider : pyval → dict → res (string * string);      (* model and provider *)
  get_supported_openai_params : string → string → option (list string);
  drop_params : pyval
}.

(** [LiteLLM_Params( **v )]. *)
Definition params_object (E : env) (v : pyval) : res dict :=
  match v with PDict p => LiteLLM_Params E p | _ => Raise TypeError end.

(** ** Helpers of [utils.py] *)

Definition is_region_allowed (litellm_params : dict) (allowed_model_region : pyval) : bool :=
  py_eqb (default PNone (dget "region_name" litellm_params)) allowed_model_region.

Definition DEFAULT_CHAT_COMPLETION_PARAM_VALUES : dict :=
  [("functions", PNone); ("function_call", PNone); ("temperature", PNone); ("top_p", PNone); ("n", PNone);
   ("stream", PNone); ("stream_options", PNone); ("stop", PNone); ("max_tokens", PNone);
   ("max_completion_tokens", PNone); ("modalities", PNone); ("prediction", PNone); ("audio", PNone);
   ("presence_penalty", PNone); ("frequency_penalty", PNone); ("logit_bias", PNone); ("user", PNone);
   ("model", PNone); ("custom_llm_provider", PStr ""); ("response_format", PNone); ("seed", PNone);
   ("tools", PNone); ("tool_choice", PNone); ("max_retries", PNone); ("logprobs", PNone);
   ("top_logprobs", PNone); ("extra_headers", PNone); ("api_version", PNone); ("parallel_tool_calls", PNone);
   ("drop_params", PNone); ("allowed_openai_params", PNone); ("additional_drop_params", PNone);
   ("messages", PNone); ("reasoning_effort", PNone); ("verbosity", PNone); ("thinking", PNone);
   ("web_search_options", PNone); ("service_tier", PNone); ("safety_identifier", PNone);
   ("prompt_cache_key", PNone); ("prompt_cache_retention", PNone); ("store", PNone); ("metadata", PNone);
   ("context_management", PNone)].

Definition non_default (k : string) (v : pyval) : bool :=
  negb (String.eqb k "model") && negb (String.eqb k "custom_llm_provider") &&
  match dget k DEFAULT_CHAT_COMPLETION_PARAM_VALUES with Some v0 => negb (py_eqb v v0) | None => false end.

Definition get_non_default_params (passed_params : dict) : dict :=
  filter (λ kv, non_default kv.1 kv.2 = true) passed_params.

(** The [order] values that are set. *)
Fixpoint orders (healthy_deployments : list pyval) : res (list pyval) :=
  match healthy_deployments with
  | [] => Ok []
  | deployment :: rest =>
      params ← py_index deployment "litellm_params";
      match params with
      | PDict p => os ← orders rest; Ok (match dget "order" p with Some o => o :: os | None => os end)
      | _ => Raise TypeError
      end
  end.

(** [min] of a sequence that starts with [acc]. *)
Fixpoint min_from (acc : pyval) (l : list pyval) : res pyval :=
  match l with
  | [] => Ok acc
  | x :: l' => less ← py_lt x acc; min_from (if less : bool then x else acc) l'
  end.

Fixpoint with_order (min_order : pyval) (healthy_deployments : list pyval) : res (list pyval) :=
  match healthy_deployments with
  | [] => Ok []
  | deployment :: rest =>
      params ← py_index deployment "litellm_params";
      o ← py_get params "order";
      ds ← with_order min_order rest;
      Ok (if py_eqb o min_order then deployment :: ds else ds)
  end.

Definition _get_order_filtered_deployments (healthy_deployments : list pyval) : res (list pyval) :=
  os ← orders healthy_deployments;
  min_order ← match os with [] => Ok PNone | o :: os' => min_from o os' end;
  if is_none min_order then Ok healthy_deployments else with_order min_order healthy_deployments.

(** ** [Router.get_router_model_info] *)

(** The model of the first routed deployment with the id of this one; a failing
    comparison is skipped. *)
Fixpoint routed_model (id : pyval) (potential_models : list RouterIndex.deployment) (model : pyval) : pyval :=
  match potential_models with
  | [] => model
  | d :: ds =>
      if py_eqb (default PNone (dget "id" (RouterIndex.model_info d))) id then
        match py_get (py_or (RouterIndex.litellm_params d) (PDict [])) "model" with
        | Ok m => m
        | Raise _ => routed_model id ds model
        end
      else routed_model id ds model
  end.

Definition merge_info (user_model_info : pyval) (info : dict) : res dict :=
  match user_model_info with
  | PDict u => Ok (foldl (λ acc kv, dset kv.1 kv.2 acc) info u)
  | _ => Raise TypeError
  end.

(** The base model of a deployment. *)
Definition base_model_of (model_info litellm_params : pyval) : res pyval :=
  base_model ← py_get model_info "base_model";
  if is_none base_model then py_get litellm_params "base_model" else Ok base_model.

Definition get_router_model_info (E : env) (pattern_router : PatternRouter.t) (deployment received_model_name : pyval)
    : res (option dict) :=
  info ← py_get deployment "model_info";
  data ← py_get deployment "litellm_params";
  base_model ← base_model_of (py_or info (PDict [])) (py_or data (PDict []));
  p ← match data with PDict p => if dmem "model" p then Ok p else Raise ValueError | _ => Raise ValueError end;
  litellm_params ← LiteLLM_Params E p;
  '(_model, custom_llm_provider) ←
    get_llm_provider E (default PNone (dget "model" litellm_params)) litellm_params;
  id ← py_get (py_or info (PDict [])) "id";
  let model :=
    if String.eqb custom_llm_provider "azure" then base_model
    else if str_contains "*" _model then
      match received_model_name with
      | PStr received =>
          routed_model id (default [] (PatternRouter.route (Some received) None pattern_router)) (PStr _model)
      | _ => PStr _model
      end
    else PStr _model in
  match (if is_none model then PStr _model else model) with
  | PStr m =>
      let model_info_name :=
        if startswith m (custom_llm_provider +:+ "/") then m else custom_llm_provider +:+ "/" +:+ m in
      model_info ← get_model_info E model_info_name;
      match model_info with
      | None => Ok None
      | Some mi => merged ← merge_info (py_or info (PDict [])) mi; Ok (Some merged)
      end
  | _ => Raise AttributeError
  end.

(** ** [Router._pre_call_checks] *)

Section checks.
Context `{PyRuntime} {R : Type} `{RedisCacheI R}.
Variable E : env.
Variable pattern_router : PatternRouter.t.
Variable routing_strategy : string.

(** What the loop has gathered; [model] is reassigned in it. *)
Record progress := mkP {
  model : pyval;
  model_group_cache : pyval;
  invalid_model_indices : list nat;
  _context_window_error : bool;
  _potential_error_str : string;
  _rate_limit_error : bool
}.

Definition set_model (m : pyval) (p : progress) : progress :=
  mkP m (model_group_cache p) (invalid_model_indices p) (_context_window_error p) (_potential_error_str p)
    (_rate_limit_error p).
Definition set_group (g : pyval) (p : progress) : progress :=
  mkP (model p) g (invalid_model_indices p) (_context_window_error p) (_potential_error_str p) (_rate_limit_error p).
Definition set_invalid (idx : nat) (p : progress) : progress :=
  mkP (model p) (model_group_cache p) (invalid_model_indices p ++ [idx]) (_context_window_error p)
    (_potential_error_str p) (_rate_limit_error p).
Definition set_rate_limit_error (p : progress) : progress :=
  mkP (model p) (model_group_cache p) (invalid_model_indices p) (_context_window_error p)
    (_potential_error_str p) true.
Definition set_context_error (text : string) (p : progress) : progress :=
  mkP (model p) (model_group_cache p) (invalid_model_indices p) true (_potential_error_str p +:+ text)
    (_rate_limit_error p).

(** The [try] block: the reassigned model, and the limit when the input exceeds it. *)
Definition context_check (input_tokens : Z) (deployment info params received : pyval) : res (pyval * option pyval) :=
  base_model ← base_model_of info params;
  model_info ← get_router_model_info E pattern_router deployment received;
  m ← (if truthy base_model then Ok base_model else py_get params "model");
  Ok (m, match model_info with
         | Some mi =>
             match dget "max_input_tokens" mi with
             | Some v => match as_int v with
                         | Some n => if n <? input_tokens then Some v else None
                         | None => None
                         end
             | None => None
             end
         | None => None
         end).

(** [max(v, w)]. *)
Definition py_max (v w : pyval) : res pyval := less ← py_lt v w; Ok (if less : bool then w else v).

Definition as_id (v : pyval) : res string := match v with PStr s => Ok s | _ => Raise TypeError end.

(** [_litellm_params["rpm"] <= current_request], when an integer limit is set. *)
Definition over_rpm (params current_request : pyval) : res bool :=
  match params with
  | PDict ps =>
      match dget "rpm" ps with
      | Some rpm => match as_int rpm with
                    | Some n => less ← py_lt current_request (PInt n); Ok (negb less)
                    | None => Ok false
                    end
      | None => Ok false
      end
  | _ => Ok false
  end.

(** The request counts: of the router and, unless the strategy keeps its own, of the
    usage dict, which gets an entry for the deployment. *)
Definition rpm_check (now : Z) (rpm_key : string) (info params group : pyval)
    : M (DualCache.t R) (bool * pyval) :=
  model_id ← m_lift (py_get_or info "id" (PStr ""));
  id ← m_lift (as_id model_id);
  cached ← DualCache.get_cache now id true None;
  match group with
  | PDict g =>
      if String.eqb routing_strategy "usage-based-routing-v2" then mret (false, group)
      else
        let used := default (PInt 0) (dget id g) in
        let g' := dset id used g in
        write_back rpm_key g' ;;
        current_request ← m_lift (py_max (py_or cached (PInt 0)) used);
        over ← m_lift (over_rpm params current_request);
        mret (over, PDict g')
  | _ => mret (false, group)
  end.

(** The deployment lies in another region than the one asked for. *)
Definition region_check (request_kwargs : option dict) (params : pyval) : res bool :=
  match request_kwargs ≫= dget "allowed_model_region" with
  | None | Some PNone => Ok false
  | Some allowed => lp ← params_object E params; Ok (negb (is_region_allowed lp allowed))
  end.

(** The request uses a special parameter the model does not support; also the model
    without its provider. *)
Definition params_check (request_kwargs : option dict) (params m : pyval) : res (pyval * bool) :=
  match request_kwargs, drop_params E with
  | Some kw, PBool false =>
      lp ← params_object E params;
      '(model', custom_llm_provider) ← get_llm_provider E m lp;
      Ok (PStr model',
          match get_supported_openai_params E model' custom_llm_provider with
          | None => false
          | Some supported =>
              existsb (λ k, negb (bool_decide (k ∈ supported)) && bool_decide (k ∈ ["response_format"]))
                (dkeys (get_non_default_params kw))
          end)
  | _, _ => Ok (m, false)
  end.

(** The part of an iteration after the [try] block. *)
Definition check_limits (now : Z) (rpm_key : string) (request_kwargs : option dict) (idx : nat) (info params : pyval)
    (p : progress) : M (DualCache.t R) progress :=
  '(over, group) ← rpm_check now rpm_key info params (model_group_cache p);
  let p := set_group group p in
  if over : bool then mret (set_rate_limit_error (set_invalid idx p))
  else
    elsewhere ← m_lift (region_check request_kwargs params);
    if elsewhere : bool then mret (set_invalid idx p)
    else
      '(m, unsupported) ← m_lift (params_check request_kwargs params (model p));
      let p := set_model m p in
      mret (if unsupported : bool then set_invalid idx p else p).

(** One iteration. *)
Definition check_deployment (now : Z) (rpm_key : string) (input_tokens : Z) (request_kwargs : option dict)
    (idx : nat) (deployment : pyval) (p : progress) : M (DualCache.t R) progress :=
  params ← m_lift (py_get_or deployment "litellm_params" (PDict []));
  info ← m_lift (py_get_or deployment "model_info" (PDict []));
  match context_check input_tokens deployment info params (model p) with
  | Ok (m, Some limit) =>
      mret (set_context_error ("Model=" +:+ py_str m +:+ ", Max Input Tokens=" +:+ py_str limit
                               +:+ ", Got=" +:+ str_of_Z input_tokens)
              (set_invalid idx (set_model m p)))
  | Ok (m, None) => check_limits now rpm_key request_kwargs idx info params (set_model m p)
  | Raise _ => check_limits now rpm_key request_kwargs idx info params p
  end.

Fixpoint check_loop (now : Z) (rpm_key : string) (input_tokens : Z) (request_kwargs : option dict)
    (idx : nat) (deployments : list pyval) (p : progress) : M (DualCache.t R) progress :=
  match deployments with
  | [] => mret p
  | d :: ds =>
      p' ← check_deployment now rpm_key input_tokens request_kwargs idx d p;
      check_loop now rpm_key input_tokens request_kwargs (S idx) ds p'
  end.

(** [[d for i, d in enumerate(deployments) if i not in invalid]]. *)
Fixpoint keep_valid (idx : nat) (invalid : list nat) (deployments : list pyval) : list pyval :=
  match deployments with
  | [] => []
  | d :: ds => if bool_decide (idx ∈ invalid) then keep_valid (S idx) invalid ds
               else d :: keep_valid (S idx) invalid ds
  end.

(** [minute] is [strftime("%H-%M")] of the current time. *)
Definition _pre_call_checks (now : Z) (minute : string) (model_name : string) (healthy_deployments : list pyval)
    (messages : pyval) (request_kwargs : option dict) : RM (DualCache.t R) (list pyval) :=
  match token_counter E messages with
  | Raise _ => mret healthy_deployments
  | Ok input_tokens =>
      let rpm_key := model_name +:+ ":rpm:" +:+ minute in
      cached ← r_lift (DualCache.get_cache now rpm_key true None);
      p ← r_lift (check_loop now rpm_key input_tokens request_kwargs 0 healthy_deployments
                    (mkP (PStr model_name) (py_or cached (PDict [])) [] false "" false));
      if (length (invalid_model_indices p) =? length healthy_deployments)%nat && _rate_limit_error p
      then r_raise (RouterRateLimitErrorBasic (model p))
      else if (length (invalid_model_indices p) =? length healthy_deployments)%nat && _context_window_error p
      then r_raise (ContextWindowExceededError (_potential_error_str p) (model p))
      else
        match keep_valid 0 (invalid_model_indices p) healthy_deployments with
        | [] => mret []
        | kept => r_res (_get_order_filtered_deployments kept)
        end
  end.

(** ** What the returned deployments satisfy *)

(** The request count that the usage dict has for an id. *)
Definition used_in (group : pyval) (id : string) : pyval :=
  match group with PDict g => default (PInt 0) (dget id g) | _ => PInt 0 end.

(** What the in-memory cache has for a key at [now]. *)
Definition local_value (now : Z) (key : string) (c : DualCache.t R) : pyval :=
  InMemoryCache.live_value now key (DualCache.in_memory_cache c).

(** The model the provider lookup gives for a deployment has no wildcard. *)
Definition wildcard_free (d : pyval) : Prop :=
  ∀ ps lp m provider, py_get d "litellm_params" = Ok (PDict ps) → LiteLLM_Params E ps = Ok lp →
    get_llm_provider E (default PNone (dget "model" lp)) lp = Ok (m, provider) → str_contains "*" m = false.

(** The model the parameters of the request are checked for: the base model, else the
    model of the parameters. *)
Definition own_model (i ps : dict) : pyval :=
  let base := match dget "base_model" i with
              | Some PNone | None => default PNone (dget "base_model" ps)
              | Some b => b
              end in
  if truthy base then base else default PNone (dget "model" ps).

(** The properties of a deployment the checks at [now] establish, read off the cache [c]
    they start from, for a request with [input_tokens] for the group [name]: the input fits the context
    window the model map has for it; neither the requests the router itself has counted
    under its id nor those of the usage dict of the minute reach its limit; it is in
    the region asked for; and its model supports [response_format] if the request
    has one. *)
Record passes (now : Z) (rpm_key name : string) (c : DualCache.t R) (input_tokens : Z) (request_kwargs : option dict)
    (d : pyval) : Prop := {
  pass_context : ∀ mi v limit, wildcard_free d →
    get_router_model_info E pattern_router d (PStr name) = Ok (Some mi) →
    dget "max_input_tokens" mi = Some v → as_int v = Some limit → input_tokens ≤ limit;
  pass_rpm : ∀ i ps id limit g,
    py_get d "model_info" = Ok (PDict i) → dget "id" i = Some (PStr id) →
    py_get d "litellm_params" = Ok (PDict ps) → dget "rpm" ps = Some (PInt limit) →
    routing_strategy ≠ "usage-based-routing-v2" → py_or (local_value now rpm_key c) (PDict []) = PDict g →
    (∀ used, used_in (PDict g) id = PInt used → used < limit) ∧
    (∀ own, id ≠ rpm_key → local_value now id c = PInt own → own < limit);
  pass_region : ∀ allowed, request_kwargs ≫= dget "allowed_model_region" = Some allowed → allowed ≠ PNone →
    ∃ ps lp, py_get_or d "litellm_params" (PDict []) = Ok (PDict ps) ∧ LiteLLM_Params E ps = Ok lp ∧
      is_region_allowed lp allowed = true;
  pass_params : ∀ kw format i ps lp m provider supported,
    request_kwargs = Some kw → dget "response_format" kw = Some format → format ≠ PNone → drop_params E = PBool false →
    wildcard_free d → is_ok (get_router_model_info E pattern_router d (PStr name)) = true →
    py_get d "model_info" = Ok (PDict i) → py_get d "litellm_params" = Ok (PDict ps) → LiteLLM_Params E ps = Ok lp →
    get_llm_provider E (own_model i ps) lp = Ok (m, provider) →
    get_supported_openai_params E m provider = Some supported → "response_format" ∈ supported
}.

Lemma py_lt_num v n : py_lt v (PInt n) =
  match as_num v with Some q => Ok (negb (Qle_bool (inject_Z n) q)) | None => Raise TypeError end.
Proof. by destruct v. Qed.

Lemma py_lt_num_l n w : py_lt (PInt n) w =
  match as_num w with Some q => Ok (negb (Qle_bool q (inject_Z n))) | None => Raise TypeError end.
Proof. by destruct w. Qed.

Lemma not_Qle_bool_lt n q : negb (Qle_bool (inject_Z n) q) = true ↔ (q < inject_Z n)%Q.
Proof.
  rewrite negb_true_iff, <-not_true_iff_false, Qle_bool_iff. split; [apply Qnot_le_lt|apply Qlt_not_le].
Qed.

(** A maximum below a limit has both operands below it. *)
Lemma max_below v w limit m :
  py_max v w = Ok m → py_lt m (PInt limit) = Ok true →
  (∀ z, v = PInt z → z < limit) ∧ (∀ z, w = PInt z → z < limit).
Proof.
  intros Hm Hl. unfold py_max in Hm. split; intros z ->.
  - rewrite py_lt_num_l in Hm. destruct (as_num w) as [q|] eqn:Ew; [|done]. injection Hm as <-.
    destruct (Qle_bool q (inject_Z z)) eqn:Eq; cbn [negb] in Hl; rewrite py_lt_num in Hl.
    + injection Hl as Hl%not_Qle_bool_lt. by rewrite Zlt_Qlt.
    + rewrite Ew in Hl. injection Hl as Hl%not_Qle_bool_lt. rewrite Zlt_Qlt.
      eapply Qlt_trans; [|exact Hl]. apply Qnot_le_lt. intros Hq%Qle_bool_iff. congruence.
  - rewrite py_lt_num in Hm. destruct (as_num v) as [q|] eqn:Ev; [|done]. injection Hm as <-.
    destruct (Qle_bool (inject_Z z) q) eqn:Eq; cbn [negb] in Hl; rewrite py_lt_num in Hl.
    + rewrite Ev in Hl. injection Hl as Hl%not_Qle_bool_lt. rewrite Zlt_Qlt.
      eapply Qle_lt_trans; [|exact Hl]. by apply Qle_bool_iff.
    + injection Hl as Hl%not_Qle_bool_lt. by rewrite Zlt_Qlt.
Qed.

Lemma over_rpm_limit ps limit cur :
  dget "rpm" ps = Some (PInt limit) → over_rpm (PDict ps) cur = Ok false → py_lt cur (PInt limit) = Ok true.
Proof.
  intros E1. unfold over_rpm. rewrite E1. cbn [as_int]. destruct (py_lt cur (PInt limit)) as [[]|]; by cbn.
Qed.

(** The usage dict keeps its counts. *)
Lemma used_in_dset g id id' : used_in (PDict (dset id (default (PInt 0) (dget id g)) g)) id' = used_in (PDict g) id'.
Proof. unfold used_in. rewrite dget_dset. by destruct (String.eqb_spec id id') as [->|]. Qed.

(** The cache answers as at the start, except for the usage dict. *)
Definition same_values (now : Z) (key : string) (c c' : DualCache.t R) : Prop :=
  ∀ k, k ≠ key → local_value now k c' = local_value now k c.

Lemma get_local_same now key k c : same_values now key c (DualCache.get_cache now k true None c).2.
Proof.
  intros k' _. rewrite DualCache.get_cache_local. unfold local_value. cbn.
  by destruct (InMemoryCache.get_cache_live now k (DualCache.in_memory_cache c)) as (_ & -> & _).
Qed.

Lemma write_back_same now key d c : same_values now key c (write_back key d c).2.
Proof.
  intros k Hne. unfold local_value, InMemoryCache.live_value, InMemoryCache._is_key_expired.
  destruct (write_back_keeps key d c) as [Hk _]. destruct (Hk k Hne) as [E1 E2]. unfold mem in E1, E2. by rewrite E1, E2.
Qed.

Lemma same_values_trans now key c1 c2 c3 : same_values now key c1 c2 → same_values now key c2 c3 → same_values now key c1 c3.
Proof. intros H12 H23 k Hk. by rewrite H23, H12. Qed.

Lemma rpm_check_ok now key info params group c over group' c' :
  rpm_check now key info params group c = (Ok (over, group'), c') →
  same_values now key c c' ∧
  (∀ id, used_in group' id = used_in group id) ∧ ((∃ g, group = PDict g) ↔ ∃ g, group' = PDict g) ∧
  ∃ i, info = PDict i ∧
  (over = false → ∀ id ps limit, dget "id" i = Some (PStr id) → params = PDict ps →
     dget "rpm" ps = Some (PInt limit) → routing_strategy ≠ "usage-based-routing-v2" → (∃ g, group = PDict g) →
     (∀ used, used_in group id = PInt used → used < limit) ∧ (∀ own, local_value now id c = PInt own → own < limit)).
Proof.
  unfold rpm_check, mbind, M_bind, m_lift. destruct info as [| | | | | | | |i|]; try done. cbn [py_get_or].
  destruct (as_id (default (PStr "") (dget "id" i))) as [id|] eqn:Eid; [|done].
  pose proof (get_local_same now key id c) as Hs1. pose proof (DualCache.get_cache_local now id None c) as Eg.
  destruct (DualCache.get_cache now id true None c) as [[cached|] c1]; [|done]. injection Eg as -> _. cbn [snd] in Hs1.
  destruct group as [| | | | | | | |g|];
    try (intros [= <- <- <-]; split_and!; [done..|]; exists i; split; [done|]; intros _ ? ? ? ? ? ? ? [? ?]; done).
  destruct (String.eqb_spec routing_strategy "usage-based-routing-v2") as [->|Hs].
  { intros [= <- <- <-]. split_and!; [done..|]. exists i. split; [done|]. by intros. }
  pose proof (write_back_same now key (dset id (default (PInt 0) (dget id g)) g) c1) as Hs2.
  destruct (write_back _ _ c1) as [[[]|] c2]; [|done]. cbn [snd] in Hs2.
  destruct (py_max _ _) as [cur|] eqn:Em; [|done].
  destruct (over_rpm params cur) as [b|] eqn:Eo; [|done].
  intros [= <- <- <-]. split; [by eapply same_values_trans|]. split; [intros id'; apply used_in_dset|]. split; [by split; eauto|].
  exists i. split; [done|]. intros -> id' ps limit Hid -> Hrpm _ _.
  rewrite Hid in Eid. injection Eid as ->.
  destruct (max_below _ _ _ _ Em (over_rpm_limit _ _ _ Hrpm Eo)) as [Hown Hused]. split; [exact Hused|].
  intros own Ho. apply Hown. unfold local_value in Ho. rewrite Ho. unfold py_or. cbn. by destruct (Z.eqb_spec own 0) as [->|].
Qed.

Lemma model_info_params d received mi :
  get_router_model_info E pattern_router d received = Ok mi → ∃ ps, py_get_or d "litellm_params" (PDict []) = Ok (PDict ps).
Proof.
  unfold get_router_model_info. destruct d as [| | | | | | | |d|]; try done. cbn [py_get py_get_or mbind res_bind].
  destruct (base_model_of _ _); [|done]. cbn [mbind res_bind].
  destruct (dget "litellm_params" d) as [[| | | | | | | |ps|]|]; try done. by exists ps.
Qed.

Lemma base_model_of_dicts i ps : ∃ b, base_model_of (PDict i) (PDict ps) = Ok b.
Proof. unfold base_model_of. cbn [py_get mbind res_bind]. case_match; by eexists. Qed.

(** Without a wildcard the name of the request does not matter. *)
Lemma model_info_fixed d r r' :
  wildcard_free d → get_router_model_info E pattern_router d r = get_router_model_info E pattern_router d r'.
Proof.
  intros Hw. unfold get_router_model_info. destruct d as [| | | | | | | |d|]; try done. cbn [py_get mbind res_bind].
  destruct (base_model_of _ _) as [b|]; [|done]. cbn [mbind res_bind].
  destruct (default PNone (dget "litellm_params" d)) as [| | | | | | | |ps|] eqn:Ep; try done.
  destruct (dmem "model" ps); [|done]. cbn [mbind res_bind].
  destruct (LiteLLM_Params E ps) as [lp|] eqn:El; [|done]. cbn [mbind res_bind].
  destruct (get_llm_provider E _ lp) as [[m provider]|] eqn:Eg; [|done]. cbn [mbind res_bind].
  rewrite (Hw ps lp m provider); [done| |done|done]. cbn [py_get]. by rewrite Ep.
Qed.

(** A deployment not refused for its context window fits. *)
Lemma context_fits n d i params received name :
  py_get_or d "litellm_params" (PDict []) = Ok params →
  (∀ m v, context_check n d (PDict i) params received ≠ Ok (m, Some v)) →
  ∀ mi v limit, wildcard_free d → get_router_model_info E pattern_router d (PStr name) = Ok (Some mi) →
    dget "max_input_tokens" mi = Some v → as_int v = Some limit → n ≤ limit.
Proof.
  intros Hp Hc mi v limit Hw Hmi Hv Hl. rewrite (model_info_fixed d _ received Hw) in Hmi.
  destruct (model_info_params _ _ _ Hmi) as [ps Hps].
  assert (params = PDict ps) as -> by congruence.
  destruct (base_model_of_dicts i ps) as [b Hb]. apply Z.nlt_ge. intros Hlt. revert Hc. unfold context_check.
  rewrite Hb. cbn [mbind res_bind]. rewrite Hmi. cbn [mbind res_bind py_get]. rewrite Hv, Hl.
  apply Z.ltb_lt in Hlt. rewrite Hlt. destruct (truthy b); cbn [mbind res_bind]; intros Hc; by eapply Hc.
Qed.

(** The model a successful lookup leaves. *)
Lemma context_model n d i ps received m o :
  context_check n d (PDict i) (PDict ps) received = Ok (m, o) → m = own_model i ps.
Proof.
  unfold context_check, own_model, base_model_of. cbn [py_get mbind res_bind].
  destruct (get_router_model_info _ _ _ _); [|by destruct (is_none _)].
  destruct (dget "base_model" i) as [b|]; cbn [default from_option id].
  - destruct b; cbn [is_none]; cbn [mbind res_bind]; destruct (truthy _); cbn [mbind res_bind]; by intros [= <- _].
  - cbn [is_none mbind res_bind]. destruct (truthy _); cbn [mbind res_bind]; by intros [= <- _].
Qed.

Lemma context_raises n d i ps received :
  is_ok (context_check n d (PDict i) (PDict ps) received) = is_ok (get_router_model_info E pattern_router d received).
Proof.
  unfold context_check. destruct (base_model_of_dicts i ps) as [b ->]. cbn [mbind res_bind].
  destruct (get_router_model_info _ _ _ _); [|done]. cbn [mbind res_bind]. by destruct (truthy b).
Qed.

(** Parameters that are not refused are supported. *)
Lemma params_supported kw params m m' :
  params_check (Some kw) params m = Ok (m', false) → drop_params E = PBool false →
  ∀ format ps lp model provider supported, dget "response_format" kw = Some format → format ≠ PNone →
    params = PDict ps → LiteLLM_Params E ps = Ok lp → get_llm_provider E m lp = Ok (model, provider) →
    get_supported_openai_params E model provider = Some supported → "response_format" ∈ supported.
Proof.
  intros Hp Hd format ps lp model provider supported Hf Hn -> Hlp Hg Hs. unfold params_check in Hp. rewrite Hd in Hp.
  cbn [params_object] in Hp. rewrite Hlp in Hp. cbn [mbind res_bind] in Hp. rewrite Hg in Hp. cbn [mbind res_bind] in Hp.
  rewrite Hs in Hp. injection Hp as _ Hp. apply dec_stable. intros Hni. apply not_true_iff_false in Hp. apply Hp.
  apply existsb_exists. exists "response_format". split.
  - apply list_elem_of_In. unfold dkeys. apply list_elem_of_fmap. exists ("response_format", format). split; [done|].
    apply list_elem_of_filter. split; [|by apply dget_Some_in]. by destruct format.
  - rewrite (bool_decide_eq_false_2 _ Hni). by rewrite bool_decide_eq_true_2 by set_solver.
Qed.

Lemma region_allowed kw params :
  region_check kw params = Ok false → ∀ allowed, kw ≫= dget "allowed_model_region" = Some allowed → allowed ≠ PNone →
  ∃ ps lp, params = PDict ps ∧ LiteLLM_Params E ps = Ok lp ∧ is_region_allowed lp allowed = true.
Proof.
  unfold region_check. intros Hr allowed Ha Hn. rewrite Ha in Hr.
  destruct params as [| | | | | | | |ps|]; try (by destruct allowed).
  destruct (LiteLLM_Params E ps) as [lp|] eqn:El; [|by destruct allowed; cbn [params_object] in Hr; rewrite ?El in Hr].
  exists ps, lp. split_and!; [done..|]. apply negb_false_iff.
  destruct allowed; try done; cbn [params_object] in Hr; rewrite El in Hr; cbn in Hr; by injection Hr.
Qed.

(** What one iteration does: it keeps the counts, and makes at most its own index
    invalid; when it does not, [P] holds. *)
Definition step_ok (now : Z) (key : string) (c c' : DualCache.t R) (idx : nat) (p p' : progress) (P : Prop) : Prop :=
  same_values now key c c' ∧
  (∀ id, used_in (model_group_cache p') id = used_in (model_group_cache p) id) ∧
  ((∃ g, model_group_cache p = PDict g) ↔ ∃ g, model_group_cache p' = PDict g) ∧
  (invalid_model_indices p' = invalid_model_indices p ∧ P ∨
   invalid_model_indices p' = invalid_model_indices p ++ [idx]).

(** The loop has read the usage dict from the cache [c0] it started from. *)
Definition read_from (now : Z) (key : string) (c0 c : DualCache.t R) (p : progress) : Prop :=
  same_values now key c0 c ∧
  (∀ id, used_in (model_group_cache p) id = used_in (py_or (local_value now key c0) (PDict [])) id) ∧
  ((∃ g, py_or (local_value now key c0) (PDict []) = PDict g) ↔ ∃ g, model_group_cache p = PDict g).

(** The dicts of a deployment. *)
Lemma dicts_of d i ps info params :
  py_get_or d "litellm_params" (PDict []) = Ok params → py_get_or d "model_info" (PDict []) = Ok info →
  py_get d "model_info" = Ok (PDict i) → py_get d "litellm_params" = Ok (PDict ps) → info = PDict i ∧ params = PDict ps.
Proof.
  destruct d as [| | | | | | | |d|]; try done. cbn [py_get py_get_or].
  destruct (dget "model_info" d), (dget "litellm_params" d); naive_solver.
Qed.

Lemma check_limits_ok now key name n kw idx d info params received p c0 c p' c' :
  read_from now key c0 c p →
  py_get_or d "litellm_params" (PDict []) = Ok params → py_get_or d "model_info" (PDict []) = Ok info →
  (∀ m v, context_check n d info params received ≠ Ok (m, Some v)) →
  (∀ m, context_check n d info params received = Ok (m, None) → model p = m) →
  check_limits now key kw idx info params p c = (Ok p', c') →
  step_ok now key c c' idx p p' (passes now key name c0 n kw d).
Proof.
  intros (Hc0 & Hu0 & Hd0) Ep Ei Hc Hm. unfold check_limits, mbind, M_bind, m_lift, step_ok.
  destruct (rpm_check _ _ _ _ _ _) as [[[over group]|] s] eqn:Er; [|done].
  apply rpm_check_ok in Er as (Hv & Hu & Hd & i & -> & Hr).
  destruct over; [intros [= <- <-]; cbn; auto|].
  destruct (region_check kw params) as [[]|] eqn:Eg; [intros [= <- <-]; cbn; auto| |done].
  cbn [model set_group] in *.
  destruct (params_check kw params (model p)) as [[m b]|] eqn:Epc; [|done]. intros [= <- <-].
  destruct b; cbn; split_and!; try done; [by right|]. left. split; [done|]. split.
  - by eapply context_fits.
  - intros i' ps id limit g Hi' Hid Hps Hrpm Hst Hg.
    destruct (dicts_of d i' ps _ _ Ep Ei Hi' Hps) as [[= ->] ->].
    destruct (Hr eq_refl id ps limit Hid eq_refl Hrpm Hst) as [Hx Hy]; [apply Hd0; by eexists|]. split.
    + intros used Ew. apply Hx. by rewrite Hu0, Hg.
    + intros own Hne Ew. apply Hy. by rewrite (Hc0 _ Hne).
  - intros allowed Ha Hn. destruct (region_allowed _ _ Eg allowed Ha Hn) as (ps & lp & -> & ? & ?). eauto.
  - intros kw' format i' ps lp m' provider supported -> Hf Hn Hdr Hw Hok Hi' Hps Hlp Hgl Hs.
    destruct (dicts_of d i' ps _ _ Ep Ei Hi' Hps) as [[= ->] ->].
    rewrite (model_info_fixed d _ received Hw), <-(context_raises n d i' ps received) in Hok.
    destruct (context_check n d (PDict i') (PDict ps) received) as [[m0 [v|]]|] eqn:Ec; [by edestruct Hc| |done].
    rewrite (Hm m0 eq_refl), (context_model _ _ _ _ _ _ _ Ec) in Epc. by eapply params_supported.
Qed.

Lemma check_deployment_ok now key name n kw idx d p c0 c p' c' :
  read_from now key c0 c p →
  check_deployment now key n kw idx d p c = (Ok p', c') →
  step_ok now key c c' idx p p' (passes now key name c0 n kw d).
Proof.
  intros Hrd. unfold check_deployment, mbind, M_bind, m_lift.
  destruct (py_get_or d "litellm_params" _) as [params|] eqn:Ep; [|done].
  destruct (py_get_or d "model_info" _) as [info|] eqn:Ei; [|done].
  destruct (context_check n d info params (model p)) as [[m [v|]]|] eqn:Ec.
  - intros [= <- <-]. unfold step_ok, same_values. cbn. auto.
  - intros Hl. eapply (check_limits_ok now key name n kw idx d info params (model p) (set_model m p)) in Hl;
      [exact Hl|exact Hrd|done..|congruence|]. intros m' Hm'. cbn. congruence.
  - intros Hl. eapply (check_limits_ok now key name n kw idx d info params (model p)) in Hl;
      [exact Hl|exact Hrd|done..|congruence|congruence].
Qed.

Lemma read_from_step now key c0 c p c' p' idx P :
  read_from now key c0 c p → step_ok now key c c' idx p p' P → read_from now key c0 c' p'.
Proof.
  intros (Hc & Hu & Hd) (Hc' & Hu' & Hd' & _). split; [by eapply same_values_trans|].
  split; [intros id; by rewrite Hu'|]. by rewrite Hd, Hd'.
Qed.

Lemma check_loop_ok now key name n kw idx ds p c0 c p' c' :
  read_from now key c0 c p →
  check_loop now key n kw idx ds p c = (Ok p', c') →
  ∃ bad, invalid_model_indices p' = invalid_model_indices p ++ bad ∧
    ∀ k d, ds !! k = Some d → (idx + k)%nat ∈ bad ∨ passes now key name c0 n kw d.
Proof.
  revert idx p c. induction ds as [|d ds IH]; intros idx p c Hrd; cbn [check_loop].
  { intros [= <- <-]. exists []. by rewrite app_nil_r. }
  unfold mbind, M_bind. destruct (check_deployment _ _ _ _ _ _ _ _) as [[p1|] c1] eqn:E1; [|done].
  pose proof (check_deployment_ok now key name n kw idx d p c0 c p1 c1 Hrd E1) as Hst.
  pose proof (read_from_step _ _ _ _ _ _ _ _ _ Hrd Hst) as Hrd1. destruct Hst as (_ & _ & _ & Hi).
  intros (bad & Hb & Hall)%(IH _ _ _ Hrd1).
  exists ((if decide (invalid_model_indices p1 = invalid_model_indices p) then [] else [idx]) ++ bad).
  destruct Hi as [[Hi Hp]|Hi]; (case_decide as Hdec; [rewrite Hb, Hdec|rewrite Hb, Hi, <-?app_assoc]); try done.
  - split; [done|]. intros [|k] d'; [intros [= <-]; by right|]. intros [Hin|?]%Hall; [left|by right].
    by rewrite Nat.add_succ_r.
  - exfalso. rewrite Hi in Hdec. apply (f_equal length) in Hdec. rewrite length_app in Hdec. simpl in Hdec. lia.
  - split; [done|]. intros [|k] d'; [intros _; left; rewrite Nat.add_0_r; set_solver|].
    intros [Hin|?]%Hall; [left|by right]. rewrite Nat.add_succ_r. set_solver.
Qed.

Lemma keep_valid_ok idx invalid ds d :
  d ∈ keep_valid idx invalid ds → ∃ k, ds !! k = Some d ∧ (idx + k)%nat ∉ invalid.
Proof.
  revert idx. induction ds as [|d' ds IH]; intros idx; cbn [keep_valid]; [by intros ?%not_elem_of_nil|].
  case_bool_decide as Hd.
  - intros (k & ? & ?)%IH. exists (S k). split; [done|]. by rewrite Nat.add_succ_r.
  - intros [->|(k & ? & ?)%IH]%elem_of_cons; [exists 0%nat; by rewrite Nat.add_0_r|].
    exists (S k). split; [done|]. by rewrite Nat.add_succ_r.
Qed.

Lemma with_order_ok o ds ds' :
  with_order o ds = Ok ds' → ∀ d, d ∈ ds' → d ∈ ds ∧
    ∃ ps, py_index d "litellm_params" = Ok ps ∧ ∃ v, py_get ps "order" = Ok v ∧ py_eqb v o = true.
Proof.
  revert ds'. induction ds as [|d0 ds IH]; intros ds'; cbn [with_order]; [intros [= <-] d Hd; by apply not_elem_of_nil in Hd|].
  destruct (py_index d0 _) as [ps|] eqn:Ep; [|done]. cbn [mbind res_bind].
  destruct (py_get ps "order") as [v|] eqn:Ev; [|done]. cbn [mbind res_bind].
  destruct (with_order o ds) as [l|]; [|done]. cbn [mbind res_bind]. intros [= <-] d Hd.
  destruct (py_eqb v o) eqn:Eo; [apply elem_of_cons in Hd as [->|Hd]|];
    [split; [set_solver|eauto 6]|destruct (IH l eq_refl d Hd); split; [set_solver|done]..].
Qed.

Lemma order_filtered_sub ds ds' : _get_order_filtered_deployments ds = Ok ds' → ∀ d, d ∈ ds' → d ∈ ds.
Proof.
  unfold _get_order_filtered_deployments. destruct (orders ds) as [os|]; [|done]. cbn [mbind res_bind].
  destruct (match os with [] => _ | _ => _ end) as [o|]; [|done]. cbn [mbind res_bind].
  destruct (is_none o); [by intros [= <-]|]. intros Hw d Hd. by eapply with_order_ok.
Qed.

Lemma pre_call_passes now minute name ds messages kw n c ds' c' :
  token_counter E messages = Ok n →
  _pre_call_checks now minute name ds messages kw c = (ROk ds', c') →
  ∀ d, d ∈ ds' → d ∈ ds ∧ passes now (name +:+ ":rpm:" +:+ minute) name c n kw d.
Proof.
  intros Hn. set (key := name +:+ ":rpm:" +:+ minute). unfold _pre_call_checks, mbind, RM_bind, r_lift. rewrite Hn. fold key.
  pose proof (get_local_same now key key c) as Hs. pose proof (DualCache.get_cache_local now key None c) as Eg.
  destruct (DualCache.get_cache now key true None c) as [[cached|] c1]; [|done]. injection Eg as -> _. cbn [r_of snd] in *.
  destruct (check_loop _ _ _ _ _ _ _ _) as [[p|] c2] eqn:El; cbn [r_of]; [|done].
  apply (check_loop_ok now key name n kw 0 ds _ c) in El as (bad & Hb & Hall); [|done]. cbn in Hb, Hall.
  destruct (_ && _); [done|]. destruct (_ && _); [done|].
  assert (∀ d, d ∈ keep_valid 0 (invalid_model_indices p) ds → d ∈ ds ∧ passes now key name c n kw d) as Hk.
  { intros d (k & Hd & Hni)%keep_valid_ok. split; [by eapply list_elem_of_lookup_2|].
    destruct (Hall k d Hd) as [Hin|?]; [|done]. rewrite Hb in Hni. done. }
  destruct (keep_valid _ _ _) as [|k0 kept] eqn:Ek; [intros [= <- <-] d Hd; by apply not_elem_of_nil in Hd|].
  unfold r_res. destruct (_get_order_filtered_deployments _) as [l|] eqn:Eo; cbn [r_of]; [|done].
  intros [= <- <-] d Hd. apply Hk. by eapply order_filtered_sub.
Qed.

(** The checks only remove deployments. *)
Lemma pre_call_sub now minute name ds messages kw c ds' c' :
  _pre_call_checks now minute name ds messages kw c = (ROk ds', c') → ∀ d, d ∈ ds' → d ∈ ds.
Proof.
  intros Hr. destruct (token_counter E messages) as [n|e] eqn:En.
  - intros d Hd. by eapply pre_call_passes.
  - revert Hr. unfold _pre_call_checks. rewrite En. by intros [= <- _].
Qed.

(** C32: When the tokens of the input can be counted, every deployment the pre-call
    checks return is one of those given; if its model has no wildcard the input fits the
    context window the model map has for it; with a strategy other than
    usage-based-routing-v2 (and a usage entry that is a dictionary or missing) neither
    the router's own count under its id nor its count in the usage dict of the minute
    reaches its request limit; it lies in the region the request asks for; and its
    model supports [response_format] when the request has one, parameters are not
    dropped and the model is known.  (When the tokens cannot be counted all
    deployments are returned.) *)
Theorem pre_call_sound now minute name ds messages kw c ds' c'
    (Hr : _pre_call_checks now minute name ds messages kw c = (ROk ds', c')) :
  match token_counter E messages with
  | Raise _ => ds' = ds
  | Ok n => ∀ d, d ∈ ds' → d ∈ ds ∧ passes now (name +:+ ":rpm:" +:+ minute) name c n kw d
  end.
Proof.
  destruct (token_counter E messages) as [n|e] eqn:En; [by eapply pre_call_passes|].
  revert Hr. unfold _pre_call_checks. rewrite En. by intros [= <- _].
Qed.
End checks.

(** ** The order of deployments *)

(** The [order] of a deployment. *)
Definition order_of (d : pyval) : option Z :=
  match py_index d "litellm_params" with
  | Ok (PDict ps) => match dget "order" ps with Some (PInt z) => Some z | _ => None end
  | _ => None
  end.

(** Parameters with an order that is missing or an integer. *)
Definition ordered_dep (d : pyval) : Prop :=
  ∃ ps, py_index d "litellm_params" = Ok (PDict ps) ∧ (dget "order" ps = None ∨ ∃ z, dget "order" ps = Some (PInt z)).

Lemma orders_typed ds : Forall ordered_dep ds → orders ds = Ok (PInt <$> omap order_of ds).
Proof.
  induction 1 as [|d ds (ps & Ep & Ho) Hds IH]; [done|]. cbn [orders omap list_omap].
  unfold order_of at 1. rewrite Ep. cbn [mbind res_bind]. rewrite IH. cbn [mbind res_bind].
  by destruct Ho as [->|[z ->]].
Qed.

Lemma min_from_ints a l : min_from (PInt a) (PInt <$> l) = Ok (PInt (foldl Z.min a l)).
Proof.
  revert a. induction l as [|x l IH]; intros a; [done|]. rewrite fmap_cons. cbn [min_from foldl].
  rewrite py_lt_int. cbn [mbind res_bind]. rewrite <-IH. f_equal. destruct (Z.ltb_spec x a); f_equal; lia.
Qed.

Lemma foldl_min_spec a l :
  (foldl Z.min a l = a ∨ foldl Z.min a l ∈ l) ∧ foldl Z.min a l ≤ a ∧ ∀ x, x ∈ l → foldl Z.min a l ≤ x.
Proof.
  revert a. induction l as [|x l IH]; intros a; cbn [foldl].
  { split_and!; [by left|lia|by intros ? ?%not_elem_of_nil]. }
  destruct (IH (Z.min a x)) as (H1 & H2 & H3). split_and!; [|lia|].
  - destruct H1 as [H1|H1]; [|right; set_solver]. rewrite H1. destruct (Z.min_spec a x) as [[_ ->]|[_ ->]];
      [by left|right; set_solver].
  - intros y [->|Hy]%elem_of_cons; [lia|by apply H3].
Qed.

Lemma with_order_typed o ds :
  Forall ordered_dep ds → with_order (PInt o) ds = Ok (filter (λ d, order_of d = Some o) ds).
Proof.
  induction 1 as [|d ds (ps & Ep & Ho) Hds IH]; [done|]. cbn [with_order]. rewrite Ep. cbn [mbind res_bind py_get].
  rewrite IH. cbn [mbind res_bind]. rewrite filter_cons.
  assert (order_of d = match dget "order" ps with Some (PInt z) => Some z | _ => None end) as -> by (unfold order_of; by rewrite Ep).
  destruct Ho as [->|[z ->]]; cbn [default from_option].
  - by rewrite decide_False.
  - change (py_eqb (id (PInt z)) (PInt o)) with (Qeq_bool (inject_Z z) (inject_Z o)).
    case_decide as Hz; [injection Hz as ->; by rewrite Qeq_bool_refl|].
    destruct (Qeq_bool _ _) eqn:Eq; [|done]. apply Qeq_bool_eq in Eq. unfold Qeq in Eq. simpl in Eq. destruct Hz. f_equal. lia.
Qed.

(** The order filter keeps exactly the deployments whose order is set and smallest,
    all of them when none has an order, and never empties a group. *)
Theorem order_filter_minimal ds (Hd : Forall ordered_dep ds) :
  ∃ ds', _get_order_filtered_deployments ds = Ok ds' ∧ (ds ≠ [] → ds' ≠ []) ∧
    ∀ d, d ∈ ds' ↔ d ∈ ds ∧ ∀ d' z', d' ∈ ds → order_of d' = Some z' → ∃ z, order_of d = Some z ∧ z ≤ z'.
Proof.
  unfold _get_order_filtered_deployments. rewrite orders_typed by done. cbn [mbind res_bind].
  assert (∀ d z, d ∈ ds → order_of d = Some z → z ∈ omap order_of ds) as Hin
    by (intros d z ? ?; apply list_elem_of_omap; eauto).
  destruct (omap order_of ds) as [|a l] eqn:Eo; cbn [fmap list_fmap].
  { exists ds. split_and!; [done..|]. intros d. split; [|by intros [? _]]. intros Hds. split; [done|].
    intros d' z' Hd' Hz. by eapply Hin, not_elem_of_nil in Hz. }
  fold (PInt <$> l). rewrite min_from_ints. cbn [mbind res_bind is_none]. rewrite with_order_typed by done.
  destruct (foldl_min_spec a l) as (H1 & H2 & H3). set (o := foldl Z.min a l) in *.
  assert (o ∈ omap order_of ds) as (d0 & Hd0 & Ho)%list_elem_of_omap.
  { rewrite Eo. destruct H1 as [->|?]; set_solver. }
  assert (∀ z, z ∈ a :: l → o ≤ z) as Hmin by (intros z [->|?]%elem_of_cons; auto).
  eexists. split; [done|]. split.
  - intros _ Hnil. assert (d0 ∈ filter (λ d, order_of d = Some o) ds) as Hx by (by apply list_elem_of_filter).
    rewrite Hnil in Hx. by apply not_elem_of_nil in Hx.
  - intros d. rewrite list_elem_of_filter. split.
    + intros [Ho' Hdd]. split; [done|]. intros d' z' Hd' Hz. exists o. split; [done|]. by eapply Hmin, Hin.
    + intros [Hdd Hall]. split; [|done]. destruct (Hall d0 o Hd0 Ho) as (z & Hz & Hle). rewrite Hz. f_equal.
      pose proof (Hmin z (Hin d z Hdd Hz)). lia.
Qed.

(** ** Concrete runs *)

Module Sample.
#[local] Existing Instance toy_runtime.
#[local] Existing Instance RedisCache.toy_client.
#[local] Existing Instance RedisCache.RedisCache_instance.

(** Ten tokens per request, and a model map with one entry. *)
Definition ex_env : env :=
  mkEnv (λ _, Ok 10)
    (λ m, if String.eqb m "openai/small" then Ok (Some [("max_input_tokens", PInt 8)])
          else Ok (Some [("max_input_tokens", PInt 4096)]))
    (λ p, Ok p) (λ m _, match m with PStr s => Ok (s, "openai") | _ => Raise ValueError end)
    (λ _ _, None) PNone.

Definition ex_dep (id m : string) (extra : dict) : pyval :=
  PDict [("litellm_params", PDict (("model", PStr m) :: extra)); ("model_info", PDict [("id", PStr id)])].

Definition ex_cache : DualCache.t (RedisCache.t RedisCache.toy) :=
  (DualCache.set_cache 0 "gpt:rpm:12-30" (PDict [("b", PInt 5)]) true None
     (DualCache.init DualCache.default_settings None None None None None 1000)).2.

(** Too small a context, at its limit, in another region, and two that fit, one of a
    later order. *)
Definition ex_deps : list pyval :=
  [ex_dep "a" "small" []; ex_dep "b" "large" [("rpm", PInt 5)]; ex_dep "c" "large" [("region_name", PStr "us")];
   ex_dep "d" "large" [("region_name", PStr "eu"); ("order", PInt 2)];
   ex_dep "e" "large" [("region_name", PStr "eu"); ("order", PInt 1); ("rpm", PInt 1)]].
Definition ex_kw : option dict := Some [("allowed_model_region", PStr "eu")].

Definition ex_run : rres (list pyval) * DualCache.t (RedisCache.t RedisCache.toy) :=
  _pre_call_checks ex_env PatternRouter.init "simple-shuffle" 0 "12-30" "gpt" ex_deps PNone ex_kw ex_cache.

Lemma ex_run_result : ex_run.1 = ROk [ex_dep "e" "large" [("region_name", PStr "eu"); ("order", PInt 1); ("rpm", PInt 1)]].
Proof. vm_compute. reflexivity. Qed.

Lemma pre_call_sound_witness :
  let d := ex_dep "e" "large" [("region_name", PStr "eu"); ("order", PInt 1); ("rpm", PInt 1)] in
  d ∈ ex_deps ∧ passes ex_env PatternRouter.init "simple-shuffle" 0 "gpt:rpm:12-30" "gpt" ex_cache 10 ex_kw d.
Proof.
  apply (pre_call_sound ex_env PatternRouter.init "simple-shuffle" 0 "12-30" "gpt" ex_deps PNone ex_kw ex_cache
    [ex_dep "e" "large" [("region_name", PStr "eu"); ("order", PInt 1); ("rpm", PInt 1)]] ex_run.2);
    [vm_compute; reflexivity|constructor].
Defined.

Lemma order_filter_minimal_witness :
  ∃ ds', _get_order_filtered_deployments ex_deps = Ok ds' ∧ ds' ≠ [].
Proof.
  destruct (order_filter_minimal ex_deps) as (ds' & H1 & H2 & _); [|exists ds'; split; [done|by apply H2]].
  repeat (constructor; [eexists; split; [reflexivity|]; (by left) || (right; by eexists)|]). constructor.
Defined.

(** The error names the model of the last deployment, not the group of the request. *)
Theorem limit_error_names_last_model :
  (_pre_call_checks ex_env PatternRouter.init "simple-shuffle" 0 "12-30" "gpt" [ex_dep "b" "azure-eu" [("rpm", PInt 5)]]
     PNone None ex_cache).1 = RRaise (RouterRateLimitErrorBasic (PStr "azure-eu")).
Proof. vm_compute. reflexivity. Qed.

(** Reading the limits of a deployment adds it to the cached usage of the group. *)
Theorem checks_write_usage :
  (DualCache.get_cache 0 "gpt:rpm:12-30" true None ex_run.2).1
  = Ok (PDict [("b", PInt 5); ("c", PInt 0); ("d", PInt 0); ("e", PInt 0)]).
Proof. vm_compute. reflexivity. Qed.

(** A deployment whose provider is not azure is looked up by its model, even when it
    has a [base_model]. *)
Theorem base_model_ignored :
  get_router_model_info ex_env PatternRouter.init
    (ex_dep "f" "small" [("base_model", PStr "large")]) (PStr "gpt")
  = get_router_model_info ex_env PatternRouter.init (ex_dep "f" "small" []) (PStr "gpt") ∧
  get_router_model_info ex_env PatternRouter.init (ex_dep "f" "small" []) (PStr "gpt")
  = Ok (Some [("max_input_tokens", PInt 8); ("id", PStr "f")]).
Proof. split; vm_compute; reflexivity. Qed.
End Sample.
End PreCall.
