(* ===== verification/Routing.v ===== *)
(** * Routing: the choice of a deployment, from the request to the pick

    [Router.async_get_available_deployment] and its three siblings compose the other
    components: the candidates of a request ([_common_checks_available_deployment]: a
    deployment id, an alias, a model group, a wildcard, the default deployment, the
    default fallback), the team and web-search filters ([router_utils/common_utils.py]),
    the cooldowns, the callbacks, the pre-call checks, the tags, and the strategy.  The
    state is the router's [Cooldown.t]; what does not change during a call is [config].
    A strategy is seen through its interface [picker], whose law [LawfulPicker] the
    least-busy, lowest-usage and shuffle strategies satisfy. *)

From stdpp Require Import base gmap sets list strings.
From Stdlib Require Import Ascii ZArith QArith Lia.
From S2P Require Import Prelude Heapq PyHeapq PyStr InMemoryCache RedisCache DualCache RouterIndex Masker RetryPolicy Cooldown PatternRouter Strategy LeastBusy LowestTpm FallbackSelect Shuffle TagRouting PreCall.

#[local] Open Scope Z_scope.

Module Routing.
Import PreCall.
#[local] Abbreviation dict := (list (string * pyval)).

(** ** Values *)

(** The dict a deployment is. *)
Definition dep_val (d : RouterIndex.deployment) : pyval :=
  PDict [("model_name", PStr (RouterIndex.model_name d)); ("litellm_params", RouterIndex.litellm_params d);
         ("model_info", PDict (RouterIndex.model_info d))].

(** [Union[List, Dict]]: a specific deployment, or several. *)
Inductive candidates : Type := One (d : pyval) | Many (ds : list pyval).

(** [[x for x in l if f(x)]]. *)
Fixpoint res_filter {A} (f : A → res bool) (l : list A) : res (list A) :=
  match l with
  | [] => Ok []
  | x :: l' => b ← f x; rest ← res_filter f l'; Ok (if b : bool then x :: rest else rest)
  end.

(** [v in s] for a set of values. *)
Definition in_set (v : pyval) (s : list pyval) : res bool :=
  if hashable v then Ok (existsb (py_eqb v) s) else Raise TypeError.

(** ** [router_utils/common_utils.py] *)

(** [metadata.get("user_api_key_team_id") or litellm_metadata.get("user_api_key_team_id")]. *)
Definition request_team_id (kw : dict) : res pyval :=
  let metadata := py_or (default PNone (dget "metadata" kw)) (PDict []) in
  let litellm_metadata := py_or (default PNone (dget "litellm_metadata" kw)) (PDict []) in
  team ← py_get metadata "user_api_key_team_id";
  if truthy team then Ok team else py_get litellm_metadata "user_api_key_team_id".

(** The ids of the deployments of other teams. *)
Fixpoint ids_to_remove (team : pyval) (healthy_deployments : list pyval) : res (list pyval) :=
  match healthy_deployments with
  | [] => Ok []
  | deployment :: rest =>
      info ← py_get deployment "model_info";
      model_team_id ← py_get (py_or info (PDict [])) "team_id";
      id ← py_get (py_or info (PDict [])) "id";
      if is_none model_team_id || py_eqb model_team_id team then ids_to_remove team rest
      else if hashable id then ids ← ids_to_remove team rest; Ok (id :: ids)
      else Raise TypeError
  end.

Definition filter_team_based_models (healthy_deployments : candidates) (request_kwargs : option dict) : res candidates :=
  match request_kwargs with
  | None => Ok healthy_deployments
  | Some kw =>
      team ← request_team_id kw;
      match healthy_deployments with
      | One d => Ok (One d)
      | Many ds =>
          ids ← ids_to_remove team ds;
          kept ← res_filter (λ d, info ← py_get_or d "model_info" (PDict []);
                                  id ← py_get info "id";
                                  removed ← in_set id ids; Ok (negb removed)) ds;
          Ok (Many kept)
      end
  end.

Definition _deployment_supports_web_search (deployment : pyval) : res pyval :=
  info ← py_get_or deployment "model_info" (PDict []);
  match info with
  | PDict i => Ok (default (PBool true) (dget "supports_web_search" i))
  | _ => Raise TypeError
  end.

(** The loop over the tools stops at the first web-search tool. *)
Fixpoint any_web_search (tools : list pyval) : res bool :=
  match tools with
  | [] => Ok false
  | tool :: rest =>
      ty ← py_get tool "type";
      if py_eqb ty (PStr "web_search") || py_eqb ty (PStr "web_search_preview") then Ok true
      else any_web_search rest
  end.

Definition is_web_search_request (kw : dict) : res bool :=
  match py_or (default PNone (dget "tools" kw)) (PList []) with
  | PList tools | PTuple tools => any_web_search tools
  | _ => Raise TypeError
  end.

Definition filter_web_search_deployments (healthy_deployments : candidates) (request_kwargs : option dict)
    : res candidates :=
  match request_kwargs, healthy_deployments with
  | Some kw, Many ds =>
      web ← is_web_search_request kw;
      if web : bool
      then kept ← res_filter (λ d, v ← _deployment_supports_web_search d; Ok (truthy v)) ds; Ok (Many kept)
      else Ok (Many ds)
  | _, _ => Ok healthy_deployments
  end.

(** ** Other filters of [router.py] *)

Definition _filter_cooldown_deployments (healthy_deployments : list pyval) (cooldown_deployments : list string)
    : res (list pyval) :=
  res_filter (λ d, id ← dep_id d; Ok (negb (bool_decide (id ∈ cooldown_deployments)))) healthy_deployments.

Definition use_in_pass_through (deployment : pyval) : res bool :=
  params ← py_get_or deployment "litellm_params" (PDict []);
  v ← py_get_or params "use_in_pass_through" (PBool false);
  Ok (truthy v).

Definition _filter_pass_through_deployments (healthy_deployments : list pyval) : res (list pyval) :=
  res_filter use_in_pass_through healthy_deployments.

Definition _get_metadata_variable_name_from_kwargs (kwargs : dict) : string :=
  if dmem "litellm_metadata" kwargs then "litellm_metadata" else "metadata".

(** ** [str.format] with one argument *)

Inductive numbering : Type := NoFields | Automatic (used : nat) | Manual.

Definition special_field (a : ascii) : bool :=
  Ascii.eqb a "." || Ascii.eqb a "[" || Ascii.eqb a "!" || Ascii.eqb a ":".

Section format.
(** A replacement field with an attribute, an index, a conversion or a specification. *)
Variable format_field : string → string → res string.
Variable arg : string.

Definition replacement (num : numbering) (field : string) : res (string * numbering) :=
  if existsb special_field (String.list_ascii_of_string field) then v ← format_field field arg; Ok (v, num)
  else if String.eqb field "" then
    match num with
    | NoFields => Ok (arg, Automatic 1)
    | Automatic _ => Raise IndexError
    | Manual => Raise ValueError
    end
  else
    if forallb is_digit (String.list_ascii_of_string field) then
      match num with
      | Automatic _ => Raise ValueError
      | _ => if forallb (Ascii.eqb "0") (String.list_ascii_of_string field) then Ok (arg, Manual) else Raise IndexError
      end
    else Raise KeyError.

(** [field] is the text of the open replacement field, if one is open. *)
Fixpoint format_loop (s : string) (field : option string) (num : numbering) : res string :=
  match s, field with
  | EmptyString, None => Ok ""
  | EmptyString, Some _ => Raise ValueError
  | String "{" (String "{" s'), None => rest ← format_loop s' None num; Ok (String "{" rest)
  | String "{" s', None => format_loop s' (Some "") num
  | String "}" (String "}" s'), None => rest ← format_loop s' None num; Ok (String "}" rest)
  | String "}" _, None => Raise ValueError
  | String a s', None => rest ← format_loop s' None num; Ok (String a rest)
  | String "{" _, Some _ => Raise ValueError
  | String "}" s', Some f =>
      '(v, num') ← replacement num f;
      rest ← format_loop s' None num';
      Ok (v +:+ rest)
  | String a s', Some f => format_loop s' (Some (f +:+ String a "")) num
  end.

Definition str_format (s : string) : res string := format_loop s None NoFields.
End format.

(** ** Strategies, seen from the router *)

(** What a pick may use besides its arguments: the time, its minute, random draws and
    the size of the input. *)
Record moment := mkMoment {
  now : Z;
  minute : string;
  pick : nat;
  draw : Q;
  input_tokens : Z
}.

Definition pick_fn (R : Type) : Type := moment → string → list pyval → M (DualCache.t R) (option pyval).

Record picker (R : Type) := mkPicker { sync_pick : pick_fn R; async_pick : pick_fn R }.
Arguments mkPicker {R}. Arguments sync_pick {R}. Arguments async_pick {R}.

(** A pick is one of the deployments offered. *)
Definition picks_offered {R} (f : pick_fn R) : Prop :=
  ∀ at_ group healthy c d c', f at_ group healthy c = (Ok (Some d), c') → d ∈ healthy.

Class LawfulPicker {R} (p : picker R) : Prop := {
  sync_offered : picks_offered (sync_pick p);
  async_offered : picks_offered (async_pick p)
}.

Section strategies.
Context `{PyRuntime} {R : Type} `{RedisCacheI R}.

(** The handlers keep the router's cache; the fields a pick does not use are those of
    a new handler. *)
Definition least_busy : picker R :=
  mkPicker
    (λ a g hs c, match LeastBusy.get_available_deployments (now a) (pick a) g hs (LeastBusy.init c) with
                 | (r, h) => (Some <$> r, LeastBusy.router_cache h) end)
    (λ a g hs c, match LeastBusy.async_get_available_deployments (now a) (pick a) g hs (LeastBusy.init c) with
                 | (r, h) => (Some <$> r, LeastBusy.router_cache h) end).

Definition lowest_tpm : pick_fn R := λ a g hs c,
  match LowestTpm.get_available_deployments (now a) (minute a) g hs (input_tokens a) (LowestTpm.init c None) with
  | (r, h) => (r, LowestTpm.router_cache h)
  end.
End strategies.

(** ** The router *)

(** A hook of an auto router or complexity router: the model and messages to use. *)
Definition routing_hook : Type := string → option dict → pyval → res (option (string * pyval)).

Record config (R : Type) := mkConfig {
  pattern_router : PatternRouter.t;
  team_pattern_routers : list (string * PatternRouter.t);
  default_deployment : option dict;
  fallbacks : option (list pyval);
  enable_pre_call_checks : bool;
  enable_tag_filtering : pyval;
  tag_filtering_match_any : bool;
  routing_strategy : string;
  leastbusy_logger : option (picker R);
  lowesttpm_logger : option (pick_fn R);
  lowesttpm_logger_v2 : option (picker R);
  lowestcost_logger : option (picker R);
  lowestlatency_logger : option (picker R);
  auto_routers : list (string * routing_hook);
  complexity_routers : list (string * routing_hook);
  (* module settings *)
  model_alias_map : list (string * string);
  redact_user_api_key_info : bool;
  (* [async_filter_deployments] of the registered callbacks *)
  callbacks : list (string → list pyval → pyval → option dict → M (DualCache.t R) (list pyval));
  (* [Deployment( **model ).model_dump(exclude_none=True)] *)
  model_dump : RouterIndex.deployment → res dict;
  (* the fields of [str.format] that are not plain names *)
  format_field : string → string → res string;
  (* the provider of a model, when there is one *)
  provider_of : string → option string;
  checks_env : env
}.
Arguments pattern_router {R}. Arguments team_pattern_routers {R}. Arguments default_deployment {R}.
Arguments fallbacks {R}. Arguments enable_pre_call_checks {R}. Arguments enable_tag_filtering {R}.
Arguments tag_filtering_match_any {R}. Arguments routing_strategy {R}. Arguments leastbusy_logger {R}.
Arguments lowesttpm_logger {R}. Arguments lowesttpm_logger_v2 {R}. Arguments lowestcost_logger {R}.
Arguments lowestlatency_logger {R}. Arguments auto_routers {R}. Arguments complexity_routers {R}.
Arguments model_alias_map {R}. Arguments redact_user_api_key_info {R}. Arguments callbacks {R}.
Arguments model_dump {R}. Arguments format_field {R}. Arguments provider_of {R}. Arguments checks_env {R}.

Section router.
Context `{PyRuntime} {R : Type} `{RedisCacheI R}.
Variable cfg : config R.

Definition on_cache {A} (m : RM (DualCache.t R) A) : RM (Cooldown.t R) A :=
  r_zoom Cooldown.cache Cooldown.set_cache_field m.
Definition at_index {A} (f : RouterIndex.t → res A) : RM (Cooldown.t R) A := λ r, (r_of (f (Cooldown.index r)), r).

(** [m["litellm_params"]["model"] == model]. *)
Definition _get_deployment_by_litellm_model (model : string) (s : RouterIndex.t) : res (list RouterIndex.deployment) :=
  res_filter (λ d, m ← py_index (RouterIndex.litellm_params d) "model"; Ok (py_eqb m (PStr model)))
    (RouterIndex.model_list s).

(** The wildcard deployments of a model: those of the router, then those of the team. *)
Definition team_patterns (team : pyval) (model : string) : res (list RouterIndex.deployment) :=
  match team with
  | PStr tm => match dget tm (team_pattern_routers cfg) with
               | Some r => Ok (PatternRouter.get_deployments_by_pattern (provider_of cfg) model None r)
               | None => Ok []
               end
  | _ => if hashable team then Ok [] else Raise TypeError
  end.

Definition pattern_deployments (team : pyval) (model : string) : res (list RouterIndex.deployment) :=
  match PatternRouter.get_deployments_by_pattern (provider_of cfg) model None (pattern_router cfg) with
  | [] => if is_none team then Ok [] else team_patterns team model
  | ds => Ok ds
  end.

(** A copy of the default deployment with the model of the request. *)
Definition updated_default (model : string) (d : dict) : res pyval :=
  match dget "litellm_params" d with
  | Some (PDict p) => Ok (PDict (dset "litellm_params" (PDict (dset "model" (PStr model) p)) d))
  | Some _ => Raise AttributeError
  | None => Raise KeyError
  end.

(** A model name no group has: wildcards, then the default deployment. *)
Definition unknown_name (team : pyval) (model : string) : res (option candidates) :=
  ds ← pattern_deployments team model;
  match ds, default_deployment cfg with
  | [], Some d => v ← updated_default model d; Ok (Some (One v))
  | [], None => Ok None
  | ds, _ => Ok (Some (Many (dep_val <$> ds)))
  end.

(** The group of a model, or the deployments with that model in their parameters. *)
Definition group_or_litellm_model (model : string) (s : RouterIndex.t) : res (list RouterIndex.deployment) :=
  ds ← RouterIndex._get_all_deployments model None None s;
  match ds with [] => _get_deployment_by_litellm_model model s | _ => Ok ds end.

(** The default fallback of a model without deployments. *)
Definition default_fallback_group (model : string) (s : RouterIndex.t) : res (string * list RouterIndex.deployment) :=
  match (if FallbackSelect._has_default_fallbacks (fallbacks cfg)
         then FallbackSelect._get_first_default_fallback (default [] (fallbacks cfg)) else None) with
  | Some (PStr f) =>
      if String.eqb f "" then Ok (model, [])
      else ds ← RouterIndex._get_all_deployments f None None s; Ok (f, ds)
  | Some v => if truthy v then Raise TypeError else Ok (model, [])
  | None => Ok (model, [])
  end.

Definition no_healthy_message (model : string) : string :=
  "You passed in model=" +:+ model +:+ ". There are no healthy deployments for this model".

(** [get_model_list] always returns a list, so the other message is never used.  The
    message, which holds the model name, is a format string. *)
Definition no_candidates (model : string) : RM (Cooldown.t R) (list RouterIndex.deployment) :=
  at_index (RouterIndex.get_model_list (λ q, default [] (PatternRouter.route (Some q) None (pattern_router cfg)))
              (λ tm q, match dget tm (team_pattern_routers cfg) with
                       | Some r => default [] (PatternRouter.route (Some q) None r) | None => [] end)
              (Some model) None) ;;
  message ← r_res (str_format (format_field cfg) model (no_healthy_message model));
  r_raise (BadRequestError message model).

Definition actual_model (model : string) : string := default model (dget model (model_alias_map cfg)).

(** [getattr(deployment.litellm_params, "model")] of the dumped deployment. *)
Definition dumped_model (d : dict) : res string :=
  params ← py_index (PDict d) "litellm_params";
  m ← py_index params "model";
  match m with PStr s => Ok s | _ => Raise TypeError end.

Definition _common_checks_available_deployment (model : string) (specific_deployment : bool)
    (request_kwargs : option dict) : RM (Cooldown.t R) (string * candidates) :=
  team ← r_res (match request_kwargs with Some kw => request_team_id kw | None => Ok PNone end);
  r ← r_get;
  let s := Cooldown.index r in
  if specific_deployment then
    ds ← r_res (_get_deployment_by_litellm_model model s); mret (model, Many (dep_val <$> ds))
  else if RouterIndex.has_model_id model s then
    found ← r_res (RouterIndex.get_deployment model s);
    match found with
    | Some d => v ← r_res (model_dump cfg d); m ← r_res (dumped_model v); mret (m, One (PDict v))
    | None => r_raise (Py ValueError)
    end
  else
    alias ← r_res (RouterIndex._get_model_from_alias s model);
    let model := default model alias in
    known ← r_res (if bool_decide (model ∈ RouterIndex.model_names s) then Ok None else unknown_name team model);
    match known with
    | Some c => mret (model, c)
    | None =>
        ds ← r_res (group_or_litellm_model model s);
        '(model, ds) ← match ds with
                       | [] => r_res (default_fallback_group model s)
                       | _ => mret (model, ds)
                       end;
        ds ← match ds with [] => no_candidates model | _ => mret ds end;
        mret (actual_model model, Many (dep_val <$> ds))
    end.

(** ** The filters of a request *)

Definition async_raise_no_deployment_exception (time : Z) (model : string) : RM (Cooldown.t R) rexn :=
  model_ids ← at_index (RouterIndex.get_model_ids (Some model) false);
  _cooldown_time ← r_lift (Cooldown.get_min_cooldown time model_ids);
  _cooldown_list ← r_lift (Cooldown._async_get_cooldown_deployments_with_debug_info time);
  mret (RouterRateLimitError model _cooldown_time (enable_pre_call_checks cfg) (_cooldown_list.*1)).

(** The same error on the synchronous path. *)
Definition raise_rate_limit {A} (time : Z) (model : string) : RM (Cooldown.t R) A :=
  model_ids ← at_index (RouterIndex.get_model_ids (Some model) false);
  _cooldown_time ← r_lift (Cooldown.get_min_cooldown time model_ids);
  _cooldown_list ← r_lift (Cooldown._get_cooldown_deployments time);
  r_raise (RouterRateLimitError model _cooldown_time (enable_pre_call_checks cfg) _cooldown_list).

Fixpoint run_callbacks (cbs : list (string → list pyval → pyval → option dict → M (DualCache.t R) (list pyval)))
    (model : string) (ds : list pyval) (messages : pyval) (kw : option dict) : M (DualCache.t R) (list pyval) :=
  match cbs with
  | [] => mret ds
  | cb :: rest => ds' ← cb model ds messages kw; run_callbacks rest model ds' messages kw
  end.

Definition async_callback_filter_deployments (model : string) (ds : list pyval) (messages : pyval) (kw : option dict)
    : RM (Cooldown.t R) (list pyval) :=
  on_cache (r_lift (run_callbacks (callbacks cfg) model ds messages kw)).

(** [if self.enable_pre_call_checks and messages is not None: ...]. *)
Definition pre_call (a : moment) (model : string) (ds : list pyval) (messages : pyval) (kw : option dict)
    : RM (Cooldown.t R) (list pyval) :=
  if enable_pre_call_checks cfg && negb (is_none messages) then
    on_cache (_pre_call_checks (checks_env cfg) (pattern_router cfg) (routing_strategy cfg) (now a) (minute a) model ds
                messages kw)
  else mret ds.

Definition async_get_healthy_deployments (a : moment) (model : string) (kw : dict) (messages : pyval)
    (specific_deployment : bool) : RM (Cooldown.t R) candidates :=
  '(model, cs) ← _common_checks_available_deployment model specific_deployment (Some kw);
  cs ← r_res (filter_team_based_models cs (Some kw));
  cs ← r_res (filter_web_search_deployments cs (Some kw));
  match cs with
  | One d => mret (One d)
  | Many ds =>
      cooldown_deployments ← r_lift (Cooldown._async_get_cooldown_deployments (now a));
      ds ← r_res (_filter_cooldown_deployments ds cooldown_deployments);
      ds ← async_callback_filter_deployments model ds messages (Some kw);
      ds ← pre_call a model ds messages (Some kw);
      tagged ← r_res (TagRouting.get_deployments_for_tag (enable_tag_filtering cfg) (tag_filtering_match_any cfg)
                        (Some ds) (Some kw) (_get_metadata_variable_name_from_kwargs kw));
      match default [] tagged with
      | [] => e ← async_raise_no_deployment_exception (now a) model; r_raise e
      | ds => mret (Many ds)
      end
  end.

(** ** The pick *)

Definition is_strategy (name : string) : bool := String.eqb (routing_strategy cfg) name.

(** The handler of the strategy is set. *)
Definition handler_of {A} (name : string) (logger : option A) : option A := if is_strategy name then logger else None.

Definition run_pick (f : pick_fn R) (a : moment) (model : string) (ds : list pyval) : RM (Cooldown.t R) (option pyval) :=
  on_cache (r_lift (f a model ds)).

(** What is returned after a pick: the deployment is logged; none is an error. *)
Definition logged (d : pyval) : RM (Cooldown.t R) pyval :=
  r_res (Shuffle.print_deployment (redact_user_api_key_info cfg) d) ;; mret d.

Definition async_selected (a : moment) (model : string) (o : option pyval) : RM (Cooldown.t R) pyval :=
  match o with
  | Some d => logged d
  | None => e ← async_raise_no_deployment_exception (now a) model; r_raise e
  end.

Definition sync_selected (a : moment) (model : string) (o : option pyval) : RM (Cooldown.t R) pyval :=
  match o with Some d => logged d | None => raise_rate_limit (now a) model end.

(** The dispatch of the asynchronous paths; the pass-through path has no
    [cost-based-routing]. *)
Definition async_pick_by_strategy (with_cost : bool) (a : moment) (model : string) (ds : list pyval)
    : RM (Cooldown.t R) pyval :=
  match handler_of "usage-based-routing-v2" (lowesttpm_logger_v2 cfg), handler_of "cost-based-routing" (lowestcost_logger cfg),
        handler_of "latency-based-routing" (lowestlatency_logger cfg) with
  | Some p, _, _ => o ← run_pick (async_pick p) a model ds; async_selected a model o
  | None, cost, latency =>
      match (if with_cost then cost else None), latency with
      | Some p, _ | None, Some p => o ← run_pick (async_pick p) a model ds; async_selected a model o
      | None, None =>
          if is_strategy "simple-shuffle" then r_res (Shuffle.simple_shuffle (redact_user_api_key_info cfg) ds (draw a) (pick a))
          else
            o ← match handler_of "least-busy" (leastbusy_logger cfg) with
                | Some p => run_pick (async_pick p) a model ds
                | None => mret None
                end;
            async_selected a model o
      end
  end.

(** The dispatch of the synchronous paths. *)
Definition sync_pick_by_strategy (a : moment) (model : string) (ds : list pyval) : RM (Cooldown.t R) pyval :=
  match handler_of "least-busy" (leastbusy_logger cfg) with
  | Some p => o ← run_pick (sync_pick p) a model ds; sync_selected a model o
  | None =>
      if is_strategy "simple-shuffle" then r_res (Shuffle.simple_shuffle (redact_user_api_key_info cfg) ds (draw a) (pick a))
      else
        o ← match handler_of "latency-based-routing" (lowestlatency_logger cfg), handler_of "usage-based-routing" (lowesttpm_logger cfg),
                  handler_of "usage-based-routing-v2" (lowesttpm_logger_v2 cfg) with
            | Some p, _, _ => run_pick (sync_pick p) a model ds
            | None, Some f, _ => run_pick f a model ds
            | None, None, Some p => run_pick (sync_pick p) a model ds
            | None, None, None => mret None
            end;
        sync_selected a model o
  end.

(** ** The four entry points *)

(** The filters of the synchronous paths: cooldowns and pre-call checks only. *)
Definition sync_filters (a : moment) (model : string) (ds : list pyval) (messages : pyval) (kw : option dict)
    : RM (Cooldown.t R) (list pyval) :=
  cooldown_deployments ← r_lift (Cooldown._get_cooldown_deployments (now a));
  ds ← r_res (_filter_cooldown_deployments ds cooldown_deployments);
  ds ← pre_call a model ds messages kw;
  match ds with [] => raise_rate_limit (now a) model | _ => mret ds end.

Definition get_available_deployment (a : moment) (model : string) (messages : pyval) (specific_deployment : bool)
    (request_kwargs : option dict) : RM (Cooldown.t R) pyval :=
  '(model, cs) ← _common_checks_available_deployment model specific_deployment None;
  match cs with
  | One d => mret d
  | Many ds =>
      ds ← sync_filters a model ds messages request_kwargs;
      sync_pick_by_strategy a model ds
  end.

(** A specific deployment has to allow pass-through. *)
Definition one_pass_through (model : string) (d : pyval) : RM (Cooldown.t R) pyval :=
  params ← r_res (py_get_or d "litellm_params" (PDict []));
  v ← r_res (py_get params "use_in_pass_through");
  if truthy v then mret d
  else
    info ← r_res (py_get_or d "model_info" (PDict []));
    id ← r_res (py_get info "id");
    r_raise (BadRequestError ("Deployment " +:+ py_str id
      +:+ " does not support pass-through endpoint (use_in_pass_through=False)") model).

Definition no_pass_through (text : string) (model : string) : rexn :=
  BadRequestError ("Model " +:+ model +:+ text) model.

Definition get_available_deployment_for_pass_through (a : moment) (model : string) (messages : pyval)
    (specific_deployment : bool) (request_kwargs : option dict) : RM (Cooldown.t R) pyval :=
  '(model, cs) ← _common_checks_available_deployment model specific_deployment None;
  match cs with
  | One d => one_pass_through model d
  | Many ds =>
      ds ← r_res (_filter_pass_through_deployments ds);
      match ds with
      | [] => r_raise (no_pass_through (" has no deployment configured with use_in_pass_through=True. " +:+
                "Please add use_in_pass_through: true in the deployment configuration") model)
      | _ => ds ← sync_filters a model ds messages request_kwargs; sync_pick_by_strategy a model ds
      end
  end.

Definition async_pre_routing_hook (model : string) (kw : dict) (messages : pyval)
    : res (option (string * pyval)) :=
  match dget model (auto_routers cfg), dget model (complexity_routers cfg) with
  | Some hook, _ | None, Some hook => hook model (Some kw) messages
  | None, None => Ok None
  end.

Definition async_strategies : list string :=
  ["usage-based-routing-v2"; "simple-shuffle"; "cost-based-routing"; "latency-based-routing"; "least-busy"].

Definition async_get_available_deployment (a : moment) (model : string) (kw : dict) (messages : pyval)
    (specific_deployment : bool) : RM (Cooldown.t R) pyval :=
  if negb (bool_decide (routing_strategy cfg ∈ async_strategies))
  then get_available_deployment a model messages specific_deployment (Some kw)
  else
    hook ← r_res (async_pre_routing_hook model kw messages);
    let '(model, messages) := default (model, messages) hook in
    cs ← async_get_healthy_deployments a model kw messages specific_deployment;
    match cs with
    | One d => mret d
    | Many ds =>
        match truthy (default PNone (dget "_encrypted_content_affinity_pinned" kw)), ds with
        | true, [d] => mret d
        | _, _ => async_pick_by_strategy true a model ds
        end
    end.

Definition async_get_available_deployment_for_pass_through (a : moment) (model : string) (kw : dict) (messages : pyval)
    (specific_deployment : bool) : RM (Cooldown.t R) pyval :=
  hook ← r_res (async_pre_routing_hook model kw messages);
  let '(model, messages) := default (model, messages) hook in
  cs ← async_get_healthy_deployments a model kw messages specific_deployment;
  match cs with
  | One d => one_pass_through model d
  | Many ds =>
      ds ← r_res (_filter_pass_through_deployments ds);
      match ds with
      | [] => r_raise (no_pass_through (" has no deployments configured with use_in_pass_through=True. " +:+
                "Please add use_in_pass_through: true to the deployment configuration") model)
      | _ => async_pick_by_strategy false a model ds
      end
  end.
End router.

(** ** The strategies keep the law *)

Lemma random_choice_sub {A} pick (l : list A) x : random_choice pick l = Ok x → x ∈ l.
Proof.
  intros E. assert (l ≠ []) as Hl by (by intros ->). destruct (random_choice_in pick l Hl) as (y & Ey & Hy). congruence.
Qed.

Lemma least_busy_pick_sub pick healthy counts d : LeastBusy.pick_deployment pick healthy counts = Ok d → d ∈ healthy.
Proof.
  unfold LeastBusy.pick_deployment. destruct (LeastBusy.min_loop counts None) as [[[id v]|]|]; cbn [mbind res_bind];
    [|apply random_choice_sub|done].
  destruct (LeastBusy.find_dep healthy id) as [[m|]|] eqn:Ef; cbn [mbind res_bind]; [|apply random_choice_sub|done].
  intros [= <-]. by apply LeastBusy.find_dep_in in Ef as [? _].
Qed.

Lemma find_last_sub healthy id acc m : LowestTpm.find_last healthy id acc = Ok (Some m) → m ∈ healthy ∨ acc = Some m.
Proof.
  revert acc. induction healthy as [|x hs IH]; intros acc; cbn [LowestTpm.find_last]; [intros [= ->]; by right|].
  destruct (dep_id x) as [k|]; [|done]. cbn [mbind res_bind]. intros [?|Hm]%IH; [left; set_solver|].
  destruct (String.eqb id k); [injection Hm as ->; left; set_solver|by right].
Qed.

Lemma select_loop_sub healthy rpm n counts best x m :
  LowestTpm.select_loop healthy rpm n counts best = Ok (Some (x, m)) → m ∈ healthy ∨ ∃ y, best = Some (y, m).
Proof.
  revert best. induction counts as [|[id v] counts IH]; intros best; cbn [LowestTpm.select_loop];
    [intros [= ->]; eauto|].
  destruct (LowestTpm.find_last healthy id None) as [[m0|]|] eqn:Ef; cbn [mbind res_bind]; [|apply IH|done].
  destruct (LowestTpm.within_limits _ _ _ _ _) as [[]|]; cbn [mbind res_bind]; [|apply IH|done].
  destruct (match best with Some _ => _ | None => _ end) as [[]|]; cbn [mbind res_bind]; [|apply IH|done].
  intros [?|[y Hy]]%IH; [by left|]. injection Hy as _ ->. left. by apply find_last_sub in Ef as [?|?].
Qed.

Section laws.
Context `{PyRuntime} {R : Type} `{RedisCacheI R}.

Lemma least_busy_run getter pick key healthy (h : LeastBusy.t R) d h' :
  (c ← LeastBusy.on_cache (get_counts getter); LeastBusy._get_available_deployments pick healthy key c) h = (Ok d, h') →
  d ∈ healthy.
Proof.
  unfold LeastBusy._get_available_deployments, mbind, M_bind, m_lift.
  destruct (LeastBusy.on_cache _ h) as [[c|] h1]; [|done].
  destruct (fill_zeros healthy c) as [counts|]; [|done].
  destruct (LeastBusy.on_cache _ h1) as [[[]|] h2]; [|done].
  destruct (LeastBusy.pick_deployment pick healthy counts) as [d'|] eqn:Ep; [|done].
  intros [= <- _]. by eapply least_busy_pick_sub.
Qed.

#[export] Instance least_busy_lawful : LawfulPicker (least_busy (R := R)).
Proof.
  split; intros a g hs c d c'; cbn.
  - destruct (LeastBusy.get_available_deployments _ _ _ _ _) as [[x|] h] eqn:Er; cbn; [|done].
    intros [= <- _]. by eapply least_busy_run.
  - destruct (LeastBusy.async_get_available_deployments _ _ _ _ _) as [[x|] h] eqn:Er; cbn; [|done].
    intros [= <- _]. by eapply least_busy_run.
Qed.

Lemma lowest_tpm_offered : picks_offered (lowest_tpm (R := R)).
Proof.
  intros a g hs c d c'. unfold lowest_tpm.
  destruct (LowestTpm.get_available_deployments _ _ _ _ _ _) as [r h] eqn:Er. intros [= -> _].
  unfold LowestTpm.get_available_deployments in Er.
  apply m_bind_ok in Er as (tpm & h1 & _ & Er). apply m_bind_ok in Er as (rpm & h2 & _ & Er).
  apply m_bind_ok in Er as (rd & h3 & _ & Er). apply m_bind_ok in Er as (counts & h4 & _ & Er).
  apply m_bind_ok in Er as ([] & h5 & _ & Er). apply m_bind_ok in Er as (best & h6 & Es & [= Hb _]).
  unfold m_lift in Es. injection Es as Es _. destruct best as [[x m]|]; [|done]. injection Hb as ->.
  by apply select_loop_sub in Es as [?|[??]].
Qed.
End laws.

Lemma shuffle_offered `{PyRuntime} redact ds u pick d : Shuffle.simple_shuffle redact ds u pick = Ok d → d ∈ ds.
Proof.
  unfold Shuffle.simple_shuffle. generalize ["weight"; "rpm"; "tpm"] as keys.
  induction keys as [|k keys IH]; cbn [Shuffle.shuffle_by]; [apply random_choice_sub|].
  destruct ds as [|d0 ds0]; [done|]. cbn [mbind res_bind].
  destruct (py_get d0 _) as [ps|]; [|done]. cbn [mbind res_bind].
  destruct (py_get ps k) as [w|]; [|done]. cbn [mbind res_bind]. destruct (is_none w); [apply IH|].
  unfold Shuffle.weighted_pick. destruct (Shuffle.res_map _ _) as [ws|]; [|done]. cbn [mbind res_bind].
  destruct (Shuffle.py_sum _ _) as [tot|]; [|done]. cbn [mbind res_bind].
  destruct (Shuffle.res_map _ _) as [qs|]; [|done]. cbn [mbind res_bind].
  destruct (Shuffle.choices _ _) as [i|]; [|done]. cbn [mbind res_bind].
  destruct (_ !! i) as [x|] eqn:Ex; [|done]. destruct (Shuffle.print_deployment _ _); cbn [mbind res_bind]; [|done]. intros [= <-]. by eapply list_elem_of_lookup_2.
Qed.

(** ** Filters *)

Lemma res_filter_ok {A} (f : A → res bool) l l' :
  res_filter f l = Ok l' → ∀ x, x ∈ l' → x ∈ l ∧ f x = Ok true.
Proof.
  revert l'. induction l as [|y l IH]; intros l'; cbn [res_filter]; [intros [= <-] x Hx; by apply not_elem_of_nil in Hx|].
  destruct (f y) as [b|] eqn:Ef; [|done]. cbn [mbind res_bind].
  destruct (res_filter f l) as [rest|]; [|done]. cbn [mbind res_bind]. intros [= <-] x Hx.
  destruct b; [apply elem_of_cons in Hx as [->|Hx]; [split; [set_solver|done]|]|];
    destruct (IH rest eq_refl x Hx); split; [set_solver|done|set_solver|done].
Qed.

Lemma res_filter_total {A} (f : A → res bool) (g : A → bool) l :
  (∀ x, x ∈ l → f x = Ok (g x)) → res_filter f l = Ok (filter (λ x, g x = true) l).
Proof.
  induction l as [|y l IH]; intros Hf; [done|]. cbn [res_filter]. rewrite (Hf y) by set_solver. cbn [mbind res_bind].
  rewrite IH by (intros; apply Hf; set_solver). cbn [mbind res_bind]. rewrite filter_cons.
  destruct (g y); [by rewrite decide_True|by rewrite decide_False].
Qed.

(** The team a deployment belongs to. *)
Definition team_of (d : pyval) : res pyval :=
  info ← py_get d "model_info"; py_get (py_or info (PDict [])) "team_id".

Lemma ids_to_remove_in team ds ids d tm id :
  ids_to_remove team ds = Ok ids → d ∈ ds → team_of d = Ok tm → is_none tm || py_eqb tm team = false →
  dep_id d = Ok id → PStr id ∈ ids.
Proof.
  revert ids. induction ds as [|d0 ds IH]; intros ids; cbn [ids_to_remove]; [by intros _ ?%not_elem_of_nil|].
  intros Hr Hd Ht Hne Hid. destruct (py_get d0 "model_info") as [info|] eqn:Ei; [|done]. cbn [mbind res_bind] in Hr.
  destruct (py_get (py_or info (PDict [])) "team_id") as [tm0|] eqn:Et; [|done]. cbn [mbind res_bind] in Hr.
  destruct (py_get (py_or info (PDict [])) "id") as [id0|] eqn:Eid; [|done]. cbn [mbind res_bind] in Hr.
  apply elem_of_cons in Hd as [->|Hd].
  - unfold team_of in Ht. rewrite Ei in Ht. cbn [mbind res_bind] in Ht. assert (tm0 = tm) as -> by congruence.
    rewrite Hne in Hr. assert (id0 = PStr id) as ->.
    { unfold dep_id in Hid. destruct d0 as [| | | | | | | |m|]; try done. cbn [py_get py_index] in *.
      destruct (dget "model_info" m) as [i|]; [|done]. cbn in Ei. injection Ei as <-. cbn [mbind res_bind] in Hid.
      destruct i as [| | | | | | | |i|]; try done. cbn [py_index] in Hid.
      destruct (dget "id" i) as [x|] eqn:Ex; [|done]. cbn [mbind res_bind] in Hid.
      unfold py_or in Eid. destruct i; [done|]. cbn [truthy py_get] in Eid. rewrite Ex in Eid. cbn in Eid.
      injection Eid as <-. destruct x; try done. cbn in Hid. congruence. }
    cbn [hashable] in Hr. destruct (ids_to_remove team ds) as [l|]; [|done]. cbn [mbind res_bind] in Hr.
    injection Hr as <-. set_solver.
  - destruct (is_none tm0 || py_eqb tm0 team); [by eapply IH|].
    destruct (hashable id0); [|done]. destruct (ids_to_remove team ds) as [l|] eqn:El; [|done]. cbn [mbind res_bind] in Hr.
    injection Hr as <-. specialize (IH l eq_refl Hd Ht Hne Hid). set_solver.
Qed.

Lemma dep_id_get d id :
  dep_id d = Ok id → ∃ m i, d = PDict m ∧ dget "model_info" m = Some (PDict i) ∧ dget "id" i = Some (PStr id).
Proof.
  unfold dep_id. destruct d as [| | | | | | | |m|]; try done. cbn [py_index].
  destruct (dget "model_info" m) as [i|] eqn:Em; [|done]. cbn [mbind res_bind].
  destruct i as [| | | | | | | |i|]; try done. cbn [py_index].
  destruct (dget "id" i) as [x|] eqn:Ex; [|done]. cbn [mbind res_bind].
  destruct x; try done. intros [= ->]. eauto.
Qed.

(** The team filter leaves no deployment of another team. *)
Lemma team_filter_ok ds kw team ds' :
  filter_team_based_models (Many ds) (Some kw) = Ok ds' → request_team_id kw = Ok team →
  ∃ l, ds' = Many l ∧ ∀ d id, d ∈ l → dep_id d = Ok id →
    d ∈ ds ∧ ∀ tm, team_of d = Ok tm → is_none tm || py_eqb tm team = true.
Proof.
  unfold filter_team_based_models. intros Hf Ht. rewrite Ht in Hf. cbn [mbind res_bind] in Hf.
  destruct (ids_to_remove team ds) as [ids|] eqn:Ei; [|done]. cbn [mbind res_bind] in Hf.
  destruct (res_filter _ ds) as [l|] eqn:El; [|done]. cbn [mbind res_bind] in Hf. injection Hf as <-.
  exists l. split; [done|]. intros d id Hd Hid. destruct (res_filter_ok _ _ _ El d Hd) as [Hds Hk].
  split; [done|]. intros tm Htm. destruct (is_none tm || py_eqb tm team) eqn:Eb; [done|]. exfalso.
  pose proof (ids_to_remove_in _ _ _ _ _ _ Ei Hds Htm Eb Hid) as Hin.
  destruct (dep_id_get _ _ Hid) as (m & i & -> & Em & Ex). cbn [py_get_or] in Hk. rewrite Em in Hk.
  cbn [default from_option mbind res_bind py_get] in Hk. unfold Datatypes.id in Hk. cbn [py_get mbind res_bind] in Hk. rewrite Ex in Hk.
  cbn in Hk. unfold in_set in Hk. cbn [hashable] in Hk. injection Hk as Hk. apply negb_true_iff in Hk.
  assert (existsb (py_eqb (PStr id)) ids = true) as Hx; [|cbn in Hx, Hk; congruence].
  apply existsb_exists. exists (PStr id). split; [by apply list_elem_of_In|]. apply String.eqb_refl.
Qed.

Lemma web_filter_ok ds kw ds' :
  filter_web_search_deployments (Many ds) (Some kw) = Ok ds' →
  ∃ l, ds' = Many l ∧ ∀ d, d ∈ l → d ∈ ds ∧
    (is_web_search_request kw = Ok true → ∃ v, _deployment_supports_web_search d = Ok v ∧ truthy v = true).
Proof.
  unfold filter_web_search_deployments. destruct (is_web_search_request kw) as [[]|] eqn:Ew; cbn [mbind res_bind];
    [|intros [= <-]; exists ds; split; [done|]; intros d Hd; by split|done].
  destruct (res_filter _ ds) as [l|] eqn:El; [|done]. cbn [mbind res_bind]. intros [= <-]. exists l. split; [done|].
  intros d Hd. destruct (res_filter_ok _ _ _ El d Hd) as [Hds Hk]. split; [done|]. intros _.
  destruct (_deployment_supports_web_search d) as [v|]; [|done]. cbn in Hk. exists v. split; [done|congruence].
Qed.

Lemma cooldown_filter_ok ds cooling l :
  _filter_cooldown_deployments ds cooling = Ok l →
  ∀ d, d ∈ l → d ∈ ds ∧ ∃ id, dep_id d = Ok id ∧ id ∉ cooling.
Proof.
  intros Hf d Hd. destruct (res_filter_ok _ _ _ Hf d Hd) as [Hds Hk]. split; [done|].
  destruct (dep_id d) as [id|]; [|done]. cbn in Hk. exists id. split; [done|].
  injection Hk as Hk. by apply negb_true_iff, bool_decide_eq_false in Hk.
Qed.

(** ** The chosen deployment *)

(** Methods that leave the router as it is. *)
Definition reads {S A} (m : RM S A) : Prop := ∀ s, (m s).2 = s.

Lemma reads_bind {S A B} (m : RM S A) (f : A → RM S B) : reads m → (∀ a, reads (f a)) → reads (m ≫= f).
Proof.
  intros Hm Hf s. unfold mbind, RM_bind. specialize (Hm s). destruct (m s) as [[a|] s1]; cbn in *; subst; [apply Hf|done].
Qed.

(** [reads] of a body made of reading steps. *)
Ltac reads_tac :=
  repeat first
    [ apply reads_bind; [|intros ?]
    | progress intros
    | match goal with |- reads (match ?x with _ => _ end) => destruct x end
    | (intros ?s; reflexivity) ].

Section selection.
Context `{PyRuntime} {R : Type} `{RedisCacheI R}.
Variable cfg : config R.
Implicit Types r : Cooldown.t R.

Lemma common_checks_reads model specific kw : reads (_common_checks_available_deployment cfg model specific kw).
Proof. unfold _common_checks_available_deployment, no_candidates. reads_tac. Qed.

(** The handlers pick among what they are offered, and callbacks only remove. *)
Record lawful_config : Prop := {
  lc_leastbusy p : leastbusy_logger cfg = Some p → LawfulPicker p;
  lc_tpm_v2 p : lowesttpm_logger_v2 cfg = Some p → LawfulPicker p;
  lc_cost p : lowestcost_logger cfg = Some p → LawfulPicker p;
  lc_latency p : lowestlatency_logger cfg = Some p → LawfulPicker p;
  lc_tpm f : lowesttpm_logger cfg = Some f → picks_offered f;
  lc_callbacks : Forall (λ cb, ∀ m ds msgs kw c ds' c',
    cb m ds msgs kw c = (Ok ds', c') → ∀ d, d ∈ ds' → d ∈ ds) (callbacks cfg)
}.

Lemma run_pick_offered f a model ds r d r' :
  picks_offered f → run_pick f a model ds r = (ROk (Some d), r') → d ∈ ds.
Proof. intros Hf (c & Hp & _)%r_zoom_ok. apply r_lift_ok in Hp. by eapply Hf. Qed.

Lemma logged_ok d r x r' : logged cfg d r = (ROk x, r') → x = d.
Proof. unfold logged. intros (y & r1 & _ & Hd)%r_bind_ok. by injection Hd. Qed.

Lemma async_selected_ok a model o r d r' : async_selected cfg a model o r = (ROk d, r') → o = Some d.
Proof.
  destruct o as [x|]; cbn [async_selected]; [by intros ->%logged_ok|]. by intros (e & r1 & _ & He)%r_bind_ok.
Qed.

Lemma sync_selected_ok a model o r d r' : sync_selected cfg a model o r = (ROk d, r') → o = Some d.
Proof.
  destruct o as [x|]; cbn [sync_selected]; [by intros ->%logged_ok|]. unfold raise_rate_limit.
  intros (? & ? & _ & Hr)%r_bind_ok. apply r_bind_ok in Hr as (? & ? & _ & Hr). by apply r_bind_ok in Hr as (? & ? & _ & Hr).
Qed.

(** A pick through a lawful handler. *)
Lemma async_picked p a model ds r d r' :
  LawfulPicker p → (o ← run_pick (async_pick p) a model ds; async_selected cfg a model o) r = (ROk d, r') → d ∈ ds.
Proof.
  intros Hp (o & r1 & Ho & Hs)%r_bind_ok. apply async_selected_ok in Hs as ->.
  eapply run_pick_offered; [|exact Ho]. apply Hp.
Qed.

Lemma async_pick_offered with_cost a model ds r d r' :
  lawful_config → async_pick_by_strategy cfg with_cost a model ds r = (ROk d, r') → d ∈ ds.
Proof.
  intros Hl. unfold async_pick_by_strategy, handler_of.
  destruct (if is_strategy cfg "usage-based-routing-v2" then _ else _) as [p|] eqn:E1.
  { destruct (is_strategy _ _); [|done]. eapply async_picked, lc_tpm_v2; done. }
  destruct (if with_cost then _ else _) as [p|] eqn:E2.
  { destruct with_cost; [|discriminate E2]. destruct (is_strategy cfg "cost-based-routing"); [|discriminate E2].
    eapply async_picked, lc_cost; done. }
  destruct (if is_strategy cfg "latency-based-routing" then _ else _) as [p|] eqn:E3.
  { destruct (is_strategy _ "latency-based-routing"); [|done]. eapply async_picked, lc_latency; done. }
  destruct (is_strategy cfg "simple-shuffle"); [intros [Hs _]%r_res_ok; by eapply shuffle_offered|].
  destruct (if is_strategy cfg "least-busy" then _ else _) as [p|] eqn:E4.
  { destruct (is_strategy _ "least-busy"); [|done]. eapply async_picked, lc_leastbusy; done. }
  intros (o & r1 & Ho & Hs)%r_bind_ok. apply async_selected_ok in Hs as ->. by injection Ho.
Qed.

Lemma callbacks_sub model ds msgs kw r ds' r' :
  lawful_config → async_callback_filter_deployments cfg model ds msgs kw r = (ROk ds', r') → ∀ d, d ∈ ds' → d ∈ ds.
Proof.
  intros Hl (c & Hr & _)%r_zoom_ok. apply r_lift_ok in Hr. revert Hr. generalize (Cooldown.cache r) as c0.
  revert ds. induction (lc_callbacks Hl) as [|cb cbs Hcb _ IH]; intros ds c0; cbn [run_callbacks].
  { by intros [= <- _]. }
  intros (ds1 & c1 & H1 & H2)%m_bind_ok d Hd. eapply Hcb; [exact H1|]. by eapply IH.
Qed.

Lemma pre_call_step_sub a model ds msgs kw r ds' r' :
  pre_call cfg a model ds msgs kw r = (ROk ds', r') → ∀ d, d ∈ ds' → d ∈ ds.
Proof.
  unfold pre_call. destruct (_ && _); [|by intros [= <- _]]. intros (c & Hr & _)%r_zoom_ok. by eapply pre_call_sub.
Qed.

(** What a deployment chosen for a request satisfies: it belongs to no other team,
    supports web search if the request needs it, and is not cooling down. *)
Record eligible (time : Z) (kw : dict) r (d : pyval) : Prop := {
  el_team team tm : request_team_id kw = Ok team → team_of d = Ok tm → is_none tm || py_eqb tm team = true;
  el_web : is_web_search_request kw = Ok true → ∃ v, _deployment_supports_web_search d = Ok v ∧ truthy v = true;
  el_cool : ∃ id, dep_id d = Ok id ∧
    (id ∈ dkeys (RouterIndex.model_id_to_deployment_index_map (Cooldown.index r)) → Cooldown.cooling time id r = false)
}.

Lemma healthy_eligible a model kw msgs specific r model' ds cs r' :
  lawful_config → RouterIndex.wf (Cooldown.index r) → DualCache.redis_cache (Cooldown.cache r) = None →
  (_common_checks_available_deployment cfg model specific (Some kw) r).1 = ROk (model', Many ds) →
  async_get_healthy_deployments cfg a model kw msgs specific r = (ROk cs, r') →
  ∃ l, cs = Many l ∧ l ≠ [] ∧ ∀ d, d ∈ l → d ∈ ds ∧ eligible (now a) kw r d.
Proof.
  intros Hl Hw Hr Hc Hrun. unfold async_get_healthy_deployments in Hrun.
  apply r_bind_ok in Hrun as ([m1 cs1] & r1 & H1 & Hrun).
  pose proof (common_checks_reads model specific (Some kw) r) as Hsame. rewrite H1 in Hc, Hsame. cbn in Hc, Hsame.
  injection Hc as -> ->. subst r1.
  apply r_bind_ok in Hrun as (cs2 & r1 & [H2 ->]%r_res_ok & Hrun).
  apply r_bind_ok in Hrun as (cs3 & r1 & [H3 ->]%r_res_ok & Hrun).
  assert (∃ team, request_team_id kw = Ok team) as [team Ht].
  { unfold filter_team_based_models in H2. destruct (request_team_id kw); [eauto|done]. }
  destruct (team_filter_ok _ _ _ _ H2 Ht) as (l2 & -> & Hl2).
  destruct (web_filter_ok _ _ _ H3) as (l3 & -> & Hl3).
  apply r_bind_ok in Hrun as (cooling & r1 & H4%r_lift_ok & Hrun).
  apply r_bind_ok in Hrun as (l4 & r2 & [H5 ->]%r_res_ok & Hrun).
  apply r_bind_ok in Hrun as (l5 & r2 & H6 & Hrun).
  apply r_bind_ok in Hrun as (l6 & r3 & H7 & Hrun).
  apply r_bind_ok in Hrun as (tagged & r4 & [H8 ->]%r_res_ok & Hrun).
  destruct (Cooldown.cooldown_deployments_listed (now a) r Hw Hr) as [_ Hcl]. rewrite H4 in Hcl. cbn in Hcl.
  injection Hcl as ->.
  assert (∀ d, d ∈ default [] tagged → d ∈ ds ∧ eligible (now a) kw r d) as Hall.
  { intros d Hd. eapply TagRouting.deployments_for_tag_sub in Hd; [|exact H8].
    eapply pre_call_step_sub in Hd; [|exact H7]. eapply callbacks_sub in Hd; [|done|exact H6].
    destruct (cooldown_filter_ok _ _ _ H5 d Hd) as (Hd3 & id & Hid & Hni).
    destruct (Hl3 d Hd3) as [Hd2 Hweb]. destruct (Hl2 d id Hd2 Hid) as [Hd1 Hteam]. split; [done|]. split.
    - intros team' tm Ht' Htm. assert (team' = team) as -> by congruence. by apply Hteam.
    - done.
    - exists id. split; [done|]. intros Hin. destruct (Cooldown.cooling (now a) id r) eqn:Ec; [|done]. exfalso.
      apply Hni, list_elem_of_filter. done. }
  destruct (default [] tagged) as [|x xs].
  { by apply r_bind_ok in Hrun as (e & r5 & _ & He). }
  injection Hrun as <- _. by exists (x :: xs).
Qed.

(** C3: On a router without Redis whose strategy is one of the asynchronous ones
    (usage-based v2, simple-shuffle, cost-based, latency-based or least-busy), whose
    handlers pick among what they are offered and whose callbacks only remove
    deployments, for a request that no pre-routing hook rewrites and whose model name
    stands for a list of candidates (a deployment id instead selects its deployment
    unchecked): the deployment chosen is one of the candidates, does not belong to
    another team, supports web search if the request uses it, and is not cooling down,
    with pre-call checks and tags in force or not. *)
Theorem selected_deployment_eligible a model kw msgs specific r model' ds d r'
    (Hl : lawful_config) (Hw : RouterIndex.wf (Cooldown.index r))
    (Hredis : DualCache.redis_cache (Cooldown.cache r) = None)
    (Hs : routing_strategy cfg ∈ async_strategies)
    (Hhook : async_pre_routing_hook cfg model kw msgs = Ok None)
    (Hc : (_common_checks_available_deployment cfg model specific (Some kw) r).1 = ROk (model', Many ds))
    (Hrun : async_get_available_deployment cfg a model kw msgs specific r = (ROk d, r')) :
  d ∈ ds ∧ eligible (now a) kw r d.
Proof.
  unfold async_get_available_deployment in Hrun. rewrite bool_decide_true in Hrun by done. cbn [negb] in Hrun.
  apply r_bind_ok in Hrun as (hook & r1 & [Eh ->]%r_res_ok & Hrun). rewrite Hhook in Eh. injection Eh as <-.
  cbn [default from_option] in Hrun. unfold id in Hrun.
  apply r_bind_ok in Hrun as (cs & r1 & H1 & Hrun).
  destruct (healthy_eligible _ _ _ _ _ _ _ _ _ _ Hl Hw Hredis Hc H1) as (l & -> & _ & Hall). apply Hall.
  assert (async_pick_by_strategy cfg true a model l r1 = (ROk d, r') → d ∈ l) as Hpick by (by apply async_pick_offered).
  destruct (truthy _); [|by apply Hpick]. destruct l as [|x [|y l]]; [by apply Hpick| |by apply Hpick].
  injection Hrun as -> _. set_solver.
Qed.
End selection.

(** ** A group with an eligible deployment is served *)

Lemma res_filter_fmap {A B} (f : B → res bool) (h : A → B) (g : A → bool) l :
  (∀ x, x ∈ l → f (h x) = Ok (g x)) → res_filter f (h <$> l) = Ok (h <$> filter (λ x, g x = true) l).
Proof.
  induction l as [|y l IH]; intros Hf; [done|]. rewrite fmap_cons. cbn [res_filter].
  rewrite (Hf y) by set_solver. cbn [mbind res_bind].
  rewrite IH by (intros; apply Hf; set_solver). cbn [mbind res_bind]. rewrite filter_cons.
  destruct (g y); [by rewrite decide_True|by rewrite decide_False].
Qed.

Lemma dep_val_info d : py_get (dep_val d) "model_info" = Ok (PDict (RouterIndex.model_info d)).
Proof. reflexivity. Qed.
Lemma dep_val_info_or d v : py_get_or (dep_val d) "model_info" v = Ok (PDict (RouterIndex.model_info d)).
Proof. reflexivity. Qed.
Lemma or_empty_dict i : py_or (PDict i) (PDict []) = PDict i.
Proof. by destruct i. Qed.

Lemma d_id_dget d id : RouterIndex.d_id d = Some id → dget "id" (RouterIndex.model_info d) = Some (PStr id).
Proof. unfold RouterIndex.d_id. destruct (dget _ _) as [[]|]; try done. by intros [= ->]. Qed.

Lemma dep_val_id d id : RouterIndex.d_id d = Some id → dep_id (dep_val d) = Ok id.
Proof. intros Hid%d_id_dget. unfold dep_id. cbn. by rewrite Hid. Qed.

(** The deployment is of the team of the request, or of none. *)
Definition team_ok (team : pyval) (d : RouterIndex.deployment) : bool :=
  let tm := default PNone (dget "team_id" (RouterIndex.model_info d)) in is_none tm || py_eqb tm team.
Definition web_ok (web : bool) (d : RouterIndex.deployment) : bool :=
  negb web || truthy (default (PBool true) (dget "supports_web_search" (RouterIndex.model_info d))).

Definition has_id (d : RouterIndex.deployment) : Prop := is_Some (RouterIndex.d_id d).
(** No two deployments of the list have the same id. *)
Definition ids_identify (ds : list RouterIndex.deployment) : Prop :=
  ∀ d d', d ∈ ds → d' ∈ ds → RouterIndex.d_id d = RouterIndex.d_id d' → d = d'.

Lemma ids_to_remove_typed team ds :
  Forall has_id ds →
  ids_to_remove team (dep_val <$> ds) = Ok (PStr <$> omap (λ d, if team_ok team d then None else RouterIndex.d_id d) ds).
Proof.
  induction 1 as [|d ds [id Hid] Hds IH]; [done|]. rewrite fmap_cons. cbn [ids_to_remove omap list_omap].
  rewrite dep_val_info. cbn [mbind res_bind]. rewrite or_empty_dict. cbn [py_get mbind res_bind].
  change (is_none (default PNone (dget "team_id" (RouterIndex.model_info d)))
          || py_eqb (default PNone (dget "team_id" (RouterIndex.model_info d))) team) with (team_ok team d).
  destruct (team_ok team d); [apply IH|]. rewrite (d_id_dget _ _ Hid), Hid. cbn [default from_option hashable].
  cbn. by rewrite IH.
Qed.

Lemma team_filter_typed kw team ds :
  Forall has_id ds → ids_identify ds → request_team_id kw = Ok team →
  filter_team_based_models (Many (dep_val <$> ds)) (Some kw)
  = Ok (Many (dep_val <$> filter (λ d, team_ok team d = true) ds)).
Proof.
  intros Hid Hu Ht. unfold filter_team_based_models. rewrite Ht. cbn [mbind res_bind].
  rewrite ids_to_remove_typed by done. cbn [mbind res_bind].
  rewrite (res_filter_fmap _ dep_val (team_ok team)); [done|]. intros d Hd.
  destruct (proj1 (Forall_forall _ _) Hid d Hd) as [id Ed].
  rewrite dep_val_info_or. cbn [mbind res_bind py_get]. rewrite (d_id_dget _ _ Ed). cbn [default from_option].
  unfold in_set. cbn. f_equal. rewrite <-(negb_involutive (team_ok team d)). f_equal.
  apply eq_bool_prop_intro. rewrite negb_True, !Is_true_true, existsb_exists. split.
  - intros (v & Hin%list_elem_of_In & Hv). apply list_elem_of_fmap in Hin as (id' & -> & Hin).
    apply String.eqb_eq in Hv as ->. apply list_elem_of_omap in Hin as (d' & Hd' & E').
    destruct (team_ok team d') eqn:Et; [done|]. assert (d = d') as -> by (apply Hu; congruence). congruence.
  - intros Hn. exists (PStr id). split; [|apply String.eqb_refl]. apply list_elem_of_In, list_elem_of_fmap.
    exists id. split; [done|]. apply list_elem_of_omap. exists d. split; [done|].
    destruct (team_ok team d); [done|exact Ed].
Qed.

Lemma web_filter_typed kw web ds :
  is_web_search_request kw = Ok web →
  filter_web_search_deployments (Many (dep_val <$> ds)) (Some kw)
  = Ok (Many (dep_val <$> filter (λ d, web_ok web d = true) ds)).
Proof.
  intros Hw. unfold filter_web_search_deployments. rewrite Hw. cbn [mbind res_bind]. destruct web.
  - rewrite (res_filter_fmap _ dep_val (web_ok true)); done.
  - f_equal. f_equal. f_equal. symmetry. by apply RouterIndex.filter_all.
Qed.

Section service.
Context `{PyRuntime} {R : Type} `{RedisCacheI R}.
Variable cfg : config R.
Implicit Types r : Cooldown.t R.

Definition group_of (model : string) r : list RouterIndex.deployment :=
  filter (λ d, RouterIndex.model_name d = model) (RouterIndex.model_list (Cooldown.index r)).

Definition cooling_dep (time : Z) r (d : RouterIndex.deployment) : bool :=
  match RouterIndex.d_id d with Some id => Cooldown.cooling time id r | None => false end.

(** The deployments of a group a request may use. *)
Definition serving (time : Z) (team : pyval) (web : bool) (model : string) r : list RouterIndex.deployment :=
  filter (λ d, negb (cooling_dep time r d) = true)
    (filter (λ d, web_ok web d = true) (filter (λ d, team_ok team d = true) (group_of model r))).

(** A request for a model group of a router without Redis, callbacks, pre-call checks
    and tag filtering. *)
Record plain_request (model : string) (kw : dict) (team : pyval) (web : bool) r : Prop := {
  pl_wf : RouterIndex.wf (Cooldown.index r);
  pl_redis : DualCache.redis_cache (Cooldown.cache r) = None;
  pl_callbacks : callbacks cfg = [];
  pl_checks : enable_pre_call_checks cfg = false;
  pl_tags : enable_tag_filtering cfg ≠ PBool true;
  pl_name : model ≠ "";
  pl_known : model ∈ RouterIndex.model_names (Cooldown.index r);
  pl_no_id : RouterIndex.has_model_id model (Cooldown.index r) = false;
  pl_no_alias : dget model (RouterIndex.model_group_alias (Cooldown.index r)) = None;
  pl_group : group_of model r ≠ [];
  pl_ids : Forall has_id (group_of model r);
  pl_team : request_team_id kw = Ok team;
  pl_web : is_web_search_request kw = Ok web
}.

Lemma group_ids_identify model r : RouterIndex.wf (Cooldown.index r) → Forall has_id (group_of model r) →
  ids_identify (group_of model r).
Proof.
  intros Hw Hid d d' Hd Hd' E. destruct (proj1 (Forall_forall _ _) Hid d Hd) as [id Ed].
  apply list_elem_of_filter in Hd as [_ Hd]. apply list_elem_of_filter in Hd' as [_ Hd'].
  apply list_elem_of_lookup in Hd as [i Hi]. apply list_elem_of_lookup in Hd' as [j Hj].
  assert (i = j) as -> by (eapply RouterIndex.wf_ids_unique; [done..|congruence]). congruence.
Qed.

Lemma common_checks_plain model kw team web r :
  plain_request model kw team web r →
  _common_checks_available_deployment cfg model false (Some kw) r
  = (ROk (actual_model cfg model, Many (dep_val <$> group_of model r)), r).
Proof.
  intros P. unfold _common_checks_available_deployment, mbind, RM_bind, r_res, r_get. rewrite (pl_team _ _ _ _ _ P).
  cbn [r_of]. rewrite (pl_no_id _ _ _ _ _ P). unfold RouterIndex._get_model_from_alias.
  rewrite (pl_no_alias _ _ _ _ _ P). cbn [r_of default from_option]. unfold id.
  rewrite bool_decide_true by apply (pl_known _ _ _ _ _ P). cbn [r_of]. unfold group_or_litellm_model.
  destruct (RouterIndex.wf_lookups_are_scans _ "" model (pl_wf _ _ _ _ _ P) (pl_name _ _ _ _ _ P)) as (_ & -> & _).
  fold (group_of model r). cbn [mbind res_bind]. pose proof (pl_group _ _ _ _ _ P) as Hg.
  destruct (group_of model r) as [|d ds]; [done|]. by cbn.
Qed.

(** Membership in the id index. *)
Lemma known_id s d id : RouterIndex.wf s → d ∈ RouterIndex.model_list s → RouterIndex.d_id d = Some id →
  id ∈ dkeys (RouterIndex.model_id_to_deployment_index_map s).
Proof.
  intros Hw [i Hi]%list_elem_of_lookup Hid.
  assert (dget id (RouterIndex.model_id_to_deployment_index_map s) = Some i) as Hg by (apply RouterIndex.wf_id; eauto).
  destruct (decide (id ∈ dkeys (RouterIndex.model_id_to_deployment_index_map s))) as [|Hn]; [done|].
  apply dget_None in Hn. congruence.
Qed.

Lemma cooldown_filter_typed time r ds :
  RouterIndex.wf (Cooldown.index r) → Forall has_id ds → (∀ d, d ∈ ds → d ∈ RouterIndex.model_list (Cooldown.index r)) →
  _filter_cooldown_deployments (dep_val <$> ds)
    (filter (λ id, Cooldown.cooling time id r = true)
       (dkeys (RouterIndex.model_id_to_deployment_index_map (Cooldown.index r))))
  = Ok (dep_val <$> filter (λ d, negb (cooling_dep time r d) = true) ds).
Proof.
  intros Hw Hids Hin. unfold _filter_cooldown_deployments.
  apply (res_filter_fmap _ dep_val (λ d, negb (cooling_dep time r d))).
  intros d Hd. destruct (proj1 (Forall_forall _ _) Hids d Hd) as [id Hid]. rewrite (dep_val_id _ _ Hid).
  cbn [mbind res_bind]. f_equal. f_equal. unfold cooling_dep. rewrite Hid.
  pose proof (known_id _ _ _ Hw (Hin d Hd) Hid) as Hk.
  destruct (Cooldown.cooling time id r) eqn:Ec.
  - apply bool_decide_eq_true, list_elem_of_filter. done.
  - apply bool_decide_eq_false. rewrite list_elem_of_filter. intros [? _]. congruence.
Qed.

Lemma tags_off enable match_any ds kw var :
  enable ≠ PBool true → TagRouting.get_deployments_for_tag enable match_any (Some ds) kw var = Ok (Some ds).
Proof. unfold TagRouting.get_deployments_for_tag. by destruct enable as [|[]| | | | | | | |]. Qed.

Lemma Forall_filter_sub {A} (P : A → Prop) (Q : A → Prop) `{∀ x, Decision (Q x)} l : Forall P l → Forall P (filter Q l).
Proof. rewrite !Forall_forall. intros Hl x [_ Hx]%list_elem_of_filter. by apply Hl. Qed.

(** The run up to the last step. *)
Lemma healthy_steps a model kw msgs team web r :
  plain_request model kw team web r →
  ∃ r', async_get_healthy_deployments cfg a model kw msgs false r =
    (match serving (now a) team web model r with
     | [] => e ← async_raise_no_deployment_exception cfg (now a) (actual_model cfg model); r_raise e
     | l => mret (Many (dep_val <$> l))
     end) r'.
Proof.
  intros P. pose proof (pl_wf _ _ _ _ _ P) as Hw. pose proof (pl_ids _ _ _ _ _ P) as Hid.
  unfold async_get_healthy_deployments, mbind, RM_bind. rewrite (common_checks_plain _ _ _ _ _ P).
  unfold r_res. rewrite (team_filter_typed kw team); [|done|by apply group_ids_identify|apply (pl_team _ _ _ _ _ P)].
  cbn [r_of]. rewrite (web_filter_typed kw web) by apply (pl_web _ _ _ _ _ P). cbn [r_of]. unfold r_lift.
  destruct (Cooldown.cooldown_deployments_listed (now a) r Hw (pl_redis _ _ _ _ _ P)) as [_ Hcl].
  destruct (Cooldown._async_get_cooldown_deployments (now a) r) as [l r1]. cbn [fst] in Hcl. subst l. cbn [r_of].
  rewrite cooldown_filter_typed; [|done|by do 2 apply Forall_filter_sub|].
  2: { intros d Hd. apply list_elem_of_filter in Hd as [_ Hd]. apply list_elem_of_filter in Hd as [_ Hd].
       by apply list_elem_of_filter in Hd as [_ Hd]. }
  cbn [r_of]. fold (serving (now a) team web model r).
  unfold async_callback_filter_deployments, pre_call. rewrite (pl_callbacks _ _ _ _ _ P), (pl_checks _ _ _ _ _ P).
  unfold on_cache, r_zoom, r_lift. cbn [run_callbacks mret M_ret RM_ret r_of andb].
  rewrite (tags_off _ _ _ _ _ (pl_tags _ _ _ _ _ P)). cbn [r_of default from_option]. unfold id.
  eexists. by destruct (serving (now a) team web model r).
Qed.

Lemma healthy_run a model kw msgs team web r :
  plain_request model kw team web r →
  match serving (now a) team web model r with
  | [] => ∃ e, (async_get_healthy_deployments cfg a model kw msgs false r).1 = RRaise e
  | l => ∃ r', async_get_healthy_deployments cfg a model kw msgs false r = (ROk (Many (dep_val <$> l)), r')
  end.
Proof.
  intros P. destruct (healthy_steps a model kw msgs team web r P) as [r' ->].
  destruct (serving _ _ _ _ _); [|by eexists]. unfold mbind, RM_bind.
  destruct (async_raise_no_deployment_exception _ _ _ _) as [[e|e] r2]; cbn; eauto.
Qed.

(** The healthy deployments of a model group are exactly its deployments that belong
    to the team of the request or to none, support web search if it is asked for, and
    are not cooling down; when there is none, the request fails. *)
Theorem healthy_deployments_exact a model kw msgs team web r (P : plain_request model kw team web r) :
  match serving (now a) team web model r with
  | [] => ∃ e, (async_get_healthy_deployments cfg a model kw msgs false r).1 = RRaise e
  | l => (async_get_healthy_deployments cfg a model kw msgs false r).1 = ROk (Many (dep_val <$> l))
  end.
Proof. pose proof (healthy_run a model kw msgs team web r P) as Hr. destruct (serving _ _ _ _ _); [done|]. by destruct Hr as [r' ->]. Qed.

(** The parameters of a deployment give the shuffle no weight. *)
Definition unweighted (d : RouterIndex.deployment) : Prop :=
  ∃ p, RouterIndex.litellm_params d = PDict p ∧ Shuffle.used_key ["weight"; "rpm"; "tpm"] [dep_val d] = None.

Lemma shuffle_unweighted redact ds u pick :
  ds ≠ [] → Forall unweighted ds → ∃ d, d ∈ ds ∧ Shuffle.simple_shuffle redact (dep_val <$> ds) u pick = Ok (dep_val d).
Proof.
  intros Hne Hu. destruct ds as [|d ds]; [done|]. apply Forall_cons in Hu as [(p & Hp & Hk) _].
  unfold Shuffle.simple_shuffle. rewrite fmap_cons, (Shuffle.shuffle_by_unused _ _ _ _ p).
  - rewrite <-fmap_cons. destruct (random_choice_in pick (dep_val <$> d :: ds)) as (x & -> & Hx); [done|].
    apply list_elem_of_fmap in Hx as (y & -> & Hy). eauto.
  - cbn. by rewrite Hp.
  - exact Hk.
Qed.

(** C4: With the default strategy simple-shuffle, on a router without Redis, callbacks,
    pre-call checks, tag filtering and a pre-routing hook for the request: a request for
    a known model group (neither an alias nor a deployment id) none of whose deployments
    sets weight, rpm or tpm, and that has a deployment the request may use, gets one of
    those, whatever the random draws and however many of the others are cooling down. *)
Theorem eligible_group_is_served a model kw msgs team web r (P : plain_request model kw team web r)
    (Hs : routing_strategy cfg = "simple-shuffle") (Hhook : async_pre_routing_hook cfg model kw msgs = Ok None)
    (Hne : serving (now a) team web model r ≠ []) (Hu : Forall unweighted (group_of model r)) :
  ∃ d, d ∈ serving (now a) team web model r ∧
    (async_get_available_deployment cfg a model kw msgs false r).1 = ROk (dep_val d).
Proof.
  pose proof (healthy_run a model kw msgs team web r P) as Hr.
  assert (∃ r', async_get_healthy_deployments cfg a model kw msgs false r =
            (ROk (Many (dep_val <$> serving (now a) team web model r)), r')) as [r' Er].
  { by destruct (serving _ _ _ _ _). }
  destruct (shuffle_unweighted (redact_user_api_key_info cfg) (serving (now a) team web model r) (draw a) (pick a) Hne) as (d & Hd & Ed).
  { unfold serving. by do 3 apply Forall_filter_sub. }
  assert (∃ d', d' ∈ serving (now a) team web model r ∧
    ((match truthy (default PNone (dget "_encrypted_content_affinity_pinned" kw)),
           dep_val <$> serving (now a) team web model r with
      | true, [x] => mret x
      | _, ds => async_pick_by_strategy cfg true a model ds
      end) r').1 = ROk (dep_val d')) as (d' & Hd' & E').
  { assert ((async_pick_by_strategy cfg true a model (dep_val <$> serving (now a) team web model r) r').1
            = ROk (dep_val d)) as Hp.
    { unfold async_pick_by_strategy, handler_of, is_strategy, r_res. rewrite Hs. simpl String.eqb. cbv beta iota. by rewrite Ed. }
    destruct (truthy _); [|eauto]. destruct (serving _ _ _ _ _) as [|x [|y l]]; [done| |eauto].
    exists x. split; [set_solver|done]. }
  exists d'. split; [done|]. unfold async_get_available_deployment.
  rewrite bool_decide_true by (rewrite Hs; set_solver). cbn [negb]. unfold mbind, RM_bind, r_res. rewrite Hhook.
  cbn [r_of default from_option]. unfold id. rewrite Er. rewrite <-E'. f_equal.
  destruct (truthy _); [|done]. by destruct (serving _ _ _ _ _) as [|? [|? ?]].
Qed.
End service.

(** ** Pass-through endpoints *)

Section pass_through.
Context `{PyRuntime} {R : Type} `{RedisCacheI R}.
Variable cfg : config R.
Implicit Types r : Cooldown.t R.

Lemma sync_picked f a model ds r d r' :
  picks_offered f → (o ← run_pick f a model ds; sync_selected cfg a model o) r = (ROk d, r') → d ∈ ds.
Proof.
  intros Hp (o & r1 & Ho & Hs)%r_bind_ok. apply sync_selected_ok in Hs as ->. by eapply run_pick_offered.
Qed.

Lemma sync_pick_offered a model ds r d r' :
  lawful_config cfg → sync_pick_by_strategy cfg a model ds r = (ROk d, r') → d ∈ ds.
Proof.
  intros Hl. unfold sync_pick_by_strategy, handler_of.
  destruct (if is_strategy cfg "least-busy" then _ else _) as [p|] eqn:E1.
  { destruct (is_strategy cfg "least-busy"); [|done]. eapply sync_picked, lc_leastbusy; done. }
  destruct (is_strategy cfg "simple-shuffle"); [intros [Hs _]%r_res_ok; by eapply shuffle_offered|].
  destruct (if is_strategy cfg "latency-based-routing" then _ else _) as [p|] eqn:E2.
  { destruct (is_strategy cfg "latency-based-routing"); [|done]. eapply sync_picked, lc_latency; done. }
  destruct (if is_strategy cfg "usage-based-routing" then _ else _) as [f|] eqn:E3.
  { destruct (is_strategy cfg "usage-based-routing"); [|done]. eapply sync_picked, lc_tpm; done. }
  destruct (if is_strategy cfg "usage-based-routing-v2" then _ else _) as [p|] eqn:E4.
  { destruct (is_strategy cfg "usage-based-routing-v2"); [|done]. eapply sync_picked, lc_tpm_v2; done. }
  intros (o & r1 & Ho & Hs)%r_bind_ok. apply sync_selected_ok in Hs as ->. by injection Ho.
Qed.

Lemma sync_filters_sub a model ds msgs kw r l r' :
  sync_filters cfg a model ds msgs kw r = (ROk l, r') → ∀ d, d ∈ l → d ∈ ds.
Proof.
  unfold sync_filters. intros (cd & r1 & _ & Hr)%r_bind_ok. apply r_bind_ok in Hr as (l1 & r2 & [H1 ->]%r_res_ok & Hr).
  apply r_bind_ok in Hr as (l2 & r3 & H2 & Hr). intros d Hd.
  assert (l = l2) as ->.
  { destruct l2; [|by injection Hr]. unfold raise_rate_limit in Hr.
    apply r_bind_ok in Hr as (? & ? & _ & Hr). apply r_bind_ok in Hr as (? & ? & _ & Hr).
    by apply r_bind_ok in Hr as (? & ? & _ & Hr). }
  eapply pre_call_step_sub in Hd; [|exact H2]. by apply (cooldown_filter_ok _ _ _ H1).
Qed.

Lemma one_pass_through_ok model d r x r' :
  one_pass_through model d r = (ROk x, r') → x = d ∧ use_in_pass_through d = Ok true.
Proof.
  unfold one_pass_through. intros (ps & r1 & [H1 ->]%r_res_ok & Hr)%r_bind_ok.
  apply r_bind_ok in Hr as (v & r2 & [H2 ->]%r_res_ok & Hr). destruct (truthy v) eqn:Ev.
  - injection Hr as -> _. split; [done|]. unfold use_in_pass_through. rewrite H1. cbn [mbind res_bind].
    destruct ps as [| | | | | | | |ps|]; try done. cbn [py_get py_get_or] in *.
    destruct (dget "use_in_pass_through" ps) as [w|]; injection H2 as <-; [|done].
    change (default (PBool false) (Some w)) with w. change (truthy w = true) in Ev. cbn [mbind res_bind]. by rewrite Ev.
  - apply r_bind_ok in Hr as (? & ? & _ & Hr). by apply r_bind_ok in Hr as (? & ? & _ & Hr).
Qed.

(** A pass-through request, on either path, only ever gets a deployment that is
    configured for pass-through. *)
Theorem pass_through_selected a model kw msgs specific r d r'
    (Hl : lawful_config cfg)
    (Hrun : async_get_available_deployment_for_pass_through cfg a model kw msgs specific r = (ROk d, r') ∨
            get_available_deployment_for_pass_through cfg a model msgs specific (Some kw) r = (ROk d, r')) :
  use_in_pass_through d = Ok true.
Proof.
  assert (∀ ds l x, _filter_pass_through_deployments ds = Ok l → x ∈ l → use_in_pass_through x = Ok true) as Hf.
  { intros ds l x Hl' Hx. by eapply res_filter_ok. }
  destruct Hrun as [Hrun|Hrun].
  - unfold async_get_available_deployment_for_pass_through in Hrun.
    apply r_bind_ok in Hrun as (hook & r1 & _ & Hrun). destruct (default (model, msgs) hook) as [m1 msgs1].
    apply r_bind_ok in Hrun as (cs & r2 & _ & Hrun). destruct cs as [x|ds].
    + by apply one_pass_through_ok in Hrun as [-> ?].
    + apply r_bind_ok in Hrun as (l & r3 & [H1 ->]%r_res_ok & Hrun). destruct l as [|x l]; [done|].
      eapply Hf; [exact H1|]. by eapply async_pick_offered.
  - unfold get_available_deployment_for_pass_through in Hrun.
    apply r_bind_ok in Hrun as ([m1 cs] & r2 & _ & Hrun). destruct cs as [x|ds].
    + by apply one_pass_through_ok in Hrun as [-> ?].
    + apply r_bind_ok in Hrun as (l & r3 & [H1 ->]%r_res_ok & Hrun). destruct l as [|x l]; [done|].
      apply r_bind_ok in Hrun as (l' & r4 & H2 & Hrun).
      eapply Hf; [exact H1|]. eapply sync_filters_sub; [exact H2|]. by eapply sync_pick_offered.
Qed.

(** ** Limits of the choice *)

(** The strategy with costs is not offered to pass-through requests: whatever healthy
    deployments there are, the request fails. *)
Theorem cost_based_pass_through_fails a model kw msgs specific r ds d r'
    (Hs : routing_strategy cfg = "cost-based-routing")
    (Hhook : async_pre_routing_hook cfg model kw msgs = Ok None)
    (Hh : (async_get_healthy_deployments cfg a model kw msgs specific r).1 = ROk (Many ds)) :
  async_get_available_deployment_for_pass_through cfg a model kw msgs specific r ≠ (ROk d, r').
Proof.
  unfold async_get_available_deployment_for_pass_through. intros (hook & r1 & [Eh ->]%r_res_ok & Hrun)%r_bind_ok.
  rewrite Hhook in Eh. injection Eh as <-. cbn [default from_option] in Hrun. unfold id in Hrun.
  apply r_bind_ok in Hrun as (cs & r2 & H1 & Hrun). rewrite H1 in Hh. cbn in Hh. injection Hh as ->.
  apply r_bind_ok in Hrun as (l & r3 & [H2 ->]%r_res_ok & Hrun). destruct l as [|x l]; [done|].
  unfold async_pick_by_strategy, handler_of, is_strategy in Hrun. rewrite Hs in Hrun.
  simpl String.eqb in Hrun. cbv beta iota in Hrun.
  apply r_bind_ok in Hrun as (o & r4 & Ho & Hrun). injection Ho as <- _. by apply async_selected_ok in Hrun.
Qed.

(** With a strategy that has no asynchronous picker, such as [usage-based-routing], the
    request's arguments play no role: neither its team nor its tools nor its tags. *)
Theorem usage_based_ignores_request a model kw kw' msgs specific r
    (Hs : routing_strategy cfg ∉ async_strategies) (Hc : enable_pre_call_checks cfg = false) :
  async_get_available_deployment cfg a model kw msgs specific r
  = async_get_available_deployment cfg a model kw' msgs specific r.
Proof.
  unfold async_get_available_deployment. rewrite bool_decide_false by done. cbn [negb].
  unfold get_available_deployment, sync_filters, pre_call. by rewrite Hc.
Qed.

(** A deployment asked for by its id is returned whoever asks, also while it is cooling
    down. *)
Theorem deployment_id_bypasses_filters a model kw msgs r d v team m
    (Hs : routing_strategy cfg ∈ async_strategies) (Hhook : async_pre_routing_hook cfg model kw msgs = Ok None)
    (Hid : RouterIndex.has_model_id model (Cooldown.index r) = true)
    (Hd : RouterIndex.get_deployment model (Cooldown.index r) = Ok (Some d))
    (Hv : model_dump cfg d = Ok v) (Hm : dumped_model v = Ok m) (Ht : request_team_id kw = Ok team) :
  async_get_available_deployment cfg a model kw msgs false r = (ROk (PDict v), r).
Proof.
  unfold async_get_available_deployment. rewrite bool_decide_true by done. cbn [negb].
  unfold mbind, RM_bind, r_res. rewrite Hhook. cbn [r_of default from_option]. unfold id.
  unfold async_get_healthy_deployments, _common_checks_available_deployment, mbind, RM_bind, r_res, r_get.
  rewrite Ht. cbn [r_of]. rewrite Hid, Hd. cbn [r_of]. rewrite Hv. cbn [r_of]. rewrite Hm. cbn [r_of mret RM_ret].
  unfold filter_team_based_models. rewrite Ht. by cbn.
Qed.
End pass_through.

(** ** Concrete runs *)

Module Sample.
#[local] Existing Instance toy_runtime.
#[local] Existing Instance RedisCache.toy_client.
#[local] Existing Instance RedisCache.RedisCache_instance.

#[local] Abbreviation redis := (RedisCache.t RedisCache.toy).

(** A group of three deployments: one of team [blue], one without web search and one
    that is cooling down. *)
Definition dep (id : string) (params info : dict) : RouterIndex.deployment :=
  RouterIndex.mkDep "gpt" (PDict (("model", PStr "openai/gpt-4o") :: params)) (("id", PStr id) :: info).
Definition blue : RouterIndex.deployment := dep "a" [] [("team_id", PStr "blue")].
Definition offline : RouterIndex.deployment := dep "b" [("use_in_pass_through", PBool true)] [("supports_web_search", PBool false)].
Definition hot : RouterIndex.deployment := dep "c" [] [].

Definition ex_index : RouterIndex.t :=
  (RouterIndex.add_deployment RouterIndex.accept hot
    (RouterIndex.add_deployment RouterIndex.accept offline
      (RouterIndex.add_deployment RouterIndex.accept blue (RouterIndex.empty [])).2).2).2.

Lemma ex_index_wf : RouterIndex.wf ex_index.
Proof.
  apply (RouterIndex.reachable_wf []). eapply rtc_l; [by apply (RouterIndex.step_add _ RouterIndex.accept blue "a")|].
  eapply rtc_l; [by apply (RouterIndex.step_add _ RouterIndex.accept offline "b")|].
  apply rtc_once. by apply (RouterIndex.step_add _ RouterIndex.accept hot "c").
Qed.

Definition ex_router : Cooldown.t redis :=
  (Cooldown.add_deployment_to_cooldown 0 "c" "litellm.RateLimitError" 429 None
     (Cooldown.mk (DualCache.init DualCache.default_settings None None None None None 1000)
        InMemoryCache.init_default ex_index (seconds 5) (Some 3) 3 None false [])).2.

Definition dump (d : RouterIndex.deployment) : res dict :=
  match dep_val d with PDict m => Ok m | _ => Raise TypeError end.

Definition ex_config (strategy : string) : config redis :=
  mkConfig redis PatternRouter.init [] None None false (PBool false) false strategy
    (Some least_busy) (Some lowest_tpm) None None None [] [] [] false [] dump (λ _ _, Raise ValueError)
    (λ _, None) PreCall.Sample.ex_env.

Lemma ex_lawful strategy : lawful_config (ex_config strategy).
Proof.
  split; cbn; try done; [intros p [= <-]; apply least_busy_lawful|intros f [= <-]; apply lowest_tpm_offered].
Qed.

Definition second : moment := mkMoment (seconds 1) "12-30" 7 (1 # 2) 10.

(** A request of team [red] with a web-search tool, and one without. *)
Definition red : dict := [("metadata", PDict [("user_api_key_team_id", PStr "red")])].
Definition red_search : dict := red ++ [("tools", PList [PDict [("type", PStr "web_search")]])].

Lemma ex_plain strategy (kw : dict) web :
  request_team_id kw = Ok (PStr "red") → is_web_search_request kw = Ok web →
  plain_request (ex_config strategy) "gpt" kw (PStr "red") web ex_router.
Proof.
  intros Ht Hw. split; try done; [exact ex_index_wf|set_solver|].
  repeat constructor; by eexists.
Qed.

Lemma selected_deployment_eligible_witness :
  eligible (seconds 1) red ex_router (dep_val offline).
Proof.
  apply (selected_deployment_eligible (ex_config "least-busy") second "gpt" red PNone false ex_router "gpt"
    (dep_val <$> [blue; offline; hot]) (dep_val offline)
    (async_get_available_deployment (ex_config "least-busy") second "gpt" red PNone false ex_router).2).
  - apply ex_lawful.
  - exact ex_index_wf.
  - reflexivity.
  - cbn. set_solver.
  - reflexivity.
  - vm_compute. reflexivity.
  - vm_compute. reflexivity.
Defined.

Lemma healthy_deployments_exact_witness :
  (async_get_healthy_deployments (ex_config "simple-shuffle") second "gpt" red PNone false ex_router).1
    = ROk (Many [dep_val offline]) ∧
  ∃ e, (async_get_healthy_deployments (ex_config "simple-shuffle") second "gpt" red_search PNone false ex_router).1
    = RRaise e.
Proof.
  split.
  - exact (healthy_deployments_exact (ex_config "simple-shuffle") second "gpt" red PNone (PStr "red") false ex_router
      (ex_plain "simple-shuffle" red false eq_refl eq_refl)).
  - exact (healthy_deployments_exact (ex_config "simple-shuffle") second "gpt" red_search PNone (PStr "red") true ex_router
      (ex_plain "simple-shuffle" red_search true eq_refl eq_refl)).
Defined.

Lemma eligible_group_is_served_witness :
  ∃ d, d ∈ [offline] ∧
    (async_get_available_deployment (ex_config "simple-shuffle") second "gpt" red PNone false ex_router).1 = ROk (dep_val d).
Proof.
  apply (eligible_group_is_served (ex_config "simple-shuffle") second "gpt" red PNone (PStr "red") false ex_router
    (ex_plain "simple-shuffle" red false eq_refl eq_refl)); try reflexivity.
  - vm_compute. discriminate.
  - repeat (constructor; [by eexists|]). constructor.
Defined.

Lemma pass_through_selected_witness : use_in_pass_through (dep_val offline) = Ok true.
Proof.
  apply (pass_through_selected (ex_config "simple-shuffle") second "gpt" red PNone false ex_router (dep_val offline)
    (async_get_available_deployment_for_pass_through (ex_config "simple-shuffle") second "gpt" red PNone false ex_router).2).
  - apply ex_lawful.
  - left. vm_compute. reflexivity.
Defined.

Lemma cost_based_pass_through_fails_witness d r' :
  async_get_available_deployment_for_pass_through (ex_config "cost-based-routing") second "gpt" red PNone false ex_router
  ≠ (ROk d, r').
Proof.
  apply (cost_based_pass_through_fails (ex_config "cost-based-routing") second "gpt" red PNone false ex_router
    [dep_val offline]); [reflexivity|reflexivity|vm_compute; reflexivity].
Defined.

(** With [usage-based-routing] the deployment of team [blue] is given to team [red]. *)
Lemma usage_based_ignores_request_witness :
  (async_get_available_deployment (ex_config "usage-based-routing") second "gpt" red PNone false ex_router).1
  = ROk (dep_val blue).
Proof.
  rewrite (usage_based_ignores_request (ex_config "usage-based-routing") second "gpt" red [] PNone false ex_router);
    [vm_compute; reflexivity|cbn; set_solver|reflexivity].
Defined.

(** So is it to whoever knows its id. *)
Lemma deployment_id_bypasses_filters_witness :
  (async_get_available_deployment (ex_config "simple-shuffle") second "a" red PNone false ex_router).1 = ROk (dep_val blue).
Proof.
  by rewrite (deployment_id_bypasses_filters (ex_config "simple-shuffle") second "a" red PNone ex_router blue
    [("model_name", PStr "gpt"); ("litellm_params", RouterIndex.litellm_params blue);
     ("model_info", PDict (RouterIndex.model_info blue))] (PStr "red") "openai/gpt-4o");
    [|cbn; set_solver|reflexivity..].
Defined.

(** When every deployment a request may use is cooling down, the error lists those in
    cooldown and the time to wait. *)
Theorem all_cooling_error :
  (async_get_available_deployment (ex_config "simple-shuffle") second "gpt" red_search PNone false ex_router).1
  = RRaise (RouterRateLimitError "gpt" (PFloat (5000000 # 1000000)) false ["c"]).
Proof. vm_compute. reflexivity. Qed.

(** The message for an unknown model is used as a format string: a name with braces
    raises another error than the one meant. *)
Theorem braces_in_model_name :
  (async_get_available_deployment (ex_config "simple-shuffle") second "claude" red PNone false ex_router).1
    = RRaise (BadRequestError "You passed in model=claude. There are no healthy deployments for this model" "claude") ∧
  (async_get_available_deployment (ex_config "simple-shuffle") second "{x}" red PNone false ex_router).1
    = RRaise (Py KeyError).
Proof. split; vm_compute; reflexivity. Qed.
End Sample.
End Routing.
