(* ===== verification/MockServer.v ===== *)
(** * MockServer: the supply gateway mock server

    [src/scripts/mock/supply_gateway_mock_server.py]: an HTTP server that stands in
    for the supply gateway.  The module-level dictionary [STATE] is the record
    [state]; the methods of [Handler] are functions in the monad [M state].  A
    response is a status and the JSON value of its body; a handler that raises sends
    none (the connection is closed) but keeps the changes it made to [STATE].  The
    request line reaches a handler as the origin-form target ["/path?query"]. *)

From stdpp Require Import base sets list strings.
From Stdlib Require Import ZArith QArith Lia Ascii.
From S2P Require Import Prelude PyStr.

#[local] Open Scope Z_scope.

Module MockServer.

(** ** [urllib.parse] *)

(** [_splitparams]: the path up to the first [;] of its last segment. *)
Fixpoint drop_params (s : string) : string :=
  match s with
  | EmptyString => ""
  | String a s' =>
      if Ascii.eqb a ";" && negb (str_contains "/" s') then "" else String a (drop_params s')
  end.

(** [urlparse(target).path] and [.query] of a target that starts with one slash. *)
Definition urlparse (target : string) : string * string :=
  let '(url, _) := split_once "#" target in
  let '(url, query) := split_once "?" url in
  (drop_params url, default "" query).

Definition hex_digit (a : ascii) : option Z :=
  let c := code a in
  if (48 <=? c) && (c <=? 57) then Some (c - 48)
  else if (65 <=? c) && (c <=? 70) then Some (c - 55)
  else if (97 <=? c) && (c <=? 102) then Some (c - 87)
  else None.

(** [unquote], byte by byte. *)
Fixpoint unquote (s : string) : string :=
  match s with
  | EmptyString => ""
  | String a s' =>
      match s' with
      | String h (String l s'') =>
          match hex_digit h, hex_digit l with
          | Some x, Some y =>
              if Ascii.eqb a "%" then String (ascii_of_nat (Z.to_nat (16 * x + y))) (unquote s'')
              else String a (unquote s')
          | _, _ => String a (unquote s')
          end
      | _ => String a (unquote s')
      end
  end.

Definition unquote_plus (s : string) : string := unquote (replace_char "+" " " s).

(** [parse_qs(query)]: fields without [=] or with an empty value are dropped, and
    repeated names collect their values. *)
Definition parse_qs (query : string) : list (string * list string) :=
  fold_left (λ d field,
    match split_once "=" field with
    | (name, Some value) =>
        if String.eqb value "" then d
        else let k := unquote_plus name in
             dset k (default [] (dget k d) ++ [unquote_plus value]) d
    | (_, None) => d
    end) (split_on "&" query) [].

(** ** State *)

Record state := mkState {
  next_account_id : Z;
  next_package_id : Z;
  next_settlement_id : Z;
  accounts : list (string * list (string * pyval));
  packages : list (string * list (string * pyval));
  settlements : list (string * list (string * pyval))
}.

(** [STATE] when the module is loaded. *)
Definition STATE0 : state := mkState 1000 2000 3000 [] [] [].

(** A request: target, the [Content-Length] header if there is one, and the bytes
    the client sends after the headers. *)
Record request := mkRequest {
  target : string;
  content_length : option string;
  body : string
}.

Record response := mkResponse { status : Z; payload : pyval }.

(** [int(s)] of a string. *)
Definition py_int (s : string) : res Z :=
  match int_of_str s with Some n => Ok n | None => Raise ValueError end.

(** [path.split("/")[5]]. *)
Definition segment5 (path : string) : res string :=
  match split_on "/" path !! 5%nat with Some s => Ok s | None => Raise IndexError end.

(** [len(v)]. *)
Definition py_len (v : pyval) : res Z :=
  match v with
  | PStr s => Ok (Z.of_nat (String.length s))
  | PTuple l | PList l | PSet l => Ok (Z.of_nat (length l))
  | PDict d => Ok (Z.of_nat (length d))
  | _ => Raise TypeError
  end.

Section Handler.
Context `{PyRuntime}.

Definition _read_json (r : request) : res pyval :=
  length ← py_int (default "0" (content_length r));
  if length <=? 0 then Ok (PDict [])
  else match json_loads (str_take (Z.to_nat length) (body r)) with
       | Some v => Ok v
       | None => Ok (PDict [])
       end.

Definition _write (st : Z) (p : pyval) : M state response := mret (mkResponse st p).

Definition _ok (p : pyval) : M state response :=
  _write 200 (PDict [("code", PInt 0); ("message", PStr "ok"); ("data", p)]).

Definition not_found : M state response :=
  _write 404 (PDict [("code", PInt 404); ("message", PStr "not found"); ("data", PNone)]).

(** [int(query.get(name, [dflt])[0])]. *)
Definition query_int (query : list (string * list string)) (name dflt : string) : res Z :=
  match default [dflt] (dget name query) with
  | s :: _ => py_int s
  | [] => Raise IndexError
  end.

Definition do_GET (r : request) : M state response :=
  let '(path, qs) := urlparse (target r) in
  let query := parse_qs qs in
  if startswith path "/api/v1/supply/accounts/" && endswith path "/audit-logs" then
    account_id ← m_lift (segment5 path);
    _ok (PDict [("items", PList [PDict [("request_id", PStr ("req-audit-" +:+ account_id));
                                        ("action", PStr "state_change");
                                        ("result", PStr "success")]]);
                ("page", PInt 1); ("page_size", PInt 20); ("total", PInt 1)])
  else if String.eqb path "/api/v1/supplier/billing" then
    page ← m_lift (query_int query "page" "1");
    page_size ← m_lift (query_int query "page_size" "20");
    _ok (PDict [("summary", PDict [("total_amount", PFloat (12345 # 100)); ("currency", PStr "USD")]);
                ("items", PList []); ("page", PInt page); ("page_size", PInt page_size);
                ("total", PInt 0)])
  else if startswith path "/api/v1/supply/settlements/" && endswith path "/statement" then
    settlement_id ← m_lift (segment5 path);
    n ← m_lift (py_int settlement_id);
    _ok (PDict [("settlement_id", PInt n);
                ("download_url",
                 PStr ("http://127.0.0.1:18080/mock/statement/" +:+ settlement_id +:+ ".csv"))])
  else if String.eqb path "/api/v1/supply/earnings/records" then
    page ← m_lift (query_int query "page" "1");
    page_size ← m_lift (query_int query "page_size" "20");
    _ok (PDict [("items", PList [PDict [("record_id", PInt 1); ("amount", PInt 10);
                                        ("currency_code", PStr "USD"); ("status", PStr "available")]]);
                ("page", PInt page); ("page_size", PInt page_size); ("total", PInt 1)])
  else if String.eqb path "/v1beta/models" then
    _write 403 (PDict [("code", PInt 403); ("message", PStr "query key rejected");
                       ("data", PDict [("reason", PStr "external_query_key_forbidden")])])
  else if String.eqb path "/actuator/health" then
    _write 200 (PDict [("status", PStr "UP")])
  else not_found.

(** [coll.setdefault(id, {})["status"] = st]. *)
Definition set_status (id : string) (st : string) (coll : list (string * list (string * pyval)))
  : list (string * list (string * pyval)) :=
  dset id (dset "status" (PStr st) (default [] (dget id coll))) coll.

Definition set_accounts f (s : state) : state :=
  mkState (next_account_id s) (next_package_id s) (next_settlement_id s)
          (f (accounts s)) (packages s) (settlements s).
Definition set_packages f (s : state) : state :=
  mkState (next_account_id s) (next_package_id s) (next_settlement_id s)
          (accounts s) (f (packages s)) (settlements s).
Definition set_settlements f (s : state) : state :=
  mkState (next_account_id s) (next_package_id s) (next_settlement_id s)
          (accounts s) (packages s) (f (settlements s)).

(** The three allocations: take the counter, advance it, enter a record with the
    initial status. *)
Definition new_account : M state response :=
  s0 ← m_get;
  let account_id := next_account_id s0 in
  m_modify (λ s, mkState (next_account_id s + 1) (next_package_id s) (next_settlement_id s)
                         (dset (str_of_Z account_id) [("status", PStr "pending")] (accounts s))
                         (packages s) (settlements s));;
  _ok (PDict [("account_id", PInt account_id); ("status", PStr "pending")]).

Definition new_package : M state response :=
  s0 ← m_get;
  let package_id := next_package_id s0 in
  m_modify (λ s, mkState (next_account_id s) (next_package_id s + 1) (next_settlement_id s)
                         (accounts s)
                         (dset (str_of_Z package_id) [("status", PStr "draft")] (packages s))
                         (settlements s));;
  _ok (PDict [("package_id", PInt package_id); ("status", PStr "draft")]).

Definition new_settlement : M state response :=
  s0 ← m_get;
  let settlement_id := next_settlement_id s0 in
  m_modify (λ s, mkState (next_account_id s) (next_package_id s) (next_settlement_id s + 1)
                         (accounts s) (packages s)
                         (dset (str_of_Z settlement_id) [("status", PStr "pending")] (settlements s)));;
  _ok (PDict [("settlement_id", PInt settlement_id); ("status", PStr "pending")]).

(** A status change: the record is written before the id is converted. *)
Definition change (path : string) (upd : (list (string * list (string * pyval)) → list (string * list (string * pyval))) → state → state)
    (id_key st : string) : M state response :=
  id ← m_lift (segment5 path);
  m_modify (upd (set_status id st));;
  n ← m_lift (py_int id);
  _ok (PDict [(id_key, PInt n); ("status", PStr st)]).

Definition do_POST (r : request) : M state response :=
  let path := (urlparse (target r)).1 in
  payload ← m_lift (_read_json r);
  if String.eqb path "/api/v1/supply/accounts/verify" then
    provider ← m_lift (py_get_or payload "provider" (PStr "openai"));
    _ok (PDict [("verify_status", PStr "pass"); ("risk_level", PStr "normal"); ("provider", provider)])
  else if String.eqb path "/api/v1/supply/accounts" then new_account
  else if startswith path "/api/v1/supply/accounts/" && endswith path "/activate" then
    change path set_accounts "account_id" "active"
  else if startswith path "/api/v1/supply/accounts/" && endswith path "/suspend" then
    change path set_accounts "account_id" "suspended"
  else if String.eqb path "/api/v1/supply/packages/draft" then new_package
  else if startswith path "/api/v1/supply/packages/" && endswith path "/publish" then
    change path set_packages "package_id" "active"
  else if startswith path "/api/v1/supply/packages/" && endswith path "/pause" then
    change path set_packages "package_id" "paused"
  else if startswith path "/api/v1/supply/packages/" && endswith path "/unlist" then
    change path set_packages "package_id" "expired"
  else if String.eqb path "/api/v1/supply/packages/batch-price" then
    items ← m_lift (py_get_or payload "items" (PList []));
    n ← m_lift (py_len items);
    _ok (PDict [("total", PInt n); ("success_count", PInt n); ("failed_count", PInt 0);
                ("failed_items", PList [])])
  else if startswith path "/api/v1/supply/packages/" && endswith path "/clone" then new_package
  else if String.eqb path "/api/v1/supply/settlements/withdraw" then new_settlement
  else if startswith path "/api/v1/supply/settlements/" && endswith path "/cancel" then
    change path set_settlements "settlement_id" "cancelled"
  else if String.eqb path "/api/v1/chat/completions" then
    _ok (PDict [("id", PStr "chatcmpl-mock-001"); ("object", PStr "chat.completion");
                ("choices", PList [PDict [("index", PInt 0);
                   ("message", PDict [("role", PStr "assistant"); ("content", PStr "pong")]);
                   ("finish_reason", PStr "stop")]])])
  else not_found.

(** ** Sessions *)

Inductive call := Get (r : request) | Post (r : request).

Definition handle (c : call) : M state response :=
  match c with Get r => do_GET r | Post r => do_POST r end.

(** The server handles one request after the other. *)
Fixpoint serve (cs : list call) (s : state) : list (res response) * state :=
  match cs with
  | [] => ([], s)
  | c :: cs' =>
      let '(x, s') := handle c s in
      let '(xs, s'') := serve cs' s' in (x :: xs, s'')
  end.

(** ** Case analysis of a [POST] *)

Inductive kind := Account | Package | Settlement.

#[export] Instance kind_eq_dec : EqDecision kind.
Proof. solve_decision. Defined.

Definition new_record (k : kind) : M state response :=
  match k with Account => new_account | Package => new_package | Settlement => new_settlement end.
Definition next_id (k : kind) : state → Z :=
  match k with Account => next_account_id | Package => next_package_id | Settlement => next_settlement_id end.
Definition records (k : kind) : state → list (string * list (string * pyval)) :=
  match k with Account => accounts | Package => packages | Settlement => settlements end.
Definition set_records (k : kind) :=
  match k with Account => set_accounts | Package => set_packages | Settlement => set_settlements end.
Definition id_key (k : kind) : string :=
  match k with Account => "account_id" | Package => "package_id" | Settlement => "settlement_id" end.
Definition initial_status (k : kind) : string :=
  match k with Account => "pending" | Package => "draft" | Settlement => "pending" end.
Definition first_id (k : kind) : Z :=
  match k with Account => 1000 | Package => 2000 | Settlement => 3000 end.
Definition base_path (k : kind) : string :=
  match k with
  | Account => "/api/v1/supply/accounts/"
  | Package => "/api/v1/supply/packages/"
  | Settlement => "/api/v1/supply/settlements/"
  end.

(** The actions on a record: the last segment of the path, and the new status. *)
Definition actions (k : kind) : list (string * string) :=
  match k with
  | Account => [("/activate", "active"); ("/suspend", "suspended")]
  | Package => [("/publish", "active"); ("/pause", "paused"); ("/unlist", "expired")]
  | Settlement => [("/cancel", "cancelled")]
  end.

(** The paths that create a record. *)
Definition creates (path : string) : option kind :=
  if String.eqb path "/api/v1/supply/accounts" then Some Account
  else if String.eqb path "/api/v1/supply/packages/draft" then Some Package
  else if startswith path "/api/v1/supply/packages/" && endswith path "/clone" then Some Package
  else if String.eqb path "/api/v1/supply/settlements/withdraw" then Some Settlement
  else None.

(** Everything a [POST] can do: fail before touching the state, answer without
    touching it, create a record, or change the status of one. *)
Inductive post_case (path : string) (s : state) : res response * state → Prop :=
| pc_raise e : post_case path s (Raise e, s)
| pc_stay x : creates path = None → post_case path s (Ok x, s)
| pc_new k : creates path = Some k → post_case path s (new_record k s)
| pc_change k suffix st :
    creates path = None → (suffix, st) ∈ actions k →
    startswith path (base_path k) = true → endswith path suffix = true →
    post_case path s (change path (set_records k) (id_key k) st s).

Lemma creates_action_None k path suffix st :
  (suffix, st) ∈ actions k → endswith path suffix = true → creates path = None.
Proof.
  intros Hin He. unfold creates.
  assert (∀ c, endswith c suffix = false → String.eqb path c = false) as Heq
    by (intros c; by apply eqb_endswith).
  destruct k; simpl in Hin; repeat (apply elem_of_cons in Hin as [[= -> ->]|Hin]);
    try (by apply elem_of_nil in Hin);
    rewrite !Heq, (endswith_excl _ _ "/clone" He), andb_false_r by done; done.
Qed.

Lemma elem_of_actions k suffix st :
  existsb (λ a, String.eqb a.1 suffix && String.eqb a.2 st) (actions k) = true → (suffix, st) ∈ actions k.
Proof.
  intros ([x y] & Hin & [E1 E2]%andb_true_iff)%existsb_exists.
  simpl in *. apply String.eqb_eq in E1 as ->, E2 as ->. by apply list_elem_of_In.
Qed.

(** A status change of kind [k], from the tests on the path. *)
Lemma post_change k suffix st path s :
  existsb (λ a, String.eqb a.1 suffix && String.eqb a.2 st) (actions k) = true →
  startswith path (base_path k) && endswith path suffix = true →
  post_case path s (change path (set_records k) (id_key k) st s).
Proof.
  intros Hin%elem_of_actions [H1 H2]%andb_true_iff.
  eapply pc_change; eauto using creates_action_None.
Qed.

(** Use the truth values of the tests on the path that the context holds. *)
Ltac path_tests :=
  first
    [ match goal with E : String.eqb _ _ = true |- _ => apply String.eqb_eq in E; rewrite E; reflexivity end
    | unfold creates;
      repeat match goal with
        | E : String.eqb ?a ?b = false |- context [String.eqb ?a ?b] => rewrite E
        | E : startswith ?a ?b && _ = ?v |- context [startswith ?a ?b && _] => rewrite E
        end; reflexivity ].

Lemma do_POST_case r s : post_case (urlparse (target r)).1 s (do_POST r s).
Proof.
  unfold do_POST. generalize (urlparse (target r)).1 as path. intros path.
  unfold mbind at 1, M_bind at 1, m_lift at 1.
  destruct (_read_json r) as [payload|e]; [|apply pc_raise].
  repeat lazymatch goal with
    | |- post_case _ _ ((if ?b then _ else _) _) => let E := fresh "E" in destruct b eqn:E
    end;
  lazymatch goal with
  | |- post_case _ _ (new_account _) => apply (pc_new _ _ Account); path_tests
  | |- post_case _ _ (new_package _) => apply (pc_new _ _ Package); path_tests
  | |- post_case _ _ (new_settlement _) => apply (pc_new _ _ Settlement); path_tests
  | |- post_case _ _ (change _ set_accounts _ _ _) => eapply (post_change Account); [|eassumption]; reflexivity
  | |- post_case _ _ (change _ set_packages _ _ _) => eapply (post_change Package); [|eassumption]; reflexivity
  | |- post_case _ _ (change _ set_settlements _ _ _) =>
      eapply (post_change Settlement); [|eassumption]; reflexivity
  | |- _ => unfold mbind, M_bind, m_lift; repeat case_match; simplify_eq;
            first [apply pc_raise | apply pc_stay; path_tests]
  end.
Qed.

(** ** The issued ids *)

Lemma do_GET_state r s : (do_GET r s).2 = s.
Proof.
  unfold do_GET. destruct (urlparse (target r)) as [path qs].
  unfold mbind, M_bind, m_lift, _ok, _write, not_found.
  repeat match goal with |- context [if ?b then _ else _] => destruct b end; repeat case_match; by simplify_eq.
Qed.

Definition id_of (k : kind) (x : response) : option Z :=
  match payload x with
  | PDict d => match dget "data" d with
               | Some (PDict d') => match dget (id_key k) d' with Some (PInt n) => Some n | _ => None end
               | _ => None
               end
  | _ => None
  end.

(** The ids of kind [k] that the answers to creating requests carry, in order. *)
Definition issued1 (k : kind) (c : call) (x : res response) : list Z :=
  match c, x with
  | Post r, Ok x =>
      if decide (creates (urlparse (target r)).1 = Some k)
      then match id_of k x with Some n => [n] | None => [] end
      else []
  | _, _ => []
  end.
Definition issued (k : kind) (cs : list call) (xs : list (res response)) : list Z :=
  concat (zip_with (issued1 k) cs xs).

Lemma new_record_eq k s :
  ∃ s', new_record k s =
    (Ok (mkResponse 200 (PDict [("code", PInt 0); ("message", PStr "ok");
       ("data", PDict [(id_key k, PInt (next_id k s)); ("status", PStr (initial_status k))])])), s') ∧
  (∀ k', next_id k' s' = next_id k' s + (if decide (k' = k) then 1 else 0)) ∧
  records k s' = dset (str_of_Z (next_id k s)) [("status", PStr (initial_status k))] (records k s) ∧
  (∀ k', k' ≠ k → records k' s' = records k' s).
Proof. exists (new_record k s).2. destruct k; (split; [reflexivity|]); (split; [by intros []; simpl; lia|]); (split; [done|by intros []]). Qed.

Lemma set_records_frame k f s :
  (∀ k', next_id k' (set_records k f s) = next_id k' s) ∧
  records k (set_records k f s) = f (records k s) ∧
  (∀ k', k' ≠ k → records k' (set_records k f s) = records k' s).
Proof. destruct k; split_and!; try done; by intros []. Qed.

Lemma change_eq path k st s :
  change path (set_records k) (id_key k) st s =
    match segment5 path with
    | Raise e => (Raise e, s)
    | Ok id =>
        (match int_of_str id with
         | Some n => Ok (mkResponse 200 (PDict [("code", PInt 0); ("message", PStr "ok");
             ("data", PDict [(id_key k, PInt n); ("status", PStr st)])]))
         | None => Raise ValueError
         end, set_records k (set_status id st) s)
    end.
Proof.
  unfold change, mbind, M_bind, m_lift, m_modify, py_int.
  destruct (segment5 path) as [id|]; [|done]. by destruct (int_of_str id).
Qed.

Lemma handle_issued k c s :
  issued1 k c (handle c s).1 = seqZ (next_id k s) (next_id k (handle c s).2 - next_id k s) ∧
  next_id k s ≤ next_id k (handle c s).2.
Proof.
  assert (Hsame : ∀ l, l = [] → l = seqZ (next_id k s) (next_id k s - next_id k s) ∧ next_id k s ≤ next_id k s).
  { intros l ->. rewrite Z.sub_diag. split; [done|lia]. }
  destruct c as [r|r]; simpl.
  { rewrite do_GET_state. apply Hsame. done. }
  destruct (do_POST_case r s) as [e|x Hc|k' Hc|k' suffix st Hc Ha Hs He]; simpl.
  - by apply Hsame.
  - rewrite Hc. by apply Hsame.
  - destruct (new_record_eq k' s) as (s' & -> & Hn & _). simpl. rewrite Hc, Hn.
    destruct (decide (k = k')) as [->|Hne].
    + rewrite decide_True by done. replace (_ + 1 - _) with 1 by lia.
      split; [by destruct k'|lia].
    + rewrite decide_False by congruence. rewrite Z.add_0_r. by apply Hsame.
  - rewrite change_eq. destruct (segment5 _) as [id|e]; simpl; [|by apply Hsame].
    destruct (set_records_frame k' (set_status id st) s) as (-> & _).
    apply Hsame. destruct (int_of_str id); [by rewrite Hc|done].
Qed.

Lemma serve_issued k cs s :
  let '(xs, s') := serve cs s in
  issued k cs xs = seqZ (next_id k s) (next_id k s' - next_id k s) ∧ next_id k s ≤ next_id k s'.
Proof.
  revert s. induction cs as [|c cs IH]; intros s; simpl.
  { rewrite Z.sub_diag. split; [done|lia]. }
  pose proof (handle_issued k c s) as [H1 H2]. destruct (handle c s) as [x s1]. simpl in *.
  specialize (IH s1). destruct (serve cs s1) as [xs s2]. destruct IH as [IH1 IH2].
  unfold issued in *. simpl. rewrite H1, IH1.
  split; [|lia]. replace (next_id k s2 - next_id k s) with
    ((next_id k s1 - next_id k s) + (next_id k s2 - next_id k s1)) by lia.
  rewrite seqZ_app by lia. do 2 f_equal. lia.
Qed.

(** In any session from a fresh start the ids issued for each kind of record are
    exactly the consecutive numbers from 1000, 2000 or 3000 up to the counter, each
    issued once, whatever other requests, failures and status changes come between. *)
Theorem issued_ids_consecutive (k : kind) (cs : list call) :
  let '(xs, s) := serve cs STATE0 in
  issued k cs xs = seqZ (first_id k) (next_id k s - first_id k) ∧ NoDup (issued k cs xs).
Proof.
  pose proof (serve_issued k cs STATE0) as Hs. destruct (serve cs STATE0) as [xs s].
  destruct Hs as [-> _]. destruct k; split; first [done | apply NoDup_seqZ].
Qed.

(** ** The state invariant *)

(** The statuses a record of kind [k] can have. *)
Definition statuses (k : kind) : list string := initial_status k :: (actions k).*2.

(** The type of [STATE]: a dictionary per kind, in which every record has one field,
    a status of its kind; counters past their start; and a record for every issued
    id. *)
Record state_wf (s : state) : Prop := {
  wf_dict : ∀ k, dict_wf (records k s);
  wf_record : ∀ k id d, (id, d) ∈ records k s → ∃ st, d = [("status", PStr st)] ∧ st ∈ statuses k;
  wf_counter : ∀ k, first_id k ≤ next_id k s;
  wf_issued : ∀ k n, first_id k ≤ n < next_id k s → str_of_Z n ∈ dkeys (records k s)
}.

Lemma elem_of_dset {V} k (v : V) d k' v' :
  dict_wf d → (k', v') ∈ dset k v d → (k' = k ∧ v' = v) ∨ (k', v') ∈ d.
Proof.
  intros Hd Hin. apply dget_in in Hin; [|by apply dset_wf]. rewrite dget_dset in Hin.
  destruct (String.eqb_spec k k') as [->|]; [left; by simplify_eq|right; by apply dget_Some_in].
Qed.

Lemma elem_of_dkeys_dset {V} k (v : V) d k' : k' ∈ dkeys (dset k v d) ↔ k' = k ∨ k' ∈ dkeys d.
Proof.
  rewrite dkeys_dset. unfold dmem. destruct (dget k d) eqn:E; [|set_solver].
  split; [by right|]. intros [->|]; [|done].
  apply dget_Some_in in E. by apply (list_elem_of_fmap_2 fst) in E.
Qed.

(** Entering a record of kind [k] under any id keeps the shape of [STATE]. *)
Lemma state_wf_step k id d s s' :
  state_wf s → (∃ st, d = [("status", PStr st)] ∧ st ∈ statuses k) →
  records k s' = dset id d (records k s) → (∀ k', k' ≠ k → records k' s' = records k' s) →
  (∀ k', next_id k' s' = next_id k' s ∨
         (k' = k ∧ id = str_of_Z (next_id k s) ∧ next_id k' s' = next_id k' s + 1)) →
  state_wf s'.
Proof.
  intros [W1 W2 W3 W4] Hd Hk Hne Hn. split; intros k'.
  - destruct (decide (k' = k)) as [->|]; [rewrite Hk; by apply dset_wf|by rewrite Hne].
  - intros id' d'. destruct (decide (k' = k)) as [->|]; [|rewrite Hne by done; apply W2].
    rewrite Hk. intros [[-> ->]|Hin]%elem_of_dset; eauto.
  - specialize (W3 k'). destruct (Hn k') as [->|(_ & _ & ->)]; lia.
  - intros n Hr. destruct (decide (k' = k)) as [->|Hk'].
    + rewrite Hk, elem_of_dkeys_dset. destruct (Hn k) as [E|(_ & -> & E)]; rewrite E in Hr.
      * right. by apply W4.
      * destruct (decide (n = next_id k s)) as [->|]; [by left|right]. apply W4. lia.
    + rewrite Hne by done. destruct (Hn k') as [E|(-> & _)]; [|done]. apply W4. by rewrite <- E.
Qed.

Lemma dget_record_shape k id s :
  state_wf s → ∀ st, st ∈ statuses k →
  ∃ st', dset "status" (PStr st) (default [] (dget id (records k s))) = [("status", PStr st')] ∧ st' ∈ statuses k.
Proof.
  intros W st Hst. exists st. split; [|done].
  destruct (dget id (records k s)) as [d|] eqn:E; [|done].
  apply dget_Some_in, (wf_record _ W) in E as (st' & -> & _). done.
Qed.

(** The status a record of kind [k] with this id has. *)
Definition status_of (k : kind) (id : string) (s : state) : option string :=
  match dget id (records k s) with
  | Some d => match dget "status" d with Some (PStr st) => Some st | _ => None end
  | None => None
  end.

Lemma handle_wf c s : state_wf s → state_wf (handle c s).2.
Proof.
  intros W. destruct c as [r|r]; simpl; [by rewrite do_GET_state|].
  destruct (do_POST_case r s) as [e|x Hc|k Hc|k suffix st Hc Ha Hs He]; simpl; try done.
  - destruct (new_record_eq k s) as (s' & -> & Hn & Hk & Hne). simpl.
    eapply state_wf_step; eauto; [eexists; split; [done|by left]|].
    intros k'. rewrite Hn. destruct (decide (k' = k)) as [->|]; [by right|left; lia].
  - rewrite change_eq. destruct (segment5 _) as [id|e]; simpl; [|done].
    destruct (set_records_frame k (set_status id st) s) as (Hn & Hk & Hne).
    eapply (state_wf_step k id); eauto. apply dget_record_shape; [done|].
    right. apply list_elem_of_fmap. exists (suffix, st). done.
Qed.

Lemma serve_wf_from cs s : state_wf s → state_wf (serve cs s).2.
Proof.
  revert s. induction cs as [|c cs IH]; intros s W; simpl; [done|].
  pose proof (handle_wf c s W) as W'. destruct (handle c s) as [x s1]. simpl in W'.
  specialize (IH s1 W'). by destruct (serve cs s1).
Qed.

Lemma STATE0_wf : state_wf STATE0.
Proof. split; intros []; simpl; try (by apply NoDup_nil_2); try lia; intros; set_solver || lia. Qed.

(** C39: Whatever requests the server gets, [STATE] stays well-formed: each collection is a
    dictionary whose records hold exactly one field, a status its kind can have; the
    counters never go below their start; every id that was issued has a record. *)
Theorem serve_state_wf (cs : list call) : state_wf (serve cs STATE0).2.
Proof. apply serve_wf_from, STATE0_wf. Qed.

(** ** Status changes *)

Definition no_slash : string → bool := str_all (λ a, negb (Ascii.eqb a "/")).

(** The action path of a record: a target with no query, fragment or parameters. *)
Definition plain (a : ascii) : bool :=
  negb (Ascii.eqb a "#") && negb (Ascii.eqb a "?") && negb (Ascii.eqb a ";").

Lemma drop_params_none s : str_all (λ a, negb (Ascii.eqb a ";")) s = true → drop_params s = s.
Proof.
  induction s as [|a s IH]; simpl; [done|]. intros [Ha Hs]%andb_true_iff.
  apply negb_true_iff in Ha. by rewrite Ha, IH.
Qed.

Lemma urlparse_plain s : str_all plain s = true → (urlparse s).1 = s.
Proof.
  intros Hs. unfold urlparse, plain in *.
  rewrite !split_once_none, drop_params_none; [done| | |];
    (eapply str_all_impl; [|exact Hs]); intros a; rewrite !andb_true_iff; naive_solver.
Qed.

Lemma segment5_action k id suffix :
  no_slash id = true → segment5 (base_path k +:+ id +:+ "/" +:+ suffix) = Ok id.
Proof.
  intros Hid. unfold segment5.
  assert (∀ l, split_on "/" (base_path k +:+ l) =
    "" :: "api" :: "v1" :: "supply" :: (match k with Account => "accounts" | Package => "packages" | Settlement => "settlements" end) :: split_on "/" l)
    as -> by by destruct k.
  change ("/" +:+ suffix) with (String "/" suffix). by rewrite (split_on_app "/" id suffix).
Qed.

Lemma do_POST_action k suffix st r s v :
  _read_json r = Ok v → (suffix, st) ∈ actions k →
  startswith (urlparse (target r)).1 (base_path k) = true →
  endswith (urlparse (target r)).1 suffix = true →
  do_POST r s = change (urlparse (target r)).1 (set_records k) (id_key k) st s.
Proof.
  intros Hr Hin. unfold do_POST. generalize (urlparse (target r)).1 as path. intros path Hs He.
  unfold mbind at 1, M_bind at 1, m_lift at 1. rewrite Hr.
  assert (∀ c, endswith c suffix = false → String.eqb path c = false) as Heq
    by (intros c; by apply eqb_endswith).
  assert (∀ q, endswith suffix q = false → endswith q suffix = false → endswith path q = false) as Hend
    by (intros q; by apply endswith_excl).
  assert (∀ q, startswith (base_path k) q = false → startswith q (base_path k) = false → startswith path q = false) as Hst
    by (intros q; by apply startswith_excl).
  destruct k; simpl in Hin; repeat (apply elem_of_cons in Hin as [[= -> ->]|Hin]);
    try (by apply elem_of_nil in Hin); cbn [base_path] in *;
    repeat (rewrite Heq by done);
    repeat (rewrite (Hst "/api/v1/supply/accounts/") by done; cbn [andb]);
    repeat (rewrite (Hst "/api/v1/supply/packages/") by done; cbn [andb]);
    rewrite ?Hs, ?He; cbn [andb]; try done; rewrite Hend by done; cbn [andb]; try done;
    rewrite Hend by done; done.
Qed.

Lemma status_of_set k id st k' id' s :
  state_wf s →
  status_of k' id' (set_records k (set_status id st) s) =
    if decide (k' = k ∧ id' = id) then Some st else status_of k' id' s.
Proof.
  intros W. unfold status_of. destruct (set_records_frame k (set_status id st) s) as (_ & Hk & Hne).
  destruct (decide (k' = k)) as [->|Hk'].
  - rewrite Hk. unfold set_status. rewrite dget_dset. destruct (String.eqb_spec id id') as [->|Hid].
    + rewrite decide_True by done. by rewrite dget_dset_eq.
    + rewrite decide_False by naive_solver. done.
  - rewrite Hne, decide_False by naive_solver. done.
Qed.

(** The answer of a successful status change. *)
Definition changed (k : kind) (n : Z) (st : string) : response :=
  mkResponse 200 (PDict [("code", PInt 0); ("message", PStr "ok");
    ("data", PDict [(id_key k, PInt n); ("status", PStr st)])]).

Lemma do_POST_change k id suffix st r s v :
  state_wf s → _read_json r = Ok v → (suffix, st) ∈ actions k →
  no_slash id = true → str_all plain id = true → target r = base_path k +:+ id +:+ suffix →
  do_POST r s =
    (match int_of_str id with Some n => Ok (changed k n st) | None => Raise ValueError end,
     set_records k (set_status id st) s).
Proof.
  intros W Hr Hin Hid Hp Ht.
  assert (∃ sfx, suffix = "/" +:+ sfx ∧ str_all plain suffix = true) as (sfx & Hsfx & Hps).
  { exists (str_drop 1 suffix). clear Ht.
    destruct k; simpl in Hin; repeat (apply elem_of_cons in Hin as [[= -> ->]|Hin]);
      (by apply elem_of_nil in Hin) || done. }
  assert ((urlparse (target r)).1 = base_path k +:+ id +:+ suffix) as E.
  { rewrite Ht. apply urlparse_plain. rewrite !str_all_app, Hp, Hps. by destruct k. }
  rewrite (do_POST_action k suffix st r s v Hr Hin), change_eq; rewrite E.
  - rewrite Hsfx, segment5_action by done. done.
  - apply prefix_app_self.
  - rewrite <- str_app_assoc. apply endswith_app.
Qed.

(** A status change on [/<collection>/<id>/<action>] sets the status of exactly that record
    (creating it if there is none) and leaves every other record and all counters
    alone.  It answers 200 with the id when the id is a number; otherwise the
    handler raises [ValueError] after the change was made, so the failed request
    leaves the new status, and possibly a new record, behind. *)
Theorem status_change_effect (k : kind) (id suffix st : string) (r : request) (s : state) (v : pyval)
    (Hwf : state_wf s) (Hbody : _read_json r = Ok v) (Hact : (suffix, st) ∈ actions k)
    (Hid : no_slash id = true) (Hplain : str_all plain id = true)
    (Ht : target r = base_path k +:+ id +:+ suffix) :
  let '(x, s') := do_POST r s in
  x = match int_of_str id with Some n => Ok (changed k n st) | None => Raise ValueError end ∧
  status_of k id s' = Some st ∧
  (∀ k' id', (k', id') ≠ (k, id) → status_of k' id' s' = status_of k' id' s) ∧
  (∀ k', next_id k' s' = next_id k' s).
Proof.
  rewrite (do_POST_change k id suffix st r s v) by done. split; [done|].
  split; [|split].
  - rewrite status_of_set, decide_True by done. done.
  - intros k' id' Hne. rewrite status_of_set, decide_False by naive_solver. done.
  - apply set_records_frame.
Qed.

(** The paths that create a record from scratch. *)
Definition create_path (k : kind) : string :=
  match k with
  | Account => "/api/v1/supply/accounts"
  | Package => "/api/v1/supply/packages/draft"
  | Settlement => "/api/v1/supply/settlements/withdraw"
  end.

Definition post (t : string) : request := mkRequest t None "".

Lemma do_POST_create k s : do_POST (post (create_path k)) s = new_record k s.
Proof. by destruct k. Qed.

Lemma digits_no_slash s : str_all is_digit s = true → no_slash s = true ∧ str_all plain s = true.
Proof.
  intros Hs. split; (eapply str_all_impl; [|exact Hs]); intros a;
    unfold plain, is_digit, digit; destruct (_ && _) eqn:E; try done; intros _;
    repeat match goal with |- context [Ascii.eqb a ?c] => destruct (Ascii.eqb_spec a c) as [->|] end; done.
Qed.

(** A created record can be driven through its life: creating a record answers a
    fresh id with the initial status, and an action on that id then answers 200 with
    the same id and the new status, which the record has. *)
Theorem create_then_act (k : kind) (suffix st : string) (s : state)
    (Hwf : state_wf s) (Hact : (suffix, st) ∈ actions k) :
  ∃ n s1 s2,
    do_POST (post (create_path k)) s = (Ok (changed k n (initial_status k)), s1) ∧
    status_of k (str_of_Z n) s1 = Some (initial_status k) ∧
    do_POST (post (base_path k +:+ str_of_Z n +:+ suffix)) s1 = (Ok (changed k n st), s2) ∧
    status_of k (str_of_Z n) s2 = Some st.
Proof.
  rewrite do_POST_create. pose proof (handle_wf (Post (post (create_path k))) s Hwf) as W1.
  simpl in W1. rewrite do_POST_create in W1.
  destruct (new_record_eq k s) as (s1 & E & _ & Hk & _). rewrite E in *. simpl in W1.
  assert (0 ≤ next_id k s) as Hn by (pose proof (wf_counter s Hwf k); destruct k; simpl in *; lia).
  destruct (digits_no_slash _ (str_of_Z_digits _ Hn)) as [H1 H2].
  eexists (next_id k s), s1, _. split_and!; [done| | |].
  - unfold status_of. by rewrite Hk, dget_dset_eq.
  - erewrite (do_POST_change k (str_of_Z (next_id k s)) suffix st); [|done..].
    by rewrite int_of_str_of_Z.
  - rewrite status_of_set, decide_True by done. done.
Qed.

End Handler.

#[local] Existing Instance toy_runtime.

(** A request whose id is not a number: the record appears, the answer does not. *)
Lemma status_change_effect_witness :
  let '(x, s') := do_POST (post "/api/v1/supply/accounts/foo/activate") STATE0 in
  x = Raise ValueError ∧ status_of Account "foo" s' = Some "active" ∧
  (∀ k' id', (k', id') ≠ (Account, "foo") → status_of k' id' s' = status_of k' id' STATE0) ∧
  (∀ k', next_id k' s' = next_id k' STATE0).
Proof.
  apply (status_change_effect Account "foo" "/activate" "active"
           (post "/api/v1/supply/accounts/foo/activate") STATE0 (PDict [])); try reflexivity.
  - apply STATE0_wf.
  - by apply elem_of_actions.
Defined.

Lemma create_then_act_witness :
  ∃ n s1 s2,
    do_POST (post (create_path Package)) STATE0 = (Ok (changed Package n "draft"), s1) ∧
    status_of Package (str_of_Z n) s1 = Some "draft" ∧
    do_POST (post (base_path Package +:+ str_of_Z n +:+ "/publish")) s1 = (Ok (changed Package n "active"), s2) ∧
    status_of Package (str_of_Z n) s2 = Some "active".
Proof.
  apply (create_then_act Package "/publish" "active" STATE0); [apply STATE0_wf|by apply elem_of_actions].
Defined.

Example session_example :
  let '(xs, s) := serve [Post (post "/api/v1/supply/accounts"); Post (post "/api/v1/supply/packages/7/clone");
                         Post (post "/api/v1/supply/accounts/1000/suspend"); Get (post "/api/v1/supply/settlements/x/statement");
                         Post (post "/api/v1/supply/accounts")] STATE0 in
  issued Account [Post (post "/api/v1/supply/accounts"); Post (post "/x"); Post (post "/x"); Get (post "/x");
                  Post (post "/api/v1/supply/accounts")] xs = [1000; 1001] ∧
  status_of Account "1000" s = Some "suspended" ∧ status_of Package "2000" s = Some "draft" ∧
  xs !! 3%nat = Some (Raise ValueError).
Proof. by vm_compute. Qed.

Example query_example :
  parse_qs "page=3&page=4&x=&y&page%5fsize=5" = [("page", ["3"; "4"]); ("page_size", ["5"])] ∧
  urlparse "/a;p/b;q?x=1#f" = ("/a;p/b", "x=1").
Proof. by vm_compute. Qed.

End MockServer.
