(* ===== verification/PnpmAudit.v ===== *)
(** * PnpmAudit: the gate on pnpm audit findings

    [tools/check_pnpm_audit_exceptions.py] of the [sub2api] tree: reads the JSON
    report of [pnpm audit] and a list of exceptions, and returns 0 only if every
    high or critical finding is covered by an exception.  The two files are arguments:
    the report as its JSON value, the exceptions as the lines of the file.  Messages
    are constructors of [error] with the values they interpolate; [iter_vulns] is a
    generator, so it is the list of what it yields and the exception that stops it.
    Dates are proleptic ordinals, as [date.toordinal] gives them.  What the report says
    is described apart from the extraction, as the relation [finding]; the extraction
    is shown to list exactly these. *)

From stdpp Require Import base gmap sets list strings.
From Stdlib Require Import ZArith Lia Ascii.
From S2P Require Import Prelude PyStr Duration.

#[local] Open Scope Z_scope.

Module PnpmAudit.

Definition dquote : ascii := "034".
Definition squote : ascii := "039".

Definition HIGH_SEVERITIES : list string := ["high"; "critical"].
Definition REQUIRED_FIELDS : list string := ["package"; "advisory"; "severity"; "mitigation"; "expires_on"].

(** ** The exception file *)

Definition quoted_by (q : ascii) (v : string) : bool :=
  startswith v (String q "") && endswith v (String q "").

(** [v[1:-1]]. *)
Definition trim_ends (v : string) : string := str_drop 1 (str_take (String.length v - 1) v).

(** [line.split(":", 1)] is unpacked into two variables, which raises when the line
    has no colon. *)
Definition split_kv (line : string) : res (string * string) :=
  match split_once ":" line with
  | (key, Some value) =>
      let value := strip value in
      let value := if quoted_by dquote value || quoted_by squote value then trim_ends value else value in
      Ok (strip key, value)
  | (_, None) => Raise ValueError
  end.

(** An exception: a dictionary from field names to strings. *)
#[local] Abbreviation fields := (list (string * string)).

(** [if current: exceptions.append(current)]. *)
Definition flush (exceptions : list fields) (current : option fields) : list fields :=
  match current with Some ((_ :: _) as c) => exceptions ++ [c] | _ => exceptions end.

(** One iteration of the loop over the lines. *)
Definition parse_line (raw : string) (st : list fields * option fields) : res (list fields * option fields) :=
  let '(exceptions, current) := st in
  let line := strip raw in
  if String.eqb line "" || startswith line "#" then Ok st
  else if startswith line "version:" || startswith line "exceptions:" then Ok st
  else if startswith line "- " then
    let exceptions := flush exceptions current in
    let line := strip (str_drop 2 line) in
    if String.eqb line "" then Ok (exceptions, Some [])
    else '(key, value) ← split_kv line; Ok (exceptions, Some (dset key value []))
  else match current with
       | Some c =>
           if str_contains ":" line then
             '(key, value) ← split_kv line; Ok (exceptions, Some (dset key value c))
           else Ok st
       | None => Ok st
       end.

Fixpoint parse_lines (lines : list string) (st : list fields * option fields) : res (list fields * option fields) :=
  match lines with
  | [] => Ok st
  | raw :: lines' => st' ← parse_line raw st; parse_lines lines' st'
  end.

Definition parse_exceptions (lines : list string) : res (list fields) :=
  '(exceptions, current) ← parse_lines lines ([], None); Ok (flush exceptions current).

(** ** Dates *)

(** [int(s[i:i+n])] on exactly [n] digits. *)
Fixpoint digits_at (n : nat) (acc : Z) (s : string) : option (Z * string) :=
  match n, s with
  | O, _ => Some (acc, s)
  | S n', String a s' => match digit a with Some d => digits_at n' (10 * acc + d) s' | None => None end
  | S _, EmptyString => None
  end.

(** The Monday of week 1 of an ISO year. *)
Definition isoweek1monday (y : Z) : Z :=
  let firstday := Duration.toordinal y 1 1 in
  let firstweekday := (firstday + 6) mod 7 in
  let monday := firstday - firstweekday in
  if 3 <? firstweekday then monday + 7 else monday.

Definition MAXORDINAL : Z := 3652059.

Definition week_date (y w d : Z) : option Z :=
  let o := isoweek1monday y + (w - 1) * 7 + (d - 1) in
  if (1 <=? y) && (y <=? 9999) && (1 <=? w) &&
     ((w <=? 52) || ((w =? 53) && (isoweek1monday (y + 1) - isoweek1monday y =? 371))) &&
     (1 <=? d) && (d <=? 7) && (1 <=? o) && (o <=? MAXORDINAL)
  then Some o else None.

Definition civil_date (y m d : Z) : option Z :=
  if (1 <=? y) && (y <=? 9999) && (1 <=? m) && (m <=? 12) && (1 <=? d) && (d <=? Duration.days_in_month y m)
  then Some (Duration.toordinal y m d) else None.

(** Drop a dash exactly when the date uses them. *)
Definition dash (has_sep : bool) (s : string) : option string :=
  match s with
  | String a s' =>
      if Ascii.eqb a "-" then (if has_sep then Some s' else None) else (if has_sep then None else Some s)
  | EmptyString => if has_sep then None else Some s
  end.

(** [date.fromisoformat]: calendar dates and week dates, with or without dashes. *)
Definition fromisoformat (s : string) : option Z :=
  match digits_at 4 0 s with
  | None => None
  | Some (y, s) =>
      let has_sep := startswith s "-" in
      let s := if has_sep then str_drop 1 s else s in
      if startswith s "W" then
        match digits_at 2 0 (str_drop 1 s) with
        | Some (w, "") => week_date y w 1
        | Some (w, s) =>
            match dash has_sep s with
            | Some s => match digits_at 1 0 s with Some (d, "") => week_date y w d | _ => None end
            | None => None
            end
        | None => None
        end
      else
        match digits_at 2 0 s with
        | Some (m, s) =>
            match dash has_sep s with
            | Some s => match digits_at 2 0 s with Some (d, "") => civil_date y m d | _ => None end
            | None => None
            end
        | None => None
        end
  end.

(** The [except ValueError] is the [None]. *)
Definition parse_date (value : string) : option Z := fromisoformat value.

(** ** The audit report *)

Record vuln := mkVuln { v_name : pyval; v_severity : pyval; v_id : pyval; v_title : pyval }.

(** A generator: what it yields, and the exception that ends it early. *)
Definition gen (A : Type) : Type := list A * option exn.

Definition gen_of {A} (r : res A) : gen A :=
  match r with Ok a => ([a], None) | Raise e => ([], Some e) end.

Fixpoint gen_each {A B} (f : A → gen B) (l : list A) : gen B :=
  match l with
  | [] => ([], None)
  | x :: l' =>
      match f x with
      | (ys, Some e) => (ys, Some e)
      | (ys, None) => let '(zs, e) := gen_each f l' in (ys ++ zs, e)
      end
  end.

Definition gen_app {A} (g h : gen A) : gen A :=
  match g with
  | (ys, Some e) => (ys, Some e)
  | (ys, None) => let '(zs, e) := h in (ys ++ zs, e)
  end.

(** [a or b] where evaluating an operand may raise. *)
Definition or_else (a b : res pyval) : res pyval := v ← a; if truthy v then Ok v else b.

(** [v[0]] of a truthy value. *)
Definition first_of (v : pyval) : res pyval :=
  match v with
  | PList (x :: _) | PTuple (x :: _) => Ok x
  | PStr (String a _) => Ok (PStr (String a ""))
  | PList [] | PTuple [] | PStr EmptyString => Raise IndexError
  | PDict _ => Raise KeyError
  | _ => Raise TypeError
  end.

Section report.
Context `{PyRuntime}.

Definition pick_advisory_id (advisory : pyval) : res pyval :=
  or_else (py_get advisory "github_advisory_id")
  (or_else (py_get advisory "url")
  (or_else (cves ← py_get advisory "cves"; first_of (py_or cves (PList [PNone])))
  (or_else (id ← py_get advisory "id"; Ok (if is_none id then PNone else PStr (py_str id)))
  (or_else (py_get advisory "title")
  (or_else (py_get advisory "advisory")
           (py_get advisory "overview")))))).

Definition of_advisory (advisory : pyval) : res vuln :=
  name ← or_else (py_get advisory "module_name") (py_get advisory "name");
  severity ← py_get advisory "severity";
  advisory_id ← pick_advisory_id advisory;
  title ← or_else (py_get advisory "title")
          (or_else (py_get advisory "advisory")
          (or_else (py_get advisory "overview") (py_get advisory "url")));
  Ok (mkVuln name severity advisory_id title).

(** The pair (advisory, title) an item of [via] contributes. *)
Definition via_item (item : pyval) : option (pyval * pyval) :=
  let get k := match item with PDict d => default PNone (dget k d) | _ => PNone end in
  match item with
  | PDict _ =>
      Some (py_or (get "github_advisory_id") (py_or (get "url") (py_or (get "source") (py_or (get "title") (get "name")))),
            py_or (get "title") (py_or (get "url") (py_or (get "advisory") (get "source"))))
  | PStr _ => Some (item, item)
  | _ => None
  end.

Definition via_pairs (via : pyval) : list (pyval * pyval) :=
  match via with
  | PList items => omap via_item items
  | PStr _ => [(via, via)]
  | _ => []
  end.

(** [sep.join(l)] raises on an element that is not a string. *)
Definition py_join (sep : string) (l : list pyval) : res pyval :=
  ws ← (fix go (l : list pyval) : res (list string) :=
          match l with
          | [] => Ok []
          | PStr s :: l' => ws ← go l'; Ok (s :: ws)
          | _ :: _ => Raise TypeError
          end) l;
  Ok (PStr (str_join sep ws)).

Definition of_vulnerability (nv : string * pyval) : gen vuln :=
  let '(name, v) := nv in
  let r :=
    severity ← py_get v "severity";
    via ← py_get_or v "via" (PList []);
    title ← py_join "; " (filter (λ t, truthy t = true) (via_pairs via).*2);
    Ok (severity, via, title) in
  match r with
  | Raise e => ([], Some e)
  | Ok (severity, via, title) =>
      ((λ a, mkVuln (PStr name) severity a title) <$> filter (λ a, truthy a = true) (via_pairs via).*1, None)
  end.

Definition iter_vulns (data : pyval) : gen vuln :=
  match py_get data "advisories", py_get data "vulnerabilities" with
  | Ok advisories, Ok vulnerabilities =>
      gen_app (match advisories with PDict d => gen_each (λ a, gen_of (of_advisory a)) d.*2 | _ => ([], None) end)
              (match vulnerabilities with PDict d => gen_each of_vulnerability d | _ => ([], None) end)
  | Raise e, _ | _, Raise e => ([], Some e)
  end.

(** ** Normalisation *)

Definition normalize_severity (severity : pyval) : res string :=
  match py_or severity (PStr "") with
  | PStr s => Ok (lower (strip s))
  | _ => Raise AttributeError
  end.

Definition normalize_package (name : pyval) : string :=
  match name with PNone => "" | _ => strip (py_str name) end.

Definition normalize_advisory (advisory : pyval) : string :=
  match advisory with PNone => "" | _ => lower (strip (py_str advisory)) end.

(** ** The gate *)

Inductive error :=
| MissingFields (missing : list string) (package : string)
| InvalidDate (package : string)
| MissingValue
| DuplicateException (package advisory : string)
| MissingAdvisoryId (name : pyval) (sev : string)
| SeverityMismatch (name advisory : pyval) (expected got : string)
| HeaderMissing
| MissingException (name : pyval) (sev : string) (advisory title : pyval)
| HeaderExpired
| ExpiredException (name : pyval) (sev : string) (advisory : pyval) (expires_on : Z).

Record entry := mkEntry { raw : fields; e_severity : string; e_expires_on : Z }.

(** [exc.get(f)] *)
Definition exc_get (exc : fields) (f : string) : pyval :=
  match dget f exc with Some v => PStr v | None => PNone end.
Definition exc_str (exc : fields) (f : string) : string := default "" (dget f exc).

Definition missing_fields (exc : fields) : list string :=
  filter (λ f, truthy (exc_get exc f) = false) REQUIRED_FIELDS.

(** The body of the loop over the exceptions. *)
Definition index_exception (exc : fields) (st : gmap (string * string) entry * list error)
  : res (gmap (string * string) entry * list error) :=
  let '(exception_index, errors) := st in
  let package := default "<unknown>" (dget "package" exc) in
  match missing_fields exc with
  | (_ :: _) as missing => Ok (exception_index, errors ++ [MissingFields missing package])
  | [] =>
      exc_severity ← normalize_severity (exc_get exc "severity");
      let exc_package := normalize_package (exc_get exc "package") in
      let exc_advisory := normalize_advisory (exc_get exc "advisory") in
      match parse_date (exc_str exc "expires_on") with
      | None => Ok (exception_index, errors ++ [InvalidDate package])
      | Some exc_date =>
          if String.eqb exc_package "" || String.eqb exc_advisory "" then
            Ok (exception_index, errors ++ [MissingValue])
          else
            let key := (exc_package, exc_advisory) in
            match exception_index !! key with
            | Some _ => Ok (exception_index, errors ++ [DuplicateException exc_package (exc_str exc "advisory")])
            | None => Ok (<[key := mkEntry exc exc_severity exc_date]> exception_index, errors)
            end
      end
  end.

Fixpoint index_exceptions (excs : list fields) (st : gmap (string * string) entry * list error)
  : res (gmap (string * string) entry * list error) :=
  match excs with
  | [] => Ok st
  | exc :: excs' => st' ← index_exception exc st; index_exceptions excs' st'
  end.

Record scan := mkScan {
  seen : gset (string * string);
  s_errors : list error;
  missing_exceptions : list error;
  expired_exceptions : list error
}.

(** The body of the loop over the findings. *)
Definition check_vuln (index : gmap (string * string) entry) (today : Z) (v : vuln) (st : scan) : res scan :=
  sev ← normalize_severity (v_severity v);
  if negb (existsb (String.eqb sev) HIGH_SEVERITIES) || negb (truthy (v_name v)) then Ok st
  else
    let advisory_key := normalize_advisory (v_id v) in
    if String.eqb advisory_key "" then
      Ok (mkScan (seen st) (s_errors st ++ [MissingAdvisoryId (v_name v) sev])
                 (missing_exceptions st) (expired_exceptions st))
    else
      let key := (normalize_package (v_name v), advisory_key) in
      if decide (key ∈ seen st) then Ok st
      else
        let seen' := {[ key ]} ∪ seen st in
        match index !! key with
        | None =>
            Ok (mkScan seen' (s_errors st)
                  (missing_exceptions st ++ [MissingException (v_name v) sev (v_id v) (v_title v)])
                  (expired_exceptions st))
        | Some exc =>
            let errors :=
              if negb (String.eqb (e_severity exc) "") && negb (String.eqb (e_severity exc) sev)
              then s_errors st ++ [SeverityMismatch (v_name v) (v_id v) sev (e_severity exc)]
              else s_errors st in
            let expired :=
              if e_expires_on exc <? today
              then expired_exceptions st ++ [ExpiredException (v_name v) sev (v_id v) (e_expires_on exc)]
              else expired_exceptions st in
            Ok (mkScan seen' errors (missing_exceptions st) expired)
        end.

Fixpoint check_vulns (index : gmap (string * string) entry) (today : Z) (vs : list vuln) (st : scan) : res scan :=
  match vs with
  | [] => Ok st
  | v :: vs' => st' ← check_vuln index today v st; check_vulns index today vs' st'
  end.

Definition section (header : error) (l : list error) : list error :=
  match l with [] => [] | _ => header :: l end.

(** The exit code, and what is written to stderr. *)
Definition verdict (st : scan) : Z * list error :=
  let errors := s_errors st ++ section HeaderMissing (missing_exceptions st)
                            ++ section HeaderExpired (expired_exceptions st) in
  match errors with [] => (0, []) | _ => (1, errors) end.

Definition main (audit : pyval) (exception_lines : list string) (today : Z) : res (Z * list error) :=
  exceptions ← parse_exceptions exception_lines;
  '(index, errors) ← index_exceptions exceptions (∅, []);
  let '(vs, stop) := iter_vulns audit in
  st ← check_vulns index today vs (mkScan ∅ errors [] []);
  match stop with Some e => Raise e | None => Ok (verdict st) end.

(** ** What the gate is meant to check *)

Definition exc_key (exc : fields) : string * string :=
  (normalize_package (exc_get exc "package"), normalize_advisory (exc_get exc "advisory")).
Definition vuln_key (v : vuln) : string * string :=
  (normalize_package (v_name v), normalize_advisory (v_id v)).

(** The severity of an exception, which [split_kv] read as a string. *)
Definition exc_severity (exc : fields) : string := lower (strip (exc_str exc "severity")).

(** The findings of a report.  An object of [advisories] is one finding; its package and
    its identifier are the first of these fields that is set.  An object of
    [vulnerabilities] is a finding for every identifier of its [via]. *)
Definition field (d : list (string * pyval)) (k : string) : pyval := default PNone (dget k d).

Fixpoint best (l : list pyval) : pyval :=
  match l with
  | [] => PNone
  | [v] => v
  | v :: l' => if truthy v then v else best l'
  end.

Definition first_cve (cves : pyval) : pyval :=
  match cves with
  | PList (c :: _) | PTuple (c :: _) => c
  | PStr (String a _) => PStr (String a "")
  | _ => PNone
  end.

Definition id_text (id : pyval) : pyval := match id with PNone => PNone | _ => PStr (py_str id) end.

Definition advisory_package (d : list (string * pyval)) : pyval := best (field d <$> ["module_name"; "name"]).
Definition advisory_id (d : list (string * pyval)) : pyval :=
  best (field d "github_advisory_id" :: field d "url" :: first_cve (field d "cves") :: id_text (field d "id")
        :: (field d <$> ["title"; "advisory"; "overview"])).

Inductive identifies : pyval → pyval → Prop :=
| via_object items d : PDict d ∈ items →
    identifies (PList items) (best (field d <$> ["github_advisory_id"; "url"; "source"; "title"; "name"]))
| via_name items s : PStr s ∈ items → identifies (PList items) (PStr s)
| via_string s : identifies (PStr s) (PStr s).

(** [finding report package severity identifier]. *)
Inductive finding (report : list (string * pyval)) : pyval → pyval → pyval → Prop :=
| in_advisories advisories k d :
    field report "advisories" = PDict advisories → (k, PDict d) ∈ advisories →
    finding report (advisory_package d) (field d "severity") (advisory_id d)
| in_vulnerabilities vulnerabilities name d id :
    field report "vulnerabilities" = PDict vulnerabilities → (name, PDict d) ∈ vulnerabilities →
    identifies (field d "via") id → truthy id = true →
    finding report (PStr name) (field d "severity") id.

(** [vs] lists the findings of the report, in the report's order. *)
Definition lists_findings (report : list (string * pyval)) (vs : list vuln) : Prop :=
  ∀ name severity id, finding report name severity id ↔ ∃ title, mkVuln name severity id title ∈ vs.

(** An exception that states all its fields, with a date that exists. *)
Definition valid_exception (exc : fields) : Prop :=
  (∀ f, f ∈ REQUIRED_FIELDS → exc_str exc f ≠ "") ∧
  is_Some (parse_date (exc_str exc "expires_on")) ∧
  (exc_key exc).1 ≠ "" ∧ (exc_key exc).2 ≠ "".

(** A finding the gate looks at. *)
Definition relevant (v : vuln) : Prop :=
  (∃ sev, normalize_severity (v_severity v) = Ok sev ∧ sev ∈ HIGH_SEVERITIES) ∧ truthy (v_name v) = true.

(** [exc] covers [v] on day [today].  The severity is only compared for the first
    finding with a given key, and not for an exception with a blank severity. *)
Definition covers (today : Z) (first : Prop) (exc : fields) (v : vuln) : Prop :=
  exc_key exc = vuln_key v ∧
  (∃ d, parse_date (exc_str exc "expires_on") = Some d ∧ today ≤ d) ∧
  (first → exc_severity exc = "" ∨ normalize_severity (v_severity v) = Ok (exc_severity exc)).

Definition gate_ok (today : Z) (excs : list fields) (vs : list vuln) : Prop :=
  (∀ exc, exc ∈ excs → valid_exception exc) ∧ NoDup (exc_key <$> excs) ∧
  (∀ v, v ∈ vs → is_ok (normalize_severity (v_severity v)) = true) ∧
  ∀ pre v post, vs = pre ++ v :: post → relevant v →
    (vuln_key v).2 ≠ "" ∧
    ∃ exc, exc ∈ excs ∧
      covers today (∀ w, w ∈ pre → relevant w → vuln_key w ≠ vuln_key v) exc v.

(** ** The index *)

Lemma exc_get_truthy exc f : truthy (exc_get exc f) = negb (String.eqb (exc_str exc f) "").
Proof. unfold exc_get, exc_str. by destruct (dget f exc). Qed.

Lemma missing_fields_nil exc :
  missing_fields exc = [] ↔ ∀ f, f ∈ REQUIRED_FIELDS → exc_str exc f ≠ "".
Proof.
  unfold missing_fields. rewrite <- Forall_forall. generalize REQUIRED_FIELDS as l.
  induction l as [|f l IH]; [done|]. rewrite filter_cons, exc_get_truthy, Forall_cons, <- IH.
  destruct (String.eqb_spec (exc_str exc f) "") as [E|E]; simpl; [|naive_solver].
  split; [done|naive_solver].
Qed.

Lemma exc_severity_spec exc :
  exc_str exc "severity" ≠ "" → normalize_severity (exc_get exc "severity") = Ok (exc_severity exc).
Proof.
  unfold exc_severity, exc_str, exc_get. destruct (dget "severity" exc) as [v|]; simpl; [|done].
  intros Hv. unfold normalize_severity, py_or. simpl. by destruct (String.eqb_spec v "").
Qed.

(** One iteration: a valid exception with a new key is entered, any other adds an
    error. *)
Lemma index_exception_spec exc idx errs :
  (valid_exception exc ∧ idx !! exc_key exc = None ∧ ∃ d,
     parse_date (exc_str exc "expires_on") = Some d ∧
     index_exception exc (idx, errs) = Ok (<[exc_key exc := mkEntry exc (exc_severity exc) d]> idx, errs)) ∨
  (¬ (valid_exception exc ∧ idx !! exc_key exc = None) ∧
   ∃ e, index_exception exc (idx, errs) = Ok (idx, errs ++ [e])).
Proof.
  unfold index_exception, valid_exception. pose proof (missing_fields_nil exc) as Hm.
  destruct (missing_fields exc) as [|f fs].
  2:{ right. split; [|eauto]. intros [[Hf _] _]. apply Hm in Hf. done. }
  destruct Hm as [Hm _]. specialize (Hm eq_refl).
  rewrite exc_severity_spec by (apply Hm; unfold REQUIRED_FIELDS; set_solver). simpl.
  destruct (parse_date _) as [d|]; [|right; split; [|eauto]; intros [(_ & [? ?] & _) _]; done].
  change (normalize_package _, normalize_advisory _) with (exc_key exc).
  change (normalize_package (exc_get exc "package")) with (exc_key exc).1.
  change (normalize_advisory (exc_get exc "advisory")) with (exc_key exc).2.
  destruct (String.eqb_spec (exc_key exc).1 ""), (String.eqb_spec (exc_key exc).2 ""); simpl;
    try (right; split; [naive_solver|eauto]; done).
  destruct (idx !! exc_key exc); [right; split; [naive_solver|eauto]|left; naive_solver].
Qed.

(** The index knows exactly these exceptions. *)
Definition indexes (idx : gmap (string * string) entry) (excs : list fields) : Prop :=
  ∀ k e, idx !! k = Some e ↔
    ∃ exc d, exc ∈ excs ∧ k = exc_key exc ∧ parse_date (exc_str exc "expires_on") = Some d ∧
             e = mkEntry exc (exc_severity exc) d.

Lemma indexes_None idx excs k :
  (∀ exc, exc ∈ excs → valid_exception exc) → indexes idx excs → idx !! k = None ↔ k ∉ exc_key <$> excs.
Proof.
  intros Hv Hi. rewrite eq_None_not_Some. apply not_iff_compat. split.
  - intros [e (exc & d & Hin & -> & _)%Hi]. apply list_elem_of_fmap. eauto.
  - intros (exc & -> & Hin)%list_elem_of_fmap. destruct (Hv _ Hin) as (_ & [d Hd] & _).
    eexists. apply Hi. eauto 10.
Qed.

Lemma indexes_insert idx pre exc d :
  indexes idx pre → exc_key exc ∉ exc_key <$> pre → parse_date (exc_str exc "expires_on") = Some d →
  indexes (<[exc_key exc := mkEntry exc (exc_severity exc) d]> idx) (pre ++ [exc]).
Proof.
  intros Hi Hnew Hd k e. rewrite lookup_insert_Some. split.
  - intros [[<- <-]|[Hne (x & d' & Hin & -> & H1 & ->)%Hi]].
    + exists exc, d. set_solver.
    + exists x, d'. set_solver.
  - intros (x & d' & [Hin| ->%list_elem_of_singleton]%elem_of_app & -> & H1 & ->).
    + right. split; [|apply Hi; eauto 10]. intros E. apply Hnew. rewrite E. apply list_elem_of_fmap. eauto.
    + left. split; [done|]. congruence.
Qed.

(** The loop reports nothing exactly when all exceptions are valid and their keys
    distinct; then the index knows them all. *)
Lemma index_exceptions_spec excs pre idx errs :
  (errs = [] → (∀ exc, exc ∈ pre → valid_exception exc) ∧ indexes idx pre ∧ NoDup (exc_key <$> pre)) →
  ∃ idx' errs', index_exceptions excs (idx, errs) = Ok (idx', errs') ∧
    (errs' = [] → errs = [] ∧ (∀ exc, exc ∈ pre ++ excs → valid_exception exc) ∧
                  NoDup (exc_key <$> pre ++ excs) ∧ indexes idx' (pre ++ excs)) ∧
    (errs = [] → (∀ exc, exc ∈ excs → valid_exception exc) → NoDup (exc_key <$> pre ++ excs) → errs' = []).
Proof.
  revert pre idx errs. induction excs as [|exc excs IH]; intros pre idx errs Hpre; cbn [index_exceptions].
  { exists idx, errs. rewrite app_nil_r. split_and!; [done| |done].
    intros E. by destruct (Hpre E) as (? & ? & ?). }
  destruct (index_exception_spec exc idx errs) as [(Hv & Hnone & d & Hd & ->)|(Hbad & e & ->)]; cbn [mbind res_bind].
  - destruct (IH (pre ++ [exc]) (<[exc_key exc:=mkEntry exc (exc_severity exc) d]> idx) errs)
      as (idx' & errs' & -> & H1 & H2).
    { intros E. destruct (Hpre E) as (P1 & P2 & P3). apply (indexes_None idx pre) in Hnone; [|done..].
      split_and!; [|by apply indexes_insert|].
      - intros x [?| ->%list_elem_of_singleton]%elem_of_app; auto.
      - rewrite fmap_app. apply NoDup_app. split_and!; [done| |apply NoDup_singleton].
        intros x Hx ->%list_elem_of_singleton. done. }
    rewrite <- app_assoc in H1, H2. exists idx', errs'. split_and!; [done|done|].
    intros E Hall Hnd. apply H2; [done| |done]. intros x Hx. apply Hall. by right.
  - destruct (IH pre idx (errs ++ [e])) as (idx' & errs' & -> & H1 & H2); [by destruct errs|].
    exists idx', errs'. split_and!; [done|intros E; destruct (H1 E) as [Hn _]; by destruct errs|].
    intros E Hv Hnd. exfalso. destruct (Hpre E) as (P1 & P2 & P3). apply Hbad.
    split; [apply Hv; by left|]. apply (indexes_None idx pre); [done..|].
    rewrite fmap_app in Hnd. apply NoDup_app in Hnd as (_ & Hdis & _). intros Hin.
    apply (Hdis _ Hin). by left.
Qed.

(** ** The scan *)

Definition clean (st : scan) : Prop :=
  s_errors st = [] ∧ missing_exceptions st = [] ∧ expired_exceptions st = [].

(** What the loop body wants of a finding, when [S] are the keys seen before. *)
Definition vuln_ok (idx : gmap (string * string) entry) (today : Z) (S : string * string → Prop) (v : vuln) : Prop :=
  relevant v → (vuln_key v).2 ≠ "" ∧
    (S (vuln_key v) ∨
     ∃ e, idx !! vuln_key v = Some e ∧
       (e_severity e = "" ∨ normalize_severity (v_severity v) = Ok (e_severity e)) ∧ today ≤ e_expires_on e).

Definition adds_key (v : vuln) (k : string * string) : Prop :=
  relevant v ∧ (vuln_key v).2 ≠ "" ∧ k = vuln_key v.

Lemma relevant_iff v sev :
  normalize_severity (v_severity v) = Ok sev →
  relevant v ↔ negb (existsb (String.eqb sev) HIGH_SEVERITIES) || negb (truthy (v_name v)) = false.
Proof.
  intros Hs. unfold relevant. rewrite orb_false_iff, !negb_false_iff, existsb_exists. split.
  - intros [(sev' & E & Hin) Ht]. rewrite Hs in E. injection E as <-. split; [|done].
    exists sev. split; [by apply list_elem_of_In|apply String.eqb_refl].
  - intros [(x & Hin & E%String.eqb_eq) Ht]. subst x. split; [|done]. exists sev.
    split; [done|by apply list_elem_of_In].
Qed.

Lemma check_vuln_spec idx today v st :
  is_ok (normalize_severity (v_severity v)) = true →
  ∃ st', check_vuln idx today v st = Ok st' ∧
    (clean st' ↔ clean st ∧ vuln_ok idx today (λ k, k ∈ seen st) v) ∧
    (∀ k, k ∈ seen st' ↔ k ∈ seen st ∨ adds_key v k).
Proof.
  unfold check_vuln, vuln_ok, adds_key. destruct (normalize_severity _) as [sev|] eqn:Hs; [|done].
  intros _. pose proof (relevant_iff v sev Hs) as Hrel. cbn [mbind res_bind].
  destruct (_ || _) eqn:Hb.
  { exists st. split_and!; [done|naive_solver|naive_solver]. }
  assert (Hr : relevant v) by by apply Hrel. clear Hrel Hb.
  change (normalize_advisory (v_id v)) with (vuln_key v).2.
  destruct (String.eqb_spec (vuln_key v).2 "") as [Hk|Hk].
  { eexists. split_and!; [done| |naive_solver].
    split; [intros (E & _); by destruct (s_errors st)|naive_solver]. }
  change (normalize_package (v_name v), (vuln_key v).2) with (vuln_key v).
  case_decide as Hseen.
  { exists st. split_and!; [done|naive_solver|naive_solver]. }
  destruct (idx !! vuln_key v) as [e|].
  2:{ eexists. split_and!; [done| |intros k; simpl; rewrite elem_of_union, elem_of_singleton; naive_solver].
      split; [intros (_ & E & _); simpl in E; by destruct (missing_exceptions st)|naive_solver]. }
  eexists. split_and!; [done| |intros k; simpl; rewrite elem_of_union, elem_of_singleton; naive_solver].
  unfold clean. simpl.
  destruct (String.eqb_spec (e_severity e) ""), (String.eqb_spec (e_severity e) sev),
    (Z.ltb_spec (e_expires_on e) today); simpl;
    destruct (s_errors st), (missing_exceptions st), (expired_exceptions st); simpl;
    split; naive_solver lia.
Qed.

Lemma vuln_ok_proper idx today S T v : (∀ k, S k ↔ T k) → vuln_ok idx today S v ↔ vuln_ok idx today T v.
Proof. intros HST. unfold vuln_ok. by rewrite HST. Qed.

(** Keys seen after the findings [pre], when the scan started with [st]. *)
Definition seen_after (st : scan) (pre : list vuln) (k : string * string) : Prop :=
  k ∈ seen st ∨ ∃ w, w ∈ pre ∧ adds_key w k.

Lemma check_vulns_spec idx today vs st :
  (∀ v, v ∈ vs → is_ok (normalize_severity (v_severity v)) = true) →
  ∃ st', check_vulns idx today vs st = Ok st' ∧
    (clean st' ↔ clean st ∧ ∀ pre v post, vs = pre ++ v :: post → vuln_ok idx today (seen_after st pre) v).
Proof.
  revert st. induction vs as [|v vs IH]; intros st Hok; cbn [check_vulns].
  { exists st. split; [done|]. split; [|by intros []]. intros. split; [done|]. by intros [|??]. }
  destruct (check_vuln_spec idx today v st) as (st1 & -> & Hc & Hs); [apply Hok; by left|]. cbn [mbind res_bind].
  destruct (IH st1) as (st' & -> & IH'); [intros w Hw; apply Hok; by right|].
  exists st'. split; [done|]. rewrite IH', Hc. clear IH IH' Hok Hc.
  assert (Hsee : ∀ pre k, seen_after st1 pre k ↔ seen_after st (v :: pre) k).
  { intros pre k. unfold seen_after. rewrite Hs. setoid_rewrite elem_of_cons. naive_solver. }
  assert (H0 : ∀ k, k ∈ seen st ↔ seen_after st [] k).
  { intros k. unfold seen_after. setoid_rewrite elem_of_nil. naive_solver. }
  split.
  - intros [[Hcl Hv] Hrest]. split; [done|]. intros [|w pre] u post [= <- Eq].
    + by apply (vuln_ok_proper _ _ _ _ _ H0).
    + eapply vuln_ok_proper; [|eapply Hrest; eauto]. intros k. by rewrite Hsee.
  - intros [Hcl Hall]. split; [split; [done|]|].
    + apply (vuln_ok_proper _ _ _ _ _ H0). by eapply (Hall []).
    + intros pre u post ->. eapply vuln_ok_proper; [apply Hsee|]. by eapply (Hall (v :: pre)).
Qed.

(** A finding whose severity is no string stops the scan. *)
Lemma check_vulns_raise idx today vs st v :
  v ∈ vs → is_ok (normalize_severity (v_severity v)) = false → is_ok (check_vulns idx today vs st) = false.
Proof.
  intros Hin Hbad. revert st. induction vs as [|w vs IH]; intros st; cbn [check_vulns]; [by apply elem_of_nil in Hin|].
  apply elem_of_cons in Hin as [<-|Hin].
  - unfold check_vuln. by destruct (normalize_severity (v_severity v)).
  - destruct (check_vuln idx today w st) as [st'|]; cbn [mbind res_bind]; [by apply IH|done].
Qed.

#[local] Instance relevant_dec v : Decision (relevant v).
Proof.
  destruct (normalize_severity (v_severity v)) as [sev|] eqn:E.
  - destruct (negb (existsb (String.eqb sev) HIGH_SEVERITIES) || negb (truthy (v_name v))) eqn:Hb.
    + right. rewrite (relevant_iff v sev E). congruence.
    + left. by apply (relevant_iff v sev E).
  - right. intros [(sev & Hs & _) _]. congruence.
Defined.

Lemma key_before k (pre : list vuln) :
  (∃ w, w ∈ pre ∧ relevant w ∧ vuln_key w = k) ∨ (∀ w, w ∈ pre → relevant w → vuln_key w ≠ k).
Proof.
  destruct (decide (Exists (λ w, relevant w ∧ vuln_key w = k) pre)) as [He|He].
  - left. by apply Exists_exists in He.
  - right. intros w Hw Hr Hk. apply He, Exists_exists. eauto.
Qed.

(** In a clean scan every relevant finding has an entry that has not expired, even
    when its own check was skipped because the key had been seen. *)
Lemma scan_entry idx today vs errs n pre v post :
  (∀ pre v post, vs = pre ++ v :: post → vuln_ok idx today (seen_after (mkScan ∅ errs [] []) pre) v) →
  (length pre < n)%nat → vs = pre ++ v :: post → relevant v →
  ∃ e, idx !! vuln_key v = Some e ∧ today ≤ e_expires_on e ∧
    ((∀ w, w ∈ pre → relevant w → vuln_key w ≠ vuln_key v) →
     e_severity e = "" ∨ normalize_severity (v_severity v) = Ok (e_severity e)).
Proof.
  intros Hall. revert pre v post. induction n as [|n IH]; intros pre v post Hlen E Hr; [lia|].
  destruct (Hall pre v post E Hr) as [_ [[Hs|(w & Hw & Hrw & _ & Hk)]|(e & He & Hsev & Hd)]].
  - simpl in Hs. set_solver.
  - apply list_elem_of_split in Hw as (p1 & p2 & ->). rewrite length_app in Hlen. simpl in Hlen.
    destruct (IH p1 w (p2 ++ v :: post)) as (e & He & Hd & _); [lia|by rewrite E, <- app_assoc|done|].
    exists e. rewrite Hk. split_and!; [done|done|]. intros Hf. destruct (Hf w); [set_solver|done|done].
  - exists e. naive_solver.
Qed.

(** The per-finding conditions of the scan are those of the gate. *)
Lemma scan_conditions idx today excs vs errs :
  (∀ exc, exc ∈ excs → valid_exception exc) → indexes idx excs →
  (∀ pre v post, vs = pre ++ v :: post → vuln_ok idx today (seen_after (mkScan ∅ errs [] []) pre) v) ↔
  (∀ pre v post, vs = pre ++ v :: post → relevant v →
    (vuln_key v).2 ≠ "" ∧ ∃ exc, exc ∈ excs ∧
      covers today (∀ w, w ∈ pre → relevant w → vuln_key w ≠ vuln_key v) exc v).
Proof.
  intros Hv Hi. split; intros Hall pre v post E Hr.
  - split; [by apply (Hall pre v post E Hr)|].
    destruct (scan_entry idx today vs errs (S (length pre)) pre v post)
      as (e & (exc & d & Hin & Hk & Hd & ->)%Hi & Hexp & Hsev); [done|lia|done|done|].
    exists exc. split; [done|]. unfold covers. simpl in *. eauto.
  - destruct (Hall pre v post E Hr) as [Hne (exc & Hin & Hk & (d & Hd & Hle) & Hsev)]. split; [done|].
    destruct (key_before (vuln_key v) pre) as [(w & Hw & Hrw & Hkw)|Hfirst].
    + left. right. exists w. unfold adds_key. by rewrite Hkw.
    + right. exists (mkEntry exc (exc_severity exc) d). split_and!; [|by apply Hsev|done].
      apply Hi. exists exc, d. by rewrite Hk.
Qed.

Lemma verdict_clean st : verdict st = (0, []) ↔ clean st.
Proof.
  unfold verdict, clean.
  destruct (s_errors st), (missing_exceptions st), (expired_exceptions st); simpl; naive_solver.
Qed.

(** ** The extraction *)

Lemma py_get_field v k w : py_get v k = Ok w → ∃ d, v = PDict d ∧ w = field d k.
Proof. destruct v; try done. intros [= <-]. unfold field. eauto. Qed.

(** The elements of a generator that ends normally. *)
Lemma gen_each_elems {A B} (f : A → gen B) l ys :
  gen_each f l = (ys, None) →
  (∀ x, x ∈ l → (f x).2 = None) ∧ ∀ y, y ∈ ys ↔ ∃ x, x ∈ l ∧ y ∈ (f x).1.
Proof.
  revert ys. induction l as [|x l IH]; intros ys; cbn [gen_each].
  { intros [= <-]. split; [by intros x ?%elem_of_nil|]. intros y. setoid_rewrite elem_of_nil. naive_solver. }
  destruct (f x) as [zs [e|]] eqn:Hx; [done|]. destruct (gen_each f l) as [us e]. intros [= <- ->].
  destruct (IH us eq_refl) as [I1 I2]. split.
  - intros z [->|Hz]%elem_of_cons; [by rewrite Hx|by apply I1].
  - intros y. rewrite elem_of_app, I2. setoid_rewrite elem_of_cons. split.
    + intros [Hy|(z & ? & ?)]; [exists x; rewrite Hx; eauto|eauto].
    + intros (z & [->|Hz] & Hy); [rewrite Hx in Hy; eauto|eauto].
Qed.

Lemma or_else_best a d k rest w :
  (∀ u, rest = Ok u → u = best a) → a ≠ [] →
  or_else (py_get (PDict d) k) rest = Ok w → w = best (field d k :: a).
Proof.
  intros Hr Ha. unfold or_else. cbn [py_get]. change (default PNone (dget k d)) with (field d k).
  cbn [mbind res_bind]. destruct a as [|x a]; [done|]. cbn [best].
  destruct (truthy (field d k)); [by intros [= <-]|apply Hr].
Qed.

Lemma pick_advisory_id_spec d w : pick_advisory_id (PDict d) = Ok w → w = advisory_id d.
Proof.
  unfold pick_advisory_id, advisory_id. cbn [fmap list_fmap].
  apply or_else_best; [|done]. intros u1. apply or_else_best; [|done]. intros u2.
  unfold or_else at 1. cbn [py_get mbind res_bind]. change (default PNone (dget "cves" d)) with (field d "cves").
  destruct (first_of (py_or (field d "cves") (PList [PNone]))) as [c|] eqn:Hc; [|done]. cbn [mbind res_bind].
  assert (c = first_cve (field d "cves")) as ->.
  { unfold py_or in Hc. destruct (truthy (field d "cves")) eqn:Ht.
    - destruct (field d "cves"); simpl in *; repeat case_match; congruence.
    - injection Hc as <-. destruct (field d "cves"); simpl in *; repeat case_match; done. }
  cbn [best]. destruct (truthy (first_cve _)); [by intros [= <-]|].
  unfold or_else at 1. cbn [mbind res_bind]. change (default PNone (dget "id" d)) with (field d "id").
  assert ((if is_none (field d "id") then PNone else PStr (py_str (field d "id"))) = id_text (field d "id")) as ->
    by by destruct (field d "id").
  destruct (truthy (id_text _)); [by intros [= <-]|].
  apply (or_else_best [field d "advisory"; field d "overview"]); [|done]. intros u3.
  apply (or_else_best [field d "overview"]); [|done]. by intros u4 [= <-].
Qed.

Lemma of_advisory_spec a v :
  of_advisory a = Ok v → ∃ d, a = PDict d ∧ v_name v = advisory_package d ∧
    v_severity v = field d "severity" ∧ v_id v = advisory_id d.
Proof.
  unfold of_advisory. destruct a as [| | | | | | | |d|]; try done.
  destruct (or_else (py_get _ "module_name") _) as [name|] eqn:Hn; cbn [py_get mbind res_bind]; [|done].
  destruct (pick_advisory_id _) as [id|] eqn:Hi; cbn [mbind res_bind]; [|done].
  destruct (or_else (Ok _) (or_else _ _)); cbn [mbind res_bind]; [|done]. intros [= <-]. exists d. split_and!; [done| |done|by apply pick_advisory_id_spec].
  revert Hn. unfold advisory_package. cbn [fmap list_fmap]. apply or_else_best; [|done]. by intros u [= <-].
Qed.

(** The identifiers taken from [via]. *)
Lemma via_pairs_spec via id : id ∈ (via_pairs via).*1 ↔ identifies via id.
Proof.
  unfold via_pairs. split.
  - destruct via as [| | | | | |items| | |]; simpl; try by intros ?%elem_of_nil.
    + intros ->%list_elem_of_singleton. constructor.
    + intros ((a & t) & -> & (item & Hin & Hi)%list_elem_of_omap)%list_elem_of_fmap.
      destruct item; try done; injection Hi as <- <-; [by constructor|by apply (via_object items)].
  - intros [items d Hin|items s Hin|s]; simpl; [..|by left].
    + apply list_elem_of_fmap. eexists (_, _). split; [|apply list_elem_of_omap; exists (PDict d); split; [done|reflexivity]].
      done.
    + apply list_elem_of_fmap. exists (PStr s, PStr s). split; [done|].
      apply list_elem_of_omap. by exists (PStr s).
Qed.

Lemma of_vulnerability_spec name v vs :
  of_vulnerability (name, v) = (vs, None) → ∃ d title, v = PDict d ∧
    ∀ w, w ∈ vs ↔ ∃ id, identifies (field d "via") id ∧ truthy id = true ∧
                   w = mkVuln (PStr name) (field d "severity") id title.
Proof.
  unfold of_vulnerability. destruct v as [| | | | | | | |d|]; try done. cbn [py_get py_get_or mbind res_bind].
  destruct (py_join _ _) as [title|]; [|done]. cbn [mbind res_bind]. intros [= <-]. exists d, title.
  split; [done|]. intros w. rewrite list_elem_of_fmap.
  assert (via_pairs (default (PList []) (dget "via" d)) = via_pairs (field d "via")) as ->.
  { unfold field. by destruct (dget "via" d). }
  setoid_rewrite list_elem_of_filter. setoid_rewrite via_pairs_spec. naive_solver.
Qed.

Lemma advisories_listed adv vs name severity id :
  (match adv with PDict d => gen_each (λ a, gen_of (of_advisory a)) d.*2 | _ => ([], None) end) = (vs, None) →
  (∃ title, mkVuln name severity id title ∈ vs) ↔
  ∃ l k d, adv = PDict l ∧ (k, PDict d) ∈ l ∧
    name = advisory_package d ∧ severity = field d "severity" ∧ id = advisory_id d.
Proof.
  destruct adv as [| | | | | | | |l|]; try (intros [= <-]; split; [intros (? & ?%elem_of_nil)|]; naive_solver).
  intros [Hok Hel]%gen_each_elems. setoid_rewrite Hel. split.
  - intros (t & a & ((k & a') & -> & Hin)%list_elem_of_fmap & Ha). simpl in *.
    destruct (of_advisory a') as [v|] eqn:Hv; [|by apply elem_of_nil in Ha].
    apply list_elem_of_singleton in Ha. subst v. apply of_advisory_spec in Hv as (d & -> & ?). eauto 10.
  - intros (l' & k & d & [= <-] & Hin & -> & -> & ->).
    assert (Hd : PDict d ∈ l.*2) by (apply list_elem_of_fmap; by exists (k, PDict d)).
    specialize (Hok _ Hd). destruct (of_advisory (PDict d)) as [v|] eqn:Hv; [|done].
    pose proof (of_advisory_spec _ _ Hv) as (d' & [= <-] & <- & <- & <-).
    exists (v_title v), (PDict d). split; [done|]. rewrite Hv. destruct v. by left.
Qed.

Lemma vulnerabilities_listed vul vs name severity id :
  (match vul with PDict d => gen_each of_vulnerability d | _ => ([], None) end) = (vs, None) →
  (∃ title, mkVuln name severity id title ∈ vs) ↔
  ∃ l n d, vul = PDict l ∧ (n, PDict d) ∈ l ∧ identifies (field d "via") id ∧ truthy id = true ∧
    name = PStr n ∧ severity = field d "severity".
Proof.
  destruct vul as [| | | | | | | |l|]; try (intros [= <-]; split; [intros (? & ?%elem_of_nil)|]; naive_solver).
  intros [Hok Hel]%gen_each_elems. setoid_rewrite Hel. split.
  - intros (t & (n & v) & Hin & Hv). specialize (Hok _ Hin).
    destruct (of_vulnerability (n, v)) as [ws e] eqn:Hw. cbn [fst snd] in *. subst e.
    apply of_vulnerability_spec in Hw as (d & title & -> & Hws). apply Hws in Hv as (id' & ? & ? & [= -> -> -> ->]).
    eauto 10.
  - intros (l' & n & d & [= <-] & Hin & Hid & Ht & -> & ->). specialize (Hok _ Hin).
    destruct (of_vulnerability (n, PDict d)) as [ws e] eqn:Hw. cbn [fst snd] in *. subst e.
    pose proof (of_vulnerability_spec _ _ _ Hw) as (d' & title & [= <-] & Hws).
    exists title, (n, PDict d). split; [done|]. rewrite Hw. apply Hws. eauto.
Qed.

(** The extraction, when it ends normally, lists the findings of the report. *)
Lemma iter_vulns_spec audit vs :
  iter_vulns audit = (vs, None) → ∃ report, audit = PDict report ∧ lists_findings report vs.
Proof.
  unfold iter_vulns. destruct audit as [| | | | | | | |report|]; try done. cbn [py_get].
  change (default PNone (dget "advisories" report)) with (field report "advisories").
  change (default PNone (dget "vulnerabilities" report)) with (field report "vulnerabilities").
  intros Hg. exists report. split; [done|]. intros name severity id.
  unfold gen_app in Hg.
  destruct (match field report "advisories" with PDict _ => _ | _ => _ end) as [xs [e|]] eqn:Hx; [done|].
  destruct (match field report "vulnerabilities" with PDict _ => _ | _ => _ end) as [ys e] eqn:Hy.
  injection Hg as <- ->. setoid_rewrite elem_of_app.
  pose proof (λ n s i, advisories_listed _ _ n s i Hx) as Ha.
  pose proof (λ n s i, vulnerabilities_listed _ _ n s i Hy) as Hb. clear Hx Hy. split.
  - intros [l k d Hl Hin|l n d i Hl Hin Hid Ht].
    + destruct (proj2 (Ha (advisory_package d) (field d "severity") (advisory_id d))) as [t ?]; [by exists l, k, d|]. exists t. by left.
    + destruct (proj2 (Hb (PStr n) (field d "severity") i)) as [t ?]; [by exists l, n, d|]. exists t. by right.
  - intros (t & [Hin|Hin]).
    + destruct (proj1 (Ha name severity id)) as (l & k & d & Hl & Hk & -> & -> & ->); [eauto|].
      by eapply in_advisories.
    + destruct (proj1 (Hb name severity id)) as (l & n & d & Hl & Hk & Hid & Ht & -> & ->); [eauto|].
      by eapply in_vulnerabilities.
Qed.


End report.

(** ** Writing and reading the exception file *)

(** A field as a line of YAML with a quoted value. *)
Definition field_line (kv : string * string) : string :=
  kv.1 +:+ String ":" (String " " (String dquote (kv.2 +:+ String dquote ""))).

Definition render (exc : fields) : list string :=
  match exc with
  | [] => []
  | kv :: rest => ("- " +:+ field_line kv) :: ((λ kv, "  " +:+ field_line kv) <$> rest)
  end.

Definition render_file (excs : list fields) : list string :=
  "version: 1" :: "exceptions:" :: concat (render <$> excs).

(** A field name: lower-case letters and underscores, and not one of the two names
    the parser skips. *)
Definition name_char (a : ascii) : bool := Duration.is_lower a || Ascii.eqb a "_".
Definition field_name (k : string) : bool :=
  negb (String.eqb k "") && str_all name_char k &&
  negb (String.eqb k "version") && negb (String.eqb k "exceptions").

Definition printable (exc : fields) : Prop :=
  exc ≠ [] ∧ dict_wf exc ∧ Forall (λ kv, field_name kv.1 = true) exc.

Lemma name_char_facts a :
  name_char a = true → Ascii.eqb a ":" = false ∧ is_space a = false ∧ Ascii.eqb a "#" = false ∧ Ascii.eqb a "-" = false.
Proof.
  unfold name_char, Duration.is_lower. intros Ha.
  assert (Hc : code a = 95 ∨ 97 ≤ code a ≤ 122).
  { apply orb_true_iff in Ha as [Ha|Ha%Ascii.eqb_eq]; [lia|]. subst a. by left. }
  clear Ha. split_and!; try (apply Ascii.eqb_neq; intros ->; vm_compute in Hc; naive_solver).
  unfold is_space. lia.
Qed.

Lemma split_kv_field kv : field_name kv.1 = true → split_kv (field_line kv) = Ok kv.
Proof.
  destruct kv as [k v]. unfold field_line, field_name, split_kv. simpl.
  intros [[[Hne Hk]%andb_true_iff _]%andb_true_iff _]%andb_true_iff.
  rewrite split_once_app by (eapply str_all_impl; [|exact Hk]; intros a Ha; by destruct (name_char_facts a Ha) as (-> & _)).
  rewrite strip_space, (strip_tight (String dquote _)).
  2:{ unfold tight. simpl. by rewrite str_rev_cons, str_rev_concat. }
  assert (quoted_by dquote (String dquote (v +:+ String dquote "")) = true) as ->.
  { unfold quoted_by. apply andb_true_iff. split; [by destruct v|].
    apply (endswith_app (String dquote v)). }
  simpl. rewrite (strip_nospace k) by (eapply str_all_impl; [|exact Hk]; intros a Ha; by destruct (name_char_facts a Ha) as (_ & -> & _)).
  do 2 f_equal. unfold trim_ends. simpl. rewrite str_length_app, Nat.add_1_r. simpl. apply str_take_app.
Qed.

Lemma prefix_name k w r :
  str_all (λ a, negb (Ascii.eqb a ":")) k = true → str_all (λ a, negb (Ascii.eqb a ":")) w = true →
  startswith (k +:+ String ":" r) (w +:+ ":") = true → k = w.
Proof.
  unfold startswith. revert w. induction k as [|x k IH]; intros [|y w] Hk Hw; 
    rewrite ?str_app_cons, ?str_app_nil_l; cbn [String.prefix str_all] in *; try done.
  - destruct (ascii_dec y ":") as [->|]; [|done]. by rewrite Ascii.eqb_refl in Hw.
  - destruct (ascii_dec ":" x) as [<-|]; [|done]. by rewrite Ascii.eqb_refl in Hk.
  - apply andb_true_iff in Hk as [_ Hk], Hw as [_ Hw]. destruct (ascii_dec y x) as [->|]; [|done].
    intros Hp. f_equal. by apply IH.
Qed.

(** A field line survives [strip] and none of the parser's early tests applies. *)
Lemma field_line_tests kv :
  field_name kv.1 = true →
  tight (field_line kv) = true ∧ String.eqb (field_line kv) "" = false ∧
  startswith (field_line kv) "#" = false ∧ startswith (field_line kv) "version:" = false ∧
  startswith (field_line kv) "exceptions:" = false ∧ startswith (field_line kv) "- " = false ∧
  str_contains ":" (field_line kv) = true.
Proof.
  destruct kv as [k v]. unfold field_line, field_name. cbn [fst snd].
  intros [[[Hne Hk]%andb_true_iff Hv%negb_true_iff]%andb_true_iff He%negb_true_iff]%andb_true_iff.
  assert (Hcol : str_all (λ a, negb (Ascii.eqb a ":")) k = true).
  { eapply str_all_impl; [|exact Hk]. intros a Ha. by destruct (name_char_facts a Ha) as (-> & _). }
  assert (Hpre : ∀ w r, String.eqb k w = false → str_all (λ a, negb (Ascii.eqb a ":")) w = true →
            startswith (k +:+ String ":" r) (w +:+ ":") = false).
  { intros w r Hw Hwc. apply not_true_iff_false. intros E%prefix_name; [|done..].
    subst. by rewrite String.eqb_refl in Hw. }
  set (r := String " " _). split_and!.
  - unfold tight. subst r.
    change (String " " (String dquote (v +:+ String dquote ""))) with ((String " " (String dquote v)) +:+ String dquote "").
    change (String ":" (String " " (String dquote v) +:+ String dquote "")) with ((String ":" (String " " (String dquote v))) +:+ String dquote "").
    rewrite <- str_app_assoc, str_rev_concat. simpl.
    destruct k as [|a k]; [done|]. rewrite !str_app_cons. simpl in Hk. apply andb_true_iff in Hk as [Ha _].
    by destruct (name_char_facts a Ha) as (_ & -> & _).
  - by destruct k.
  - destruct k as [|a k]; [done|]. simpl in Hk. apply andb_true_iff in Hk as [Ha _]. rewrite str_app_cons.
    unfold startswith. cbn [String.prefix]. destruct (ascii_dec "#" a) as [<-|]; [|done].
    by destruct (name_char_facts "#" Ha) as (_ & _ & ? & _).
  - by apply (Hpre "version").
  - by apply (Hpre "exceptions").
  - destruct k as [|a k]; [done|]. simpl in Hk. apply andb_true_iff in Hk as [Ha _]. rewrite str_app_cons.
    unfold startswith. cbn [String.prefix]. destruct (ascii_dec "-" a) as [<-|]; [|done].
    by destruct (name_char_facts "-" Ha) as (_ & _ & _ & ?).
  - apply str_contains_mid.
Qed.

Lemma parse_first_field kv excs cur :
  field_name kv.1 = true →
  parse_line ("- " +:+ field_line kv) (excs, cur) = Ok (flush excs cur, Some [kv]).
Proof.
  intros Hk. destruct (field_line_tests kv Hk) as (Ht & He & _).
  unfold parse_line. rewrite (strip_tight ("- " +:+ _)).
  2:{ unfold tight in *. apply andb_true_iff in Ht as [_ Ht]. rewrite str_rev_concat. simpl.
      destruct (str_rev (field_line kv)) eqn:E; [|by rewrite str_app_cons].
      by rewrite <- (str_rev_involutive (field_line kv)), E in He. }
  change (startswith ("- " +:+ field_line kv) "- ") with (String.prefix "" (field_line kv)).
  replace (String.prefix "" (field_line kv)) with true by by destruct (field_line kv).
  change (str_drop 2 ("- " +:+ field_line kv)) with (field_line kv).
  rewrite (strip_tight (field_line kv)) by done. rewrite He, split_kv_field by done. by destruct kv.
Qed.

Lemma parse_next_field kv excs cur :
  field_name kv.1 = true → kv.1 ∉ dkeys cur →
  parse_line ("  " +:+ field_line kv) (excs, Some cur) = Ok (excs, Some (cur ++ [kv])).
Proof.
  intros Hk Hnew. destruct (field_line_tests kv Hk) as (Ht & He & H1 & H2 & H3 & H4 & H5).
  unfold parse_line. change ("  " +:+ field_line kv) with (String " " (String " " (field_line kv))).
  rewrite !strip_space, (strip_tight (field_line kv)) by done.
  rewrite He, H1, H2, H3, H4, H5, split_kv_field by done. destruct kv as [k v]. simpl in *.
  do 3 f_equal. clear -Hnew. induction cur as [|[k' v'] cur IH]; simpl in *; [done|].
  destruct (String.eqb_spec k k') as [->|]; [set_solver|]. rewrite IH; set_solver.
Qed.

Lemma parse_next_fields rest excs cur :
  Forall (λ kv, field_name kv.1 = true) rest → dict_wf (cur ++ rest) →
  parse_lines ((λ kv, "  " +:+ field_line kv) <$> rest) (excs, Some cur) = Ok (excs, Some (cur ++ rest)).
Proof.
  revert cur. induction rest as [|kv rest IH]; intros cur Hf Hd; cbn [fmap list_fmap parse_lines].
  { by rewrite app_nil_r. }
  apply Forall_cons in Hf as [Hk Hf]. rewrite parse_next_field; [|done|].
  - cbn [mbind res_bind]. rewrite IH; [by rewrite <- app_assoc|done|by rewrite <- app_assoc].
  - unfold dict_wf, dkeys in *. rewrite fmap_app in Hd. apply NoDup_app in Hd as (_ & Hd & _).
    intros Hin. apply (Hd _ Hin). by left.
Qed.

Lemma parse_lines_app l1 l2 st :
  parse_lines (l1 ++ l2) st = (st' ← parse_lines l1 st; parse_lines l2 st').
Proof.
  revert st. induction l1 as [|x l1 IH]; intros st; [done|]. cbn [app parse_lines].
  destruct (parse_line x st) as [st'|]; cbn [mbind res_bind]; [apply IH|done].
Qed.

Lemma parse_render exc excs cur :
  printable exc → parse_lines (render exc) (excs, cur) = Ok (flush excs cur, Some exc).
Proof.
  intros (Hne & Hd & Hf). destruct exc as [|kv rest]; [done|]. apply Forall_cons in Hf as [Hk Hf].
  cbn [render parse_lines]. rewrite parse_first_field by done. cbn [mbind res_bind].
  by rewrite parse_next_fields.
Qed.

Lemma parse_renders excs done_ cur :
  Forall printable excs →
  ('(es, c) ← parse_lines (concat (render <$> excs)) (done_, cur); Ok (flush es c)) = Ok (flush done_ cur ++ excs).
Proof.
  revert done_ cur. induction excs as [|exc excs IH]; intros done_ cur Hp; cbn [fmap list_fmap concat].
  { cbn. by rewrite app_nil_r. }
  apply Forall_cons in Hp as [Hx Hp]. rewrite parse_lines_app, parse_render by done. cbn [mbind res_bind] in *.
  rewrite IH by done. f_equal. destruct exc; [by destruct Hx|]. cbn. by rewrite <- app_assoc.
Qed.

(** Reading back a written exception list gives the list: field order and every value
    survive, values with colons, quotes, hash signs or blanks at their ends included. *)
Theorem exceptions_roundtrip (excs : list fields) (Hp : Forall printable excs) :
  parse_exceptions (render_file excs) = Ok excs.
Proof. apply (parse_renders excs [] None Hp). Qed.

Lemma exceptions_roundtrip_witness :
  parse_exceptions (render_file [[("package", "a: b"); ("advisory", " #1 ")]; [("severity", "high")]])
  = Ok [[("package", "a: b"); ("advisory", " #1 ")]; [("severity", "high")]].
Proof.
  apply exceptions_roundtrip.
  repeat constructor; try done; simpl; set_solver.
Defined.

(** ** Limits of the gate *)

Section limits.
Context `{PyRuntime}.

(** A finding of the [vulnerabilities] form that names no advisory is not reported at
    all: whatever its severity, the gate returns 0.  (In the [advisories] form the
    same situation is an error.) *)
Theorem unnamed_finding_passes (name sev : string) (today : Z) :
  main (PDict [("vulnerabilities", PDict [(name, PDict [("severity", PStr sev); ("via", PList [])])])]) [] today
  = Ok (0, []).
Proof. done. Qed.

(** A numeric [source] as the only description of a finding: the identifiers allow it,
    the titles do not, and the script ends with [TypeError]. *)
Theorem numeric_source_raises (name sev : string) (n today : Z) :
  n ≠ 0 →
  main (PDict [("vulnerabilities", PDict [(name, PDict [("severity", PStr sev);
          ("via", PList [PDict [("source", PInt n)]])])])]) [] today
  = Raise TypeError.
Proof. intros Hn. destruct n; done. Qed.

(** Only the first finding with a given package and advisory has its severity
    compared: a critical one listed after a high one passes under an exception for
    high. *)
Theorem second_severity_unchecked :
  let excs := render_file [[("package", "p"); ("advisory", "x"); ("severity", "high");
                            ("mitigation", "m"); ("expires_on", "2030-01-01")]] in
  let adv sev := PDict [("module_name", PStr "p"); ("severity", PStr sev); ("url", PStr "x")] in
  main (PDict [("advisories", PDict [("1", adv "high"); ("2", adv "critical")])]) excs 739000 = Ok (0, []) ∧
  main (PDict [("advisories", PDict [("1", adv "critical"); ("2", adv "high")])]) excs 739000
    = Ok (1, [SeverityMismatch (PStr "p") (PStr "x") "critical" "high"]).
Proof. split; vm_compute; reflexivity. Qed.
End limits.

Example dates :
  fromisoformat "2024-02-29" = Some 738945 ∧ fromisoformat "20240229" = Some 738945 ∧
  fromisoformat "2023-02-29" = None ∧ fromisoformat "2024-W09-4" = Some 738945 ∧
  fromisoformat "2020W537" = Some (Duration.toordinal 2021 1 3) ∧ fromisoformat "2024-0229" = None ∧
  fromisoformat "2021-W53" = None.
Proof. by vm_compute. Qed.

End PnpmAudit.
