(* ===== verification/Regex.v ===== *)
(** * Regex: the regular expressions of the access checks

    Route templates and allowed-model patterns become regular expressions that are
    matched whole ([re.match] of the pattern between [^] and [$]).  The expressions are
    sequences of characters, dots and negated one-character classes, each with an
    optional [*], [+] or [?]; [re_parse] reads that syntax and [accepts] decides it.
    [lang] is the language such an expression denotes, and the two agree.  Expressions
    outside the syntax (groups, alternatives, escapes, ...) are left to [PyRe]. *)

From stdpp Require Import base list strings.
From Stdlib Require Import ZArith Lia Ascii.
From S2P Require Import Prelude PyStr.

Module Regex.

Inductive atom : Type :=
| Char (a : ascii)
| AnyChar                     (* a dot: every character but the newline *)
| NotChar (a : ascii).        (* [^a] *)

Inductive quant : Type := One | Opt | Many | Many1.

Definition regex : Type := list (atom * quant).

Definition newline : ascii := ascii_of_nat 10.

Definition atom_accepts (t : atom) (c : ascii) : bool :=
  match t with
  | Char a => Ascii.eqb c a
  | AnyChar => negb (Ascii.eqb c newline)
  | NotChar a => negb (Ascii.eqb c a)
  end.

(** ** Reading an expression *)

Definition metachars : list ascii :=
  ["("%char; ")"%char; "["%char; "]"%char; "{"%char; "}"%char; ascii_of_nat 92; "|"%char; "^"%char; "$"%char;
   "*"%char; "+"%char; "?"%char; "."%char].

Definition meta (c : ascii) : bool := existsb (Ascii.eqb c) metachars.
Definition plain (s : string) : bool := str_all (λ c, negb (meta c)) s.

Definition quantifier (c : ascii) : option quant :=
  if Ascii.eqb c "*" then Some Many else if Ascii.eqb c "+" then Some Many1
  else if Ascii.eqb c "?" then Some Opt else None.

(** The atom read last, not repeated. *)
Definition pend (pending : option atom) : regex :=
  match pending with Some t => [(t, One)] | None => [] end.

(** Read [s]; [pending] is an atom that a quantifier may still follow. *)
Fixpoint re_parse_from (pending : option atom) (s : string) : option regex :=
  match s with
  | EmptyString => Some (pend pending)
  | String c s' =>
      match quantifier c with
      | Some q =>
          match pending with
          | Some t => cons (t, q) <$> re_parse_from None s'
          | None => None
          end
      | None =>
          app (pend pending) <$>
          (if Ascii.eqb c "[" then
             match s' with
             | String h (String d (String k s2)) =>
                 if Ascii.eqb h "^" && negb (meta d) && Ascii.eqb k "]" then re_parse_from (Some (NotChar d)) s2
                 else None
             | _ => None
             end
           else if Ascii.eqb c "." then re_parse_from (Some AnyChar) s'
           else if meta c then None else re_parse_from (Some (Char c)) s')
      end
  end.

Definition re_parse : string → option regex := re_parse_from None.

(** ** Matching *)

(** As many characters of [t] as the rest [k] allows. *)
Fixpoint many_then (t : atom) (k : string → bool) (s : string) : bool :=
  k s || match s with String c s' => atom_accepts t c && many_then t k s' | EmptyString => false end.

Definition one_then (t : atom) (k : string → bool) (s : string) : bool :=
  match s with String c s' => atom_accepts t c && k s' | EmptyString => false end.

Fixpoint accepts (r : regex) (s : string) : bool :=
  match r with
  | [] => String.eqb s ""
  | (t, q) :: r' =>
      match q with
      | One => one_then t (accepts r') s
      | Opt => accepts r' s || one_then t (accepts r') s
      | Many => many_then t (accepts r') s
      | Many1 => one_then t (many_then t (accepts r')) s
      end
  end.

(** [$] matches at the end, and before a newline that ends the string. *)
Definition chop_newline (s : string) : option string :=
  if endswith s (String newline "") then Some (str_take (String.length s - 1) s) else None.

(** [bool(re.match("^" + p + "$", s))] for the expression [r] of [p]. *)
Definition fullmatch (r : regex) (s : string) : bool :=
  accepts r s || match chop_newline s with Some s' => accepts r s' | None => false end.

(** What [re] does with an expression outside the syntax above: match or not, or
    [re.error]. *)
Class PyRe := { re_other : string → string → res bool }.

Definition re_match_anchored `{PyRe} (p s : string) : res bool :=
  match re_parse p with
  | Some r => Ok (fullmatch r s)
  | None => re_other p s
  end.

(** ** The language of an expression *)

Definition times (q : quant) (n : nat) : Prop :=
  match q with One => n = 1%nat | Opt => (n ≤ 1)%nat | Many => True | Many1 => (1 ≤ n)%nat end.

Inductive lang : regex → string → Prop :=
| lang_nil : lang [] ""
| lang_cons t q r u v :
    times q (String.length u) → str_all (atom_accepts t) u = true → lang r v →
    lang ((t, q) :: r) (u +:+ v).

Lemma one_then_spec t k s :
  one_then t k s = true ↔ ∃ c s', s = String c s' ∧ atom_accepts t c = true ∧ k s' = true.
Proof.
  destruct s as [|c s]; simpl; [by split; [|intros (?&?&?&?)]|].
  rewrite andb_true_iff. split; [by eauto|by intros (?&?&[= <- <-]&?&?)].
Qed.

Lemma many_then_spec t k s :
  many_then t k s = true ↔ ∃ u v, s = u +:+ v ∧ str_all (atom_accepts t) u = true ∧ k v = true.
Proof.
  split.
  - induction s as [|c s IH]; simpl; rewrite orb_true_iff.
    + intros [?|?]; [|done]. by exists "", "".
    + rewrite andb_true_iff. intros [?|[Hc Hs]]; [by exists "", (String c s)|].
      destruct (IH Hs) as (u & v & -> & Hu & Hv). exists (String c u), v. simpl. by rewrite Hc.
  - intros (u & v & -> & Hu & Hv). induction u as [|c u IH]; simpl in *.
    + rewrite str_app_nil_l. destruct v; simpl; by rewrite Hv.
    + apply andb_true_iff in Hu as [Hc Hu]. simpl. by rewrite Hc, IH, orb_true_r.
Qed.

(** The matcher decides membership in the language. *)
Lemma accepts_lang r s : accepts r s = true ↔ lang r s.
Proof.
  revert s. induction r as [|[t q] r IH]; intros s; simpl.
  { rewrite String.eqb_eq. split; [intros ->; constructor|by inversion 1]. }
  assert (Hone : one_then t (accepts r) s = true ↔
                 ∃ c v, s = String c v ∧ atom_accepts t c = true ∧ lang r v).
  { rewrite one_then_spec. by setoid_rewrite IH. }
  split.
  - destruct q.
    + intros (c & v & -> & Hc & Hv)%Hone. apply (lang_cons _ _ _ (String c "") v); simpl; by rewrite ?Hc.
    + intros [H|H]%orb_true_iff.
      * apply (lang_cons _ _ _ "" s); [simpl; lia|done|by apply IH].
      * apply Hone in H as (c & v & -> & Hc & Hv).
        apply (lang_cons _ _ _ (String c "") v); simpl; by rewrite ?Hc.
    + intros (u & v & -> & Hu & Hv)%many_then_spec. constructor; [done..|by apply IH].
    + intros (c & s' & -> & Hc & (u & v & -> & Hu & Hv)%many_then_spec)%one_then_spec.
      rewrite <-str_app_cons. constructor; [simpl; lia|simpl; by rewrite Hc|by apply IH].
  - inversion 1 as [|? ? ? u v Hn Hu Hv]; subst. destruct q; simpl in Hn.
    + destruct u as [|c [|]]; try done. simpl in Hu. rewrite andb_true_r in Hu.
      apply Hone. by exists c, v.
    + apply orb_true_iff. destruct u as [|c [|]]; [left; by apply IH| |simpl in Hn; lia].
      right. simpl in Hu. rewrite andb_true_r in Hu. apply Hone. by exists c, v.
    + apply many_then_spec. exists u, v. split_and!; [done..|by apply IH].
    + destruct u as [|c u]; [simpl in Hn; lia|]. simpl in Hu. apply andb_true_iff in Hu as [Hc Hu].
      apply one_then_spec. exists c, (u +:+ v). split_and!; [done..|].
      apply many_then_spec. exists u, v. split_and!; [done..|by apply IH].
Qed.

(** ** Literals *)

Fixpoint lits (l : string) : regex :=
  match l with EmptyString => [] | String c l' => (Char c, One) :: lits l' end.

Lemma lang_lits l r s : lang (lits l ++ r) s ↔ ∃ v, s = l +:+ v ∧ lang r v.
Proof.
  revert s. induction l as [|c l IH]; intros s; simpl.
  { split; [by exists s|by intros (? & -> & ?)]. }
  split.
  - inversion 1 as [|? ? ? u v Hn Hu Hv]; subst. apply IH in Hv as (w & -> & Hw).
    destruct u as [|d [|]]; try done. simpl in Hu. rewrite andb_true_r in Hu.
    apply Ascii.eqb_eq in Hu as ->. by exists w.
  - intros (v & -> & Hv). apply (lang_cons _ _ _ (String c "") (l +:+ v)); [done| |apply IH; eauto].
    simpl. by rewrite Ascii.eqb_refl.
Qed.

Lemma lang_lits_only l s : lang (lits l) s ↔ s = l.
Proof.
  rewrite <-(app_nil_r (lits l)), lang_lits. split.
  - intros (v & -> & Hv). inversion Hv. by rewrite str_app_nil_r.
  - intros ->. exists "". by rewrite str_app_nil_r; split; [|constructor].
Qed.

(** What may follow an atom without repeating it. *)
Definition no_quantifier (s : string) : Prop :=
  match s with String c _ => quantifier c = None | EmptyString => True end.

Lemma meta_not_quantifier c : meta c = false → quantifier c = None.
Proof. destruct c as [[] [] [] [] [] [] [] []]; vm_compute; done. Qed.

Lemma meta_char c : meta c = false → Ascii.eqb c "[" = false ∧ Ascii.eqb c "." = false.
Proof. destruct c as [[] [] [] [] [] [] [] []]; vm_compute; done. Qed.

Lemma re_parse_pending p s : no_quantifier s → re_parse_from p s = app (pend p) <$> re_parse_from None s.
Proof.
  destruct s as [|c s]; intros Hq; [simpl; by rewrite app_nil_r|].
  simpl in Hq |- *. rewrite Hq. by destruct (if Ascii.eqb c "[" then _ else _).
Qed.

Lemma re_parse_plain l s p :
  plain l = true → no_quantifier s →
  re_parse_from p (l +:+ s) = app (pend p ++ lits l) <$> re_parse_from None s.
Proof.
  intros Hl Hs. revert p Hl. induction l as [|c l IH]; intros p Hl.
  { rewrite str_app_nil_l, app_nil_r. by apply re_parse_pending. }
  unfold plain in *. cbn [str_all] in Hl. apply andb_true_iff in Hl as [Hc%negb_true_iff Hl].
  destruct (meta_char c Hc) as [Hb Hd].
  rewrite str_app_cons. cbn [re_parse_from]. rewrite meta_not_quantifier, Hb, Hd, Hc, IH by done.
  destruct (re_parse_from None s); simpl; [|done]. by rewrite <-!app_assoc.
Qed.

Lemma re_parse_literal l : plain l = true → re_parse l = Some (lits l).
Proof.
  intros Hl. unfold re_parse. rewrite <-(str_app_nil_r l) at 1.
  rewrite re_parse_plain by done. simpl. by rewrite app_nil_r.
Qed.

(** A whole match, with the language for the matcher. *)
Lemma chop_newline_spec s s' : chop_newline s = Some s' ↔ s = s' +:+ String newline "".
Proof.
  assert (Htake : ∀ u, str_take (String.length (u +:+ String newline "") - 1) (u +:+ String newline "") = u).
  { intros u. rewrite str_length_app. cbn [String.length].
    replace (String.length u + 1 - 1)%nat with (String.length u) by lia. apply str_take_app. }
  unfold chop_newline. split.
  - destruct (endswith s _) eqn:E; [|done]. apply endswith_iff in E as [u ->]. rewrite Htake. by intros [= ->].
  - intros ->. by rewrite endswith_app, Htake.
Qed.

Lemma fullmatch_spec r s :
  fullmatch r s = true ↔ lang r s ∨ ∃ s', s = s' +:+ String newline "" ∧ lang r s'.
Proof.
  unfold fullmatch. rewrite orb_true_iff, accepts_lang. f_equiv.
  setoid_rewrite <-chop_newline_spec. destruct (chop_newline s) as [s'|].
  - rewrite accepts_lang. split; [eauto|by intros (? & [= <-] & ?)].
  - split; [done|by intros (? & ? & ?)].
Qed.

(** An engine that refuses every other expression. *)
Definition toy_re : PyRe := {| re_other := λ _ _, Raise (GenericError "re.error") |}.

End Regex.
