(* ===== verification/Routes.v ===== *)
(** * Routes: the route tables of [proxy/_types.py]

    The enumerations [LitellmUserRoles], [KeyManagementRoutes] and [LiteLLMRoutes], on which
    every access decision of the proxy is based.  A member of [LiteLLMRoutes] is a list of
    routes: plain paths, templates with [{name}] placeholders, and prefixes that end in
    a star.  Theorem: every template is in the syntax [Regex] reads, so what a table
    entry matches is decided by the model. *)

From stdpp Require Import base list strings.
From Stdlib Require Import ZArith Lia Ascii.
From S2P Require Import Prelude PyStr Regex.

Module Routes.

Inductive LitellmUserRoles : Type :=
| PROXY_ADMIN | PROXY_ADMIN_VIEW_ONLY | ORG_ADMIN | INTERNAL_USER | INTERNAL_USER_VIEW_ONLY | TEAM | CUSTOMER.

#[export] Instance role_eq_dec : EqDecision LitellmUserRoles.
Proof. solve_decision. Defined.

Definition role_value (r : LitellmUserRoles) : string :=
  match r with
  | PROXY_ADMIN => "proxy_admin"
  | PROXY_ADMIN_VIEW_ONLY => "proxy_admin_viewer"
  | ORG_ADMIN => "org_admin"
  | INTERNAL_USER => "internal_user"
  | INTERNAL_USER_VIEW_ONLY => "internal_user_viewer"
  | TEAM => "team"
  | CUSTOMER => "customer"
  end.

Definition all_roles : list LitellmUserRoles :=
  [PROXY_ADMIN; PROXY_ADMIN_VIEW_ONLY; ORG_ADMIN; INTERNAL_USER; INTERNAL_USER_VIEW_ONLY; TEAM; CUSTOMER].

(** [LitellmUserRoles(value)]; [None] is the [ValueError] of an unknown value. *)
Definition role_of_value (v : string) : option LitellmUserRoles :=
  List.find (λ r, String.eqb (role_value r) v) all_roles.

Inductive KeyManagementRoutes : Type :=
| KEY_GENERATE | KEY_UPDATE | KEY_DELETE | KEY_REGENERATE | KEY_GENERATE_SERVICE_ACCOUNT
| KEY_REGENERATE_WITH_PATH_PARAM | KEY_BLOCK | KEY_UNBLOCK | KEY_BULK_UPDATE | KEY_RESET_SPEND
| KEY_INFO | KEY_HEALTH | KEY_LIST | KEY_ALIASES | TEAM_DAILY_ACTIVITY.

Definition KeyManagementRoutes_value (r : KeyManagementRoutes) : string :=
  match r with
  | KEY_GENERATE => "/key/generate"
  | KEY_UPDATE => "/key/update"
  | KEY_DELETE => "/key/delete"
  | KEY_REGENERATE => "/key/regenerate"
  | KEY_GENERATE_SERVICE_ACCOUNT => "/key/service-account/generate"
  | KEY_REGENERATE_WITH_PATH_PARAM => "/key/{key_id}/regenerate"
  | KEY_BLOCK => "/key/block"
  | KEY_UNBLOCK => "/key/unblock"
  | KEY_BULK_UPDATE => "/key/bulk_update"
  | KEY_RESET_SPEND => "/key/{key_id}/reset_spend"
  | KEY_INFO => "/key/info"
  | KEY_HEALTH => "/key/health"
  | KEY_LIST => "/key/list"
  | KEY_ALIASES => "/key/aliases"
  | TEAM_DAILY_ACTIVITY => "/team/daily/activity"
  end.

Definition all_key_routes : list KeyManagementRoutes :=
  [KEY_GENERATE; KEY_UPDATE; KEY_DELETE; KEY_REGENERATE; KEY_GENERATE_SERVICE_ACCOUNT;
   KEY_REGENERATE_WITH_PATH_PARAM; KEY_BLOCK; KEY_UNBLOCK; KEY_BULK_UPDATE; KEY_RESET_SPEND;
   KEY_INFO; KEY_HEALTH; KEY_LIST; KEY_ALIASES; TEAM_DAILY_ACTIVITY].

(** [KeyManagementRoutes(value)]. *)
Definition key_route_of_value (v : string) : option KeyManagementRoutes :=
  List.find (λ r, String.eqb (KeyManagementRoutes_value r) v) all_key_routes.

(** ** [LiteLLMRoutes] *)

Definition openai_route_names : list string :=
  ["chat_completion"; "completion"; "embeddings"; "image_generation"; "video_generation";
   "audio_transcriptions"; "moderations"; "model_list"].

Definition openai_routes : list string :=
  ["/engines/{model}/chat/completions"; "/openai/deployments/{model}/chat/completions"; "/chat/completions";
   "/v1/chat/completions"; "/cursor/chat/completions"; "/engines/{model}/completions";
   "/openai/deployments/{model}/completions"; "/completions"; "/v1/completions";
   "/engines/{model}/embeddings"; "/openai/deployments/{model}/embeddings"; "/embeddings"; "/v1/embeddings";
   "/images/generations"; "/v1/images/generations"; "/images/edits"; "/v1/images/edits"; "/videos";
   "/v1/videos"; "/videos/{video_id}"; "/v1/videos/{video_id}"; "/videos/{video_id}/content";
   "/v1/videos/{video_id}/content"; "/videos/{video_id}/remix"; "/v1/videos/{video_id}/remix";
   "/audio/transcriptions"; "/v1/audio/transcriptions"; "/audio/speech"; "/v1/audio/speech"; "/moderations";
   "/v1/moderations"; "/v1/batches"; "/batches"; "/v1/batches/{batch_id}"; "/batches/{batch_id}";
   "/v1/batches/{batch_id}/cancel"; "/batches/{batch_id}/cancel"; "/v1/files"; "/files";
   "/v1/files/{file_id}"; "/files/{file_id}"; "/v1/files/{file_id}/content"; "/files/{file_id}/content";
   "/fine_tuning/jobs"; "/v1/fine_tuning/jobs"; "/fine_tuning/jobs/{fine_tuning_job_id}/cancel";
   "/v1/fine_tuning/jobs/{fine_tuning_job_id}/cancel"; "/assistants"; "/v1/assistants";
   "/v1/assistants/{assistant_id}"; "/assistants/{assistant_id}"; "/threads"; "/v1/threads";
   "/threads/{thread_id}"; "/v1/threads/{thread_id}"; "/threads/{thread_id}/messages";
   "/v1/threads/{thread_id}/messages"; "/threads/{thread_id}/runs"; "/v1/threads/{thread_id}/runs";
   "/models"; "/v1/models"; "/utils/token_counter"; "/utils/transform_request"; "/rerank"; "/v1/rerank";
   "/v2/rerank"; "/realtime"; "/v1/realtime"; "/realtime?{model}"; "/v1/realtime?{model}"; "/responses";
   "/v1/responses"; "/responses/{response_id}"; "/v1/responses/{response_id}";
   "/responses/{response_id}/input_items"; "/v1/responses/{response_id}/input_items";
   "/responses/{response_id}/cancel"; "/v1/responses/{response_id}/cancel"; "/vector_stores";
   "/v1/vector_stores"; "/vector_stores/{vector_store_id}/search";
   "/v1/vector_stores/{vector_store_id}/search"; "/vector_stores/{vector_store_id}/files";
   "/v1/vector_stores/{vector_store_id}/files"; "/vector_stores/{vector_store_id}/files/{file_id}";
   "/v1/vector_stores/{vector_store_id}/files/{file_id}";
   "/vector_stores/{vector_store_id}/files/{file_id}/content";
   "/v1/vector_stores/{vector_store_id}/files/{file_id}/content"; "/vector_store/list";
   "/v1/vector_store/list"; "/search"; "/v1/search"; "/search/{search_tool_name}";
   "/v1/search/{search_tool_name}"; "/ocr"; "/v1/ocr"; "/containers"; "/v1/containers"; "/containers/*";
   "/v1/containers/*"].

Definition mapped_pass_through_routes : list string :=
  ["/bedrock"; "/vertex-ai"; "/vertex_ai"; "/cohere"; "/cursor"; "/gemini"; "/anthropic"; "/langfuse";
   "/azure"; "/azure_ai"; "/openai"; "/openai_passthrough"; "/assemblyai"; "/eu.assemblyai"; "/vllm";
   "/mistral"; "/milvus"].

Definition passthrough_routes_wildcard : list string :=
  (λ route, route +:+ "/*") <$> mapped_pass_through_routes.

Definition litellm_native_routes : list string :=
  ["/rag/ingest"; "/v1/rag/ingest"; "/rag/query"; "/v1/rag/query"].

Definition anthropic_routes : list string :=
  ["/v1/messages"; "/v1/messages/count_tokens"; "/v1/skills"; "/v1/skills/{skill_id}"].

Definition mcp_routes : list string :=
  ["/mcp"; "/mcp/"; "/mcp/{subpath}"; "/mcp/tools"; "/mcp/tools/list"; "/mcp/tools/call";
   "/mcp-rest/tools/list"; "/mcp-rest/tools/call"; "/v1/mcp/server"].

Definition agent_routes : list string :=
  ["/v1/agents"; "/v1/agents/{agent_id}"; "/agents"; "/a2a/{agent_id}"; "/a2a/{agent_id}/message/send";
   "/a2a/{agent_id}/message/stream"; "/a2a/{agent_id}/.well-known/agent-card.json"].

Definition google_routes : list string :=
  ["/v1beta/models/{model_name:path}:countTokens"; "/v1beta/models/{model_name:path}:generateContent";
   "/v1beta/models/{model_name:path}:streamGenerateContent"; "/models/{model_name:path}:countTokens";
   "/models/{model_name:path}:generateContent"; "/models/{model_name:path}:streamGenerateContent";
   "/interactions"; "/v1beta/interactions"; "/interactions/{interaction_id}";
   "/v1beta/interactions/{interaction_id}"; "/interactions/{interaction_id}/cancel";
   "/v1beta/interactions/{interaction_id}/cancel"].

Definition apply_guardrail_routes : list string :=
  ["/guardrails/apply_guardrail"].

Definition llm_api_routes : list string :=
  openai_routes
  ++ anthropic_routes
  ++ google_routes
  ++ mapped_pass_through_routes
  ++ passthrough_routes_wildcard
  ++ apply_guardrail_routes
  ++ mcp_routes
  ++ litellm_native_routes
  ++ agent_routes.

Definition info_routes : list string :=
  ["/key/info"; "/key/health"; "/team/info"; "/team/list"; "/v2/team/list"; "/organization/list";
   "/team/available"; "/user/info"; "/model/info"; "/v1/model/info"; "/v2/model/info"; "/v2/key/info";
   "/model_group/info"; "/health"; "/key/list"; "/user/filter/ui"; "/models"; "/v1/models"].

Definition master_key_only_routes : list string :=
  ["/global/spend/reset"; "/memory-usage-in-mem-cache"; "/memory-usage-in-mem-cache-items"].

Definition key_management_routes : list string :=
  [KeyManagementRoutes_value KEY_GENERATE; KeyManagementRoutes_value KEY_UPDATE;
   KeyManagementRoutes_value KEY_DELETE; KeyManagementRoutes_value KEY_INFO;
   KeyManagementRoutes_value KEY_REGENERATE; KeyManagementRoutes_value KEY_GENERATE_SERVICE_ACCOUNT;
   KeyManagementRoutes_value KEY_REGENERATE_WITH_PATH_PARAM; KeyManagementRoutes_value KEY_LIST;
   KeyManagementRoutes_value KEY_BLOCK; KeyManagementRoutes_value KEY_UNBLOCK;
   KeyManagementRoutes_value KEY_BULK_UPDATE; KeyManagementRoutes_value TEAM_DAILY_ACTIVITY;
   KeyManagementRoutes_value KEY_RESET_SPEND; KeyManagementRoutes_value KEY_ALIASES].

Definition management_routes : list string :=
  ["/user/new"; "/user/update"; "/user/delete"; "/user/info"; "/user/list"; "/user/daily/activity";
   "/user/daily/activity/aggregated"; "/team/new"; "/team/update"; "/team/delete"; "/team/list";
   "/v2/team/list"; "/team/info"; "/team/block"; "/team/unblock"; "/team/available";
   "/team/permissions_list"; "/team/permissions_update"; "/team/daily/activity"; "/model/new";
   "/model/update"; "/model/delete"; "/model/info"; "/jwt/key/mapping/new"; "/jwt/key/mapping/update";
   "/jwt/key/mapping/delete"; "/jwt/key/mapping/list"; "/jwt/key/mapping/info"]
  ++ key_management_routes.

Definition spend_tracking_routes : list string :=
  ["/spend/keys"; "/spend/users"; "/spend/tags"; "/spend/calculate"; "/spend/logs"; "/cost/estimate"].

Definition global_spend_tracking_routes : list string :=
  ["/global/spend/logs"; "/global/spend"; "/global/spend/keys"; "/global/spend/teams";
   "/global/spend/end_users"; "/global/spend/models"; "/global/predict/spend/logs"; "/global/spend/report";
   "/global/spend/provider"; "/global/spend/tags"].

Definition public_routes : list string :=
  ["/routes"; "/"; "/health/liveliness"; "/health/liveness"; "/health/readiness"; "/test"; "/config/yaml";
   "/metrics"; "/litellm/.well-known/litellm-ui-config"; "/.well-known/litellm-ui-config";
   "/public/model_hub"; "/public/agent_hub"; "/public/mcp_hub"; "/public/litellm_model_cost_map"].

Definition ui_routes : list string :=
  ["/sso"; "/sso/get/ui_settings"; "/get/ui_settings"; "/login"; "/key/info"; "/config"; "/spend";
   "/model/info"; "/v2/model/info"; "/v2/key/info"; "/models"; "/v1/models"; "/global/spend";
   "/global/spend/logs"; "/global/spend/keys"; "/global/spend/models"; "/global/spend/tags";
   "/global/predict/spend/logs"; "/global/activity"; "/health/services"]
  ++ info_routes.

Definition internal_user_routes : list string :=
  ["/global/spend/tags"; "/global/spend/keys"; "/global/spend/models"; "/global/spend/provider";
   "/global/spend/end_users"; "/global/activity"; "/global/activity/model"; "/v1/models/{model_id}";
   "/models/{model_id}"; "/guardrails/list"; "/v2/guardrails/list"]
  ++ spend_tracking_routes
  ++ key_management_routes.

Definition internal_user_view_only_routes : list string :=
  spend_tracking_routes
  ++ global_spend_tracking_routes.

Definition self_managed_routes : list string :=
  ["/team/member_add"; "/team/member_delete"; "/team/member_update"; "/team/permissions_list";
   "/team/permissions_update"; "/team/daily/activity"; "/model/new"; "/model/update"; "/model/delete";
   "/user/daily/activity"; "/user/available_roles"; "/user/list"; "/model/{model_id}/update";
   "/prompt/list"; "/prompt/info"; "/invitation/new"; "/invitation/delete"; "/guardrails/register"].

Definition org_admin_only_routes : list string :=
  ["/organization/info"; "/organization/delete"; "/organization/member_add"; "/organization/member_update"].

Definition admin_viewer_routes : list string :=
  ["/user/list"; "/user/available_users"; "/user/available_roles"; "/user/daily/activity";
   "/team/daily/activity"; "/tag/daily/activity"; "/tag/list"; "/audit"; "/audit/{id}"]
  ++ info_routes.

Definition org_admin_allowed_routes : list string :=
  org_admin_only_routes
  ++ management_routes
  ++ self_managed_routes
  ++ admin_viewer_routes.

(** [LiteLLMRoutes._member_map_], in the order of the declarations.  No two members
    have equal lists, so none is an alias of another. *)
Definition member_map : list (string * list string) :=
  [("openai_route_names", openai_route_names);
   ("openai_routes", openai_routes);
   ("mapped_pass_through_routes", mapped_pass_through_routes);
   ("passthrough_routes_wildcard", passthrough_routes_wildcard);
   ("litellm_native_routes", litellm_native_routes);
   ("anthropic_routes", anthropic_routes);
   ("mcp_routes", mcp_routes);
   ("agent_routes", agent_routes);
   ("google_routes", google_routes);
   ("apply_guardrail_routes", apply_guardrail_routes);
   ("llm_api_routes", llm_api_routes);
   ("info_routes", info_routes);
   ("master_key_only_routes", master_key_only_routes);
   ("key_management_routes", key_management_routes);
   ("management_routes", management_routes);
   ("spend_tracking_routes", spend_tracking_routes);
   ("global_spend_tracking_routes", global_spend_tracking_routes);
   ("public_routes", public_routes);
   ("ui_routes", ui_routes);
   ("internal_user_routes", internal_user_routes);
   ("internal_user_view_only_routes", internal_user_view_only_routes);
   ("self_managed_routes", self_managed_routes);
   ("org_admin_only_routes", org_admin_only_routes);
   ("admin_viewer_routes", admin_viewer_routes);
   ("org_admin_allowed_routes", org_admin_allowed_routes)].

Definition member_names : list string := dkeys member_map.

(** A role is known by its value. *)
Lemma role_of_value_value r : role_of_value (role_value r) = Some r.
Proof. by destruct r. Qed.

Lemma key_route_of_value_value r : key_route_of_value (KeyManagementRoutes_value r) = Some r.
Proof. by destruct r. Qed.

Lemma role_value_inj r r' : role_value r = role_value r' → r = r'.
Proof. destruct r, r'; (done || by vm_compute). Qed.

Lemma role_value_eqb r r' : String.eqb (role_value r) (role_value r') = bool_decide (r = r').
Proof.
  case_bool_decide as H; [by rewrite H, String.eqb_refl|]. apply String.eqb_neq. by intros ?%role_value_inj.
Qed.

End Routes.
