(* ===== verification/AuthTypes.v ===== *)
(** * AuthTypes: what the access checks of the proxy talk about

    The records of [proxy/_types.py] as far as the checks read them (key, user, team,
    organization, project, end user), the exceptions the checks raise, and the result of
    a check: it passes with a value or denies with an exception.  Money is a rational. *)

From stdpp Require Import base list strings.
From Stdlib Require Import ZArith QArith Lia Ascii.
From S2P Require Import Prelude PyStr.

Module AuthTypes.

#[local] Abbreviation dict := (list (string * pyval)).

(** The message of a [ProxyException] or a [BudgetExceededError] is left out. *)
Inductive auth_exn : Type :=
| HTTPException (status_code : Z) (detail : string)
| ProxyException (type : string) (param : option string) (code : Z)
| BudgetExceededError (current_cost max_budget : Q)
| PyExn (e : exn).                       (* any other Python exception *)

(** The result of a check. *)
Inductive outcome (A : Type) : Type :=
| Pass (a : A)
| Deny (e : auth_exn).
Arguments Pass {A} a.
Arguments Deny {A} e.

#[export] Instance outcome_ret : MRet outcome := λ A a, Pass a.
#[export] Instance outcome_bind : MBind outcome := λ A B f o,
  match o with Pass a => f a | Deny e => Deny e end.

Definition lift {A} (r : res A) : outcome A :=
  match r with Ok a => Pass a | Raise e => Deny (PyExn e) end.

Definition passes {A} (o : outcome A) : bool := match o with Pass _ => true | Deny _ => false end.

(** [raise Exception(msg)]. *)
Definition raise_exception {A} (msg : string) : outcome A := Deny (PyExn (GenericError msg)).

(** [for x in l: body(x)], stopping at the first exception. *)
Fixpoint o_iter {A} (body : A → outcome unit) (l : list A) : outcome unit :=
  match l with [] => mret () | x :: l' => body x ;; o_iter body l' end.

(** [for x in l: if test(x): return True], and [any(...)]. *)
Fixpoint o_any {A} (test : A → outcome bool) (l : list A) : outcome bool :=
  match l with
  | [] => mret false
  | x :: l' => b ← test x; if (b : bool) then mret true else o_any test l'
  end.

(** [s in l] for strings. *)
Definition str_in (s : string) (l : list string) : bool := existsb (String.eqb s) l.

(** ** Records *)

Record LiteLLM_BudgetTable := mk_budget {
  bt_soft_budget : option Q;
  bt_max_budget : option Q
}.

Record Membership := mk_membership {
  organization_id : string;
  membership_role : option string
}.

Record LiteLLM_UserTable := mk_user {
  user_id : string;
  user_role : option string;
  user_models : list string;
  user_max_budget : option Q;
  user_spend : Q;
  organization_memberships : option (list Membership)
}.

Record UserAPIKeyAuth := mk_token {
  token_user_id : option string;
  token_team_id : option string;
  token_org_id : option string;
  token_models : list string;
  team_model_aliases : option (list (string * string));
  token_access_group_ids : option (list string);
  allowed_routes : option (list string);
  permissions : dict;
  metadata : dict;
  team_metadata : option dict;
  token_spend : Q;
  token_max_budget : option Q;
  token_soft_budget : option Q;
  token_agent_id : option string;
  token_object_permission_id : option string
}.

Record LiteLLM_TeamTable := mk_team {
  team_id : string;
  team_organization_id : option string;
  team_blocked : bool;
  team_models : list string;
  team_access_group_ids : option (list string);
  team_max_budget : option Q;
  team_soft_budget : option Q;
  team_spend : option Q;
  team_table_metadata : option dict;
  team_object_permission_id : option string
}.

Record LiteLLM_OrganizationTable := mk_org {
  org_models : list string;
  org_spend : Q;
  org_budget_table : option LiteLLM_BudgetTable
}.

Record LiteLLM_ProjectTable := mk_project {
  project_id : string;
  project_models : list string;
  project_spend : Q;
  project_blocked : bool;
  project_budget_table : option LiteLLM_BudgetTable
}.

Record LiteLLM_TagTable := mk_tag {
  tag_spend : Q;
  tag_budget_table : option LiteLLM_BudgetTable
}.

Record LiteLLM_TeamMembership := mk_team_membership {
  membership_spend : option Q;
  membership_budget_table : option LiteLLM_BudgetTable
}.

Record LiteLLM_EndUserTable := mk_end_user {
  end_user_spend : Q;
  end_user_budget_table : option LiteLLM_BudgetTable
}.

(** ** Lemmas *)

Lemma str_in_spec s l : str_in s l = true ↔ s ∈ l.
Proof.
  unfold str_in. rewrite existsb_exists. setoid_rewrite String.eqb_eq. setoid_rewrite <-list_elem_of_In.
  split; [by intros (x & ? & ->)|eauto].
Qed.

Lemma str_in_false s l : str_in s l = false ↔ s ∉ l.
Proof. by rewrite <-not_true_iff_false, str_in_spec. Qed.

(** A search whose tests do not raise is a search. *)
Lemma o_any_pure {A} (test : A → outcome bool) (f : A → bool) l :
  (∀ x, x ∈ l → test x = Pass (f x)) → o_any test l = Pass (existsb f l).
Proof.
  induction l as [|x l IH]; intros H; simpl; [done|].
  rewrite H by left. cbn. destruct (f x); simpl; [done|]. apply IH. intros y Hy. apply H. by right.
Qed.

Lemma existsb_elem {A} (f : A → bool) l : existsb f l = true ↔ ∃ x, x ∈ l ∧ f x = true.
Proof. rewrite existsb_exists. by setoid_rewrite list_elem_of_In. Qed.

Lemma existsb_elem_false {A} (f : A → bool) l : existsb f l = false ↔ ∀ x, x ∈ l → f x = false.
Proof.
  rewrite <-not_true_iff_false, existsb_elem. split.
  - intros H x Hx. apply not_true_iff_false. eauto.
  - intros H (x & Hx & Hf). specialize (H x Hx). congruence.
Qed.

End AuthTypes.
