(* ===== verification/RouteChecks.v ===== *)
(** * RouteChecks: [proxy/auth/route_checks.py]

    Which routes a key or a user may call.  One definition per method of the class
    [RouteChecks], with the organization helper it uses
    ([proxy/auth/auth_checks_organization.py]) and the registry of pass-through endpoints
    ([InitPassThroughEndpointHelpers]).  The settings of the proxy the checks read are
    the record [env]. *)

From stdpp Require Import base sets list strings.
From Stdlib Require Import ZArith QArith Lia Ascii.
From S2P Require Import Prelude PyStr Masker Regex Routes AuthTypes.

Module RouteChecks.
Import Regex Routes AuthTypes.

(** The module-level state the checks read. *)
Record env := mk_env {
  general_settings : list (string * pyval);
  premium_user : bool;
  server_root_path : string;                           (* SERVER_ROOT_PATH, or "" *)
  _registered_pass_through_routes : list string;       (* the keys of the registry *)
  enterprise_should_call_route : string → option auth_exn
    (* [EnterpriseRouteChecks.should_call_route] of the separate package: the [HTTPException]
       it raises, if any; its other exceptions are swallowed *)
}.

(** ** Matching *)

Definition _is_wildcard_pattern (pattern : string) : bool := endswith pattern "*".

Definition _route_matches_wildcard_pattern (route pattern : string) : bool :=
  if endswith pattern "*" then startswith route (str_take (String.length pattern - 1) pattern)
  else String.eqb route pattern.

Definition _route_matches_allowed_route (route allowed_route : string) : bool :=
  String.eqb route allowed_route || startswith route (allowed_route +:+ "/").

(** [s.strip("{}")]. *)
Fixpoint lstrip_braces (s : string) : string :=
  match s with
  | String c s' => if Ascii.eqb c "{" || Ascii.eqb c "}" then lstrip_braces s' else s
  | EmptyString => ""
  end.
Definition strip_braces (s : string) : string := str_rev (lstrip_braces (str_rev (lstrip_braces s))).

Definition _placeholder_to_regex (group : string) : string :=
  if endswith (strip_braces group) ":path" then "[^:]+" else "[^/]+".

(** Replace every brace pair around a nonempty text without closing braces; [open] is the
    text since an opening brace. *)
Fixpoint sub_placeholders (open : option string) (s : string) : string :=
  match s with
  | EmptyString => match open with Some acc => "{" +:+ acc | None => "" end
  | String c s' =>
      match open with
      | None => if Ascii.eqb c "{" then sub_placeholders (Some "") s' else String c (sub_placeholders None s')
      | Some acc =>
          if Ascii.eqb c "}" then
            (if String.eqb acc "" then "{}" else _placeholder_to_regex ("{" +:+ acc +:+ "}"))
            +:+ sub_placeholders None s'
          else sub_placeholders (Some (acc +:+ String c "")) s'
      end
  end.

Section checks.
Context `{PyRuntime} `{PyRe} (cfg : env).

Definition _route_matches_pattern (route pattern : string) : outcome bool :=
  lift (re_match_anchored (sub_placeholders None pattern) route).

Definition check_route_access (route : string) (allowed : list string) : outcome bool :=
  if str_in route allowed then mret true
  else
    let wildcard_allowed_routes := filter (λ r, _is_wildcard_pattern r = true) allowed in
    if existsb (_route_matches_wildcard_pattern route) wildcard_allowed_routes then mret true
    else o_any (_route_matches_pattern route) allowed.

Definition _is_azure_openai_route (route : string) : outcome bool :=
  b ← lift (re_match_anchored "/openai/deployments/[^/]+/[^/]+/chat/completions" route);
  if (b : bool) then mret true else lift (re_match_anchored "/engines/[^/]+/chat/completions" route).

(** [if "{" in r: if _route_matches_pattern(...): return True]. *)
Definition matches_template (route r : string) : outcome bool :=
  if str_contains "{" r then _route_matches_pattern route r else mret false.

Definition is_llm_api_route (route : string) : outcome bool :=
  if str_in route openai_routes then mret true
  else if str_in route anthropic_routes then mret true
  else if str_in route google_routes then mret true
  else
    mcp ← check_route_access route mcp_routes;
    if (mcp : bool) then mret true else
    agent ← check_route_access route agent_routes;
    if (agent : bool) then mret true else
    if str_in route litellm_native_routes then mret true else
    openai ← o_any (λ openai_route,
                      b ← matches_template route openai_route;
                      if (b : bool) then mret true
                      else mret (_is_wildcard_pattern openai_route
                                 && _route_matches_wildcard_pattern route openai_route)) openai_routes;
    if (openai : bool) then mret true else
    google ← o_any (matches_template route) google_routes;
    if (google : bool) then mret true else
    anthropic ← o_any (matches_template route) anthropic_routes;
    if (anthropic : bool) then mret true else
    azure ← _is_azure_openai_route route;
    if (azure : bool) then mret true else
    mret (existsb (λ p, str_contains p route) mapped_pass_through_routes).

Definition is_management_route (route : string) : bool := str_in route management_routes.
Definition is_info_route (route : string) : bool := str_in route info_routes.

Definition _is_assistants_api_request (url_path : string) : bool :=
  str_contains "thread" url_path || str_contains "assistant" url_path.

Definition is_generate_content_route (route : string) : bool :=
  str_contains "generateContent" route || str_contains "streamGenerateContent" route.

(** ** Pass-through endpoints *)

(** [normalize_route_for_root_path] of [proxy/utils.py]. *)
Definition normalize_route_for_root_path (route : string) : option string :=
  let root_path := server_root_path cfg in
  if negb (String.eqb root_path "") && negb (String.eqb root_path "/") then
    if startswith route (root_path +:+ "/") then Some (str_drop (String.length root_path) route) else None
  else Some route.

Definition _build_full_path_with_root (path : string) : string :=
  if String.eqb (server_root_path cfg) "/" then path else server_root_path cfg +:+ path.

(** [key.split(":", 3)]: the endpoint id, the kind and the path, when there are three parts. *)
Definition registry_key (key : string) : option (string * string) :=
  match split_once ":" key with
  | (_, Some rest) =>
      match split_once ":" rest with
      | (route_type, Some rest') => Some (route_type, (split_once ":" rest').1)
      | (_, None) => None
      end
  | (_, None) => None
  end.

Definition registered_key_matches (route key : string) : bool :=
  match registry_key key with
  | Some (route_type, path) =>
      let registered_path := _build_full_path_with_root path in
      if String.eqb route_type "exact" && String.eqb route registered_path then true
      else if String.eqb route_type "subpath" then
        String.eqb route registered_path || startswith route (registered_path +:+ "/")
      else false
  | None => false
  end.

Definition is_registered_pass_through_route (route : string) : bool :=
  match normalize_route_for_root_path route with
  | Some normalized_route => existsb (startswith normalized_route) mapped_pass_through_routes
  | None => false
  end
  || existsb (registered_key_matches route) (_registered_pass_through_routes cfg).

(** The text an f-string shows for a list of strings. *)
Definition str_of_list (l : list string) : string := container_str (PList (PStr <$> l)).

(** What an entry of [allowed_routes] that names a member of [LiteLLMRoutes] grants. *)
Definition group_allows (route allowed_route : string) : outcome bool :=
  match dget allowed_route member_map with
  | Some group =>
      b ← check_route_access route group;
      if (b : bool) then mret true
      else mret (String.eqb allowed_route "llm_api_routes" && is_registered_pass_through_route route)
  | None => mret false
  end.

Definition is_virtual_key_allowed_to_call_route (route : string) (valid_token : UserAPIKeyAuth) : outcome bool :=
  match allowed_routes valid_token with
  | None | Some [] => mret true
  | Some allowed =>
      if existsb (_route_matches_allowed_route route) allowed then mret true
      else
        grouped ← (if existsb (λ r, str_in r member_names) allowed then o_any (group_allows route) allowed
                   else mret false);
        if (grouped : bool) then mret true
        else if existsb (_route_matches_wildcard_pattern route) allowed then mret true
        else Deny (HTTPException 403
               ("Virtual key is not allowed to call this route. Only allowed to call routes: "
                +:+ str_of_list allowed +:+ ". Tried to call route: " +:+ route))
  end.

Definition should_call_route (route : string) (valid_token : UserAPIKeyAuth) : outcome bool :=
  match enterprise_should_call_route cfg route with
  | Some e => Deny e
  | None => is_virtual_key_allowed_to_call_route route valid_token ;; mret true
  end.

(** ** Errors *)

Definition _mask_user_id (user_id : string) : string :=
  if String.eqb user_id "" || (String.length user_id <=? 4)%nat then "***"
  else Masker._mask_value (Masker.init None None 6 2 "*") user_id.

(** [x or "unknown"]. *)
Definition or_unknown (x : string) : string := if String.eqb x "" then "unknown" else x.

Definition _raise_admin_only_route_exception (user_obj : option LiteLLM_UserTable) (route : string)
    : outcome unit :=
  let role := match user_obj with Some u => or_unknown (default "" (user_role u)) | None => "unknown" end in
  let id := match user_obj with Some u => or_unknown (user_id u) | None => "unknown" end in
  raise_exception
    ("Only proxy admin can be used to generate, delete, update info for new keys/users/teams. Route="
     +:+ route +:+ ". Your role=" +:+ role +:+ ". Your user_id=" +:+ _mask_user_id id).

(** ** Non-admin users *)

(** [route in v]. *)
Definition str_in_value (route : string) (v : pyval) : outcome bool :=
  match v with
  | PList l | PTuple l | PSet l => mret (existsb (py_eqb (PStr route)) l)
  | PStr s => mret (str_contains route s)
  | PDict d => mret (dmem route d)
  | _ => Deny (PyExn TypeError)
  end.

Definition custom_admin_only_route_check (route : string) : outcome unit :=
  match dget "admin_only_routes" (general_settings cfg) with
  | None => mret ()
  | Some v =>
      if negb (premium_user cfg) then mret ()
      else
        b ← str_in_value route v;
        if (b : bool) then
          Deny (HTTPException 403 ("user not allowed to access this route. Route=" +:+ route
                                   +:+ " is an admin only route"))
        else mret ()
  end.

(** What [for x in v] runs over. *)
Definition py_iter (v : pyval) : outcome (list pyval) :=
  match v with
  | PList l | PTuple l | PSet l => mret l
  | PStr s => mret ((λ a, PStr (String a "")) <$> String.list_ascii_of_string s)
  | PDict d => mret (PStr <$> dkeys d)
  | _ => Deny (PyExn TypeError)
  end.

(** An entry that is not a string never equals the route, and then cannot be extended by a slash. *)
Definition value_allows (route : string) (v : pyval) : outcome bool :=
  match v with
  | PStr r => mret (_route_matches_allowed_route route r)
  | _ => Deny (PyExn TypeError)
  end.

Definition check_passthrough_route_access (route : string) (valid_token : UserAPIKeyAuth) : outcome bool :=
  let key := "allowed_passthrough_routes" in
  let md := metadata valid_token in
  let team_md := default [] (team_metadata valid_token) in
  if negb (dmem key md) && negb (dmem key team_md) then mret false
  else
    let mine := default PNone (dget key md) in
    let teams := default PNone (dget key team_md) in
    if is_none mine && is_none teams then mret false
    else
      allowed ← py_iter (py_or mine (py_or teams (PList [])));
      o_any (value_allows route) allowed.

(** [organization_id] and [organizations] of the request. *)
Definition candidate_org_ids (request_data : list (string * pyval)) : list pyval :=
  match default PNone (dget "organization_id" request_data) with PNone => [] | v => [v] end
  ++ match dget "organizations" request_data with Some (PList l) => l | _ => [] end.

Definition _user_is_org_admin (request_data : list (string * pyval)) (user_object : option LiteLLM_UserTable)
    : bool :=
  match user_object with
  | None => false
  | Some u =>
      match organization_memberships u with
      | None => false
      | Some memberships =>
          let candidates := candidate_org_ids request_data in
          existsb (λ m, existsb (py_eqb (PStr (organization_id m))) candidates
                        && bool_decide (membership_role m = Some (role_value ORG_ADMIN))) memberships
      end
  end.

Definition is_role (r : LitellmUserRoles) (_user_role : option LitellmUserRoles) : bool :=
  bool_decide (_user_role = Some r).

Definition viewer_forbidden (route : string) : outcome unit :=
  Deny (HTTPException 403 ("user not allowed to access this route, role= " +:+ role_value PROXY_ADMIN_VIEW_ONLY
                           +:+ ". Trying to access: " +:+ route)).

Definition viewer_blocked_routes : list string :=
  ["/user/new"; "/user/delete"; "/team/new"; "/team/update"; "/team/delete"; "/model/new"; "/model/update";
   "/model/delete"; "/key/generate"; "/key/delete"; "/key/update"; "/key/regenerate";
   "/key/service-account/generate"; "/key/block"; "/key/unblock"].

(** The first parameter of the request other than the two a viewer may change. *)
Definition viewer_params_check (route : string) (request_data : list (string * pyval)) : outcome unit :=
  o_iter (λ param,
            if str_in param ["user_email"; "password"] then mret ()
            else Deny (HTTPException 403
                   ("user not allowed to access this route, role= " +:+ role_value PROXY_ADMIN_VIEW_ONLY
                    +:+ ". Trying to access: " +:+ route +:+ " and updating invalid param: " +:+ param
                    +:+ ". only user_email and password can be updated"))) (dkeys request_data).

Definition _check_proxy_admin_viewer_access (route : string) (request_data : list (string * pyval)) : outcome unit :=
  llm ← is_llm_api_route route;
  if (llm : bool) then
    Deny (HTTPException 403 ("user not allowed to access this OpenAI routes, role= "
                             +:+ role_value PROXY_ADMIN_VIEW_ONLY))
  else
    management ← check_route_access route management_routes;
    if (management : bool) then
      if String.eqb route "/user/update" then viewer_params_check route request_data
      else if str_in route viewer_blocked_routes || (startswith route "/key/" && endswith route "/regenerate")
      then viewer_forbidden route
      else mret ()
    else
      viewer ← check_route_access route admin_viewer_routes;
      if (viewer : bool) then mret ()
      else
        spend ← check_route_access route global_spend_tracking_routes;
        if (spend : bool) then mret () else viewer_forbidden route.

(** [c and check_route_access(...)]. *)
Definition role_route (c : bool) (route : string) (allowed : list string) : outcome bool :=
  if c then check_route_access route allowed else mret false.

Definition token_route_allowed (route : string) (allowed : list string) : bool :=
  existsb (λ r, _route_matches_allowed_route route r || _route_matches_wildcard_pattern route r) allowed.

(** The checks of an info route. *)
Definition info_route_check (route : string) (query_user_id : option string) (valid_token : UserAPIKeyAuth)
    : outcome unit :=
  if String.eqb route "/user/info" then
    match query_user_id with
    | Some id =>
        if negb (String.eqb id "") && negb (bool_decide (Some id = token_user_id valid_token))
        then Deny (HTTPException 403
               ("key not allowed to access this user's info. user_id=" +:+ id +:+ ", key's user_id="
                +:+ default "None" (token_user_id valid_token)))
        else mret ()
    | None => mret ()
    end
  else mret ().

Definition non_proxy_admin_allowed_routes_check
    (user_obj : option LiteLLM_UserTable) (_user_role : option LitellmUserRoles) (route : string)
    (query_user_id : option string)              (* [request.query_params.get("user_id")] *)
    (valid_token : UserAPIKeyAuth) (request_data : list (string * pyval)) : outcome unit :=
  custom_admin_only_route_check route ;;
  llm ← is_llm_api_route route;
  if (llm : bool) then mret ()
  else if is_info_route route then info_route_check route query_user_id valid_token
  else if str_in route global_spend_tracking_routes && dmem "get_spend_routes" (permissions valid_token)
  then mret ()
  else if is_role PROXY_ADMIN_VIEW_ONLY _user_role then _check_proxy_admin_viewer_access route request_data
  else
    internal ← role_route (is_role INTERNAL_USER _user_role) route internal_user_routes;
    if (internal : bool) then mret () else
    org ← role_route (_user_is_org_admin request_data user_obj) route org_admin_allowed_routes;
    if (org : bool) then mret () else
    view ← role_route (is_role INTERNAL_USER_VIEW_ONLY _user_role) route internal_user_view_only_routes;
    if (view : bool) then mret () else
    self ← check_route_access route self_managed_routes;
    if (self : bool) then mret () else
    if startswith route "/v1/mcp/" || startswith route "/mcp-rest/" then mret () else
    pass_through ← check_passthrough_route_access route valid_token;
    if (pass_through : bool) then mret () else
    match allowed_routes valid_token with
    | Some allowed =>
        if token_route_allowed route allowed then mret ()
        else _raise_admin_only_route_exception user_obj route
    | None => _raise_admin_only_route_exception user_obj route
    end.

(** ** The tables stay inside the modelled expressions *)

Definition in_syntax (p : string) : bool :=
  match re_parse (sub_placeholders None p) with Some _ => true | None => false end.

Definition pattern_matches (route p : string) : bool :=
  match re_parse (sub_placeholders None p) with Some r => fullmatch r route | None => false end.

(** [check_route_access] without the exceptions of [re]. *)
Definition route_in (route : string) (allowed : list string) : bool :=
  str_in route allowed
  || existsb (λ p, _is_wildcard_pattern p && _route_matches_wildcard_pattern route p) allowed
  || existsb (pattern_matches route) allowed.

Lemma tables_in_syntax : forallb (λ kv, forallb in_syntax kv.2) member_map = true.
Proof. by vm_compute. Qed.

Lemma route_matches_pattern_pure route p :
  in_syntax p = true → _route_matches_pattern route p = Pass (pattern_matches route p).
Proof.
  unfold in_syntax, _route_matches_pattern, re_match_anchored, pattern_matches. by destruct (re_parse _).
Qed.

Lemma existsb_filter {A} (f g : A → bool) l :
  existsb f (filter (λ x, g x = true) l) = existsb (λ x, g x && f x) l.
Proof.
  induction l as [|x l IH]; [done|]. rewrite filter_cons. simpl.
  destruct (g x); simpl; [by rewrite IH|done].
Qed.

Lemma check_route_access_pure route allowed :
  forallb in_syntax allowed = true → check_route_access route allowed = Pass (route_in route allowed).
Proof.
  intros Hs. unfold check_route_access, route_in. destruct (str_in route allowed); [done|]. simpl orb.
  rewrite existsb_filter. destruct (existsb _ allowed); [done|]. simpl orb.
  apply o_any_pure. intros p Hp. apply route_matches_pattern_pure.
  rewrite forallb_forall in Hs. apply Hs. by apply list_elem_of_In.
Qed.

(** Every table of the map, and so every call of the program. *)
Lemma check_route_access_table route name allowed :
  (name, allowed) ∈ member_map → check_route_access route allowed = Pass (route_in route allowed).
Proof.
  intros Hin. apply check_route_access_pure.
  pose proof tables_in_syntax as H1. rewrite forallb_forall in H1.
  apply (H1 (name, allowed)). by apply list_elem_of_In.
Qed.

Definition template_matches (route r : string) : bool := str_contains "{" r && pattern_matches route r.

Definition azure_route (route : string) : bool :=
  pattern_matches route "/openai/deployments/{a}/{b}/chat/completions"
  || pattern_matches route "/engines/{a}/chat/completions".

Definition llm_route (route : string) : bool :=
  str_in route openai_routes || str_in route anthropic_routes || str_in route google_routes
  || route_in route mcp_routes || route_in route agent_routes || str_in route litellm_native_routes
  || existsb (λ r, template_matches route r
                   || (_is_wildcard_pattern r && _route_matches_wildcard_pattern route r)) openai_routes
  || existsb (template_matches route) google_routes || existsb (template_matches route) anthropic_routes
  || azure_route route
  || existsb (λ p, str_contains p route) mapped_pass_through_routes.

Lemma matches_template_pure route r :
  in_syntax r = true → matches_template route r = Pass (template_matches route r).
Proof.
  intros Hr. unfold matches_template, template_matches. destruct (str_contains _ r); [|done].
  by apply route_matches_pattern_pure.
Qed.

Lemma o_any_templates route l :
  forallb in_syntax l = true → o_any (matches_template route) l = Pass (existsb (template_matches route) l).
Proof.
  intros Hs. apply o_any_pure. intros r Hr. apply matches_template_pure.
  rewrite forallb_forall in Hs. apply Hs. by apply list_elem_of_In.
Qed.

(** [is_llm_api_route] never raises. *)
Lemma is_llm_api_route_pure route : is_llm_api_route route = Pass (llm_route route).
Proof.
  unfold is_llm_api_route, llm_route.
  do 3 (destruct (str_in route _); [done|]). cbn [orb].
  rewrite (check_route_access_pure _ mcp_routes) by (by vm_compute). cbn [mbind outcome_bind].
  destruct (route_in route mcp_routes); [done|].
  rewrite (check_route_access_pure _ agent_routes) by (by vm_compute). cbn [mbind outcome_bind].
  destruct (route_in route agent_routes); [done|]. destruct (str_in route _); [done|]. cbn [orb].
  rewrite (o_any_pure _ (λ r, template_matches route r
      || (_is_wildcard_pattern r && _route_matches_wildcard_pattern route r)) openai_routes).
  2: { intros r Hr. cbv beta. rewrite matches_template_pure; [by destruct (template_matches route r)|].
       assert (Hs : forallb in_syntax openai_routes = true) by (by vm_compute).
       rewrite forallb_forall in Hs. apply Hs. by apply list_elem_of_In. }
  cbn [mbind outcome_bind]. destruct (existsb _ openai_routes); [done|].
  rewrite (o_any_templates _ google_routes) by (by vm_compute). cbn [mbind outcome_bind].
  destruct (existsb _ google_routes); [done|].
  rewrite (o_any_templates _ anthropic_routes) by (by vm_compute). cbn [mbind outcome_bind].
  destruct (existsb _ anthropic_routes); [done|]. cbn [orb].
  unfold _is_azure_openai_route, azure_route, re_match_anchored, pattern_matches.
  vm_compute (re_parse _). vm_compute (sub_placeholders _ _). vm_compute (re_parse _).
  cbn [lift mbind outcome_bind]. destruct (fullmatch _ route); [done|]. cbn [orb lift].
  destruct (fullmatch _ route); [done|]. by destruct (existsb _ _).
Qed.

(** ** Templates *)

(** A template is text and placeholders in turn, and ends in text. *)
Fixpoint render (holes : list (string * string)) (last : string) : string :=
  match holes with
  | [] => last
  | (text, name) :: holes' => text +:+ "{" +:+ name +:+ "}" +:+ render holes' last
  end.

(** What a placeholder's value may not contain. *)
Definition hole_sep (name : string) : ascii := if endswith name ":path" then ":" else "/".

(** [s] is the template with every placeholder filled. *)
Inductive fills : list (string * string) → string → string → Prop :=
| fills_last last : fills [] last last
| fills_hole text name holes last v s :
    v ≠ "" → str_all (λ c, negb (Ascii.eqb c (hole_sep name))) v = true →
    fills holes last s → fills ((text, name) :: holes) last (text +:+ v +:+ s).

Definition no_brace (c : ascii) : bool := negb (Ascii.eqb c "{" || Ascii.eqb c "}").

Definition template_wf (holes : list (string * string)) (last : string) : bool :=
  forallb (λ h, plain h.1 && negb (String.eqb h.2 "") && str_all no_brace h.2) holes && plain last.

Lemma lstrip_braces_id s : str_all no_brace s = true → lstrip_braces s = s.
Proof. destruct s as [|c s]; [done|]. cbn. unfold no_brace. by destruct (_ || _). Qed.

Lemma strip_braces_name n : str_all no_brace n = true → strip_braces ("{" +:+ n +:+ "}") = n.
Proof.
  intros Hn. unfold strip_braces. rewrite str_app_cons, str_app_nil_l. cbn [lstrip_braces]. simpl orb.
  destruct n as [|c n]; [done|].
  assert (lstrip_braces (String c n +:+ "}") = String c n +:+ "}") as ->.
  { rewrite str_app_cons. cbn in Hn |- *. unfold no_brace in Hn. by destruct (_ || _). }
  rewrite str_rev_concat. change (str_rev "}" +:+ str_rev (String c n)) with (String "}" (str_rev (String c n))).
  cbn [lstrip_braces]. simpl orb.
  rewrite lstrip_braces_id by (by rewrite str_all_rev). apply str_rev_involutive.
Qed.

Lemma sub_placeholders_text t s :
  plain t = true → sub_placeholders None (t +:+ s) = t +:+ sub_placeholders None s.
Proof.
  unfold plain. induction t as [|c t IH]; [done|]. cbn [str_all]. intros [Hc Ht]%andb_true_iff.
  rewrite !str_app_cons. cbn [sub_placeholders]. rewrite IH by done.
  destruct (Ascii.eqb_spec c "{") as [->|]; [by vm_compute in Hc|done].
Qed.

Lemma sub_placeholders_open n acc s :
  str_all no_brace n = true →
  sub_placeholders (Some acc) (n +:+ String "}" s) =
  (if String.eqb (acc +:+ n) "" then "{}" else _placeholder_to_regex ("{" +:+ (acc +:+ n) +:+ "}"))
  +:+ sub_placeholders None s.
Proof.
  revert acc. induction n as [|c n IH]; intros acc Hn.
  { by rewrite str_app_nil_l, str_app_nil_r. }
  cbn [str_all] in Hn. apply andb_true_iff in Hn as [Hc Hn]. rewrite str_app_cons. cbn [sub_placeholders].
  unfold no_brace in Hc. destruct (Ascii.eqb c "}"); [by rewrite orb_true_r in Hc|].
  rewrite IH by done. by rewrite str_app_assoc, str_app_cons, str_app_nil_l.
Qed.

Lemma sub_placeholders_hole n s :
  n ≠ "" → str_all no_brace n = true →
  sub_placeholders None ("{" +:+ n +:+ "}" +:+ s) =
  "[^" +:+ String (hole_sep n) "]+" +:+ sub_placeholders None s.
Proof.
  intros Hne Hn. rewrite str_app_cons, str_app_nil_l. cbn [sub_placeholders]. simpl (Ascii.eqb "{" "{").
  change ("}" +:+ s) with (String "}" s). cbv iota. rewrite sub_placeholders_open by done.
  rewrite str_app_nil_l. destruct (String.eqb_spec n ""); [done|].
  unfold _placeholder_to_regex, hole_sep. rewrite strip_braces_name by done. by destruct (endswith n ":path").
Qed.

Fixpoint template_regex (holes : list (string * string)) (last : string) : regex :=
  match holes with
  | [] => lits last
  | (text, name) :: holes' => lits text ++ (NotChar (hole_sep name), Many1) :: template_regex holes' last
  end.

Lemma re_parse_class c s :
  meta c = false →
  re_parse_from None ("[^" +:+ String c "]+" +:+ s) = cons (NotChar c, Many1) <$> re_parse_from None s.
Proof.
  intros Hc.
  change ("[^" +:+ String c "]+" +:+ s) with (String "[" (String "^" (String c (String "]" (String "+" s))))).
  cbn [re_parse_from]. rewrite Hc. cbn. by destruct (re_parse_from None s).
Qed.

Lemma re_parse_template holes last :
  template_wf holes last = true →
  re_parse (sub_placeholders None (render holes last)) = Some (template_regex holes last).
Proof.
  unfold template_wf, re_parse. induction holes as [|[t n] holes IH]; cbn [forallb render template_regex].
  - intros Hl. rewrite <-(str_app_nil_r last) at 1. rewrite sub_placeholders_text by done.
    cbn [sub_placeholders]. rewrite str_app_nil_r. by apply re_parse_literal.
  - intros [[[[Ht Hne%negb_true_iff%String.eqb_neq]%andb_true_iff Hn]%andb_true_iff Hh]%andb_true_iff Hl]%andb_true_iff.
    cbn [fst snd] in *. rewrite sub_placeholders_text, sub_placeholders_hole by done.
    rewrite re_parse_plain by done. cbn [pend]. rewrite app_nil_l, re_parse_class.
    + rewrite IH by (by rewrite Hh, Hl). done.
    + unfold hole_sep. by destruct (endswith n ":path").
Qed.

Lemma lang_template holes last s : lang (template_regex holes last) s ↔ fills holes last s.
Proof.
  revert s. induction holes as [|[t n] holes IH]; intros s; cbn [template_regex].
  - rewrite lang_lits_only. split; [intros ->; constructor|by inversion 1].
  - rewrite lang_lits. split.
    + intros (w & -> & Hw). inversion Hw as [|? ? ? u v Hn Hu Hv]; subst.
      constructor; [destruct u; [simpl in Hn; lia|done]|done|by apply IH].
    + inversion 1 as [|? ? ? ? v s' Hne Hv Hs]; subst. exists (v +:+ s'). split; [done|].
      constructor; [destruct v; [done|simpl; lia]|done|by apply IH].
Qed.

(** C31: A template allows exactly the routes that fill its placeholders with nonempty values:
    one path segment each, or, for a [:path] placeholder, any text without a colon.  A newline
    may follow. *)
Theorem template_matches_fillings route holes last :
  template_wf holes last = true →
  _route_matches_pattern route (render holes last) = Pass true ↔
  fills holes last route ∨ ∃ route', route = route' +:+ String newline "" ∧ fills holes last route'.
Proof.
  intros Hwf. unfold _route_matches_pattern, re_match_anchored. rewrite re_parse_template by done. cbn [lift].
  setoid_rewrite <-lang_template. rewrite <-fullmatch_spec. split; [by intros [= ->]|by intros ->].
Qed.

(** ** Keys with [allowed_routes] *)

Lemma allowed_route_iff route e :
  _route_matches_allowed_route route e = true ↔ route = e ∨ ∃ u, route = e +:+ "/" +:+ u.
Proof.
  unfold _route_matches_allowed_route. rewrite orb_true_iff, String.eqb_eq, startswith_iff.
  by setoid_rewrite str_app_assoc.
Qed.

Lemma wildcard_iff route e :
  _is_wildcard_pattern e = true →
  _route_matches_wildcard_pattern route e = true ↔ ∃ p u, e = p +:+ "*" ∧ route = p +:+ u.
Proof.
  unfold _route_matches_wildcard_pattern, _is_wildcard_pattern. intros He. rewrite He.
  apply endswith_iff in He as [p ->]. rewrite str_length_app. cbn [String.length].
  replace (String.length p + 1 - 1)%nat with (String.length p) by lia.
  rewrite str_take_app, startswith_iff. split; [by intros [u ->]; eauto|].
  by intros (p' & u & ->%str_app_inj_r & ->); eauto.
Qed.

Lemma wildcard_plain route e :
  _is_wildcard_pattern e = false → _route_matches_wildcard_pattern route e = String.eqb route e.
Proof. unfold _route_matches_wildcard_pattern, _is_wildcard_pattern. by intros ->. Qed.

(** What one entry of [allowed_routes] grants. *)
Definition granted (route e : string) : Prop :=
  route = e
  ∨ (∃ u, route = e +:+ "/" +:+ u)
  ∨ (∃ p u, e = p +:+ "*" ∧ route = p +:+ u)
  ∨ (∃ group, (e, group) ∈ member_map ∧ route_in route group = true)
  ∨ (e = "llm_api_routes" ∧ is_registered_pass_through_route route = true).

Definition group_grants (route e : string) : bool :=
  match dget e member_map with
  | Some group => route_in route group
                  || (String.eqb e "llm_api_routes" && is_registered_pass_through_route route)
  | None => false
  end.

Lemma member_map_wf : dict_wf member_map.
Proof. apply (bool_decide_unpack _). by vm_compute. Qed.

Lemma group_allows_pure route e : group_allows route e = Pass (group_grants route e).
Proof.
  unfold group_allows, group_grants. destruct (dget e member_map) as [g|] eqn:E; [|done].
  rewrite (check_route_access_table _ e) by (by apply dget_Some_in). cbn. by destruct (route_in route g).
Qed.

Lemma group_grants_iff route e :
  group_grants route e = true ↔
  (∃ group, (e, group) ∈ member_map ∧ route_in route group = true)
  ∨ (e = "llm_api_routes" ∧ is_registered_pass_through_route route = true).
Proof.
  unfold group_grants. destruct (dget e member_map) as [g|] eqn:E.
  - rewrite orb_true_iff, andb_true_iff, String.eqb_eq. f_equiv.
    split; [intros; exists g; eauto using dget_Some_in|].
    intros (g' & Hin & Hg). apply dget_in in Hin; [|apply member_map_wf]. congruence.
  - split; [done|]. intros [(g & Hin & _)|[-> _]]; [|by vm_compute in E].
    apply dget_None in E. destruct E. by apply (list_elem_of_fmap_2 fst) in Hin.
Qed.

Definition entry_grants (route e : string) : bool :=
  _route_matches_allowed_route route e || group_grants route e || _route_matches_wildcard_pattern route e.

Lemma entry_grants_iff route e : entry_grants route e = true ↔ granted route e.
Proof.
  unfold entry_grants, granted. rewrite !orb_true_iff, allowed_route_iff, group_grants_iff.
  destruct (_is_wildcard_pattern e) eqn:W.
  - rewrite wildcard_iff by done. clear. tauto.
  - rewrite wildcard_plain, String.eqb_eq by done.
    assert (¬ ∃ p u, e = p +:+ "*" ∧ route = p +:+ u).
    { intros (p & u & -> & _). unfold _is_wildcard_pattern in W. by rewrite endswith_app in W. }
    clear W. tauto.
Qed.

Lemma virtual_key_eq route token l :
  allowed_routes token = Some l → l ≠ [] →
  is_virtual_key_allowed_to_call_route route token =
  if existsb (entry_grants route) l then Pass true
  else Deny (HTTPException 403
         ("Virtual key is not allowed to call this route. Only allowed to call routes: "
          +:+ str_of_list l +:+ ". Tried to call route: " +:+ route)).
Proof.
  intros Hl Hne. unfold is_virtual_key_allowed_to_call_route, entry_grants. rewrite Hl.
  destruct l as [|x l]; [done|]. clear Hl Hne. generalize (x :: l). clear x l. intros l.
  assert (Hgroup : (if existsb (λ r, str_in r member_names) l then o_any (group_allows route) l else mret false)
                   = Pass (existsb (group_grants route) l)).
  { rewrite (o_any_pure _ (group_grants route)) by (intros; apply group_allows_pure).
    destruct (existsb (λ r, str_in r member_names) l) eqn:E; [done|]. symmetry. cbn. f_equal.
    apply existsb_elem_false. intros e He. unfold group_grants.
    pose proof (proj1 (existsb_elem_false _ _) E e He) as E'.
    destruct (dget e member_map) eqn:Hd; [|done]. apply str_in_false in E'. destruct E'.
    apply dget_Some_in in Hd. by apply (list_elem_of_fmap_2 fst) in Hd. }
  rewrite Hgroup. cbn [mbind outcome_bind].
  assert (Hor : ∀ (f g h : string → bool), existsb (λ e, f e || g e || h e) l = existsb f l || existsb g l || existsb h l).
  { intros f g h. clear. induction l as [|x l IH]; [done|]. simpl. rewrite IH.
    by destruct (f x), (g x), (h x), (existsb f l), (existsb g l), (existsb h l). }
  rewrite Hor. by destruct (existsb _ l), (existsb _ l), (existsb _ l).
Qed.

(** C22: A key without a list of routes may call every route.  A key with one may call exactly the
    routes one of its entries grants: the route itself, the routes below it, a prefix
    before a star, the routes of a named group; every other call is denied with status 403. *)
Theorem virtual_key_route_decision route token :
  (is_virtual_key_allowed_to_call_route route token = Pass true
   ∧ (allowed_routes token = None ∨ allowed_routes token = Some []
      ∨ ∃ l e, allowed_routes token = Some l ∧ e ∈ l ∧ granted route e))
  ∨ ((∃ detail, is_virtual_key_allowed_to_call_route route token = Deny (HTTPException 403 detail))
     ∧ ∃ l, allowed_routes token = Some l ∧ l ≠ [] ∧ ∀ e, e ∈ l → ¬ granted route e).
Proof.
  destruct (allowed_routes token) as [[|x l]|] eqn:E.
  - left. unfold is_virtual_key_allowed_to_call_route. rewrite E. eauto.
  - rewrite (virtual_key_eq _ _ _ E) by done. setoid_rewrite <-entry_grants_iff.
    destruct (existsb (entry_grants route) (x :: l)) eqn:B.
    + left. split; [done|]. apply existsb_elem in B as (e & He & Hg). eauto 10.
    + right. split; [eauto|]. exists (x :: l). split_and!; [done..|]. intros e He.
      rewrite (proj1 (existsb_elem_false _ _) B e He). done.
  - left. unfold is_virtual_key_allowed_to_call_route. rewrite E. eauto.
Qed.

(** ** Users who are not proxy admins *)

(** No table opens the route to a user without special rights. *)
Definition closed_route (route : string) : bool :=
  negb (llm_route route) && negb (is_info_route route) && negb (str_in route global_spend_tracking_routes)
  && negb (route_in route internal_user_routes) && negb (route_in route internal_user_view_only_routes)
  && negb (route_in route self_managed_routes)
  && negb (startswith route "/v1/mcp/") && negb (startswith route "/mcp-rest/").

(** A key without rights of its own: no list of routes, no pass-through routes. *)
Definition ordinary_key (token : UserAPIKeyAuth) : Prop :=
  (allowed_routes token = None ∨ allowed_routes token = Some [])
  ∧ dmem "allowed_passthrough_routes" (metadata token) = false
  ∧ dmem "allowed_passthrough_routes" (default [] (team_metadata token)) = false.

Lemma ordinary_key_passthrough route token :
  ordinary_key token → check_passthrough_route_access route token = Pass false.
Proof. intros (_ & H1 & H2). unfold check_passthrough_route_access. by rewrite H1, H2. Qed.

Lemma admin_only_raises user_obj route : passes (_raise_admin_only_route_exception user_obj route) = false.
Proof. done. Qed.

Lemma role_route_false c route name allowed :
  (name, allowed) ∈ member_map → route_in route allowed = false → role_route c route allowed = Pass false.
Proof.
  intros Hin Hr. unfold role_route. destruct c; [|done]. by rewrite (check_route_access_table _ _ _ Hin), Hr.
Qed.

(** Look a table up in the member map. *)
Ltac in_tables := apply (dget_Some_in _ _ member_map); vm_compute; reflexivity.

Lemma closed_route_denied user_obj role route q token data :
  closed_route route = true → is_role PROXY_ADMIN_VIEW_ONLY role = false →
  _user_is_org_admin data user_obj = false → ordinary_key token →
  passes (non_proxy_admin_allowed_routes_check user_obj role route q token data) = false.
Proof.
  unfold closed_route. rewrite !andb_true_iff, !negb_true_iff.
  intros (((((((Hllm & Hinfo) & Hspend) & Hint) & Hview) & Hself) & Hm1) & Hm2) Hrole Horg Htok.
  unfold non_proxy_admin_allowed_routes_check.
  destruct (custom_admin_only_route_check route); [|done]. cbn [mbind outcome_bind].
  rewrite is_llm_api_route_pure, Hllm. cbn [mbind outcome_bind]. rewrite Hinfo, Hspend, Hrole. cbn [andb].
  rewrite (role_route_false _ _ "internal_user_routes" internal_user_routes) by (done || in_tables). cbn [mbind outcome_bind].
  rewrite Horg. change (role_route false route org_admin_allowed_routes) with (Pass false). cbn [mbind outcome_bind].
  rewrite (role_route_false _ _ "internal_user_view_only_routes" internal_user_view_only_routes) by (done || in_tables).
  cbn [mbind outcome_bind].
  rewrite (check_route_access_table _ "self_managed_routes" self_managed_routes) by in_tables. rewrite Hself, Hm1, Hm2.
  cbn [mbind outcome_bind orb]. rewrite ordinary_key_passthrough by done. cbn [mbind outcome_bind].
  by destruct Htok as [[->| ->] _].
Qed.

Definition admin_routes : list string :=
  ["/user/new"; "/user/update"; "/user/delete"; "/team/new"; "/team/update"; "/team/delete"; "/team/block";
   "/team/unblock"; "/jwt/key/mapping/new"; "/jwt/key/mapping/update"; "/jwt/key/mapping/delete";
   "/organization/new"; "/organization/info"; "/organization/delete"; "/organization/member_add";
   "/organization/member_update"; "/global/spend/reset"; "/memory-usage-in-mem-cache"; "/budget/new";
   "/customer/new"; "/customer/delete"; "/credentials"; "/config/update"; "/cache/flushall"].

(** C23: In the check of users who are not proxy admins, the routes listed in
    [admin_routes], 24 of those that manage users, teams, organizations, budgets,
    customers, credentials, configuration and caches, are closed to every user whose
    role is not the view-only admin's (who is checked by other rules) and who is no
    admin of an organization the request names, whatever else the user's settings are,
    when the key has no list of allowed routes and neither it nor its team has
    pass-through routes. *)
Theorem admin_routes_closed user_obj role route q token data :
  route ∈ admin_routes → role ≠ Some PROXY_ADMIN_VIEW_ONLY →
  _user_is_org_admin data user_obj = false → ordinary_key token →
  passes (non_proxy_admin_allowed_routes_check user_obj role route q token data) = false.
Proof.
  intros Hin Hrole. apply closed_route_denied.
  - assert (Hall : forallb closed_route admin_routes = true) by (by vm_compute).
    rewrite forallb_forall in Hall. apply Hall. by apply list_elem_of_In.
  - unfold is_role. by case_bool_decide.
Qed.

(** *** The view-only admin *)

Definition viewer_managed (route : string) : bool :=
  negb (llm_route route) && negb (is_info_route route) && negb (str_in route global_spend_tracking_routes)
  && route_in route management_routes.

Lemma viewer_managed_eq user_obj route q token data :
  viewer_managed route = true →
  non_proxy_admin_allowed_routes_check user_obj (Some PROXY_ADMIN_VIEW_ONLY) route q token data =
  (custom_admin_only_route_check route ;;
   if String.eqb route "/user/update" then viewer_params_check route data
   else if str_in route viewer_blocked_routes || (startswith route "/key/" && endswith route "/regenerate")
   then viewer_forbidden route else mret ()).
Proof.
  unfold viewer_managed. rewrite !andb_true_iff, !negb_true_iff. intros (((Hllm & Hinfo) & Hspend) & Hman).
  unfold non_proxy_admin_allowed_routes_check.
  destruct (custom_admin_only_route_check route); [|done]. cbn [mbind outcome_bind].
  rewrite is_llm_api_route_pure, Hllm. cbn [mbind outcome_bind]. rewrite Hinfo, Hspend. cbn [andb].
  unfold _check_proxy_admin_viewer_access. rewrite is_llm_api_route_pure, Hllm. cbn [mbind outcome_bind].
  rewrite (check_route_access_table _ "management_routes" management_routes) by in_tables. by rewrite Hman.
Qed.

Lemma viewer_params_denied route p data :
  p ∈ dkeys data → p ∉ ["user_email"; "password"] → passes (viewer_params_check route data) = false.
Proof.
  unfold viewer_params_check. intros Hp Hno. induction (dkeys data) as [|k ks IH]; [set_solver|].
  cbn [o_iter]. destruct (str_in k _) eqn:E; [|done]. cbn [mbind outcome_bind].
  apply IH. apply str_in_spec in E. set_solver.
Qed.

(** A view-only admin cannot create, change or delete users, teams, models or keys by the listed
    routes, and can change only the email and the password of a user, whatever the key and the
    settings. *)
Theorem viewer_cannot_write user_obj route q token data :
  route ∈ viewer_blocked_routes
  ∨ (route = "/user/update" ∧ ∃ p, p ∈ dkeys data ∧ p ∉ ["user_email"; "password"]) →
  passes (non_proxy_admin_allowed_routes_check user_obj (Some PROXY_ADMIN_VIEW_ONLY) route q token data) = false.
Proof.
  intros Hr. assert (Hm : forallb viewer_managed ("/user/update" :: viewer_blocked_routes) = true) by (by vm_compute).
  rewrite forallb_forall in Hm. rewrite viewer_managed_eq.
  2: { apply Hm. destruct Hr as [Hr|[-> _]]; [right; by apply list_elem_of_In|by left]. }
  destruct (custom_admin_only_route_check route); [|done]. cbn [mbind outcome_bind].
  destruct Hr as [Hr|(-> & p & Hp & Hno)].
  - destruct (String.eqb_spec route "/user/update") as [->|]; [by apply str_in_spec in Hr; vm_compute in Hr|].
    by rewrite (proj2 (str_in_spec _ _) Hr).
  - by eapply viewer_params_denied.
Qed.

Definition viewer_open_writes : list string :=
  ["/team/block"; "/team/unblock"; "/team/permissions_update"; "/key/bulk_update"; "/jwt/key/mapping/new";
   "/jwt/key/mapping/update"; "/jwt/key/mapping/delete"; "/key/some-key/reset_spend"].

(** The list is not complete: the routes that block teams, map JWTs to keys or reset a key's spend are
    open to a view-only admin, and so is every LLM route, since the check that would refuse it
    there is behind the one that accepts it. *)
Theorem viewer_may_write_and_call user_obj route q token data :
  custom_admin_only_route_check route = Pass () →
  route ∈ viewer_open_writes ∨ llm_route route = true →
  non_proxy_admin_allowed_routes_check user_obj (Some PROXY_ADMIN_VIEW_ONLY) route q token data = Pass ().
Proof.
  intros Hc [Hr|Hllm].
  - assert (Hall : forallb (λ r, viewer_managed r && negb (String.eqb r "/user/update")
        && negb (str_in r viewer_blocked_routes || (startswith r "/key/" && endswith r "/regenerate")))
        viewer_open_writes = true) by (by vm_compute).
    rewrite forallb_forall in Hall. specialize (Hall route ltac:(by apply list_elem_of_In)).
    rewrite !andb_true_iff, !negb_true_iff in Hall. destruct Hall as [[Hm Hu] Hb].
    by rewrite viewer_managed_eq, Hc, Hu, Hb.
  - unfold non_proxy_admin_allowed_routes_check. by rewrite Hc, is_llm_api_route_pure; cbn; rewrite Hllm.
Qed.

(** *** Names that open a route *)

Lemma passthrough_llm_route a p b : p ∈ mapped_pass_through_routes → llm_route (a +:+ p +:+ b) = true.
Proof.
  intros Hp. unfold llm_route. apply orb_true_iff. right. apply existsb_elem. exists p.
  split; [done|]. apply str_contains_iff. eauto.
Qed.

(** Every route that contains the name of a mapped provider anywhere, not only at its start, is
    open to every key of every user. *)
Theorem provider_name_opens_route user_obj role a p b q token data :
  p ∈ mapped_pass_through_routes → custom_admin_only_route_check (a +:+ p +:+ b) = Pass () →
  non_proxy_admin_allowed_routes_check user_obj role (a +:+ p +:+ b) q token data = Pass ().
Proof.
  intros Hp Hc. unfold non_proxy_admin_allowed_routes_check.
  rewrite Hc, is_llm_api_route_pure, passthrough_llm_route by done. done.
Qed.

(** A user id of five to seven characters is shown whole in the error, a longer one with its first six and
    last two characters. *)
Theorem user_id_shown id :
  ((5 ≤ String.length id ≤ 7)%nat → _mask_user_id id = id)
  ∧ ((8 ≤ String.length id)%nat →
     _mask_user_id id = str_take 6 id +:+ str_repeat "*" (String.length id - 8)
                        +:+ str_drop (String.length id - 2) id).
Proof.
  unfold _mask_user_id, Masker._mask_value. cbn [Masker.visible_prefix Masker.visible_suffix Masker.init Masker.mask_char].
  assert (Hne : ∀ n, (1 ≤ n)%nat → (n ≤ String.length id)%nat → String.eqb id "" = false).
  { intros n ? ?. destruct id; [simpl in *; lia|done]. }
  split; intros Hl; rewrite (Hne 5%nat) by lia; cbn [orb];
    destruct (Nat.leb_spec (String.length id) 4); try lia;
    destruct (Nat.ltb_spec (String.length id) (6 + 2)); try lia; done.
Qed.

End checks.

(** ** Concrete proxies *)

Module Sample.

#[local] Existing Instance toy_runtime.
#[local] Existing Instance toy_re.

Definition proxy : env := mk_env [] false "" [] (λ _, None).

Definition key : UserAPIKeyAuth :=
  mk_token (Some "user-1234567") None None [] None None (Some []) [] [] None (inject_Z 0) None None None None.

Lemma template_matches_fillings_witness :
  _route_matches_pattern "/v1/threads/thread_49EIN/runs/7" "/v1/threads/{thread_id}/runs/{n}" = Pass true.
Proof.
  apply (template_matches_fillings _ [("/v1/threads/", "thread_id"); ("/runs/", "n")] ""); [by vm_compute|].
  left. apply (fills_hole "/v1/threads/" "thread_id" _ _ "thread_49EIN" "/runs/7"); [done|by vm_compute|].
  apply (fills_hole "/runs/" "n" _ _ "7" ""); [done|by vm_compute|]. constructor.
Defined.

Lemma admin_routes_closed_witness :
  passes (non_proxy_admin_allowed_routes_check proxy None (Some INTERNAL_USER) "/user/new" None key []) = false.
Proof.
  apply admin_routes_closed; [apply str_in_spec; by vm_compute|done|done|].
  split; [by right|by split].
Defined.

Lemma viewer_cannot_write_witness :
  passes (non_proxy_admin_allowed_routes_check proxy None (Some PROXY_ADMIN_VIEW_ONLY) "/key/generate" None key [])
  = false.
Proof. apply viewer_cannot_write. left. apply str_in_spec. by vm_compute. Defined.

Lemma viewer_may_write_and_call_witness :
  non_proxy_admin_allowed_routes_check proxy None (Some PROXY_ADMIN_VIEW_ONLY) "/team/block" None key [] = Pass ().
Proof. apply viewer_may_write_and_call; [done|]. left. apply str_in_spec. by vm_compute. Defined.

(** The route that deletes the stored credential named [azure]. *)
Lemma provider_name_opens_route_witness :
  non_proxy_admin_allowed_routes_check proxy None (Some CUSTOMER) "/credentials/azure" None key [] = Pass ().
Proof.
  apply (provider_name_opens_route proxy None (Some CUSTOMER) "/credentials" "/azure" ""); [|done].
  apply str_in_spec. by vm_compute.
Defined.

Lemma user_id_shown_witness : _mask_user_id "alice-1" = "alice-1".
Proof. apply user_id_shown. simpl. lia. Defined.

End Sample.

End RouteChecks.
