(* ===== verification/ModelAccess.v ===== *)
(** * ModelAccess: which models a key, user, team, organization or project may call

    [proxy/auth/auth_checks.py]: the wildcard patterns of allowed models, the access groups of
    the router, team aliases, and the access groups kept in the database, which are read
    through the proxy's [DualCache].  The provider lookup ([get_llm_provider]) and the database
    client are parameters. *)

From stdpp Require Import base gmap sets list strings.
From Stdlib Require Import ZArith QArith Lia Ascii.
From S2P Require Import Prelude PyStr InMemoryCache RedisCache DualCache RouterIndex Regex Routes AuthTypes.

Module ModelAccess.
Import Regex AuthTypes.

Definition DEFAULT_MAX_RECURSE_DEPTH : nat := 100.
Definition DEFAULT_ACCESS_GROUP_CACHE_TTL : Z := seconds 600.

Definition all_proxy_models : string := "all-proxy-models".
Definition no_default_models : string := "no-default-models".

Inductive object_type : Type := Key | User | Team | Org | Project.

Definition get_model_access_error_type_for_object (o : object_type) : string :=
  match o with
  | Key => "key_model_access_denied"
  | Team => "team_model_access_denied"
  | User => "user_model_access_denied"
  | Org => "org_model_access_denied"
  | Project => "project_model_access_denied"
  end.

(** The model of a request: a name, or a list of models. *)
Inductive model_req : Type := Name (s : string) | Names (l : list model_req).

(** ** Wildcard patterns *)

Definition _is_wildcard_pattern (allowed_model_pattern : string) : bool := str_contains "*" allowed_model_pattern.

(** [s.replace("*", ".*")]. *)
Fixpoint replace_star (s : string) : string :=
  match s with
  | EmptyString => ""
  | String c s' => if Ascii.eqb c "*" then ".*" +:+ replace_star s' else String c (replace_star s')
  end.

Section access.
Context `{PyRuntime} `{PyRe}.
(** [litellm.model_alias_map]. *)
Variable model_alias_map : list (string * string).
(** [get_llm_provider(model)]: the model and its provider; [None] when it raises. *)
Variable get_llm_provider : string → option (string * string).
(** The pattern routers of the router. *)
Variable pattern_route : string → list RouterIndex.deployment.
Variable team_pattern_route : string → string → list RouterIndex.deployment.

Definition is_model_allowed_by_pattern (model allowed_model_pattern : string) : outcome bool :=
  if str_contains "*" allowed_model_pattern
  then lift (re_match_anchored (replace_star allowed_model_pattern) model)
  else mret false.

Definition _model_custom_llm_provider_matches_wildcard_pattern (model allowed_model_pattern : string)
    : outcome bool :=
  match get_llm_provider model with
  | None => mret false
  | Some (model', custom_llm_provider) =>
      is_model_allowed_by_pattern (custom_llm_provider +:+ "/" +:+ model') allowed_model_pattern
  end.

(** [any(_is_wildcard_pattern(p) and test(p) for p in l)]. *)
Definition any_wildcard (test : string → outcome bool) (l : list string) : outcome bool :=
  o_any (λ p, if _is_wildcard_pattern p then test p else mret false) l.

Definition _model_matches_any_wildcard_pattern_in_list (model : string) (allowed_model_list : list string)
    : outcome bool :=
  b ← any_wildcard (is_model_allowed_by_pattern model) allowed_model_list;
  if (b : bool) then mret true
  else any_wildcard (_model_custom_llm_provider_matches_wildcard_pattern model) allowed_model_list.

Definition _model_in_team_aliases (model : string) (team_aliases : option (list (string * string))) : bool :=
  match team_aliases with Some d => dmem model d | None => false end.

(** ** One object *)

(** The access groups of a model; none without a router. *)
Definition access_groups (llm_router : option RouterIndex.t) (model : string) (team_id : option string)
    : outcome (list (string * list string)) :=
  match llm_router with
  | Some r => lift (RouterIndex.get_model_access_groups pattern_route team_pattern_route (Some model) None team_id r).1
  | None => mret []
  end.

Definition _check_model_access_helper (model : string) (llm_router : option RouterIndex.t) (models : list string)
    (team_aliases : option (list (string * string))) (team_id : option string) : outcome bool :=
  groups ← access_groups llm_router model team_id;
  if existsb (λ m, dmem m groups) models then mret true
  else
    let filtered_models := filter (λ m, dmem m groups = false) models in
    if _model_in_team_aliases model team_aliases then mret true
    else
      wildcard ← _model_matches_any_wildcard_pattern_in_list model filtered_models;
      if (wildcard : bool) then mret true
      else
        let all_model_access :=
          (match filtered_models, models with [], [] => true | _, _ => false end || str_in "*" filtered_models)
          || str_in all_proxy_models filtered_models in
        if negb (str_in model filtered_models) && negb all_model_access then mret false else mret true.

(** The name asked for and the one behind its alias. *)
Definition potential_models (llm_router : option RouterIndex.t) (model : string) : outcome (list string) :=
  match dget model model_alias_map with
  | Some m => mret [model; m]
  | None =>
      match llm_router with
      | Some r =>
          if dmem model (RouterIndex.model_group_alias r) then
            target ← lift (RouterIndex._get_model_from_alias r model);
            mret (model :: match target with Some m => if String.eqb m "" then [] else [m] | None => [] end)
          else mret [model]
      | None => mret [model]
      end
  end.

Definition model_access_denied (o : object_type) : auth_exn :=
  ProxyException (get_model_access_error_type_for_object o) (Some "model") 401.

Section object.
Context (llm_router : option RouterIndex.t) (models : list string).
Context (team_aliases : option (list (string * string))) (team_id : option string) (o : object_type).

Definition can_call_name (model : string) : outcome bool :=
  names ← potential_models llm_router model;
  b ← o_any (λ m, _check_model_access_helper m llm_router models team_aliases team_id) names;
  if (b : bool) then mret true else Deny (model_access_denied o).

Fixpoint _can_object_call_model (fallback_depth : nat) (model : model_req) {struct model} : outcome bool :=
  if (DEFAULT_MAX_RECURSE_DEPTH <=? fallback_depth)%nat
  then raise_exception "Unable to parse model, max fallback depth exceeded"
  else
    match model with
    | Name s => can_call_name s
    | Names l =>
        (fix all (l : list model_req) : outcome bool :=
           match l with
           | [] => mret true
           | m :: l' => _can_object_call_model (S fallback_depth) m ;; all l'
           end) l
    end.
End object.

(** ** Access groups in the database *)

Record access_group := mk_group {
  access_model_names : list string;
  access_mcp_server_ids : list string;
  access_agent_ids : list string
}.

(** The group as the cache holds it: the object, or the dict it is built from. *)
Definition group_dict (g : access_group) : list (string * pyval) :=
  [("access_model_names", PList (PStr <$> access_model_names g));
   ("access_mcp_server_ids", PList (PStr <$> access_mcp_server_ids g));
   ("access_agent_ids", PList (PStr <$> access_agent_ids g))].

Definition group_val (g : access_group) : pyval := PDict (group_dict g).

Definition str_list_field (k : string) (d : list (string * pyval)) : option (list string) :=
  match dget k d with
  | None => Some []
  | Some (PList l) => mapM (λ v, match v with PStr s => Some s | _ => None end) l
  | Some _ => None
  end.

(** [LiteLLM_AccessGroupTable(d)]; [None] is a validation error. *)
Definition group_of_dict (d : list (string * pyval)) : option access_group :=
  names ← str_list_field "access_model_names" d;
  mcp ← str_list_field "access_mcp_server_ids" d;
  agents ← str_list_field "access_agent_ids" d;
  Some (mk_group names mcp agents).

Section groups.
Context {R : Type} `{RedisCacheI R}.
(** The database client, if there is one: find the group of an id; the query may raise. *)
Variable prisma_client : option (string → res (option access_group)).

Definition group_key (id : string) : string := "access_group_id:" +:+ id.

Definition _cache_access_object (now : Z) (id : string) (g : access_group) : M (DualCache.t R) unit :=
  DualCache.async_set_cache now (group_key id) (group_val g) false (Some (Some DEFAULT_ACCESS_GROUP_CACHE_TTL)).

(** The key's cache and, if there is a proxy logger, the cache the logger uses. *)
Definition _delete_cache_access_object (now : Z) (id : string) : M (DualCache.t R * option (DualCache.t R)) unit :=
  λ cs, match DualCache.delete_cache now (group_key id) cs.1, cs.2 with
        | (Raise e, c), u => (Raise e, (c, u))
        | (Ok _, c), None => (Ok (), (c, None))
        | (Ok _, c), Some u =>
            match DualCache.async_delete_cache now (group_key id) u with (r, u') => (r, (c, Some u')) end
        end.

(** Ask the database and cache the answer. *)
Definition fetch_access_object (now : Z) (id : string) (find : string → res (option access_group))
    : M (DualCache.t R) access_group :=
  m_try (found ← m_lift (find id);
         match found with
         | None => m_raise (GenericError "404")
         | Some g => _cache_access_object now id g ;; mret g
         end)
        (λ _, m_raise (GenericError "404")).

Definition get_access_object (now : Z) (id : string) : M (DualCache.t R) access_group :=
  match prisma_client with
  | None => m_raise (GenericError "No DB Connected. See - https://docs.litellm.ai/docs/proxy/virtual_keys")
  | Some find =>
      cached ← DualCache.async_get_cache now (group_key id) false None;
      match cached with
      | PDict d => match group_of_dict d with Some g => mret g | None => m_raise ValueError end
      | _ => fetch_access_object now id find
      end
  end.

(** The resources of every group that can be read; a group that cannot is skipped. *)
Fixpoint resources_loop (now : Z) (field : access_group → list string) (ids : list string)
    : M (DualCache.t R) (list string) :=
  match ids with
  | [] => mret []
  | id :: ids' =>
      here ← m_try (g ← get_access_object now id; mret (field g)) (λ _, mret []);
      rest ← resources_loop now field ids';
      mret (here ++ rest)
  end.

(** [list(set(resources))]: without repetitions, in some order. *)
Definition _get_resources_from_access_groups (now : Z) (field : access_group → list string) (ids : list string)
    : M (DualCache.t R) (list string) :=
  match ids with
  | [] => mret []
  | _ => resources ← resources_loop now field ids; mret (remove_dups resources)
  end.

Definition _get_models_from_access_groups (now : Z) := _get_resources_from_access_groups now access_model_names.
Definition _get_mcp_server_ids_from_access_groups (now : Z) :=
  _get_resources_from_access_groups now access_mcp_server_ids.
Definition _get_agent_ids_from_access_groups (now : Z) := _get_resources_from_access_groups now access_agent_ids.

Definition is_proxy_exception (e : auth_exn) : bool := match e with ProxyException _ _ _ => true | _ => false end.

(** Native permissions first; when they deny, the access groups of the object. *)
Definition with_access_groups (now : Z) (native : outcome bool) (by_models : list string → outcome bool)
    (ids : option (list string)) (c : DualCache.t R) : outcome bool * DualCache.t R :=
  match native with
  | Pass b => (Pass b, c)
  | Deny e =>
      if is_proxy_exception e then
        match default [] ids with
        | [] => (Deny e, c)
        | group_ids =>
            match _get_models_from_access_groups now group_ids c with
            | (Ok [], c') => (Deny e, c')
            | (Ok models_from_groups, c') => (by_models models_from_groups, c')
            | (Raise e', c') => (Deny (PyExn e'), c')
            end
        end
      else (Deny e, c)
  end.

Definition can_key_call_model (now : Z) (model : model_req) (valid_token : UserAPIKeyAuth)
    (llm_router : option RouterIndex.t) : DualCache.t R → outcome bool * DualCache.t R :=
  let check models := _can_object_call_model llm_router models (team_model_aliases valid_token)
                        (token_team_id valid_token) Key 0 model in
  with_access_groups now (check (token_models valid_token)) check (token_access_group_ids valid_token).

Definition can_team_access_model (now : Z) (model : model_req) (team_object : option LiteLLM_TeamTable)
    (llm_router : option RouterIndex.t) (team_aliases : option (list (string * string)))
    : DualCache.t R → outcome bool * DualCache.t R :=
  let check models := _can_object_call_model llm_router models team_aliases (team_id <$> team_object) Team 0 model in
  with_access_groups now (check (match team_object with Some t => team_models t | None => [] end)) check
    (match team_object with Some t => team_access_group_ids t | None => None end).
End groups.

Definition can_org_access_model (model : model_req) (org_object : option LiteLLM_OrganizationTable)
    (llm_router : option RouterIndex.t) (team_aliases : option (list (string * string))) : outcome bool :=
  _can_object_call_model llm_router (match org_object with Some g => org_models g | None => [] end)
    team_aliases None Org 0 model.

Definition can_project_access_model (model : model_req) (project_object : LiteLLM_ProjectTable)
    (llm_router : option RouterIndex.t) : outcome bool :=
  _can_object_call_model llm_router (project_models project_object) None None Project 0 model.

Definition can_user_call_model (model : model_req) (llm_router : option RouterIndex.t)
    (user_object : option LiteLLM_UserTable) : outcome bool :=
  match user_object with
  | None => mret true
  | Some u =>
      if str_in no_default_models (user_models u)
      then Deny (ProxyException "key_model_access_denied" (Some "model") 401)
      else _can_object_call_model llm_router (user_models u) None None User 0 model
  end.

Definition model_in_access_group (model : string) (team_models : option (list string))
    (llm_router : option RouterIndex.t) : outcome bool :=
  match team_models with
  | None => mret true
  | Some ms =>
      if str_in model ms then mret true
      else
        groups ← access_groups llm_router model None;
        if existsb (λ m, dmem m groups) ms then mret true
        else mret (str_in model (filter (λ m, dmem m groups = false) ms))
  end.

(** ** Wildcard patterns match by prefix *)

Lemma replace_star_plain p s : plain p = true → replace_star (p +:+ s) = p +:+ replace_star s.
Proof.
  unfold plain. induction p as [|c p IH]; [done|]. cbn [str_all]. intros [Hc Hp]%andb_true_iff.
  rewrite !str_app_cons. cbn [replace_star]. rewrite IH by done.
  destruct (Ascii.eqb_spec c "*") as [->|]; [by vm_compute in Hc|done].
Qed.

Lemma star_end p : str_contains "*" (p +:+ "*") = true.
Proof. apply str_contains_mid. Qed.

Definition no_newline (u : string) : bool := str_all (atom_accepts AnyChar) u.

Lemma lang_any u : lang [(AnyChar, Many)] u ↔ no_newline u = true.
Proof.
  split.
  - inversion 1 as [|? ? ? w v _ Hw Hv]; subst. inversion Hv; subst. by rewrite str_app_nil_r.
  - intros Hu. rewrite <-(str_app_nil_r u). constructor; [done|done|constructor].
Qed.

(** A pattern that is a prefix and a star allows exactly the models with that prefix (of one line; a
    final newline is ignored). *)
Theorem prefix_pattern_allows p model :
  plain p = true →
  is_model_allowed_by_pattern model (p +:+ "*") = Pass true ↔
  ∃ u, no_newline u = true ∧ (model = p +:+ u ∨ model = p +:+ u +:+ String newline "").
Proof.
  intros Hp. unfold is_model_allowed_by_pattern, re_match_anchored.
  rewrite star_end, replace_star_plain by done. unfold re_parse.
  rewrite re_parse_plain by done. cbn [pend]. rewrite app_nil_l.
  change (re_parse_from None (replace_star "*")) with (Some [(AnyChar, Many)]). cbn [fmap option_fmap option_map lift].
  assert (Hl : ∀ s, lang (lits p ++ [(AnyChar, Many)]) s ↔ ∃ u, no_newline u = true ∧ s = p +:+ u).
  { intros s. rewrite lang_lits. setoid_rewrite lang_any. clear. naive_solver. }
  transitivity (fullmatch (lits p ++ [(AnyChar, Many)]) model = true); [split; congruence|].
  rewrite fullmatch_spec. setoid_rewrite Hl. split.
  - intros [(u & Hu & ->)|(s & -> & u & Hu & ->)]; exists u; [by auto|].
    split; [done|]. right. by rewrite str_app_assoc.
  - intros (u & Hu & [->| ->]); [by left; eauto|]. right. exists (p +:+ u). rewrite str_app_assoc. eauto.
Qed.

(** The pattern is not escaped: a dot before the star stands for any character, so a key for
    [a.b*] may call every model [a], any character, [b] and more. *)
Theorem dot_pattern_allows_any a b c u :
  plain a = true → plain b = true → c ≠ newline → no_newline u = true →
  is_model_allowed_by_pattern (a +:+ String c (b +:+ u)) (a +:+ "." +:+ b +:+ "*") = Pass true.
Proof.
  intros Ha Hb Hc Hu. unfold is_model_allowed_by_pattern, re_match_anchored.
  rewrite <-!str_app_assoc, star_end, !str_app_assoc. rewrite replace_star_plain by done.
  change ("." +:+ b +:+ "*") with (String "." (b +:+ "*")). cbn [replace_star]. simpl (Ascii.eqb "." "*"). cbv iota.
  rewrite (replace_star_plain b) by done. unfold re_parse. rewrite re_parse_plain by done.
  cbn [re_parse_from quantifier Ascii.eqb Bool.eqb pend]. simpl (quantifier "."). cbv iota beta.
  simpl (Ascii.eqb "." "["). simpl (Ascii.eqb "." "."). cbv iota.
  rewrite re_parse_plain by done. change (re_parse_from None (replace_star "*")) with (Some [(AnyChar, Many)]).
  cbn [fmap option_fmap option_map lift pend]. rewrite !app_nil_l. f_equal. apply fullmatch_spec. left. apply lang_lits. exists (String c (b +:+ u)). split; [done|].
  apply (lang_cons AnyChar One _ (String c "") (b +:+ u)); [done| |].
  - cbn. destruct (Ascii.eqb_spec c newline); [done|by vm_compute].
  - apply lang_lits. exists u. split; [done|]. by apply lang_any.
Qed.

(** ** The decision for one model *)

(** The wildcard entries of a list are expressions the model decides. *)
Definition wildcards_ok (models : list string) : bool :=
  forallb (λ m, negb (_is_wildcard_pattern m) || match re_parse (replace_star m) with Some _ => true | None => false end)
    models.

Definition pattern_allows (model m : string) : bool :=
  _is_wildcard_pattern m && match re_parse (replace_star m) with Some r => fullmatch r model | None => false end.

Definition wildcard_allows (model : string) (models : list string) : bool :=
  existsb (pattern_allows model) models
  || match get_llm_provider model with
     | None => false
     | Some (model', provider) => existsb (pattern_allows (provider +:+ "/" +:+ model')) models
     end.

(** A list of models allows [model], whose access groups are [groups]. *)
Definition allows (groups : list (string * list string)) (aliases : option (list (string * string)))
    (model : string) (models : list string) : bool :=
  let others := filter (λ m, dmem m groups = false) models in
  bool_decide (models = []) || existsb (λ m, dmem m groups) models || _model_in_team_aliases model aliases
  || wildcard_allows model others
  || str_in "*" others || str_in all_proxy_models others || str_in model others.

Lemma wildcards_ok_sub models models' :
  (∀ m, m ∈ models → m ∈ models') → wildcards_ok models' = true → wildcards_ok models = true.
Proof.
  unfold wildcards_ok. rewrite !forallb_forall. intros Hsub H1 m Hm. apply H1.
  apply list_elem_of_In, Hsub. by apply list_elem_of_In.
Qed.

Lemma any_wildcard_pure model models :
  wildcards_ok models = true →
  any_wildcard (is_model_allowed_by_pattern model) models = Pass (existsb (pattern_allows model) models).
Proof.
  intros Hok. apply o_any_pure. intros m Hm. unfold wildcards_ok in Hok. rewrite forallb_forall in Hok.
  specialize (Hok m ltac:(by apply list_elem_of_In)). unfold pattern_allows, _is_wildcard_pattern in *.
  unfold is_model_allowed_by_pattern, re_match_anchored. destruct (str_contains "*" m); [|done].
  by destruct (re_parse (replace_star m)).
Qed.

Lemma wildcard_list_pure model models :
  wildcards_ok models = true →
  _model_matches_any_wildcard_pattern_in_list model models = Pass (wildcard_allows model models).
Proof.
  intros Hok. unfold _model_matches_any_wildcard_pattern_in_list, wildcard_allows.
  rewrite any_wildcard_pure by done. cbn [mbind outcome_bind].
  destruct (existsb (pattern_allows model) models); [done|]. cbn [orb].
  unfold _model_custom_llm_provider_matches_wildcard_pattern.
  destruct (get_llm_provider model) as [[model' provider]|].
  - by apply any_wildcard_pure.
  - unfold any_wildcard. rewrite (o_any_pure _ (λ _, false)).
    + f_equal. by apply existsb_elem_false.
    + intros m _. by destruct (_is_wildcard_pattern m).
Qed.

Lemma check_model_access_pure model r models aliases team groups :
  wildcards_ok models = true → access_groups r model team = Pass groups →
  _check_model_access_helper model r models aliases team = Pass (allows groups aliases model models).
Proof.
  intros Hok Hg. unfold _check_model_access_helper, allows. rewrite Hg. cbn [mbind outcome_bind].
  set (others := filter (λ m, dmem m groups = false) models).
  destruct (existsb (λ m, dmem m groups) models) eqn:E; [by destruct (bool_decide _)|].
  rewrite orb_false_r. destruct (_model_in_team_aliases model aliases); [by destruct (bool_decide _)|].
  rewrite wildcard_list_pure.
  2: { eapply wildcards_ok_sub; [|exact Hok]. intros m Hm. by apply list_elem_of_filter in Hm as [_ Hm]. }
  cbn [mbind outcome_bind]. destruct (wildcard_allows model others); [by destruct (bool_decide _)|].
  assert (match others, models with [], [] => true | _, _ => false end = bool_decide (models = [])) as ->.
  { subst others. destruct models; [done|]. by case_match. }
  by destruct (bool_decide (models = [])), (str_in "*" others), (str_in all_proxy_models others), (str_in model others).
Qed.

Lemma existsb_sub {A} (f : A → bool) l l' :
  (∀ x, x ∈ l → x ∈ l') → existsb f l = true → existsb f l' = true.
Proof. rewrite !existsb_elem. intros Hsub (x & Hx & Hf). eauto. Qed.

Lemma wildcard_allows_sub model l l' :
  (∀ m, m ∈ l → m ∈ l') → wildcard_allows model l = true → wildcard_allows model l' = true.
Proof.
  unfold wildcard_allows. intros Hsub [H1|H1]%orb_true_iff; apply orb_true_iff; [left; by eapply existsb_sub|right].
  destruct (get_llm_provider model) as [[? ?]|]; [by eapply existsb_sub|done].
Qed.

(** An empty list of models allows every model; adding models to any other list takes nothing away. *)
Theorem model_list_monotone model r models models' aliases team groups :
  wildcards_ok models' = true → access_groups r model team = Pass groups →
  (∀ m, m ∈ models → m ∈ models') →
  _check_model_access_helper model r [] aliases team = Pass true
  ∧ (models ≠ [] → _check_model_access_helper model r models aliases team = Pass true →
     _check_model_access_helper model r models' aliases team = Pass true).
Proof.
  intros Hok Hg Hsub. split; [by rewrite (check_model_access_pure _ _ _ _ _ groups)|].
  intros Hne. rewrite !(check_model_access_pure _ _ _ _ _ groups) by eauto using wildcards_ok_sub.
  intros [= Ha]. f_equal. revert Ha. unfold allows. rewrite (bool_decide_eq_false_2 _ Hne).
  assert (Hf : ∀ m, m ∈ filter (λ m, dmem m groups = false) models → m ∈ filter (λ m, dmem m groups = false) models').
  { intros m. rewrite !list_elem_of_filter. intros [? ?]. auto. }
  rewrite !orb_true_iff, !str_in_spec.
  pose proof (existsb_sub (λ m, dmem m groups) _ _ Hsub). pose proof (wildcard_allows_sub model _ _ Hf).
  pose proof (Hf "*"). pose proof (Hf all_proxy_models). pose proof (Hf model). pose proof diff_false_true. clear Hf Hsub Hg Hok Hne. tauto.
Qed.

(** ** Requests for several models *)

Section request.
Context (r : option RouterIndex.t) (models : list string) (aliases : option (list (string * string))).
Context (team : option string) (o : object_type).

Fixpoint leaves (m : model_req) : list string :=
  match m with Name s => [s] | Names l => (fix go l := match l with [] => [] | x :: l' => leaves x ++ go l' end) l end.

(** How deep lists are nested. *)
Fixpoint height (m : model_req) : nat :=
  match m with
  | Name _ => 0
  | Names l => (fix go l := match l with [] => 0%nat | x :: l' => Nat.max (S (height x)) (go l') end) l
  end.

Section model_req_induction.
Variable P : model_req → Prop.
Hypothesis Hname : ∀ s, P (Name s).
Hypothesis Hnames : ∀ l, Forall P l → P (Names l).
Fixpoint model_req_ind' (m : model_req) : P m :=
  match m with
  | Name s => Hname s
  | Names l => Hnames l ((fix go l : Forall P l :=
      match l with [] => Forall_nil_2 P | x :: l' => Forall_cons_2 P x l' (model_req_ind' x) (go l') end) l)
  end.
End model_req_induction.

Lemma can_call_name_true s b : can_call_name r models aliases team o s = Pass b → b = true.
Proof.
  unfold can_call_name. destruct (potential_models r s) as [ns|]; [|done]. cbn.
  destruct (o_any _ ns) as [[]|]; cbn; by intros [= <-].
Qed.

(** C30: A request for several models, however nested, is allowed exactly when every model named in it is, and
    the lists are not nested beyond the recursion limit. *)
Theorem every_model_is_checked m d :
  passes (_can_object_call_model r models aliases team o d m) = true ↔
  (d + height m < DEFAULT_MAX_RECURSE_DEPTH)%nat
  ∧ ∀ s, s ∈ leaves m → can_call_name r models aliases team o s = Pass true.
Proof.
  revert d. induction m as [s|l IH] using model_req_ind'; intros d; cbn [_can_object_call_model height leaves];
    destruct (Nat.leb_spec DEFAULT_MAX_RECURSE_DEPTH d) as [Hd|Hd];
    try (split; [done|intros [? _]; lia]).
  - split.
    + intros Hp. split; [lia|]. intros s' ->%list_elem_of_singleton.
      destruct (can_call_name r models aliases team o s) as [b|] eqn:E; [|done].
      by rewrite (can_call_name_true _ _ E).
    + intros [_ Hs]. by rewrite Hs by left.
  - revert IH. induction l as [|x l IHl]; intros HF.
    { split; [split; [lia|set_solver]|done]. }
    inversion HF as [|? ? Hx Hl]; subst. specialize (IHl Hl). specialize (Hx (S d)).
    destruct (_can_object_call_model r models aliases team o (S d) x) as [b|e] eqn:E; cbn [mbind outcome_bind].
    + destruct (proj1 Hx eq_refl) as [Hh Hs]. rewrite IHl. split.
      * intros [H1 H2]. split; [lia|]. intros s [?|?]%elem_of_app; auto.
      * intros [H1 H2]. split; [lia|]. intros s Hin. apply H2. apply elem_of_app. auto.
    + split; [done|]. intros [H1 H2]. exfalso. assert (Hf : passes (Deny e : outcome bool) = true); [|done].
      apply Hx. split; [lia|]. intros s Hin. apply H2. apply elem_of_app. auto.
Qed.
End request.

(** ** Access groups *)

Lemma str_list_field_vals k l d :
  dget k d = Some (PList (PStr <$> l)) → str_list_field k d = Some l.
Proof.
  unfold str_list_field. intros ->. induction l as [|x l IH]; [done|]. cbn in *. by rewrite IH.
Qed.

(** What is cached is read back. *)
Lemma group_of_group_dict g : group_of_dict (group_dict g) = Some g.
Proof.
  unfold group_of_dict. rewrite (str_list_field_vals "access_model_names" (access_model_names g)) by done.
  rewrite (str_list_field_vals "access_mcp_server_ids" (access_mcp_server_ids g)) by done.
  rewrite (str_list_field_vals "access_agent_ids" (access_agent_ids g)) by done. by destruct g.
Qed.

Section groups_theorems.
Context {R : Type} `{RedisCacheI R}.
Implicit Types c : DualCache.t R.

Lemma async_get_cache_miss now key c :
  DualCache.redis_cache c = None → InMemoryCache.cache_dict (DualCache.in_memory_cache c) !! key = None →
  DualCache.async_get_cache now key false None c = (Ok PNone, c).
Proof.
  intros Hr Hk.
  assert (Hm : InMemoryCache.get_cache now key (DualCache.in_memory_cache c) = (Ok PNone, DualCache.in_memory_cache c)).
  { unfold InMemoryCache.get_cache. by rewrite Hk. }
  unfold DualCache.async_get_cache, DualCache.read_through, m_try, mbind, M_bind, m_get.
  rewrite (DualCache.on_im_run _ _ _ _ Hm). cbn. rewrite Hr. by destruct c.
Qed.

(** A group the database does not have, or cannot be asked for. *)
Definition unreadable (find : string → res (option access_group)) (id : string) : Prop :=
  find id = Ok None ∨ ∃ e, find id = Raise e.

Lemma resources_unreadable find field now ids c :
  DualCache.redis_cache c = None →
  (∀ id, id ∈ ids → InMemoryCache.cache_dict (DualCache.in_memory_cache c) !! group_key id = None
                    ∧ unreadable find id) →
  resources_loop (Some find) now field ids c = (Ok [], c).
Proof.
  intros Hr. induction ids as [|id ids IH]; intros Hids; [done|].
  destruct (Hids id) as [Hc Hu]; [by left|].
  assert (Hg : get_access_object (Some find) now id c = (Raise (GenericError "404"), c)).
  { unfold get_access_object, mbind, M_bind. rewrite async_get_cache_miss by done. cbn.
    unfold fetch_access_object, m_try, m_lift, mbind, M_bind.
    destruct Hu as [->|[e ->]]; done. }
  cbn [resources_loop]. unfold m_try, mbind, M_bind. rewrite Hg. cbn.
  fold (resources_loop (Some find) now field ids). rewrite IH; [done|]. intros id' Hid'. apply Hids. by right.
Qed.

(** Access groups fail closed: a key its own models do not allow, whose groups are neither cached nor in the
    database, stays denied with the first error, also when the database raises. *)
Theorem unreadable_groups_deny find now model token r c e ids :
  token_access_group_ids token = Some ids → DualCache.redis_cache c = None →
  (∀ id, id ∈ ids → InMemoryCache.cache_dict (DualCache.in_memory_cache c) !! group_key id = None
                    ∧ unreadable find id) →
  _can_object_call_model r (token_models token) (team_model_aliases token) (token_team_id token) Key 0 model = Deny e →
  can_key_call_model (Some find) now model token r c = (Deny e, c).
Proof.
  intros Hids Hr Hu Hd. unfold can_key_call_model, with_access_groups. rewrite Hd, Hids. cbn [default from_option id].
  destruct (is_proxy_exception e); [|done]. destruct ids as [|i ids]; [done|].
  unfold _get_models_from_access_groups, _get_resources_from_access_groups, mbind, M_bind.
  by rewrite resources_unreadable.
Qed.

(** A group read from the database is cached for ten minutes, and until then it grants what it granted, whatever
    happened to it in the database. *)
Theorem group_served_until_ttl find find' now now' id g c :
  DualCache.redis_cache c = None → InMemoryCache.wf (DualCache.in_memory_cache c) →
  InMemoryCache.max_size_in_memory (DualCache.in_memory_cache c) ≠ 0 →
  InMemoryCache.check_value_size (DualCache.in_memory_cache c) (group_val g) = true →
  InMemoryCache.cache_dict (DualCache.in_memory_cache c) !! group_key id = None →
  find id = Ok (Some g) → now' ≤ now + DEFAULT_ACCESS_GROUP_CACHE_TTL →
  (get_access_object (Some find) now id c).1 = Ok g
  ∧ (get_access_object (Some find') now' id (get_access_object (Some find) now id c).2).1 = Ok g.
Proof.
  intros Hr Hwf Hm Hsz Hk Hf Hle.
  pose proof (DualCache.async_set_cache_im now (group_key id) (group_val g) false
    (Some (Some DEFAULT_ACCESS_GROUP_CACHE_TTL)) c Hwf) as Him.
  destruct (InMemoryCache.set_cache_entry now (group_key id) (group_val g)
    (DualCache.with_default_ttl (Some (Some DEFAULT_ACCESS_GROUP_CACHE_TTL)) c) _ Hwf Hm Hsz)
    as (Hc & e & He & Hor).
  assert (Hok : (_cache_access_object now id g c).1 = Ok ()).
  { unfold _cache_access_object, DualCache.async_set_cache, m_try, mbind, M_bind, m_get.
    repeat case_match; simplify_eq/=; by repeat match goal with u : unit |- _ => destruct u end. }
  assert (Hg : get_access_object (Some find) now id c = (Ok g, (_cache_access_object now id g c).2)).
  { unfold get_access_object, mbind, M_bind. rewrite async_get_cache_miss by done. cbn [is_none].
    unfold fetch_access_object, m_try, m_lift, mbind, M_bind. rewrite Hf.
    by destruct (_cache_access_object now id g c) as [[[]|] c1]. }
  rewrite Hg. split; [done|]. cbn [snd]. unfold _cache_access_object.
  set (c1 := (DualCache.async_set_cache now (group_key id) (group_val g) false _ c).2) in *.
  assert (Hle' : now' ≤ e).
  { destruct Hor as [->|[Ht _]]; [exact Hle|]. apply elem_of_dom_2 in Ht.
    rewrite <-(InMemoryCache.core_dom _ (InMemoryCache.wf_core _ Hwf)) in Ht.
    apply elem_of_dom in Ht as [? ?]. congruence. }
  assert (Hget : (InMemoryCache.get_cache now' (group_key id) (DualCache.in_memory_cache c1)).1 = Ok (group_val g)).
  { rewrite Him. erewrite InMemoryCache.get_cache_entry by done. by destruct (Z.leb_spec now' e); [|lia]. }
  destruct (InMemoryCache.get_cache now' _ _) as [v im] eqn:E. cbn in Hget. subst v.
  unfold get_access_object, DualCache.async_get_cache, DualCache.read_through, m_try, mbind, M_bind.
  rewrite (DualCache.on_im_run _ _ _ _ E). cbn -[group_dict group_of_dict group_key]. by rewrite group_of_group_dict.
Qed.
End groups_theorems.

End access.

(** ** Concrete requests *)

Module Sample.

#[local] Existing Instance toy_runtime.
#[local] Existing Instance toy_re.
#[local] Existing Instance RedisCache.toy_client.
#[local] Existing Instance RedisCache.RedisCache_instance.

Definition no_provider : string → option (string * string) := λ _, None.
Definition no_pattern : string → list RouterIndex.deployment := λ _, [].
Definition no_team_pattern : string → string → list RouterIndex.deployment := λ _ _, [].

Definition cache : DualCache.t (RedisCache.t RedisCache.toy) :=
  DualCache.init DualCache.default_settings None None None None None 1000.

Definition key (models : list string) (groups : option (list string)) : UserAPIKeyAuth :=
  mk_token (Some "u") None None models None groups (Some []) [] [] None (inject_Z 0) None None None None.

Lemma prefix_pattern_allows_witness :
  is_model_allowed_by_pattern "bedrock/us.amazon.nova-micro-v1:0" "bedrock/*" = Pass true.
Proof.
  apply (prefix_pattern_allows "bedrock/"); [by vm_compute|].
  exists "us.amazon.nova-micro-v1:0". split; [by vm_compute|by left].
Defined.

Lemma dot_pattern_allows_any_witness : is_model_allowed_by_pattern "gpt-3x5-turbo" "gpt-3.5*" = Pass true.
Proof. apply (dot_pattern_allows_any "gpt-3" "5" "x" "-turbo"); [by vm_compute..|done|by vm_compute]. Defined.

Lemma model_list_monotone_witness :
  _check_model_access_helper no_provider no_pattern no_team_pattern "gpt-4" None ["gpt-4"; "claude*"] None None
  = Pass true.
Proof.
  apply (model_list_monotone no_provider no_pattern no_team_pattern "gpt-4" None ["gpt-4"] ["gpt-4"; "claude*"] None None []);
    [by vm_compute|done|set_solver|done|by vm_compute].
Defined.

Lemma unreadable_groups_deny_witness :
  (can_key_call_model [] no_provider no_pattern no_team_pattern (Some (λ _, Ok None)) 0 (Name "gpt-4")
     (key ["claude"] (Some ["g1"])) None cache).1 = Deny (model_access_denied Key).
Proof.
  rewrite (unreadable_groups_deny [] no_provider no_pattern no_team_pattern (λ _, Ok None) 0 (Name "gpt-4")
    (key ["claude"] (Some ["g1"])) None cache (model_access_denied Key) ["g1"]); [done|done|done| |by vm_compute].
  intros id _. split; [done|by left].
Defined.

Lemma group_served_until_ttl_witness :
  let find id := if String.eqb id "g1" then Ok (Some (mk_group ["gpt-4"] [] [])) else Ok None in
  let c1 := (get_access_object (Some find) 0 "g1" cache).2 in
  (get_access_object (Some (λ _, Ok None)) (seconds 599) "g1" c1).1 = Ok (mk_group ["gpt-4"] [] []).
Proof.
  cbv zeta. apply group_served_until_ttl; [done| |by vm_compute|by vm_compute|done|done|by vm_compute].
  by apply InMemoryCache.wf_init.
Defined.

End Sample.

End ModelAccess.
