(* ===== verification/AuthChecks.v ===== *)
(** * AuthChecks: the checks of a request ([proxy/auth/auth_checks.py])

    [common_checks] decides whether an authenticated request may go on: the team, the project and
    their models, the budgets, the request's parameters, the organization roles, the route,
    the vector stores and the tools.  One definition per check, composed in the order of the
    code.  A check may also start an alert, so checks run on a state: the proxy's
    cache (read by the access groups) and the alerts sent so far.  The database reads, the
    agent registry, the vector-store registry and the extraction of tool names are
    fields of [backend]. *)

From stdpp Require Import base gmap sets list strings.
From Stdlib Require Import ZArith QArith Lia Ascii.
From S2P Require Import Prelude PyStr InMemoryCache RedisCache DualCache RouterIndex Regex Routes AuthTypes RouteChecks ModelAccess.

Module AuthChecks.
Import Regex Routes AuthTypes RouteChecks ModelAccess.

#[local] Abbreviation dict := (list (string * pyval)).

Definition Qltb (a b : Q) : bool := negb (Qle_bool b a).

(** ** The model of a request ([auth_utils.get_model_from_request]) *)

(** The part of [s] before the first [c], when it is not empty and [c] is there. *)
Definition before_char (c : ascii) (s : string) : option string :=
  match split_once c s with
  | (x, Some _) => if String.eqb x "" then None else Some x
  | (_, None) => None
  end.

(** The nonempty run of characters other than [c] at the start of [s]. *)
Definition run_until (c : ascii) (s : string) : option string :=
  let x := (split_once c s).1 in if String.eqb x "" then None else Some x.

(** What [group] reads after the prefix [p] of [s]. *)
Definition after_prefix (p : string) (group : string → option string) (s : string) : option string :=
  if startswith s p then group (str_drop (String.length p) s) else None.

(** [re.search]: the leftmost position where [m] matches. *)
Fixpoint search (m : string → option string) (s : string) : option string :=
  match m s with
  | Some g => Some g
  | None => match s with String _ s' => search m s' | EmptyString => None end
  end.

Definition google_model (s : string) : option string :=
  match after_prefix "/v1beta/models/" (before_char ":") s with
  | Some g => Some g
  | None => after_prefix "/beta/models/" (before_char ":") s
  end.

Definition model_from_route (route : string) : option string :=
  match after_prefix "/openai/deployments/" (run_until "/") route with
  | Some m => Some m
  | None =>
      if startswith (lower route) "/vertex" then search (after_prefix "/models/" (run_until ":")) route
      else match search google_model route with
           | Some m => Some m
           | None => after_prefix "/models/" (before_char ":") route
           end
  end.

Definition get_model_from_request (request_data : dict) (route : string) : outcome (option model_req) :=
  match py_or (default PNone (dget "model" request_data)) (default PNone (dget "target_model_names" request_data)) with
  | PNone => mret (Name <$> model_from_route route)
  | PStr s =>
      match split_on "," s with
      | [m] => mret (Some (Name (strip m)))
      | ms => mret (Some (Names ((λ m, Name (strip m)) <$> ms)))
      end
  | _ => Deny (PyExn AttributeError)
  end.

(** [if _model]. *)
Definition model_given (m : option model_req) : option model_req :=
  match m with
  | Some (Name s) => if String.eqb s "" then None else m
  | Some (Names []) => None
  | _ => m
  end.

(** ** Organizations ([auth_checks_organization.py]) *)

(** The role the user has in an organization: the last membership of it. *)
Definition get_user_organization_info (u : LiteLLM_UserTable) : list string * list (string * option string) :=
  foldl (λ acc m, (acc.1 ++ [organization_id m], dset (organization_id m) (membership_role m) acc.2)) ([], [])
    (default [] (organization_memberships u)).

Definition auth_error (param : string) : outcome unit := Deny (ProxyException "auth_error" (Some param) 401).

(** [mapping.get(id)] for the [organization_id] of a request: only a string can be a key there. *)
Definition role_in (mapping : list (string * option string)) (id : pyval) : outcome (option string) :=
  match id with
  | PStr s => mret (default None (dget s mapping))
  | _ => if hashable id then mret None else Deny (PyExn TypeError)
  end.

Definition organization_role_based_access_check (user_object : option LiteLLM_UserTable) (route : string)
    (request_body : dict) : outcome unit :=
  match user_object with
  | None => mret ()
  | Some u =>
      let passed := default PNone (dget "organization_id" request_body) in
      let admin := bool_decide (user_role u = Some (role_value PROXY_ADMIN)) in
      if String.eqb route "/organization/new" && negb admin then auth_error "user_role"
      else if admin then mret ()
      else if str_in route org_admin_only_routes then
        match organization_memberships u with
        | None => auth_error "organization_id"
        | Some _ =>
            if is_none passed then auth_error "organization_id" else
            role ← role_in (get_user_organization_info u).2 passed;
            match role with
            | None => auth_error "organization_id"
            | Some r => if String.eqb r (role_value ORG_ADMIN) then mret () else auth_error "user_role"
            end
        end
      else if String.eqb route "/team/new" then
        match organization_memberships u with
        | None | Some [] => mret ()
        | Some _ =>
            if is_none passed then auth_error "organization_id" else
            role ← role_in (get_user_organization_info u).2 passed;
            if bool_decide (role = Some (role_value ORG_ADMIN)) then mret () else auth_error "user_role"
        end
      else mret ()
  end.

(** ** Roles and routes *)

Definition _is_user_proxy_admin (user_obj : option LiteLLM_UserTable) : bool :=
  match user_obj with Some u => bool_decide (user_role u = Some (role_value PROXY_ADMIN)) | None => false end.

(** An unknown role, or none, is an internal user. *)
Definition _get_user_role (user_obj : option LiteLLM_UserTable) : option LitellmUserRoles :=
  match user_obj with
  | None => None
  | Some u =>
      match user_role u with
      | Some v => Some (default INTERNAL_USER (role_of_value v))
      | None => Some INTERNAL_USER
      end
  end.

Inductive token_type : Type := UI | API.

Record request := mk_request {
  method : option string;
  headers : list (string * string);
  query_user_id : option string
}.

Section routes.
Context `{PyRuntime} `{PyRe} (cfg : env).

Definition _is_ui_route (route : string) : outcome bool :=
  if existsb (startswith route) ui_routes then mret true
  else o_any (_route_matches_pattern route) ui_routes.

Definition _is_api_route_allowed (route : string) (req : request) (request_data : dict)
    (valid_token : option UserAPIKeyAuth) (user_obj : option LiteLLM_UserTable) : outcome bool :=
  match valid_token with
  | None => raise_exception "Invalid proxy server token passed. valid_token=None."
  | Some token =>
      if _is_user_proxy_admin user_obj then mret true
      else non_proxy_admin_allowed_routes_check cfg user_obj (_get_user_role user_obj) route (query_user_id req)
             token request_data ;; mret true
  end.

Definition _is_allowed_route (route : string) (kind : token_type) (req : request) (request_data : dict)
    (valid_token : option UserAPIKeyAuth) (user_obj : option LiteLLM_UserTable) : outcome bool :=
  ui ← match kind with UI => _is_ui_route route | API => mret false end;
  if (ui : bool) then mret true else _is_api_route_allowed route req request_data valid_token user_obj.

(** [regex.match(route)] for the regex Starlette's [compile_path] makes of a template. *)
Variable compiled_path_matches : string → string → bool.

Definition _allowed_routes_check (user_route : string) (allowed : list string) : bool :=
  existsb (λ r, match dget r member_map with
                | Some templates => existsb (λ t, compiled_path_matches t user_route) templates
                | None => String.eqb r user_route
                end) allowed.

Definition allowed_routes_check (role : LitellmUserRoles) (user_route : string)
    (admin_allowed_routes : list string) (team_allowed_routes : option (list string)) : bool :=
  match role with
  | PROXY_ADMIN => _allowed_routes_check user_route admin_allowed_routes
  | TEAM => _allowed_routes_check user_route (default ["openai_routes"; "info_routes"] team_allowed_routes)
  | _ => false
  end.
End routes.

Definition allowed_route_check_inside_route (role : option LitellmUserRoles) (key_user_id requested_user_id : option string)
    : bool :=
  let ret_val := is_role PROXY_ADMIN role || is_role PROXY_ADMIN_VIEW_ONLY role in
  match requested_user_id, key_user_id with
  | Some r, Some k => if String.eqb k r then true else ret_val
  | _, _ => ret_val
  end.

Definition get_actual_routes (allowed : list string) : list string :=
  flat_map (λ name, match dget name member_map with Some routes => routes | None => [name] end) allowed.

(** ** Checks of the request's parameters *)

Definition setting (k : string) (general_settings : dict) : bool := truthy (default (PBool false) (dget k general_settings)).

Section params.
Context `{PyRuntime} `{PyRe}.

Definition _enforce_user_param_check (general_settings : dict) (req : request) (request_body : dict) (route : string)
    : outcome unit :=
  if negb (setting "enforce_user_param" general_settings) then mret ()
  else
    is_openai_route ← is_llm_api_route route;
    is_mcp_route ← (if str_in route mcp_routes then mret true else check_route_access route mcp_routes);
    let is_post_method := match method req with Some m => String.eqb (lower m) "post" | None => false end in
    if is_post_method && is_openai_route && negb is_mcp_route && negb (dmem "user" request_body)
    then raise_exception ("'user' param not passed in. 'enforce_user_param'="
                          +:+ py_str (default PNone (dget "enforce_user_param" general_settings)))
    else mret ().

Definition _reject_clientside_metadata_tags_check (general_settings : dict) (request_body : dict) (route : string)
    : outcome unit :=
  if negb (setting "reject_clientside_metadata_tags" general_settings) then mret ()
  else
    llm ← is_llm_api_route route;
    if llm && match dget "metadata" request_body with Some (PDict d) => dmem "tags" d | _ => false end
    then Deny (ProxyException "bad_request_error" (Some "metadata.tags") 400) else mret ().

(** [max_budget] is [litellm.max_budget]. *)
Definition _global_proxy_budget_check (max_budget : Q) (global_proxy_spend : option Q) (skip_budget_checks : bool)
    (route : string) : outcome unit :=
  if negb (Qltb 0 max_budget) || skip_budget_checks then mret ()
  else match global_proxy_spend with
       | None => mret ()
       | Some spend =>
           llm ← is_llm_api_route route;
           if llm && negb (String.eqb route "/v1/models") && negb (String.eqb route "/models")
              && Qltb max_budget spend
           then Deny (BudgetExceededError spend max_budget) else mret ()
       end.
End params.

(** [guardrail_helpers.can_modify_guardrails]. *)
Definition can_modify_guardrails (team_obj : option LiteLLM_TeamTable) : bool :=
  match team_obj with
  | None => true
  | Some t =>
      match dget "guardrails" (default [] (team_table_metadata t)) with
      | Some (PDict g) => match dget "modify_guardrails" g with Some (PBool false) => false | _ => true end
      | _ => true
      end
  end.

Definition _guardrail_modification_check (request_body : dict) (team_object : option LiteLLM_TeamTable) : outcome unit :=
  let request_metadata := py_or (default (PDict []) (dget "metadata" request_body)) (PDict []) in
  g ← lift (py_get request_metadata "guardrails");
  if negb (truthy g) then mret ()
  else if can_modify_guardrails team_object then mret ()
  else Deny (HTTPException 403 "Your team does not have permission to modify guardrails.").

(** [http_parsing_utils.get_tags_from_request_body]. *)
Definition get_metadata_variable_name_from_kwargs (kwargs : dict) : string :=
  if dmem "litellm_metadata" kwargs then "litellm_metadata" else "metadata".

Definition list_or_nil (v : pyval) : list pyval := match v with PList l => l | _ => [] end.

Definition get_tags_from_request_body (request_body : dict) : outcome (list string) :=
  let md := py_or (default PNone (dget (get_metadata_variable_name_from_kwargs request_body) request_body)) (PDict []) in
  in_metadata ← lift (py_get_or md "tags" (PList []));
  let combined := list_or_nil in_metadata ++ list_or_nil (default (PList []) (dget "tags" request_body)) in
  mret (omap (λ v, match v with PStr s => Some s | _ => None end) combined).

(** [litellm_pre_call_utils.get_chain_id_from_headers]; the last header of a name counts. *)
Definition get_chain_id_from_headers (hs : list (string * string)) : option string :=
  let normalized := foldl (λ d kv, dset (lower kv.1) kv.2 d) [] hs in
  match dget "x-litellm-trace-id" normalized with
  | Some v => if String.eqb v "" then dget "x-litellm-session-id" normalized else Some v
  | None => dget "x-litellm-session-id" normalized
  end.

(** ** Free models *)

(** [router.get_model_group_info(name)]: nothing, or the two costs per token; it may raise. *)
Definition model_costs : Type := string → res (option (option Q * option Q)).

Definition is_free (costs : model_costs) (name : string) : bool :=
  match costs name with
  | Ok (Some (Some input_cost, Some output_cost)) => negb (Qltb 0 input_cost || Qltb 0 output_cost)
  | _ => false
  end.

(** [None] for a missing router. *)
Definition _is_model_cost_zero (model : option model_req) (llm_router : option model_costs) : bool :=
  match model, llm_router with
  | Some (Name s), Some costs => is_free costs s
  | Some (Names l), Some costs => forallb (λ m, match m with Name s => is_free costs s | Names _ => false end) l
  | _, _ => false
  end.

(** ** Asking the database again *)

(** [last_db_access_time]: what a key's row was, and when it was read; the oldest of a hundred goes. *)
Definition db_access_times : Type := list (string * (pyval * Z)).

Definition _update_last_db_access_time (now : Z) (key : string) (value : pyval) (d : db_access_times) : db_access_times :=
  dset key (value, now) (if (100 <=? length d)%nat then tail d else d).

(** For a row that was missing the code subtracts the whole entry from the time. *)
Definition _should_check_db (key : string) (d : db_access_times) : res bool :=
  match dget key d with
  | None => Ok true
  | Some (value, _) => if negb (is_none value) then Ok true else Raise TypeError
  end.

(** ** Checks with alerts *)

(** [proxy_logging_obj.budget_alerts(type=...)]. *)
Inductive alert : Type :=
| token_budget | soft_budget | max_budget_alert | team_budget | project_budget | organization_budget.

Record state (R : Type) := mk_state {
  user_api_key_cache : DualCache.t R;
  alerts : list alert
}.
Arguments mk_state {R}.
Arguments user_api_key_cache {R}.
Arguments alerts {R}.

(** A check on a state: it passes or denies, and keeps what it did before denying. *)
Definition C (R A : Type) : Type := state R → outcome A * state R.

#[export] Instance C_ret {R} : MRet (C R) := λ A a s, (Pass a, s).
#[export] Instance C_bind {R} : MBind (C R) := λ A B f m s,
  match m s with (Pass a, s') => f a s' | (Deny e, s') => (Deny e, s') end.

(** A check that only reads its arguments. *)
Definition pure {R A} (o : outcome A) : C R A := λ s, (o, s).

Definition send_alert {R} (a : alert) : C R unit := λ s, (Pass (), mk_state (user_api_key_cache s) (alerts s ++ [a])).

Definition on_cache {R A} (f : DualCache.t R → outcome A * DualCache.t R) : C R A := λ s,
  match f (user_api_key_cache s) with (o, c) => (o, mk_state c (alerts s)) end.

Definition when {R} (b : bool) (m : C R unit) : C R unit := if b then m else mret ().

(** [a is not None and b is not None and test]. *)
Definition both {A B} (a : option A) (b : option B) (test : A → B → bool) : bool :=
  match a, b with Some x, Some y => test x y | _, _ => false end.

Section budgets.
Context {R : Type}.
Implicit Types valid_token : option UserAPIKeyAuth.

Definition has_token valid_token : bool := match valid_token with Some _ => true | None => false end.

Definition over {A} (spend limit : Q) : C R A := pure (Deny (BudgetExceededError spend limit)).

Definition _virtual_key_max_budget_check (t : UserAPIKeyAuth) : C R unit :=
  match token_max_budget t with
  | Some b => send_alert token_budget ;;
              if Qle_bool b (token_spend t) then over (token_spend t) b else mret ()
  | None => mret ()
  end.

Definition _virtual_key_soft_budget_check (t : UserAPIKeyAuth) : C R unit :=
  when (match token_soft_budget t with
        | Some b => negb (Qeq_bool b 0) && Qle_bool b (token_spend t)
        | None => false
        end) (send_alert soft_budget).

(** [percentage] is [EMAIL_BUDGET_ALERT_MAX_SPEND_ALERT_PERCENTAGE]. *)
Definition _virtual_key_max_budget_alert_check (percentage : Q) (t : UserAPIKeyAuth) : C R unit :=
  when (match token_max_budget t with
        | Some b => Qltb 0 (token_spend t)
                    && Qle_bool (Qmult b percentage) (token_spend t) && Qltb (token_spend t) b
        | None => false
        end) (send_alert max_budget_alert).

Definition _team_max_budget_check (team_object : option LiteLLM_TeamTable) valid_token : C R unit :=
  match team_object with
  | Some t =>
      match team_max_budget t, team_spend t with
      | Some b, Some sp =>
          if Qltb b sp then when (has_token valid_token) (send_alert team_budget) ;; over sp b else mret ()
      | _, _ => mret ()
      end
  | None => mret ()
  end.

(** The addresses of [soft_budget_alerting_emails]: a list, or a string with commas. *)
Definition alert_emails (md : option dict) : list string :=
  match md with
  | Some d =>
      match dget "soft_budget_alerting_emails" d with
      | Some (PList l) =>
          omap (λ v, match v with PStr e => if String.eqb (strip e) "" then None else Some e | _ => None end) l
      | Some (PStr s) => filter (λ e, String.eqb e "" = false) (strip <$> split_on "," s)
      | _ => []
      end
  | None => []
  end.

Definition _team_soft_budget_check (team_object : option LiteLLM_TeamTable) valid_token : C R unit :=
  match team_object with
  | Some t =>
      when (both (team_soft_budget t) (team_spend t) Qle_bool && has_token valid_token
            && match alert_emails (team_table_metadata t) with [] => false | _ => true end)
        (send_alert soft_budget)
  | None => mret ()
  end.

Definition _project_max_budget_check (p : LiteLLM_ProjectTable) valid_token : C R unit :=
  match project_budget_table p with
  | Some bt =>
      match bt_max_budget bt with
      | Some b =>
          if Qltb b (project_spend p)
          then when (has_token valid_token) (send_alert project_budget) ;; over (project_spend p) b
          else mret ()
      | None => mret ()
      end
  | None => mret ()
  end.

Definition _project_soft_budget_check (p : LiteLLM_ProjectTable) valid_token : C R unit :=
  when (match project_budget_table p with
        | Some bt => both (bt_soft_budget bt) (Some (project_spend p)) Qle_bool && has_token valid_token
        | None => false
        end) (send_alert soft_budget).

(** The personal budget of a user, for a key without a team. *)
Definition user_budget_check (team_object : option LiteLLM_TeamTable) (user_object : option LiteLLM_UserTable) : C R unit :=
  match team_object, user_object with
  | None, Some u =>
      match user_max_budget u with
      | Some b => if Qltb b (user_spend u) then over (user_spend u) b else mret ()
      | None => mret ()
      end
  | _, _ => mret ()
  end.

Definition end_user_budget_check (end_user : option LiteLLM_EndUserTable) : C R unit :=
  match end_user with
  | Some e =>
      match end_user_budget_table e with
      | Some bt =>
          match bt_max_budget bt with
          | Some b => if Qltb b (end_user_spend e) then over (end_user_spend e) b else mret ()
          | None => mret ()
          end
      | None => mret ()
      end
  | None => mret ()
  end.

(** [_check_end_user_budget], which the end user's lookup runs. *)
Definition _check_end_user_budget (e : LiteLLM_EndUserTable) (route : string) : C R unit :=
  if is_info_route route then mret () else end_user_budget_check (Some e).
End budgets.

(** ** What the checks read from outside *)

Record backend := mk_backend {
  prisma_connected : bool;
  access_groups_db : option (string → res (option access_group));
  get_org_object : string → res (option LiteLLM_OrganizationTable);
  get_team_membership : string → string → option LiteLLM_TeamMembership;   (* user, team *)
  get_tag_objects_batch : list string → list (string * LiteLLM_TagTable);
  agent_requires_trace_id : string → bool;
  vector_store_ids_to_run : option (dict → list string);                   (* no registry: None *)
  object_permission : string → option (option (list string));              (* the vector stores of a row *)
  tool_capable_route : string → bool;
  extract_request_tool_names : string → dict → list string
}.

Section checks.
Context `{PyRuntime} `{PyRe} {R : Type} `{RedisCacheI R} (cfg : env) (be : backend).
Variable model_alias_map : list (string * string).
Variable get_llm_provider : string → option (string * string).
Variable pattern_route : string → list RouterIndex.deployment.
Variable team_pattern_route : string → string → list RouterIndex.deployment.
(** [litellm.max_budget]. *)
Variable max_budget : Q.

Definition _check_team_member_budget (team_object : option LiteLLM_TeamTable) (user_object : option LiteLLM_UserTable)
    (valid_token : option UserAPIKeyAuth) : C R unit :=
  match team_object, user_object, valid_token with
  | Some t, Some _, Some token =>
      match token_user_id token with
      | Some uid =>
          match get_team_membership be uid (team_id t) with
          | Some m =>
              match membership_budget_table m with
              | Some bt =>
                  match bt_max_budget bt with
                  | Some b =>
                      let sp := default (inject_Z 0) (membership_spend m) in
                      if Qle_bool b sp then over sp b else mret ()
                  | None => mret ()
                  end
              | None => mret ()
              end
          | None => mret ()
          end
      | None => mret ()
      end
  | _, _, _ => mret ()
  end.

(** The organization of the key, or of its team. *)
Definition org_of (token : UserAPIKeyAuth) (team_object : option LiteLLM_TeamTable) : option string :=
  match token_org_id token with
  | Some o => Some o
  | None => match team_object with Some t => team_organization_id t | None => None end
  end.

Definition _organization_max_budget_check (valid_token : option UserAPIKeyAuth) (team_object : option LiteLLM_TeamTable)
    : C R unit :=
  match valid_token with
  | Some token =>
      if prisma_connected be then
        match org_of token team_object with
        | Some oid =>
            match get_org_object be oid with
            | Ok (Some org) =>
                match org_budget_table org ≫= bt_max_budget with
                | Some b =>
                    if Qle_bool b 0 then mret ()
                    else if Qle_bool b (org_spend org)
                    then send_alert organization_budget ;; over (org_spend org) b
                    else mret ()
                | None => mret ()
                end
            | _ => mret ()
            end
        | None => mret ()
        end
      else mret ()
  | None => mret ()
  end.

Fixpoint tags_loop (objects : list (string * LiteLLM_TagTable)) (tags : list string) : C R unit :=
  match tags with
  | [] => mret ()
  | t :: tags' =>
      match dget t objects with
      | Some tag =>
          match tag_budget_table tag ≫= bt_max_budget with
          | Some b => if Qltb b (tag_spend tag) then over (tag_spend tag) b else tags_loop objects tags'
          | None => tags_loop objects tags'
          end
      | None => tags_loop objects tags'
      end
  end.

Definition _tag_max_budget_check (request_body : dict) : C R unit :=
  if prisma_connected be then
    tags ← pure (get_tags_from_request_body request_body);
    match tags with [] => mret () | _ => tags_loop (get_tag_objects_batch be tags) tags end
  else mret ().

Definition _run_project_checks (project_object : option LiteLLM_ProjectTable) (model : option model_req)
    (llm_router : option RouterIndex.t) (skip_budget_checks : bool) (valid_token : option UserAPIKeyAuth) : C R unit :=
  match project_object with
  | None => mret ()
  | Some p =>
      if project_blocked p
      then pure (raise_exception ("Project=" +:+ project_id p +:+ " is blocked. Update via `/project/update` if you're an admin."))
      else
        (match model_given model, project_models p with
         | Some m, _ :: _ =>
             pure (can_project_access_model model_alias_map get_llm_provider pattern_route team_pattern_route m p llm_router) ;;
             mret ()
         | _, _ => mret ()
         end) ;;
        if skip_budget_checks then mret ()
        else _project_max_budget_check p valid_token ;; _project_soft_budget_check p valid_token
  end.

(** ** Vector stores and tools *)

(** An empty list, or none, is access to all. *)
Definition _can_object_call_vector_stores (kind : string) (ids : list string) (allowed : option (list string)) : outcome unit :=
  match allowed with
  | None | Some [] => mret ()
  | Some stores =>
      o_iter (λ id, if str_in id stores then mret ()
                    else Deny (ProxyException (kind +:+ "_vector_store_access_denied") (Some "vector_store") 401)) ids
  end.

Definition permission_check (kind : string) (ids : list string) (permission_id : option string) : outcome unit :=
  match permission_id ≫= object_permission be with
  | Some allowed => _can_object_call_vector_stores kind ids allowed
  | None => mret ()
  end.

Definition vector_store_access_check (request_body : dict) (team_object : option LiteLLM_TeamTable)
    (valid_token : option UserAPIKeyAuth) : outcome unit :=
  if prisma_connected be then
    match vector_store_ids_to_run be with
    | None => mret ()
    | Some ids_of =>
        let ids := ids_of request_body in
        permission_check "key" ids (valid_token ≫= token_object_permission_id) ;;
        permission_check "team" ids (team_object ≫= team_object_permission_id)
    end
  else mret ().

Definition effective_tools (token : UserAPIKeyAuth) : list pyval :=
  match dget "allowed_tools" (metadata token) with
  | Some (PList (x :: l)) => x :: l
  | _ => list_or_nil (default PNone (dget "allowed_tools" (default [] (team_metadata token))))
  end.

Definition check_tools_allowlist (request_body : dict) (valid_token : option UserAPIKeyAuth) (route : string) : outcome unit :=
  match valid_token with
  | None => mret ()
  | Some token =>
      if negb (tool_capable_route be route) then mret ()
      else
        match extract_request_tool_names be route request_body, effective_tools token with
        | [], _ | _, [] => mret ()
        | names, allowed =>
            if forallb (λ n, str_in n (py_str <$> allowed)) names then mret ()
            else Deny (ProxyException "tool_access_denied" (Some "tools") 403)
        end
  end.

(** ** The whole check *)

Record auth_request := mk_auth_request {
  request_body : dict;
  team_object : option LiteLLM_TeamTable;
  user_object : option LiteLLM_UserTable;
  end_user_object : option LiteLLM_EndUserTable;
  project_object : option LiteLLM_ProjectTable;
  valid_token : option UserAPIKeyAuth;
  global_proxy_spend : option Q;
  route : string;
  llm_router : option RouterIndex.t;
  http_request : request;
  skip_budget_checks : bool
}.

Definition team_check (now : Z) (model : option model_req) (r : auth_request) : C R unit :=
  match model_given model, team_object r with
  | Some m, Some t =>
      b ← on_cache (can_team_access_model model_alias_map get_llm_provider pattern_route team_pattern_route
                      (access_groups_db be) now m (Some t) (llm_router r) (valid_token r ≫= team_model_aliases));
      if (b : bool) then mret () else pure (Deny (ProxyException "team_model_access_denied" (Some "model") 401))
  | _, _ => mret ()
  end.

Definition agent_check (r : auth_request) : outcome unit :=
  match valid_token r ≫= token_agent_id with
  | Some agent =>
      if negb (String.eqb agent "") && agent_requires_trace_id be agent
         && bool_decide (default "" (get_chain_id_from_headers (headers (http_request r))) = "")
      then Deny (ProxyException "bad_request_error" None 400) else mret ()
  | None => mret ()
  end.

Definition user_model_check (model : option model_req) (r : auth_request) : outcome unit :=
  match model_given model, team_object r, user_object r with
  | Some m, None, Some u =>
      can_user_call_model model_alias_map get_llm_provider pattern_route team_pattern_route m (llm_router r) (Some u) ;;
      mret ()
  | _, _, _ => mret ()
  end.

Definition budget_checks (r : auth_request) : C R unit :=
  _team_max_budget_check (team_object r) (valid_token r) ;;
  _team_soft_budget_check (team_object r) (valid_token r) ;;
  _organization_max_budget_check (valid_token r) (team_object r) ;;
  _tag_max_budget_check (request_body r) ;;
  user_budget_check (team_object r) (user_object r) ;;
  _check_team_member_budget (team_object r) (user_object r) (valid_token r) ;;
  end_user_budget_check (end_user_object r).

Definition token_kind (r : auth_request) : token_type :=
  if bool_decide (valid_token r ≫= token_team_id = Some "litellm-dashboard") then UI else API.

Definition common_checks (now : Z) (r : auth_request) : C R bool :=
  model ← pure (get_model_from_request (request_body r) (route r));
  (match team_object r with
   | Some t => if team_blocked t
               then pure (raise_exception ("Team=" +:+ team_id t +:+ " is blocked. Update via `/team/unblock` if your admin."))
               else mret ()
   | None => mret ()
   end) ;;
  team_check now model r ;;
  pure (agent_check r) ;;
  pure (user_model_check model r) ;;
  _run_project_checks (project_object r) model (llm_router r) (skip_budget_checks r) (valid_token r) ;;
  (if skip_budget_checks r then mret () else budget_checks r) ;;
  pure (_enforce_user_param_check (general_settings cfg) (http_request r) (request_body r) (route r)) ;;
  pure (_reject_clientside_metadata_tags_check (general_settings cfg) (request_body r) (route r)) ;;
  pure (_global_proxy_budget_check max_budget (global_proxy_spend r) (skip_budget_checks r) (route r)) ;;
  pure (_guardrail_modification_check (request_body r) (team_object r)) ;;
  pure (organization_role_based_access_check (user_object r) (route r) (request_body r)) ;;
  pure (_is_allowed_route cfg (route r) (token_kind r) (http_request r) (request_body r) (valid_token r) (user_object r)) ;;
  pure (vector_store_access_check (request_body r) (team_object r) (valid_token r)) ;;
  pure (check_tools_allowlist (request_body r) (valid_token r) (route r)) ;;
  mret true.

(** ** What a passed check guarantees *)

Lemma C_bind_pass {A B} (m : C R A) (f : A → C R B) s b s' :
  (m ≫= f) s = (Pass b, s') → ∃ a s1, m s = (Pass a, s1) ∧ f a s1 = (Pass b, s').
Proof. unfold mbind, C_bind. destruct (m s) as [[a|e] s1]; [by eauto|done]. Qed.

Lemma pure_pass {A} (o : outcome A) (s : state R) a s' : pure o s = (Pass a, s') → o = Pass a ∧ s' = s.
Proof. unfold pure. by intros [= -> ->]. Qed.

Lemma Qltb_false a b : Qltb a b = false → (b <= a)%Q.
Proof. unfold Qltb. rewrite negb_false_iff. apply Qle_bool_iff. Qed.

Lemma Qle_bool_false a b : Qle_bool a b = false → (b < a)%Q.
Proof. intros Hf. apply Qnot_le_lt. rewrite <-Qle_bool_iff. by rewrite Hf. Qed.

(** The value of a passed outcome. *)
Definition pass_value {A} (o : outcome A) : option A := match o with Pass a => Some a | Deny _ => None end.

(** Spend within every budget the request falls under. *)
Record within_budgets (r : auth_request) : Prop := {
  wb_team : ∀ t b sp, team_object r = Some t → team_max_budget t = Some b → team_spend t = Some sp → (sp <= b)%Q;
  wb_org : ∀ token oid org b, valid_token r = Some token → prisma_connected be = true →
             org_of token (team_object r) = Some oid → get_org_object be oid = Ok (Some org) →
             org_budget_table org ≫= bt_max_budget = Some b → (0 < b)%Q → (org_spend org < b)%Q;
  wb_tags : ∀ tags t tag b, prisma_connected be = true → get_tags_from_request_body (request_body r) = Pass tags →
              t ∈ tags → dget t (get_tag_objects_batch be tags) = Some tag →
              tag_budget_table tag ≫= bt_max_budget = Some b → (tag_spend tag <= b)%Q;
  wb_user : ∀ u b, team_object r = None → user_object r = Some u → user_max_budget u = Some b → (user_spend u <= b)%Q;
  wb_member : ∀ t u token uid m b, team_object r = Some t → user_object r = Some u → valid_token r = Some token →
                token_user_id token = Some uid → get_team_membership be uid (team_id t) = Some m →
                membership_budget_table m ≫= bt_max_budget = Some b → (default (inject_Z 0) (membership_spend m) < b)%Q;
  wb_end_user : ∀ e b, end_user_object r = Some e → end_user_budget_table e ≫= bt_max_budget = Some b →
                  (end_user_spend e <= b)%Q;
  wb_project : ∀ p b, project_object r = Some p → project_budget_table p ≫= bt_max_budget = Some b → (project_spend p <= b)%Q;
  wb_global : ∀ sp, (0 < max_budget)%Q → global_proxy_spend r = Some sp → is_llm_api_route (route r) = Pass true →
                route r ≠ "/v1/models" → route r ≠ "/models" → (sp <= max_budget)%Q
}.

(** Take one [if] or [match] of a passed check apart. *)
Ltac pass_tac :=
  intros; unfold mbind, C_bind, over, pure, send_alert, mret, C_ret in *; repeat (case_match; simplify_eq/=);
  try done; eauto using Qltb_false, Qle_bool_false.

Lemma team_budget_pass r (s : state R) u s' :
  _team_max_budget_check (team_object r) (valid_token r) s = (Pass u, s') →
  ∀ t b sp, team_object r = Some t → team_max_budget t = Some b → team_spend t = Some sp → (sp <= b)%Q.
Proof.
  unfold _team_max_budget_check, when. intros Hp t b sp Ht Hb Hs. rewrite Ht, Hb, Hs in Hp.
  destruct (Qltb b sp) eqn:E; [|by apply Qltb_false]. revert Hp. destruct (has_token _); pass_tac.
Qed.

Lemma tags_loop_pass objects tags (s : state R) u s' :
  tags_loop objects tags s = (Pass u, s') →
  ∀ t tag b, t ∈ tags → dget t objects = Some tag → tag_budget_table tag ≫= bt_max_budget = Some b →
             (tag_spend tag <= b)%Q.
Proof.
  induction tags as [|x tags IH]; cbn [tags_loop]; intros Hp t tag b Hin Ht Hb; [set_solver|].
  apply elem_of_cons in Hin as [->|Hin].
  - rewrite Ht, Hb in Hp. destruct (Qltb b (tag_spend tag)) eqn:E; [done|by apply Qltb_false].
  - eapply IH; [|done..]. destruct (dget x objects) as [tag'|]; [|done].
    destruct (tag_budget_table tag' ≫= bt_max_budget) as [b'|]; [|done]. by destruct (Qltb b' (tag_spend tag')).
Qed.

Lemma project_budget_pass p token (s : state R) u s' :
  _project_max_budget_check p token s = (Pass u, s') →
  ∀ b, project_budget_table p ≫= bt_max_budget = Some b → (project_spend p <= b)%Q.
Proof.
  unfold _project_max_budget_check, when. intros Hp b Hb. destruct (project_budget_table p) as [bt|]; [|done]. cbn in Hb.
  rewrite Hb in Hp. destruct (Qltb b (project_spend p)) eqn:E; [|by apply Qltb_false].
  revert Hp. destruct (has_token _); pass_tac.
Qed.

Lemma global_budget_pass sp rt u :
  _global_proxy_budget_check max_budget (Some sp) false rt = Pass u → (0 < max_budget)%Q → is_llm_api_route rt = Pass true →
  rt ≠ "/v1/models" → rt ≠ "/models" → (sp <= max_budget)%Q.
Proof.
  unfold _global_proxy_budget_check. intros Hp Hpos Hl Hr1 Hr2.
  assert (Qltb 0 max_budget = true) as E0.
  { unfold Qltb. apply negb_true_iff, not_true_iff_false. intros Hle%Qle_bool_iff. by apply Qlt_not_le in Hpos. }
  rewrite E0, Hl in Hp. cbn in Hp. rewrite (proj2 (String.eqb_neq _ _) Hr1), (proj2 (String.eqb_neq _ _) Hr2) in Hp. cbn in Hp.
  destruct (Qltb max_budget sp) eqn:E; [done|by apply Qltb_false].
Qed.

Lemma budget_checks_pass r s u s' :
  budget_checks r s = (Pass u, s') →
  (∀ p b, project_object r = Some p → project_budget_table p ≫= bt_max_budget = Some b → (project_spend p <= b)%Q) →
  is_Some (pass_value (_global_proxy_budget_check max_budget (global_proxy_spend r) false (route r))) → within_budgets r.
Proof.
  unfold budget_checks. intros Hrun Hproj [ug Hglob]. revert Hrun.
  intros (?&?&Hteam&(?&?&_&(?&?&Horg&(?&?&Htag&(?&?&Huser&(?&?&Hmem&Hend)%C_bind_pass)%C_bind_pass)%C_bind_pass)%C_bind_pass)%C_bind_pass)%C_bind_pass.
  split.
  - by eapply team_budget_pass.
  - unfold _organization_max_budget_check in Horg. intros token oid org b Ht Hc Ho Hg Hb Hpos.
    rewrite Ht, Hc, Ho, Hg, Hb in Horg. destruct (Qle_bool b 0) eqn:E0.
    { apply Qle_bool_iff in E0. by apply Qlt_not_le in Hpos. }
    destruct (Qle_bool b (org_spend org)) eqn:E; [done|by apply Qle_bool_false].
  - unfold _tag_max_budget_check in Htag. intros tags t tag b Hc Hg Hin. rewrite Hc, Hg in Htag.
    apply C_bind_pass in Htag as (? & ? & [[= <-] ->]%pure_pass & Htag).
    destruct tags as [|tag0 tags]; [set_solver|]. intros Hd Hb. by eapply tags_loop_pass.
  - unfold user_budget_check in Huser. intros u' b Ht Hu Hb. rewrite Ht, Hu, Hb in Huser.
    destruct (Qltb b (user_spend u')) eqn:E; [done|by apply Qltb_false].
  - unfold _check_team_member_budget in Hmem. intros t u' token uid m b Ht Hu Htok Huid Hm Hb.
    rewrite Ht, Hu, Htok, Huid, Hm in Hmem. destruct (membership_budget_table m) as [bt|]; [|done]. cbn in Hb.
    rewrite Hb in Hmem. destruct (Qle_bool b _) eqn:E; [done|by apply Qle_bool_false].
  - unfold end_user_budget_check in Hend. intros e b He Hb. rewrite He in Hend.
    destruct (end_user_budget_table e) as [bt|]; [|done]. cbn in Hb. rewrite Hb in Hend.
    destruct (Qltb b (end_user_spend e)) eqn:E; [done|by apply Qltb_false].
  - done.
  - intros sp Hpos Hsp. rewrite Hsp in Hglob. destruct (_global_proxy_budget_check _ _ _ _) as [u'|] eqn:Eg; [|done].
    intros. by eapply global_budget_pass.
Qed.

(** The user is an admin of the organization the request names. *)
Definition names_own_organization (u : LiteLLM_UserTable) (body : dict) : Prop :=
  ∃ m, m ∈ default [] (organization_memberships u) ∧ dget "organization_id" body = Some (PStr (organization_id m)) ∧
    membership_role m = Some (role_value ORG_ADMIN).

(** The ids lie in the stores the row of a permission lists, if it lists any. *)
Definition stores_allow (permission_id : option string) (id : string) : Prop :=
  ∀ pid stores, permission_id = Some pid → object_permission be pid = Some (Some stores) → stores ≠ [] → id ∈ stores.

(** What [common_checks] promises about a request it lets pass, from cache [c] at time [now]. *)
Record authorized (now : Z) (r : auth_request) (c : DualCache.t R) : Prop := {
  au_team_open : ∀ t, team_object r = Some t → team_blocked t = false;
  au_project_open : ∀ p, project_object r = Some p → project_blocked p = false;
  au_models : ∃ model, get_model_from_request (request_body r) (route r) = Pass model ∧ ∀ m, model_given model = Some m →
    (∀ t, team_object r = Some t →
       (can_team_access_model model_alias_map get_llm_provider pattern_route team_pattern_route (access_groups_db be) now
          m (Some t) (llm_router r) (valid_token r ≫= team_model_aliases) c).1 = Pass true)
    ∧ (∀ u, team_object r = None → user_object r = Some u →
       passes (can_user_call_model model_alias_map get_llm_provider pattern_route team_pattern_route m (llm_router r) (Some u)) = true)
    ∧ (∀ p, project_object r = Some p → project_models p ≠ [] →
       passes (can_project_access_model model_alias_map get_llm_provider pattern_route team_pattern_route m p (llm_router r)) = true);
  au_budgets : skip_budget_checks r = false → within_budgets r;
  au_agent : ∀ agent, valid_token r ≫= token_agent_id = Some agent → agent ≠ "" → agent_requires_trace_id be agent = true →
    ∃ id, get_chain_id_from_headers (headers (http_request r)) = Some id ∧ id ≠ "";
  au_user_param : setting "enforce_user_param" (general_settings cfg) = true →
    (∃ m, method (http_request r) = Some m ∧ lower m = "post") → is_llm_api_route (route r) = Pass true →
    route r ∉ mcp_routes → check_route_access (route r) mcp_routes = Pass false → is_Some (dget "user" (request_body r));
  au_no_tags : setting "reject_clientside_metadata_tags" (general_settings cfg) = true → is_llm_api_route (route r) = Pass true →
    ∀ md, dget "metadata" (request_body r) = Some (PDict md) → dget "tags" md = None;
  au_guardrails : ∀ md g t tmd tg, dget "metadata" (request_body r) = Some (PDict md) → dget "guardrails" md = Some g → truthy g = true →
    team_object r = Some t → team_table_metadata t = Some tmd → dget "guardrails" tmd = Some (PDict tg) →
    dget "modify_guardrails" tg ≠ Some (PBool false);
  au_organization : ∀ u, user_object r = Some u → user_role u ≠ Some (role_value PROXY_ADMIN) →
    route r ≠ "/organization/new" ∧
    (route r ∈ org_admin_only_routes → names_own_organization u (request_body r)) ∧
    (route r = "/team/new" → default [] (organization_memberships u) ≠ [] → names_own_organization u (request_body r));
  au_route : (valid_token r ≫= token_team_id = Some "litellm-dashboard" ∧ _is_ui_route (route r) = Pass true) ∨
    ∃ token, valid_token r = Some token ∧
      ((∃ u, user_object r = Some u ∧ user_role u = Some (role_value PROXY_ADMIN)) ∨
       passes (non_proxy_admin_allowed_routes_check cfg (user_object r) (_get_user_role (user_object r)) (route r)
                 (query_user_id (http_request r)) token (request_body r)) = true);
  au_vector_stores : ∀ ids_of id, prisma_connected be = true → vector_store_ids_to_run be = Some ids_of →
    id ∈ ids_of (request_body r) →
    stores_allow (valid_token r ≫= token_object_permission_id) id ∧ stores_allow (team_object r ≫= team_object_permission_id) id;
  au_tools : ∀ token name, valid_token r = Some token → tool_capable_route be (route r) = true →
    name ∈ extract_request_tool_names be (route r) (request_body r) → effective_tools token ≠ [] →
    ∃ v, v ∈ effective_tools token ∧ py_str v = name
}.

Lemma agent_check_pass r u :
  agent_check r = Pass u → ∀ agent, valid_token r ≫= token_agent_id = Some agent → agent ≠ "" → agent_requires_trace_id be agent = true →
  ∃ id, get_chain_id_from_headers (headers (http_request r)) = Some id ∧ id ≠ "".
Proof.
  unfold agent_check. intros Hp agent Ha Hne Hreq. rewrite Ha, Hreq, (proj2 (String.eqb_neq _ _) Hne) in Hp. cbn in Hp.
  case_bool_decide as Hd; [done|]. destruct (get_chain_id_from_headers _) as [id|]; [by exists id|done].
Qed.

Lemma user_param_pass r u :
  _enforce_user_param_check (general_settings cfg) (http_request r) (request_body r) (route r) = Pass u →
  setting "enforce_user_param" (general_settings cfg) = true →
  (∃ m, method (http_request r) = Some m ∧ lower m = "post") → is_llm_api_route (route r) = Pass true →
  route r ∉ mcp_routes → check_route_access (route r) mcp_routes = Pass false → is_Some (dget "user" (request_body r)).
Proof.
  unfold _enforce_user_param_check. intros Hp Hs (m & Hm & Hpost) Hl Hni Hmcp. rewrite Hs, Hl in Hp. cbn [negb mbind outcome_bind] in Hp.
  assert (str_in (route r) mcp_routes = false) as E by (apply not_true_iff_false; by rewrite str_in_spec).
  rewrite E, Hmcp, Hm, Hpost in Hp. cbn [mbind outcome_bind] in Hp. change (String.eqb "post" "post") with true in Hp. cbn [andb negb] in Hp.
  unfold dmem in Hp. destruct (dget "user" (request_body r)); [by eexists|done].
Qed.

Lemma no_tags_pass r u :
  _reject_clientside_metadata_tags_check (general_settings cfg) (request_body r) (route r) = Pass u →
  setting "reject_clientside_metadata_tags" (general_settings cfg) = true → is_llm_api_route (route r) = Pass true →
  ∀ md, dget "metadata" (request_body r) = Some (PDict md) → dget "tags" md = None.
Proof.
  unfold _reject_clientside_metadata_tags_check. intros Hp Hs Hl md Hmd. rewrite Hs, Hl, Hmd in Hp. cbn [negb mbind outcome_bind andb] in Hp.
  unfold dmem in Hp. by destruct (dget "tags" md).
Qed.

Lemma guardrails_pass r u :
  _guardrail_modification_check (request_body r) (team_object r) = Pass u →
  ∀ md g t tmd tg, dget "metadata" (request_body r) = Some (PDict md) → dget "guardrails" md = Some g → truthy g = true →
    team_object r = Some t → team_table_metadata t = Some tmd → dget "guardrails" tmd = Some (PDict tg) →
    dget "modify_guardrails" tg ≠ Some (PBool false).
Proof.
  unfold _guardrail_modification_check, can_modify_guardrails. intros Hp md g t tmd tg Hmd Hg Htr Ht Htm Htg Hf.
  rewrite Hmd in Hp. cbn [default from_option Datatypes.id] in Hp.
  assert (py_or (PDict md) (PDict []) = PDict md) as E by (unfold py_or; by destruct md).
  rewrite E in Hp. cbn [py_get lift mbind outcome_bind] in Hp. rewrite Hg in Hp. cbn [default from_option Datatypes.id] in Hp.
  rewrite Htr, Ht, Htm in Hp. cbn [default from_option Datatypes.id negb] in Hp. by rewrite Htg, Hf in Hp.
Qed.

Lemma organization_info_in u oid role :
  dget oid (get_user_organization_info u).2 = Some role →
  ∃ m, m ∈ default [] (organization_memberships u) ∧ organization_id m = oid ∧ membership_role m = role.
Proof.
  unfold get_user_organization_info. generalize (default [] (organization_memberships u)) as l.
  assert (∀ l acc, dget oid (foldl (λ acc m, (acc.1 ++ [organization_id m], dset (organization_id m) (membership_role m) acc.2)) acc l).2 = Some role →
    dget oid acc.2 = Some role ∨ ∃ m, m ∈ l ∧ organization_id m = oid ∧ membership_role m = role) as Hf.
  { induction l as [|m l IH]; intros acc; cbn [foldl]; [by left|]. intros [Hd|(m' & ? & ? & ?)]%IH.
    - cbn [snd] in Hd. rewrite dget_dset in Hd. destruct (String.eqb_spec (organization_id m) oid); [|by left].
      right. exists m. simplify_eq. split_and!; [by left|done..].
    - right. exists m'. split_and!; [by right|done..]. }
  intros l [?|?]%Hf; done.
Qed.

Lemma admin_role_own u body r :
  role_in (get_user_organization_info u).2 (default PNone (dget "organization_id" body)) = Pass (Some r) →
  r = role_value ORG_ADMIN → names_own_organization u body.
Proof.
  unfold role_in. destruct (dget "organization_id" body) as [v|] eqn:Ev; cbn; [|done]. destruct v; try (by destruct (hashable _)).
  intros E ->. injection E as E. destruct (dget _ (get_user_organization_info u).2) as [role|] eqn:Ed; [|done]. cbn in E. subst role.
  destruct (organization_info_in _ _ _ Ed) as (m & Hm & <- & Hr). by exists m.
Qed.

Lemma organization_pass r x :
  organization_role_based_access_check (user_object r) (route r) (request_body r) = Pass x →
  ∀ u, user_object r = Some u → user_role u ≠ Some (role_value PROXY_ADMIN) →
    route r ≠ "/organization/new" ∧
    (route r ∈ org_admin_only_routes → names_own_organization u (request_body r)) ∧
    (route r = "/team/new" → default [] (organization_memberships u) ≠ [] → names_own_organization u (request_body r)).
Proof.
  unfold organization_role_based_access_check. intros Hp u Hu Hrole. rewrite Hu, (bool_decide_eq_false_2 _ Hrole), andb_true_r in Hp.
  destruct (String.eqb_spec (route r) "/organization/new") as [|Hne]; [done|]. split; [done|].
  set (passed := default PNone (dget "organization_id" (request_body r))) in *.
  destruct (str_in (route r) org_admin_only_routes) eqn:Ein.
  - assert (names_own_organization u (request_body r)) as Hown.
    { destruct (organization_memberships u) eqn:Em; [|done]. destruct (is_none passed); [done|].
      destruct (role_in (get_user_organization_info u).2 passed) as [[role|]|] eqn:Er; cbn in Hp; [|done..].
      destruct (String.eqb_spec role "org_admin") as [->|]; [|done]. by eapply admin_role_own. }
    split; by intros.
  - split; [intros Hin; apply str_in_spec in Hin; congruence|]. intros Hteam Hne'. rewrite Hteam in Hp. cbn in Hp.
    destruct (organization_memberships u) as [[|m ms]|] eqn:Em; [done| |done]. destruct (is_none passed); [done|].
    destruct (role_in (get_user_organization_info u).2 passed) as [role|] eqn:Er; cbn in Hp; [|done].
    case_bool_decide as Hr; [|done]. subst role. by eapply admin_role_own.
Qed.

Lemma allowed_route_pass r b :
  _is_allowed_route cfg (route r) (token_kind r) (http_request r) (request_body r) (valid_token r) (user_object r) = Pass b →
  (valid_token r ≫= token_team_id = Some "litellm-dashboard" ∧ _is_ui_route (route r) = Pass true) ∨
    ∃ token, valid_token r = Some token ∧
      ((∃ u, user_object r = Some u ∧ user_role u = Some (role_value PROXY_ADMIN)) ∨
       passes (non_proxy_admin_allowed_routes_check cfg (user_object r) (_get_user_role (user_object r)) (route r)
                 (query_user_id (http_request r)) token (request_body r)) = true).
Proof.
  unfold _is_allowed_route, token_kind. intros Hp.
  assert (_is_api_route_allowed cfg (route r) (http_request r) (request_body r) (valid_token r) (user_object r) = Pass b →
    ∃ token, valid_token r = Some token ∧
      ((∃ u, user_object r = Some u ∧ user_role u = Some (role_value PROXY_ADMIN)) ∨
       passes (non_proxy_admin_allowed_routes_check cfg (user_object r) (_get_user_role (user_object r)) (route r)
                 (query_user_id (http_request r)) token (request_body r)) = true)) as Hapi.
  { unfold _is_api_route_allowed. destruct (valid_token r) as [token|]; [|done]. intros Ha. exists token. split; [done|].
    unfold _is_user_proxy_admin in Ha. destruct (user_object r) as [u|].
    - case_bool_decide as Hu; [left; by exists u|]. right. by destruct (non_proxy_admin_allowed_routes_check _ _ _ _ _ _ _).
    - right. by destruct (non_proxy_admin_allowed_routes_check _ _ _ _ _ _ _). }
  case_bool_decide as Hk; [|right; by apply Hapi].
  destruct (_is_ui_route (route r)) as [[]|] eqn:Eui; [by left|right; by apply Hapi|done].
Qed.

Lemma o_iter_pass {A} (f : A → outcome unit) l u : o_iter f l = Pass u → ∀ x, x ∈ l → f x = Pass ().
Proof.
  induction l as [|y l IH]; cbn [o_iter]; intros Hp x Hx; [by apply elem_of_nil in Hx|].
  unfold mbind, outcome_bind in Hp. destruct (f y) as [[]|] eqn:Ey; [|done]. apply elem_of_cons in Hx as [->|Hx]; [done|by apply IH].
Qed.

Lemma permission_pass kind ids pid u : permission_check kind ids pid = Pass u → ∀ id, id ∈ ids → stores_allow pid id.
Proof.
  unfold permission_check, _can_object_call_vector_stores. intros Hp id Hid p stores -> Ho Hne. cbn in Hp. rewrite Ho in Hp.
  destruct stores as [|x l]; [done|]. pose proof (o_iter_pass _ _ _ Hp id Hid) as E. cbn beta in E.
  destruct (str_in id (x :: l)) eqn:Es; [by apply str_in_spec|done].
Qed.

Lemma vector_stores_pass r u :
  vector_store_access_check (request_body r) (team_object r) (valid_token r) = Pass u →
  ∀ ids_of id, prisma_connected be = true → vector_store_ids_to_run be = Some ids_of → id ∈ ids_of (request_body r) →
    stores_allow (valid_token r ≫= token_object_permission_id) id ∧ stores_allow (team_object r ≫= team_object_permission_id) id.
Proof.
  unfold vector_store_access_check. intros Hp ids_of id Hc Hi Hid. rewrite Hc, Hi in Hp. unfold mbind, outcome_bind in Hp.
  destruct (permission_check "key" _ _) as [[]|] eqn:Ek; [|done]. split; by eapply permission_pass.
Qed.

Lemma tools_pass r u :
  check_tools_allowlist (request_body r) (valid_token r) (route r) = Pass u →
  ∀ token name, valid_token r = Some token → tool_capable_route be (route r) = true →
    name ∈ extract_request_tool_names be (route r) (request_body r) → effective_tools token ≠ [] →
    ∃ v, v ∈ effective_tools token ∧ py_str v = name.
Proof.
  unfold check_tools_allowlist. intros Hp token name Ht Hc Hin Hne. rewrite Ht, Hc in Hp. cbn [negb] in Hp.
  destruct (extract_request_tool_names _ _ _) as [|n0 ns] eqn:En; [by apply elem_of_nil in Hin|].
  destruct (effective_tools token) as [|v vs] eqn:Ev; [done|].
  destruct (forallb _ (n0 :: ns)) eqn:Ef; [|done]. rewrite forallb_forall in Ef.
  apply list_elem_of_In in Hin. specialize (Ef name Hin). apply str_in_spec, list_elem_of_fmap in Ef as (w & -> & Hw). by exists w.
Qed.

Lemma team_check_pass now model r s u s' :
  team_check now model r s = (Pass u, s') → ∀ m t, model_given model = Some m → team_object r = Some t →
  (can_team_access_model model_alias_map get_llm_provider pattern_route team_pattern_route (access_groups_db be) now
     m (Some t) (llm_router r) (valid_token r ≫= team_model_aliases) (user_api_key_cache s)).1 = Pass true.
Proof.
  unfold team_check, on_cache. intros Hp m t Hm Ht. rewrite Hm, Ht in Hp. unfold mbind, C_bind in Hp.
  destruct (can_team_access_model _ _ _ _ _ _ _ _ _ _ _) as [[[]|e] c']; done.
Qed.

Lemma user_model_check_pass model r u :
  user_model_check model r = Pass u → ∀ m us, model_given model = Some m → team_object r = None → user_object r = Some us →
  passes (can_user_call_model model_alias_map get_llm_provider pattern_route team_pattern_route m (llm_router r) (Some us)) = true.
Proof.
  unfold user_model_check. intros Hp m us Hm Ht Hu. rewrite Hm, Ht, Hu in Hp.
  by destruct (can_user_call_model _ _ _ _ _ _ _).
Qed.

Lemma project_checks_pass model r s u s' :
  _run_project_checks (project_object r) model (llm_router r) (skip_budget_checks r) (valid_token r) s = (Pass u, s') →
  ∀ p, project_object r = Some p →
  project_blocked p = false
  ∧ (∀ m, model_given model = Some m → project_models p ≠ [] →
    passes (can_project_access_model model_alias_map get_llm_provider pattern_route team_pattern_route m p (llm_router r)) = true)
  ∧ (skip_budget_checks r = false → ∀ b, project_budget_table p ≫= bt_max_budget = Some b → (project_spend p <= b)%Q).
Proof.
  unfold _run_project_checks. intros Hp p Hpr. rewrite Hpr in Hp. destruct (project_blocked p); [done|].
  split; [done|]. apply C_bind_pass in Hp as (? & s1 & Hp & Hbud). split.
  - intros m Hm Hne. rewrite Hm in Hp. destruct (project_models p) eqn:E; [done|].
    apply C_bind_pass in Hp as (? & ? & [Hp _]%pure_pass & _). by rewrite Hp.
  - intros Hskip. rewrite Hskip in Hbud. apply C_bind_pass in Hbud as (? & ? & Hbud & _). by eapply project_budget_pass.
Qed.

(** C2: A request that [common_checks] lets pass is authorized.  Its team and its project
    are not blocked; the model access checks of team (or user) and project pass for every model it
    names; unless budgets are skipped, the spend of its team, organization, tags, user, team membership, end user,
    project and of the proxy as a whole is within their budgets, as far as the request
    falls under them and they can be read; an agent that needs a trace id has one;
    the settings on the user parameter and on client-side tags and the team's setting on
    guardrails are obeyed; a user who is no proxy admin does not create
    organizations and uses the routes of organization admins only for an organization
    they are admin of; the route is one of the dashboard for its tokens, or
    the user is a proxy admin, or the route check for other users passes; and the vector
    stores and tools it uses are listed, where key or team list any. *)
Theorem common_checks_sound now r s b s' :
  common_checks now r s = (Pass b, s') → authorized now r (user_api_key_cache s).
Proof.
  unfold common_checks. intros (model & s0 & [Hmodel ->]%pure_pass & Hrest)%C_bind_pass.
  apply C_bind_pass in Hrest as (? & s1 & Hblk & Hrest).
  assert (Hopen : (∀ t, team_object r = Some t → team_blocked t = false) ∧ s1 = s).
  { unfold mret, C_ret in Hblk. destruct (team_object r) as [t|]; [|by injection Hblk as _ ->].
    destruct (team_blocked t) eqn:E; [done|]. injection Hblk as _ ->. split; [|done]. by intros ? [= <-]. }
  destruct Hopen as [Hopen ->]. clear Hblk.
  apply C_bind_pass in Hrest as (? & s2 & Hteam & Hrest).
  apply C_bind_pass in Hrest as (? & ? & [Hagent ->]%pure_pass & Hrest).
  apply C_bind_pass in Hrest as (? & ? & [Huser ->]%pure_pass & Hrest).
  apply C_bind_pass in Hrest as (? & s3 & Hproj & Hrest). pose proof (project_checks_pass _ _ _ _ _ Hproj) as Hpp.
  apply C_bind_pass in Hrest as (? & s4 & Hbud & Hrest).
  apply C_bind_pass in Hrest as (? & ? & [Hparam ->]%pure_pass & Hrest).
  apply C_bind_pass in Hrest as (? & ? & [Htags ->]%pure_pass & Hrest).
  apply C_bind_pass in Hrest as (? & ? & [Hglob ->]%pure_pass & Hrest).
  apply C_bind_pass in Hrest as (? & ? & [Hguard ->]%pure_pass & Hrest).
  apply C_bind_pass in Hrest as (? & ? & [Horg ->]%pure_pass & Hrest).
  apply C_bind_pass in Hrest as (ok & ? & [Hroute ->]%pure_pass & Hrest).
  apply C_bind_pass in Hrest as (? & ? & [Hvs ->]%pure_pass & Hrest).
  apply C_bind_pass in Hrest as (? & ? & [Htools ->]%pure_pass & Hrest).
  split; [done|..].
  - intros p Hp. by eapply Hpp.
  - exists model. split; [done|]. intros m Hm. split_and!.
    + intros t Ht. by eapply team_check_pass.
    + intros u Ht Hu. by eapply user_model_check_pass.
    + intros p Hp. by eapply Hpp.
  - intros Hskip. rewrite Hskip in Hbud, Hglob. eapply budget_checks_pass; [done| |by rewrite Hglob; eexists].
    intros p bud Hp. by eapply Hpp.
  - by eapply agent_check_pass.
  - by eapply user_param_pass.
  - by eapply no_tags_pass.
  - by eapply guardrails_pass.
  - by eapply organization_pass.
  - by eapply allowed_route_pass.
  - by eapply vector_stores_pass.
  - by eapply tools_pass.
Qed.

(** ** Free models are never stopped by a budget *)

Definition no_budget {A} (o : outcome A) : Prop := ∀ sp b, o ≠ Deny (BudgetExceededError sp b).

Lemma no_budget_bind {A B} (o : outcome A) (f : A → outcome B) :
  no_budget o → (∀ a, no_budget (f a)) → no_budget (o ≫= f).
Proof. intros Ho Hf. destruct o; [apply Hf|]. intros sp b [= ->]. by apply (Ho sp b). Qed.

Lemma no_budget_any {A} (f : A → outcome bool) l : (∀ x, no_budget (f x)) → no_budget (o_any f l).
Proof.
  intros Hf. induction l as [|x l IH]; [done|]. apply no_budget_bind; [done|]. by intros [].
Qed.

Lemma no_budget_iter {A} (f : A → outcome unit) l : (∀ x, no_budget (f x)) → no_budget (o_iter f l).
Proof. intros Hf. induction l as [|x l IH]; [done|]. by apply no_budget_bind. Qed.

Lemma no_budget_lift {A} (x : res A) : no_budget (lift x).
Proof. by destruct x. Qed.

Create HintDb budget_free.

(** Split a check into its branches; each raises something else or goes on. *)
Ltac budget_free :=
  repeat first
    [ progress intros | solve [auto with budget_free nocore] | apply no_budget_bind | apply no_budget_any
    | apply no_budget_iter | apply no_budget_lift | done | case_match ].

Lemma check_route_access_no_budget rt l : no_budget (check_route_access rt l).
Proof. unfold check_route_access, _route_matches_pattern. budget_free. Qed.

Lemma llm_no_budget rt : no_budget (is_llm_api_route rt).
Proof. rewrite is_llm_api_route_pure. done. Qed.

#[local] Hint Resolve check_route_access_no_budget llm_no_budget : budget_free.

Lemma allowed_route_no_budget rt k q d v u : no_budget (_is_allowed_route cfg rt k q d v u).
Proof.
  unfold _is_allowed_route, _is_ui_route, _is_api_route_allowed, non_proxy_admin_allowed_routes_check,
    custom_admin_only_route_check, str_in_value, info_route_check, _check_proxy_admin_viewer_access,
    viewer_params_check, viewer_forbidden, role_route, check_passthrough_route_access, py_iter, value_allows,
    _raise_admin_only_route_exception, raise_exception, _route_matches_pattern. budget_free.
Qed.

Lemma can_call_name_no_budget lr models aliases team o m :
  no_budget (can_call_name model_alias_map get_llm_provider pattern_route team_pattern_route lr models aliases team o m).
Proof.
  unfold can_call_name, potential_models, _check_model_access_helper, access_groups,
    _model_matches_any_wildcard_pattern_in_list, any_wildcard, _model_custom_llm_provider_matches_wildcard_pattern,
    is_model_allowed_by_pattern, model_access_denied. budget_free.
Qed.

#[local] Hint Resolve allowed_route_no_budget can_call_name_no_budget : budget_free.

Lemma can_object_no_budget lr models aliases team o m d :
  no_budget (_can_object_call_model model_alias_map get_llm_provider pattern_route team_pattern_route lr models aliases team o d m).
Proof.
  revert d. induction m as [x|l IH] using model_req_ind'; intros d; cbn [_can_object_call_model].
  - destruct (_ <=? _)%nat; [done|]. apply can_call_name_no_budget.
  - destruct (_ <=? _)%nat; [done|]. induction IH as [|y l Hy _ IHl]; [done|]. by apply no_budget_bind.
Qed.

#[local] Hint Resolve can_object_no_budget : budget_free.

Lemma C_no_budget_bind {A B} (m : C R A) (f : A → C R B) s :
  no_budget (m s).1 → (∀ a s', no_budget (f a s').1) → no_budget ((m ≫= f) s).1.
Proof.
  intros Hm Hf. unfold mbind, C_bind. destruct (m s) as [[a|e] s']; [apply Hf|]. intros sp b [= ->]. by apply (Hm sp b).
Qed.

Lemma team_check_no_budget now model r s : no_budget (team_check now model r s).1.
Proof.
  unfold team_check. destruct (model_given model) as [m|]; [|done]. destruct (team_object r) as [t|]; [|done].
  apply C_no_budget_bind; [|by intros []]. unfold on_cache.
  destruct (can_team_access_model _ _ _ _ _ _ _ _ _ _ _) as [o c] eqn:E. cbn [fst].
  unfold can_team_access_model, with_access_groups in E. cbv zeta in E.
  destruct (_can_object_call_model _ _ _ _ _ (team_models t) _ _ _ _ _) as [b|e] eqn:En; [by simplify_eq|].
  assert (Hne : no_budget (Deny e : outcome bool)) by (rewrite <-En; apply can_object_no_budget).
  repeat (case_match; simplify_eq/=); budget_free.
Qed.

Lemma other_checks_no_budget model r :
  no_budget (get_model_from_request (request_body r) (route r)) ∧ no_budget (agent_check r)
  ∧ no_budget (user_model_check model r)
  ∧ no_budget (_enforce_user_param_check (general_settings cfg) (http_request r) (request_body r) (route r))
  ∧ no_budget (_reject_clientside_metadata_tags_check (general_settings cfg) (request_body r) (route r))
  ∧ no_budget (_guardrail_modification_check (request_body r) (team_object r))
  ∧ no_budget (organization_role_based_access_check (user_object r) (route r) (request_body r))
  ∧ no_budget (vector_store_access_check (request_body r) (team_object r) (valid_token r))
  ∧ no_budget (check_tools_allowlist (request_body r) (valid_token r) (route r)).
Proof.
  split_and!; unfold get_model_from_request, agent_check, user_model_check, can_user_call_model, _enforce_user_param_check,
    _reject_clientside_metadata_tags_check, _guardrail_modification_check, organization_role_based_access_check,
    auth_error, role_in, vector_store_access_check, permission_check, _can_object_call_vector_stores,
    check_tools_allowlist, raise_exception; budget_free.
Qed.

(** When the models of the request are free, no budget stops it: whatever it is denied for, it is not a
    budget. *)
Theorem free_models_skip_budgets now r s sp b :
  skip_budget_checks r = true → (common_checks now r s).1 ≠ Deny (BudgetExceededError sp b).
Proof.
  intros Hskip. revert sp b. change (no_budget (common_checks now r s).1). unfold common_checks.
  assert (Hb : ∀ {A} (o : outcome A) (s : state R), no_budget o → no_budget (pure o s).1) by done.
  pose proof (other_checks_no_budget) as Ho.
  apply C_no_budget_bind; [apply Hb, Ho; exact None|]. intros model s0.
  apply C_no_budget_bind; [destruct (team_object r) as [t|]; [destruct (team_blocked t)|]; done|]. intros _ s1.
  apply C_no_budget_bind; [apply team_check_no_budget|]. intros _ s2.
  do 2 (apply C_no_budget_bind; [apply Hb, (Ho model)|]; intros _ ?).
  apply C_no_budget_bind.
  { unfold _run_project_checks. rewrite Hskip. destruct (project_object r) as [p|]; [|done].
    destruct (project_blocked p); [done|]. apply C_no_budget_bind; [|done].
    destruct (model_given model); [|done]. destruct (project_models p); [done|].
    apply C_no_budget_bind; [|done]. apply Hb, can_object_no_budget. }
  intros _ s5. rewrite Hskip. apply C_no_budget_bind; [done|]. intros _ s6.
  do 2 (apply C_no_budget_bind; [apply Hb, (Ho model)|]; intros _ ?).
  apply C_no_budget_bind; [apply Hb; unfold _global_proxy_budget_check; by rewrite orb_true_r|]. intros _ ?.
  do 2 (apply C_no_budget_bind; [apply Hb, (Ho model)|]; intros _ ?).
  apply C_no_budget_bind; [apply Hb, allowed_route_no_budget|]. intros _ ?.
  do 2 (apply C_no_budget_bind; [apply Hb, (Ho model)|]; intros _ ?). done.
Qed.

(** ** Routes of the user interface *)

(** A token of the user interface may call every route that starts like one of the interface's routes,
    whoever the user is. *)
Theorem ui_token_opens_prefixes p u req data token user_obj :
  p ∈ ui_routes → _is_allowed_route cfg (p +:+ u) UI req data token user_obj = Pass true.
Proof.
  intros Hp. unfold _is_allowed_route, _is_ui_route.
  assert (existsb (startswith (p +:+ u)) ui_routes = true) as ->; [|done].
  apply existsb_elem. exists p. split; [done|]. apply startswith_iff. eauto.
Qed.

(** At a spend equal to the budget a key is stopped and a team, a user or an end user is not. *)
Theorem spend_at_budget token t u e (s : state R) b :
  token_max_budget token = Some b → token_spend token = b →
  team_max_budget t = Some b → team_spend t = Some b → user_max_budget u = Some b → user_spend u = b →
  end_user_budget_table e = Some (mk_budget None (Some b)) → end_user_spend e = b →
  (_virtual_key_max_budget_check token s).1 = Deny (BudgetExceededError b b)
  ∧ _team_max_budget_check (Some t) (Some token) s = (Pass (), s)
  ∧ user_budget_check None (Some u) s = (Pass (), s)
  ∧ end_user_budget_check (Some e) s = (Pass (), s).
Proof.
  intros Hk Hks Ht Hts Hu Hus He Hes.
  assert (Hle : Qle_bool b b = true) by (apply Qle_bool_iff, Qle_refl).
  unfold _virtual_key_max_budget_check, _team_max_budget_check, user_budget_check, end_user_budget_check, Qltb.
  rewrite Hk, Hks, Ht, Hts, Hu, Hus, He, Hes. cbn [bt_max_budget]. rewrite Hle. done.
Qed.

End checks.

(** ** Lookups and costs *)

(** The states the program reaches: rows are recorded only when they were found. *)
Inductive recorded : db_access_times → Prop :=
| recorded_init : recorded []
| recorded_update now key value d :
    recorded d → is_none value = false → recorded (_update_last_db_access_time now key value d).

Lemma dset_in {V} k (v : V) d x : x ∈ dset k v d → x = (k, v) ∨ x ∈ d.
Proof.
  induction d as [|[k' v'] d IH]; cbn; [set_solver|]. destruct (String.eqb_spec k k') as [->|]; set_solver.
Qed.

Lemma recorded_values d : recorded d → ∀ kv, kv ∈ d → is_none kv.2.1 = false.
Proof.
  induction 1 as [|now key value d Hd IH Hv]; intros kv Hin; [set_solver|].
  unfold _update_last_db_access_time in Hin. apply dset_in in Hin as [->|Hin]; [done|].
  apply IH. destruct (_ <=? _)%nat; [|done]. destruct d; [done|by right].
Qed.

(** Rows that are missing are asked for every time: the throttle answers yes in every state the program
    reaches, and would raise on a key whose row was recorded as missing. *)
Theorem missing_rows_never_throttled d key :
  recorded d →
  _should_check_db key d = Ok true
  ∧ ∀ now, _should_check_db key (_update_last_db_access_time now key PNone d) = Raise TypeError.
Proof.
  intros Hd. split.
  - unfold _should_check_db. destruct (dget key d) as [[v tm]|] eqn:E; [|done].
    apply dget_Some_in in E. apply (recorded_values _ Hd) in E. cbn in E. by rewrite E.
  - intros now. unfold _should_check_db, _update_last_db_access_time. by rewrite dget_dset_eq.
Qed.

(** Budgets are skipped only for models whose costs are both set, and to nothing. *)
Theorem zero_cost_models_are_free costs m name :
  _is_model_cost_zero (Some m) (Some costs) = true → name ∈ leaves m →
  ∃ i o, costs name = Ok (Some (Some i, Some o)) ∧ (i <= 0)%Q ∧ (o <= 0)%Q.
Proof.
  assert (Hfree : is_free costs name = true →
    ∃ i o, costs name = Ok (Some (Some i, Some o)) ∧ (i <= 0)%Q ∧ (o <= 0)%Q).
  { unfold is_free. destruct (costs name) as [[[[i|] [o|]]|]|]; try done.
    rewrite negb_true_iff. intros [Hi Ho]%orb_false_iff. exists i, o. auto using Qltb_false. }
  destruct m as [s|l]; cbn.
  - intros Hs ->%list_elem_of_singleton. auto.
  - intros Hl Hin. apply Hfree. induction l as [|x l IH]; [by apply elem_of_nil in Hin|].
    cbn in Hl. apply andb_true_iff in Hl as [Hx Hl]. apply elem_of_app in Hin as [Hin|Hin]; [|auto].
    destruct x; [|done]. by apply list_elem_of_singleton in Hin as ->.
Qed.

(** ** Concrete requests *)

Module Sample.
#[local] Existing Instance toy_runtime.
#[local] Existing Instance toy_re.
#[local] Existing Instance RedisCache.toy_client.
#[local] Existing Instance RedisCache.RedisCache_instance.

Definition be : backend :=
  mk_backend true None (λ _, Ok None) (λ _ _, None) (λ _, []) (λ _, false) None (λ _, None) (λ _, true)
    (λ _ _, ["search"]).

Definition key (md : dict) : UserAPIKeyAuth :=
  mk_token (Some "u") (Some "t") None [] None None (Some []) [] md None (inject_Z 3) (Some (inject_Z 3)) None None None.

Definition team (spend : Z) : LiteLLM_TeamTable :=
  mk_team "t" None false ["gpt-4"] None (Some (inject_Z 3)) None (Some (inject_Z spend)) None None.

Definition chat (spend : Z) (free : bool) (md : dict) : auth_request :=
  mk_auth_request [("model", PStr "gpt-4")] (Some (team spend)) None None None (Some (key md)) None
    "/chat/completions" None (mk_request (Some "POST") [] None) free.

Definition start : state (RedisCache.t RedisCache.toy) := mk_state ModelAccess.Sample.cache [].

Definition run (r : auth_request) :=
  common_checks Sample.proxy be [] ModelAccess.Sample.no_provider ModelAccess.Sample.no_pattern
    ModelAccess.Sample.no_team_pattern (inject_Z 0) 0 r start.

Example within_budget_passes : (run (chat 3 false [])).1 = Pass true.
Proof. by vm_compute. Qed.

Example over_budget_denied : (run (chat 4 false [])).1 = Deny (BudgetExceededError (inject_Z 4) (inject_Z 3)).
Proof. by vm_compute. Qed.

Example other_tool_denied :
  (run (chat 3 false [("allowed_tools", PList [PStr "fetch"])])).1 = Deny (ProxyException "tool_access_denied" (Some "tools") 403).
Proof. by vm_compute. Qed.

Lemma common_checks_sound_witness :
  authorized Sample.proxy be [] ModelAccess.Sample.no_provider ModelAccess.Sample.no_pattern
    ModelAccess.Sample.no_team_pattern (inject_Z 0) 0 (chat 3 false []) (user_api_key_cache start).
Proof.
  eapply (common_checks_sound Sample.proxy be [] ModelAccess.Sample.no_provider ModelAccess.Sample.no_pattern
    ModelAccess.Sample.no_team_pattern (inject_Z 0) 0 (chat 3 false []) start true).
  vm_compute. reflexivity.
Defined.

Lemma free_models_skip_budgets_witness :
  (run (chat 4 true [])).1 ≠ Deny (BudgetExceededError (inject_Z 4) (inject_Z 3)).
Proof. by apply free_models_skip_budgets. Defined.

Lemma ui_token_opens_prefixes_witness :
  _is_allowed_route Sample.proxy "/config/update" UI (mk_request None [] None) [] (Some (key [])) None = Pass true.
Proof. apply (ui_token_opens_prefixes Sample.proxy "/config" "/update"). apply str_in_spec. by vm_compute. Defined.

Lemma missing_rows_never_throttled_witness :
  _should_check_db "user_id:x" (_update_last_db_access_time 5 "user_id:y" (PDict [("user_id", PStr "y")]) []) = Ok true.
Proof. apply missing_rows_never_throttled. apply recorded_update; [constructor|done]. Defined.

Lemma zero_cost_models_are_free_witness :
  let costs := λ name, if String.eqb name "local" then Ok (Some (Some (inject_Z 0), Some (inject_Z 0))) else Ok None in
  ∃ i o, costs "local" = Ok (Some (Some i, Some o)) ∧ (i <= 0)%Q ∧ (o <= 0)%Q.
Proof. cbv zeta. by apply (zero_cost_models_are_free _ (Name "local")); [|left]. Defined.

Lemma spend_at_budget_witness :
  (_virtual_key_max_budget_check (key []) start).1 = Deny (BudgetExceededError (inject_Z 3) (inject_Z 3)).
Proof.
  by apply (spend_at_budget (key []) (team 3)
    (mk_user "u" None [] (Some (inject_Z 3)) (inject_Z 3) None)
    (mk_end_user (inject_Z 3) (Some (mk_budget None (Some (inject_Z 3)))))).
Defined.
End Sample.

End AuthChecks.
