(* ===== verification/CostCalc.v ===== *)
(** * CostCalc: what a request costs

    [litellm_core_utils/llm_cost_calc/utils.py] and the parts of [cost_calculator.py]
    around it: unit prices with their service tiers and thresholds, the breakdown of
    prompt and completion tokens, custom and batch prices, discounts and margins, and
    the sum of several usage objects.  Money and token prices are rationals; the price
    table of a model is a dict of dynamic values and its lookup ([get_model_info]) a
    parameter.

    The theorems say which tokens are billed, that the threshold price is the one of the
    highest threshold passed (when the names of the thresholds are ordered like their
    values), that amounts are not negative, that a batch costs half, that combined usage
    adds up, and where the code charges something else. *)

From stdpp Require Import base sets list strings.
From Stdlib Require Import Ascii ZArith QArith Lqa Lia Sorted.
From S2P Require Import Prelude Heapq PyStr.

#[local] Open Scope Z_scope.

Module CostCalc.
#[local] Abbreviation dict := (list (string * pyval)).

(** ** Strings *)

(** The parts before and after the first occurrence of [sep]. *)
Fixpoint cut (sep s : string) : option (string * string) :=
  if String.prefix sep s then Some ("", str_drop (String.length sep) s)
  else match s with
       | EmptyString => None
       | String a s' => match cut sep s' with Some (x, y) => Some (String a x, y) | None => None end
       end.

(** [s.split(sep)[0]] and [s.split(sep)[1]]. *)
Definition split_0 (sep s : string) : string := match cut sep s with Some (x, _) => x | None => s end.
Definition split_1 (sep s : string) : option string :=
  match cut sep s with Some (_, y) => Some (split_0 sep y) | None => None end.

(** [s.replace(old, "")]; [skip] counts the characters of a match still to be dropped. *)
Fixpoint remove_from (old : string) (skip : nat) (s : string) : string :=
  match s with
  | EmptyString => ""
  | String a s' =>
      match skip with
      | S n => remove_from old n s'
      | O => if String.prefix old s then remove_from old (pred (String.length old)) s'
             else String a (remove_from old 0 s')
      end
  end.
Definition str_remove (old s : string) : string := remove_from old 0 s.

(** The number of digits of a text. *)
Fixpoint digits_in (s : string) : Z :=
  match s with EmptyString => 0 | String a s' => (if is_digit a then 1 else 0) + digits_in s' end.

(** A sign and the rest. *)
Definition signed (s : string) : Z * string :=
  match s with
  | String "-" s' => (-1, s')
  | String "+" s' => (1, s')
  | _ => (1, s)
  end.

(** An empty text counts as 0 when [empty_ok]. *)
Definition digits_or (empty_ok : bool) (s : string) : option Z :=
  if String.eqb s "" then (if empty_ok then Some 0 else None) else int_digits 0 false s.

(** [float(s)] as a rational; [None] is [ValueError], also for the values that are no
    numbers ([inf], [nan]). *)
Definition float_of_str (s : string) : option Q :=
  let '(sign, body) := signed (lower (strip s)) in
  let '(mantissa, exponent) := split_once "e" body in
  let '(whole, fraction) := split_once "." mantissa in
  let frac := default "" fraction in
  match digits_or (negb (String.eqb frac "")) whole, digits_or true frac,
        match exponent with
        | None => Some 0
        | Some e => let '(es, ed) := signed e in Z.mul es <$> digits_or false ed
        end with
  | Some w, Some f, Some e =>
      Some ((inject_Z sign * (inject_Z w + inject_Z f / Qpower 10 (digits_in frac))) * Qpower 10 e)%Q
  | _, _, _ => None
  end.

(** ** Usage *)

Record CacheCreationTokenDetails := mkCacheDetails {
  ephemeral_5m_input_tokens : option Z;
  ephemeral_1h_input_tokens : option Z
}.

(** A missing attribute and [None] are read alike. *)
Record PromptTokensDetails := mkPrompt {
  cached_tokens : option Z;
  cache_creation_tokens : option Z;
  cache_creation_token_details : option CacheCreationTokenDetails;
  text_tokens : option Z;
  audio_tokens : option Z;
  image_tokens : option Z;
  character_count : option Z;
  image_count : option Z;
  video_length_seconds : option Q
}.

Record CompletionTokensDetails := mkCompletion {
  c_text_tokens : option Z;
  c_audio_tokens : option Z;
  c_reasoning_tokens : option Z;
  c_image_tokens : option Z
}.

Record Usage := mkUsage {
  prompt_tokens : Z;
  completion_tokens : Z;
  total_tokens : Z;
  prompt_tokens_details : option PromptTokensDetails;
  completion_tokens_details : option CompletionTokensDetails
}.

(** [PromptTokensDetailsResult]. *)
Record prompt_result := mkPR {
  r_cache_hit_tokens : Z;
  r_cache_creation_tokens : Z;
  r_cache_creation_token_details : option CacheCreationTokenDetails;
  r_text_tokens : Z;
  r_audio_tokens : Z;
  r_image_tokens : Z;
  r_character_count : Z;
  r_image_count : Z;
  r_video_length_seconds : Q
}.

Definition _parse_prompt_tokens_details (usage : Usage) : prompt_result :=
  match prompt_tokens_details usage with
  | Some d =>
      mkPR (default 0 (cached_tokens d)) (default 0 (cache_creation_tokens d)) (cache_creation_token_details d)
        (default 0 (text_tokens d)) (default 0 (audio_tokens d)) (default 0 (image_tokens d))
        (default 0 (character_count d)) (default 0 (image_count d)) (default 0%Q (video_length_seconds d))
  | None => mkPR 0 0 None 0 0 0 0 0 0
  end.

(** [CompletionTokensDetailsResult]. *)
Record completion_result := mkCR { cr_audio : Z; cr_text : Z; cr_reasoning : Z; cr_image : Z }.

Definition _parse_completion_tokens_details (d : CompletionTokensDetails) : completion_result :=
  mkCR (default 0 (c_audio_tokens d)) (default 0 (c_text_tokens d)) (default 0 (c_reasoning_tokens d))
    (default 0 (c_image_tokens d)).

Definition _is_above_128k (tokens : Q) : bool := negb (Qle_bool tokens 128000).

Definition get_billable_input_tokens (usage : Usage) : Z :=
  prompt_tokens usage - r_cache_hit_tokens (_parse_prompt_tokens_details usage).

Inductive cost_metric : Type := cost_per_character | cost_per_token_metric.

Definition select_cost_metric_for_model (model_info : dict) : res cost_metric :=
  if truthy (default PNone (dget "input_cost_per_character" model_info)) then Ok cost_per_character
  else if truthy (default PNone (dget "input_cost_per_token" model_info)) then Ok cost_per_token_metric
  else match dget "key" model_info with Some _ => Raise ValueError | None => Raise KeyError end.

(** ** Unit prices *)

Definition ServiceTier : list string := ["flex"; "priority"].

Definition _get_service_tier_cost_key (base_key : string) (service_tier : option string) : string :=
  match service_tier with
  | None => base_key
  | Some tier => if bool_decide (lower tier ∈ ServiceTier) then base_key +:+ "_" +:+ lower tier else base_key
  end.

(** A price as it is stored: a number, or a text that reads as one. *)
Definition price (v : pyval) : option Q :=
  match v with
  | PFloat q => Some q
  | PInt _ | PBool _ => as_num v
  | PStr s => float_of_str s
  | _ => None
  end.

(** The loop over the service tiers stops at the first suffix the key contains. *)
Fixpoint tier_fallback (model_info : dict) (cost_key : string) (tiers : list string) : option Q :=
  match tiers with
  | [] => None
  | tier :: rest =>
      let suffix := "_" +:+ tier in
      if str_contains suffix cost_key
      then price (default PNone (dget (str_remove suffix cost_key) model_info))
      else tier_fallback model_info cost_key rest
  end.

Definition _get_cost_per_unit (model_info : dict) (cost_key : string) (default_value : option Q) : option Q :=
  let cost_per_unit := default PNone (dget cost_key model_info) in
  match price cost_per_unit with
  | Some q => Some q
  | None =>
      match cost_per_unit with
      | PNone => match tier_fallback model_info cost_key ServiceTier with Some q => Some q | None => default_value end
      | _ => default_value
      end
  end.

(** With the default [0.0]. *)
Definition unit_cost (model_info : dict) (cost_key : string) : Q :=
  default 0%Q (_get_cost_per_unit model_info cost_key (Some 0%Q)).
Definition unit_cost_or (model_info : dict) (cost_key : string) (dflt : Q) : Q :=
  default dflt (_get_cost_per_unit model_info cost_key (Some dflt)).

Definition calculate_cost_component (model_info : dict) (cost_key : string) (usage_value : Q) : Q :=
  if Qle_bool usage_value 0 then 0%Q else (usage_value * unit_cost model_info cost_key)%Q.

(** The five unit prices of a request. *)
Record base_cost := mkBase {
  prompt_base_cost : Q;
  completion_base_cost : Q;
  cache_creation_cost : Q;
  cache_creation_cost_above_1hr : Q;
  cache_read_cost : Q
}.

Definition is_threshold_key (k : string) : bool :=
  startswith k "input_cost_per_token_above_" && negb (existsb (λ st, endswith k ("_" +:+ st)) ServiceTier).

(** The threshold prices of a table. *)
Definition threshold_keys (model_info : dict) : list string :=
  filter (λ k, is_threshold_key k = true) (dkeys model_info).

(** [sorted(l, reverse=True)]. *)
Fixpoint insert_desc (x : string) (l : list string) : list string :=
  match l with
  | [] => [x]
  | y :: l' => if str_ltb x y then y :: insert_desc x l' else x :: l
  end.
Definition sorted_desc (l : list string) : list string := foldr insert_desc [] l.

(** [key.split("_above_")[1].split("_tokens")[0]]; the keys have the first part. *)
Definition threshold_str (key : string) : string := split_0 "_tokens" (default "" (split_1 "_above_" key)).

(** [float(threshold_str.replace("k", "")) * (1000 if "k" in threshold_str else 1)]. *)
Definition threshold_of (key : string) : option Q :=
  let t := threshold_str key in
  match float_of_str (str_remove "k" t) with
  | Some q => Some (q * (if str_contains "k" t then 1000 else 1))%Q
  | None => None
  end.

(** A price of the threshold is used if the table has the key. *)
Definition tiered (model_info : dict) (key : string) (current : Q) : Q :=
  if dmem key model_info then unit_cost_or model_info key current else current.

(** [if service_tier: ...]. *)
Definition given (service_tier : option string) : bool :=
  match service_tier with Some t => negb (String.eqb t "") | None => false end.

Definition above_threshold (model_info : dict) (service_tier : option string) (key : string) (b : base_cost) : base_cost :=
  let t := threshold_str key in
  let tier_key base := _get_service_tier_cost_key (base +:+ "_above_" +:+ t +:+ "_tokens") service_tier in
  mkBase
    (unit_cost_or model_info (if given service_tier then tier_key "input_cost_per_token" else key) (prompt_base_cost b))
    (unit_cost_or model_info
       (if given service_tier then tier_key "output_cost_per_token" else "output_cost_per_token_above_" +:+ t +:+ "_tokens")
       (completion_base_cost b))
    (tiered model_info ("cache_creation_input_token_cost_above_" +:+ t +:+ "_tokens") (cache_creation_cost b))
    (tiered model_info ("cache_creation_input_token_cost_above_1hr_above_" +:+ t +:+ "_tokens")
       (cache_creation_cost_above_1hr b))
    (tiered model_info ("cache_read_input_token_cost_above_" +:+ t +:+ "_tokens") (cache_read_cost b)).

(** The loop over the thresholds stops at the first one passed; a threshold that is
    no number, or whose price is [None], is skipped. *)
Fixpoint threshold_loop (model_info : dict) (service_tier : option string) (tokens : Z) (keys : list string)
    (b : base_cost) : base_cost :=
  match keys with
  | [] => b
  | key :: rest =>
      if is_none (default PNone (dget key model_info)) then threshold_loop model_info service_tier tokens rest b
      else
        match threshold_of key with
        | Some threshold =>
            if Qle_bool (inject_Z tokens) threshold then threshold_loop model_info service_tier tokens rest b
            else above_threshold model_info service_tier key b
        | None => threshold_loop model_info service_tier tokens rest b
        end
  end.

(** The prices before any threshold. *)
Definition standard_cost (model_info : dict) (service_tier : option string) : base_cost :=
  let key base := _get_service_tier_cost_key base service_tier in
  let completion := unit_cost model_info (key "output_cost_per_token") in
  mkBase (unit_cost model_info (key "input_cost_per_token"))
    (if Qeq_bool completion 0
     then default completion (_get_cost_per_unit model_info "output_cost_per_image_token" None) else completion)
    (unit_cost model_info (key "cache_creation_input_token_cost"))
    (unit_cost model_info "cache_creation_input_token_cost_above_1hr")
    (unit_cost model_info (key "cache_read_input_token_cost")).

Definition _get_token_base_cost (model_info : dict) (usage : Usage) (service_tier : option string) : base_cost :=
  threshold_loop model_info service_tier (prompt_tokens usage)
    (sorted_desc (threshold_keys model_info))
    (standard_cost model_info service_tier).

(** ** The bill *)

Definition tokens_times (n : Z) (p : Q) : Q := (inject_Z n * p)%Q.

Definition calculate_cache_writing_cost (tokens : Z) (details : option CacheCreationTokenDetails)
    (cost_above_1hr cost : Q) : Q :=
  match details with
  | Some d =>
      (match ephemeral_5m_input_tokens d with Some n => tokens_times n cost | None => 0 end
       + match ephemeral_1h_input_tokens d with Some n => tokens_times n cost_above_1hr | None => 0 end)%Q
  | None => tokens_times tokens cost
  end.

(** [if value: prompt_cost += ...]. *)
Definition part (set : bool) (amount : Q) : Q := if set then amount else 0%Q.

Definition image_token_cost_key (model_info : dict) : string :=
  if is_none (default PNone (dget "input_cost_per_image_token" model_info)) then "input_cost_per_token"
  else "input_cost_per_image_token".

Definition _calculate_input_cost (d : prompt_result) (model_info : dict) (b : base_cost) (service_tier : option string) : Q :=
  (tokens_times (r_text_tokens d) (prompt_base_cost b)
   + tokens_times (r_cache_hit_tokens d) (cache_read_cost b)
   + part (negb (r_audio_tokens d =? 0))
       (calculate_cost_component model_info (_get_service_tier_cost_key "input_cost_per_audio_token" service_tier)
          (inject_Z (r_audio_tokens d)))
   + part (negb (r_image_tokens d =? 0))
       (calculate_cost_component model_info (image_token_cost_key model_info) (inject_Z (r_image_tokens d)))
   + part (negb (r_cache_creation_tokens d =? 0) || bool_decide (is_Some (r_cache_creation_token_details d)))
       (calculate_cache_writing_cost (r_cache_creation_tokens d) (r_cache_creation_token_details d)
          (cache_creation_cost_above_1hr b) (cache_creation_cost b))
   + part (negb (r_character_count d =? 0))
       (calculate_cost_component model_info "input_cost_per_character" (inject_Z (r_character_count d)))
   + part (negb (r_image_count d =? 0))
       (calculate_cost_component model_info "input_cost_per_image" (inject_Z (r_image_count d)))
   + part (negb (Qeq_bool (r_video_length_seconds d) 0))
       (calculate_cost_component model_info "input_cost_per_video_per_second" (r_video_length_seconds d)))%Q.

(** The prompt tokens as reported, or all of them text. *)
Definition reported_prompt (usage : Usage) : prompt_result :=
  match prompt_tokens_details usage with
  | Some _ => _parse_prompt_tokens_details usage
  | None => mkPR 0 0 None (prompt_tokens usage) 0 0 0 0 0
  end.

Definition set_text_tokens (n : Z) (d : prompt_result) : prompt_result :=
  mkPR (r_cache_hit_tokens d) (r_cache_creation_tokens d) (r_cache_creation_token_details d) n (r_audio_tokens d)
    (r_image_tokens d) (r_character_count d) (r_image_count d) (r_video_length_seconds d).

Definition total_details (d : prompt_result) : Z :=
  r_text_tokens d + r_cache_hit_tokens d + r_audio_tokens d + r_cache_creation_tokens d + r_image_tokens d.

Definition has_double_counting (usage : Usage) (d : prompt_result) : bool :=
  (0 <? r_cache_hit_tokens d) && (prompt_tokens usage <? total_details d).

(** Text tokens that are not reported, or that include the cached ones, are the rest. *)
Definition billed_prompt (usage : Usage) : prompt_result :=
  let d := reported_prompt usage in
  if ((r_text_tokens d =? 0) && (r_image_count d =? 0)) || has_double_counting usage d
  then set_text_tokens (prompt_tokens usage - r_cache_hit_tokens d - r_audio_tokens d - r_cache_creation_tokens d
                        - r_image_tokens d) d
  else d.

(** The completion tokens that are billed, and whether all of them are text. *)
Definition billed_completion (usage : Usage) : completion_result * bool :=
  let d := match completion_tokens_details usage with
           | Some d => _parse_completion_tokens_details d | None => mkCR 0 0 0 0 end in
  if cr_text d =? 0 then
    if (0 <? cr_image d) || (0 <? cr_audio d) || (0 <? cr_reasoning d)
    then (mkCR (cr_audio d) (Z.max 0 (completion_tokens usage - cr_reasoning d - cr_audio d - cr_image d))
            (cr_reasoning d) (cr_image d), false)
    else (mkCR (cr_audio d) (completion_tokens usage) (cr_reasoning d) (cr_image d), true)
  else (d, false).

(** The price of one kind of output token, or the price of text. *)
Definition output_price (model_info : dict) (cost_key : string) (base : Q) : Q :=
  default base (_get_cost_per_unit model_info cost_key None).

Definition _calculate_output_cost (model_info : dict) (b : base_cost) (billed : completion_result * bool) : Q :=
  let '(d, is_text_tokens_total) := billed in
  let kind n key := part (negb is_text_tokens_total && (0 <? n))
                      (tokens_times n (output_price model_info key (completion_base_cost b))) in
  (tokens_times (cr_text d) (completion_base_cost b)
   + kind (cr_audio d) "output_cost_per_audio_token"
   + kind (cr_reasoning d) "output_cost_per_reasoning_token"
   + kind (cr_image d) "output_cost_per_image_token")%Q.

(** The two amounts, given the price table. *)
Definition cost_of_usage (model_info : dict) (usage : Usage) (service_tier : option string) : Q * Q :=
  let b := _get_token_base_cost model_info usage service_tier in
  (_calculate_input_cost (billed_prompt usage) model_info b service_tier,
   _calculate_output_cost model_info b (billed_completion usage)).

Section lookup.
(** [get_model_info(model, custom_llm_provider)]. *)
Variable get_model_info : string → option string → res dict.

Definition generic_cost_per_token (model : string) (usage : Usage) (custom_llm_provider : string)
    (service_tier : option string) : res (Q * Q) :=
  model_info ← get_model_info model (Some custom_llm_provider);
  Ok (cost_of_usage model_info usage service_tier).

(** A character price: the custom one, or that of the table; [None] when there is none. *)
Definition per_character (model_info : dict) (key : string) (characters : Q) (custom : option Q) : option Q :=
  match custom with
  | Some c => Some (characters * c)%Q
  | None => match as_num (default PNone (dget key model_info)) with
            | Some c => Some (characters * c)%Q
            | None => None
            end
  end.

Definition _generic_cost_per_character (model custom_llm_provider : string) (prompt_characters completion_characters : Q)
    (custom_prompt_cost custom_completion_cost : option Q) : res (option Q * option Q) :=
  model_info ← get_model_info model (Some custom_llm_provider);
  Ok (per_character model_info "input_cost_per_character" prompt_characters custom_prompt_cost,
      per_character model_info "output_cost_per_character" completion_characters custom_completion_cost).

(** ** Image responses *)

(** [ImageUsage]: the counts may be missing. *)
Record image_usage := mkImageUsage {
  input_tokens : option Z;
  output_tokens : option Z;
  i_total_tokens : option Z;
  input_tokens_details : option (option Z * option Z)   (* text and image tokens *)
}.

Definition normalized_usage (p c t : Z) (d : option (option Z * option Z)) : Usage :=
  mkUsage p c t
    ((λ x, mkPrompt (Some 0) None None x.1 None x.2 None None None) <$> d)
    (Some (mkCompletion (Some 0) (Some 0) (Some 0) (Some c))).

Definition calculate_image_response_cost_from_usage (model : string) (usage : option image_usage)
    (custom_llm_provider : string) : res (option Q) :=
  match usage with
  | None => Ok None
  | Some u =>
      match input_tokens u, output_tokens u, i_total_tokens u with
      | Some p, Some c, Some t =>
          if (p =? 0) && (c =? 0) && (t =? 0) then Ok None
          else
            '(prompt_cost, completion_cost) ←
              generic_cost_per_token model (normalized_usage p c t (input_tokens_details u)) custom_llm_provider None;
            Ok (Some (prompt_cost + completion_cost)%Q)
      | _, _, _ => Ok None
      end
  end.

(** ** [cost_calculator.py] *)

(** [v * x] of a price and an amount. *)
Definition py_times (v : pyval) (x : Q) : res Q :=
  match as_num v with Some p => Ok (p * x)%Q | None => Raise TypeError end.

Definition _cost_per_token_custom_pricing_helper (prompt_tokens completion_tokens : Q) (response_time_ms : option Q)
    (custom_cost_per_token : option dict) (custom_cost_per_second : option Q) : res (option (Q * Q)) :=
  match custom_cost_per_token, custom_cost_per_second with
  | None, None => Ok None
  | Some p, _ =>
      i ← py_index (PDict p) "input_cost_per_token";
      input_cost ← py_times i prompt_tokens;
      o ← py_index (PDict p) "output_cost_per_token";
      output_cost ← py_times o completion_tokens;
      Ok (Some (input_cost, output_cost))
  | None, Some s =>
      match response_time_ms with
      | Some ms => Ok (Some (0%Q, (s * ms / 1000)%Q))
      | None => Raise TypeError
      end
  end.

(** [custom_llm_provider and custom_llm_provider in config]. *)
Definition provider_setting {V} (config : list (string * V)) (custom_llm_provider : option string) : option V :=
  match custom_llm_provider with
  | Some p => if String.eqb p "" then None else dget p config
  | None => None
  end.

(** The final cost, the percentage and the amount. *)
Definition _apply_cost_discount (cost_discount_config : list (string * Q)) (base_cost : Q)
    (custom_llm_provider : option string) : Q * Q * Q :=
  match provider_setting cost_discount_config custom_llm_provider with
  | Some percent => ((base_cost - base_cost * percent)%Q, percent, (base_cost * percent)%Q)
  | None => (base_cost, 0%Q, 0%Q)
  end.

(** [float(v)]. *)
Definition py_float (v : pyval) : res Q :=
  match as_num v with
  | Some q => Ok q
  | None => match v with
            | PStr s => match float_of_str s with Some q => Ok q | None => Raise ValueError end
            | _ => Raise TypeError
            end
  end.

(** [float(d[k])] if the key is there. *)
Definition float_at (d : dict) (k : string) : res Q :=
  match dget k d with Some v => py_float v | None => Ok 0%Q end.

(** The final cost, the percentage, the fixed amount and the total margin. *)
Definition _apply_cost_margin (cost_margin_config : dict) (base_cost : Q) (custom_llm_provider : option string)
    : res (Q * Q * Q * Q) :=
  let margin_config :=
    match provider_setting cost_margin_config custom_llm_provider with
    | Some m => Some m
    | None => dget "global" cost_margin_config
    end in
  match margin_config with
  | None | Some PNone => Ok (base_cost, 0%Q, 0%Q, 0%Q)
  | Some (PDict d) =>
      percent ← float_at d "percentage";
      fixed ← float_at d "fixed_amount";
      let total := (base_cost * percent + fixed)%Q in
      Ok ((base_cost + total)%Q, percent, fixed, total)
  | Some v =>
      match as_num v with
      | Some percent => Ok ((base_cost + base_cost * percent)%Q, percent, 0%Q, (base_cost * percent)%Q)
      | None => Ok (base_cost, 0%Q, 0%Q, 0%Q)
      end
  end.

(** The provider lookup may raise. *)
Definition batch_cost_calculator (get_llm_provider : string → option string → res string) (usage : Usage) (model : string)
    (custom_llm_provider : option string) (given_info : option dict) : res (Q * Q) :=
  provider ← get_llm_provider model custom_llm_provider;
  let model_info := match given_info with
                    | Some i => i
                    | None => match get_model_info model (Some provider) with Ok i => i | Raise _ => [] end
                    end in
  let at_ k := default PNone (dget k model_info) in
  prompt_cost ←
    (if truthy (at_ "input_cost_per_token_batches")
     then py_times (at_ "input_cost_per_token_batches") (inject_Z (prompt_tokens usage))
     else if truthy (at_ "input_cost_per_token") then
       base ← py_times (at_ "input_cost_per_token") (inject_Z (get_billable_input_tokens usage));
       Ok (base / 2 + calculate_cost_component model_info "cache_read_input_token_cost"
             (inject_Z (r_cache_hit_tokens (_parse_prompt_tokens_details usage))) / 2)%Q
     else Ok 0%Q);
  completion_cost ←
    (if truthy (at_ "output_cost_per_token_batches")
     then py_times (at_ "output_cost_per_token_batches") (inject_Z (completion_tokens usage))
     else if truthy (at_ "output_cost_per_token") then
       base ← py_times (at_ "output_cost_per_token") (inject_Z (completion_tokens usage)); Ok (base / 2)%Q
     else Ok 0%Q);
  Ok (prompt_cost, completion_cost).
End lookup.

(** *** Several usage objects *)

(** [(a or 0) + (b or 0)]. *)
Definition sum_or (a b : option Z) : option Z := Some (default 0 a + default 0 b).

(** The same for an attribute that is deleted when it has no value: nothing happens. *)
Definition sum_present (a b : option Z) : option Z :=
  match b with Some n => Some (default 0 a + n) | None => a end.

(** The nested record [cache_creation_token_details] is no number and is left out. *)
Definition add_prompt_details (combined : option PromptTokensDetails) (d : PromptTokensDetails) : PromptTokensDetails :=
  let c := default (mkPrompt None None None None None None None None None) combined in
  mkPrompt (sum_or (cached_tokens c) (cached_tokens d)) (sum_present (cache_creation_tokens c) (cache_creation_tokens d))
    (cache_creation_token_details c)
    (sum_or (text_tokens c) (text_tokens d)) (sum_or (audio_tokens c) (audio_tokens d))
    (sum_or (image_tokens c) (image_tokens d)) (sum_present (character_count c) (character_count d))
    (sum_present (image_count c) (image_count d))
    (match video_length_seconds d with
     | Some q => Some (default 0 (video_length_seconds c) + q)%Q
     | None => video_length_seconds c
     end).

(** [if new_val is not None and current_val is not None: ... current_val + new_val]. *)
Definition sum_both (current new : option Z) : option Z :=
  match current, new with Some a, Some b => Some (a + b) | _, _ => current end.

Definition add_completion_details (combined : option CompletionTokensDetails) (d : CompletionTokensDetails)
    : CompletionTokensDetails :=
  let c := default (mkCompletion None None None None) combined in
  mkCompletion (sum_both (c_text_tokens c) (c_text_tokens d)) (sum_both (c_audio_tokens c) (c_audio_tokens d))
    (sum_both (c_reasoning_tokens c) (c_reasoning_tokens d)) (sum_both (c_image_tokens c) (c_image_tokens d)).

Definition add_usage (combined u : Usage) : Usage :=
  mkUsage (prompt_tokens combined + prompt_tokens u) (completion_tokens combined + completion_tokens u)
    (total_tokens combined + total_tokens u)
    (match prompt_tokens_details u with
     | Some d => Some (add_prompt_details (prompt_tokens_details combined) d)
     | None => prompt_tokens_details combined
     end)
    (match completion_tokens_details u with
     | Some d => Some (add_completion_details (completion_tokens_details combined) d)
     | None => completion_tokens_details combined
     end).

Definition combine_usage_objects (usage_objects : list Usage) : Usage :=
  foldl add_usage (mkUsage 0 0 0 None None) usage_objects.

(** ** Which tokens are billed *)

(** A count of the prompt details, 0 when it is not reported. *)
Definition reported (f : PromptTokensDetails → option Z) (u : Usage) : Z :=
  match prompt_tokens_details u with Some d => default 0 (f d) | None => 0 end.

(** The tokens written to the cache at the ordinary rate and at the rate for an hour:
    the split of the details when there is one. *)
Definition cache_writes (u : Usage) : Z * Z :=
  match prompt_tokens_details u ≫= cache_creation_token_details with
  | Some c => (default 0 (ephemeral_5m_input_tokens c), default 0 (ephemeral_1h_input_tokens c))
  | None => (reported cache_creation_tokens u, 0)
  end.

(** A prompt of tokens: no characters, images or seconds of video are counted apart, no
    count of audio or image tokens is negative, and the split of the cache writes adds
    up to their number. *)
Record token_prompt (u : Usage) : Prop := {
  tp_characters : reported character_count u = 0;
  tp_images : reported image_count u = 0;
  tp_video : ∀ d q, prompt_tokens_details u = Some d → video_length_seconds d = Some q → q == 0;
  tp_audio : 0 ≤ reported audio_tokens u;
  tp_image_tokens : 0 ≤ reported image_tokens u;
  tp_writes : (cache_writes u).1 + (cache_writes u).2 = reported cache_creation_tokens u
}.

(** The sum of what is reported. *)
Definition reported_sum (u : Usage) : Z :=
  reported text_tokens u + reported cached_tokens u + reported audio_tokens u + reported image_tokens u +
  reported cache_creation_tokens u.

Lemma component_part mi key n :
  0 ≤ n → part (negb (n =? 0)) (calculate_cost_component mi key (inject_Z n)) == inject_Z n * unit_cost mi key.
Proof.
  intros Hn. unfold part, calculate_cost_component. destruct (Z.eqb_spec n 0) as [->|Hne]; cbn [negb].
  { change (inject_Z 0) with 0%Q. ring. }
  destruct (Qle_bool (inject_Z n) 0) eqn:E; [|reflexivity]. apply Qle_bool_iff in E.
  change 0%Q with (inject_Z 0) in E. rewrite <-Zle_Qle in E. lia.
Qed.

Lemma writing_part u b :
  let w := prompt_tokens_details u ≫= cache_creation_token_details in
  let n := reported cache_creation_tokens u in
  part (negb (n =? 0) || bool_decide (is_Some w))
    (calculate_cache_writing_cost n w (cache_creation_cost_above_1hr b) (cache_creation_cost b)) ==
  inject_Z (cache_writes u).1 * cache_creation_cost b + inject_Z (cache_writes u).2 * cache_creation_cost_above_1hr b.
Proof.
  cbn zeta. unfold cache_writes, calculate_cache_writing_cost, tokens_times, part.
  destruct (prompt_tokens_details u ≫= cache_creation_token_details) as [[[x|] [y|]]|];
    rewrite ?bool_decide_eq_true_2, ?orb_true_r by eauto; cbn [fst snd default from_option Datatypes.id ephemeral_5m_input_tokens ephemeral_1h_input_tokens];
    change (inject_Z 0) with 0%Q; try ring.
  rewrite bool_decide_eq_false_2 by apply is_Some_None. rewrite orb_false_r.
  destruct (Z.eqb_spec (reported cache_creation_tokens u) 0) as [->|]; cbn [negb]; [change (inject_Z 0) with 0%Q|]; ring.
Qed.

(** The kinds of tokens that reach the bill. *)
Lemma billed_kinds u :
  token_prompt u → ∃ video, video == 0 ∧
  billed_prompt u =
    mkPR (reported cached_tokens u) (reported cache_creation_tokens u) (prompt_tokens_details u ≫= cache_creation_token_details)
      (if (reported text_tokens u =? 0) || ((0 <? reported cached_tokens u) && (prompt_tokens u <? reported_sum u))
       then prompt_tokens u - reported cached_tokens u - reported audio_tokens u - reported image_tokens u
            - reported cache_creation_tokens u
       else reported text_tokens u)
      (reported audio_tokens u) (reported image_tokens u) 0 0 video.
Proof.
  intros [Hch Hic Hv _ _ _]. unfold billed_prompt, has_double_counting, total_details, set_text_tokens, reported_prompt,
    _parse_prompt_tokens_details, reported_sum, reported in *.
  destruct (prompt_tokens_details u) as [d|].
  - exists (default 0%Q (video_length_seconds d)). split.
    { destruct (video_length_seconds d) as [q|] eqn:E; [by eapply Hv|reflexivity]. }
    cbn [r_text_tokens r_cache_hit_tokens r_audio_tokens r_image_tokens r_cache_creation_tokens r_character_count r_image_count
       r_video_length_seconds r_cache_creation_token_details mbind option_bind]. rewrite Hch, Hic, Z.eqb_refl, andb_true_r.
    set (t := default 0 (text_tokens d)). set (h := default 0 (cached_tokens d)). set (a := default 0 (audio_tokens d)).
    set (w := default 0 (cache_creation_tokens d)). set (m := default 0 (image_tokens d)).
    replace (t + h + a + w + m) with (t + h + a + m + w) by lia.
    replace (prompt_tokens u - h - a - w - m) with (prompt_tokens u - h - a - m - w) by lia.
    by destruct ((t =? 0) || _).
  - exists 0%Q. split; [reflexivity|].
    cbn [r_text_tokens r_cache_hit_tokens r_audio_tokens r_image_tokens r_cache_creation_tokens r_character_count r_image_count
       r_video_length_seconds r_cache_creation_token_details mbind option_bind]. cbn [Z.ltb Z.compare andb orb Z.eqb].
    destruct (Z.eqb_spec (prompt_tokens u) 0) as [E|]; cbn; rewrite ?E; [done|]. f_equal. lia.
Qed.

(** C33: The bill of a prompt of tokens: one in which no characters, images or seconds of
    video are counted apart, no count of audio or image tokens is negative, and the
    split of the cache writes by lifetime adds up to their number.  It charges the
    reported cached, audio and image tokens and the cache writes of either lifetime at
    the price of their kind, and a number of text tokens such that all of them add up to
    the prompt tokens of the usage when no text tokens are reported, or when tokens are
    cached and the reported counts exceed the prompt; otherwise the text tokens are
    those reported.  So a prompt with cached tokens is never billed for more tokens than
    it has.  (The number of text tokens is negative when the other kinds alone exceed
    the prompt.) *)
Theorem prompt_tokens_billed_once mi u tier (Hu : token_prompt u) :
  let b := _get_token_base_cost mi u tier in
  let others := reported cached_tokens u + reported audio_tokens u + reported image_tokens u
                + (cache_writes u).1 + (cache_writes u).2 in
  ∃ text,
    (cost_of_usage mi u tier).1 ==
      inject_Z text * prompt_base_cost b + inject_Z (reported cached_tokens u) * cache_read_cost b
      + inject_Z (reported audio_tokens u) * unit_cost mi (_get_service_tier_cost_key "input_cost_per_audio_token" tier)
      + inject_Z (reported image_tokens u) * unit_cost mi (image_token_cost_key mi)
      + inject_Z (cache_writes u).1 * cache_creation_cost b
      + inject_Z (cache_writes u).2 * cache_creation_cost_above_1hr b ∧
    (reported text_tokens u = 0 ∨ 0 < reported cached_tokens u ∧ prompt_tokens u < reported text_tokens u + others →
       text + others = prompt_tokens u) ∧
    (reported text_tokens u ≠ 0 → reported cached_tokens u ≤ 0 ∨ reported text_tokens u + others ≤ prompt_tokens u →
       text = reported text_tokens u) ∧
    (0 < reported cached_tokens u → text + others ≤ prompt_tokens u).
Proof.
  intros b others. destruct (billed_kinds u Hu) as (video & Hvid & E). destruct Hu as [_ _ _ Ha Hi Hw].
  unfold others. unfold reported_sum in E.
  eexists. split.
  { unfold cost_of_usage. fold b. cbn [fst]. rewrite E. unfold _calculate_input_cost.
    cbn [r_text_tokens r_cache_hit_tokens r_audio_tokens r_image_tokens r_cache_creation_tokens r_character_count r_image_count
       r_video_length_seconds r_cache_creation_token_details Z.eqb negb].
    rewrite (component_part mi _ _ Ha), (component_part mi _ _ Hi), (writing_part u b), (Qeq_eq_bool _ _ Hvid).
    unfold tokens_times. cbn [negb part]. rewrite !Qplus_0_r. rewrite !Qplus_assoc. reflexivity. }
  clear E b others.
  destruct (Z.eqb_spec (reported text_tokens u) 0) as [E0|E0]; cbn [orb]; [lia|].
  destruct (Z.ltb_spec 0 (reported cached_tokens u)), (Z.ltb_spec (prompt_tokens u) (reported text_tokens u + reported cached_tokens u
    + reported audio_tokens u + reported image_tokens u + reported cache_creation_tokens u)); cbn [andb]; lia.
Qed.

(** The number of completion tokens on the bill. *)
Definition billed_output_tokens (b : completion_result * bool) : Z :=
  cr_text b.1 + if b.2 then 0 else Z.max 0 (cr_audio b.1) + Z.max 0 (cr_reasoning b.1) + Z.max 0 (cr_image b.1).

(** When the provider does not report the text tokens of a completion,
    exactly the completion tokens are billed, or the reported breakdown if it is
    larger. *)
Theorem completion_tokens_billed_once (u : Usage) (d : CompletionTokensDetails)
    (Hd : completion_tokens_details u = None ∨ completion_tokens_details u = Some d ∧ default 0 (c_text_tokens d) = 0 ∧
      0 ≤ default 0 (c_audio_tokens d) ∧ 0 ≤ default 0 (c_reasoning_tokens d) ∧ 0 ≤ default 0 (c_image_tokens d))
    (Hc : 0 ≤ completion_tokens u) :
  billed_output_tokens (billed_completion u) =
    match completion_tokens_details u with
    | None => completion_tokens u
    | Some d => Z.max (completion_tokens u)
                  (default 0 (c_audio_tokens d) + default 0 (c_reasoning_tokens d) + default 0 (c_image_tokens d))
    end.
Proof.
  unfold billed_completion. destruct Hd as [->|(-> & Ht & Ha & Hr & Hi)].
  - cbn. unfold billed_output_tokens. cbn. lia.
  - unfold _parse_completion_tokens_details. cbn [cr_text cr_audio cr_reasoning cr_image]. rewrite Ht. cbn [Z.eqb].
    unfold billed_output_tokens. destruct ((0 <? _) || _ || _) eqn:Eb; cbn [fst snd cr_text cr_audio cr_reasoning cr_image]; lia.
Qed.

(** ** Amounts are not negative *)

Lemma tokens_times_nonneg n p : 0 ≤ n → (0 <= p)%Q → (0 <= tokens_times n p)%Q.
Proof.
  intros Hn Hp. unfold tokens_times. apply Qmult_le_0_compat; [|done]. change 0%Q with (inject_Z 0). by rewrite <-Zle_Qle.
Qed.

Lemma part_nonneg b q : (0 <= q)%Q → (0 <= part b q)%Q.
Proof. by destruct b. Qed.

(** Every number in the price table is at least 0. *)
Definition prices_nonneg (model_info : dict) : Prop :=
  ∀ k v q, (k, v) ∈ model_info → price v = Some q → (0 <= q)%Q.

Lemma price_at mi k q : prices_nonneg mi → price (default PNone (dget k mi)) = Some q → (0 <= q)%Q.
Proof. intros Hp. destruct (dget k mi) as [v|] eqn:Ek; [|done]. apply dget_Some_in in Ek. by eapply Hp. Qed.

Lemma tier_fallback_nonneg mi key tiers q : prices_nonneg mi → tier_fallback mi key tiers = Some q → (0 <= q)%Q.
Proof.
  intros Hp. induction tiers as [|t ts IH]; cbn [tier_fallback]; [done|].
  destruct (str_contains _ _); [by apply price_at|done].
Qed.

Lemma cost_per_unit_nonneg mi key dflt q :
  prices_nonneg mi → (∀ x, dflt = Some x → (0 <= x)%Q) → _get_cost_per_unit mi key dflt = Some q → (0 <= q)%Q.
Proof.
  intros Hp Hd. unfold _get_cost_per_unit. destruct (price _) as [x|] eqn:Ex.
  { intros [= <-]. by eapply price_at. }
  destruct (default PNone (dget key mi)); try apply Hd.
  destruct (tier_fallback mi key ServiceTier) as [x|] eqn:Et; [|apply Hd].
  intros [= <-]. by eapply tier_fallback_nonneg.
Qed.

(** The side condition when there is no default. *)
Lemma none_nonneg (P : Q → Prop) : ∀ x, None = Some x → P x.
Proof. done. Qed.

Lemma unit_cost_or_nonneg mi key x : prices_nonneg mi → (0 <= x)%Q → (0 <= unit_cost_or mi key x)%Q.
Proof.
  intros Hp Hx. unfold unit_cost_or. destruct (_get_cost_per_unit mi key (Some x)) as [q|] eqn:E; [|done].
  eapply cost_per_unit_nonneg; [done| |exact E]. by intros ? [= <-].
Qed.

Lemma unit_cost_nonneg mi key : prices_nonneg mi → (0 <= unit_cost mi key)%Q.
Proof. intros Hp. apply (unit_cost_or_nonneg mi key 0); [done|apply Qle_refl]. Qed.

Lemma component_nonneg mi key x : prices_nonneg mi → (0 <= calculate_cost_component mi key x)%Q.
Proof.
  intros Hp. unfold calculate_cost_component. destruct (Qle_bool x 0) eqn:E; [apply Qle_refl|].
  apply Qmult_le_0_compat; [|by apply unit_cost_nonneg].
  apply Qlt_le_weak, Qnot_le_lt. intros Hx. apply Qle_bool_iff in Hx. congruence.
Qed.

Record base_nonneg (b : base_cost) : Prop := {
  bn_prompt : (0 <= prompt_base_cost b)%Q;
  bn_completion : (0 <= completion_base_cost b)%Q;
  bn_creation : (0 <= cache_creation_cost b)%Q;
  bn_creation_1hr : (0 <= cache_creation_cost_above_1hr b)%Q;
  bn_read : (0 <= cache_read_cost b)%Q
}.

Lemma tiered_nonneg mi key x : prices_nonneg mi → (0 <= x)%Q → (0 <= tiered mi key x)%Q.
Proof. intros. unfold tiered. destruct (dmem _ _); [by apply unit_cost_or_nonneg|done]. Qed.

Lemma base_cost_nonneg mi u tier : prices_nonneg mi → base_nonneg (_get_token_base_cost mi u tier).
Proof.
  intros Hp. unfold _get_token_base_cost.
  assert (base_nonneg (standard_cost mi tier)) as Hs.
  { split; cbn; try by apply unit_cost_nonneg. destruct (Qeq_bool _ 0); [|by apply unit_cost_nonneg].
    destruct (_get_cost_per_unit mi "output_cost_per_image_token" None) as [q|] eqn:E; [|by apply unit_cost_nonneg].
    by apply (cost_per_unit_nonneg _ _ _ _ Hp (none_nonneg _) E). }
  induction (sorted_desc _) as [|k ks IH]; cbn [threshold_loop]; [done|].
  destruct (is_none _); [done|]. destruct (threshold_of k); [|done]. destruct (Qle_bool _ _); [done|].
  destruct Hs. split; cbn [above_threshold prompt_base_cost completion_base_cost cache_creation_cost
    cache_creation_cost_above_1hr cache_read_cost]; auto using unit_cost_or_nonneg, tiered_nonneg.
Qed.

(** Reported counts: at least 0, and the cache writes of a detailed report too. *)
Record counts_nonneg (d : prompt_result) : Prop := {
  cn_text : 0 ≤ r_text_tokens d;
  cn_cached : 0 ≤ r_cache_hit_tokens d;
  cn_creation : 0 ≤ r_cache_creation_tokens d;
  cn_details : ∀ x, r_cache_creation_token_details d = Some x →
    0 ≤ default 0 (ephemeral_5m_input_tokens x) ∧ 0 ≤ default 0 (ephemeral_1h_input_tokens x)
}.

Lemma cache_writing_nonneg d b :
  counts_nonneg d → base_nonneg b →
  (0 <= calculate_cache_writing_cost (r_cache_creation_tokens d) (r_cache_creation_token_details d)
          (cache_creation_cost_above_1hr b) (cache_creation_cost b))%Q.
Proof.
  intros Hc Hb. unfold calculate_cache_writing_cost. destruct (r_cache_creation_token_details d) as [x|] eqn:E.
  - destruct (cn_details d Hc x E) as [H1 H2]. apply (Qplus_le_compat 0 _ 0).
    + destruct (ephemeral_5m_input_tokens x); [|apply Qle_refl]. apply tokens_times_nonneg; [done|apply Hb].
    + destruct (ephemeral_1h_input_tokens x); [|apply Qle_refl]. apply tokens_times_nonneg; [done|apply Hb].
  - apply tokens_times_nonneg; [apply Hc|apply Hb].
Qed.

Lemma Qplus_nonneg a b : (0 <= a)%Q → (0 <= b)%Q → (0 <= a + b)%Q.
Proof. intros. by apply (Qplus_le_compat 0 _ 0). Qed.

(** With prices and counts that are not negative, neither amount is
    negative. *)
Theorem cost_nonnegative mi u tier
    (Hp : prices_nonneg mi) (Hc : counts_nonneg (billed_prompt u)) (Ht : 0 ≤ cr_text (billed_completion u).1) :
  (0 <= (cost_of_usage mi u tier).1)%Q ∧ (0 <= (cost_of_usage mi u tier).2)%Q.
Proof.
  pose proof (base_cost_nonneg mi u tier Hp) as Hb. unfold cost_of_usage. cbn [fst snd].
  set (b := _get_token_base_cost mi u tier) in *. split.
  - unfold _calculate_input_cost. repeat apply Qplus_nonneg; try (apply part_nonneg; by apply component_nonneg).
    + apply tokens_times_nonneg; [apply Hc|apply Hb].
    + apply tokens_times_nonneg; [apply Hc|apply Hb].
    + apply part_nonneg. by apply cache_writing_nonneg.
  - unfold _calculate_output_cost. destruct (billed_completion u) as [d total]. cbn [fst] in Ht.
    assert (∀ n key, (0 <= part (negb total && (0 <? n)) (tokens_times n (output_price mi key (completion_base_cost b))))%Q) as Hk.
    { intros n key. destruct (negb total && (0 <? n)) eqn:E; [|apply Qle_refl]. cbn [part].
      apply andb_true_iff in E as [_ E]. apply tokens_times_nonneg; [lia|]. unfold output_price.
      destruct (_get_cost_per_unit mi key None) as [q|] eqn:Eq; [|apply Hb].
      by apply (cost_per_unit_nonneg _ _ _ _ Hp (none_nonneg _) Eq). }
    repeat apply Qplus_nonneg; try apply Hk. apply tokens_times_nonneg; [done|apply Hb].
Qed.

(** ** The threshold that sets the price *)

Lemma sorted_desc_perm l : sorted_desc l ≡ₚ l.
Proof.
  induction l as [|x l IH]; cbn [sorted_desc foldr]; [done|]. fold (sorted_desc l).
  transitivity (x :: sorted_desc l); [|by rewrite IH]. clear IH.
  induction (sorted_desc l) as [|y l' IH]; cbn [insert_desc]; [done|]. destruct (str_ltb x y); [|done].
  rewrite IH. apply perm_swap.
Qed.

(** [x] may stand before [y]. *)
Definition not_below (x y : string) : Prop := str_ltb x y = false.

Lemma not_below_trans x y z : not_below x y → not_below y z → not_below x z.
Proof.
  unfold not_below. intros H1 H2. destruct (str_ltb x z) eqn:E; [|done].
  destruct (str_ltb y x) eqn:E2.
  - pose proof (str_ltb_trans _ _ _ E2 E). congruence.
  - pose proof (str_ltb_total _ _ H1 E2). subst. congruence.
Qed.

Lemma sorted_desc_sorted l : StronglySorted not_below (sorted_desc l).
Proof.
  induction l as [|x l IH]; cbn [sorted_desc foldr]; [constructor|]. fold (sorted_desc l) in *.
  induction IH as [|y l' Hs IH Hy]; cbn [insert_desc]; [repeat constructor|].
  destruct (str_ltb x y) eqn:E.
  - constructor; [done|]. apply Forall_forall. intros z Hz.
    assert (insert_desc x l' ≡ₚ x :: l') as Hp.
    { clear. induction l' as [|w l' IH]; cbn [insert_desc]; [done|]. destruct (str_ltb x w); [|done].
      rewrite IH. apply perm_swap. }
    rewrite Hp in Hz. apply elem_of_cons in Hz as [->|Hz]; [|by eapply Forall_forall in Hy].
    unfold not_below. destruct (str_ltb y x) eqn:E2; [|done].
    pose proof (str_ltb_trans _ _ _ E E2) as H. by rewrite str_ltb_irrefl in H.
  - constructor; [by constructor|]. constructor; [done|]. eapply Forall_impl; [exact Hy|].
    intros z. by apply not_below_trans.
Qed.

(** A price of the table whose threshold [q] the prompt has passed. *)
Definition passes (model_info : dict) (tokens : Z) (key : string) (q : Q) : Prop :=
  is_none (default PNone (dget key model_info)) = false ∧ threshold_of key = Some q ∧ (q < inject_Z tokens)%Q.

Lemma threshold_loop_first mi tier n keys b :
  StronglySorted not_below keys →
  (∃ k q, k ∈ keys ∧ passes mi n k q ∧ (∀ k' q', k' ∈ keys → passes mi n k' q' → not_below k k') ∧
     threshold_loop mi tier n keys b = above_threshold mi tier k b) ∨
  (∀ k q, k ∈ keys → ¬ passes mi n k q) ∧ threshold_loop mi tier n keys b = b.
Proof.
  induction 1 as [|k keys Hs IH Hk]; cbn [threshold_loop].
  { right. split; [|done]. by intros ? ? ?%elem_of_nil. }
  assert ((∀ q, ¬ passes mi n k q) →
    (∃ k0 q, k0 ∈ k :: keys ∧ passes mi n k0 q ∧ (∀ k' q', k' ∈ k :: keys → passes mi n k' q' → not_below k0 k') ∧
       threshold_loop mi tier n keys b = above_threshold mi tier k0 b) ∨
    (∀ k0 q, k0 ∈ k :: keys → ¬ passes mi n k0 q) ∧ threshold_loop mi tier n keys b = b) as Hskip.
  { intros Hno. destruct IH as [(k0 & q & Hin & Hpass & Hmax & Heq)|[Hnone Heq]].
    - left. exists k0, q. split_and!; [by right|done| |done].
      intros k' q' [->|Hin']%elem_of_cons Hp'; [by destruct (Hno q')|by eapply Hmax].
    - right. split; [|done]. intros k' q' [->|Hin']%elem_of_cons Hp'; [by destruct (Hno q')|by eapply Hnone]. }
  destruct (is_none _) eqn:En. { apply Hskip. intros q (H & _). congruence. }
  destruct (threshold_of k) as [q|] eqn:Eq. 2:{ apply Hskip. intros q (_ & H & _). congruence. }
  destruct (Qle_bool (inject_Z n) q) eqn:El.
  { apply Hskip. intros q' (_ & H & Hlt). simplify_eq. apply Qle_bool_iff in El. by apply Qlt_not_le in Hlt. }
  left. exists k, q. split_and!; [by left| |..|done].
  - split_and!; [done..|]. apply Qnot_le_lt. intros Hle%Qle_bool_iff. congruence.
  - intros k' q' [->|Hin]%elem_of_cons _; [apply str_ltb_irrefl|]. by eapply Forall_forall in Hk.
Qed.

(** When the names of the threshold prices are ordered like the thresholds
    (as with equally many digits), the price of the highest threshold the prompt passes
    is used, and the standard price when it passes none. *)
Theorem threshold_price_is_highest mi u tier
    (Hord : ∀ k k' q q', k ∈ threshold_keys mi → k' ∈ threshold_keys mi → threshold_of k = Some q →
       threshold_of k' = Some q' → (q < q')%Q → str_ltb k k' = true) :
  (∃ k q, k ∈ threshold_keys mi ∧ passes mi (prompt_tokens u) k q ∧
     (∀ k' q', k' ∈ threshold_keys mi → passes mi (prompt_tokens u) k' q' → (q' <= q)%Q) ∧
     _get_token_base_cost mi u tier = above_threshold mi tier k (standard_cost mi tier)) ∨
  (∀ k q, k ∈ threshold_keys mi → ¬ passes mi (prompt_tokens u) k q) ∧
    _get_token_base_cost mi u tier = standard_cost mi tier.
Proof.
  unfold _get_token_base_cost.
  pose proof (sorted_desc_perm (threshold_keys mi)) as Hp.
  destruct (threshold_loop_first mi tier (prompt_tokens u) _ (standard_cost mi tier)
              (sorted_desc_sorted (threshold_keys mi))) as [(k & q & Hin & Hpass & Hmax & Heq)|[Hno Heq]].
  - left. rewrite Hp in Hin. exists k, q. split_and!; [done..| |done]. intros k' q' Hin' Hp'.
    apply Qnot_lt_le. intros Hlt. assert (str_ltb k k' = true) as Hk.
    { eapply Hord; [done..| | |exact Hlt]; [apply Hpass|apply Hp']. }
    specialize (Hmax k' q'). rewrite Hp in Hmax. specialize (Hmax Hin' Hp'). unfold not_below in Hmax. congruence.
  - right. split; [|done]. intros k q Hin. apply (Hno k q). by rewrite Hp.
Qed.

(** The keys are compared as texts: with prices above 32k and above 128k tokens, a
    prompt of 200000 tokens is billed at the price above 32k. *)
Theorem threshold_names_compared_as_text :
  let mi := [("input_cost_per_token", PInt 1); ("input_cost_per_token_above_32k_tokens", PInt 2);
             ("input_cost_per_token_above_128k_tokens", PInt 3)] in
  threshold_of "input_cost_per_token_above_128k_tokens" = Some 128000%Q ∧
  prompt_base_cost (_get_token_base_cost mi (mkUsage 200000 0 200000 None None) None) = 2%Q.
Proof. vm_compute. split; reflexivity. Qed.

(** Above a threshold the cached tokens of a priority request are billed at the
    standard price although the table has a priority price for them. *)
Theorem priority_cache_price_unused :
  let mi := [("input_cost_per_token", PInt 20); ("input_cost_per_token_above_200k_tokens", PInt 40);
             ("input_cost_per_token_above_200k_tokens_priority", PInt 72);
             ("cache_read_input_token_cost_above_200k_tokens", PInt 4);
             ("cache_read_input_token_cost_above_200k_tokens_priority", PInt 7)] in
  let b := _get_token_base_cost mi (mkUsage 300000 0 300000 None None) (Some "priority") in
  prompt_base_cost b = 72%Q ∧ cache_read_cost b = 4%Q.
Proof. vm_compute. split; reflexivity. Qed.

(** A prompt whose reported parts exceed it is billed a negative amount: the rest that
    counts as text has no lower bound, unlike that of the completion. *)
Theorem negative_input_cost :
  let u := mkUsage 10 0 10 (Some (mkPrompt None None None None None (Some 30) None None None)) None in
  r_text_tokens (billed_prompt u) = -20 ∧
  (cost_of_usage [("input_cost_per_token", PInt 5); ("input_cost_per_image_token", PInt 1)] u None).1 == -70.
Proof. vm_compute. split; reflexivity. Qed.

(** ** Batches *)

(** A table with plain prices for input and output, none of them for batches or
    thresholds. *)
Record plain_prices (mi : dict) (pi po : Q) : Prop := {
  pp_input : dget "input_cost_per_token" mi = Some (PFloat pi);
  pp_output : dget "output_cost_per_token" mi = Some (PFloat po);
  pp_input_nonzero : Qeq_bool pi 0 = false;
  pp_output_nonzero : Qeq_bool po 0 = false;
  pp_thresholds : threshold_keys mi = [];
  pp_input_batches : truthy (default PNone (dget "input_cost_per_token_batches" mi)) = false;
  pp_output_batches : truthy (default PNone (dget "output_cost_per_token_batches" mi)) = false
}.

Lemma plain_base_cost mi pi po u :
  plain_prices mi pi po →
  prompt_base_cost (_get_token_base_cost mi u None) = pi ∧ completion_base_cost (_get_token_base_cost mi u None) = po.
Proof.
  intros [Hi Ho Hni Hno Ht _ _]. unfold _get_token_base_cost. rewrite Ht.
  cbn [sorted_desc foldr threshold_loop]. unfold standard_cost, unit_cost, _get_cost_per_unit, _get_service_tier_cost_key.
  cbn [prompt_base_cost completion_base_cost]. rewrite Hi, Ho. cbn [default price from_option Datatypes.id]. by rewrite Hno.
Qed.

Lemma plain_cost_split mi p c t tier :
  let b := _get_token_base_cost mi (mkUsage p c t None None) tier in
  (cost_of_usage mi (mkUsage p c t None None) tier).1 == inject_Z p * prompt_base_cost b ∧
  (cost_of_usage mi (mkUsage p c t None None) tier).2 == inject_Z c * completion_base_cost b.
Proof.
  cbn zeta. unfold cost_of_usage. set (b := _get_token_base_cost _ _ _). cbn [fst snd].
  assert (billed_prompt (mkUsage p c t None None) = mkPR 0 0 None p 0 0 0 0 0) as ->.
  { unfold billed_prompt, has_double_counting, total_details, set_text_tokens. cbn.
    destruct (p =? 0) eqn:E; cbn; [|done]. f_equal. lia. }
  change (billed_completion _) with (mkCR 0 c 0 0, true). unfold _calculate_input_cost, _calculate_output_cost, tokens_times.
  cbn [r_text_tokens r_cache_hit_tokens r_audio_tokens r_image_tokens r_cache_creation_tokens r_character_count r_image_count
       r_video_length_seconds r_cache_creation_token_details cr_text cr_audio cr_reasoning cr_image negb Z.eqb orb andb part].
  change (bool_decide (is_Some (None : option CacheCreationTokenDetails))) with false.
  change (Qeq_bool 0 0) with true. cbn [part negb]. change (inject_Z 0) with 0%Q. split; ring.
Qed.

(** Without batch prices, a batch costs half of what the same requests would
    cost one by one. *)
Theorem batch_is_half_price gmi glp mi pi po p c t model given_provider provider
    (Hm : plain_prices mi pi po) (Hg : glp model given_provider = Ok provider) :
  ∃ a b, batch_cost_calculator gmi glp (mkUsage p c t None None) model given_provider (Some mi) = Ok (a, b) ∧
    a == (cost_of_usage mi (mkUsage p c t None None) None).1 / 2 ∧
    b == (cost_of_usage mi (mkUsage p c t None None) None).2 / 2.
Proof.
  destruct (plain_base_cost mi pi po (mkUsage p c t None None) Hm) as [Hbi Hbo].
  destruct (plain_cost_split mi p c t None) as [Hci Hco]. destruct Hm as [Hi Ho Hni Hno _ Hbi' Hbo'].
  unfold batch_cost_calculator. rewrite Hg, Hbi', Hbo', Hi, Ho. unfold mbind, res_bind.
  cbn [default from_option Datatypes.id truthy py_times as_num]. rewrite Hni, Hno. cbn [negb].
  eexists _, _. split; [reflexivity|]. rewrite Hci, Hco, Hbi, Hbo.
  unfold get_billable_input_tokens, calculate_cost_component. cbn [prompt_tokens completion_tokens
    _parse_prompt_tokens_details prompt_tokens_details r_cache_hit_tokens]. rewrite Z.sub_0_r.
  change (Qle_bool (inject_Z 0) 0) with true. cbn iota. split; field.
Qed.

(** ** Usage of several calls *)

Definition details_field (f : PromptTokensDetails → option Z) (u : Usage) : Z :=
  match prompt_tokens_details u with Some d => default 0 (f d) | None => 0 end.

Definition zsum {A} (f : A → Z) (l : list A) : Z := foldr (λ x acc, f x + acc) 0 l.

Lemma foldl_adds {A} (f : A → Z) (add : A → A → A) l a :
  (∀ x y, f (add x y) = f x + f y) → f (foldl add a l) = f a + zsum f l.
Proof.
  intros H. revert a. induction l as [|x l IH]; intros a; cbn [foldl zsum foldr]; [lia|].
  fold (zsum f l). rewrite IH, H. lia.
Qed.

(** The fields that are added up with the prompt details. *)
Definition summed_fields : list (PromptTokensDetails → option Z) :=
  [cached_tokens; cache_creation_tokens; text_tokens; audio_tokens; image_tokens; character_count; image_count].

Lemma add_usage_field f x y :
  f ∈ summed_fields → details_field f (add_usage x y) = details_field f x + details_field f y.
Proof.
  intros Hf. unfold details_field, add_usage. cbn [prompt_tokens_details].
  destruct (prompt_tokens_details y) as [d|]; [|lia]. unfold add_prompt_details.
  unfold summed_fields in Hf. rewrite !elem_of_cons in Hf.
  destruct (prompt_tokens_details x) as [c|]; cbn [default from_option Datatypes.id];
    destruct_or! Hf; subst; cbn; unfold sum_present; repeat case_match; cbn; try lia; by apply elem_of_nil in Hf.
Qed.

(** Combining usage objects adds up their token counts and every prompt
    detail, in whatever order the details are present. *)
Theorem combined_usage_adds_up us f (Hf : f ∈ summed_fields) :
  prompt_tokens (combine_usage_objects us) = zsum prompt_tokens us ∧
  completion_tokens (combine_usage_objects us) = zsum completion_tokens us ∧
  total_tokens (combine_usage_objects us) = zsum total_tokens us ∧
  details_field f (combine_usage_objects us) = zsum (details_field f) us.
Proof.
  unfold combine_usage_objects. split_and!; rewrite (foldl_adds _ add_usage); try done.
  intros. by apply add_usage_field.
Qed.

(** The breakdown of the completion is lost: every field of the combined one is [None],
    whatever the parts report. *)
Theorem combined_completion_details_lost us :
  completion_tokens_details (combine_usage_objects us) = None ∨
  completion_tokens_details (combine_usage_objects us) = Some (mkCompletion None None None None).
Proof.
  unfold combine_usage_objects. set (u0 := mkUsage 0 0 0 None None).
  assert (completion_tokens_details u0 = None ∨ completion_tokens_details u0 = Some (mkCompletion None None None None))
    as Hu by by left.
  clearbody u0. revert u0 Hu. induction us as [|u us IH]; intros u0 Hu; cbn [foldl]; [done|]. apply IH.
  unfold add_usage. cbn [completion_tokens_details]. destruct (completion_tokens_details u) as [d|]; [right|done].
  by destruct Hu as [->| ->].
Qed.

Module Sample.
Definition table : dict :=
  [("input_cost_per_token", PFloat 2); ("input_cost_per_token_above_128k_tokens", PFloat 3);
   ("input_cost_per_token_above_200k_tokens", PFloat 4); ("output_cost_per_token", PFloat 10);
   ("cache_read_input_token_cost", PFloat 1)].

(** Cached tokens reported both on their own and as text. *)
Definition cached : Usage :=
  mkUsage 100 50 150 (Some (mkPrompt (Some 40) None None (Some 100) None None None None None)) None.

(** 60 text tokens at 2, 40 cached ones at 1, 50 completion tokens at 10. *)
Example cached_cost :
  has_double_counting cached (reported_prompt cached) = true ∧
  (cost_of_usage table cached None).1 == 160 ∧ (cost_of_usage table cached None).2 == 500.
Proof. vm_compute. split_and!; reflexivity. Qed.

Lemma prompt_tokens_billed_once_witness :
  ∃ text, (cost_of_usage table cached None).1 == inject_Z text * 2 + 40 ∧ text + 40 = 100.
Proof.
  destruct (prompt_tokens_billed_once table cached None) as (text & Hc & Ht & _).
  { split; try reflexivity; try (by vm_compute). by intros d q [= <-]. }
  exists text. split.
  - rewrite Hc. vm_compute (prompt_base_cost _). vm_compute (cache_read_cost _). vm_compute (cache_creation_cost _).
    vm_compute (cache_creation_cost_above_1hr _). vm_compute (unit_cost table _). vm_compute (cache_writes _).
    change (reported cached_tokens cached) with 40. change (reported audio_tokens cached) with 0.
    change (reported image_tokens cached) with 0. cbn [fst snd]. unfold inject_Z. ring.
  - apply Ht. right. split; reflexivity.
Defined.

Lemma table_nonneg : prices_nonneg table.
Proof.
  intros k v q Hin. unfold table in Hin. rewrite !elem_of_cons in Hin.
  destruct_or! Hin; simplify_eq; cbn; intros; simplify_eq; try discriminate. by apply elem_of_nil in Hin.
Qed.

Lemma cost_nonnegative_witness :
  (0 <= (cost_of_usage table cached None).1)%Q ∧ (0 <= (cost_of_usage table cached None).2)%Q.
Proof.
  apply cost_nonnegative; [exact table_nonneg| |vm_compute; discriminate].
  split; try (vm_compute; discriminate).
Defined.

Lemma completion_tokens_billed_once_witness :
  billed_output_tokens (billed_completion
    (mkUsage 5 100 105 None (Some (mkCompletion None (Some 30) (Some 20) None)))) = 100.
Proof.
  apply (completion_tokens_billed_once (mkUsage 5 100 105 None (Some (mkCompletion None (Some 30) (Some 20) None)))
           (mkCompletion None (Some 30) (Some 20) None)); [|by cbn].
  right. by split_and!.
Defined.

Lemma table_keys : threshold_keys table = ["input_cost_per_token_above_128k_tokens"; "input_cost_per_token_above_200k_tokens"].
Proof. reflexivity. Qed.

Lemma threshold_price_is_highest_witness :
  let u := mkUsage 250000 1 250001 None None in
  (∃ k q, k ∈ threshold_keys table ∧ passes table (prompt_tokens u) k q ∧
     (∀ k' q', k' ∈ threshold_keys table → passes table (prompt_tokens u) k' q' → (q' <= q)%Q) ∧
     _get_token_base_cost table u None = above_threshold table None k (standard_cost table None)) ∨
  (∀ k q, k ∈ threshold_keys table → ¬ passes table (prompt_tokens u) k q) ∧
    _get_token_base_cost table u None = standard_cost table None.
Proof.
  apply (threshold_price_is_highest table (mkUsage 250000 1 250001 None None) None).
  intros k k' q q'. rewrite table_keys, !elem_of_cons, !elem_of_nil. intros Hk Hk'.
  destruct_or! Hk; destruct_or! Hk'; subst; try done; vm_compute; intros [= <-] [= <-]; by discriminate || intros.
Defined.

Lemma combined_usage_adds_up_witness :
  details_field cached_tokens (combine_usage_objects [cached; cached]) = 80.
Proof. apply (combined_usage_adds_up [cached; cached] cached_tokens). unfold summed_fields. left. Defined.

Definition plain : dict := [("input_cost_per_token", PFloat 2); ("output_cost_per_token", PFloat 10)].

Lemma batch_is_half_price_witness :
  ∃ a b, batch_cost_calculator (λ _ _, Raise KeyError) (λ _ _, Ok "openai") (mkUsage 7 3 10 None None) "gpt" None (Some plain)
           = Ok (a, b) ∧
    a == (cost_of_usage plain (mkUsage 7 3 10 None None) None).1 / 2 ∧
    b == (cost_of_usage plain (mkUsage 7 3 10 None None) None).2 / 2.
Proof. apply (batch_is_half_price _ _ plain 2 10 7 3 10 "gpt" None "openai"); [by split|done]. Defined.
End Sample.
End CostCalc.
