(* ===== verification/UsageMap.v ===== *)
(** * UsageMap: what cost- and latency-based routing share

    [router_strategy/lowest_cost.py] and [router_strategy/lowest_latency.py] keep one
    dict per model group in the router's cache, with one dict per deployment and in it
    one dict per minute with the tokens and requests used.  All of them are changed in
    place.  Both strategies then judge every healthy deployment, drop those over their
    limits, and sort the rest by a number.  The lemmas say that what is left is exactly
    the healthy deployments within their limits, and that the first one after sorting has
    the least number. *)

From stdpp Require Import base gmap sets list strings.
From Stdlib Require Import ZArith QArith Lia ZifyBool.
From S2P Require Import Prelude Heapq PyHeapq InMemoryCache RedisCache DualCache Strategy LowestTpm.

#[local] Open Scope Z_scope.

Module UsageMap.
#[local] Abbreviation dict := (list (string * pyval)).

(** ** Nested dicts changed in place *)

(** [if k not in d: d[k] = {}]. *)
Definition ensure_dict (k : string) : M dict unit :=
  m_modify (λ d, if dmem k d then d else dset k (PDict []) d).

(** Statements on the dict [d[k]]; nothing else can be subscripted with a string. *)
Definition at_key {A} (k : string) (m : M dict A) : M dict A := λ d,
  match dget k d with
  | Some (PDict e) => let '(r, e') := m e in (r, dset k (PDict e') d)
  | _ => (Raise TypeError, d)
  end.

(** [d[k] = d.get(k, 0) + amount]. *)
Definition bump (k : string) (amount : pyval) : M dict unit :=
  d ← m_get;
  n ← m_lift (py_add (default (PInt 0) (dget k d)) amount);
  m_modify (dset k n).

(** The usage of a call in the entry of its deployment. *)
Definition count_usage (minute : string) (total_tokens : pyval) : M dict unit :=
  ensure_dict minute ;;
  at_key minute (bump "tpm" total_tokens ;; bump "rpm" (PInt 1)).

Lemma at_key_run {A} k (m : M dict A) d e r e' :
  dget k d = Some (PDict e) → m e = (r, e') → at_key k m d = (r, dset k (PDict e') d).
Proof. intros Hk Hm. unfold at_key. by rewrite Hk, Hm. Qed.

Section cached.
Context `{PyRuntime} {R : Type} `{RedisCacheI R}.

Definition map_key (model_group : pyval) : string := py_str model_group +:+ "_map".

(** Statements on the dict [d] that [get_counts] returned for [key]: their effects are
    those on the cached object, also when one of them raises. *)
Definition in_place {A} (key : string) (d : dict) (m : M dict A) : M (DualCache.t R) (A * dict) :=
  let '(r, d') := m d in
  write_back key d' ;;
  match r with Ok a => mret (a, d') | Raise e => m_raise e end.

Lemma in_place_run {A} key d (m : M dict A) a d' c c' :
  m d = (Ok a, d') → write_back key d' c = (Ok (), c') → in_place key d m c = (Ok (a, d'), c').
Proof. intros Em Ew. unfold in_place. rewrite Em. by rewrite (m_bind_run _ _ _ _ _ Ew). Qed.
End cached.

(** ** Judging the deployments *)

(** Healthy deployments that were not used yet. *)
Definition fill_new (fresh : pyval) (healthy : list pyval) : M dict unit :=
  m_iter (λ m, id ← m_lift (dep_id m); m_modify (λ d, if dmem id d then d else dset id fresh d)) healthy.

(** [d.get(k) or d["litellm_params"].get(k) or d["model_info"].get(k) or inf]; [PNone]
    stands for infinity. *)
Definition limit_or (m : pyval) (what : string) : res pyval :=
  v ← py_get m what;
  if truthy v then Ok v else
  params ← py_get_or m "litellm_params" (PDict []);
  v ← py_get params what;
  if truthy v then Ok v else
  info ← py_get_or m "model_info" (PDict []);
  v ← py_get info what;
  Ok (if truthy v then v else PNone).

(** [item_map.get(minute, {}).get(what, 0)]. *)
Definition used_in (item_map : pyval) (minute what : string) : res pyval :=
  e ← py_get_or item_map minute (PDict []);
  py_get_or e what (PInt 0).

(** [item_tpm + input_tokens > tpm or item_rpm + 1 > rpm]. *)
Definition over_limits (item_tpm item_rpm tpm rpm : pyval) (input_tokens : Z) : res bool :=
  t ← py_add item_tpm (PInt input_tokens);
  over ← LowestTpm.exceeds t tpm;
  if over : bool then Ok true else
  r ← py_add item_rpm (PInt 1);
  LowestTpm.exceeds r rpm.

(** Every item with a healthy deployment, its number and whether it is within its
    limits, in the order of the items. *)
Fixpoint evaluate (judge : pyval → pyval → res (pyval * bool)) (healthy : list pyval) (items : dict)
    : res (list (pyval * pyval * bool)) :=
  match items with
  | [] => Ok []
  | (item, item_map) :: rest =>
      found ← LowestTpm.find_last healthy item None;
      match found with
      | None => evaluate judge healthy rest
      | Some m =>
          '(metric, ok) ← judge item_map m;
          l ← evaluate judge healthy rest;
          Ok ((m, metric, ok) :: l)
      end
  end.

Definition potential (l : list (pyval * pyval * bool)) : list (pyval * pyval) :=
  omap (λ x, if x.2 : bool then Some x.1 else None) l.

(** [sorted(l, key=lambda x: x[1])]: stable. *)
Fixpoint insert_by (x : pyval * pyval) (l : list (pyval * pyval)) : res (list (pyval * pyval)) :=
  match l with
  | [] => Ok [x]
  | y :: l' =>
      less ← py_lt x.2 y.2;
      if less : bool then Ok (x :: l) else l'' ← insert_by x l'; Ok (y :: l'')
  end.
Fixpoint sort_onto (acc l : list (pyval * pyval)) : res (list (pyval * pyval)) :=
  match l with
  | [] => Ok acc
  | x :: l' => acc' ← insert_by x acc; sort_onto acc' l'
  end.
Definition sorted_by (l : list (pyval * pyval)) : res (list (pyval * pyval)) := sort_onto [] l.

(** ** Lemmas *)

Definition numeric (p : pyval * pyval) : Prop := is_Some (as_num p.2).

Lemma lt_num_ok v w :
  is_Some (as_num v) → is_Some (as_num w) → py_lt v w = Ok (negb (Qle_bool (num w) (num v))).
Proof. unfold num. destruct v, w; intros [? ?] [? ?]; simplify_eq/=; done. Qed.

(** Ascending by the number. *)
Inductive ascending : list (pyval * pyval) → Prop :=
| asc_nil : ascending []
| asc_cons x l : (∀ y, y ∈ l → (num x.2 <= num y.2)%Q) → ascending l → ascending (x :: l).

Lemma insert_by_spec x l :
  numeric x → Forall numeric l → ascending l →
  ∃ l', insert_by x l = Ok l' ∧ l' ≡ₚ x :: l ∧ ascending l'.
Proof.
  intros Hx Hl Ha. induction Ha as [|y l Hy Ha IH]; cbn [insert_by].
  { exists [x]. split_and!; [done..|]. constructor; [by intros ? ?%elem_of_nil|constructor]. }
  apply Forall_cons in Hl as [Hny Hl]. rewrite (lt_num_ok _ _ Hx Hny). cbn [mbind res_bind].
  destruct (Qle_bool (num y.2) (num x.2)) eqn:E; cbn [negb].
  - destruct (IH Hl) as (l' & -> & Hp & Ha'). cbn [mbind res_bind]. exists (y :: l'). split_and!; [done| |].
    + rewrite Hp. apply perm_swap.
    + constructor; [|done]. intros z Hz. rewrite Hp in Hz. apply elem_of_cons in Hz as [->|Hz]; [|by apply Hy].
      by apply Qle_bool_iff.
  - assert (num x.2 <= num y.2)%Q as Hle.
    { apply Qnot_lt_le. intros Hlt%Qlt_le_weak%Qle_bool_iff. congruence. }
    exists (x :: y :: l). split_and!; [done..|]. constructor; [|by constructor].
    intros z [->|Hz]%elem_of_cons; [done|]. eapply Qle_trans; [exact Hle|by apply Hy].
Qed.

Lemma sorted_by_spec l :
  Forall numeric l → ∃ l', sorted_by l = Ok l' ∧ l' ≡ₚ l ∧ ascending l'.
Proof.
  unfold sorted_by. intros Hl. assert (∀ acc, Forall numeric acc → ascending acc →
    ∃ l', sort_onto acc l = Ok l' ∧ l' ≡ₚ acc ++ l ∧ ascending l') as H.
  { induction Hl as [|x l Hx Hl IH]; intros acc Hn Ha; cbn [sort_onto].
    { exists acc. by rewrite app_nil_r. }
    destruct (insert_by_spec x acc Hx Hn Ha) as (acc' & -> & Hp & Ha'). cbn [mbind res_bind].
    destruct (IH acc') as (l' & -> & Hp' & Ha''); [rewrite Hp; by constructor|done|].
    exists l'. split_and!; [done| |done]. rewrite Hp', Hp. simpl. by rewrite <-Permutation_middle. }
  apply (H []); constructor.
Qed.

(** Deployments whose ids can be read, no two of them with the same id. *)
Record distinct_ids (healthy : list pyval) : Prop := {
  di_ok : Forall (λ m, is_ok (dep_id m) = true) healthy;
  di_unique m m' id : m ∈ healthy → m' ∈ healthy → dep_id m = Ok id → dep_id m' = Ok id → m = m'
}.

Lemma di_id healthy m : distinct_ids healthy → m ∈ healthy → ∃ id, dep_id m = Ok id.
Proof.
  intros [Hok _] Hm. apply (proj1 (Forall_forall _ _) Hok) in Hm. destruct (dep_id m) as [id|]; [eauto|done].
Qed.

Lemma find_last_found healthy id :
  Forall (λ m, is_ok (dep_id m) = true) healthy →
  ∃ o, LowestTpm.find_last healthy id None = Ok o ∧
    match o with
    | Some m => m ∈ healthy ∧ dep_id m = Ok id
    | None => ∀ m, m ∈ healthy → dep_id m ≠ Ok id
    end.
Proof.
  intros Hok. assert (∀ acc, ∃ o, LowestTpm.find_last healthy id acc = Ok o ∧
    match o with
    | Some m => m ∈ healthy ∧ dep_id m = Ok id ∨ acc = Some m
    | None => acc = None ∧ ∀ m, m ∈ healthy → dep_id m ≠ Ok id
    end) as H.
  { induction Hok as [|m l Hm Hl IH]; intros acc; cbn [LowestTpm.find_last].
    { exists acc. split; [done|]. destruct acc; [by right|]. split; [done|]. by intros ? ?%elem_of_nil. }
    destruct (dep_id m) as [k|] eqn:Ek; [|done]. cbn [mbind res_bind].
    destruct (IH (if String.eqb id k then Some m else acc)) as (o & -> & Ho). exists o. split; [done|].
    destruct o as [m'|].
    - destruct Ho as [[? ?]|Ho]; [left; split; [by right|done]|].
      destruct (String.eqb_spec id k) as [->|]; [|by right]. simplify_eq. left. split; [left|done].
    - destruct Ho as [Ho Hno]. destruct (String.eqb_spec id k) as [->|Hne]; [done|]. split; [done|].
      intros m' [->|Hin]%elem_of_cons; [congruence|by apply Hno]. }
  destruct (H None) as (o & Eo & Ho). exists o. split; [done|]. destruct o as [m|].
  - by destruct Ho as [Ho|Ho].
  - apply Ho.
Qed.

(** Judging a healthy deployment by its entry. *)
Definition judged (judge : pyval → pyval → res (pyval * bool)) (items : dict) (m x : pyval) (b : bool) : Prop :=
  ∃ id e, dep_id m = Ok id ∧ dget id items = Some e ∧ judge e m = Ok (x, b).

Lemma evaluate_spec judge healthy items :
  distinct_ids healthy → dict_wf items →
  (∀ m id e, m ∈ healthy → dep_id m = Ok id → dget id items = Some e → ∃ x b, judge e m = Ok (x, b)) →
  ∃ l, evaluate judge healthy items = Ok l ∧ ∀ m x b, (m, x, b) ∈ l ↔ m ∈ healthy ∧ judged judge items m x b.
Proof.
  intros Hd Hwf Hj. assert (∀ rest, (∀ k e, (k, e) ∈ rest → dget k items = Some e) →
    ∃ l, evaluate judge healthy rest = Ok l ∧
      ∀ m x b, (m, x, b) ∈ l ↔ m ∈ healthy ∧ ∃ id e, dep_id m = Ok id ∧ (id, e) ∈ rest ∧ judge e m = Ok (x, b)) as H.
  { induction rest as [|[k e] rest IH]; intros Hin; cbn [evaluate].
    { exists []. split; [done|]. intros m x b. rewrite elem_of_nil. split; [done|].
      by intros (_ & ? & ? & _ & ?%elem_of_nil & _). }
    destruct IH as (l & El & Hl). { intros k' e' ?. apply Hin. by right. }
    destruct (find_last_found healthy k (di_ok _ Hd)) as (o & -> & Ho). cbn [mbind res_bind].
    destruct o as [m0|].
    - destruct Ho as [Hm0 Hid0]. destruct (Hj m0 k e Hm0 Hid0) as (x0 & b0 & Ej); [apply Hin; by left|].
      rewrite Ej, El. cbn [mbind res_bind]. exists ((m0, x0, b0) :: l). split; [done|]. intros m x b.
      rewrite elem_of_cons, Hl. split.
      + intros [?|(Hm & id & e' & H1 & H2 & H3)]; simplify_eq.
        * split; [done|]. exists k, e. split_and!; [done|by left|done].
        * split; [done|]. exists id, e'. split_and!; [done|by right|done].
      + intros (Hm & id & e' & H1 & [?|H2]%elem_of_cons & H3); simplify_eq.
        * left. assert (m = m0) as -> by (by eapply (di_unique _ Hd)). congruence.
        * right. eauto 10.
    - exists l. split; [done|]. intros m x b. rewrite Hl. split.
      + intros (Hm & id & e' & H1 & H2 & H3). split; [done|]. exists id, e'. split_and!; [done|by right|done].
      + intros (Hm & id & e' & H1 & [?|H2]%elem_of_cons & H3); simplify_eq; [by destruct (Ho m Hm)|eauto 10]. }
  destruct (H items) as (l & El & Hl); [intros; by apply dget_in|]. exists l. split; [done|].
  intros m x b. rewrite Hl. unfold judged. split; intros (Hm & id & e & H1 & H2 & H3); split; try done;
    exists id, e; split_and!; try done; [by apply dget_in|by apply dget_Some_in].
Qed.

Lemma potential_spec l m x : (m, x) ∈ potential l ↔ (m, x, true) ∈ l.
Proof.
  unfold potential. rewrite list_elem_of_omap. split.
  - intros ([[m' x'] b] & Hin & E). destruct b; by simplify_eq/=.
  - intros Hin. by exists (m, x, true).
Qed.

(** What sorting the deployments within their limits gives. *)
Lemma potential_sorted judge healthy items :
  distinct_ids healthy → dict_wf items →
  (∀ m id e, m ∈ healthy → dep_id m = Ok id → dget id items = Some e →
     ∃ x b, judge e m = Ok (x, b) ∧ is_Some (as_num x)) →
  ∃ l l', evaluate judge healthy items = Ok l ∧ sorted_by (potential l) = Ok l' ∧ potential l ≡ₚ l' ∧ ascending l' ∧
    Forall numeric l' ∧ ∀ m x, (m, x) ∈ l' ↔ m ∈ healthy ∧ judged judge items m x true.
Proof.
  intros Hd Hwf Hj. destruct (evaluate_spec judge healthy items Hd Hwf) as (l & El & Hl).
  { intros m id e Hm Hid He. destruct (Hj m id e Hm Hid He) as (x & b & ? & _). eauto. }
  assert (Forall numeric (potential l)) as Hn.
  { apply Forall_forall. intros [m x] Hin. apply potential_spec, Hl in Hin as (Hm & id & e & H1 & H2 & H3).
    destruct (Hj m id e Hm H1 H2) as (x' & b & E & ?). unfold numeric. cbn. congruence. }
  destruct (sorted_by_spec (potential l) Hn) as (l' & Es & Hp & Ha). exists l, l'. split_and!; try done.
  - by rewrite Hp.
  - intros m x. by rewrite Hp, potential_spec, Hl.
Qed.

(** ** Filling in unused deployments *)

Lemma fill_new_spec fresh healthy d :
  Forall (λ m, is_ok (dep_id m) = true) healthy → dict_wf d →
  ∃ d', fill_new fresh healthy d = (Ok (), d') ∧ dict_wf d' ∧
    (∀ m id, m ∈ healthy → dep_id m = Ok id → dget id d' = Some (default fresh (dget id d))) ∧
    (∀ id e, dget id d = Some e → dget id d' = Some e) ∧
    (length d' ≤ length d + length healthy)%nat ∧ (d' = [] → healthy = []).
Proof.
  intros Hok. revert d. induction Hok as [|m l Hm Hl IH]; intros d Hwf; cbn [fill_new m_iter].
  { exists d. split_and!; try done; [|simpl; lia]. by intros ? ? ?%elem_of_nil. }
  destruct (dep_id m) as [k|] eqn:Ek; [|done]. unfold mbind, M_bind, m_lift, m_modify.
  set (d1 := if dmem k d then d else dset k fresh d).
  assert (dget k d1 = Some (default fresh (dget k d))) as Hk.
  { unfold d1, dmem. destruct (dget k d) as [e|] eqn:E; [done|]. by rewrite dget_dset_eq. }
  assert (∀ id e, dget id d = Some e → dget id d1 = Some e) as Hkeep.
  { intros id e He. unfold d1, dmem. destruct (dget k d) as [e'|] eqn:E; [done|].
    rewrite dget_dset_ne; [done|]. intros ->. congruence. }
  assert (∀ id, id ≠ k → dget id d1 = dget id d) as Hother.
  { intros id Hne. unfold d1. destruct (dmem k d); [done|]. by rewrite dget_dset_ne by congruence. }
  destruct (IH d1) as (d' & E & Hw & H1 & H2 & H3 & H4).
  { unfold d1. destruct (dmem k d); [done|by apply dset_wf]. }
  exists d'. split_and!; [exact E|done| | | |].
  - intros m' id [->|Hin]%elem_of_cons Hid.
    + replace id with k by congruence. by apply H2.
    + destruct (decide (id = k)) as [->|Hne]; [by apply H2|]. rewrite (H1 m' id Hin Hid). by rewrite Hother.
  - intros id e He. by apply H2, Hkeep.
  - assert (length d1 ≤ S (length d))%nat by (unfold d1; destruct (dmem k d) eqn:Em; [lia|]; rewrite length_dset, Em; lia).
    cbn [length]. lia.
  - intros ->. by specialize (H2 _ _ Hk).
Qed.

(** ** Usage of a minute *)

Definition usage (d : dict) (id minute what : string) : Z :=
  match dget id d with
  | Some (PDict e) => match dget minute e with Some (PDict u) => count_of u what | _ => 0 end
  | _ => 0
  end.

(** Entries whose minutes count integers. *)
Definition counting (minute : string) (e : dict) : Prop :=
  match dget minute e with
  | Some (PDict u) => ∀ k v, dget k u = Some v → ∃ n, v = PInt n
  | Some _ => False
  | None => True
  end.

Lemma bump_int k n u :
  (∀ k v, dget k u = Some v → ∃ n, v = PInt n) →
  bump k (PInt n) u = (Ok (), dset k (PInt (count_of u k + n)) u) ∧
  (∀ k' v, dget k' (dset k (PInt (count_of u k + n)) u) = Some v → ∃ n, v = PInt n).
Proof.
  intros Hu. split.
  - unfold bump, mbind, M_bind, m_get, m_lift, m_modify, count_of. destruct (dget k u) as [v|] eqn:E; [|done].
    destruct (Hu _ _ E) as [z ->]. done.
  - intros k' v. rewrite dget_dset. destruct (String.eqb_spec k k'); [intros [= <-]; eauto|apply Hu].
Qed.

(** Counting a call changes only the minute's counters of its entry. *)
Lemma count_usage_int minute n e :
  counting minute e →
  ∃ e', count_usage minute (PInt n) e = (Ok (), e') ∧ counting minute e' ∧
    (∀ k, k ≠ minute → dget k e' = dget k e) ∧
    ∃ u', dget minute e' = Some (PDict u') ∧
      let u := match dget minute e with Some (PDict u) => u | _ => [] end in
      count_of u' "tpm" = count_of u "tpm" + n ∧ count_of u' "rpm" = count_of u "rpm" + 1.
Proof.
  intros Hc. set (u := match dget minute e with Some (PDict u) => u | _ => [] end).
  assert (∀ k v, dget k u = Some v → ∃ n, v = PInt n) as Hu.
  { unfold u, counting in *. by destruct (dget minute e) as [[]|]. }
  set (e1 := if dmem minute e then e else dset minute (PDict []) e).
  assert (dget minute e1 = Some (PDict u)) as Hm.
  { unfold e1, dmem, u, counting in *. destruct (dget minute e) as [v|] eqn:E; [by destruct v|]. by rewrite dget_dset_eq. }
  destruct (bump_int "tpm" n u Hu) as [E1 Hu1]. set (u1 := dset "tpm" _ u) in *.
  destruct (bump_int "rpm" 1 u1 Hu1) as [E2 Hu2]. set (u2 := dset "rpm" _ u1) in *.
  exists (dset minute (PDict u2) e1). split_and!.
  - unfold count_usage, ensure_dict, m_modify. rewrite (m_bind_run _ _ _ () e1) by done.
    apply (at_key_run _ _ _ _ _ _ Hm). by rewrite (m_bind_run _ _ _ _ _ E1).
  - unfold counting. by rewrite dget_dset_eq.
  - intros k Hk. rewrite dget_dset_ne by congruence. unfold e1. destruct (dmem minute e); [done|].
    by rewrite dget_dset_ne by congruence.
  - exists u2. rewrite dget_dset_eq. split; [done|]. cbn zeta. unfold u2, u1, count_of. rewrite !dget_dset.
    split; done.
Qed.

(** ** Limits *)

(** After [tpm] tokens and [rpm] requests one more request of [input] tokens stays within
    the limits; [None] is no limit. *)
Definition fits_limits (tpm_limit rpm_limit : option Z) (tpm rpm input : Z) : bool :=
  match tpm_limit with Some z => tpm + input <=? z | None => true end
  && match rpm_limit with Some z => rpm + 1 <=? z | None => true end.

Lemma exceeds_int n v l :
  LowestTpm.opt_limit v = Some l →
  LowestTpm.exceeds (PInt n) v = Ok (negb match l with Some z => n <=? z | None => true end).
Proof.
  unfold LowestTpm.exceeds. destruct v; intros [= <-].
  - done.
  - cbn [is_none]. rewrite py_lt_int. f_equal. lia.
Qed.

Lemma over_limits_int t r a b x y input :
  LowestTpm.opt_limit a = Some x → LowestTpm.opt_limit b = Some y →
  over_limits (PInt t) (PInt r) a b input = Ok (negb (fits_limits x y t r input)).
Proof.
  intros Ha Hb. unfold over_limits, fits_limits. cbn [py_add as_int]. unfold mbind, res_bind.
  rewrite (exceeds_int _ _ _ Ha), (exceeds_int _ _ _ Hb).
  by destruct (match x with Some _ => _ | None => true end), (match y with Some _ => _ | None => true end).
Qed.

(** An entry is a dict whose minutes count integers. *)
Definition counts_minute (minute : string) (e : pyval) : Prop := ∃ e', e = PDict e' ∧ counting minute e'.

Definition entry_usage (e : pyval) (minute what : string) : Z :=
  match e with
  | PDict e => match dget minute e with Some (PDict u) => count_of u what | _ => 0 end
  | _ => 0
  end.

Lemma used_in_int e minute what : counts_minute minute e → used_in e minute what = Ok (PInt (entry_usage e minute what)).
Proof.
  intros (e' & -> & Hc). unfold used_in, entry_usage, counting, count_of in *. unfold mbind, res_bind.
  cbn [py_get_or]. destruct (dget minute e') as [v|]; [|done]. destruct v as [| | | | | | | |u|]; try done. cbn. destruct (dget what u) as [v|] eqn:E; [|done]. destruct (Hc _ _ E) as [n ->]. done.
Qed.

Definition counted (d : dict) (minute : string) : Prop := ∀ id e, dget id d = Some e → counts_minute minute e.

Lemma usage_default fresh d id minute what :
  (∀ w, entry_usage fresh minute w = 0) →
  usage d id minute what = entry_usage (default fresh (dget id d)) minute what.
Proof. intros Hf. unfold usage, entry_usage. destruct (dget id d) as [e|]; [by destruct e|]. symmetry. apply Hf. Qed.
End UsageMap.
