(* ===== verification/LowestCost.v ===== *)
(** * LowestCost: [router_strategy/lowest_cost.py]

    Cost-based routing: of the healthy deployments within their limits the one with the
    lowest price per token is picked.  [model_cost], the price table loaded at run time,
    is a parameter; the minute stamp ([strftime]) and the number of input tokens
    ([token_counter], 0 when it raises) are arguments.

    Theorems: the counters of a minute add up, the pick is the cheapest deployment that
    one more request keeps within its limits, and where the code departs from that:
    calls without completion tokens are not counted, and a price or a limit of 0 is taken
    for a missing one. *)

From stdpp Require Import base gmap sets list strings.
From Stdlib Require Import ZArith QArith Lia ZifyBool.
From S2P Require Import Prelude Heapq PyHeapq InMemoryCache RedisCache DualCache Strategy LowestTpm UsageMap.

#[local] Open Scope Z_scope.

Module LowestCost.
Import UsageMap.
#[local] Abbreviation dict := (list (string * pyval)).

Record t (R : Type) := mk {
  router_cache : DualCache.t R;
  test_flag : bool;
  logged_success : Z
}.
Arguments mk {R}. Arguments router_cache {R}. Arguments test_flag {R}. Arguments logged_success {R}.

Section ops.
Context `{PyRuntime} {R : Type} `{RedisCacheI R}.
(** [litellm.model_cost]. *)
Variable model_cost : dict.

Definition init (c : DualCache.t R) : t R := mk c false 0.

Definition set_cache_field (c : DualCache.t R) (h : t R) : t R := mk c (test_flag h) (logged_success h).
Definition on_cache {A} (m : M (DualCache.t R) A) : M (t R) A := m_zoom router_cache set_cache_field m.

Definition count_success : M (t R) unit :=
  m_modify (λ h, if test_flag h then mk (router_cache h) (test_flag h) (logged_success h + 1) else h).

(** The completion and total tokens of a [ModelResponse] with a [Usage]; for any other
    response nothing is counted but the request.  The quotient is not used, but it is
    computed. *)
Definition response_tokens (response_obj : option (Z * Z)) : res Z :=
  match response_obj with
  | Some (completion_tokens, total_tokens) =>
      if completion_tokens =? 0 then Raise ZeroDivisionError else Ok total_tokens
  | None => Ok 0
  end.

Definition log_event (getter : Z → string → M (DualCache.t R) pyval)
    (setter : Z → string → pyval → ttl_kw → M (DualCache.t R) unit)
    (now : Z) (minute : string) (kwargs : pyval) (response_obj : option (Z * Z)) : M (t R) unit :=
  m_try
    (target ← m_lift (call_target kwargs);
     match target with
     | None => mret ()
     | Some (model_group, id) =>
         let cost_key := map_key model_group in
         total_tokens ← m_lift (response_tokens response_obj);
         request_count_dict ← on_cache (get_counts (getter now cost_key));
         changed ← on_cache (in_place cost_key request_count_dict
                               (ensure_dict id ;; at_key id (count_usage minute (PInt total_tokens))));
         on_cache (setter now cost_key (PDict changed.2) None) ;;
         count_success
     end)
    (λ _, mret ()).

Definition log_success_event := log_event LowestTpm.sync_get LowestTpm.sync_set.
Definition async_log_success_event := log_event LowestTpm.async_get LowestTpm.async_set.

(** ** The pick *)

(** [litellm.model_cost.get(name, {})]. *)
Definition cost_map (name : pyval) : res pyval :=
  match name with
  | PStr s => Ok (default (PDict []) (dget s model_cost))
  | _ => if hashable name then Ok (PDict []) else Raise TypeError
  end.

(** A price of the deployment, else of the table, else 5. *)
Definition item_price (params costs : pyval) (what : string) : res pyval :=
  v ← py_get params what;
  if truthy v then Ok v else py_get_or costs what (PFloat 5).

Definition item_cost (m : pyval) : res pyval :=
  params ← py_get_or m "litellm_params" (PDict []);
  name ← py_get params "model";
  costs ← cost_map name;
  i ← item_price params costs "input_cost_per_token";
  o ← item_price params costs "output_cost_per_token";
  py_add i o.

(** The debug output is keyed by the [api_base]. *)
Definition debug_key (m : pyval) : res pyval :=
  params ← py_get_or m "litellm_params" (PDict []);
  base ← py_get_or params "api_base" (PStr "");
  if hashable base then Ok base else Raise TypeError.

Definition judge (minute : string) (input_tokens : Z) (item_map m : pyval) : res (pyval * bool) :=
  tpm ← limit_or m "tpm";
  rpm ← limit_or m "rpm";
  cost ← item_cost m;
  item_rpm ← used_in item_map minute "rpm";
  item_tpm ← used_in item_map minute "tpm";
  _ ← debug_key m;
  over ← over_limits item_tpm item_rpm tpm rpm input_tokens;
  Ok (cost, negb over).

(** The entry of a deployment that was not used yet. *)
Definition fresh (minute : string) : pyval := PDict [(minute, PDict [("tpm", PInt 0); ("rpm", PInt 0)])].

Definition async_get_available_deployments (now : Z) (minute model_group : string) (healthy_deployments : list pyval)
    (input_tokens : Z) : M (t R) (option pyval) :=
  let cost_key := map_key (PStr model_group) in
  request_count_dict ← on_cache (get_counts (LowestTpm.async_get now cost_key));
  all_deployments ← on_cache (in_place cost_key request_count_dict (fill_new (fresh minute) healthy_deployments));
  judged ← m_lift (evaluate (judge minute input_tokens) healthy_deployments all_deployments.2);
  match potential judged with
  | [] => mret None
  | potential_deployments =>
      sorted ← m_lift (sorted_by potential_deployments);
      mret (fst <$> head sorted)
  end.
End ops.

(** ** What the pick reads of a deployment *)

(** Its id, its two limits ([None] is no limit) and its price. *)
Record offer := mkOffer { o_id : string; o_tpm : option Z; o_rpm : option Z; o_price : Q }.

Definition offer_of (model_cost : dict) (m : pyval) : option offer :=
  match dep_id m, limit_or m "tpm", limit_or m "rpm", item_cost model_cost m, debug_key m with
  | Ok id, Ok a, Ok b, Ok c, Ok _ =>
      match LowestTpm.opt_limit a, LowestTpm.opt_limit b, as_num c with
      | Some x, Some y, Some q => Some (mkOffer id x y q)
      | _, _, _ => None
      end
  | _, _, _, _, _ => None
  end.

(** One more request of [input] tokens after [tpm] tokens and [rpm] requests. *)
Definition within (o : offer) (tpm rpm input : Z) : bool :=
  fits_limits (o_tpm o) (o_rpm o) tpm rpm input.

Lemma offer_id mc m o : offer_of mc m = Some o → dep_id m = Ok (o_id o).
Proof. unfold offer_of. intros E. repeat case_match; simplify_eq/=; congruence. Qed.

Lemma judge_offer mc minute input e m o :
  offer_of mc m = Some o → counts_minute minute e →
  ∃ x, judge mc minute input e m = Ok (x, within o (entry_usage e minute "tpm") (entry_usage e minute "rpm") input) ∧
    as_num x = Some (o_price o).
Proof.
  intros Ho Hc. unfold offer_of in Ho. unfold judge.
  destruct (dep_id m) as [id|]; [|done]. destruct (limit_or m "tpm") as [a|]; [|done].
  destruct (limit_or m "rpm") as [b|]; [|done]. destruct (item_cost mc m) as [c|]; [|done].
  destruct (debug_key m) as [k|]; [|done].
  destruct (LowestTpm.opt_limit a) as [x|] eqn:Ea; [|done]. destruct (LowestTpm.opt_limit b) as [y|] eqn:Eb; [|done].
  destruct (as_num c) as [q|] eqn:Ec; [|done]. simplify_eq Ho. intros <-.
  rewrite !(used_in_int _ _ _ Hc). unfold mbind, res_bind. rewrite (over_limits_int _ _ _ _ _ _ _ Ea Eb).
  exists c. split; [|done]. unfold within. cbn [o_tpm o_rpm]. by rewrite negb_involutive.
Qed.

(** ** The cheapest one *)

(** The usage recorded in [d] keeps one more request within the limits. *)
Definition affordable (mc : dict) (d : dict) (minute : string) (input : Z) (m : pyval) : bool :=
  match offer_of mc m with
  | Some o => within o (usage d (o_id o) minute "tpm") (usage d (o_id o) minute "rpm") input
  | None => false
  end.

Lemma fresh_usage minute what : entry_usage (fresh minute) minute what = 0.
Proof.
  unfold entry_usage, fresh. cbn [dget]. rewrite String.eqb_refl. unfold count_of. cbn [dget].
  by destruct (String.eqb what "tpm"), (String.eqb what "rpm").
Qed.

Lemma fresh_counts minute : counts_minute minute (fresh minute).
Proof.
  eexists. split; [done|]. unfold counting. cbn [dget]. rewrite String.eqb_refl. intros k v. cbn [dget].
  destruct (String.eqb k "tpm"); [intros [= <-]; eauto|]. destruct (String.eqb k "rpm"); [intros [= <-]; eauto|done].
Qed.

Section pick.
Context `{PyRuntime} {R : Type} `{RedisCacheI R}.
Variable mc : dict.

(** The deployments that are judged and sorted are the healthy ones. *)
Lemma pick_from d minute input healthy :
  dict_wf d → counted d minute → distinct_ids healthy → Forall (λ m, is_Some (offer_of mc m)) healthy →
  ∃ d' l, fill_new (fresh minute) healthy d = (Ok (), d') ∧ (d' = [] → healthy = []) ∧
    evaluate (judge mc minute input) healthy d' = Ok l ∧
    match potential l with
    | [] => ∀ m, m ∈ healthy → affordable mc d minute input m = false
    | p => ∃ m x p', sorted_by p = Ok ((m, x) :: p') ∧ m ∈ healthy ∧ affordable mc d minute input m = true ∧
        ∀ m' o o', m' ∈ healthy → affordable mc d minute input m' = true → offer_of mc m = Some o →
          offer_of mc m' = Some o' → (o_price o <= o_price o')%Q
    end.
Proof.
  intros Hwf Hc Hd Ho. destruct (fill_new_spec (fresh minute) healthy d (di_ok _ Hd) Hwf) as (d' & Ef & Hwf' & Hg & _ & _ & Hnil).
  assert (∀ id, counts_minute minute (default (fresh minute) (dget id d))) as Hcount.
  { intros id. destruct (dget id d) as [e|] eqn:E; [by apply (Hc id)|apply fresh_counts]. }
  assert (∀ m id e, m ∈ healthy → dep_id m = Ok id → dget id d' = Some e →
    ∃ o x, offer_of mc m = Some o ∧ judge mc minute input e m = Ok (x, affordable mc d minute input m) ∧
      as_num x = Some (o_price o)) as Hj.
  { intros m id e Hm Hid He. destruct (proj1 (Forall_forall _ _) Ho m Hm) as [o Eo].
    rewrite (Hg m id Hm Hid) in He. simplify_eq He. intros <-.
    destruct (judge_offer mc minute input _ m o Eo (Hcount id)) as (x & Ex & Hx). exists o, x. split_and!; [done| |done].
    rewrite Ex. unfold affordable. rewrite Eo, !(usage_default (fresh minute)) by apply fresh_usage.
    pose proof (offer_id _ _ _ Eo) as Hid'. replace (o_id o) with id by congruence. done. }
  destruct (potential_sorted (judge mc minute input) healthy d' Hd Hwf') as (l & l' & El & Es & Hp & Ha & _ & Hin).
  { intros m id e Hm Hid He. destruct (Hj m id e Hm Hid He) as (o & x & _ & E & ?). eauto. }
  exists d', l. split_and!; [done..|].
  assert (∀ m, m ∈ healthy → affordable mc d minute input m = true → ∃ x, (m, x) ∈ l') as Hall.
  { intros m Hm Hok. destruct (di_id _ _ Hd Hm) as [id Hid]. pose proof (Hg m id Hm Hid) as He.
    destruct (Hj m id _ Hm Hid He) as (o & x & _ & E & _). exists x. apply Hin. split; [done|].
    exists id, (default (fresh minute) (dget id d)). by rewrite Hok in E. }
  assert (∀ m x, (m, x) ∈ l' → m ∈ healthy ∧ affordable mc d minute input m = true ∧
            ∀ o, offer_of mc m = Some o → as_num x = Some (o_price o)) as Hsome.
  { intros m x [Hm (id & e & Hid & He & E)]%Hin. destruct (Hj m id e Hm Hid He) as (o & x' & Eo & E' & Hx).
    split_and!; [done|congruence|]. intros o' Eo'. replace o' with o by congruence. by replace x with x' by congruence. }
  destruct (potential l) as [|p0 p] eqn:Ep.
  { intros m Hm. apply not_true_iff_false. intros Hok. destruct (Hall m Hm Hok) as [x Hx]. rewrite <-Hp in Hx.
    by apply elem_of_nil in Hx. }
  destruct Ha as [|[m x] p' Hmin Ha]. { by apply Permutation_nil_r in Hp. }
  destruct (Hsome m x) as (Hm & Hok & Hx); [left|]. exists m, x, p'. split_and!; [done..|].
  intros m' o o' Hm' Hok' Eo Eo'. destruct (Hall m' Hm' Hok') as [x' Hx'].
  destruct (Hsome m' x' Hx') as (_ & _ & Hn). specialize (Hx _ Eo). specialize (Hn _ Eo').
  apply elem_of_cons in Hx' as [E|Hx'].
  - simplify_eq E. intros -> ->. simplify_eq. apply Qle_refl.
  - specialize (Hmin _ Hx'). unfold num in Hmin. cbn [snd] in Hmin. by rewrite Hx, Hn in Hmin.
Qed.
End pick.

(** ** Accumulated usage *)

Lemma count_call id minute n d :
  dict_wf d → counted d minute →
  ∃ d', (ensure_dict id ;; at_key id (count_usage minute (PInt n))) d = (Ok (), d') ∧
    dict_wf d' ∧ counted d' minute ∧ d' ≠ [] ∧ (length d' ≤ S (length d))%nat ∧
    ∀ id', usage d' id' minute "tpm" = usage d id' minute "tpm" + (if String.eqb id id' then n else 0) ∧
      usage d' id' minute "rpm" = usage d id' minute "rpm" + (if String.eqb id id' then 1 else 0).
Proof.
  intros Hwf Hc. set (d1 := if dmem id d then d else dset id (PDict []) d).
  assert (∃ e, dget id d1 = Some (PDict e) ∧ counting minute e ∧
    ∀ what, usage d id minute what = match dget minute e with Some (PDict u) => count_of u what | _ => 0 end)
    as (e & He & Hce & Hu).
  { unfold d1, dmem, usage. destruct (dget id d) as [v|] eqn:E.
    - destruct (Hc _ _ E) as (e & -> & Hce). by exists e.
    - exists []. by rewrite dget_dset_eq. }
  destruct (count_usage_int minute n e Hce) as (e' & Ee & Hce' & _ & u' & Hu' & Ht & Hr).
  assert (∀ id', id' ≠ id → dget id' (dset id (PDict e') d1) = dget id' d) as Hother.
  { intros id' Hne. rewrite dget_dset_ne by congruence. unfold d1. destruct (dmem id d); [done|].
    by rewrite dget_dset_ne by congruence. }
  exists (dset id (PDict e') d1). split_and!.
  - unfold ensure_dict, m_modify. rewrite (m_bind_run _ _ _ () d1) by done. by apply (at_key_run _ _ _ _ _ _ He).
  - apply dset_wf. unfold d1. destruct (dmem id d); [done|by apply dset_wf].
  - intros id' v. destruct (decide (id' = id)) as [->|Hne].
    + rewrite dget_dset_eq. intros [= <-]. by exists e'.
    + rewrite Hother by done. apply Hc.
  - apply dset_nonnil.
  - unfold d1. rewrite length_dset. destruct (dmem id d) eqn:E; [rewrite E; lia|].
    rewrite length_dset, E. unfold dmem. rewrite dget_dset_eq. lia.
  - intros id'. destruct (String.eqb_spec id id') as [<-|Hne].
    + rewrite !Hu. unfold usage. rewrite dget_dset_eq, Hu'. cbn zeta in Ht, Hr.
      by destruct (dget minute e) as [[]|].
    + unfold usage. rewrite Hother by congruence. lia.
Qed.

Section log.
Context `{PyRuntime} {R : Type} `{RedisCacheI R}.
Variable mc : dict.
Implicit Types h : t R.

(** A call and its completion tokens. *)
Definition log_call (group minute : string) (x : LowestTpm.call * Z) : M (t R) unit :=
  (if LowestTpm.by_async x.1 then async_log_success_event else log_success_event)
    (LowestTpm.at_time x.1) minute (call_kwargs group (LowestTpm.to_id x.1)) (Some (x.2, LowestTpm.tokens x.1)).

(** The cached dict records the calls. *)
Record logged (k : Z * Z * Z) (dl : Z) (group minute : string) (log : list LowestTpm.call) (d : dict) h : Prop := {
  l_holds : holds k dl (map_key (PStr group)) d (router_cache h);
  l_wf : dict_wf d;
  l_counted : counted d minute;
  l_len : (length d ≤ length log)%nat;
  l_usage id : usage d id minute "tpm" = LowestTpm.tokens_of id log ∧ usage d id minute "rpm" = LowestTpm.requests_of id log
}.

Lemma cost_log_step k dl group minute log d h x :
  logged k dl group minute log d h → LowestTpm.at_time x.1 ≤ dl ≤ LowestTpm.at_time x.1 + k.1.2 → x.2 ≠ 0 →
  fits k (S (length log)) →
  ∃ h' d', log_call group minute x h = (Ok (), h') ∧ logged k dl group minute (log ++ [x.1]) d' h'.
Proof.
  intros [Hh Hw Hc Hl Hu] [Hn Hd] Hx Hf. destruct x as [[now async id n] compl]. cbn [fst snd LowestTpm.at_time] in *.
  destruct (count_call id minute n d Hw Hc) as (d' & Ec & Hw' & Hc' & Hne & Hlen & Hu').
  destruct (holds_get _ _ _ _ _ now Hh Hn) as [Eg Eag].
  destruct (holds_update k dl (map_key (PStr group)) d d' (router_cache h) now None Hh Hne Hn) as (c1 & c' & Ew & Hc1 & _ & Es & Eas).
  { intros im y ? ?. apply Hf; [done|lia]. } { done. }
  cbn [option_map] in Es, Eas.
  set (h2 := set_cache_field c' h).
  assert (∃ h', log_call group minute (LowestTpm.mkCall now async id n, compl) h = (Ok (), h') ∧
            router_cache h' = c') as (h' & Er & Erc).
  { assert (∀ g st, get_counts (g now (map_key (PStr group))) (router_cache h) = (Ok d, router_cache h) →
      st now (map_key (PStr group)) (PDict d') None c1 = (Ok (), c') →
      ∃ h', log_event g st now minute (call_kwargs group id) (Some (compl, n)) h = (Ok (), h') ∧ router_cache h' = c') as Hrun.
    { intros g st E1 E2. unfold log_event, m_try. change (call_target (call_kwargs group id)) with (Ok (Some (PStr group, id))).
      unfold response_tokens. destruct (Z.eqb_spec compl 0); [done|].
      unfold mbind, M_bind, m_lift, on_cache, m_zoom. rewrite E1. unfold in_place. cbn [router_cache set_cache_field].
      unfold mbind, M_bind in Ec. rewrite Ec. unfold mbind, M_bind, mret, M_ret.
      rewrite Ew. cbn [snd router_cache set_cache_field]. rewrite E2. unfold count_success, m_modify.
      destruct (test_flag _); eauto. }
    unfold log_call. cbn [fst snd LowestTpm.by_async LowestTpm.at_time LowestTpm.to_id LowestTpm.tokens].
    destruct async; [apply (Hrun LowestTpm.async_get LowestTpm.async_set)|apply (Hrun LowestTpm.sync_get LowestTpm.sync_set)];
      done. }
  exists h', d'. split; [done|]. split; rewrite ?Erc; try done.
  - rewrite length_app. cbn [length]. lia.
  - intros id'. unfold LowestTpm.tokens_of, LowestTpm.requests_of. rewrite !LowestTpm.sum_of_snoc.
    destruct (Hu' id') as [-> ->], (Hu id') as [-> ->]. cbn [LowestTpm.to_id LowestTpm.tokens].
    unfold LowestTpm.tokens_of, LowestTpm.requests_of. by destruct (String.eqb id id').
Qed.

Lemma cost_logs_run k dl group minute log d h l :
  logged k dl group minute log d h →
  Forall (λ x, LowestTpm.at_time x.1 ≤ dl ≤ LowestTpm.at_time x.1 + k.1.2 ∧ x.2 ≠ 0) l → fits k (length log + length l) →
  ∃ h' d', m_iter (log_call group minute) l h = (Ok (), h') ∧ logged k dl group minute (log ++ l.*1) d' h'.
Proof.
  intros Hl Hall. revert log d h Hl. induction Hall as [|x l [Ht Hx] Hall IH]; intros log d h Hl Hf.
  { exists h, d. rewrite app_nil_r. done. }
  cbn [length] in Hf. destruct (cost_log_step k dl group minute log d h x Hl Ht Hx) as (h1 & d1 & E1 & Hl1).
  { intros im y ? ?. apply Hf; [done|lia]. }
  destruct (IH (log ++ [x.1]) d1 h1 Hl1) as (h' & d' & E & Hl').
  { intros im y ? Hy. apply Hf; [done|]. rewrite length_app in Hy. cbn [length] in Hy. lia. }
  exists h', d'. cbn [m_iter]. rewrite (m_bind_run _ _ _ _ _ E1). rewrite <-(assoc_L (++)) in Hl'. done.
Qed.

(** The calls [l] of the minute keep one more request of [input] tokens within the limits. *)
Definition permitted (l : list LowestTpm.call) (input : Z) (m : pyval) : bool :=
  match offer_of mc m with
  | Some o => within o (LowestTpm.tokens_of (o_id o) l) (LowestTpm.requests_of (o_id o) l) input
  | None => false
  end.

End log.

(** ** Where the code departs from it *)

(** A call without completion tokens (an embedding, an answer cut short) is not counted at
    all: a quotient that nobody uses is divided by their number. *)
Theorem zero_completion_not_counted `{PyRuntime} {R} `{RedisCacheI R} (h : t R) now minute kwargs total :
  log_success_event now minute kwargs (Some (0, total)) h = (Ok (), h) ∧
  async_log_success_event now minute kwargs (Some (0, total)) h = (Ok (), h).
Proof.
  unfold log_success_event, async_log_success_event, log_event, m_try, mbind, M_bind, m_lift.
  destruct (call_target kwargs) as [[[g id]|]|]; done.
Qed.

Definition dep (id model : string) (params : dict) : pyval :=
  PDict [("model_info", PDict [("id", PStr id)]); ("litellm_params", PDict (("model", PStr model) :: params))].

(** A price of 0 counts as missing: a free deployment of an unknown model costs 10, more
    than one priced 1 and 2.  A limit of 0 counts as none. *)
Theorem zero_price_and_limit_ignored :
  item_cost [] (dep "free" "local-model" [("input_cost_per_token", PInt 0); ("output_cost_per_token", PInt 0)]) = Ok (PFloat 10) ∧
  item_cost [] (dep "paid" "other" [("input_cost_per_token", PInt 1); ("output_cost_per_token", PInt 2)]) = Ok (PInt 3) ∧
  limit_or (dep "a" "m" [("rpm", PInt 0)]) "rpm" = Ok PNone.
Proof. vm_compute. split_and!; reflexivity. Qed.

Module Sample.
#[local] Existing Instance toy_runtime.
#[local] Existing Instance RedisCache.toy_client.
#[local] Existing Instance RedisCache.RedisCache_instance.

Definition prices : dict :=
  [("gpt", PDict [("input_cost_per_token", PFloat 3); ("output_cost_per_token", PFloat 4)])].
Definition healthy : list pyval :=
  [dep "a" "gpt" []; dep "b" "gpt" [("input_cost_per_token", PFloat 1); ("tpm", PInt 100)];
   dep "c" "unknown" []].
Definition log : list (LowestTpm.call * Z) :=
  [(LowestTpm.mkCall 0 false "a" 50, 5); (LowestTpm.mkCall 1 true "b" 97, 7)].

End Sample.
End LowestCost.
