(* ===== verification/LowestLatency.v ===== *)
(** * LowestLatency: [router_strategy/lowest_latency.py]

    Latency-based routing: the last response times per completion token of every
    deployment are kept beside its usage, and a random one of the deployments within
    their limits whose average is near the lowest is picked.  The clock values of a call,
    the minute stamp, the number of input tokens and the random choices are arguments.

    Theorems: the pick is a healthy deployment within its limits and within the buffer of
    the lowest average, the lists of response times are bounded, and where the recorded
    times are not what they mean to be: a full list keeps its oldest values for ever, and
    response times of calls without token counts are stored as durations, which the
    average counts as 0. *)

From stdpp Require Import base gmap sets list strings.
From Stdlib Require Import ZArith QArith Qround Lqa Lia ZifyBool.
From S2P Require Import Prelude Heapq PyHeapq InMemoryCache RedisCache DualCache Strategy LowestTpm UsageMap.

#[local] Open Scope Z_scope.

Module LowestLatency.
Import UsageMap.
#[local] Abbreviation dict := (list (string * pyval)).

Record RoutingArgs := mkArgs {
  ttl : Z;
  lowest_latency_buffer : Q;
  max_latency_list_size : Z
}.
Definition default_args : RoutingArgs := mkArgs (seconds 3600) 0 10.

Record t (R : Type) := mk {
  router_cache : DualCache.t R;
  routing_args : RoutingArgs;
  test_flag : bool;
  logged_success : Z
}.
Arguments mk {R}. Arguments router_cache {R}. Arguments routing_args {R}. Arguments test_flag {R}.
Arguments logged_success {R}.

(** ** Response times *)

(** A point in time: a [datetime] or a number of seconds. *)
Inductive clock := Datetime (us : Z) | Epoch (s : Q).

(** [a - b]. *)
Definition clock_sub (a b : clock) : res pyval :=
  match a, b with
  | Datetime x, Datetime y => Ok (PTimedelta (x - y))
  | Epoch x, Epoch y => Ok (PFloat (x - y))
  | _, _ => Raise TypeError
  end.

(** [d.total_seconds()] of a duration, or the number itself. *)
Definition in_seconds (v : pyval) : Q :=
  match v with PTimedelta us => (inject_Z us / inject_Z 1000000)%Q | PFloat q => q | _ => 0%Q end.

Definition safe_divide_seconds (s : Q) (denominator : Z) : option Q :=
  if denominator <=? 0 then None else Some (s / inject_Z denominator)%Q.

(** What is recorded of a call: the response time, the time to the first token and the
    number of tokens.  [usage] holds the completion and total tokens of a
    [ModelResponse] with usage; [first] is the time to the first token of a stream.  The
    synchronous callback turns the time of a call without completion tokens into seconds,
    the asynchronous one does not. *)
Definition final_value (async : bool) (response_ms : pyval) (usage : option (Z * Z)) : pyval :=
  match usage with
  | Some (completion_tokens, _) =>
      match safe_divide_seconds (in_seconds response_ms) completion_tokens with
      | Some q => PFloat q
      | None => if async then response_ms else PFloat (in_seconds response_ms)
      end
  | None => response_ms
  end.

Definition time_to_first_token (first : option pyval) (usage : option (Z * Z)) : option Q :=
  match usage, first with
  | Some (completion_tokens, _), Some v => safe_divide_seconds (in_seconds v) completion_tokens
  | _, _ => None
  end.

Definition total_tokens (usage : option (Z * Z)) : Z := match usage with Some (_, n) => n | None => 0 end.

(** [kwargs.get("completion_start_time", end_time) - start_time] of a stream; the start
    of the completion may be missing or [None]. *)
Definition first_token_time (stream : bool) (completion_start : option (option clock)) (start_time end_time : clock)
    : res (option pyval) :=
  if stream then
    match completion_start with
    | None => Some <$> clock_sub end_time start_time
    | Some (Some c) => Some <$> clock_sub c start_time
    | Some None => Raise TypeError
    end
  else Ok None.

(** [l[:n]]. *)
Definition slice_to {A} (n : Z) (l : list A) : list A :=
  if n <? 0 then take (length l - Z.to_nat (- n)) l else take (Z.to_nat n) l.

(** The list at a key; nothing else is stored there. *)
Definition list_at (e : dict) (field : string) : res (list pyval) :=
  match dget field e with Some (PList l) => Ok l | Some _ => Raise TypeError | None => Ok [] end.

(** Append to the list, or replace its last element when it is full. *)
Definition push (size : Z) (field : string) (v : pyval) : M dict unit :=
  e ← m_get;
  l ← m_lift (list_at e field);
  if Z.of_nat (length l) <? size then m_modify (dset field (PList (l ++ [v])))
  else
    old ← m_lift (py_index (PDict e) field);
    match old with
    | PList l => m_modify (dset field (PList (slice_to (size - 1) l ++ [v])))
    | _ => m_raise TypeError
    end.

(** The changes a successful call makes to the entry of its deployment. *)
Definition record_call (args : RoutingArgs) (minute : string) (value : pyval) (ttft : option Q) (tokens : Z) : M dict unit :=
  push (max_latency_list_size args) "latency" value ;;
  match ttft with
  | Some q => push (max_latency_list_size args) "time_to_first_token" (PFloat q)
  | None => mret ()
  end ;;
  count_usage minute (PInt tokens).

(** ** Callbacks *)

Definition _select_metadata_field (request_kwargs : dict) : string :=
  if dmem "litellm_metadata" request_kwargs then "litellm_metadata" else "metadata".

Section ops.
Context `{PyRuntime} {R : Type} `{RedisCacheI R}.

Definition init (c : DualCache.t R) (args : RoutingArgs) : t R := mk c args false 0.

Definition set_cache_field (c : DualCache.t R) (h : t R) : t R :=
  mk c (routing_args h) (test_flag h) (logged_success h).
Definition on_cache {A} (m : M (DualCache.t R) A) : M (t R) A := m_zoom router_cache set_cache_field m.

Definition count_success : M (t R) unit :=
  m_modify (λ h, if test_flag h then mk (router_cache h) (routing_args h) (test_flag h) (logged_success h + 1) else h).

(** The model group and the deployment of a call. *)
Definition latency_target (kwargs : dict) : res (option (pyval * string)) :=
  params ← py_index (PDict kwargs) "litellm_params";
  metadata ← py_get params (_select_metadata_field kwargs);
  if is_none metadata then Ok None else
  model_group ← py_get metadata "model_group";
  info ← py_get params "model_info";
  id ← py_get (py_or info (PDict [])) "id";
  if is_none model_group || is_none id then Ok None else
  k ← id_key id;
  Ok (Some (model_group, k)).

(** Changes of one entry, then the store with the configured lifetime. *)
Definition update_entry (getter : Z → string → M (DualCache.t R) pyval)
    (setter : Z → string → pyval → ttl_kw → M (DualCache.t R) unit)
    (now : Z) (latency_key id : string) (change : M dict unit) : M (t R) unit :=
  h ← m_get;
  request_count_dict ← on_cache (get_counts (getter now latency_key));
  changed ← on_cache (in_place latency_key request_count_dict (ensure_dict id ;; at_key id change));
  on_cache (setter now latency_key (PDict changed.2) (Some (Some (ttl (routing_args h))))).

(** [kwargs["stream"] is True]. *)
Definition is_stream (kwargs : dict) : bool :=
  match dget "stream" kwargs with Some (PBool true) => true | _ => false end.

Definition log_event (async : bool) (getter : Z → string → M (DualCache.t R) pyval)
    (setter : Z → string → pyval → ttl_kw → M (DualCache.t R) unit)
    (now : Z) (minute : string) (kwargs : dict) (completion_start : option (option clock)) (usage : option (Z * Z))
    (start_time end_time : clock) : M (t R) unit :=
  m_try
    (target ← m_lift (latency_target kwargs);
     match target with
     | None => mret ()
     | Some (model_group, id) =>
         response_ms ← m_lift (clock_sub end_time start_time);
         first ← m_lift (first_token_time (is_stream kwargs) completion_start start_time end_time);
         h ← m_get;
         update_entry getter setter now (map_key model_group) id
           (record_call (routing_args h) minute (final_value async response_ms usage) (time_to_first_token first usage)
              (total_tokens usage)) ;;
         count_success
     end)
    (λ _, mret ()).

(** The asynchronous callback reads only the in-memory level. *)
Definition local_get (now : Z) (key : string) : M (DualCache.t R) pyval := DualCache.async_get_cache now key true None.

Definition log_success_event := log_event false LowestTpm.sync_get LowestTpm.sync_set.
Definition async_log_success_event := log_event true local_get LowestTpm.async_set.

(** A time-out counts as 1000 seconds; other failures count nothing. *)
Definition async_log_failure_event (now : Z) (kwargs : dict) (is_timeout : bool) : M (t R) unit :=
  m_try
    (if is_timeout then
       target ← m_lift (latency_target kwargs);
       match target with
       | None => mret ()
       | Some (model_group, id) =>
           h ← m_get;
           update_entry LowestTpm.async_get LowestTpm.async_set now (map_key model_group) id
             (push (max_latency_list_size (routing_args h)) "latency" (PFloat 1000))
       end
     else mret ())
    (λ _, mret ()).
End ops.

(** ** The pick *)

(** The floats of the list over its length. *)
Definition add_float (total : Q) (v : pyval) : Q := match v with PFloat q => (total + q)%Q | _ => total end.
Definition average (l : list pyval) : res Q :=
  match l with
  | [] => Raise ZeroDivisionError
  | _ => Ok (foldl add_float 0 l / inject_Z (Z.of_nat (length l)))%Q
  end.

Definition as_list (v : pyval) : res (list pyval) := match v with PList l => Ok l | _ => Raise TypeError end.

(** The average time to the first token for a stream that has such times, else the
    average response time. *)
Definition item_latency (stream : bool) (item_map : pyval) : res Q :=
  latency ← py_get_or item_map "latency" (PList []);
  ttft ← py_get_or item_map "time_to_first_token" (PList []);
  if stream then
    first ← as_list ttft;
    match first with
    | [] => l ← as_list latency; average l
    | _ => average first
    end
  else l ← as_list latency; average l.

(** [api_base], a text, for the debug output. *)
Definition debug_base (m : pyval) : res (option string) :=
  params ← py_get_or m "litellm_params" (PDict []);
  base ← py_get_or params "api_base" (PStr "");
  match base with
  | PStr s => Ok (Some s)
  | PNone => Ok None
  | _ => Raise TypeError
  end.

Definition judge (minute : string) (input_tokens : Z) (stream : bool) (item_map m : pyval) : res (pyval * bool) :=
  tpm ← limit_or m "tpm";
  rpm ← limit_or m "rpm";
  item_rpm ← used_in item_map minute "rpm";
  item_tpm ← used_in item_map minute "tpm";
  latency ← item_latency stream item_map;
  _ ← debug_base m;
  over ← over_limits item_tpm item_rpm tpm rpm input_tokens;
  Ok (PFloat latency, negb over).

(** The entry of a deployment that was not used yet. *)
Definition fresh (minute : string) : pyval :=
  PDict [("latency", PList [PInt 0]); (minute, PDict [("tpm", PInt 0); ("rpm", PInt 0)])].

Definition _latency_per_deployment (judged : list (pyval * pyval * bool)) : dict :=
  foldl (λ acc x, match debug_base x.1.1 with Ok (Some s) => dset s x.1.2 acc | _ => acc end) [] judged.

(** The deployments within the buffer of the lowest average. *)
Definition valid_deployments (args : RoutingArgs) (sorted : list (pyval * pyval)) : list (pyval * pyval) :=
  match sorted with
  | [] => []
  | x :: _ =>
      let lowest := num x.2 in
      filter (λ y, Qle_bool (num y.2) (lowest + lowest_latency_buffer args * lowest) = true) sorted
  end.

(** The debug output goes into the metadata of the request. *)
Definition note_latencies (request_kwargs : option dict) (latencies : dict) : res (option dict) :=
  match request_kwargs with
  | None => Ok None
  | Some kw =>
      let field := _select_metadata_field kw in
      match dget field kw with
      | None => Ok (Some kw)
      | Some (PDict md) => Ok (Some (dset field (PDict (dset "_latency_per_deployment" (PDict latencies) md)) kw))
      | Some _ => Raise TypeError
      end
  end.

Section pick.
Context `{PyRuntime} {R : Type} `{RedisCacheI R}.
(** [random.sample(items, len(items))]. *)
Variable sample : dict → dict.

(** The part that does not depend on the cache: the chosen deployment and the request. *)
Definition choose (args : RoutingArgs) (minute : string) (healthy_deployments : list pyval) (input_tokens : Z)
    (request_kwargs : option dict) (pick : nat) (all_deployments : dict) : res (option pyval * option dict) :=
  let stream := match request_kwargs with Some kw => is_stream kw | None => false end in
  judged ← evaluate (judge minute input_tokens stream) healthy_deployments (sample all_deployments);
  match potential judged with
  | [] => Ok (None, request_kwargs)
  | potential_deployments =>
      sorted ← sorted_by potential_deployments;
      chosen ← random_choice pick (valid_deployments args sorted);
      kw ← note_latencies request_kwargs (_latency_per_deployment judged);
      Ok (Some chosen.1, kw)
  end.

Definition _get_available_deployments (getter : Z → string → M (DualCache.t R) pyval) (now : Z) (minute model_group : string)
    (healthy_deployments : list pyval) (input_tokens : Z) (request_kwargs : option dict) (pick : nat)
    : M (t R) (option pyval * option dict) :=
  let latency_key := map_key (PStr model_group) in
  h ← m_get;
  request_count_dict ← on_cache (get_counts (getter now latency_key));
  filled ← on_cache (in_place latency_key request_count_dict (fill_new (fresh minute) healthy_deployments));
  m_lift (choose (routing_args h) minute healthy_deployments input_tokens request_kwargs pick filled.2).

Definition get_available_deployments := _get_available_deployments LowestTpm.sync_get.
Definition async_get_available_deployments := _get_available_deployments LowestTpm.async_get.
End pick.

(** ** What is recorded *)

Definition reserved : list string := ["latency"; "time_to_first_token"].

(** A time that is not negative. *)
Definition nonneg (v : pyval) : Prop :=
  match v with PFloat q => (0 <= q)%Q | PTimedelta us => 0 ≤ us | _ => True end.

(** No list yet, or a list of 1 to [size] times. *)
Definition list_ok (size : Z) (o : option pyval) : Prop :=
  match o with
  | None => True
  | Some (PList l) => (l ≠ [] ∧ Z.of_nat (length l) ≤ size) ∧ Forall nonneg l
  | Some _ => False
  end.

(** An entry: response times, perhaps times to the first token, and counters. *)
Record entry_wf (size : Z) (e : dict) : Prop := {
  ew_latency : list_ok size (dget "latency" e);
  ew_ttft : list_ok size (dget "time_to_first_token" e);
  ew_minutes minute : minute ∉ reserved → counting minute e
}.

(** A complete entry has response times. *)
Definition entry_ok (size : Z) (v : pyval) : Prop :=
  ∃ e, v = PDict e ∧ entry_wf size e ∧ is_Some (dget "latency" e).

Definition entries_ok (size : Z) (d : dict) : Prop := ∀ id v, dget id d = Some v → entry_ok size v.

(** ** What should be recorded

    The response times, first-token times and usage of the calls of a deployment, computed
    from the calls alone. *)

(** A call to a deployment of the group: answered, or timed out. *)
Inductive event : Type :=
| Answered (now : Z) (async : bool) (id minute : string) (stream : bool) (completion_start : option (option clock))
    (usage : option (Z * Z)) (start_time end_time : clock)
| TimedOut (now : Z) (id : string).

Definition event_time (ev : event) : Z := match ev with Answered now _ _ _ _ _ _ _ _ => now | TimedOut now _ => now end.
Definition event_id (ev : event) : string := match ev with Answered _ _ id _ _ _ _ _ _ => id | TimedOut _ id => id end.

(** The seconds between two points in time of one kind, and whether they are durations
    (of which the average counts nothing). *)
Definition seconds_between (en st : clock) : option (Q * bool) :=
  match en, st with
  | Datetime x, Datetime y => Some ((inject_Z (x - y) / inject_Z 1000000)%Q, true)
  | Epoch x, Epoch y => Some ((x - y)%Q, false)
  | _, _ => None
  end.

(** The seconds per completion token of an answer, 1000 for a time-out.  Without
    completion tokens the seconds themselves count, but nothing when they were left as
    a duration. *)
Definition contribution (ev : event) : Q :=
  match ev with
  | TimedOut _ _ => 1000%Q
  | Answered _ async _ _ _ _ usage st en =>
      match seconds_between en st, usage with
      | Some (s, duration), Some (c, _) =>
          if 0 <? c then (s / inject_Z c)%Q else if async && duration then 0%Q else s
      | Some (s, duration), None => if duration then 0%Q else s
      | None, _ => 0%Q
      end
  end.

(** The start of the completion of a stream, else its end. *)
Definition first_token_at (completion_start : option (option clock)) (en : clock) : option clock :=
  match completion_start with None => Some en | Some o => o end.

(** The seconds to the first token per completion token, of a stream. *)
Definition first_token (ev : event) : option Q :=
  match ev with
  | Answered _ _ _ _ true cs (Some (c, _)) st en =>
      at_ ← first_token_at cs en;
      '(s, _) ← seconds_between at_ st;
      if 0 <? c then Some (s / inject_Z c)%Q else None
  | _ => None
  end.

(** Calls whose times cannot be subtracted leave no trace. *)
Definition logged (ev : event) : bool :=
  match ev with
  | Answered _ _ _ _ stream cs _ st en =>
      bool_decide (is_Some (seconds_between en st)) &&
      (negb stream || bool_decide (is_Some (first_token_at cs en ≫= λ at_, seconds_between at_ st)))
  | TimedOut _ _ => true
  end.

Definition calls_of (id : string) (evs : list event) : list event :=
  filter (λ ev, logged ev = true ∧ event_id ev = id) evs.

(** Only the first [size - 1] values and the last one are kept. *)
Definition kept {A} (size : Z) (l : list A) : list A :=
  if Z.of_nat (length l) <=? size then l
  else take (Z.to_nat (size - 1)) l ++ match last l with Some x => [x] | None => [] end.

Definition mean (l : list Q) : Q :=
  match l with [] => 0%Q | _ => (foldr Qplus 0 l / inject_Z (Z.of_nat (length l)))%Q end.

(** The average of the calls [es] of a deployment: of their times to the first token for a
    stream, when there are any, else of their response times. *)
Definition mean_latency (size : Z) (stream : bool) (es : list event) : Q :=
  if stream && negb (bool_decide (omap first_token es = []))
  then mean (kept size (omap first_token es)) else mean (kept size (contribution <$> es)).

(** The answers of the minute and their tokens. *)
Definition answers (minute : string) (es : list event) : list (option (Z * Z)) :=
  omap (λ ev, match ev with Answered _ _ _ m _ _ usage _ _ => if String.eqb m minute then Some usage else None | _ => None end) es.
Definition requests_in (minute : string) (es : list event) : Z := Z.of_nat (length (answers minute es)).
Definition tokens_in (minute : string) (es : list event) : Z :=
  foldr (λ u n, match u with Some (_, t) => t | None => 0 end + n) 0 (answers minute es).

(** *** Lists that stop growing *)

Definition pushed {A} (size : Z) (l : list A) (v : A) : list A :=
  if Z.of_nat (length l) <? size then l ++ [v] else take (Z.to_nat (size - 1)) l ++ [v].

Lemma kept_length {A} size (l : list A) : 1 ≤ size → length (kept size l) = Nat.min (length l) (Z.to_nat size).
Proof.
  intros Hs. unfold kept. destruct (Z.leb_spec (Z.of_nat (length l)) size); [lia|].
  destruct (last l) eqn:E; [|apply last_None in E; subst; cbn in *; lia].
  rewrite length_app, length_take. cbn [length]. lia.
Qed.

Lemma kept_snoc {A} size (l : list A) v : 1 ≤ size → kept size (l ++ [v]) = pushed size (kept size l) v.
Proof.
  intros Hs. unfold pushed. rewrite (kept_length size l Hs). unfold kept. rewrite length_app, last_snoc. cbn [length].
  destruct (Z.leb_spec (Z.of_nat (length l + 1)) size).
  - destruct (Z.leb_spec (Z.of_nat (length l)) size); [|lia]. by destruct (Z.ltb_spec (Z.of_nat (length l `min` Z.to_nat size)) size); [|lia].
  - destruct (Z.ltb_spec (Z.of_nat (length l `min` Z.to_nat size)) size); [lia|].
    destruct (Z.leb_spec (Z.of_nat (length l)) size); [by rewrite take_app_le by lia|].
    rewrite take_app_le by lia. destruct (last l) as [x|] eqn:El; [|apply last_None in El; subst; cbn in *; lia].
    rewrite take_app_le by (rewrite length_take; lia). by rewrite take_take, Nat.min_id.
Qed.

Lemma kept_nil {A} size (l : list A) : 1 ≤ size → kept size l = [] ↔ l = [].
Proof. intros Hs. rewrite <-!length_zero_iff_nil, (kept_length size l Hs). lia. Qed.

Lemma fmap_pushed {A B} (f : A → B) size l v : f <$> pushed size l v = pushed size (f <$> l) (f v).
Proof.
  unfold pushed. rewrite length_fmap. destruct (Z.ltb _ _); [by rewrite fmap_app|].
  by rewrite fmap_app, fmap_take.
Qed.

(** *** What an entry records of the calls [es] *)

(** What a stored time counts in the average. *)
Definition value_of (v : pyval) : Q := match v with PFloat q => q | _ => 0%Q end.

Definition stored (o : option pyval) (l : list Q) : Prop :=
  match o with None => l = [] | Some (PList vs) => value_of <$> vs = l | Some _ => False end.

Record recorded (size : Z) (times firsts : list Q) (tokens requests : string → Z) (e : dict) : Prop := {
  rec_latency : stored (dget "latency" e) (kept size times);
  rec_first : stored (dget "time_to_first_token" e) (kept size firsts);
  rec_tokens minute : minute ∉ reserved → entry_usage (PDict e) minute "tpm" = tokens minute;
  rec_requests minute : minute ∉ reserved → entry_usage (PDict e) minute "rpm" = requests minute
}.

Definition records (size : Z) (es : list event) : dict → Prop :=
  recorded size (contribution <$> es) (omap first_token es) (λ m, tokens_in m es) (λ m, requests_in m es).

Lemma push_run size field v e :
  1 ≤ size → list_ok size (dget field e) →
  push size field v e =
    (Ok (), dset field (PList (pushed size (match dget field e with Some (PList l) => l | _ => [] end) v)) e).
Proof.
  intros Hs Hl. unfold push, pushed, mbind, M_bind, m_get, m_lift, m_modify, list_at, py_index.
  destruct (dget field e) as [w|].
  - destruct w as [| | | | | |l| | |]; try done. destruct (Z.ltb _ _); [done|]. unfold slice_to.
    destruct (Z.ltb_spec (size - 1) 0); [lia|done].
  - destruct (Z.ltb_spec (Z.of_nat (length (@nil pyval))) size) as [|Hc]; [done|cbn in Hc; lia].
Qed.

Lemma push_records size field v e l :
  1 ≤ size → list_ok size (dget field e) → stored (dget field e) (kept size l) →
  stored (dget field (push size field v e).2) (kept size (l ++ [value_of v])) ∧
  ∀ k, k ≠ field → dget k (push size field v e).2 = dget k e.
Proof.
  intros Hs Hl Hst. rewrite (push_run size field v e Hs Hl). cbn [snd]. split.
  - rewrite dget_dset_eq. cbn [stored]. rewrite fmap_pushed, (kept_snoc size l _ Hs). f_equal.
    destruct (dget field e) as [[]|]; done.
  - intros k Hk. by rewrite dget_dset_ne by congruence.
Qed.

Lemma push_spec size field v e :
  1 ≤ size → nonneg v → list_ok size (dget field e) →
  ∃ l', push size field v e = (Ok (), dset field (PList l') e) ∧ list_ok size (Some (PList l')).
Proof.
  intros Hs Hv Hl. unfold push, mbind, M_bind, m_get, m_lift, m_modify, list_at, py_index.
  destruct (dget field e) as [w|].
  - destruct w as [| | | | | |l| | |]; try done. destruct Hl as [[Hne Hlen] Hnn].
    destruct (Z.ltb_spec (Z.of_nat (length l)) size).
    + exists (l ++ [v]). split; [done|]. split; [|by apply Forall_app_2; [|constructor]].
      split; [by destruct l|]. rewrite length_app. cbn [length]. lia.
    + exists (slice_to (size - 1) l ++ [v]). split; [done|]. unfold slice_to.
      destruct (Z.ltb_spec (size - 1) 0); [lia|]. split.
      * split; [by destruct (take _ l)|]. rewrite length_app, length_take. cbn [length]. lia.
      * apply Forall_app_2; [by apply Forall_take|by constructor].
  - destruct (Z.ltb_spec (Z.of_nat (length (@nil pyval))) size) as [|Hc]; [|cbn in Hc; lia].
    exists [v]. split; [done|]. split; [split; [done|]; cbn; lia|by constructor].
Qed.

Lemma push_wf size field v e :
  1 ≤ size → nonneg v → field ∈ reserved → entry_wf size e →
  ∃ e', push size field v e = (Ok (), e') ∧ entry_wf size e' ∧
    is_Some (dget field e') ∧ (∀ k, is_Some (dget k e) → is_Some (dget k e')).
Proof.
  intros Hs Hv Hf [Hl Ht Hm].
  destruct (push_spec size field v e Hs Hv) as (l' & E & Hok).
  { unfold reserved in Hf. rewrite !elem_of_cons, elem_of_nil in Hf. by destruct Hf as [->|[->|]]. }
  exists (dset field (PList l') e). split_and!; [done| | |].
  - split.
    + rewrite dget_dset. by destruct (String.eqb _ _).
    + rewrite dget_dset. by destruct (String.eqb _ _).
    + intros minute Hmin. unfold counting. rewrite dget_dset_ne; [by apply Hm|]. set_solver.
  - rewrite dget_dset_eq. eauto.
  - intros k Hk. rewrite dget_dset. destruct (String.eqb _ _); eauto.
Qed.

Lemma count_usage_wf size minute n e :
  minute ∉ reserved → entry_wf size e →
  ∃ e', count_usage minute (PInt n) e = (Ok (), e') ∧ entry_wf size e' ∧ dget "latency" e' = dget "latency" e.
Proof.
  intros Hmin [Hl Ht Hm]. destruct (count_usage_int minute n e (Hm _ Hmin)) as (e' & E & Hc & Hk & _).
  assert (dget "latency" e' = dget "latency" e) as El by (apply Hk; set_solver).
  assert (dget "time_to_first_token" e' = dget "time_to_first_token" e) as Et by (apply Hk; set_solver).
  exists e'. split_and!; [done| |done]. split; [by rewrite El|by rewrite Et|].
  intros m' Hm'. destruct (decide (m' = minute)) as [->|Hne]; [done|]. unfold counting. rewrite Hk by done. by apply Hm.
Qed.

Lemma push_latency_recorded size v e T F tok req :
  1 ≤ size → entry_wf size e → recorded size T F tok req e →
  recorded size (T ++ [value_of v]) F tok req (push size "latency" v e).2.
Proof.
  intros Hs [Hl _ _] [R1 R2 R3 R4]. destruct (push_records size "latency" v e T Hs Hl R1) as [Hst Hk]. split; [done|..].
  - by rewrite Hk.
  - intros m Hm. unfold entry_usage. rewrite Hk by set_solver. by apply R3.
  - intros m Hm. unfold entry_usage. rewrite Hk by set_solver. by apply R4.
Qed.

Lemma push_first_recorded size v e T F tok req :
  1 ≤ size → entry_wf size e → recorded size T F tok req e →
  recorded size T (F ++ [value_of v]) tok req (push size "time_to_first_token" v e).2.
Proof.
  intros Hs [_ Hl _] [R1 R2 R3 R4]. destruct (push_records size "time_to_first_token" v e F Hs Hl R2) as [Hst Hk]. split; [|done|..].
  - by rewrite Hk.
  - intros m Hm. unfold entry_usage. rewrite Hk by set_solver. by apply R3.
  - intros m Hm. unfold entry_usage. rewrite Hk by set_solver. by apply R4.
Qed.

Lemma count_usage_recorded size minute n e T F tok req :
  minute ∉ reserved → entry_wf size e → recorded size T F tok req e →
  recorded size T F (λ m, tok m + if String.eqb minute m then n else 0) (λ m, req m + if String.eqb minute m then 1 else 0)
    (count_usage minute (PInt n) e).2.
Proof.
  intros Hmin [_ _ Hc] [R1 R2 R3 R4].
  destruct (count_usage_int minute n e (Hc _ Hmin)) as (e' & -> & _ & Hk & u' & Hu' & Ht & Hr). cbn [snd].
  split; [rewrite Hk by set_solver; done..| |]; intros m Hm; unfold entry_usage.
  - specialize (R3 m Hm). unfold entry_usage in R3. destruct (String.eqb_spec minute m) as [<-|Hne].
    + rewrite Hu', Ht, <-R3. by destruct (dget minute e) as [[]|].
    + rewrite Hk by congruence. by rewrite R3, Z.add_0_r.
  - specialize (R4 m Hm). unfold entry_usage in R4. destruct (String.eqb_spec minute m) as [<-|Hne].
    + rewrite Hu', Hr, <-R4. by destruct (dget minute e) as [[]|].
    + rewrite Hk by congruence. by rewrite R4, Z.add_0_r.
Qed.

(** A change of an entry that completes it and records one more call. *)
Definition advances (size : Z) (ev : event) (change : M dict unit) : Prop :=
  ∀ e es, entry_wf size e → records size es e →
    ∃ e', change e = (Ok (), e') ∧ entry_ok size (PDict e') ∧ records size (es ++ [ev]) e'.

Lemma tokens_in_snoc minute es ev :
  tokens_in minute (es ++ [ev]) = tokens_in minute es +
    match ev with Answered _ _ _ m _ _ u _ _ => if String.eqb m minute then total_tokens u else 0 | TimedOut _ _ => 0 end.
Proof.
  unfold tokens_in, answers. rewrite omap_app, foldr_app. cbn [omap list_omap].
  assert (∀ l a, foldr (λ (u : option (Z * Z)) n, match u with Some (_, t) => t | None => 0 end + n) a l =
    foldr (λ u n, match u with Some (_, t) => t | None => 0 end + n) 0 l + a) as Hf.
  { intros l a. induction l as [|u l IH]; cbn [foldr]; [done|]. rewrite IH. lia. }
  rewrite Hf. f_equal. destruct ev as [? ? ? m ? ? u ? ?|]; cbn; [|done]. destruct (String.eqb m minute); [|done].
  cbn. destruct u as [[? ?]|]; cbn; lia.
Qed.

Lemma requests_in_snoc minute es ev :
  requests_in minute (es ++ [ev]) = requests_in minute es +
    match ev with Answered _ _ _ m _ _ _ _ _ => if String.eqb m minute then 1 else 0 | TimedOut _ _ => 0 end.
Proof.
  unfold requests_in, answers. rewrite omap_app, length_app. cbn [omap list_omap].
  destruct ev as [? ? ? m ? ? u ? ?|]; cbn; [|lia]. destruct (String.eqb m minute); cbn; lia.
Qed.

Lemma recorded_ext size T F tok req tok' req' e :
  (∀ m, tok m = tok' m) → (∀ m, req m = req' m) → recorded size T F tok req e → recorded size T F tok' req' e.
Proof. intros Ht Hr []. split; try done; intros; rewrite <-?Ht, <-?Hr; auto. Qed.

(** What is recorded of an answer is what it should be. *)
Lemma answer_values now async id minute stream cs usage st en ms first :
  clock_sub en st = Ok ms → first_token_time stream cs st en = Ok first →
  value_of (final_value async ms usage) = contribution (Answered now async id minute stream cs usage st en) ∧
  time_to_first_token first usage = first_token (Answered now async id minute stream cs usage st en).
Proof.
  intros Ems Ef. split.
  - unfold final_value, contribution, safe_divide_seconds. destruct en, st; cbn in Ems; try done; injection Ems as <-;
      cbn [seconds_between in_seconds]; (destruct usage as [[c n]|]; [|done]);
      destruct (Z.leb_spec c 0), (Z.ltb_spec 0 c); try lia; by destruct async.
  - unfold first_token_time in Ef. unfold time_to_first_token, first_token, safe_divide_seconds.
    destruct stream; [|injection Ef as <-; by destruct usage as [[]|]]. destruct usage as [[c n]|]; [|done].
    destruct cs as [[k|]|]; [| done |]; cbn [first_token_at mbind option_bind].
    + destruct k, st; cbn in Ef; try done; injection Ef as <-; cbn [seconds_between in_seconds mbind option_bind];
        by destruct (Z.leb_spec c 0), (Z.ltb_spec 0 c); try lia.
    + destruct en, st; cbn in Ef; try done; injection Ef as <-; cbn [seconds_between in_seconds mbind option_bind];
        by destruct (Z.leb_spec c 0), (Z.ltb_spec 0 c); try lia.
Qed.

(** Calls are logged when their times can be read. *)
Lemma answer_logged now async id minute stream cs usage st en :
  logged (Answered now async id minute stream cs usage st en) =
    match clock_sub en st, first_token_time stream cs st en with Ok _, Ok _ => true | _, _ => false end.
Proof.
  unfold logged, first_token_time. destruct en, st, stream; try done; destruct cs as [[[]|]|]; done.
Qed.

Lemma record_call_advances args now async id minute stream cs usage st en ms first :
  1 ≤ max_latency_list_size args → minute ∉ reserved →
  clock_sub en st = Ok ms → first_token_time stream cs st en = Ok first → nonneg (final_value async ms usage) →
  match time_to_first_token first usage with Some q => (0 <= q)%Q | None => True end →
  advances (max_latency_list_size args) (Answered now async id minute stream cs usage st en)
    (record_call args minute (final_value async ms usage) (time_to_first_token first usage) (total_tokens usage)).
Proof.
  intros Hs Hmin Ems Ef Hv Hq e es He Hr. unfold record_call. set (ev := Answered _ _ _ _ _ _ _ _ _).
  destruct (answer_values now async id minute stream cs usage st en ms first Ems Ef) as [Hc Hf]. fold ev in Hc, Hf.
  rewrite Hf in Hq |- *. set (size := max_latency_list_size args) in *. set (v := final_value async ms usage) in *.
  destruct (push_wf size "latency" v e Hs Hv) as (e1 & E1 & He1 & Hl1 & _); [set_solver|done|].
  pose proof (push_latency_recorded size v e _ _ _ _ Hs He Hr) as Hr1. rewrite E1 in Hr1. cbn [snd] in Hr1.
  rewrite (m_bind_run _ _ _ _ _ E1).
  assert (∃ e2, (match first_token ev with Some q => push size "time_to_first_token" (PFloat q) | None => mret () end : M dict unit)
     e1 = (Ok (), e2) ∧ entry_wf size e2 ∧ is_Some (dget "latency" e2) ∧
     recorded size ((contribution <$> es) ++ [value_of v]) (omap first_token (es ++ [ev])) (λ m, tokens_in m es) (λ m, requests_in m es) e2)
    as (e2 & E2 & He2 & Hl2 & Hr2).
  { rewrite omap_app. cbn [omap list_omap]. destruct (first_token ev) as [q|]; [|exists e1; by rewrite app_nil_r].
    destruct (push_wf _ "time_to_first_token" (PFloat q) e1 Hs Hq) as (e2 & E2 & He2 & _ & Hk); [set_solver|done|].
    pose proof (push_first_recorded size (PFloat q) e1 _ _ _ _ Hs He1 Hr1) as Hr2. rewrite E2 in Hr2.
    exists e2. split_and!; [done|done|by apply Hk|done]. }
  rewrite (m_bind_run _ _ _ _ _ E2). destruct (count_usage_wf _ minute (total_tokens usage) e2 Hmin He2) as (e3 & E3 & He3 & El3).
  pose proof (count_usage_recorded size minute (total_tokens usage) e2 _ _ _ _ Hmin He2 Hr2) as Hr3. rewrite E3 in Hr3.
  exists e3. split; [done|]. split; [exists e3; split_and!; [done..|]; by rewrite El3|].
  unfold records. rewrite fmap_app. cbn [fmap list_fmap]. rewrite <-Hc.
  eapply recorded_ext; [| |exact Hr3]; intros m; [by rewrite tokens_in_snoc|by rewrite requests_in_snoc].
Qed.

Lemma time_out_advances size now id : 1 ≤ size → advances size (TimedOut now id) (push size "latency" (PFloat 1000)).
Proof.
  intros Hs e es He Hr. destruct (push_wf size "latency" (PFloat 1000) e Hs) as (e' & E & He' & Hl & _); [done|set_solver|done|].
  pose proof (push_latency_recorded size (PFloat 1000) e _ _ _ _ Hs He Hr) as Hr1. rewrite E in Hr1.
  exists e'. split; [done|]. split; [by exists e'|]. unfold records. rewrite fmap_app, omap_app. cbn [fmap list_fmap omap list_omap first_token].
  rewrite app_nil_r. eapply recorded_ext; [| |exact Hr1]; intros m; [by rewrite tokens_in_snoc, Z.add_0_r|by rewrite requests_in_snoc, Z.add_0_r].
Qed.

(** The dict records the calls of every deployment. *)
Definition tracked (size : Z) (evs : list event) (d : dict) : Prop :=
  ∀ id, match dget id d with
        | Some (PDict e) => records size (calls_of id evs) e
        | Some _ => False
        | None => calls_of id evs = []
        end.

Lemma calls_of_snoc id evs ev :
  calls_of id (evs ++ [ev]) = calls_of id evs ++ (if logged ev && String.eqb (event_id ev) id then [ev] else []).
Proof.
  unfold calls_of. rewrite filter_app. f_equal. rewrite filter_cons, filter_nil.
  destruct (String.eqb_spec (event_id ev) id), (logged ev); case_decide; naive_solver.
Qed.

Lemma tracked_unlogged size evs ev d : logged ev = false → tracked size evs d → tracked size (evs ++ [ev]) d.
Proof. intros Hl Ht id. rewrite calls_of_snoc, Hl, app_nil_r. apply Ht. Qed.

Lemma records_nil size : records size [] [].
Proof.
  assert (kept size (@nil Q) = []) as E by (unfold kept; destruct (Z.leb _ _); [done|]; by rewrite take_nil).
  split; [exact E|exact E|done|done].
Qed.

Lemma change_entry size ev change d evs :
  logged ev = true → advances size ev change → dict_wf d → entries_ok size d → tracked size evs d →
  ∃ d', (ensure_dict (event_id ev) ;; at_key (event_id ev) change) d = (Ok (), d') ∧ dict_wf d' ∧ entries_ok size d' ∧
    tracked size (evs ++ [ev]) d' ∧ d' ≠ [] ∧ (length d' ≤ S (length d))%nat.
Proof.
  intros Hlog Hch Hw Hd Ht. set (id := event_id ev). set (d1 := if dmem id d then d else dset id (PDict []) d).
  assert (∃ e, dget id d1 = Some (PDict e) ∧ entry_wf size e ∧ records size (calls_of id evs) e) as (e & He & Hwf & Hrec).
  { specialize (Ht id). unfold d1, dmem. destruct (dget id d) as [v|] eqn:E.
    - destruct (Hd _ _ E) as (e & -> & ? & _). by exists e.
    - exists []. rewrite dget_dset_eq, Ht. split_and!; [done|by split|apply records_nil]. }
  assert (∀ k, k ≠ id → dget k d1 = dget k d) as Hother.
  { intros k Hk. unfold d1. destruct (dmem id d); [done|]. by rewrite dget_dset_ne by congruence. }
  destruct (Hch e _ Hwf Hrec) as (e' & Ee & Hok & Hrec'). exists (dset id (PDict e') d1). split_and!.
  - unfold ensure_dict, m_modify. rewrite (m_bind_run _ _ _ () d1) by done. by apply (at_key_run _ _ _ _ _ _ He).
  - apply dset_wf. unfold d1. destruct (dmem id d); [done|by apply dset_wf].
  - intros id' v. rewrite dget_dset. destruct (String.eqb_spec id id') as [<-|Hne]; [by intros [= <-]|].
    rewrite Hother by congruence. apply Hd.
  - intros id'. rewrite dget_dset, calls_of_snoc, Hlog. fold id. destruct (String.eqb_spec id id') as [<-|Hne]; [done|].
    rewrite Hother by congruence. cbn [andb]. rewrite app_nil_r. apply Ht.
  - apply dset_nonnil.
  - unfold d1. rewrite length_dset. destruct (dmem id d) eqn:E; [rewrite E; lia|].
    rewrite length_dset, E. unfold dmem. rewrite dget_dset_eq. lia.
Qed.

(** ** Any sequence of calls *)

(** The clock does not run backwards, and the minute stamps are no names of lists. *)
Definition event_ok (ev : event) : Prop :=
  match ev with
  | Answered _ _ _ minute _ cs _ st en =>
      (minute ∉ reserved) ∧ (∀ v, clock_sub en st = Ok v → nonneg v) ∧
      (∀ c v, cs = Some (Some c) → clock_sub c st = Ok v → nonneg v)
  | TimedOut _ _ => True
  end.

Lemma nonneg_seconds v : nonneg v → (0 <= in_seconds v)%Q.
Proof.
  destruct v as [| | | | | | | | |us]; try (intros; apply Qle_refl); [done|]. cbn. intros Hus.
  apply Qle_shift_div_l; [done|]. rewrite Qmult_0_l. change 0%Q with (inject_Z 0). by rewrite <-Zle_Qle.
Qed.

Lemma safe_divide_nonneg s n q : (0 <= s)%Q → safe_divide_seconds s n = Some q → (0 <= q)%Q.
Proof.
  intros Hs. unfold safe_divide_seconds. destruct (Z.leb_spec n 0) as [|Hn]; [done|]. intros [= <-].
  apply Qle_shift_div_l; [change 0%Q with (inject_Z 0); by rewrite <-Zlt_Qlt|]. by rewrite Qmult_0_l.
Qed.

Lemma recorded_nonneg async ms usage : nonneg ms → nonneg (final_value async ms usage).
Proof.
  intros Hms. pose proof (nonneg_seconds _ Hms) as Hs. unfold final_value. destruct usage as [[c n]|]; [|done].
  destruct (safe_divide_seconds _ c) as [q|] eqn:E; [by eapply safe_divide_nonneg|]. by destruct async.
Qed.

Lemma first_token_nonneg stream cs st en first usage :
  first_token_time stream cs st en = Ok first → (∀ v, clock_sub en st = Ok v → nonneg v) →
  (∀ c v, cs = Some (Some c) → clock_sub c st = Ok v → nonneg v) →
  match time_to_first_token first usage with Some q => (0 <= q)%Q | None => True end.
Proof.
  intros Hf Hen Hc. destruct usage as [[n m]|], first as [v|]; cbn [time_to_first_token]; try done.
  assert (nonneg v) as Hv.
  { unfold first_token_time in Hf. destruct stream; [|done]. destruct cs as [[c|]|]; [|done|].
    - destruct (clock_sub c st) as [w|] eqn:E; [|done]. cbn in Hf. simplify_eq. by eapply Hc.
    - destruct (clock_sub en st) as [w|] eqn:E; [|done]. cbn in Hf. simplify_eq. by eapply Hen. }
  destruct (safe_divide_seconds _ n) as [q|] eqn:E; [|done]. eapply safe_divide_nonneg; [by apply nonneg_seconds|done].
Qed.

Definition event_kwargs (group id : string) (stream : bool) : dict :=
  [("litellm_params", PDict [("metadata", PDict [("model_group", PStr group)]); ("model_info", PDict [("id", PStr id)])]);
   ("stream", PBool stream)].

Section events.
Context `{PyRuntime} {R : Type} `{RedisCacheI R}.
Implicit Types h : t R.

Definition log (group : string) (ev : event) : M (t R) unit :=
  match ev with
  | Answered now async id minute stream cs usage st en =>
      (if async then async_log_success_event else log_success_event) now minute (event_kwargs group id stream) cs usage st en
  | TimedOut now id => async_log_failure_event now (event_kwargs group id false) true
  end.

(** The cached dict of the group is well-formed and records the calls so far. *)
Record ready (k : Z * Z * Z) (dl : Z) (group : string) (args : RoutingArgs) (evs : list event) (d : dict) h : Prop := {
  r_holds : holds k dl (map_key (PStr group)) d (router_cache h);
  r_args : routing_args h = args;
  r_wf : dict_wf d;
  r_entries : entries_ok (max_latency_list_size args) d;
  r_tracked : tracked (max_latency_list_size args) evs d;
  r_len : (length d ≤ length evs)%nat
}.

Lemma latency_cache_run {A} (m : M (DualCache.t R) A) h r c' : m (router_cache h) = (r, c') → on_cache m h = (r, set_cache_field c' h).
Proof. intros E. unfold on_cache, m_zoom. by rewrite E. Qed.

Lemma set_cache_same h : set_cache_field (router_cache h) h = h.
Proof. by destruct h. Qed.

Lemma ready_unlogged k dl group args evs ev d h :
  logged ev = false → ready k dl group args evs d h → ready k dl group args (evs ++ [ev]) d h.
Proof. intros Hl []. split; try done; [by apply tracked_unlogged|]. rewrite length_app. lia. Qed.

Lemma local_get_same c now key d k dl :
  holds k dl key d c → now ≤ dl → get_counts (local_get now key) c = (Ok d, c).
Proof.
  intros Hh Hn. destruct (holds_get k dl key d c now Hh Hn) as [_ <-].
  unfold get_counts, mbind, M_bind. assert (local_get now key c = DualCache.async_get_cache now key false None c) as ->; [|done].
  unfold local_get, DualCache.async_get_cache, DualCache.read_through, m_try, mbind, M_bind, DualCache.on_im, m_zoom, m_get.
  destruct (InMemoryCache.get_cache now key _) as [[v|] im]; [|done]. destruct (is_none v); [|done].
  cbn [DualCache.redis_cache DualCache.set_im]. by rewrite (h_redis _ _ _ _ _ Hh).
Qed.

Lemma update_entry_step k dl group args evs d h now ev change g st :
  ready k dl group args evs d h → logged ev = true → advances (max_latency_list_size args) ev change →
  now ≤ dl ≤ now + ttl args → fits k (S (length evs)) →
  get_counts (g now (map_key (PStr group))) (router_cache h) = (Ok d, router_cache h) →
  (∀ d' c, st now (map_key (PStr group)) (PDict d') (Some (Some (ttl args))) c =
             LowestTpm.sync_set now (map_key (PStr group)) (PDict d') (Some (Some (ttl args))) c ∨
           st now (map_key (PStr group)) (PDict d') (Some (Some (ttl args))) c =
             LowestTpm.async_set now (map_key (PStr group)) (PDict d') (Some (Some (ttl args))) c) →
  ∃ c' d', update_entry g st now (map_key (PStr group)) (event_id ev) change h = (Ok (), set_cache_field c' h) ∧
    ready k dl group args (evs ++ [ev]) d' (set_cache_field c' h).
Proof.
  intros [Hh Ha Hw He Htr Hl] Hlog Hch [Hn Hd] Hf Eg Hst.
  destruct (change_entry _ ev change d evs Hlog Hch Hw He Htr) as (d' & Ec & Hw' & He' & Htr' & Hne & Hlen).
  destruct (holds_update k dl (map_key (PStr group)) d d' (router_cache h) now (Some (ttl args)) Hh Hne Hn)
    as (c1 & c' & Ew & Hc' & _ & Es & Eas).
  { intros im y ? ?. apply Hf; [done|lia]. } { done. }
  exists c', d'. split.
  - unfold update_entry. rewrite (m_bind_run _ _ _ h h) by done. rewrite Ha.
    rewrite (m_bind_run _ _ _ d h) by (by rewrite (latency_cache_run _ _ _ _ Eg), set_cache_same).
    rewrite (m_bind_run _ _ _ _ _ (latency_cache_run _ _ _ _ (in_place_run _ _ _ _ _ _ _ Ec Ew))).
    cbn [snd]. rewrite (latency_cache_run _ _ (Ok ()) c'); [done|]. cbn [router_cache set_cache_field option_map] in *.
    by destruct (Hst d' c1) as [->| ->].
  - split; try done. rewrite length_app. cbn [length]. lia.
Qed.

(** Whether or not the times of the call can be read, the log is kept up to date. *)
Lemma log_step k dl group args evs d h ev :
  ready k dl group args evs d h → 1 ≤ max_latency_list_size args → event_ok ev →
  event_time ev ≤ dl ≤ event_time ev + ttl args → fits k (S (length evs)) →
  ∃ h' d', log group ev h = (Ok (), h') ∧ ready k dl group args (evs ++ [ev]) d' h'.
Proof.
  intros Hr Hs Hok Ht Hf. pose proof Hr as [Hh Ha _ _ _ _]. destruct (holds_get _ _ _ _ _ (event_time ev) Hh) as [Eg Eag]; [lia|].
  destruct ev as [now async id minute stream cs usage st en|now id]; cbn [event_time event_ok] in *.
  - set (ev := Answered now async id minute stream cs usage st en).
    assert (∀ g s, get_counts (g now (map_key (PStr group))) (router_cache h) = (Ok d, router_cache h) →
      s = LowestTpm.sync_set ∨ s = LowestTpm.async_set →
      ∃ h' d', log_event async g s now minute (event_kwargs group id stream) cs usage st en h = (Ok (), h') ∧
        ready k dl group args (evs ++ [ev]) d' h') as Hrun.
    { intros g s E1 E2. unfold log_event, m_try.
      change (latency_target (event_kwargs group id stream)) with (Ok (Some (PStr group, id))).
      change (is_stream (event_kwargs group id stream)) with (if stream then true else false).
      replace (if stream then true else false) with stream by (by destruct stream).
      pose proof (answer_logged now async id minute stream cs usage st en) as Hlog. fold ev in Hlog.
      unfold mbind at 1, M_bind at 1, m_lift at 1.
      destruct (clock_sub en st) as [ms|] eqn:Ems. 2:{ exists h, d. split; [done|by apply ready_unlogged]. }
      unfold mbind at 1, M_bind at 1, m_lift at 1.
      destruct (first_token_time stream cs st en) as [fst|] eqn:Efst. 2:{ exists h, d. split; [done|by apply ready_unlogged]. }
      unfold mbind at 1, M_bind at 1, m_lift at 1. unfold mbind at 1, M_bind at 1, m_get. rewrite Ha.
      destruct (update_entry_step k dl group args evs d h now ev (record_call args minute (final_value async ms usage)
        (time_to_first_token fst usage) (total_tokens usage)) g s Hr Hlog) as (c' & d' & Eu & Hr'); try done.
      { destruct Hok as (Hmin & Hen & Hcs). apply record_call_advances; [done..| |].
        - by apply recorded_nonneg, Hen.
        - eapply first_token_nonneg; [exact Efst|by rewrite Ems|exact Hcs]. }
      { destruct E2 as [->| ->]; auto. }
      change (event_id ev) with id in Eu.
      rewrite (m_bind_run _ _ _ _ _ Eu). unfold count_success, m_modify. destruct (test_flag _); eexists _, d'; (split; [done|]).
      - destruct Hr'. by split.
      - done. }
    unfold log. destruct async; [apply (Hrun local_get LowestTpm.async_set)|apply (Hrun LowestTpm.sync_get LowestTpm.sync_set)]; auto.
    eapply local_get_same; [exact Hh|lia].
  - unfold log, async_log_failure_event, m_try.
    change (latency_target (event_kwargs group id false)) with (Ok (Some (PStr group, id))).
    unfold mbind at 1, M_bind at 1, m_lift at 1. unfold mbind at 1, M_bind at 1, m_get. rewrite Ha.
    destruct (update_entry_step k dl group args evs d h now (TimedOut now id) (push (max_latency_list_size args) "latency" (PFloat 1000))
      LowestTpm.async_get LowestTpm.async_set Hr) as (c' & d' & Eu & Hr'); try done; auto.
    { by apply time_out_advances. }
    cbn [event_id] in Eu. rewrite Eu. eexists _, d'. split; [done|]. done.
Qed.

Lemma log_run k dl group args evs0 d h evs :
  ready k dl group args evs0 d h → 1 ≤ max_latency_list_size args →
  Forall (λ ev, event_ok ev ∧ event_time ev ≤ dl ≤ event_time ev + ttl args) evs → fits k (length (evs0 ++ evs)) →
  ∃ h' d', m_iter (log group) evs h = (Ok (), h') ∧ ready k dl group args (evs0 ++ evs) d' h'.
Proof.
  intros Hr Hs Hall. revert evs0 d h Hr. induction Hall as [|ev evs [Hok Ht] Hall IH]; intros evs0 d h Hr Hf.
  { exists h, d. rewrite app_nil_r. done. }
  rewrite length_app in Hf. cbn [length] in Hf. destruct (log_step k dl group args evs0 d h ev Hr Hs Hok Ht) as (h1 & d1 & E1 & Hr1).
  { intros im y ? ?. apply Hf; [done|lia]. }
  destruct (IH (evs0 ++ [ev]) d1 h1 Hr1) as (h' & d' & E & Hr').
  { intros im y ? Hy. apply Hf; [done|]. rewrite !length_app in Hy. cbn [length] in Hy. lia. }
  exists h', d'. cbn [m_iter]. rewrite (m_bind_run _ _ _ _ _ E1). rewrite <-app_assoc in Hr'. done.
Qed.
End events.

(** ** The pick is near the lowest average *)

(** What the pick reads of a deployment: its id and its limits. *)
Definition limits_of (m : pyval) : option (string * option Z * option Z) :=
  match dep_id m, limit_or m "tpm", limit_or m "rpm", debug_base m with
  | Ok id, Ok a, Ok b, Ok _ =>
      match LowestTpm.opt_limit a, LowestTpm.opt_limit b with Some x, Some y => Some (id, x, y) | _, _ => None end
  | _, _, _, _ => None
  end.

Definition entry_of (d : dict) (minute : string) (m : pyval) : pyval :=
  match dep_id m with Ok id => default (fresh minute) (dget id d) | Raise _ => PNone end.

(** The average that is compared. *)
Definition latency_of (d : dict) (minute : string) (stream : bool) (m : pyval) : Q :=
  match item_latency stream (entry_of d minute m) with Ok q => q | Raise _ => 0%Q end.

Definition permitted (d : dict) (minute : string) (input : Z) (m : pyval) : bool :=
  match limits_of m with
  | Some (_, x, y) =>
      fits_limits x y (entry_usage (entry_of d minute m) minute "tpm") (entry_usage (entry_of d minute m) minute "rpm") input
  | None => false
  end.

Lemma foldl_nonneg l a : Forall nonneg l → (0 <= a)%Q → (0 <= foldl add_float a l)%Q.
Proof.
  intros Hl. revert a. induction Hl as [|v l Hv Hl IH]; intros a Ha; cbn [foldl]; [done|]. apply IH.
  destruct v; cbn [add_float]; try done. by apply (Qplus_le_compat 0 _ 0).
Qed.

Lemma average_ok size l : list_ok size (Some (PList l)) → ∃ q, average l = Ok q ∧ (0 <= q)%Q.
Proof.
  intros [[Hne _] Hnn]. destruct l as [|x l]; [done|]. eexists. split; [done|].
  apply Qle_shift_div_l; [change 0%Q with (inject_Z 0); rewrite <-Zlt_Qlt; cbn; lia|]. rewrite Qmult_0_l.
  by apply foldl_nonneg; [|apply Qle_refl].
Qed.

Lemma item_latency_ok size stream e : entry_ok size e → ∃ q, item_latency stream e = Ok q ∧ (0 <= q)%Q.
Proof.
  intros (e' & -> & [Hl Ht _] & [v Hv]). unfold item_latency, mbind, res_bind. cbn [py_get_or].
  rewrite Hv in *. destruct v as [| | | | | |l| | |]; try done.
  destruct (average_ok size l Hl) as [q Eq]. cbn [as_list default from_option Datatypes.id].
  destruct stream; [|eauto]. destruct (dget "time_to_first_token" e') as [w|]; [|eauto].
  destruct w as [| | | | | |f| | |]; try done. destruct (average_ok size f Ht) as [q' Eq'].
  cbn [as_list default from_option Datatypes.id]. destruct f as [|x f]; [by destruct Ht as [[? _] _]|]. eauto.
Qed.

Lemma fresh_ok size minute : 1 ≤ size → minute ∉ reserved → entry_ok size (fresh minute).
Proof.
  intros Hs Hm. eexists. split; [done|]. assert (minute ≠ "latency" ∧ minute ≠ "time_to_first_token") as [H1 H2] by set_solver.
  split; [|by eexists]. split.
  - split; [split; [done|]; cbn; lia|by repeat constructor].
  - cbn [dget]. rewrite (proj2 (String.eqb_neq "time_to_first_token" minute)) by congruence.
    by rewrite (proj2 (String.eqb_neq "time_to_first_token" "latency")).
  - intros m' Hm'. assert (m' ≠ "latency") by set_solver. unfold counting. cbn [dget].
    rewrite (proj2 (String.eqb_neq m' _)) by done. destruct (String.eqb_spec m' minute); [|done].
    intros k v. cbn [dget]. destruct (String.eqb k "tpm"); [intros [= <-]; eauto|].
    destruct (String.eqb k "rpm"); [intros [= <-]; eauto|done].
Qed.

Lemma judge_ok size minute input stream e m id x y :
  entry_ok size e → minute ∉ reserved → limits_of m = Some (id, x, y) →
  ∃ q, item_latency stream e = Ok q ∧ (0 <= q)%Q ∧
    judge minute input stream e m =
      Ok (PFloat q, fits_limits x y (entry_usage e minute "tpm") (entry_usage e minute "rpm") input).
Proof.
  intros He Hm Hl. destruct (item_latency_ok size stream e He) as (q & Eq & Hq). exists q. split_and!; [done..|].
  assert (counts_minute minute e) as Hc.
  { destruct He as (e' & -> & [_ _ Hc] & _). exists e'. split; [done|by apply Hc]. }
  unfold limits_of in Hl. unfold judge.
  destruct (dep_id m) as [i|]; [|done]. destruct (limit_or m "tpm") as [a|]; [|done].
  destruct (limit_or m "rpm") as [b|]; [|done]. destruct (debug_base m) as [k|]; [|done].
  destruct (LowestTpm.opt_limit a) as [x'|] eqn:Ea; [|done]. destruct (LowestTpm.opt_limit b) as [y'|] eqn:Eb; [|done].
  simplify_eq Hl. intros -> -> ->. rewrite !(used_in_int _ _ _ Hc). unfold mbind, res_bind.
  rewrite Eq, (over_limits_int _ _ _ _ _ _ _ Ea Eb). by rewrite negb_involutive.
Qed.

Lemma dget_perm (d d' : dict) k : dict_wf d → d ≡ₚ d' → dget k d' = dget k d.
Proof.
  intros Hw Hp. assert (dict_wf d') as Hw' by (unfold dict_wf, dkeys in *; by rewrite <-Hp).
  destruct (dget k d) as [v|] eqn:E.
  - apply dget_in; [done|]. rewrite <-Hp. by apply dget_Some_in.
  - destruct (dget k d') as [v|] eqn:E'; [|done]. apply dget_Some_in in E'. rewrite <-Hp in E'.
    apply (dget_in _ _ _ Hw) in E'. congruence.
Qed.

(** The chosen deployment is one of those within the buffer. *)
Lemma valid_choice args sorted pick :
  sorted ≠ [] → ascending sorted → Forall numeric sorted → (0 <= lowest_latency_buffer args)%Q →
  Forall (λ x, 0 <= num x.2)%Q sorted →
  ∃ c, random_choice pick (valid_deployments args sorted) = Ok c ∧ c ∈ sorted ∧
    ∀ y, y ∈ sorted → (num c.2 <= num y.2 + lowest_latency_buffer args * num y.2)%Q.
Proof.
  intros Hne Ha _ Hb Hpos. destruct Ha as [|x l Hmin Ha]; [done|]. set (s := x :: l) in *.
  assert (x ∈ valid_deployments args s) as Hx.
  { unfold valid_deployments, s. apply list_elem_of_filter. split; [|left]. apply Qle_bool_iff.
    apply Forall_cons in Hpos as [Hx _]. nra. }
  destruct (random_choice_in pick (valid_deployments args s)) as (c & Ec & Hc). { intros E. rewrite E in Hx. by apply elem_of_nil in Hx. }
  exists c. unfold valid_deployments, s in Hc. apply list_elem_of_filter in Hc as [Hle Hc]. apply Qle_bool_iff in Hle.
  split_and!; [done..|]. intros y Hy.
  assert (num x.2 <= num y.2)%Q as Hxy. { apply elem_of_cons in Hy as [->|Hy]; [apply Qle_refl|by apply Hmin]. }
  eapply Qle_trans; [exact Hle|]. nra.
Qed.

Lemma note_ok kw l : is_ok (note_latencies kw []) = true → ∃ kw', note_latencies kw l = Ok kw'.
Proof. unfold note_latencies. destruct kw as [kw|]; [|eauto]. destruct (dget _ kw) as [[]|]; try done; eauto. Qed.

(** Choosing from a well-formed dict. *)
Lemma choose_ok (sample : dict → dict) args minute healthy input kw pick d :
  (∀ l, sample l ≡ₚ l) → 1 ≤ max_latency_list_size args → (0 <= lowest_latency_buffer args)%Q → minute ∉ reserved →
  dict_wf d → entries_ok (max_latency_list_size args) d → distinct_ids healthy →
  Forall (λ m, is_Some (limits_of m)) healthy → is_ok (note_latencies kw []) = true →
  let stream := match kw with Some kw => is_stream kw | None => false end in
  ∃ d' o kw', fill_new (fresh minute) healthy d = (Ok (), d') ∧
    choose sample args minute healthy input kw pick d' = Ok (o, kw') ∧
    match o with
    | None => ∀ m, m ∈ healthy → permitted d minute input m = false
    | Some m => m ∈ healthy ∧ permitted d minute input m = true ∧
        ∀ m', m' ∈ healthy → permitted d minute input m' = true →
          (latency_of d minute stream m <=
             latency_of d minute stream m' + lowest_latency_buffer args * latency_of d minute stream m')%Q
    end.
Proof.
  intros Hsample Hsize Hbuf Hmin Hwf He Hd Hl Hkw stream.
  destruct (fill_new_spec (fresh minute) healthy d (di_ok _ Hd) Hwf) as (d' & Ef & Hwf' & Hg & _ & _ & _).
  exists d'. assert (dict_wf (sample d')) as Hws by (unfold dict_wf, dkeys in *; by rewrite Hsample).
  assert (∀ m id e, m ∈ healthy → dep_id m = Ok id → dget id (sample d') = Some e →
    judge minute input stream e m = Ok (PFloat (latency_of d minute stream m), permitted d minute input m) ∧
      (0 <= latency_of d minute stream m)%Q) as Hj.
  { intros m id e Hm Hid Ee. destruct (proj1 (Forall_forall _ _) Hl m Hm) as [[[id' x] y] Em].
    rewrite (dget_perm d') in Ee; [|done|by rewrite Hsample]. rewrite (Hg m id Hm Hid) in Ee. simplify_eq Ee. intros <-.
    assert (entry_ok (max_latency_list_size args) (default (fresh minute) (dget id d))) as Hok.
    { destruct (dget id d) as [v|] eqn:E; [by apply (He id)|by apply fresh_ok]. }
    destruct (judge_ok _ minute input stream _ m id' x y Hok Hmin Em) as (q & Eq & Hq & Ej).
    unfold latency_of, permitted, entry_of. rewrite Em, Hid, Eq. done. }
  destruct (potential_sorted (judge minute input stream) healthy (sample d') Hd Hws) as (l & l' & El & Es & Hp & Ha & Hn & Hin).
  { intros m id e Hm Hid Ee. destruct (Hj m id e Hm Hid Ee) as [-> _]. by eexists _, _. }
  assert (∀ m x, (m, x) ∈ l' ↔ m ∈ healthy ∧ permitted d minute input m = true ∧ x = PFloat (latency_of d minute stream m)) as Hl'.
  { intros m x. rewrite Hin. split.
    - intros [Hm (id & e & Hid & Ee & E)]. rewrite (proj1 (Hj m id e Hm Hid Ee)) in E. by simplify_eq.
    - intros (Hm & Hok & ->). split; [done|]. destruct (di_id _ _ Hd Hm) as [id Hid].
      assert (is_Some (dget id (sample d'))) as [e Ee]. { rewrite (dget_perm d'); [|done|by rewrite Hsample]. rewrite (Hg m id Hm Hid). eauto. }
      exists id, e. split_and!; [done..|]. rewrite (proj1 (Hj m id e Hm Hid Ee)). by rewrite Hok. }
  unfold choose. fold stream. rewrite El. unfold mbind, res_bind. destruct (potential l) as [|p0 p] eqn:Ep.
  { exists None, kw. split_and!; [done..|]. intros m Hm. apply not_true_iff_false. intros Hok.
    assert ((m, PFloat (latency_of d minute stream m)) ∈ l') as Hx by (by apply Hl'). rewrite <-Hp in Hx. by apply elem_of_nil in Hx. }
  rewrite Es. destruct (valid_choice args l' pick) as (c & Ec & Hc & Hmax); [|done..| |].
  { intros ->. by apply Permutation_nil_r in Hp. }
  { apply Forall_forall. intros [m x] (Hm & _ & ->)%Hl'. destruct (di_id _ _ Hd Hm) as [id Hid].
    refine (proj2 (Hj m id (default (fresh minute) (dget id d)) Hm Hid _)). rewrite (dget_perm d'); [|done|by rewrite Hsample]. by apply (Hg m). }
  rewrite Ec. destruct (note_ok kw (_latency_per_deployment l) Hkw) as [kw' ->]. exists (Some c.1), kw'.
  destruct c as [m x]. apply Hl' in Hc as (Hm & Hok & ->). split_and!; [done..|]. intros m' Hm' Hok'.
  apply (Hmax (m', PFloat (latency_of d minute stream m'))). by apply Hl'.
Qed.

(** *** What is compared is what the calls amount to *)

Definition permitted_after (evs : list event) (minute : string) (input : Z) (m : pyval) : bool :=
  match limits_of m with
  | Some (id, tpm, rpm) =>
      fits_limits tpm rpm (tokens_in minute (calls_of id evs)) (requests_in minute (calls_of id evs)) input
  | None => false
  end.

Definition latency_after (size : Z) (evs : list event) (stream : bool) (m : pyval) : Q :=
  match dep_id m with Ok id => mean_latency size stream (calls_of id evs) | Raise _ => 0%Q end.

Lemma foldl_add_float l a : (foldl add_float a l == a + foldr Qplus 0 (value_of <$> l))%Q.
Proof.
  revert a. induction l as [|v l IH]; intros a; cbn [foldl fmap list_fmap foldr]; [by rewrite Qplus_0_r|].
  rewrite IH, Qplus_assoc. apply Qplus_comp; [|reflexivity]. destruct v; cbn [add_float value_of]; by rewrite ?Qplus_0_r.
Qed.

Lemma average_mean l q : average l = Ok q → (q == mean (value_of <$> l))%Q.
Proof.
  unfold average, mean. destruct l as [|v l]; [done|]. intros [= <-].
  change (value_of <$> v :: l) with (value_of v :: (value_of <$> l)). cbn [length]. rewrite length_fmap.
  apply Qmult_comp; [|reflexivity]. eapply Qeq_trans; [apply (foldl_add_float (v :: l) 0)|apply Qplus_0_l].
Qed.

Lemma stored_mean v l qs q :
  as_list v = Ok l → stored (Some v) qs → average l = Ok q → (q == mean qs)%Q.
Proof. destruct v; cbn; try done. intros [= ->] <-. apply average_mean. Qed.

Lemma entry_latency size stream es e q :
  1 ≤ size → entry_wf size e → records size es e → item_latency stream (PDict e) = Ok q → (q == mean_latency size stream es)%Q.
Proof.
  intros Hs [_ Hf _] [R1 R2 _ _]. unfold item_latency, mean_latency, mbind, res_bind. cbn [py_get_or].
  destruct (dget "latency" e) as [v|] eqn:El; cbn [default from_option Datatypes.id].
  2:{ cbn [as_list]. destruct stream; [|done]. destruct (dget "time_to_first_token" e) as [w|] eqn:Et; [|done].
      cbn [default from_option Datatypes.id]. destruct (as_list w) as [f|] eqn:Ew; [|done]. destruct f as [|x f]; [done|].
      intros Eq. rewrite bool_decide_eq_false_2; [cbn [andb negb]; by eapply stored_mean|]. intros E.
      rewrite E in R2. destruct w; try done. cbn in Ew, R2. injection Ew as ->. rewrite (proj2 (kept_nil size [] Hs) eq_refl) in R2; done. }
  assert (∀ l, as_list v = Ok l → average l = Ok q → (q == mean (kept size (contribution <$> es)))%Q) as Hlat
    by (intros l E1 E2; by eapply stored_mean).
  destruct stream; cbn [andb].
  2:{ destruct (as_list v) as [l|]; [|done]. by apply Hlat. }
  destruct (dget "time_to_first_token" e) as [w|] eqn:Et; cbn [default from_option Datatypes.id].
  - destruct (as_list w) as [f|] eqn:Ew; [|done]. destruct w; try done. cbn in Ew. injection Ew as ->.
    destruct f as [|x f]; [by destruct Hf as [[? _] _]|]. intros Eq. rewrite bool_decide_eq_false_2.
    + cbn [negb]. eapply (stored_mean (PList (x :: f))); [done|exact R2|exact Eq].
    + intros E. rewrite E in R2. by rewrite (proj2 (kept_nil size [] Hs) eq_refl) in R2.
  - cbn [as_list]. cbn in R2. apply kept_nil in R2; [|done]. rewrite bool_decide_eq_true_2 by done. cbn [negb].
    destruct (as_list v) as [l|]; [|done]. by apply Hlat.
Qed.

Lemma compared_values size evs d minute input stream m id x y :
  1 ≤ size → minute ∉ reserved → entries_ok size d → tracked size evs d → limits_of m = Some (id, x, y) →
  permitted d minute input m = permitted_after evs minute input m ∧
  (latency_of d minute stream m == latency_after size evs stream m)%Q.
Proof.
  intros Hs Hmin He Ht Hl. assert (dep_id m = Ok id) as Hid.
  { unfold limits_of in Hl. destruct (dep_id m) as [i|]; [|done]. destruct (limit_or m "tpm"); [|done]. destruct (limit_or m "rpm"); [|done].
    destruct (debug_base m); [|done]. destruct (LowestTpm.opt_limit _); [|done]. destruct (LowestTpm.opt_limit _); [|done]. by simplify_eq. }
  unfold permitted, permitted_after, latency_of, latency_after, entry_of. rewrite Hl, Hid. specialize (Ht id).
  destruct (dget id d) as [v|] eqn:Ed; cbn [default from_option Datatypes.id].
  - destruct (He id v Ed) as (e & -> & Hwf & Hlat). split.
    + by rewrite (rec_tokens _ _ _ _ _ _ Ht minute Hmin), (rec_requests _ _ _ _ _ _ Ht minute Hmin).
    + destruct (item_latency_ok size stream (PDict e)) as (q & Eq & _); [by exists e|]. rewrite Eq. by eapply entry_latency.
  - rewrite Ht. split.
    + unfold fresh, entry_usage. cbn [dget]. rewrite (proj2 (String.eqb_neq minute "latency")) by set_solver.
      by rewrite String.eqb_refl.
    + unfold mean_latency. cbn [omap list_omap]. rewrite bool_decide_eq_true_2 by done. cbn [negb]. rewrite andb_false_r.
      rewrite (proj2 (kept_nil size _ Hs)) by done. assert (dget "time_to_first_token" [("latency", PList [PInt 0]); (minute, PDict [("tpm", PInt 0); ("rpm", PInt 0)])] = None) as Ef.
      { cbn [dget]. rewrite (proj2 (String.eqb_neq "time_to_first_token" minute)) by set_solver. done. }
      unfold item_latency, fresh, mbind, res_bind. cbn [py_get_or]. rewrite Ef. by destruct stream.
Qed.

Section pick_theorem.
Context `{PyRuntime} {R : Type} `{RedisCacheI R}.

End pick_theorem.

(** ** Where the code departs from it *)

(** A full list keeps its oldest times: whatever is measured afterwards only the last
    position changes, so the average no longer follows the deployment. *)
Theorem full_list_keeps_oldest size field vs l v e
    (Hsize : 1 ≤ size) (Hl : dget field e = Some (PList l)) (Hfull : Z.of_nat (length l) = size) :
  ∃ e', m_iter (push size field) (vs ++ [v]) e = (Ok (), e') ∧
    dget field e' = Some (PList (take (Z.to_nat (size - 1)) l ++ [v])).
Proof.
  assert (∀ w l e, dget field e = Some (PList l) → Z.of_nat (length l) = size →
    push size field w e = (Ok (), dset field (PList (take (Z.to_nat (size - 1)) l ++ [w])) e)) as Hpush.
  { intros w l0 e0 E Elen. unfold push, mbind, M_bind, m_get, m_lift, m_modify, list_at, py_index. rewrite E.
    destruct (Z.ltb_spec (Z.of_nat (length l0)) size); [lia|]. unfold slice_to. by destruct (Z.ltb_spec (size - 1) 0); [lia|]. }
  revert l e Hl Hfull. induction vs as [|w vs IH]; intros l e Hl Hfull; cbn [m_iter app].
  { rewrite (m_bind_run _ _ _ _ _ (Hpush v l e Hl Hfull)). eexists. split; [done|]. by rewrite dget_dset_eq. }
  rewrite (m_bind_run _ _ _ _ _ (Hpush w l e Hl Hfull)).
  destruct (IH (take (Z.to_nat (size - 1)) l ++ [w]) (dset field (PList (take (Z.to_nat (size - 1)) l ++ [w])) e)) as (e' & E & Hg).
  { by rewrite dget_dset_eq. } { rewrite length_app, length_take. cbn [length]. lia. }
  exists e'. split; [done|]. rewrite Hg. rewrite take_app_le by (rewrite length_take; lia). by rewrite take_take, Nat.min_id.
Qed.

(** The time of an answer without token counts (an embedding) is stored as a duration,
    and so is, by the asynchronous callback, that of an answer without completion tokens;
    the average adds up floats only, so such calls count as 0 seconds however long they
    took. *)
Theorem durations_count_as_zero us n l
    (Hl : ∀ v, v ∈ l → ∃ async us, v = final_value async (PTimedelta us) None) (Hne : l ≠ []) :
  final_value true (PTimedelta us) (Some (0, n)) = PTimedelta us ∧
  final_value false (PTimedelta us) (Some (0, n)) = PFloat (in_seconds (PTimedelta us)) ∧
  ∃ q, average l = Ok q ∧ (q == 0)%Q.
Proof.
  split_and!; [done..|]. assert (∀ a, foldl add_float a l = a) as H.
  { clear Hne. induction l as [|v l IH]; intros a; [done|]. cbn [foldl].
    destruct (Hl v ltac:(left)) as (async & us' & ->). apply IH. intros w Hw. apply Hl. by right. }
  unfold average. rewrite H. destruct l as [|v l]; [done|]. eexists. split; [done|]. apply Qmult_0_l.
Qed.

Module Sample.
#[local] Existing Instance toy_runtime.
#[local] Existing Instance RedisCache.toy_client.
#[local] Existing Instance RedisCache.RedisCache_instance.

Definition dep (id : string) (params : dict) : pyval :=
  PDict [("model_info", PDict [("id", PStr id)]); ("litellm_params", PDict params)].
Definition healthy : list pyval := [dep "fast" [("rpm", PInt 1)]; dep "slow" []; dep "down" []].

(** [fast] needs 0.1 s per token, [slow] 0.3 s, [down] timed out. *)
Definition calls : list event :=
  [Answered 0 false "fast" "12-30" false None (Some (10, 20)) (Datetime 0) (Datetime 1000000);
   Answered 1 true "slow" "12-30" true (Some (Some (Datetime 500000))) (Some (10, 20)) (Datetime 0) (Datetime 3000000);
   TimedOut 2 "down"].


Example picked :
  let h := (m_iter (log "g") calls (init (R := RedisCache.t RedisCache.toy)
      (DualCache.init DualCache.default_settings None None None None None 1000) default_args)).2 in
  (get_available_deployments (@reverse _) 5 "12-30" "g" healthy 4 None 7 h).1 = Ok (Some (dep "slow" []), None).
Proof. vm_compute. reflexivity. Qed.

Lemma full_list_keeps_oldest_witness :
  ∃ e', m_iter (push 3 "latency") [PFloat 7; PFloat 8; PFloat 9] [("latency", PList [PFloat 1; PFloat 2; PFloat 3])] = (Ok (), e') ∧
    dget "latency" e' = Some (PList [PFloat 1; PFloat 2; PFloat 9]).
Proof.
  apply (full_list_keeps_oldest 3 "latency" [PFloat 7; PFloat 8] [PFloat 1; PFloat 2; PFloat 3] (PFloat 9)); [lia|reflexivity..].
Defined.
End Sample.
End LowestLatency.
