(* ===== verification/BaseStrategy.v ===== *)
(** * BaseStrategy: [router_strategy/base_routing_strategy.py]

    Counters kept in memory and sent to Redis in batches: an increment changes the
    in-memory value at once and is queued; a periodic task compresses the queue, sends it,
    and merges the answers of Redis into memory.  Sending awaits, so other coroutines may
    queue increments meanwhile; [during] stands for what they do.  The set of keys is a
    list without repetitions.

    Theorems: compressing keeps the total of every key, a push sends what was queued once
    and leaves what was queued meanwhile, and a merged counter is the Redis total plus the
    increments not sent yet; increments are lost when a push fails, counters whose key was
    not incremented are not refreshed, and a merge is skipped while the instance is busy. *)

From stdpp Require Import base gmap sets list strings.
From Stdlib Require Import ZArith QArith Lqa Lia ZifyBool.
From S2P Require Import Prelude Heapq PyHeapq PyStr CostCalc InMemoryCache RedisCache DualCache.

#[local] Open Scope Z_scope.

Module BaseStrategy.

(** [RedisPipelineIncrementOperation]: key, increment and lifetime. *)
#[local] Abbreviation op := (string * pyval * option Z)%type.

Record t (R : Type) := mk {
  dual_cache : DualCache.t R;
  redis_increment_operation_queue : list op;
  in_memory_keys_to_update : list string
}.
Arguments mk {R}. Arguments dual_cache {R}. Arguments redis_increment_operation_queue {R}.
Arguments in_memory_keys_to_update {R}.

(** ** Compression *)

(** The dict [compressed_ops]: the operation of each key, with the increments added up. *)
Fixpoint compress_loop (compressed : list (string * (pyval * option Z))) (ops : list op)
    : res (list (string * (pyval * option Z))) :=
  match ops with
  | [] => Ok compressed
  | (key, value, ttl) :: rest =>
      match dget key compressed with
      | Some (v, ttl0) => v' ← py_add v value; compress_loop (dset key (v', ttl0) compressed) rest
      | None => compress_loop (dset key (value, ttl) compressed) rest
      end
  end.

Definition compress (ops : list op) : res (list op) :=
  match compress_loop [] ops with
  | Ok compressed => Ok ((λ kv, (kv.1, kv.2.1, kv.2.2)) <$> compressed)
  | Raise e => Raise e
  end.

(** The compressed operations are the first ones of their key in the queue, so adding to
    them changes the queue. *)
Fixpoint absorbed (compressed : list op) (seen : list string) (ops : list op) : list op :=
  match ops with
  | [] => []
  | (key, value, ttl) :: rest =>
      (if bool_decide (key ∈ seen) then (key, value, ttl)
       else default (key, value, ttl) (list_find (λ o : op, o.1.1 = key) compressed ≫= λ p, Some p.2))
      :: absorbed compressed (key :: seen) rest
  end.

Section ops.
Context `{PyRuntime} {R : Type} `{RedisCacheI R}.

Definition init (c : DualCache.t R) : t R := mk c [] [].

Definition set_dual (c : DualCache.t R) (s : t R) : t R :=
  mk c (redis_increment_operation_queue s) (in_memory_keys_to_update s).
Definition set_queue (q : list op) (s : t R) : t R := mk (dual_cache s) q (in_memory_keys_to_update s).
Definition set_keys (l : list string) (s : t R) : t R := mk (dual_cache s) (redis_increment_operation_queue s) l.

Definition on_dual {A} (m : M (DualCache.t R) A) : M (t R) A := m_zoom dual_cache set_dual m.
Definition on_memory {A} (m : M InMemoryCache.t A) : M (t R) A := on_dual (DualCache.on_im m).

Definition add_to_in_memory_keys_to_update (key : string) : M (t R) unit :=
  m_modify (λ s, if bool_decide (key ∈ in_memory_keys_to_update s) then s
                 else set_keys (in_memory_keys_to_update s ++ [key]) s).

Definition get_key_pattern_to_sync : option string := None.
Definition get_in_memory_keys_to_update (s : t R) : list string := in_memory_keys_to_update s.
Definition reset_in_memory_keys_to_update : M (t R) unit := m_modify (set_keys []).
Definition get_and_reset_in_memory_keys_to_update : M (t R) (list string) :=
  s ← m_get; reset_in_memory_keys_to_update ;; mret (in_memory_keys_to_update s).

Definition _increment_value_in_current_window (now : Z) (key : string) (value : pyval) (ttl : Z) : M (t R) pyval :=
  result ← on_memory (InMemoryCache.async_increment now key value (Some (Some ttl)));
  m_modify (λ s, set_queue (redis_increment_operation_queue s ++ [(key, value, Some ttl)]) s) ;;
  add_to_in_memory_keys_to_update key ;;
  mret result.

Definition _increment_value_list_in_current_window (now : Z) (increment_list : list (string * pyval)) (ttl : Z)
    : M (t R) (list pyval) :=
  m_map (λ kv, _increment_value_in_current_window now kv.1 kv.2 ttl) increment_list.

(** Without Redis, or with nothing queued, there is no result.  When sending fails, what
    was queued meanwhile is dropped too. *)
Definition _push_in_memory_increments_to_redis (now : Z) (during : t R → t R) : M (t R) (option (list (string * pyval))) :=
  m_try
    (s ← m_get;
     match DualCache.redis_cache (dual_cache s), redis_increment_operation_queue s with
     | None, _ | _, [] => mret None
     | Some _, queue =>
         compressed_queue ← m_lift (compress queue);
         m_modify (set_queue (absorbed compressed_queue [] queue)) ;;
         increment_result ←
           m_try (on_dual (DualCache.on_redis false None (rd_async_increment_pipeline now compressed_queue)))
                 (λ e, m_modify during ;; m_raise e);
         m_modify during ;;
         m_modify (λ s, set_queue (drop (length queue) (redis_increment_operation_queue s)) s) ;;
         mret (Some (match increment_result with
                     | Some values => zip (compressed_queue.*1.*1) values
                     | None => []
                     end))
     end)
    (λ _, m_modify (set_queue []) ;; mret None).

(** [float(v or 0)]. *)
Definition float_or_0 (v : pyval) : res Q := CostCalc.py_float (py_or v (PInt 0)).

Fixpoint float_all (vs : list pyval) : res (list Q) :=
  match vs with
  | [] => Ok []
  | v :: rest => q ← float_or_0 v; qs ← float_all rest; Ok (q :: qs)
  end.

(** The merge of one key. *)
Definition merge_key (now : Z) (redis_values : list (string * pyval)) (key : string) (before : Q) : M (t R) unit :=
  redis_val ← m_lift (float_or_0 (default (PInt 0) (dget key redis_values)));
  v ← on_memory (InMemoryCache.async_get_cache now key);
  after ← m_lift (float_or_0 v);
  if Qle_bool after redis_val
  then on_memory (InMemoryCache.async_set_cache now key (PFloat (redis_val + (after - before))) None)
  else mret ().

Definition _sync_in_memory_spend_with_redis (now : Z) (during : t R → t R) : M (t R) unit :=
  m_try
    (s ← m_get;
     match DualCache.redis_cache (dual_cache s) with
     | None => mret ()
     | Some _ =>
         let cache_keys_list := get_in_memory_keys_to_update s in
         in_memory_before ← on_memory (InMemoryCache.async_batch_get_cache now cache_keys_list);
         before ← m_lift (float_all in_memory_before);
         redis_values ← _push_in_memory_increments_to_redis now during;
         match redis_values with
         | None => mret ()
         | Some values => m_iter (λ kb, merge_key now values kb.1 kb.2) (zip cache_keys_list before)
         end
     end)
    (λ _, mret ()).
End ops.

(** ** Compression keeps the totals *)

(** What the operations add to a key. *)
Definition total (key : string) (ops : list op) : Q :=
  foldr (λ o acc, (if String.eqb o.1.1 key then num o.1.2 else 0) + acc)%Q 0%Q ops.

Definition held (key : string) (c : list (string * (pyval * option Z))) : Q :=
  match dget key c with Some (v, _) => num v | None => 0%Q end.

Lemma compress_loop_total ops c :
  Forall (λ o : op, is_number o.1.2) ops → dict_wf c → (∀ k v, dget k c = Some v → is_number v.1) →
  ∃ c', compress_loop c ops = Ok c' ∧ dict_wf c' ∧ (∀ k v, dget k c' = Some v → is_number v.1) ∧
    ∀ k, (held k c' == held k c + total k ops)%Q.
Proof.
  intros Hn. revert c. induction Hn as [|[[key value] tl] ops Hv Hn IH]; intros c Hw Hc; cbn [compress_loop].
  { exists c. split_and!; [done..|]. intros k. cbn. ring. }
  cbn [fst snd] in Hv.
  assert (∃ v' t', (match dget key c with
                    | Some (v, t0) => v'' ← py_add v value; compress_loop (dset key (v'', t0) c) ops
                    | None => compress_loop (dset key (value, tl) c) ops
                    end) = compress_loop (dset key (v', t') c) ops ∧ is_number v' ∧ (num v' == held key c + num value)%Q)
    as (v' & t' & -> & Hv' & Hnum).
  { unfold held. destruct (dget key c) as [[v t0]|] eqn:E.
    - destruct (py_add_num v value (Hc _ _ E) Hv) as (x & -> & ? & ?). eauto.
    - exists value, tl. split_and!; [done..|]. ring. }
  destruct (IH (dset key (v', t') c)) as (c' & E & Hw' & Hc' & Ht).
  { by apply dset_wf. }
  { intros k v. rewrite dget_dset. destruct (String.eqb key k); [by intros [= <-]|apply Hc]. }
  exists c'. split_and!; [done..|]. intros k. rewrite Ht. unfold held at 1. rewrite dget_dset. cbn [total foldr fst snd].
  fold (total k ops). destruct (String.eqb_spec key k) as [<-|]; [rewrite Hnum; ring|]. fold (held k c). ring.
Qed.

Lemma total_fmap k c :
  dict_wf c → (total k ((λ kv : string * (pyval * option Z), (kv.1, kv.2.1, kv.2.2)) <$> c) == held k c)%Q.
Proof.
  induction c as [|[key [v tl]] c IH]; intros Hw; [done|]. apply NoDup_cons in Hw as [Hni Hw].
  cbn [fmap list_fmap total foldr fst snd]. fold (total k ((λ kv : string * (pyval * option Z), (kv.1, kv.2.1, kv.2.2)) <$> c)).
  rewrite (IH Hw). unfold held. cbn [dget]. rewrite (String.eqb_sym k key). destruct (String.eqb_spec key k) as [<-|]; [|ring].
  fold (dkeys c) in Hni. rewrite (proj2 (dget_None key c)) by done. ring.
Qed.

(** Compressing a queue keeps what it adds to every key, and leaves one operation per key. *)
Lemma compress_total ops :
  Forall (λ o : op, is_number o.1.2) ops →
  ∃ sent, compress ops = Ok sent ∧ NoDup (sent.*1.*1) ∧ ∀ k, (total k sent == total k ops)%Q.
Proof.
  intros Hn. destruct (compress_loop_total ops [] Hn) as (c & E & Hw & _ & Ht); [constructor|done|].
  unfold compress. rewrite E. eexists. split; [done|]. split.
  - unfold dict_wf, dkeys in Hw. rewrite <-!list_fmap_compose. erewrite list_fmap_ext; [exact Hw|]. done.
  - intros k. rewrite (total_fmap k c Hw), Ht. unfold held. cbn. ring.
Qed.

Lemma absorbed_length sent seen ops : length (absorbed sent seen ops) = length ops.
Proof. revert seen. induction ops as [|[[k v] tl] ops IH]; intros seen; cbn [absorbed length]; [done|]. by rewrite IH. Qed.

(** ** Sending the queue *)

Section push.
Context `{PyRuntime} {R : Type} `{RedisCacheI R}.
Implicit Types s : t R.

(** Other coroutines only append to the queue, and do not replace the Redis client. *)
Definition appends (during : t R → t R) (new : list op) : Prop :=
  ∀ s, redis_increment_operation_queue (during s) = redis_increment_operation_queue s ++ new.

(** A push sends, in one pipeline with one operation per key, exactly what was
    queued when it started; if Redis answers, what was queued meanwhile stays queued. *)
Theorem push_sends_queue now during new s r
    (Hq : redis_increment_operation_queue s ≠ []) (Hn : Forall (λ o : op, is_number o.1.2) (redis_increment_operation_queue s))
    (Hr : DualCache.redis_cache (dual_cache s) = Some r) (Hd : appends during new) :
  ∃ sent, compress (redis_increment_operation_queue s) = Ok sent ∧ NoDup (sent.*1.*1) ∧
    (∀ k, (total k sent == total k (redis_increment_operation_queue s))%Q) ∧
    ∀ values r', rd_async_increment_pipeline now sent r = (Ok values, r') →
      ∃ s', _push_in_memory_increments_to_redis now during s =
              (Ok (Some (match values with Some vs => zip (sent.*1.*1) vs | None => [] end)), s') ∧
        redis_increment_operation_queue s' = new.
Proof.
  destruct (compress_total _ Hn) as (sent & Ec & Hnd & Ht). exists sent. split_and!; [done..|]. intros values r' Er.
  unfold _push_in_memory_increments_to_redis, m_try at 1. rewrite (m_bind_run _ _ _ s s) by done. rewrite Hr.
  destruct (redis_increment_operation_queue s) as [|o q] eqn:Eq; [done|]. rewrite <-Eq in *.
  rewrite (m_bind_run _ _ _ sent s) by (unfold m_lift; by rewrite Ec).
  set (s1 := set_queue (absorbed sent [] (redis_increment_operation_queue s)) s).
  rewrite (m_bind_run _ _ _ () s1) by done.
  assert (∃ c, m_try (on_dual (DualCache.on_redis false None (rd_async_increment_pipeline now sent)))
             (λ e, m_modify during ;; m_raise e) s1 = (Ok values, set_dual c s1)) as [c Ed].
  { unfold m_try, on_dual, m_zoom, DualCache.on_redis. unfold s1 at 1. cbn [dual_cache set_queue]. rewrite Hr. cbn. rewrite Er. eauto. }
  rewrite (m_bind_run _ _ _ _ _ Ed). rewrite (m_bind_run _ _ _ () (during (set_dual c s1))) by done.
  eexists. split; [done|]. cbn. rewrite Hd. unfold s1. cbn. rewrite <-(absorbed_length sent [] (redis_increment_operation_queue s)).
  by rewrite drop_app_length.
Qed.

(** When Redis fails, the increments are gone, those queued meanwhile too. *)
Theorem failed_push_loses_increments now during new s r e r'
    (Hq : redis_increment_operation_queue s ≠ []) (Hn : Forall (λ o : op, is_number o.1.2) (redis_increment_operation_queue s))
    (Hr : DualCache.redis_cache (dual_cache s) = Some r) (Hd : appends during new)
    (Hfail : ∀ sent, rd_async_increment_pipeline now sent r = (Raise e, r')) :
  ∃ s', _push_in_memory_increments_to_redis now during s = (Ok None, s') ∧ redis_increment_operation_queue s' = [].
Proof.
  destruct (compress_total _ Hn) as (sent & Ec & _ & _).
  unfold _push_in_memory_increments_to_redis, m_try at 1. rewrite (m_bind_run _ _ _ s s) by done. rewrite Hr.
  destruct (redis_increment_operation_queue s) as [|o q] eqn:Eq; [done|]. rewrite <-Eq in *.
  rewrite (m_bind_run _ _ _ sent s) by (unfold m_lift; by rewrite Ec).
  rewrite (m_bind_run _ _ _ () (set_queue (absorbed sent [] (redis_increment_operation_queue s)) s)) by done.
  unfold mbind at 1, M_bind at 1, m_try, on_dual, m_zoom, DualCache.on_redis. cbn [dual_cache set_queue]. rewrite Hr.
  cbn. rewrite Hfail. eexists. split; [done|]. done.
Qed.
End push.

(** ** Merging the answers of Redis *)

Section merge.
Context `{PyRuntime} {R : Type} `{RedisCacheI R}.
Implicit Types s : t R.

Definition memory s : InMemoryCache.t := DualCache.in_memory_cache (dual_cache s).

(** The key is cached as [v], which is live at [now]. *)
Definition live (now : Z) (key : string) (v : pyval) (im : InMemoryCache.t) : Prop :=
  InMemoryCache.cache_dict im !! key = Some v ∧ ∃ e, InMemoryCache.ttl_dict im !! key = Some e ∧ now ≤ e.

Lemma live_get now key v im :
  live now key v im → is_number v → InMemoryCache.get_cache now key im = (Ok v, im).
Proof.
  intros (Hv & e & He & Hle) Hn. unfold InMemoryCache.get_cache, InMemoryCache.evict_element_if_expired, InMemoryCache._is_key_expired.
  rewrite Hv, He. destruct (Z.ltb_spec e now); [lia|]. rewrite Hv. unfold is_number in Hn. by destruct v; destruct Hn.
Qed.

Lemma on_memory_run {A} (m : M InMemoryCache.t A) s r im :
  m (memory s) = (r, im) → on_memory m s = (r, set_dual (DualCache.set_im im (dual_cache s)) s).
Proof. intros E. unfold on_memory, on_dual, DualCache.on_im, m_zoom, memory in *. by rewrite E. Qed.

Lemma set_memory_same s : set_dual (DualCache.set_im (memory s) (dual_cache s)) s = s.
Proof. unfold memory. by destruct s as [[] ? ?]. Qed.

Lemma float_or_0_num v : is_number v → float_or_0 v = Ok (num v) ∨ (num v == 0)%Q ∧ float_or_0 v = Ok 0%Q.
Proof.
  unfold is_number, num, float_or_0, CostCalc.py_float, py_or. intros [q Hq].
  destruct (truthy v) eqn:E; [left; by rewrite Hq|]. right. split; [|done]. rewrite Hq.
  destruct v as [|[]|z|p| | | | | |]; cbn in *; try done; injection Hq as <-; cbn.
  - reflexivity.
  - apply negb_false_iff, Z.eqb_eq in E. rewrite E. reflexivity.
  - destruct (Qeq_bool p 0) eqn:Eq; [by apply Qeq_bool_iff in Eq|done].
Qed.

Lemma float_or_0_eq v : is_number v → ∃ q, float_or_0 v = Ok q ∧ (q == num v)%Q.
Proof. intros Hv. destruct (float_or_0_num v Hv) as [->|[Hz ->]]; eexists; split; [done|reflexivity|done|by symmetry]. Qed.

(** A merged counter is the total Redis answered plus what was counted while
    waiting for the answer, when that is not less than what memory holds. *)
Theorem merged_counter now key v before r s
    (Hwf : InMemoryCache.wf (memory s)) (Hmax : InMemoryCache.max_size_in_memory (memory s) ≠ 0)
    (Httl : 0 ≤ InMemoryCache.default_ttl (memory s))
    (Hsz : ∀ q, InMemoryCache.check_value_size (memory s) (PFloat q) = true)
    (Hlive : live now key v (memory s)) (Hv : is_number v) (Hr : is_number r) (Hle : (num v <= num r)%Q) :
  ∃ s' q, merge_key now [(key, r)] key before s = (Ok (), s') ∧
    live now key (PFloat q) (memory s') ∧ (q == num r + (num v - before))%Q.
Proof.
  destruct (float_or_0_eq v Hv) as (a & Ea & Hna). destruct (float_or_0_eq r Hr) as (b & Eb & Hnb).
  set (q := (b + (a - before))%Q).
  destruct (InMemoryCache.set_cache_entry now key (PFloat q) None (memory s) Hwf Hmax (Hsz q)) as (Hc & e & He & Hor).
  pose proof (InMemoryCache.set_cache_ok now key (PFloat q) None (memory s) Hwf) as Hok.
  destruct (InMemoryCache.set_cache now key (PFloat q) None (memory s)) as [rr im] eqn:E. cbn in Hc, He, Hok. subst rr.
  exists (set_dual (DualCache.set_im im (dual_cache s)) s), q. split_and!.
  - unfold merge_key. cbn [dget]. rewrite String.eqb_refl. cbn [default from_option].
    rewrite (m_bind_run _ _ _ b s) by (unfold m_lift; cbn; by rewrite Eb).
    rewrite (m_bind_run _ _ _ v s)
      by (unfold InMemoryCache.async_get_cache; by rewrite (on_memory_run _ _ _ _ (live_get _ _ _ _ Hlive Hv)), set_memory_same).
    rewrite (m_bind_run _ _ _ a s) by (unfold m_lift; by rewrite Ea).
    destruct (Qle_bool a b) eqn:El; [by apply on_memory_run|]. exfalso.
    assert (Qle_bool a b = true) by (apply Qle_bool_iff; lra). congruence.
  - split; [done|]. exists e. split; [done|]. destruct Hor as [->|[Hk Hn]]; [|done].
    unfold InMemoryCache.expiry. cbn. lia.
  - unfold q. lra.
Qed.

(** The merge is skipped while memory is ahead of Redis, although what was counted while
    waiting may be the reason: then memory misses what other instances counted, by as much
    as the total of Redis exceeds the value before. *)
Theorem busy_merge_skipped now key v before r s
    (Hlive : live now key v (memory s)) (Hv : is_number v) (Hr : is_number r)
    (Hbusy : (num r < num v)%Q) (Hother : (before < num r)%Q) :
  merge_key now [(key, r)] key before s = (Ok (), s) ∧ (num v < num r + (num v - before))%Q.
Proof.
  destruct (float_or_0_eq v Hv) as (a & Ea & Hna). destruct (float_or_0_eq r Hr) as (b & Eb & Hnb). split; [|lra].
  unfold merge_key. cbn [dget]. rewrite String.eqb_refl. cbn [default from_option].
  rewrite (m_bind_run _ _ _ b s) by (unfold m_lift; cbn; by rewrite Eb).
  rewrite (m_bind_run _ _ _ v s)
    by (unfold InMemoryCache.async_get_cache; by rewrite (on_memory_run _ _ _ _ (live_get _ _ _ _ Hlive Hv)), set_memory_same).
  rewrite (m_bind_run _ _ _ a s) by (unfold m_lift; by rewrite Ea).
  destruct (Qle_bool a b) eqn:El; [|done]. apply Qle_bool_iff in El. exfalso. lra.
Qed.

(** An instance that counted nothing since the last push learns nothing from Redis: no
    cached value changes, whatever other instances have counted. *)
Theorem idle_instance_not_refreshed now during s
    (Hq : redis_increment_operation_queue s = []) :
  (_sync_in_memory_spend_with_redis now during s).1 = Ok () ∧
  ∀ k, InMemoryCache.live_value now k (memory (_sync_in_memory_spend_with_redis now during s).2) =
       InMemoryCache.live_value now k (memory s).
Proof.
  assert (∀ keys c, ∃ vs c', InMemoryCache.async_batch_get_cache now keys c = (Ok vs, c') ∧
            ∀ k, InMemoryCache.live_value now k c' = InMemoryCache.live_value now k c) as Hget.
  { unfold InMemoryCache.async_batch_get_cache. induction keys as [|key keys IH]; intros c; cbn [m_map].
    { by exists [], c. }
    destruct (InMemoryCache.get_cache_live now key c) as (E & Hk & _).
    unfold InMemoryCache.async_get_cache at 1. destruct (InMemoryCache.get_cache now key c) as [v c1] eqn:Eg. cbn in E, Hk. subst v.
    destruct (IH c1) as (vs & c' & Ev & Hk'). eexists _, c'. split.
    - rewrite (m_bind_run _ _ _ _ _ Eg). rewrite (m_bind_run _ _ _ _ _ Ev). done.
    - intros k. by rewrite Hk', Hk. }
  enough (∃ s1, _sync_in_memory_spend_with_redis now during s = (Ok (), s1) ∧
            ∀ k, InMemoryCache.live_value now k (memory s1) = InMemoryCache.live_value now k (memory s)) as (s1 & -> & Hk) by by split.
  unfold _sync_in_memory_spend_with_redis, m_try. rewrite (m_bind_run _ _ _ s s) by done.
  destruct (DualCache.redis_cache (dual_cache s)) as [r|] eqn:Er; [|by exists s].
  destruct (Hget (get_in_memory_keys_to_update s) (memory s)) as (vs & im & Ev & Hk).
  set (s1 := set_dual (DualCache.set_im im (dual_cache s)) s). exists s1. split; [|done].
  rewrite (m_bind_run _ _ _ _ _ (on_memory_run _ _ _ _ Ev)). fold s1.
  destruct (float_all vs) as [qs|]; [|done]. rewrite (m_bind_run _ _ _ qs s1) by done.
  assert (_push_in_memory_increments_to_redis now during s1 = (Ok None, s1)) as Hp.
  { unfold _push_in_memory_increments_to_redis, m_try. rewrite (m_bind_run _ _ _ s1 s1) by done.
    unfold s1. cbn. by rewrite Er, Hq. }
  by rewrite (m_bind_run _ _ _ _ _ Hp).
Qed.
End merge.
End BaseStrategy.
