(* ===== verification/LowestTpmV2.v ===== *)
(** * LowestTpmV2: [router_strategy/lowest_tpm_rpm_v2.py]

    Usage-based routing across instances: tokens and requests are counted per deployment
    and minute under keys of their own, requests before the call and tokens after it.  The
    number of input tokens, the minute stamp and the random choice are arguments; the text
    of errors is left out.

    Theorems: a deployment with a limit of [n] requests admits exactly the first [n] calls
    of a minute, by either check; the pick is a deployment with the least usage among those
    within their limits, and there is none only when there is no such deployment.  A
    deployment whose id contains a colon is never picked. *)

From stdpp Require Import base gmap sets list strings.
From Stdlib Require Import Ascii ZArith QArith Lqa Lia ZifyBool.
From S2P Require Import Prelude Heapq PyHeapq PyStr CostCalc InMemoryCache RedisCache DualCache Strategy LowestTpm UsageMap BaseStrategy.

#[local] Open Scope Z_scope.

Module LowestTpmV2.
#[local] Abbreviation dict := (list (string * pyval)).

(** The router's cache is [dual_cache] of the base class. *)
Record t (R : Type) := mk {
  base : BaseStrategy.t R;
  ttl : Z;                                   (* routing_args.ttl *)
  test_flag : bool;
  logged_success : Z
}.
Arguments mk {R}. Arguments base {R}. Arguments ttl {R}. Arguments test_flag {R}. Arguments logged_success {R}.

(** [s.split(":")[0]]. *)
Definition before_colon (s : string) : string := (split_once ":" s).1.

Section ops.
Context `{PyRuntime} {R : Type} `{RedisCacheI R}.

Definition init (c : DualCache.t R) (routing_ttl : option Z) : t R :=
  mk (BaseStrategy.init c) (default (seconds 60) routing_ttl) false 0.

Definition set_base (b : BaseStrategy.t R) (h : t R) : t R := mk b (ttl h) (test_flag h) (logged_success h).
Definition on_base {A} (m : M (BaseStrategy.t R) A) : M (t R) A := m_zoom base set_base m.
Definition on_cache {A} (m : M (DualCache.t R) A) : M (t R) A := on_base (BaseStrategy.on_dual m).

(** [f"{id}:{model}:{what}:{minute}"]. *)
Definition usage_key (id model : pyval) (what minute : string) : string :=
  py_str id +:+ ":" +:+ py_str model +:+ ":" +:+ what +:+ ":" +:+ minute.

Definition deployment_key (deployment : pyval) (what minute : string) : res string :=
  info ← py_get_or deployment "model_info" (PDict []);
  id ← py_get info "id";
  params ← py_get_or deployment "litellm_params" (PDict []);
  model ← py_get params "model";
  Ok (usage_key id model what minute).

(** ** Before a call *)

(** Only a rate-limit error stops the call. *)
Definition unless_limited (deployment : pyval) (m : M (t R) pyval) : M (t R) pyval :=
  m_try m (λ e, match e with RateLimitError => m_raise RateLimitError | _ => mret deployment end).

Definition check_with (get_local : string → M (t R) pyval) (increment : string → M (t R) pyval)
    (minute : string) (deployment : pyval) : M (t R) pyval :=
  unless_limited deployment
    (key ← m_lift (deployment_key deployment "rpm" minute);
     local_result ← get_local key;
     rpm ← m_lift (LowestTpm.limit_of deployment "rpm");
     over ← m_lift (if is_none local_result then Ok false else LowestTpm.reaches local_result rpm);
     if over : bool then m_raise RateLimitError
     else
       result ← increment key;
       over ← m_lift (if is_none result then Ok false else LowestTpm.exceeds result rpm);
       if over : bool then m_raise RateLimitError else mret deployment).

Definition pre_call_check (now : Z) (minute : string) (deployment : pyval) : M (t R) pyval :=
  h ← m_get;
  check_with (λ key, on_cache (DualCache.get_cache now key true None))
    (λ key, on_cache (DualCache.increment_cache now key (PInt 1) false (Some (Some (ttl h))))) minute deployment.

Definition async_pre_call_check (now : Z) (minute : string) (deployment : pyval) : M (t R) pyval :=
  h ← m_get;
  check_with (λ key, on_cache (DualCache.async_get_cache now key true None))
    (λ key, on_base (BaseStrategy._increment_value_in_current_window now key (PInt 1) (ttl h))) minute deployment.

(** ** After a call *)

Definition count_success : M (t R) unit :=
  m_modify (λ h, if test_flag h then mk (base h) (ttl h) (test_flag h) (logged_success h + 1) else h).

(** The id and the model of a logged call, and its tokens; the asynchronous callback
    requires the name of the model to be there, the other one that it is not [None]. *)
Definition logged_call (async : bool) (kwargs : dict) : res (option (string * pyval * pyval)) :=
  let slo := default PNone (dget "standard_logging_object" kwargs) in
  if is_none slo then Raise ValueError else
  model_group ← py_get slo "model_group";
  hidden ← py_index slo "hidden_params";
  model ← (if async then py_index hidden "litellm_model_name" else py_get hidden "litellm_model_name");
  id ← py_get slo "model_id";
  if is_none model_group || is_none id || (negb async && is_none model) then Ok None else
  tokens ← py_get slo "total_tokens";
  Ok (Some (py_str id, model, tokens)).

Definition log_success_event (now : Z) (minute : string) (kwargs : dict) : M (t R) unit :=
  m_try
    (h ← m_get;
     call ← m_lift (logged_call false kwargs);
     match call with
     | None => mret ()
     | Some (id, model, tokens) =>
         on_cache (DualCache.increment_cache now (usage_key (PStr id) model "tpm" minute) tokens false (Some (Some (ttl h)))) ;;
         count_success
     end)
    (λ _, mret ()).

Definition async_log_success_event (now : Z) (minute : string) (kwargs : dict) : M (t R) unit :=
  m_try
    (h ← m_get;
     call ← m_lift (logged_call true kwargs);
     match call with
     | None => mret ()
     | Some (id, model, tokens) =>
         on_cache (DualCache.async_increment_cache now (usage_key (PStr id) model "tpm" minute) tokens false (Some (Some (ttl h)))) ;;
         count_success
     end)
    (λ _, mret ()).

(** ** The pick *)

(** [deployment_lookup.get(item)]: the last deployment with the id. *)
Fixpoint deployment_lookup (healthy : list pyval) (item : string) (acc : option pyval) : res (option pyval) :=
  match healthy with
  | [] => Ok acc
  | m :: ms =>
      info ← py_get_or m "model_info" (PDict []);
      id ← py_get info "id";
      if hashable id
      then deployment_lookup ms item (if py_eqb (PStr item) id then Some m else acc)
      else Raise TypeError
  end.

Definition within_limits (rpm_dict : dict) (input_tokens : Z) (item : string) (item_tpm m : pyval) : res bool :=
  tpm ← LowestTpm.limit_of m "tpm";
  rpm ← LowestTpm.limit_of m "rpm";
  projected ← py_add item_tpm (PInt input_tokens);
  over_tpm ← LowestTpm.exceeds projected tpm;
  if over_tpm : bool then Ok false else
  match dget item rpm_dict with
  | None | Some PNone => Ok true
  | Some used => next ← py_add used (PInt 1); over ← LowestTpm.reaches next rpm; Ok (negb over)
  end.

(** The lowest usage so far ([None] is infinity) and the deployments that have it. *)
Fixpoint potential_loop (healthy : list pyval) (rpm_dict : dict) (input_tokens : Z) (items : dict)
    (lowest : option pyval) (potential : list pyval) : res (list pyval) :=
  match items with
  | [] => Ok potential
  | (key, item_tpm) :: rest =>
      let item := before_colon key in
      found ← deployment_lookup healthy item None;
      match found with
      | None => potential_loop healthy rpm_dict input_tokens rest lowest potential
      | Some m =>
          if is_none item_tpm then potential_loop healthy rpm_dict input_tokens rest lowest potential else
          ok ← within_limits rpm_dict input_tokens item item_tpm m;
          if ok : bool then
            if match lowest with Some l => py_eqb item_tpm l | None => false end
            then potential_loop healthy rpm_dict input_tokens rest lowest (potential ++ [m])
            else
              less ← match lowest with
                     | Some l => py_lt item_tpm l
                     | None => match as_num item_tpm with Some _ => Ok true | None => Raise TypeError end
                     end;
              if less : bool then potential_loop healthy rpm_dict input_tokens rest (Some item_tpm) [m]
              else potential_loop healthy rpm_dict input_tokens rest lowest potential
          else potential_loop healthy rpm_dict input_tokens rest lowest potential
      end
  end.

Definition _return_potential_deployments (healthy : list pyval) (all_deployments : dict) (input_tokens : Z) (rpm_dict : dict)
    : res (list pyval) :=
  potential_loop healthy rpm_dict input_tokens all_deployments None [].

(** [{key.split(":")[0]: value}]. *)
Definition usage_dict (keys : list string) (values : list pyval) : dict :=
  foldl (λ acc kv, dset (before_colon kv.1) kv.2 acc) [] (zip keys values).

(** Healthy deployments without usage count 0. *)
Fixpoint zeros (healthy : list pyval) (tpm_dict : dict) : res dict :=
  match healthy with
  | [] => Ok tpm_dict
  | m :: ms =>
      id ← dep_id m;
      zeros ms (if is_none (default PNone (dget id tpm_dict)) then dset id (PInt 0) tpm_dict else tpm_dict)
  end.

Definition _common_checks_available_deployment (healthy : list pyval) (tpm_keys : list string) (tpm_values : option (list pyval))
    (rpm_keys : list string) (rpm_values : option (list pyval)) (input_tokens : Z) (pick : nat) : res (option pyval) :=
  match tpm_values, rpm_values with
  | Some tv, Some rv =>
      all_deployments ← zeros healthy (usage_dict tpm_keys tv);
      potential ← _return_potential_deployments healthy all_deployments input_tokens (usage_dict rpm_keys rv);
      match potential with
      | [] => Ok None
      | _ => Some <$> random_choice pick potential
      end
  | _, _ => Ok None
  end.

(** The keys of the healthy deployments, which are dicts. *)
Fixpoint keys_of (healthy : list pyval) (what minute : string) : res (list string) :=
  match healthy with
  | [] => Ok []
  | m :: ms => k ← deployment_key m what minute; ks ← keys_of ms what minute; Ok (k :: ks)
  end.

Definition async_get_available_deployments (now : Z) (minute : string) (healthy : list pyval) (input_tokens : Z) (pick : nat)
    : M (t R) pyval :=
  tpm_keys ← m_lift (keys_of healthy "tpm" minute);
  rpm_keys ← m_lift (keys_of healthy "rpm" minute);
  combined ← on_cache (DualCache.async_batch_get_cache now (tpm_keys ++ rpm_keys) false None);
  deployment ← m_lift (_common_checks_available_deployment healthy tpm_keys (take (length tpm_keys) <$> combined)
                         rpm_keys (drop (length tpm_keys) <$> combined) input_tokens pick);
  match deployment with Some d => mret d | None => m_raise RateLimitError end.

Definition get_available_deployments (now : Z) (minute : string) (healthy : list pyval) (input_tokens : Z) (pick : nat)
    : M (t R) pyval :=
  tpm_keys ← m_lift (keys_of healthy "tpm" minute);
  rpm_keys ← m_lift (keys_of healthy "rpm" minute);
  tpm_values ← on_cache (DualCache.batch_get_cache now tpm_keys false None);
  rpm_values ← on_cache (DualCache.batch_get_cache now rpm_keys false None);
  deployment ← m_lift (_common_checks_available_deployment healthy tpm_keys tpm_values rpm_keys rpm_values input_tokens pick);
  match deployment with Some d => mret d | None => m_raise ValueError end.
End ops.

(** ** Admission *)

Section admission.
Context `{PyRuntime} {R : Type} `{RedisCacheI R}.
Implicit Types h : t R.

(** The outcome of a call, as a value. *)
Definition attempt {S A} (m : M S A) : M S (res A) := λ s, let '(r, s') := m s in (Ok r, s').

Definition check (async : bool) : Z → string → pyval → M (t R) pyval :=
  if async then async_pre_call_check else pre_call_check.

Definition mem h : InMemoryCache.t := BaseStrategy.memory (base h).

(** A handler without Redis after [i] calls of the minute: the counter is [i], but stops
    at the limit (or at 1). *)
Record counting (k : Z * Z * Z) (key : string) (n tl dl : Z) (i : Z) h : Prop := {
  c_redis : DualCache.redis_cache (BaseStrategy.dual_cache (base h)) = None;
  c_wf : InMemoryCache.wf (mem h);
  c_cfg : InMemoryCache.cfg (mem h) = k;
  c_ttl : ttl h = tl;
  c_count : i = 0 ∧ InMemoryCache.cache_dict (mem h) !! key = None ∨
            0 < i ∧ InMemoryCache.cache_dict (mem h) !! key = Some (PInt (Z.min i (Z.max n 1))) ∧
              ∃ e, InMemoryCache.ttl_dict (mem h) !! key = Some e ∧ dl ≤ e
}.

Definition local_value (n i : Z) : pyval := if i =? 0 then PNone else PInt (Z.min i (Z.max n 1)).

Lemma v2_cache_run {A} (m : M (DualCache.t R) A) h r c :
  m (BaseStrategy.dual_cache (base h)) = (r, c) → on_cache m h = (r, set_base (BaseStrategy.set_dual c (base h)) h).
Proof. intros E. unfold on_cache, on_base, BaseStrategy.on_dual, m_zoom. by rewrite E. Qed.

Lemma set_dual_same h : set_base (BaseStrategy.set_dual (BaseStrategy.dual_cache (base h)) (base h)) h = h.
Proof. by destruct h as [[] ? ? ?]. Qed.

Lemma local_read (redis_get : Z → string → M R pyval) k key n tl dl i h now :
  counting k key n tl dl i h → 0 ≤ i → now ≤ dl →
  on_cache (DualCache.read_through redis_get now key true None) h = (Ok (local_value n i), h).
Proof.
  intros [Hr Hw Hc Ht Hn] Hi Hnow. rewrite (v2_cache_run _ _ (Ok (local_value n i)) (BaseStrategy.dual_cache (base h)));
    [by rewrite set_dual_same|].
  assert (InMemoryCache.get_cache now key (mem h) = (Ok (local_value n i), mem h)) as E.
  { unfold local_value. destruct Hn as [[-> Hk]|(Hpos & Hk & e & He & Hle)].
    - unfold InMemoryCache.get_cache. by rewrite Hk.
    - destruct (Z.eqb_spec i 0); [lia|]. apply BaseStrategy.live_get; [|by eexists]. split; [done|]. exists e. split; [done|lia]. }
  unfold DualCache.read_through, m_try, mbind, M_bind, m_get. rewrite (DualCache.on_im_run _ _ _ _ E).
  replace (DualCache.set_im (mem h) (BaseStrategy.dual_cache (base h))) with (BaseStrategy.dual_cache (base h))
    by (unfold mem, BaseStrategy.memory; by destruct (BaseStrategy.dual_cache (base h))).
  unfold local_value. destruct (i =? 0); cbn [is_none]; [|done]. by rewrite Hr.
Qed.

(** The increment of an admitted or refused call, by either check. *)
Lemma counted_increment async k key n tl dl i h now :
  counting k key n tl dl i h → 0 ≤ i → 0 ≤ n → (i = 0 ∨ i < n) → now ≤ dl → dl ≤ now + tl → k.1.1 ≠ 0 →
  (∀ im z, InMemoryCache.cfg im = k → InMemoryCache.check_value_size im (PInt z) = true) →
  ∃ h', (if async : bool then on_base (BaseStrategy._increment_value_in_current_window now key (PInt 1) (ttl h))
         else on_cache (DualCache.increment_cache now key (PInt 1) false (Some (Some (ttl h))))) h = (Ok (PInt (i + 1)), h') ∧
    counting k key n tl dl (i + 1) h'.
Proof.
  intros [Hr Hw Hc Ht Hn] Hi Hn0 Hlim Hnow Hdl Hk Hsz.
  assert (InMemoryCache.max_size_in_memory (mem h) ≠ 0) as Hmax by (by rewrite <-Hc in Hk).
  assert (∃ im, InMemoryCache.increment_cache now key (PInt 1) (Some (Some (ttl h))) (mem h) = (Ok (PInt (i + 1)), im) ∧
    InMemoryCache.inv k im ∧ InMemoryCache.cache_dict im !! key = Some (PInt (i + 1)) ∧
    ∃ e, InMemoryCache.ttl_dict im !! key = Some e ∧ dl ≤ e) as (im & Ei & [Hw' Hc'] & Hv & e & He & Hle).
  { destruct Hn as [[-> Hk0]|(Hpos & Hk0 & e & He & Hle)].
    - destruct (InMemoryCache.increment_cache_step now key 0 1 (Some (Some (ttl h))) 0 (mem h)) as (c' & E & Hinv & Hv & e & He & Hor);
        [done|done|by apply Hsz|by left|]. exists c'. rewrite Hc in Hinv. split_and!; [done..|]. exists e. split; [done|].
      destruct Hor as [->|[Hk' _]]; [unfold InMemoryCache.expiry; cbn; lia|].
      apply elem_of_dom_2 in Hk'. rewrite <-(InMemoryCache.core_dom _ (InMemoryCache.wf_core _ Hw)) in Hk'.
      apply elem_of_dom in Hk' as [? ?]. congruence.
    - replace (Z.min i (Z.max n 1)) with i in Hk0 by lia.
      destruct (InMemoryCache.increment_cache_step now key i 1 (Some (Some (ttl h))) e (mem h)) as (c' & E & Hinv & Hv & e' & He' & Hor);
        [done|done|by apply Hsz|right; split_and!; [done..|lia]|]. exists c'. rewrite Hc in Hinv. split_and!; [done..|]. exists e'.
      split; [done|]. destruct Hor as [->|[Hk' _]]; [unfold InMemoryCache.expiry; cbn; lia|]. simplify_eq. lia. }
  assert (0 < i + 1 ∧ InMemoryCache.cache_dict im !! key = Some (PInt (Z.min (i + 1) (Z.max n 1))) ∧
    ∃ e, InMemoryCache.ttl_dict im !! key = Some e ∧ dl ≤ e) as Hnew.
  { split_and!; [lia| |by exists e]. rewrite Hv. do 2 f_equal. lia. }
  set (c' := DualCache.set_im im (BaseStrategy.dual_cache (base h))).
  destruct async.
  - unfold on_base, m_zoom, BaseStrategy._increment_value_in_current_window.
    assert (BaseStrategy.on_memory (InMemoryCache.async_increment now key (PInt 1) (Some (Some (ttl h)))) (base h) =
              (Ok (PInt (i + 1)), BaseStrategy.set_dual c' (base h))) as E by (by apply BaseStrategy.on_memory_run).
    rewrite (m_bind_run _ _ _ _ _ E). eexists. split; [done|].
    split; cbn; try done; unfold BaseStrategy.add_to_in_memory_keys_to_update; case_bool_decide; try done; by right.
  - rewrite (v2_cache_run _ _ (Ok (PInt (i + 1))) c').
    + eexists. split; [done|]. split; try done. by right.
    + unfold DualCache.increment_cache. rewrite (m_bind_run _ _ _ (PInt (i + 1)) c').
      * unfold DualCache.on_redis. unfold c'. cbn. by rewrite Hr.
      * by apply DualCache.on_im_run.
Qed.

Lemma check_step async k key n tl dl i h now minute dep :
  counting k key n tl dl i h → 0 ≤ i → 0 ≤ n → now ≤ dl → dl ≤ now + tl → k.1.1 ≠ 0 →
  (∀ im z, InMemoryCache.cfg im = k → InMemoryCache.check_value_size im (PInt z) = true) →
  deployment_key dep "rpm" minute = Ok key → LowestTpm.limit_of dep "rpm" = Ok (PInt n) →
  ∃ h', check async now minute dep h = (if i <? n then Ok dep else Raise RateLimitError, h') ∧ counting k key n tl dl (i + 1) h'.
Proof.
  intros Hcnt Hi Hn0 Hnow Hdl Hk Hsz Hkey Hlim.
  set (incr := if async then on_base (BaseStrategy._increment_value_in_current_window now key (PInt 1) (ttl h))
               else on_cache (DualCache.increment_cache now key (PInt 1) false (Some (Some (ttl h))))).
  assert (∃ rg, check async now minute dep h =
    check_with (λ key, on_cache (DualCache.read_through rg now key true None))
      (λ key, if async then on_base (BaseStrategy._increment_value_in_current_window now key (PInt 1) (ttl h))
              else on_cache (DualCache.increment_cache now key (PInt 1) false (Some (Some (ttl h))))) minute dep h) as [rg ->].
  { destruct async; [exists rd_async_get_cache|exists rd_get_cache]; done. }
  unfold check_with, unless_limited, m_try. rewrite (m_bind_run _ _ _ key h) by (unfold m_lift; by rewrite Hkey).
  rewrite (m_bind_run _ _ _ _ _ (local_read rg k key n tl dl i h now Hcnt Hi Hnow)).
  rewrite (m_bind_run _ _ _ (PInt n) h) by (unfold m_lift; by rewrite Hlim).
  assert ((if is_none (local_value n i) then Ok false else LowestTpm.reaches (local_value n i) (PInt n)) =
            Ok (negb (i =? 0) && (n <=? i))) as ->.
  { unfold local_value, LowestTpm.reaches. destruct (Z.eqb_spec i 0) as [->|]; [done|]. cbn [is_none].
    rewrite py_lt_int. cbn [mbind res_bind negb andb]. unfold mbind, res_bind. f_equal. lia. }
  rewrite (m_bind_run _ _ _ (negb (i =? 0) && (n <=? i)) h) by done.
  destruct (negb (i =? 0) && (n <=? i)) eqn:Eo.
  { exists h. replace (i <? n) with false by lia. split; [done|]. destruct Hcnt as [Hr Hw Hc Ht Hn]. split; try done.
    right. destruct Hn as [[-> _]|(Hpos & Hv & He)]; [done|]. split_and!; [lia| |done]. rewrite Hv. do 2 f_equal. lia. }
  destruct (counted_increment async k key n tl dl i h now Hcnt Hi Hn0) as (h' & Einc & Hc'); [lia|done..|].
  exists h'. split; [|done]. rewrite (m_bind_run _ _ _ _ _ Einc). unfold LowestTpm.exceeds. cbn [is_none]. rewrite py_lt_int.
  rewrite (m_bind_run _ _ _ (n <? i + 1) h') by done.
  destruct (Z.ltb_spec n (i + 1)), (Z.ltb_spec i n); try lia; done.
Qed.

(** C6: On one handler without Redis, for a deployment with a limit of [n] requests per
    minute that has not been called in the minute: of a sequence of calls of this
    deployment alone within the minute and the lifetime of its counter exactly the first
    [n] pass, through either check, and all others are refused with a rate-limit error.
    *)
Theorem admits_exactly_limit async k key n dl h times minute dep
    (Hn : 0 ≤ n) (Hk : k.1.1 ≠ 0)
    (Hsz : ∀ im z, InMemoryCache.cfg im = k → InMemoryCache.check_value_size im (PInt z) = true)
    (Hkey : deployment_key dep "rpm" minute = Ok key) (Hlim : LowestTpm.limit_of dep "rpm" = Ok (PInt n))
    (Hnew : counting k key n (ttl h) dl 0 h) (Ht : Forall (λ now, now ≤ dl ≤ now + ttl h) times) :
  (m_map (λ now, attempt (check async now minute dep)) times h).1 =
    Ok (imap (λ i _, if Z.of_nat i <? n then Ok dep else Raise RateLimitError) times).
Proof.
  assert (∀ i h tl, counting k key n tl dl (Z.of_nat i) h → Forall (λ now, now ≤ dl ≤ now + tl) times →
    (m_map (λ now, attempt (check async now minute dep)) times h).1 =
      Ok (imap (λ j _, if Z.of_nat (i + j) <? n then Ok dep else Raise RateLimitError) times)) as Hrun.
  { clear h Ht Hnew. induction times as [|now times IH]; intros i h tl Hc Ht; [done|].
    apply Forall_cons in Ht as [[Hnow Hdl] Ht].
    destruct (check_step async k key n tl dl (Z.of_nat i) h now minute dep Hc) as (h' & E & Hc'); [lia|done..|].
    replace (Z.of_nat i + 1) with (Z.of_nat (S i)) in Hc' by lia. specialize (IH (S i) h' tl Hc' Ht).
    cbn [m_map imap]. rewrite Nat.add_0_r.
    rewrite (m_bind_run _ _ _ (if Z.of_nat i <? n then Ok dep else Raise RateLimitError) h')
      by (unfold attempt; by rewrite E).
    destruct (m_map _ times h') as [r h''] eqn:Em. cbn in IH. subst r. rewrite (m_bind_run _ _ _ _ _ Em). cbn. do 2 f_equal.
    apply imap_ext. intros j x _. cbn. by rewrite Nat.add_succ_r. }
  apply (Hrun 0%nat h (ttl h)); done.
Qed.
End admission.

(** ** The pick *)

(** A cached counter: nothing or a number. *)
Definition opt_val (o : option Z) : pyval := match o with Some n => PInt n | None => PNone end.

Definition no_colon (s : string) : bool := str_all (λ a, negb (Ascii.eqb a ":")) s.

Lemma before_colon_id s : no_colon s = true → before_colon s = s.
Proof. intros Hs. unfold before_colon. by rewrite (split_once_none _ _ Hs). Qed.

Lemma before_colon_key `{PyRuntime} id model what minute :
  no_colon id = true → before_colon (usage_key (PStr id) model what minute) = id.
Proof. intros Hs. exact (f_equal fst (split_once_app ":" id _ Hs)). Qed.

Lemma deployment_lookup_find healthy item acc :
  Forall (λ m, is_ok (dep_id m) = true) healthy → deployment_lookup healthy item acc = LowestTpm.find_last healthy item acc.
Proof.
  intros Hok. revert acc. induction Hok as [|m ms Hm Hok IH]; intros acc; [done|]. cbn [deployment_lookup LowestTpm.find_last].
  unfold dep_id in *. destruct m as [| | | | | | | |d|]; try done. cbn [py_index py_get_or] in *. unfold mbind, res_bind in *.
  destruct (dget "model_info" d) as [i|]; [|done]. cbn [default from_option]. unfold Datatypes.id.
  destruct i as [| | | | | | | |i|]; try done. cbn [py_index py_get] in *.
  destruct (dget "id" i) as [x|]; [|done]. destruct x as [| | | |x| | | | |]; try done. cbn [default from_option hashable]. unfold Datatypes.id.
  cbn [py_eqb]. apply IH.
Qed.

Section pick.
Variables (healthy : list pyval) (tpm_of rpm_of : string → option Z) (input : Z).
Hypothesis Hview : Forall (λ m, is_Some (LowestTpm.view m)) healthy.
Hypothesis Huniq : ∀ m m' id, m ∈ healthy → m' ∈ healthy → dep_id m = Ok id → dep_id m' = Ok id → m = m'.
Hypothesis Hcolon : ∀ m id, m ∈ healthy → dep_id m = Ok id → no_colon id = true.

Definition used (id : string) : Z := default 0 (tpm_of id).

(** One more request of [input] tokens stays within the token limit, and below the request
    limit. *)
Definition eligible (m : pyval) : bool :=
  match LowestTpm.view m with
  | Some (id, x, y) =>
      match x with Some z => used id + input <=? z | None => true end
      && match rpm_of id, y with Some u, Some z => u + 1 <? z | _, _ => true end
  | None => false
  end.

Lemma healthy_ids_ok : Forall (λ m, is_ok (dep_id m) = true) healthy.
Proof. eapply Forall_impl; [exact Hview|]. intros m [[[id a] b] Hv]. by rewrite (LowestTpm.view_id _ _ _ _ Hv). Qed.

Lemma v2_limits_eligible rpm_dict m id x y :
  LowestTpm.view m = Some (id, x, y) → dget id rpm_dict = Some (opt_val (rpm_of id)) →
  within_limits rpm_dict input id (PInt (used id)) m = Ok (eligible m).
Proof.
  intros Hv Hr. unfold eligible. rewrite Hv. unfold within_limits. rewrite Hr. unfold LowestTpm.view in Hv.
  destruct (dep_id m) as [k|]; [|done]. destruct (LowestTpm.limit_of m "tpm") as [a|]; [|done].
  destruct (LowestTpm.limit_of m "rpm") as [b|]; [|done].
  destruct (LowestTpm.opt_limit a) as [a'|] eqn:Ea; [|done]. destruct (LowestTpm.opt_limit b) as [b'|] eqn:Eb; [|done].
  simplify_eq Hv. intros -> -> ->. unfold mbind, res_bind. cbn [py_add as_int]. rewrite (UsageMap.exceeds_int _ _ _ Ea).
  destruct (match x with Some z => _ | None => true end); [|done]. cbn [negb andb].
  destruct (rpm_of id) as [u|]; [|done]. cbn [opt_val py_add as_int]. unfold LowestTpm.reaches.
  destruct b; simplify_eq/=; [done|]. cbn [is_none]. f_equal. unfold Qle_bool. cbn. lia.
Qed.

(** The deployments collected so far all have the lowest usage. *)
Definition good (lowest : option pyval) (potential : list pyval) : Prop :=
  match lowest with
  | None => potential = []
  | Some l => ∃ z, l = PInt z ∧ potential ≠ [] ∧
      ∀ m, m ∈ potential → m ∈ healthy ∧ eligible m = true ∧ ∃ id, dep_id m = Ok id ∧ used id = z
  end.

Definition bounded (items : list (string * pyval)) (lowest lowest' : option pyval) : Prop :=
  match lowest' with
  | None => lowest = None ∧ ∀ k v m, (k, v) ∈ items → m ∈ healthy → dep_id m = Ok k → eligible m = false
  | Some l => ∃ z, l = PInt z ∧ (∀ k v m, (k, v) ∈ items → m ∈ healthy → dep_id m = Ok k → eligible m = true → z ≤ used k) ∧
      ∀ z0, lowest = Some (PInt z0) → z ≤ z0
  end.

(** An item that is not taken changes nothing. *)
Lemma bounded_skip k v items lowest lowest' :
  (∀ m, m ∈ healthy → dep_id m = Ok k → eligible m = false ∨ ∃ z0, lowest = Some (PInt z0) ∧ z0 ≤ used k) →
  bounded items lowest lowest' → bounded ((k, v) :: items) lowest lowest'.
Proof.
  intros Hno. destruct lowest' as [l|]; cbn [bounded].
  - intros (z & -> & H1 & H2). exists z. split_and!; [done| |done].
    intros k' v' m [[= -> ->]|Hin]%elem_of_cons Hm Hid Hel; [|by eapply H1].
    destruct (Hno m Hm Hid) as [|(z0 & -> & Hz)]; [congruence|]. specialize (H2 _ eq_refl). lia.
  - intros [-> H1]. split; [done|]. intros k' v' m [[= -> ->]|Hin]%elem_of_cons Hm Hid; [|by eapply H1].
    by destruct (Hno m Hm Hid) as [|(? & ? & _)].
Qed.

Lemma potential_loop_ok rpm_dict items lowest potential :
  (∀ k v, (k, v) ∈ items → v = PInt (used k) ∧ no_colon k = true) →
  (∀ m id, m ∈ healthy → dep_id m = Ok id → dget id rpm_dict = Some (opt_val (rpm_of id))) →
  good lowest potential →
  ∃ p lowest', potential_loop healthy rpm_dict input items lowest potential = Ok p ∧ good lowest' p ∧ bounded items lowest lowest'.
Proof.
  intros Hitems Hrpm. revert lowest potential. induction items as [|[k v] items IH]; intros lowest potential Hg; cbn [potential_loop].
  { exists potential, lowest. split_and!; [done..|]. destruct lowest as [l|]; cbn.
    - destruct Hg as (z & -> & _). exists z. split_and!; [done|by intros ? ? ? ?%elem_of_nil|]. intros z0 [= ->]. lia.
    - split; [done|]. by intros ? ? ? ?%elem_of_nil. }
  destruct (Hitems k v) as [-> Hk]; [left|]. rewrite (before_colon_id _ Hk).
  assert (∀ k v, (k, v) ∈ items → v = PInt (used k) ∧ no_colon k = true) as Hrest by (intros; apply Hitems; by right).
  assert (Hskip : (∀ m, m ∈ healthy → dep_id m = Ok k → eligible m = false ∨ ∃ z0, lowest = Some (PInt z0) ∧ z0 ≤ used k) →
    ∃ p lowest', potential_loop healthy rpm_dict input items lowest potential = Ok p ∧ good lowest' p ∧
      bounded ((k, PInt (used k)) :: items) lowest lowest').
  { intros Hno. destruct (IH Hrest lowest potential Hg) as (p & l' & E & Hg' & Hb). exists p, l'.
    split_and!; [done..|]. by apply bounded_skip. }
  rewrite (deployment_lookup_find _ _ _ healthy_ids_ok). destruct (UsageMap.find_last_found healthy k healthy_ids_ok) as (o & -> & Ho).
  unfold mbind, res_bind. destruct o as [m|].
  2:{ apply Hskip. intros m Hm Hid. by destruct (Ho m Hm). }
  destruct Ho as [Hm Hid]. cbn [is_none]. destruct (proj1 (Forall_forall _ _) Hview m Hm) as [[[id x] y] Hv].
  assert (id = k) as -> by (pose proof (LowestTpm.view_id _ _ _ _ Hv) as H; unfold LowestTpm.has_id in H; congruence).
  rewrite (v2_limits_eligible rpm_dict m k x y Hv (Hrpm m k Hm Hid)).
  destruct (eligible m) eqn:Hel. 2:{ apply Hskip. intros m' Hm' Hid'. left. by rewrite (Huniq m' m k). }
  assert (∀ lowest1 pot1, good lowest1 pot1 → (∃ z1, lowest1 = Some (PInt z1) ∧ z1 ≤ used k ∧ ∀ z0, lowest = Some (PInt z0) → z1 ≤ z0) →
    ∃ p lowest', potential_loop healthy rpm_dict input items lowest1 pot1 = Ok p ∧ good lowest' p ∧
      bounded ((k, PInt (used k)) :: items) lowest lowest') as Htake.
  { intros lowest1 pot1 Hg1 (z1 & -> & Hz1 & Hl1). destruct (IH Hrest _ _ Hg1) as (p & l' & E & Hg' & Hb). exists p, l'.
    split_and!; [done..|]. destruct l' as [l'|]; [|by destruct Hb]. destruct Hb as (z & -> & H1 & H2).
    specialize (H2 _ eq_refl). exists z. split_and!; [done| |].
    - intros k' v' m' [[= -> ->]|Hin]%elem_of_cons Hm' Hid' Hel'; [lia|by eapply H1].
    - intros z0 Hz0. specialize (Hl1 _ Hz0). lia. }
  destruct lowest as [l|]; cbn [good] in Hg.
  - destruct Hg as (z & -> & Hne & Hall). cbn [py_eqb as_num]. rewrite py_lt_int.
    replace (Qeq_bool (inject_Z (used k)) (inject_Z z)) with (used k =? z) by (unfold Qeq_bool; cbn; lia).
    destruct (Z.eqb_spec (used k) z) as [Hz|Hz].
    + apply Htake; [|exists z; split_and!; [done|lia|by intros z0 [= <-]]]. exists z. split_and!; [done|by destruct potential|].
      intros m' [Hin|Hin]%elem_of_app; [by apply Hall|]. apply list_elem_of_singleton in Hin as ->. split_and!; [done..|]. by exists k.
    + destruct (Z.ltb_spec (used k) z).
      * apply Htake; [|exists (used k); split_and!; [done|lia|intros z0 [= <-]; lia]]. exists (used k). split_and!; [done..|].
        intros m' ->%list_elem_of_singleton. split_and!; [done..|]. by exists k.
      * apply Hskip. intros m' Hm' Hid'. right. by exists z.
  - cbn [as_num]. apply Htake; [|exists (used k); split_and!; [done|lia|done]]. exists (used k). split_and!; [done..|].
    intros m' ->%list_elem_of_singleton. split_and!; [done..|]. by exists k.
Qed.

(** The answers of the cache by deployment. *)
Lemma usage_dict_get (f : string → option Z) keys ids :
  before_colon <$> keys = ids →
  dict_wf (usage_dict keys ((λ id, opt_val (f id)) <$> ids)) ∧
  ∀ k, dget k (usage_dict keys ((λ id, opt_val (f id)) <$> ids)) = if bool_decide (k ∈ ids) then Some (opt_val (f k)) else None.
Proof.
  intros <-. unfold usage_dict.
  assert (∀ acc, dict_wf acc → dict_wf (foldl (λ acc kv, dset (before_colon kv.1) kv.2 acc) acc
      (zip keys ((λ id, opt_val (f id)) <$> (before_colon <$> keys)))) ∧
    ∀ k, dget k (foldl (λ acc kv, dset (before_colon kv.1) kv.2 acc) acc
      (zip keys ((λ id, opt_val (f id)) <$> (before_colon <$> keys)))) =
    if bool_decide (k ∈ before_colon <$> keys) then Some (opt_val (f k)) else dget k acc) as Hf.
  { induction keys as [|key keys IH]; intros acc Hw; cbn; [done|].
    destruct (IH (dset (before_colon key) (opt_val (f (before_colon key))) acc)) as [Hw' Hg]; [by apply dset_wf|].
    split; [done|]. intros k. rewrite Hg, dget_dset.
    destruct (String.eqb_spec (before_colon key) k) as [->|Hne].
    - rewrite (bool_decide_eq_true_2 (k ∈ k :: _)) by (by left). by case_bool_decide.
    - destruct (decide (k ∈ before_colon <$> keys)) as [Hin|Hin].
      + rewrite !bool_decide_eq_true_2; [done|by right|done].
      + rewrite !bool_decide_eq_false_2; [done| |done]. intros [?|?]%elem_of_cons; congruence. }
  destruct (Hf [] ltac:(constructor)) as [Hw Hg]. split; [done|]. intros k. by rewrite Hg.
Qed.

(** Filling in the zeros gives every id its usage. *)
Lemma zeros_ok ids l d :
  Forall2 (λ m id, dep_id m = Ok id) l ids → dict_wf d →
  (∀ k, k ∈ ids → dget k d = Some (PInt (used k)) ∨ dget k d = Some (opt_val (tpm_of k))) →
  ∃ d', zeros l d = Ok d' ∧ dict_wf d' ∧ (∀ k, k ∈ ids → dget k d' = Some (PInt (used k))) ∧
    (∀ k, k ∉ ids → dget k d' = dget k d).
Proof.
  intros Hl. revert d. induction Hl as [|m id l ids Hid Hl IH]; intros d Hw Hd; cbn [zeros].
  { exists d. split_and!; try done. by intros k ?%elem_of_nil. }
  rewrite Hid. cbn [mbind res_bind].
  set (d1 := if is_none (default PNone (dget id d)) then dset id (PInt 0) d else d).
  assert (dget id d1 = Some (PInt (used id))) as H1.
  { unfold d1. destruct (Hd id ltac:(left)) as [E|E]; rewrite E; [done|]. unfold used.
    destruct (tpm_of id) as [n|]; [done|]. cbn. by rewrite dget_dset_eq. }
  assert (∀ k, k ≠ id → dget k d1 = dget k d) as Hne.
  { intros k Hk. unfold d1. destruct (is_none _); [|done]. by rewrite dget_dset_ne by congruence. }
  destruct (IH d1) as (d' & E & Hw' & Hin & Hout).
  { unfold d1. destruct (is_none _); [by apply dset_wf|done]. }
  { intros k Hk. destruct (decide (k = id)) as [->|Hk']; [by left|]. rewrite (Hne _ Hk'). apply Hd. by right. }
  exists d'. split_and!; [done..| |].
  - intros k [->|Hk]%elem_of_cons; [|by apply Hin]. destruct (decide (id ∈ ids)) as [Hi|Hi]; [by apply Hin|]. by rewrite Hout.
  - intros k [Hk1 Hk2]%not_elem_of_cons. by rewrite Hout, Hne.
Qed.

(** The pick, from the answers of the cache. *)
Lemma common_checks_ok tk rk ids pick :
  Forall2 (λ m id, dep_id m = Ok id) healthy ids → before_colon <$> tk = ids → before_colon <$> rk = ids →
  ∃ o, _common_checks_available_deployment healthy tk (Some ((λ id, opt_val (tpm_of id)) <$> ids)) rk
         (Some ((λ id, opt_val (rpm_of id)) <$> ids)) input pick = Ok o ∧
    match o with
    | None => ∀ m, m ∈ healthy → eligible m = false
    | Some m => m ∈ healthy ∧ eligible m = true ∧
        ∀ m' id id', m' ∈ healthy → eligible m' = true → dep_id m = Ok id → dep_id m' = Ok id' → used id ≤ used id'
    end.
Proof.
  intros Hids Htk Hrk. destruct (usage_dict_get tpm_of tk ids Htk) as [Hwt Hgt].
  destruct (usage_dict_get rpm_of rk ids Hrk) as [_ Hgr].
  assert (∀ m id, m ∈ healthy → dep_id m = Ok id → id ∈ ids) as Hin.
  { intros m id Hm Hid. apply list_elem_of_lookup in Hm as [j Hj].
    destruct (Forall2_lookup_l _ _ _ _ _ Hids Hj) as (id' & Hj' & Hid'). replace id with id' by congruence.
    by eapply list_elem_of_lookup_2. }
  assert (∀ id, id ∈ ids → ∃ m, m ∈ healthy ∧ dep_id m = Ok id) as Hof.
  { intros id Hi. apply list_elem_of_lookup in Hi as [j Hj].
    destruct (Forall2_lookup_r _ _ _ _ _ Hids Hj) as (m & Hj' & Hid'). exists m. split; [by eapply list_elem_of_lookup_2|done]. }
  destruct (zeros_ok ids healthy (usage_dict tk ((λ id, opt_val (tpm_of id)) <$> ids)) Hids Hwt) as (d & Ez & Hwd & Hd & Hnd).
  { intros k Hk. right. by rewrite Hgt, bool_decide_eq_true_2. }
  destruct (potential_loop_ok (usage_dict rk ((λ id, opt_val (rpm_of id)) <$> ids)) d None []) as (p & l & Ep & Hg & Hb).
  { intros k v Hkv. apply (dget_in _ _ _ Hwd) in Hkv. destruct (decide (k ∈ ids)) as [Hk|Hk].
    - rewrite (Hd _ Hk) in Hkv. simplify_eq Hkv. intros <-. split; [done|]. destruct (Hof k Hk) as (m & Hm & Hid). by eapply Hcolon.
    - rewrite (Hnd _ Hk), Hgt, bool_decide_eq_false_2 in Hkv by done. done. }
  { intros m id Hm Hid. rewrite Hgr, bool_decide_eq_true_2; [done|]. by eapply Hin. }
  { done. }
  unfold _common_checks_available_deployment, _return_potential_deployments. rewrite Ez. unfold mbind, res_bind. rewrite Ep.
  assert (∀ m id, m ∈ healthy → dep_id m = Ok id → (id, PInt (used id)) ∈ d) as Hitem.
  { intros m id Hm Hid. apply dget_Some_in, Hd. by eapply Hin. }
  destruct l as [l|]; cbn [good bounded] in *.
  - destruct Hg as (z & -> & Hne & Hall). destruct Hb as (z' & [= <-] & Hmin & _). destruct p as [|m0 p]; [done|].
    destruct (random_choice_in pick (m0 :: p) Hne) as (m & -> & Hm). exists (Some m). split; [done|].
    destruct (Hall m Hm) as (Hm' & Hel & id & Hid & Hz). split_and!; [done..|].
    intros m' id1 id' Hm1 Hel1 Hid1 Hid'. replace id1 with id by congruence. rewrite Hz.
    eapply Hmin; [by eapply Hitem|done..].
  - subst p. exists None. split; [done|]. destruct Hb as [_ Hno]. intros m Hm.
    apply (proj1 (Forall_forall _ _) healthy_ids_ok) in Hm as Hok. destruct (dep_id m) as [id|] eqn:Hid; [|done].
    eapply Hno; [by eapply Hitem|done..].
Qed.
End pick.

Section choice.
Context `{PyRuntime} {R : Type} `{RedisCacheI R}.

Lemma deployment_key_id m what minute key id :
  deployment_key m what minute = Ok key → dep_id m = Ok id → no_colon id = true → before_colon key = id.
Proof.
  unfold deployment_key, dep_id, mbind, res_bind. destruct m as [| | | | | | | |d|]; try done. cbn [py_get_or py_index].
  destruct (dget "model_info" d) as [i|]; [|done]. cbn [default from_option]. unfold Datatypes.id.
  destruct i as [| | | | | | | |i|]; try done. cbn [py_get py_index].
  destruct (dget "id" i) as [x|]; [|done]. destruct x as [| | | |x| | | | |]; try done. cbn [default from_option]. unfold Datatypes.id.
  destruct (py_get _ "model") as [model|]; [|done]. intros [= <-] [= <-] Hc. by apply before_colon_key.
Qed.

Lemma keys_of_ids l what minute keys ids :
  keys_of l what minute = Ok keys → Forall2 (λ m id, dep_id m = Ok id) l ids → Forall (λ id, no_colon id = true) ids →
  before_colon <$> keys = ids ∧ length keys = length ids.
Proof.
  intros Hk Hl. revert keys Hk. induction Hl as [|m id l ids Hid Hl IH]; intros keys Hk Hc; cbn [keys_of] in Hk.
  { by injection Hk as <-. }
  apply Forall_cons in Hc as [Hc Hcs]. destruct (deployment_key m what minute) as [k|] eqn:Ek; [|done].
  destruct (keys_of l what minute) as [ks|] eqn:Eks; [|done]. injection Hk as <-. destruct (IH ks eq_refl Hcs) as [<- Hlen].
  cbn. rewrite (deployment_key_id _ _ _ _ _ Ek Hid Hc). by rewrite Hlen.
Qed.

(** Usage-based routing across instances.  Whatever tokens and requests the
    cache reports for the minute, the pick is a healthy deployment with the fewest tokens
    among those one more request keeps within their limits; the request is refused with a
    rate-limit error only when there is no such deployment. *)
Theorem pick_is_least_used now minute healthy ids tpm_of rpm_of input pick (h h1 : t R) tk rk
    (Hview : Forall (λ m, is_Some (LowestTpm.view m)) healthy) (Hids : Forall2 (λ m id, dep_id m = Ok id) healthy ids)
    (Hnd : NoDup ids) (Hc : Forall (λ id, no_colon id = true) ids)
    (Htk : keys_of healthy "tpm" minute = Ok tk) (Hrk : keys_of healthy "rpm" minute = Ok rk)
    (Hcache : on_cache (DualCache.async_batch_get_cache now (tk ++ rk) false None) h =
       (Ok (Some (((λ id, opt_val (tpm_of id)) <$> ids) ++ ((λ id, opt_val (rpm_of id)) <$> ids))), h1)) :
  match async_get_available_deployments now minute healthy input pick h with
  | (Ok m, _) => m ∈ healthy ∧ eligible tpm_of rpm_of input m = true ∧
      ∀ m' id id', m' ∈ healthy → eligible tpm_of rpm_of input m' = true → dep_id m = Ok id → dep_id m' = Ok id' →
        used tpm_of id ≤ used tpm_of id'
  | (Raise e, _) => e = RateLimitError ∧ ∀ m, m ∈ healthy → eligible tpm_of rpm_of input m = false
  end.
Proof.
  destruct (keys_of_ids _ _ _ _ _ Htk Hids Hc) as [Et Elt]. destruct (keys_of_ids _ _ _ _ _ Hrk Hids Hc) as [Er _].
  assert (∀ m id j, healthy !! j = Some m → dep_id m = Ok id → ids !! j = Some id) as Hpos.
  { intros m id j Hj Hid. destruct (Forall2_lookup_l _ _ _ _ _ Hids Hj) as (id' & Hj' & Hid'). congruence. }
  destruct (common_checks_ok healthy tpm_of rpm_of input Hview) with (tk := tk) (rk := rk) (ids := ids) (pick := pick)
    as (o & Eo & Ho); try done.
  { intros m m' id Hm Hm' Hid Hid'. apply list_elem_of_lookup in Hm as [j Hj]. apply list_elem_of_lookup in Hm' as [j' Hj'].
    assert (j = j') as -> by (eapply NoDup_lookup; eauto). congruence. }
  { intros m id Hm Hid. apply list_elem_of_lookup in Hm as [j Hj]. apply (Hpos _ _ _ Hj) in Hid.
    by eapply Forall_lookup_1 in Hc. }
  unfold async_get_available_deployments. rewrite (m_bind_run _ _ _ tk h) by (unfold m_lift; by rewrite Htk).
  rewrite (m_bind_run _ _ _ rk h) by (unfold m_lift; by rewrite Hrk). rewrite (m_bind_run _ _ _ _ _ Hcache).
  cbn [fmap option_fmap option_map]. rewrite Elt. rewrite take_app_length', drop_app_length' by (by rewrite length_fmap).
  rewrite (m_bind_run _ _ _ o h1) by (unfold m_lift; by rewrite Eo). by destruct o.
Qed.
End choice.

(** ** Where the code departs from it *)

(** A deployment whose id contains a colon is never picked: the code takes the id from the
    cache key up to the first colon. *)
Theorem colon_id_never_picked `{PyRuntime} minute pick :
  let m := PDict [("model_info", PDict [("id", PStr "azure:gpt")]); ("litellm_params", PDict [("model", PStr "gpt")])] in
  _common_checks_available_deployment [m] [usage_key (PStr "azure:gpt") (PStr "gpt") "tpm" minute] (Some [PInt 0])
    [usage_key (PStr "azure:gpt") (PStr "gpt") "rpm" minute] (Some [PInt 0]) 1 pick = Ok None.
Proof. reflexivity. Qed.

Module Sample.
#[local] Existing Instance toy_runtime.
#[local] Existing Instance RedisCache.toy_client.
#[local] Existing Instance RedisCache.RedisCache_instance.

Definition dep (id : string) (params : dict) : pyval :=
  PDict [("model_info", PDict [("id", PStr id)]); ("litellm_params", PDict (("model", PStr "gpt") :: params))].
Definition limited : pyval := dep "a" [("rpm", PInt 2)].

Definition handler : t (RedisCache.t RedisCache.toy) :=
  init (DualCache.init DualCache.default_settings None None None None None 1000) None.

Lemma admits_exactly_limit_witness :
  (m_map (λ now, attempt (check true now "12-30" limited)) [0; 5; 9; 9] handler).1 =
    Ok [Ok limited; Ok limited; Raise RateLimitError; Raise RateLimitError].
Proof.
  rewrite (admits_exactly_limit (R := RedisCache.t RedisCache.toy) true (200, seconds 600, 1024) "a:gpt:rpm:12-30" 2 (seconds 60)
           handler [0; 5; 9; 9] "12-30" limited); [reflexivity|..].
  - lia.
  - discriminate.
  - intros im z [= _ _ Hsz]. unfold InMemoryCache.check_value_size. rewrite Hsz. cbn [prim_str]. apply orb_true_r.
  - reflexivity.
  - reflexivity.
  - split; [reflexivity| |reflexivity..|by left].
    apply InMemoryCache.wf_init. cbn. lia.
  - repeat (constructor; [vm_compute; intuition discriminate|]). constructor.
Defined.

Definition healthy : list pyval := [dep "a" [("tpm", PInt 10)]; dep "b" []; dep "c" []].

(** 9 tokens of [a] and 20 of [b] are used, none of [c]. *)
Definition tpm (id : string) : option Z := if String.eqb id "a" then Some 9 else if String.eqb id "b" then Some 20 else None.
Definition warm : t (RedisCache.t RedisCache.toy) :=
  ((on_cache (DualCache.async_increment_cache 0 "a:gpt:tpm:12-30" (PInt 9) false (Some (Some (seconds 60)))) ;;
   on_cache (DualCache.async_increment_cache 0 "b:gpt:tpm:12-30" (PInt 20) false (Some (Some (seconds 60))))) handler).2.

Lemma pick_is_least_used_witness :
  ∃ m h, async_get_available_deployments 1 "12-30" healthy 4 0 warm = (Ok m, h) ∧ m = dep "c" [].
Proof.
  pose proof (pick_is_least_used (R := RedisCache.t RedisCache.toy) 1 "12-30" healthy ["a"; "b"; "c"] tpm (λ _, None) 4 0
    warm warm
    ["a:gpt:tpm:12-30"; "b:gpt:tpm:12-30"; "c:gpt:tpm:12-30"] ["a:gpt:rpm:12-30"; "b:gpt:rpm:12-30"; "c:gpt:rpm:12-30"]) as Hp.
  destruct (async_get_available_deployments 1 "12-30" healthy 4 0 warm) as [[m|e] h] eqn:E.
  - exists m, h. split; [reflexivity|]. destruct Hp as (Hm & _ & _).
    + unfold healthy. repeat (apply Forall_cons_2; [by eexists|]). constructor.
    + unfold healthy. repeat (apply Forall2_cons_2; [reflexivity|]). constructor.
    + apply (bool_decide_unpack _). vm_compute. exact I.
    + repeat (apply Forall_cons_2; [reflexivity|]). constructor.
    + reflexivity.
    + reflexivity.
    + vm_compute. reflexivity.
    + vm_compute in E. by injection E as <- _.
  - vm_compute in E. discriminate.
Defined.
End Sample.
End LowestTpmV2.
