(* ===== verification/BudgetLimiter.v ===== *)
(** * BudgetLimiter: [router_strategy/budget_limiter.py]

    Budgets for providers, deployments and request tags: spend is counted in the router's
    cache for a window of time, and deployments whose provider, whose own or whose tags'
    spend has reached a budget are filtered out.  [get_llm_provider] is a parameter; the
    time, today's date (for durations in months) and the order in which a pushed batch and
    a read reach Redis are arguments.  Metrics and log texts are left out.

    Theorems: the filter keeps exactly the deployments within their budgets; spend in a
    window is the sum of the costs; once the costs of a window reach the budget of a
    provider none of its deployments passes until the window ends.  A provider without a
    limit loses its deployments, a budget of 0 is no budget, and a synchronisation can
    lower the spend. *)

From stdpp Require Import base gmap sets list strings.
From Stdlib Require Import ZArith QArith Qround Lqa Lia ZifyBool.
From S2P Require Import Prelude Heapq PyHeapq PyStr Duration CostCalc InMemoryCache RedisCache DualCache TagRouting BaseStrategy.

#[local] Open Scope Z_scope.

Module BudgetLimiter.
#[local] Abbreviation dict := (list (string * pyval)).
#[local] Abbreviation op := (string * pyval * option Z)%type.

(** [GenericBudgetInfo]. *)
Record BudgetConfig := mkBudget { max_budget : option Q; budget_duration : option string }.
#[local] Abbreviation budgets := (list (string * BudgetConfig)).

Record t (R : Type) := mk {
  dual_cache : DualCache.t R;
  redis_increment_operation_queue : list op;
  provider_budget_config : option budgets;
  deployment_budget_config : option budgets;
  tag_budget_config : option budgets
}.
Arguments mk {R}. Arguments dual_cache {R}. Arguments redis_increment_operation_queue {R}.
Arguments provider_budget_config {R}. Arguments deployment_budget_config {R}. Arguments tag_budget_config {R}.

(** [f"{x}"] of an optional text. *)
Definition show (o : option string) : string := default "None" o.

Definition spend_key (kind name : string) (b : BudgetConfig) : string :=
  kind +:+ "_spend:" +:+ name +:+ ":" +:+ show (budget_duration b).
Definition start_key (kind name : string) : string := kind +:+ "_budget_start_time:" +:+ name.

(** [if config:]: neither [None] nor empty. *)
Definition configured (b : option budgets) : bool := match b with Some (_ :: _) => true | _ => false end.

(** [for tag in tags]. *)
Fixpoint chars (s : string) : list pyval :=
  match s with EmptyString => [] | String a s' => PStr (String a "") :: chars s' end.
Definition iterate (v : pyval) : res (list pyval) :=
  match v with
  | PList l | PTuple l | PSet l => Ok l
  | PStr s => Ok (chars s)
  | PDict d => Ok (PStr <$> dkeys d)
  | _ => Raise TypeError
  end.

Definition request_tags (request_kwargs : option dict) : res (list pyval) :=
  tags ← TagRouting._get_tags_from_request_kwargs request_kwargs "metadata";
  iterate tags.

Definition config_for (b : option budgets) (name : string) : option BudgetConfig := b ≫= dget name.

Section ops.
Context `{PyRuntime} {R : Type} `{RedisCacheI R}.
(** [litellm.get_llm_provider(model, litellm_params=...)]. *)
Variable get_llm_provider : string → pyval → res string.

Definition set_dual (c : DualCache.t R) (s : t R) : t R :=
  mk c (redis_increment_operation_queue s) (provider_budget_config s) (deployment_budget_config s) (tag_budget_config s).
Definition set_queue (q : list op) (s : t R) : t R :=
  mk (dual_cache s) q (provider_budget_config s) (deployment_budget_config s) (tag_budget_config s).
Definition on_cache {A} (m : M (DualCache.t R) A) : M (t R) A := m_zoom dual_cache set_dual m.

Definition _get_budget_config_for_deployment (model_id : string) (s : t R) : option BudgetConfig :=
  config_for (deployment_budget_config s) model_id.
Definition _get_budget_config_for_provider (provider : string) (s : t R) : option BudgetConfig :=
  config_for (provider_budget_config s) provider.

(** A tag that is no text is in no config, if it can be looked up at all. *)
Definition _get_budget_config_for_tag (tag : pyval) (s : t R) : res (option (string * BudgetConfig)) :=
  match tag_budget_config s with
  | None => Ok None
  | Some c => match tag with
              | PStr x => Ok (pair x <$> dget x c)
              | _ => if hashable tag then Ok None else Raise TypeError
              end
  end.

Definition _get_llm_provider_for_deployment (deployment : pyval) : option string :=
  match (params ← py_get deployment "litellm_params";
         let params := py_or params (PDict []) in
         '(model, view) ← match params with
                          | PDict d => Ok (py_or (default PNone (dget "model" d)) (PStr ""), params)
                          | _ => Ok (PStr "", PDict [])
                          end;
         get_llm_provider (py_str model) view) with
  | Ok p => Some p
  | Raise _ => None
  end.

(** ** The filter *)

(** What the loop over the deployments collects. *)
Record collected := mkCollected {
  cache_keys : list string;
  provider_configs : budgets;
  deployment_configs : budgets;
  deployment_providers : list (option string)
}.

Definition collect_provider (deployment : pyval) (s : t R) (c : collected) : collected :=
  if configured (provider_budget_config s) then
    let provider := _get_llm_provider_for_deployment deployment in
    let c' := mkCollected (cache_keys c) (provider_configs c) (deployment_configs c) (deployment_providers c ++ [provider]) in
    match provider ≫= (λ p, pair p <$> _get_budget_config_for_provider p s) with
    | Some (p, b) =>
        match budget_duration b with
        | Some _ => mkCollected (cache_keys c' ++ [spend_key "provider" p b]) (dset p b (provider_configs c')) (deployment_configs c')
                      (deployment_providers c')
        | None => c'
        end
    | None => c'
    end
  else c.

(** [deployment.get("model_info", {}).get("id")], a text. *)
Definition model_id_of (deployment : pyval) : res (option string) :=
  info ← py_get_or deployment "model_info" (PDict []);
  id ← py_get info "id";
  match id with PStr s => Ok (Some s) | _ => if hashable id then Ok None else Raise TypeError end.

Definition collect_deployment (deployment : pyval) (s : t R) (c : collected) : res collected :=
  if configured (deployment_budget_config s) then
    id ← model_id_of deployment;
    Ok (match id ≫= (λ i, pair i <$> _get_budget_config_for_deployment i s) with
        | Some (i, b) => mkCollected (cache_keys c ++ [spend_key "deployment" i b]) (provider_configs c) (dset i b (deployment_configs c))
                           (deployment_providers c)
        | None => c
        end)
  else Ok c.

Fixpoint tag_keys (tags : list pyval) (s : t R) : res (list string) :=
  match tags with
  | [] => Ok []
  | tag :: rest =>
      b ← _get_budget_config_for_tag tag s;
      ks ← tag_keys rest s;
      Ok (match b with Some (x, b) => spend_key "tag" x b :: ks | None => ks end)
  end.

Definition collect_tags (request_kwargs : option dict) (s : t R) (c : collected) : res collected :=
  if configured (tag_budget_config s) then
    tags ← request_tags request_kwargs;
    ks ← tag_keys tags s;
    Ok (mkCollected (cache_keys c ++ ks) (provider_configs c) (deployment_configs c) (deployment_providers c))
  else Ok c.

Fixpoint collect (healthy : list pyval) (request_kwargs : option dict) (s : t R) (c : collected) : res collected :=
  match healthy with
  | [] => Ok c
  | d :: rest =>
      c ← collect_deployment d s (collect_provider d s c);
      c ← collect_tags request_kwargs s c;
      collect rest request_kwargs s c
  end.

Definition _async_get_cache_keys_for_router_budget_limiting (healthy : list pyval) (request_kwargs : option dict) (s : t R)
    : res collected := collect healthy request_kwargs s (mkCollected [] [] [] []).

(** [limit and spend >= limit]. *)
Definition spent (limit : option Q) (spend : Q) : bool :=
  match limit with Some l => negb (Qeq_bool l 0) && Qle_bool l spend | None => false end.

Definition spend_at (spend_map : list (string * Q)) (key : string) : Q := default 0%Q (dget key spend_map).

(** A deployment whose provider has a budget without limit is passed over too. *)
Definition provider_ok (s : t R) (c : collected) (spend_map : list (string * Q)) (idx : nat) (deployment : pyval) : bool :=
  if configured (provider_budget_config s) then
    let provider := match deployment_providers c !! idx with
                    | Some p => p
                    | None => _get_llm_provider_for_deployment deployment
                    end in
    match provider ≫= (λ p, pair p <$> dget p (provider_configs c)) with
    | Some (p, b) =>
        match max_budget b with
        | None => false
        | Some _ => negb (spent (max_budget b) (spend_at spend_map (spend_key "provider" p b)))
        end
    | None => true
    end
  else true.

(** [(deployment.get("litellm_params") or {}).get("model")] is read for the log. *)
Definition deployment_ok (s : t R) (c : collected) (spend_map : list (string * Q)) (deployment : pyval) : res bool :=
  if configured (deployment_budget_config s) then
    _ ← py_get deployment "model_name";
    params ← py_get deployment "litellm_params";
    _ ← py_get (py_or params (PDict [])) "model";
    id ← model_id_of deployment;
    Ok (match id ≫= (λ i, pair i <$> dget i (deployment_configs c)) with
        | Some (i, b) => negb (spent (max_budget b) (spend_at spend_map (spend_key "deployment" i b)))
        | None => true
        end)
  else Ok true.

Fixpoint tags_ok (s : t R) (spend_map : list (string * Q)) (tags : list pyval) : res bool :=
  match tags with
  | [] => Ok true
  | tag :: rest =>
      b ← _get_budget_config_for_tag tag s;
      ok ← tags_ok s spend_map rest;
      Ok (ok && match b with
                | Some (x, b) => negb (spent (max_budget b) (spend_at spend_map (spend_key "tag" x b)))
                | None => true
                end)
  end.

(** The tags are looked at only with tag budgets. *)
Definition filter_tags (request_kwargs : option dict) (s : t R) : res (list pyval) :=
  tags ← TagRouting._get_tags_from_request_kwargs request_kwargs "metadata";
  if configured (tag_budget_config s) then iterate tags else Ok [].

Fixpoint filter_loop (s : t R) (c : collected) (spend_map : list (string * Q)) (tags : list pyval) (idx : nat) (healthy : list pyval)
    : res (list pyval) :=
  match healthy with
  | [] => Ok []
  | d :: rest =>
      keep ← (if provider_ok s c spend_map idx d then
                ok ← deployment_ok s c spend_map d;
                if ok : bool then (if configured (tag_budget_config s) then tags_ok s spend_map tags else Ok true)
                else Ok false
              else Ok false);
      l ← filter_loop s c spend_map tags (S idx) rest;
      Ok (if keep : bool then d :: l else l)
  end.

Definition _filter_out_deployments_above_budget (s : t R) (healthy : list pyval) (c : collected) (spend_map : list (string * Q))
    (tags : list pyval) : res (list pyval) := filter_loop s c spend_map tags 0 healthy.

(** [spend_map[key] = float(current_spends[idx] or 0.0)]. *)
Fixpoint spend_map_of (keys : list string) (spends : list pyval) : res (list (string * Q)) :=
  match keys, spends with
  | [], _ => Ok []
  | _ :: _, [] => Raise IndexError
  | k :: ks, v :: vs =>
      q ← CostCalc.py_float (py_or v (PFloat 0));
      m ← spend_map_of ks vs;
      Ok (if dmem k m then m else (k, q) :: m)
  end.

Definition async_filter_deployments (now : Z) (healthy_deployments : list pyval) (request_kwargs : option dict)
    : M (t R) (list pyval) :=
  match healthy_deployments with
  | [] => mret []
  | _ =>
      s ← m_get;
      c ← m_lift (_async_get_cache_keys_for_router_budget_limiting healthy_deployments request_kwargs s);
      match cache_keys c with
      | [] => mret healthy_deployments
      | keys =>
          current ← on_cache (DualCache.async_batch_get_cache now keys false None);
          let spends := match current with Some (v :: vs) => v :: vs | _ => repeat (PFloat 0) (length keys) end in
          spend_map ← m_lift (spend_map_of keys spends);
          tags ← m_lift (filter_tags request_kwargs s);
          s ← m_get;
          potential ← m_lift (_filter_out_deployments_above_budget s healthy_deployments c spend_map tags);
          match potential with
          | [] => m_raise ValueError
          | _ => mret potential
          end
      end
  end.

(** ** Counting spend *)

(** [datetime.now(timezone.utc).timestamp()]. *)
Definition timestamp (now : Z) : Q := (inject_Z now / inject_Z 1000000)%Q.

Definition _get_or_set_budget_start_time (now : Z) (start_time_key : string) (ttl_seconds : Z) : M (t R) Q :=
  budget_start ← on_cache (DualCache.async_get_cache now start_time_key false None);
  if is_none budget_start then
    on_cache (DualCache.async_set_cache now start_time_key (PFloat (timestamp now)) false (Some (Some (seconds ttl_seconds)))) ;;
    mret (timestamp now)
  else m_lift (CostCalc.py_float budget_start).

Definition _handle_new_budget_window (now : Z) (spend_key start_time_key : string) (response_cost : pyval) (ttl_seconds : Z)
    : M (t R) Q :=
  on_cache (DualCache.async_set_cache now spend_key response_cost false (Some (Some (seconds ttl_seconds)))) ;;
  on_cache (DualCache.async_set_cache now start_time_key (PFloat (timestamp now)) false (Some (Some (seconds ttl_seconds)))) ;;
  mret (timestamp now).

Definition _increment_spend_in_current_window (now : Z) (spend_key : string) (response_cost : pyval) (ttl : Z) : M (t R) unit :=
  on_cache (DualCache.on_im (InMemoryCache.async_increment now spend_key response_cost (Some (Some (seconds ttl))))) ;;
  m_modify (λ s, set_queue (redis_increment_operation_queue s ++ [(spend_key, response_cost, Some (seconds ttl))]) s).

(** [int(q)]. *)
Definition py_int (q : Q) : Z := Z.quot (Qnum q) (QDen q).

(** The window is that of the start time in the cache, which is set when it is missing. *)
Definition _increment_spend_for_key (now : Z) (today : Duration.datetime) (budget_config : BudgetConfig)
    (spend_key start_time_key : string) (response_cost : pyval) : M (t R) unit :=
  match budget_duration budget_config with
  | None => mret ()
  | Some duration =>
      ttl_seconds ← m_lift (Duration.duration_in_seconds today duration);
      budget_start ← _get_or_set_budget_start_time now start_time_key ttl_seconds;
      let elapsed := (timestamp now - budget_start)%Q in
      if Qle_bool elapsed (inject_Z ttl_seconds)
      then _increment_spend_in_current_window now spend_key response_cost (py_int (inject_Z ttl_seconds - elapsed))
      else _ ← _handle_new_budget_window now spend_key start_time_key response_cost ttl_seconds; mret ()
  end.

Definition increment_configured (now : Z) (today : Duration.datetime) (kind name : string) (b : option BudgetConfig)
    (response_cost : pyval) : M (t R) unit :=
  match b with
  | Some b => _increment_spend_for_key now today b (spend_key kind name b) (start_key kind name) response_cost
  | None => mret ()
  end.

(** What a success event reads of its payload. *)
Definition logged_cost (kwargs : dict) : res (pyval * string * string) :=
  let payload := default PNone (dget "standard_logging_object" kwargs) in
  if is_none payload then Raise ValueError else
  response_cost ← py_get_or payload "response_cost" (PInt 0);
  model_id ← py_get_or payload "model_id" (PStr "");
  params ← Ok (default (PDict []) (dget "litellm_params" kwargs));
  provider ← py_get params "custom_llm_provider";
  match provider with
  | PNone => Raise ValueError
  | PStr p => Ok (response_cost, py_str model_id, p)
  | _ => Raise TypeError
  end.

Definition async_log_success_event (now : Z) (today : Duration.datetime) (kwargs : dict) : M (t R) unit :=
  s ← m_get;
  '(response_cost, model_id, provider) ← m_lift (logged_cost kwargs);
  increment_configured now today "provider" provider (_get_budget_config_for_provider provider s) response_cost ;;
  increment_configured now today "deployment" model_id (_get_budget_config_for_deployment model_id s) response_cost ;;
  tags ← m_lift (request_tags (Some kwargs));
  m_iter (λ tag,
    b ← m_lift (_get_budget_config_for_tag tag s);
    match b with
    | Some (x, b) => increment_configured now today "tag" x (Some b) response_cost
    | None => mret ()
    end) tags.

(** ** Redis *)

(** The queue is handed to a task that nobody awaits. *)
Definition _push_in_memory_increments_to_redis : M (t R) (list op) :=
  s ← m_get;
  match DualCache.redis_cache (dual_cache s) with
  | None => mret []
  | Some _ => m_modify (set_queue []) ;; mret (redis_increment_operation_queue s)
  end.

Definition budget_keys (kind : string) (b : option budgets) : list string :=
  (λ kv, spend_key kind kv.1 kv.2) <$> default [] b.

(** The task that sends the queue; its failure is only logged. *)
Definition run_push (now : Z) (ops : list op) : M (t R) unit :=
  match ops with
  | [] => mret ()
  | _ => m_try (_ ← on_cache (DualCache.on_redis false None (rd_async_increment_pipeline now ops)); mret ()) (λ _, mret ())
  end.

(** [pushed_first]: whether the queue reaches Redis before the read does. *)
Definition _sync_in_memory_spend_with_redis (now : Z) (pushed_first : bool) : M (t R) unit :=
  m_try
    (s ← m_get;
     match DualCache.redis_cache (dual_cache s) with
     | None => mret ()
     | Some _ =>
         ops ← _push_in_memory_increments_to_redis;
         let keys := budget_keys "provider" (provider_budget_config s) ++ budget_keys "deployment" (deployment_budget_config s)
                     ++ budget_keys "tag" (tag_budget_config s) in
         (if pushed_first then run_push now ops else mret ()) ;;
         redis_values ← on_cache (DualCache.on_redis false None (rd_async_batch_get_cache now keys));
         (if pushed_first then mret () else run_push now ops) ;;
         match redis_values with
         | Some values =>
             m_iter (λ kv,
               if is_none kv.2 then mret () else
               q ← m_lift (CostCalc.py_float kv.2);
               on_cache (DualCache.on_im (InMemoryCache.async_set_cache now kv.1 (PFloat q) None))) values
         | None => mret ()
         end
     end)
    (λ _, mret ()).

(** ** Reports *)

Definition _get_current_provider_spend (now : Z) (provider : string) : M (t R) (option Q) :=
  s ← m_get;
  match _get_budget_config_for_provider provider s with
  | None => mret None
  | Some b =>
      let key := spend_key "provider" provider b in
      v ← match DualCache.redis_cache (dual_cache s) with
          | Some _ => on_cache (DualCache.on_redis false PNone (rd_async_get_cache now key))
          | None => on_cache (DualCache.async_get_cache now key false None)
          end;
      if is_none v then mret (Some 0%Q) else q ← m_lift (CostCalc.py_float v); mret (Some q)
  end.

(** The time at which the budget is said to be reset, as a time stamp.  Redis tells the
    seconds left; the in-memory level tells when the key expires. *)
Definition _get_current_provider_budget_reset_at (now : Z) (provider : string) : M (t R) (option Z) :=
  s ← m_get;
  match _get_budget_config_for_provider provider s with
  | None => mret None
  | Some b =>
      let key := spend_key "provider" provider b in
      ttl ← match DualCache.redis_cache (dual_cache s) with
            | Some _ => left ← on_cache (DualCache.on_redis false None (rd_async_get_ttl now key)); mret (seconds <$> left)
            | None => on_cache (DualCache.async_get_ttl now key)
            end;
      mret (Z.add now <$> ttl)
  end.

(** ** Set-up *)

Definition should_init_router_budget_limiter (provider_budgets tag_budgets : bool) (model_list : option (list pyval)) : res bool :=
  if provider_budgets || tag_budgets then Ok true
  else
    match model_list with
    | None => Ok false
    | Some l =>
        (fix any (l : list pyval) : res bool :=
           match l with
           | [] => Ok false
           | m :: rest =>
               params ← py_get_or m "litellm_params" (PDict []);
               b ← py_get params "max_budget";
               d ← py_get params "budget_duration";
               if truthy b || negb (is_none d) then Ok true else any rest
           end) l
    end.

(** The fields of a [BudgetConfig], validated: a limit is a number or the text of one. *)
Definition limit_field (v : pyval) : res (option Q) :=
  match v with PNone => Ok None | _ => match CostCalc.py_float v with Ok q => Ok (Some q) | Raise _ => Raise ValueError end end.
Definition duration_field (v : pyval) : res (option string) :=
  match v with PNone => Ok None | PStr s => Ok (Some s) | _ => Raise ValueError end.
Definition budget_info (limit duration : pyval) : res BudgetConfig :=
  l ← limit_field limit; d ← duration_field duration; Ok (mkBudget l d).

(** [BudgetConfig( **data )]: the older names of the fields win. *)
Definition BudgetConfig_init (data : dict) : res BudgetConfig :=
  let field new old := match dget old data with Some v => v | None => default PNone (dget new data) end in
  budget_info (field "max_budget" "budget_limit") (field "budget_duration" "time_period").

(** A budget as it is configured. *)
Inductive raw_budget := RawNone | RawConfig (b : BudgetConfig) | RawDict (d : dict).

(** A dict is read by the older names only. *)
Definition provider_budget_of (raw : raw_budget) : res BudgetConfig :=
  match raw with
  | RawNone => Raise ValueError
  | RawConfig b => Ok b
  | RawDict d => budget_info (default PNone (dget "budget_limit" d)) (default PNone (dget "time_period" d))
  end.

Fixpoint cast_budgets (cast : raw_budget → res BudgetConfig) (l : list (string * raw_budget)) : res budgets :=
  match l with
  | [] => Ok []
  | (name, raw) :: rest => b ← cast raw; bs ← cast_budgets cast rest; Ok ((name, b) :: bs)
  end.
Definition _init_provider_budgets (l : option (list (string * raw_budget))) : res (option budgets) :=
  match l with None => Ok None | Some l => Some <$> cast_budgets provider_budget_of l end.

Definition tag_budget_of (raw : raw_budget) : res BudgetConfig :=
  match raw with RawNone => Raise AttributeError | RawConfig b => Ok b | RawDict d => BudgetConfig_init d end.
Definition _init_tag_budgets (premium_user : bool) (l : option (list (string * raw_budget))) : res (option budgets) :=
  match l with
  | None => Ok None
  | Some l => if premium_user then Some <$> cast_budgets tag_budget_of l else Raise ValueError
  end.

(** A budget of a deployment needs a limit, a duration and an id; ids are texts. *)
Definition deployment_budget (m : pyval) : res (option (string * BudgetConfig)) :=
  params ← py_get_or m "litellm_params" (PDict []);
  info ← py_get m "model_info";
  id ← py_get (py_or info (PDict [])) "id";
  b ← py_get params "max_budget";
  d ← py_get params "budget_duration";
  if is_none b || is_none d || is_none id then Ok None
  else c ← budget_info b d; match id with PStr i => Ok (Some (i, c)) | _ => Raise TypeError end.

Fixpoint _init_deployment_budgets (model_list : list pyval) (config : option budgets) : res (option budgets) :=
  match model_list with
  | [] => Ok config
  | m :: rest =>
      b ← deployment_budget m;
      _init_deployment_budgets rest (match b with Some (i, c) => Some (dset i c (default [] config)) | None => config end)
  end.

Definition _init_provider_budget_in_cache (now : Z) (today : Duration.datetime) (provider : string) (b : BudgetConfig) : M (t R) unit :=
  ttl ← m_lift (match budget_duration b with
                | Some d => Some <$> Duration.duration_in_seconds today d
                | None => Ok None
                end);
  budget_start ← on_cache (DualCache.async_get_cache now (start_key "provider" provider) false None);
  (if is_none budget_start
   then on_cache (DualCache.async_set_cache now (start_key "provider" provider) (PFloat (timestamp now)) false (Some (seconds <$> ttl)))
   else mret ()) ;;
  spend ← on_cache (DualCache.async_get_cache now (spend_key "provider" provider b) false None);
  if is_none spend
  then on_cache (DualCache.async_set_cache now (spend_key "provider" provider b) (PFloat 0) false (Some (seconds <$> ttl)))
  else mret ().

(** The limiter of a router; the cache is filled by tasks that run afterwards. *)
Definition init (c : DualCache.t R) (providers : option (list (string * raw_budget))) (model_list : option (list pyval))
    (premium_user : bool) (tags : option (list (string * raw_budget))) : res (t R) :=
  p ← _init_provider_budgets providers;
  d ← _init_deployment_budgets (default [] model_list) None;
  g ← _init_tag_budgets premium_user tags;
  Ok (mk c [] p d g).
Definition run_init_tasks (now : Z) (today : Duration.datetime) : M (t R) unit :=
  s ← m_get;
  m_iter (λ pb, m_try (_init_provider_budget_in_cache now today pb.1 pb.2) (λ _, mret ())) (default [] (provider_budget_config s)).
End ops.

(** ** The filter keeps what is within its budgets *)

Section filter.
Context `{PyRuntime} {R : Type} `{RedisCacheI R}.
Variable glp : string → pyval → res string.
Implicit Types s : t R.

(** The provider of a deployment with its budget, if it has one with a duration. *)
Definition provider_budget s (d : pyval) : option (string * BudgetConfig) :=
  if configured (provider_budget_config s) then
    p ← _get_llm_provider_for_deployment glp d;
    b ← _get_budget_config_for_provider p s;
    _ ← budget_duration b;
    Some (p, b)
  else None.

Definition own_budget s (d : pyval) : option (string * BudgetConfig) :=
  if configured (deployment_budget_config s) then
    match model_id_of d with
    | Ok id => i ← id; b ← _get_budget_config_for_deployment i s; Some (i, b)
    | Raise _ => None
    end
  else None.

(** The budgets of the tags of a request; tags are texts. *)
Definition tag_budgets s (tags : list pyval) : list (string * BudgetConfig) :=
  if configured (tag_budget_config s) then
    omap (λ tag, match tag with PStr x => b ← config_for (tag_budget_config s) x; Some (x, b) | _ => None end) tags
  else [].

Definition entry (kind : string) (nb : string * BudgetConfig) : string * option Q := (spend_key kind nb.1 nb.2, max_budget nb.2).

(** The counters and limits that apply to a deployment. *)
Definition applies s (tags : list pyval) (d : pyval) : list (string * option Q) :=
  (entry "provider" <$> option_list (provider_budget s d)) ++ (entry "deployment" <$> option_list (own_budget s d))
  ++ (entry "tag" <$> tag_budgets s tags).

(** No limit, a limit of 0, or less spent than the limit. *)
Definition below (limit : option Q) (spend : Q) : bool :=
  match limit with Some l => Qeq_bool l 0 || negb (Qle_bool l spend) | None => true end.

Definition within_budget s (tags : list pyval) (spend : string → Q) (d : pyval) : bool :=
  forallb (λ kl, below kl.2 (spend kl.1)) (applies s tags d).

Lemma within_spent s tags spend d :
  within_budget s tags spend d = forallb (λ kl, negb (spent kl.2 (spend kl.1))) (applies s tags d).
Proof.
  unfold within_budget. induction (applies s tags d) as [|[k [l|]] rest IH]; cbn; [done| |done].
  rewrite IH. f_equal. by destruct (Qeq_bool l 0), (Qle_bool l (spend k)).
Qed.

(** What the filter reads of a deployment. *)
Definition readable (d : pyval) : Prop :=
  is_ok (model_id_of d) = true ∧ is_ok (py_get d "model_name") = true ∧
  ∃ params, py_get d "litellm_params" = Ok params ∧ is_ok (py_get (py_or params (PDict [])) "model") = true.

(** The tags of the request, if there are tag budgets, are texts. *)
Definition tags_readable (kw : option dict) s (tags : list pyval) : Prop :=
  filter_tags kw s = Ok tags ∧ Forall (λ v, ∃ x, v = PStr x) tags.

(** *** What is collected *)

Lemma in_option_list {A} (x : A) (o : option A) : x ∈ option_list o → o = Some x.
Proof. destruct o; [intros E%list_elem_of_singleton; by subst|by intros ?%elem_of_nil]. Qed.

Lemma tag_lookup s x b : _get_budget_config_for_tag (PStr x) s = Ok b → b = (c ← config_for (tag_budget_config s) x; Some (x, c)).
Proof.
  unfold _get_budget_config_for_tag, config_for. destruct (tag_budget_config s) as [c|]; intros [= <-]; [|done].
  cbn. by destruct (dget x c).
Qed.

Lemma tag_lookup_ok s x : _get_budget_config_for_tag (PStr x) s = Ok (c ← config_for (tag_budget_config s) x; Some (x, c)).
Proof. unfold _get_budget_config_for_tag, config_for. destruct (tag_budget_config s) as [c|]; [|done]. cbn. by destruct (dget x c). Qed.

Lemma tag_keys_ok s tags :
  configured (tag_budget_config s) = true → Forall (λ v, ∃ x, v = PStr x) tags →
  tag_keys tags s = Ok ((entry "tag" <$> tag_budgets s tags).*1).
Proof.
  intros Hc Ht. unfold tag_budgets. rewrite Hc. induction Ht as [|v tags [x ->] Ht IH]; cbn [tag_keys omap list_omap]; [done|].
  rewrite tag_lookup_ok, IH. unfold mbind at 1, res_bind. cbn [mbind]. unfold option_bind.
  by destruct (config_for (tag_budget_config s) x).
Qed.

(** The collected configs are those of the limiter. *)
Record sound s (c : collected) : Prop := {
  so_provider p b : dget p (provider_configs c) = Some b → _get_budget_config_for_provider p s = Some b ∧ is_Some (budget_duration b);
  so_deployment i b : dget i (deployment_configs c) = Some b → _get_budget_config_for_deployment i s = Some b;
  so_keys k : k ∈ cache_keys c → ∃ kind name b, k = spend_key kind name b
}.

(** They cover the budgets of a deployment. *)
Record covers s (tags : list pyval) (c : collected) (d : pyval) : Prop := {
  co_provider p b : provider_budget s d = Some (p, b) → dget p (provider_configs c) = Some b;
  co_own i b : own_budget s d = Some (i, b) → dget i (deployment_configs c) = Some b;
  co_keys kl : kl ∈ applies s tags d → kl.1 ∈ cache_keys c
}.

(** More is collected, and nothing is lost. *)
Record grows s (c c' : collected) : Prop := {
  gr_provider p : is_Some (dget p (provider_configs c)) → dget p (provider_configs c') = dget p (provider_configs c);
  gr_deployment i : is_Some (dget i (deployment_configs c)) → dget i (deployment_configs c') = dget i (deployment_configs c);
  gr_keys k : k ∈ cache_keys c → k ∈ cache_keys c'
}.

Lemma grows_trans s c1 c2 c3 : grows s c1 c2 → grows s c2 c3 → grows s c1 c3.
Proof.
  intros [P1 D1 K1] [P2 D2 K2]. split.
  - intros p Hp. rewrite <-(P1 p Hp). apply P2. by rewrite (P1 p Hp).
  - intros i Hi. rewrite <-(D1 i Hi). apply D2. by rewrite (D1 i Hi).
  - auto.
Qed.

Lemma covers_grows s tags c c' d : covers s tags c d → grows s c c' → covers s tags c' d.
Proof.
  intros [P D K] [P2 D2 K2]. split.
  - intros p b Hb. rewrite P2; rewrite (P p b Hb); eauto.
  - intros i b Hb. rewrite D2; rewrite (D i b Hb); eauto.
  - auto.
Qed.

Lemma set_same (k : string) (b : BudgetConfig) (l : budgets) k' :
  (∀ b', dget k l = Some b' → b' = b) → is_Some (dget k' l) → dget k' (dset k b l) = dget k' l.
Proof.
  intros Hs [v Hv]. rewrite dget_dset. destruct (String.eqb_spec k k') as [->|]; [|done]. rewrite Hv. f_equal. symmetry. by apply Hs.
Qed.

Lemma collect_provider_ok s d c :
  sound s c → let c' := collect_provider glp d s c in
  sound s c' ∧ grows s c c' ∧ deployment_configs c' = deployment_configs c ∧
  (∀ p b, provider_budget s d = Some (p, b) → dget p (provider_configs c') = Some b ∧ spend_key "provider" p b ∈ cache_keys c') ∧
  (configured (provider_budget_config s) = true → deployment_providers c' = deployment_providers c ++ [_get_llm_provider_for_deployment glp d]).
Proof.
  intros [Hp Hd Hk]. unfold collect_provider, provider_budget.
  destruct (configured (provider_budget_config s)) eqn:Ec.
  2:{ cbn zeta. split_and!; [by split|by split|done..]. }
  destruct (_get_llm_provider_for_deployment glp d) as [p|]; cbn [mbind option_bind].
  2:{ cbn. split_and!; [by split|by split|done..]. }
  unfold option_bind. destruct (_get_budget_config_for_provider p s) as [b|] eqn:Eb; cbn [fmap option_fmap option_map].
  2:{ cbn. split_and!; [by split|by split|done..]. }
  destruct (budget_duration b) as [u|] eqn:Eu; cbn.
  2:{ split_and!; [by split|by split|done|by rewrite Eu|done]. }
  assert (∀ b', dget p (provider_configs c) = Some b' → b' = b) as Hsame.
  { intros b' Hb'. apply Hp in Hb' as [Hb' _]. congruence. }
  split_and!; try done.
  - split; cbn; [|done|].
    + intros p' b'. rewrite dget_dset. destruct (String.eqb_spec p p') as [<-|]; [|apply Hp].
      intros [= <-]. split; [done|]. by rewrite Eu.
    + intros k [?|E%list_elem_of_singleton]%elem_of_app; subst; eauto.
  - split; cbn; [|done|].
    + intros p' Hp'. by apply set_same.
    + intros k Hin. apply elem_of_app. by left.
  - intros p' b'. rewrite Eu. intros [= <- <-]. rewrite dget_dset_eq. split; [done|]. apply elem_of_app. right. by left.
Qed.

Lemma collect_deployment_ok s d c :
  sound s c → is_ok (model_id_of d) = true →
  ∃ c', collect_deployment d s c = Ok c' ∧ sound s c' ∧ grows s c c' ∧ deployment_providers c' = deployment_providers c ∧
    (∀ i b, own_budget s d = Some (i, b) → dget i (deployment_configs c') = Some b ∧ spend_key "deployment" i b ∈ cache_keys c').
Proof.
  intros [Hp Hd Hk] Hid. unfold collect_deployment, own_budget. destruct (configured (deployment_budget_config s)).
  2:{ exists c. split_and!; [done|by split|by split|done..]. }
  destruct (model_id_of d) as [id|]; [|done]. unfold mbind at 1, res_bind. eexists. split; [done|].
  destruct id as [i|]; cbn [mbind option_bind].
  2:{ split_and!; [by split|by split|done..]. }
  unfold option_bind. destruct (_get_budget_config_for_deployment i s) as [b|] eqn:Eb; cbn [fmap option_fmap option_map].
  2:{ cbn. split_and!; [by split|by split|done..]. }
  cbn. assert (∀ b', dget i (deployment_configs c) = Some b' → b' = b) as Hsame.
  { intros b' Hb'. apply Hd in Hb'. congruence. }
  split_and!; try done.
  - split; cbn; [done| |].
    + intros i' b'. rewrite dget_dset. destruct (String.eqb_spec i i') as [<-|]; [|apply Hd]. by intros [= <-].
    + intros k [?|E%list_elem_of_singleton]%elem_of_app; subst; eauto.
  - split; cbn; [done| |].
    + intros i' Hi'. by apply set_same.
    + intros k Hin. apply elem_of_app. by left.
  - intros i' b' [= <- <-]. rewrite dget_dset_eq. split; [done|]. apply elem_of_app. right. by left.
Qed.

Lemma collect_tags_ok s kw tags c :
  sound s c → tags_readable kw s tags →
  ∃ c', collect_tags kw s c = Ok c' ∧ sound s c' ∧ grows s c c' ∧ deployment_providers c' = deployment_providers c ∧
    (∀ kl, kl ∈ entry "tag" <$> tag_budgets s tags → kl.1 ∈ cache_keys c').
Proof.
  intros [Hp Hd Hk] [Hf Ht]. unfold collect_tags, filter_tags, request_tags in *. destruct (configured (tag_budget_config s)) eqn:Ec.
  - destruct (TagRouting._get_tags_from_request_kwargs kw "metadata") as [v|]; [|done]. change (iterate v = Ok tags) in Hf.
    unfold mbind, res_bind. rewrite Hf. rewrite (tag_keys_ok s tags Ec Ht). eexists. split; [done|]. cbn. split_and!; [| |done|].
    + split; cbn; [done..|]. intros k [?|Hin]%elem_of_app; [eauto|].
      apply list_elem_of_fmap in Hin as (? & -> & (nb & -> & _)%list_elem_of_fmap). cbn. eauto.
    + split; cbn; [done..|]. intros k Hin. apply elem_of_app. by left.
    + intros kl Hkl. apply elem_of_app. right. by apply list_elem_of_fmap_2.
  - exists c. split_and!; [done|by split|by split|done|]. intros kl. unfold tag_budgets. rewrite Ec. by intros ?%elem_of_nil.
Qed.

Lemma collect_ok s kw tags healthy c :
  sound s c → Forall readable healthy → tags_readable kw s tags →
  ∃ c', collect glp healthy kw s c = Ok c' ∧ sound s c' ∧ grows s c c' ∧ Forall (covers s tags c') healthy ∧
    (configured (provider_budget_config s) = true →
       deployment_providers c' = deployment_providers c ++ (_get_llm_provider_for_deployment glp <$> healthy)).
Proof.
  intros Hs Hr Ht. revert c Hs. induction Hr as [|d healthy Hd Hr IH]; intros c Hs; cbn [collect].
  { exists c. split_and!; [done..|by split|by constructor|]. intros _. by rewrite app_nil_r. }
  destruct (collect_provider_ok s d c Hs) as (Hs1 & Hg1 & _ & Hp1 & Hdp1). set (c1 := collect_provider glp d s c) in *.
  destruct (collect_deployment_ok s d c1 Hs1 (proj1 Hd)) as (c2 & E2 & Hs2 & Hg2 & Hdp2 & Ho2).
  destruct (collect_tags_ok s kw tags c2 Hs2 Ht) as (c3 & E3 & Hs3 & Hg3 & Hdp3 & Ht3).
  destruct (IH c3 Hs3) as (c' & E & Hs' & Hg' & Hcov & Hdp). rewrite E2. unfold mbind at 1, res_bind at 1. rewrite E3.
  unfold mbind, res_bind. exists c'. split_and!; [done..| | |].
  - eapply grows_trans; [exact Hg1|]. eapply grows_trans; [exact Hg2|]. by eapply grows_trans.
  - constructor; [|done]. apply (covers_grows s tags c3); [|done]. split.
    + intros p b Hb. destruct (Hp1 p b Hb) as [Hg _]. rewrite (gr_provider _ _ _ Hg3).
      * rewrite (gr_provider _ _ _ Hg2); [done|]. rewrite Hg. eauto.
      * rewrite (gr_provider _ _ _ Hg2); rewrite Hg; eauto.
    + intros i b Hb. destruct (Ho2 i b Hb) as [Hg _]. rewrite (gr_deployment _ _ _ Hg3); rewrite Hg; eauto.
    + intros kl. unfold applies. rewrite !elem_of_app, !list_elem_of_fmap.
      intros [([p b] & -> & Hb%in_option_list)|[([i b] & -> & Hb%in_option_list)|(nb & -> & Hb)]].
      * apply (gr_keys _ _ _ Hg3), (gr_keys _ _ _ Hg2). by apply Hp1.
      * apply (gr_keys _ _ _ Hg3). by apply Ho2.
      * apply Ht3. by apply list_elem_of_fmap_2.
  - intros Hc. rewrite (Hdp Hc), Hdp3, Hdp2, (Hdp1 Hc). cbn. by rewrite <-(assoc_L (++)).
Qed.

(** *** The counters *)

(** [float(value or 0.0)]. *)
Definition spend_of (v : pyval) : Q := match CostCalc.py_float (py_or v (PFloat 0)) with Ok q => q | Raise _ => 0%Q end.
Definition countable (v : pyval) : Prop := is_ok (CostCalc.py_float (py_or v (PFloat 0))) = true.

Lemma spend_map_ok (f : string → pyval) keys :
  (∀ k, k ∈ keys → countable (f k)) →
  ∃ m, spend_map_of keys (f <$> keys) = Ok m ∧ ∀ k, dget k m = if decide (k ∈ keys) then Some (spend_of (f k)) else None.
Proof.
  induction keys as [|k keys IH]; intros Hc; cbn [fmap list_fmap spend_map_of].
  { exists []. split; [done|]. intros k. case_decide as Hk; [by apply elem_of_nil in Hk|done]. }
  destruct IH as (m & -> & Hm); [intros; apply Hc; by right|].
  pose proof (Hc k (list_elem_of_here _ _)) as Hk. unfold countable in Hk. unfold spend_of in *.
  destruct (CostCalc.py_float (py_or (f k) (PFloat 0))) as [q|] eqn:Eq; [|done]. unfold mbind, res_bind. eexists. split; [done|].
  intros k'. destruct (decide (k' = k)) as [->|Hne].
  - rewrite Eq, decide_True by (by left). unfold dmem. pose proof (Hm k) as Hk'. case_decide.
    + rewrite Hk'. by rewrite Hk', Eq.
    + rewrite Hk'. cbn. by rewrite String.eqb_refl.
  - rewrite (decide_ext _ (k' ∈ keys)) by (rewrite elem_of_cons; naive_solver). rewrite <-Hm. destruct (dmem k m); [done|]. cbn.
    by rewrite (proj2 (String.eqb_neq _ _) Hne).
Qed.

(** *** One deployment *)

Lemma negb_spent_provider s tags c m (spend : string → Q) idx d :
  sound s c → covers s tags c d → (∀ k, k ∈ cache_keys c → spend_at m k = spend k) →
  (∀ p b, _get_budget_config_for_provider p s = Some b → is_Some (max_budget b)) →
  (configured (provider_budget_config s) = true → deployment_providers c !! idx = Some (_get_llm_provider_for_deployment glp d)) →
  provider_ok glp s c m idx d
    = forallb (λ kl, negb (spent kl.2 (spend kl.1))) (entry "provider" <$> option_list (provider_budget s d)).
Proof.
  intros Hs Hcov Hm Hl Hidx. pose proof (co_provider _ _ _ _ Hcov) as Hp. pose proof (co_keys _ _ _ _ Hcov) as Hk.
  unfold applies in Hk. unfold provider_ok, provider_budget in *. destruct (configured (provider_budget_config s)) eqn:Ec; [|done].
  rewrite Hidx by done. destruct (_get_llm_provider_for_deployment glp d) as [p|]; [|done]. cbn [mbind option_bind] in *.
  unfold option_bind in *. destruct (dget p (provider_configs c)) as [b|] eqn:Eb; cbn [fmap option_fmap option_map].
  - destruct (so_provider _ _ Hs p b Eb) as [Hb [u Hu]]. rewrite Hb in *. cbn [mbind option_bind] in *. rewrite Hu in *. cbn in Hk |- *.
    destruct (Hl p b Hb) as [l ->]. rewrite Hm, andb_true_r; [done|]. apply (Hk (entry "provider" (p, b))). by left.
  - destruct (_get_budget_config_for_provider p s) as [b|] eqn:Hb; [|done]. cbn in *.
    destruct (budget_duration b); [|done]. cbn in *. specialize (Hp p b eq_refl). congruence.
Qed.

Lemma negb_spent_own s tags c m (spend : string → Q) d :
  sound s c → covers s tags c d → (∀ k, k ∈ cache_keys c → spend_at m k = spend k) → readable d →
  deployment_ok s c m d = Ok (forallb (λ kl, negb (spent kl.2 (spend kl.1))) (entry "deployment" <$> option_list (own_budget s d))).
Proof.
  intros Hs Hcov Hm (Hid & Hn & params & Hpar & Hmod). pose proof (co_own _ _ _ _ Hcov) as Hp. pose proof (co_keys _ _ _ _ Hcov) as Hk.
  unfold applies in Hk. unfold deployment_ok, own_budget in *. destruct (configured (deployment_budget_config s)) eqn:Ec; [|done].
  destruct (py_get d "model_name") as [?|]; [|done]. rewrite Hpar.
  destruct (py_get (py_or params (PDict [])) "model") as [?|] eqn:Em; [|done].
  unfold mbind at 1 2 3, res_bind. rewrite Em. destruct (model_id_of d) as [id|]; [|done]. unfold mbind at 1. f_equal.
  destruct id as [i|]; [|done]. cbn [mbind option_bind] in *. unfold option_bind in *.
  destruct (dget i (deployment_configs c)) as [b|] eqn:Eb; cbn [fmap option_fmap option_map].
  - pose proof (so_deployment _ _ Hs i b Eb) as Hb. rewrite Hb in *. cbn in Hk |- *. rewrite Hm, andb_true_r; [done|].
    apply (Hk (entry "deployment" (i, b))). apply elem_of_app. right. by left.
  - destruct (_get_budget_config_for_deployment i s) as [b|] eqn:Hb; [|done]. cbn in *. specialize (Hp i b eq_refl). congruence.
Qed.

Lemma negb_spent_tags s tags0 tags c m (spend : string → Q) d :
  covers s tags0 c d → (∀ k, k ∈ cache_keys c → spend_at m k = spend k) → configured (tag_budget_config s) = true →
  tags ⊆ tags0 → Forall (λ v, ∃ x, v = PStr x) tags →
  tags_ok s m tags = Ok (forallb (λ kl, negb (spent kl.2 (spend kl.1))) (entry "tag" <$> tag_budgets s tags)).
Proof.
  intros Hcov Hm Hc Hsub Ht. pose proof (co_keys _ _ _ _ Hcov) as Hk. unfold applies, tag_budgets in *. rewrite Hc in *.
  induction Ht as [|v tags [x ->] Ht IH]; [done|]. cbn [tags_ok omap list_omap]. rewrite tag_lookup_ok, IH.
  2:{ intros y Hy. apply Hsub. by right. }
  unfold mbind at 1 2, res_bind. destruct (config_for (tag_budget_config s) x) as [b|] eqn:Eb; cbn; rewrite ?andb_true_r; [|done].
  rewrite Hm, andb_comm; [done|]. apply (Hk (entry "tag" (x, b))). rewrite !elem_of_app. do 2 right. apply list_elem_of_fmap_2.
  apply list_elem_of_omap. exists (PStr x). split; [apply Hsub; by left|]. by rewrite Eb.
Qed.

Lemma filter_loop_ok s tags c m (spend : string → Q) idx healthy :
  sound s c → Forall (covers s tags c) healthy → (∀ k, k ∈ cache_keys c → spend_at m k = spend k) →
  (∀ p b, _get_budget_config_for_provider p s = Some b → is_Some (max_budget b)) →
  (configured (provider_budget_config s) = true →
     drop idx (deployment_providers c) = _get_llm_provider_for_deployment glp <$> healthy) →
  Forall readable healthy → Forall (λ v, ∃ x, v = PStr x) tags →
  filter_loop glp s c m tags idx healthy = Ok (filter (λ d, within_budget s tags spend d = true) healthy).
Proof.
  intros Hs Hcov Hm Hl Hidx Hr Ht. revert idx Hidx Hr. induction Hcov as [|d healthy Hd Hcov IH]; intros idx Hidx Hr; [done|].
  apply Forall_cons in Hr as [Hrd Hr]. cbn [filter_loop filter list_filter].
  assert (configured (provider_budget_config s) = true → deployment_providers c !! idx = Some (_get_llm_provider_for_deployment glp d)) as Hi.
  { intros Hc. specialize (Hidx Hc). rewrite <-(Nat.add_0_r idx), <-lookup_drop, Hidx. done. }
  rewrite (negb_spent_provider s tags c m spend idx d Hs Hd Hm Hl Hi), (negb_spent_own s tags c m spend d Hs Hd Hm Hrd).
  rewrite (IH (S idx)); [|intros Hc; specialize (Hidx Hc)|done].
  2:{ replace (S idx) with (idx + 1)%nat by lia. rewrite <-drop_drop, Hidx. done. }
  assert ((if configured (tag_budget_config s) then tags_ok s m tags else Ok true)
    = Ok (forallb (λ kl, negb (spent kl.2 (spend kl.1))) (entry "tag" <$> tag_budgets s tags))) as ->.
  { destruct (configured (tag_budget_config s)) eqn:Ec; [by apply (negb_spent_tags s tags tags c m spend d)|].
    unfold tag_budgets. by rewrite Ec. }
  rewrite within_spent. unfold applies. rewrite !forallb_app.
  destruct (forallb _ (entry "provider" <$> _)), (forallb _ (entry "deployment" <$> _)); try done.
  unfold mbind, res_bind. cbn. by destruct (forallb _ _).
Qed.

Lemma nothing_collected s tags c d (spend : string → Q) :
  covers s tags c d → cache_keys c = [] → within_budget s tags spend d = true.
Proof.
  intros Hcov E. unfold within_budget. apply forallb_forall. intros kl Hkl%list_elem_of_In.
  apply (co_keys _ _ _ _ Hcov) in Hkl. rewrite E in Hkl. by apply elem_of_nil in Hkl.
Qed.

Lemma filter_keeps_all {A} (f : A → bool) (l : list A) : Forall (λ x, f x = true) l → filter (λ x, f x = true) l = l.
Proof. induction 1 as [|x l Hx Hl IH]; [done|]. rewrite filter_cons_True, IH; done. Qed.

(** What a bulk read without Redis leaves: the rest of the limiter. *)
Lemma read_spends now keys s :
  DualCache.redis_cache (dual_cache s) = None →
  ∃ c', on_cache (DualCache.async_batch_get_cache now keys false None) s
    = (Ok (Some ((λ k, InMemoryCache.live_value now k (DualCache.in_memory_cache (dual_cache s))) <$> keys)), set_dual c' s).
Proof.
  intros Hr. pose proof (DualCache.batch_get_no_redis now keys false None (dual_cache s) Hr) as E.
  unfold on_cache, m_zoom. destruct (DualCache.async_batch_get_cache _ _ _ _ _) as [r c']. cbn in E. subst r. eauto.
Qed.

(** The filter does not look at the cache. *)
Lemma tags_ok_dual c' s m tags : tags_ok (set_dual c' s) m tags = tags_ok s m tags.
Proof. induction tags as [|tag tags IH]; [done|]. cbn [tags_ok]. by rewrite IH. Qed.
Lemma filter_loop_dual c' s c m tags idx healthy : filter_loop glp (set_dual c' s) c m tags idx healthy = filter_loop glp s c m tags idx healthy.
Proof. revert idx. induction healthy as [|d healthy IH]; intros idx; [done|]. cbn [filter_loop]. by rewrite IH, tags_ok_dual. Qed.

(** The spend in the in-memory cache. *)
Definition live_spend (now : Z) s (key : string) : Q :=
  spend_of (InMemoryCache.live_value now key (DualCache.in_memory_cache (dual_cache s))).

Lemma filter_run now healthy kw tags s :
  DualCache.redis_cache (dual_cache s) = None → healthy ≠ [] → Forall readable healthy → tags_readable kw s tags →
  (∀ p b, _get_budget_config_for_provider p s = Some b → is_Some (max_budget b)) →
  (∀ kind name b, countable (InMemoryCache.live_value now (spend_key kind name b) (DualCache.in_memory_cache (dual_cache s)))) →
  (async_filter_deployments glp now healthy kw s).1 =
    match filter (λ d, within_budget s tags (live_spend now s) d = true) healthy with
    | [] => Raise ValueError
    | l => Ok l
    end.
Proof.
  intros Hr Hne Hrd Ht Hl Hcount. unfold async_filter_deployments. destruct healthy as [|d0 healthy0]; [done|].
  set (healthy := d0 :: healthy0) in *.
  destruct (collect_ok s kw tags healthy (mkCollected [] [] [] [])) as (c & Ec & Hs & _ & Hcov & Hdp); [|done..|].
  { split; cbn; [done..|]. intros ? ?%elem_of_nil. done. }
  rewrite (m_bind_run _ _ s s s) by done. rewrite (m_bind_run _ _ s c s) by (unfold m_lift, _async_get_cache_keys_for_router_budget_limiting; by rewrite Ec).
  destruct (cache_keys c) as [|k0 ks] eqn:Ek.
  { rewrite filter_keeps_all; [done|]. eapply Forall_impl; [exact Hcov|]. intros d Hd. by apply (nothing_collected s tags c). }
  rewrite <-Ek. destruct (read_spends now (cache_keys c) s Hr) as (c' & Erd). rewrite (m_bind_run _ _ s _ _ Erd).
  set (live := λ k, InMemoryCache.live_value now k (DualCache.in_memory_cache (dual_cache s))) in *.
  destruct (spend_map_ok live (cache_keys c)) as (m & Em & Hm).
  { intros k Hk. destruct (so_keys _ _ Hs k Hk) as (kind & name & b & ->). apply Hcount. }
  replace (match Some (live <$> cache_keys c) with Some (v :: vs) => v :: vs | _ => repeat (PFloat 0) (length (cache_keys c)) end)
    with (live <$> cache_keys c) by (by rewrite Ek).
  rewrite (m_bind_run _ _ _ m (set_dual c' s)) by (unfold m_lift; by rewrite Em).
  rewrite (m_bind_run _ _ _ tags (set_dual c' s)) by (unfold m_lift; by rewrite (proj1 Ht)).
  rewrite (m_bind_run m_get _ _ (set_dual c' s) (set_dual c' s) eq_refl).
  assert (_filter_out_deployments_above_budget glp (set_dual c' s) healthy c m tags
    = Ok (filter (λ d, within_budget s tags (live_spend now s) d = true) healthy)) as Ef.
  { unfold _filter_out_deployments_above_budget. rewrite filter_loop_dual. apply filter_loop_ok; try done; [|apply (proj2 Ht)]. intros k Hk. unfold spend_at. by rewrite Hm, decide_True. }
  rewrite (m_bind_run _ _ _ _ (set_dual c' s)) by (unfold m_lift; by rewrite Ef).
  by destruct (filter _ healthy).
Qed.

(** Without Redis, with readable deployments and spend, and a limit for every
    provider with a budget, the filter keeps exactly the deployments for which
    every budget that applies has not been reached, in their order; if none is
    left it raises. *)
Theorem filter_keeps_within_budget now healthy kw tags s :
  DualCache.redis_cache (dual_cache s) = None → healthy ≠ [] → Forall readable healthy → tags_readable kw s tags →
  (∀ p b, _get_budget_config_for_provider p s = Some b → is_Some (max_budget b)) →
  (∀ kind name b, countable (InMemoryCache.live_value now (spend_key kind name b) (DualCache.in_memory_cache (dual_cache s)))) →
  (async_filter_deployments glp now healthy kw s).1 =
    match filter (λ d, within_budget s tags (live_spend now s) d = true) healthy with
    | [] => Raise ValueError
    | l => Ok l
    end.
Proof. apply filter_run. Qed.
End filter.

(** ** Spend within a window *)

Section window.
Context `{PyRuntime} {R : Type} `{RedisCacheI R}.
Implicit Types s : t R.

#[local] Abbreviation mem s := (DualCache.in_memory_cache (dual_cache s)).

(** A limiter without Redis whose cache stores floats. *)
Record local s : Prop := {
  lo_redis : DualCache.redis_cache (dual_cache s) = None;
  lo_wf : InMemoryCache.wf (mem s);
  lo_floats q : InMemoryCache.check_value_size (mem s) (PFloat q) = true
}.

(** Everything but the in-memory cache and the queue is as before. *)
Definition same_config s s' : Prop :=
  provider_budget_config s' = provider_budget_config s ∧ deployment_budget_config s' = deployment_budget_config s ∧
  tag_budget_config s' = tag_budget_config s.

(** The window of a counter: started at [t0], for [T] seconds, with a start time and
    [amount] spent that both expire with it. *)
Record window (t0 T : Z) (ks ka : string) (amount : Q) (c : InMemoryCache.t) : Prop := {
  wi_room : Z.of_nat (size (InMemoryCache.cache_dict c)) < InMemoryCache.max_size_in_memory c;
  wi_start : InMemoryCache.cache_dict c !! ka = Some (PFloat (timestamp t0));
  wi_start_ttl : InMemoryCache.ttl_dict c !! ka = Some (t0 + seconds T);
  wi_spend : ∃ q, InMemoryCache.cache_dict c !! ks = Some (PFloat q) ∧ (q == amount)%Q;
  wi_spend_ttl : InMemoryCache.ttl_dict c !! ks = Some (t0 + seconds T)
}.

(** Reading a live key answers its value and changes nothing. *)
Lemma live_read now k v e c :
  InMemoryCache.cache_dict c !! k = Some v → InMemoryCache.ttl_dict c !! k = Some e → now ≤ e →
  InMemoryCache.get_cache now k c = (Ok (InMemoryCache.loads_or_self v), c).
Proof.
  intros Hv He Hle. unfold InMemoryCache.get_cache, InMemoryCache.evict_element_if_expired, InMemoryCache._is_key_expired.
  rewrite Hv, He. destruct (Z.ltb_spec e now); [lia|]. by rewrite Hv.
Qed.

Lemma missing_read now k c : InMemoryCache.cache_dict c !! k = None → InMemoryCache.get_cache now k c = (Ok PNone, c).
Proof. intros Hv. unfold InMemoryCache.get_cache. by rewrite Hv. Qed.

Lemma dual_read now k v s :
  local s → InMemoryCache.get_cache now k (mem s) = (Ok v, mem s) →
  on_cache (DualCache.async_get_cache now k false None) s = (Ok v, s).
Proof.
  intros Hl E. unfold on_cache, m_zoom, DualCache.async_get_cache, DualCache.read_through, m_try, mbind, M_bind, m_get.
  rewrite (DualCache.on_im_run _ _ _ _ E). destruct (is_none v) eqn:Ev.
  - cbn. rewrite (lo_redis _ Hl). destruct v; try done. cbn. destruct s as [[]]; done.
  - destruct s as [[]]; done.
Qed.

(** Writing a float where there is room. *)
Lemma float_write now k q d c :
  InMemoryCache.wf c → Z.of_nat (size (InMemoryCache.cache_dict c)) < InMemoryCache.max_size_in_memory c →
  InMemoryCache.check_value_size c (PFloat q) = true →
  ∃ c', InMemoryCache.set_cache now k (PFloat q) (Some (Some d)) c = (Ok (), c') ∧ InMemoryCache.wf c' ∧
    InMemoryCache.cfg c' = InMemoryCache.cfg c ∧
    InMemoryCache.cache_dict c' = <[k := PFloat q]> (InMemoryCache.cache_dict c) ∧
    InMemoryCache.ttl_dict c' !! k = Some (match InMemoryCache.ttl_dict c !! k with
                                           | Some e => if e <? now then now + d else e
                                           | None => now + d
                                           end) ∧
    (∀ k', k' ≠ k → InMemoryCache.ttl_dict c' !! k' = InMemoryCache.ttl_dict c !! k').
Proof.
  intros Hwf Hroom Hsz. pose proof (InMemoryCache.set_cache_wf now k (PFloat q) (Some (Some d)) c Hwf) as Hwf'.
  pose proof (InMemoryCache.set_cache_cfg now k (PFloat q) (Some (Some d)) c Hwf) as Hcfg'.
  assert (∀ k', k' ≠ k → InMemoryCache.ttl_dict (InMemoryCache.set_cache now k (PFloat q) (Some (Some d)) c).2 !! k'
    = InMemoryCache.ttl_dict c !! k') as Hf by (intros k' Hk'; by apply InMemoryCache.set_cache_frame).
  assert (InMemoryCache.set_cache now k (PFloat q) (Some (Some d)) c = (Ok (), InMemoryCache.store now k (PFloat q) (Some (Some d)) c)) as E.
  { unfold InMemoryCache.set_cache, mbind, M_bind, m_get. rewrite (proj2 (Z.eqb_neq _ _)) by lia.
    rewrite (proj2 (Z.leb_gt _ _)) by lia. unfold mret, M_ret. by rewrite Hsz. }
  rewrite E in *. exists (InMemoryCache.store now k (PFloat q) (Some (Some d)) c). split_and!; try done.
  - apply InMemoryCache.store_cache_dict.
  - apply InMemoryCache.store_ttl.
Qed.

Lemma dual_write now k v d im s :
  local s → InMemoryCache.set_cache now k v (Some (Some d)) (mem s) = (Ok (), im) →
  on_cache (DualCache.async_set_cache now k v false (Some (Some d))) s = (Ok (), set_dual (DualCache.set_im im (dual_cache s)) s).
Proof.
  intros Hl E. unfold on_cache, m_zoom, DualCache.async_set_cache, InMemoryCache.async_set_cache, m_try, mbind, M_bind, m_get.
  cbn [DualCache.with_default_ttl]. rewrite (DualCache.on_im_run _ _ _ _ E). unfold DualCache.on_redis. cbn. by rewrite (lo_redis _ Hl).
Qed.

Lemma local_set_im s im q' :
  local s → InMemoryCache.wf im → InMemoryCache.cfg im = InMemoryCache.cfg (mem s) →
  local (set_queue q' (set_dual (DualCache.set_im im (dual_cache s)) s)).
Proof.
  intros [Hr Hw Hf] Hwf Hcfg. split; [done|done|]. intros q. rewrite <-(Hf q). by apply InMemoryCache.check_value_size_cfg.
Qed.

(** One increment of a counter that holds a float or is absent. *)
Lemma increment_run now k amount q d s :
  local s → Z.of_nat (size (InMemoryCache.cache_dict (mem s))) < InMemoryCache.max_size_in_memory (mem s) →
  InMemoryCache.get_cache now k (mem s) = (Ok (default PNone (PFloat <$> amount)), mem s) →
  ∃ s', _increment_spend_in_current_window now k (PFloat q) d s = (Ok (), s') ∧ local s' ∧ same_config s s' ∧
    InMemoryCache.cfg (mem s') = InMemoryCache.cfg (mem s) ∧
    (∃ q', InMemoryCache.cache_dict (mem s') = <[k := PFloat q']> (InMemoryCache.cache_dict (mem s)) ∧ (q' == default 0 amount + q)%Q) ∧
    InMemoryCache.ttl_dict (mem s') !! k = Some (match InMemoryCache.ttl_dict (mem s) !! k with
                                           | Some e => if e <? now then now + seconds d else e
                                           | None => now + seconds d
                                           end) ∧
    (∀ k', k' ≠ k → InMemoryCache.ttl_dict (mem s') !! k' = InMemoryCache.ttl_dict (mem s) !! k').
Proof.
  intros Hl Hroom Hget.
  assert (∃ q', py_add (py_or (default PNone (PFloat <$> amount)) (PInt 0)) (PFloat q) = Ok (PFloat q') ∧ (q' == default 0 amount + q)%Q)
    as (q' & Eadd & Hq').
  { destruct amount as [a|]; cbn -[Qplus]; [|by exists (inject_Z 0 + q)%Q].
    unfold py_or. cbn -[Qplus]. destruct (Qeq_bool a 0) eqn:Ea; cbn -[Qplus]; [|by exists (a + q)%Q].
    exists (inject_Z 0 + q)%Q. split; [done|]. apply Qeq_bool_iff in Ea. by rewrite Ea. }
  destruct (float_write now k q' (seconds d) (mem s)) as (im & Es & Hwf & Hcfg & Hd & Ht & Hf); [apply Hl|done|apply Hl|].
  eexists. split.
  { unfold _increment_spend_in_current_window. erewrite m_bind_run; [done|]. unfold on_cache, m_zoom.
    erewrite DualCache.on_im_run; [done|]. unfold InMemoryCache.async_increment.
    erewrite m_bind_run by exact Hget. erewrite m_bind_run by (unfold m_lift; by rewrite Eadd). erewrite m_bind_run by exact Es. done. }
  split; [by apply local_set_im|]. cbn. split_and!; eauto. done.
Qed.

(** *** Time *)

Lemma elapsed_le now t0 T : Qle_bool (timestamp now - timestamp t0) (inject_Z T) = (now - t0 <=? seconds T).
Proof.
  apply eq_true_iff_eq. rewrite Qle_bool_iff, Z.leb_le. unfold Qle, timestamp, seconds. cbn. lia.
Qed.

Lemma py_int_whole q z : (q == inject_Z z)%Q → py_int q = z.
Proof.
  unfold Qeq, py_int. cbn. rewrite Z.mul_1_r. intros ->. apply Z.quot_mul. lia.
Qed.

Lemma whole_window now T : py_int (inject_Z T - (timestamp now - timestamp now)) = T.
Proof. apply py_int_whole. unfold Qeq. cbn. lia. Qed.

(** *** Events *)

Context (b : BudgetConfig) (dur ks ka : string) (T : Z).
Hypothesis Hdur : budget_duration b = Some dur.
Hypothesis Hkeys : ks ≠ ka.

Lemma event_in_window now today t0 amount q s :
  Duration.duration_in_seconds today dur = Ok T → local s → window t0 T ks ka amount (mem s) → t0 ≤ now ≤ t0 + seconds T →
  ∃ s', _increment_spend_for_key now today b ks ka (PFloat q) s = (Ok (), s') ∧ local s' ∧ same_config s s' ∧
    window t0 T ks ka (amount + q) (mem s').
Proof.
  intros HT Hl [Hroom Hst Hstt (a & Hsp & Ha) Hspt] Hnow.
  destruct (increment_run now ks (Some a) q (py_int (inject_Z T - (timestamp now - timestamp t0))) s)
    as (s' & Es & Hl' & Hsame & Hcfg & (q' & Hd & Hq') & Ht & Hf); [done|done|by apply (live_read now ks (PFloat a) (t0 + seconds T)); [..|lia]|].
  exists s'. split; [|split_and!; [done|done|split]].
  - unfold _increment_spend_for_key. rewrite Hdur.
    erewrite m_bind_run by (unfold m_lift; by rewrite HT). unfold _get_or_set_budget_start_time.
    erewrite m_bind_run.
    2:{ erewrite m_bind_run by (apply dual_read; [done|]; apply (live_read now ka (PFloat (timestamp t0)) (t0 + seconds T)); [done..|lia]). done. }
    rewrite elapsed_le, (proj2 (Z.leb_le _ _)) by lia. done.
  - rewrite Hd. injection Hcfg as -> _ _. rewrite map_size_insert, Hsp. done.
  - rewrite Hd, lookup_insert_ne by done. done.
  - by rewrite Hf.
  - exists q'. split; [by rewrite Hd, lookup_insert_eq|]. rewrite Hq', <-Ha. reflexivity.
  - rewrite Ht, Hspt. destruct (Z.ltb_spec (t0 + seconds T) now); [lia|done].
Qed.

Lemma first_event now today q s :
  Duration.duration_in_seconds today dur = Ok T → 0 ≤ T → local s →
  InMemoryCache.cache_dict (mem s) !! ks = None → InMemoryCache.cache_dict (mem s) !! ka = None →
  Z.of_nat (size (InMemoryCache.cache_dict (mem s))) + 2 < InMemoryCache.max_size_in_memory (mem s) →
  ∃ s', _increment_spend_for_key now today b ks ka (PFloat q) s = (Ok (), s') ∧ local s' ∧ same_config s s' ∧
    window now T ks ka q (mem s').
Proof.
  intros HT HT0 Hl Hks Hka Hroom.
  assert (∀ k, InMemoryCache.cache_dict (mem s) !! k = None → InMemoryCache.ttl_dict (mem s) !! k = None) as Hnone.
  { intros k. rewrite <-!not_elem_of_dom, (InMemoryCache.core_dom _ (InMemoryCache.wf_core _ (lo_wf _ Hl))). done. }
  destruct (float_write now ka (timestamp now) (seconds T) (mem s)) as (im & Es & Hwf & Hcfg & Hd & Ht & Hf); [apply Hl|lia|apply Hl|].
  pose proof (dual_write now ka _ (seconds T) im s Hl Es) as Ew. set (s1 := set_dual _ s) in Ew.
  assert (local s1) as Hl1 by (apply (local_set_im s im (redis_increment_operation_queue s) Hl Hwf Hcfg)).
  assert (mem s1 = im) as Em by done.
  destruct (increment_run now ks None q T s1) as (s' & Ei & Hl' & Hsame & Hcfg' & (q' & Hd' & Hq') & Ht' & Hf'); [done|..].
  { rewrite Em, Hd. injection Hcfg as -> _ _. rewrite map_size_insert, Hka. lia. }
  { apply missing_read. rewrite Em, Hd, lookup_insert_ne by done. done. }
  exists s'. split; [|split_and!; [done|done|split]].
  - unfold _increment_spend_for_key. rewrite Hdur. erewrite m_bind_run by (unfold m_lift; by rewrite HT).
    erewrite m_bind_run.
    2:{ unfold _get_or_set_budget_start_time. erewrite m_bind_run by (apply dual_read; [done|]; by apply missing_read). cbn [is_none].
        erewrite m_bind_run by exact Ew. done. }
    rewrite elapsed_le, (proj2 (Z.leb_le _ _)) by (unfold seconds; lia). by rewrite whole_window.
  - rewrite Hd', Em, Hd. injection Hcfg' as -> _ _. injection Hcfg as -> _ _.
    rewrite !map_size_insert, lookup_insert_ne, Hks, Hka by done. lia.
  - rewrite Hd', lookup_insert_ne, Em, Hd, lookup_insert_eq by done. done.
  - rewrite Hf', Em, Ht, Hnone by done. done.
  - exists q'. split; [by rewrite Hd', lookup_insert_eq|]. rewrite Hq'. apply Qplus_0_l.
  - rewrite Ht', Em, Hf, Hnone by done. done.
Qed.

(** *** Runs of events *)

Lemma spend_window now t0 amount c :
  window t0 T ks ka amount c →
  (spend_of (InMemoryCache.live_value now ks c) == if now <=? t0 + seconds T then amount else 0)%Q.
Proof.
  intros [_ _ _ (q & Hs & Hq) Ht]. unfold InMemoryCache.live_value, InMemoryCache._is_key_expired. rewrite Hs, Ht.
  destruct (Z.leb_spec now (t0 + seconds T)), (Z.ltb_spec (t0 + seconds T) now); try lia; [|done].
  unfold spend_of, py_or. cbn. destruct (Qeq_bool q 0) eqn:E; cbn; [|done]. apply Qeq_bool_iff in E. by rewrite <-Hq, E.
Qed.
End window.

Section events.
Context `{PyRuntime} {R : Type} `{RedisCacheI R}.
Variable glp : string → pyval → res string.
Implicit Types s : t R.
#[local] Abbreviation mem s := (DualCache.in_memory_cache (dual_cache s)).

(** A logged call: when, on which day, with what arguments and at what cost. *)
Record event := mkEvent { at_time : Z; on_day : Duration.datetime; with_kwargs : dict; cost : Q }.

(** It is a call of the provider, in the window that starts at [t0]. *)
Record logged (p dur : string) (t0 T : Z) (e : event) : Prop := {
  lg_time : t0 ≤ at_time e ≤ t0 + seconds T;
  lg_duration : Duration.duration_in_seconds (on_day e) dur = Ok T;
  lg_cost : ∃ model_id, logged_cost (with_kwargs e) = Ok (PFloat (cost e), model_id, p);
  lg_tags : is_ok (request_tags (Some (with_kwargs e))) = true
}.

Definition log (e : event) : M (t R) unit := async_log_success_event (at_time e) (on_day e) (with_kwargs e).
Definition total (es : list event) : Q := foldr (λ e q, cost e + q)%Q 0%Q es.

(** Only providers have budgets. *)
Definition providers_only s : Prop := deployment_budget_config s = None ∧ tag_budget_config s = None.

Lemma no_tags tags s0 (f : string → BudgetConfig → M (t R) unit) s :
  tag_budget_config s0 = None →
  m_iter (λ tag, b ← m_lift (_get_budget_config_for_tag tag s0); match b with Some (x, b) => f x b | None => mret () end) tags s
    = (Ok (), s).
Proof.
  intros Hn. induction tags as [|tag tags IH]; [done|]. cbn [m_iter].
  rewrite (m_bind_run _ _ _ () s); [done|]. rewrite (m_bind_run _ _ _ None s); [done|].
  unfold m_lift, _get_budget_config_for_tag. by rewrite Hn.
Qed.

(** With provider budgets only, an event counts for its provider. *)
Lemma log_counts_provider p dur t0 T e b s s' :
  logged p dur t0 T e → providers_only s → _get_budget_config_for_provider p s = Some b →
  _increment_spend_for_key (at_time e) (on_day e) b (spend_key "provider" p b) (start_key "provider" p) (PFloat (cost e)) s = (Ok (), s') →
  log e s = (Ok (), s').
Proof.
  intros [_ _ (id & Ec) Ht] [Hd Hn] Hb E. unfold log, async_log_success_event.
  rewrite (m_bind_run m_get _ s s s eq_refl). erewrite m_bind_run by (unfold m_lift; by rewrite Ec). cbn beta iota.
  erewrite m_bind_run by (unfold increment_configured; rewrite Hb; exact E).
  erewrite m_bind_run by (unfold increment_configured, _get_budget_config_for_deployment, config_for; by rewrite Hd).
  destruct (request_tags (Some (with_kwargs e))) as [tags|]; [|done].
  rewrite (m_bind_run _ _ s' tags s') by done. by apply no_tags.
Qed.

Lemma spent_reached l q : (0 < l)%Q → (l <= q)%Q → spent (Some l) q = true.
Proof.
  intros Hpos Hle. cbn. apply andb_true_intro. split; [|by apply Qle_bool_iff]. apply negb_true_iff, not_true_iff_false.
  intros E%Qeq_bool_iff. rewrite E in Hpos. by apply Qlt_irrefl in Hpos.
Qed.

Section provider.
Context (p dur : string) (b : BudgetConfig) (T : Z).
Hypothesis Hdur : budget_duration b = Some dur.
Hypothesis HT : 0 ≤ T.
#[local] Abbreviation key := (spend_key "provider" p b).
#[local] Abbreviation start := (start_key "provider" p).

Lemma budget_keys_differ : key ≠ start.
Proof. unfold spend_key, start_key. cbn. intros E. by injection E. Qed.

Lemma logs_in_window t0 es amount s :
  Forall (logged p dur t0 T) es → local s → providers_only s → _get_budget_config_for_provider p s = Some b →
  window t0 T key start amount (mem s) →
  ∃ s', m_iter log es s = (Ok (), s') ∧ local s' ∧ same_config s s' ∧ ∃ a, (a == amount + total es)%Q ∧ window t0 T key start a (mem s').
Proof.
  intros Hes. revert amount s. induction Hes as [|e es He Hes IH]; intros amount s Hl Hpo Hb Hw.
  { exists s. split_and!; [done|done|done..|]. exists amount. split; [cbn; ring|done]. }
  destruct (event_in_window b dur key start T Hdur budget_keys_differ (at_time e) (on_day e) t0 amount (cost e) s)
    as (s1 & E1 & Hl1 & (Hp1 & Hd1 & Ht1) & Hw1); [apply He|done|done|apply He|].
  destruct (IH (amount + cost e)%Q s1 Hl1) as (s' & E' & Hl' & (Hp' & Hd' & Ht') & a & Ha & Hw'); [| |exact Hw1|].
  { split; [rewrite Hd1|rewrite Ht1]; apply Hpo. }
  { unfold _get_budget_config_for_provider in *. by rewrite Hp1. }
  exists s'. split_and!; [|done|unfold same_config; split_and!; congruence|].
  - cbn [m_iter]. rewrite (m_bind_run _ _ s () s1); [done|]. by eapply log_counts_provider.
  - exists a. split; [|done]. rewrite Ha. change (total (e :: es)) with (cost e + total es)%Q. ring.
Qed.

(** The first event opens the window. *)
Lemma logs_open_window e es s :
  Forall (logged p dur (at_time e) T) (e :: es) → local s → providers_only s → _get_budget_config_for_provider p s = Some b →
  InMemoryCache.cache_dict (mem s) !! key = None → InMemoryCache.cache_dict (mem s) !! start = None →
  Z.of_nat (size (InMemoryCache.cache_dict (mem s))) + 2 < InMemoryCache.max_size_in_memory (mem s) →
  ∃ s', m_iter log (e :: es) s = (Ok (), s') ∧ local s' ∧ same_config s s' ∧
    ∃ a, (a == total (e :: es))%Q ∧ window (at_time e) T key start a (mem s').
Proof.
  intros [He Hes]%Forall_cons Hl Hpo Hb Hk Hst Hroom.
  destruct (first_event b dur key start T Hdur budget_keys_differ (at_time e) (on_day e) (cost e) s)
    as (s1 & E1 & Hl1 & (Hp1 & Hd1 & Ht1) & Hw1); [apply He|done..|].
  destruct (logs_in_window (at_time e) es (cost e) s1 Hes Hl1) as (s' & E' & Hl' & (Hp' & Hd' & Ht') & a & Ha & Hw'); [| |done|].
  { split; [rewrite Hd1|rewrite Ht1]; apply Hpo. }
  { unfold _get_budget_config_for_provider in *. by rewrite Hp1. }
  exists s'. split_and!; [|done|unfold same_config; split_and!; congruence|].
  - cbn [m_iter]. rewrite (m_bind_run _ _ s () s1); [done|]. by eapply log_counts_provider.
  - exists a. by split.
Qed.

(** Without Redis, with room in the cache and budgets for providers only, the
    calls of a provider within the window that the first one opens are all
    counted: the spend is the sum of their costs until the window ends, and
    nothing after that. *)
Theorem window_spend e es s :
  Forall (logged p dur (at_time e) T) (e :: es) → local s → providers_only s → _get_budget_config_for_provider p s = Some b →
  InMemoryCache.cache_dict (mem s) !! key = None → InMemoryCache.cache_dict (mem s) !! start = None →
  Z.of_nat (size (InMemoryCache.cache_dict (mem s))) + 2 < InMemoryCache.max_size_in_memory (mem s) →
  ∃ s', m_iter log (e :: es) s = (Ok (), s') ∧
    ∀ now, (live_spend now s' key == if now <=? at_time e + seconds T then total (e :: es) else 0)%Q.
Proof.
  intros Hes Hl Hpo Hb Hk Hst Hroom. destruct (logs_open_window e es s) as (s' & E & _ & _ & a & Ha & Hw); [done..|].
  exists s'. split; [done|]. intros now. unfold live_spend. rewrite (spend_window key start T now _ a _ Hw). by case_match.
Qed.

End provider.
End events.

(** ** Examples and limits *)

Module Sample.
#[local] Existing Instance toy_runtime.
#[local] Existing Instance RedisCache.toy_client.
#[local] Existing Instance RedisCache.RedisCache_instance.
#[local] Abbreviation limiter := (t (RedisCache.t RedisCache.toy)).

(** The provider is what the model is called before the slash. *)
Definition provider_of (model : string) (_ : pyval) : res string :=
  if String.prefix "openai/" model then Ok "openai" else if String.prefix "azure/" model then Ok "azure" else Raise ValueError.

Definition dep (id model : string) : pyval :=
  PDict [("model_name", PStr "g"); ("litellm_params", PDict [("model", PStr model)]); ("model_info", PDict [("id", PStr id)])].
Definition one : pyval := dep "1" "openai/gpt".
Definition two : pyval := dep "2" "azure/gpt".

Definition daily (limit : option Q) : BudgetConfig := mkBudget limit (Some "1d").
Definition fresh (b : budgets) (redis : option (RedisCache.t RedisCache.toy)) : limiter :=
  mk (DualCache.init DualCache.default_settings None redis None None None 1000) [] (Some b) None None.

Definition noon : Duration.datetime := Duration.mkDt 2024 1 15 12 0 0 0.
Definition call (now : Z) (day : Duration.datetime) (provider : string) (q : Q) : event :=
  mkEvent now day [("standard_logging_object", PDict [("response_cost", PFloat q); ("model_id", PStr "1")]);
                   ("litellm_params", PDict [("custom_llm_provider", PStr provider)])] q.
Definition calls : list event := [call 0 noon "openai" (3 # 2); call 5 noon "openai" (1 # 2); call (seconds 86400) noon "openai" 1].
Definition openai_daily : limiter := fresh [("openai", daily (Some 2%Q))] None.
Definition after : limiter := (m_iter log calls openai_daily).2.

Lemma calls_logged : Forall (logged "openai" "1d" 0 86400) calls.
Proof.
  unfold calls. repeat (apply Forall_cons_2; [split; [cbn; unfold seconds; lia|reflexivity|eexists; reflexivity|reflexivity]|]). constructor.
Qed.

Lemma openai_local : local openai_daily.
Proof.
  split; [reflexivity|by apply InMemoryCache.wf_init|]. intros q. unfold InMemoryCache.check_value_size.
  destruct (prim_str (PFloat q)); [apply orb_true_r|reflexivity].
Qed.

Lemma window_spend_witness :
  ∃ s', m_iter log calls openai_daily = (Ok (), s') ∧
    ∀ now, (live_spend now s' "provider_spend:openai:1d" == if now <=? 0 + seconds 86400 then total calls else 0)%Q.
Proof.
  apply (window_spend "openai" "1d" (daily (Some 2%Q)) 86400 eq_refl ltac:(lia) (call 0 noon "openai" (3 # 2)) (tail calls) openai_daily
    calls_logged openai_local); [by split|reflexivity|reflexivity|reflexivity|reflexivity].
Defined.

Lemma countable_after now k : countable (InMemoryCache.live_value now k (DualCache.in_memory_cache (dual_cache after))).
Proof.
  unfold InMemoryCache.live_value.
  assert (InMemoryCache.cache_dict (DualCache.in_memory_cache (dual_cache after)) =
    {[ "provider_spend:openai:1d" := PFloat (12 # 4); "provider_budget_start_time:openai" := PFloat (0 # 1000000) ]}) as ->
    by (vm_compute; reflexivity).
  destruct (_ !! k) as [v|] eqn:E; [|done]. destruct (InMemoryCache._is_key_expired _ _ _); [done|].
  apply lookup_insert_Some in E as [[_ <-]|[_ [_ <-]%lookup_singleton_Some]]; done.
Qed.

Lemma run_after : m_iter log calls openai_daily = (Ok (), after).
Proof. vm_compute. reflexivity. Qed.
Lemma filter_after : (async_filter_deployments provider_of 7 [one; two] None after).1 = Ok [two].
Proof. vm_compute. reflexivity. Qed.
Lemma deps_readable : Forall readable [one; two].
Proof. repeat (apply Forall_cons_2; [by repeat (eexists || split)|]). constructor. Qed.
Lemma limits_set (s : limiter) q c :
  provider_budget_config s = Some [("openai", daily (Some 2%Q))] → _get_budget_config_for_provider q s = Some c → is_Some (max_budget c).
Proof. intros E. unfold _get_budget_config_for_provider, config_for. rewrite E. cbn. case_match; [|done]. intros [= <-]. eauto. Qed.
Lemma room : Z.of_nat (size (InMemoryCache.cache_dict (DualCache.in_memory_cache (dual_cache openai_daily)))) + 2 <
  InMemoryCache.max_size_in_memory (DualCache.in_memory_cache (dual_cache openai_daily)).
Proof. vm_compute. reflexivity. Qed.


Lemma filter_keeps_within_budget_witness :
  (async_filter_deployments provider_of 7 [one; two] None after).1 =
    match filter (λ d, within_budget provider_of after [] (live_spend 7 after) d = true) [one; two] with [] => Raise ValueError | l => Ok l end.
Proof.
  assert (provider_budget_config after = Some [("openai", daily (Some 2%Q))]) as Ep by (vm_compute; reflexivity).
  assert (DualCache.redis_cache (dual_cache after) = None) as Er by (vm_compute; reflexivity).
  assert (filter_tags None after = Ok []) as Et by (vm_compute; reflexivity).
  exact (filter_keeps_within_budget provider_of 7 [one; two] None [] after Er ltac:(discriminate) deps_readable
    (conj Et (Forall_nil_2 _)) (λ q c, limits_set after q c Ep) (λ _ _ _, countable_after _ _)).
Defined.

(** A provider with a duration and no limit, which has nothing to exceed, loses its
    deployments; a limit of 0 stops nothing. *)
Theorem no_limit_blocks_zero_limit_allows :
  (async_filter_deployments provider_of 7 [one; two] None (fresh [("openai", daily None)] None)).1 = Ok [two] ∧
  (async_filter_deployments provider_of 7 [one; two] None (m_iter log calls (fresh [("openai", daily (Some 0%Q))] None)).2).1
    = Ok [one; two].
Proof. split; vm_compute; reflexivity. Qed.

(** The window of a monthly budget that starts on the first of January is over on the
    31st, when a month is measured from that day: 28 or 29 days, less than the 30 that
    have passed.  The five units spent are forgotten a day early. *)
Theorem monthly_window_ends_early :
  let first := Duration.mkDt 2024 1 1 9 0 0 0 in
  let last := Duration.mkDt 2024 1 31 9 0 0 0 in
  let s := (m_iter log [call 0 first "openai" 5; call (seconds (30 * 86400)) last "openai" 1]
              (fresh [("openai", mkBudget (Some 2%Q) (Some "1mo"))] None)).2 in
  Duration.duration_in_seconds first "1mo" = Ok (31 * 86400) ∧
  InMemoryCache.live_value (seconds (30 * 86400)) "provider_spend:openai:1mo" (DualCache.in_memory_cache (dual_cache s)) = PFloat 1.
Proof. split; vm_compute; reflexivity. Qed.

(** Without Redis the reset time is the present plus the time at which the key expires,
    counted from the epoch: more than fifty years away instead of a day. *)
Theorem reset_time_counts_twice :
  let now := seconds 1700000000 in
  let s := (m_iter log [call now noon "openai" 1] openai_daily).2 in
  (_get_current_provider_budget_reset_at now "openai" s).1 = Ok (Some (now + (now + seconds 86400))).
Proof. vm_compute. reflexivity. Qed.

(** A provider budget written with the names of [BudgetConfig]'s own fields is no budget. *)
Theorem own_field_names_ignored :
  _init_provider_budgets (Some [("openai", RawDict [("max_budget", PInt 5); ("budget_duration", PStr "1d")])])
    = Ok (Some [("openai", mkBudget None None)]) ∧
  _init_tag_budgets true (Some [("prod", RawDict [("max_budget", PInt 5); ("budget_duration", PStr "1d")])])
    = Ok (Some [("prod", mkBudget (Some 5%Q) (Some "1d"))]).
Proof. split; reflexivity. Qed.

(** Spend in memory is replaced by what Redis had before the queued spend arrives. *)
Theorem sync_forgets_queued_spend :
  let redis := RedisCache.init (RedisCache.mkToy false {[ "provider_spend:openai:1d" := ("3", seconds 86400) ]}) None None None in
  let s0 := (_sync_in_memory_spend_with_redis 1 true (fresh [("openai", daily (Some 4%Q))] (Some redis))).2 in
  let s1 := (m_iter log [call 2 noon "openai" 2] s0).2 in
  let s2 := (_sync_in_memory_spend_with_redis 3 false s1).2 in
  let spend (s : limiter) := live_spend 4 s "provider_spend:openai:1d" in
  (spend s1 == 5)%Q ∧ (spend s2 == 3)%Q ∧ redis_increment_operation_queue s2 = [].
Proof. split_and!; vm_compute; reflexivity. Qed.
End Sample.
End BudgetLimiter.
