(* ===== verification/Pickers.v ===== *)
(** * Pickers: the strategies as the router uses them

    [routing_strategy_init] in [router.py] makes the handler of the chosen strategy; the
    pick and filter methods of the handlers that [Routing] knows only through the interface
    [picker] are its instances here.

    Theorems: every handler picks among the deployments it is offered and the budget filter
    only removes some, so a router set up with any accepted strategy has a lawful
    configuration; it accepts exactly the documented names.  A strategy given as a member
    of [RoutingStrategy] is accepted and set up, and never used. *)

From stdpp Require Import base gmap sets list strings.
From Stdlib Require Import ZArith QArith Lia.
From S2P Require Import Prelude Heapq PyHeapq PyStr InMemoryCache RedisCache DualCache RetryPolicy RouterIndex Cooldown Strategy LeastBusy LowestTpm PatternRouter Shuffle PreCall FallbackSelect Routing UsageMap LowestCost LowestLatency BaseStrategy LowestTpmV2 Duration BudgetLimiter.

#[local] Open Scope Z_scope.

Module Pickers.
Import PreCall Routing UsageMap.
#[local] Abbreviation dict := (list (string * pyval)).

Section pickers.
Context `{PyRuntime} {R : Type} `{RedisCacheI R}.

(** Prices, the order in which items are tried and the arguments of a request are those of
    the call; a handler keeps the router's cache. *)
Definition lowest_cost (model_cost : dict) : picker R :=
  mkPicker
    (λ _ _ _ c, (Raise AttributeError, c))
    (λ a g hs c, match LowestCost.async_get_available_deployments model_cost (now a) (minute a) g hs (input_tokens a) (LowestCost.init c) with
                 | (r, h) => (r, LowestCost.router_cache h) end).

Definition lowest_latency (sample : dict → dict) (args : LowestLatency.RoutingArgs) (kw : option dict) : picker R :=
  mkPicker
    (λ a g hs c, match LowestLatency.get_available_deployments sample (now a) (minute a) g hs (input_tokens a) kw (pick a)
                         (LowestLatency.init c args) with
                 | (r, h) => (fst <$> r, LowestLatency.router_cache h) end)
    (λ a g hs c, match LowestLatency.async_get_available_deployments sample (now a) (minute a) g hs (input_tokens a) kw (pick a)
                         (LowestLatency.init c args) with
                 | (r, h) => (fst <$> r, LowestLatency.router_cache h) end).

Definition lowest_tpm_v2 (ttl : option Z) : picker R :=
  mkPicker
    (λ a g hs c, match LowestTpmV2.get_available_deployments (now a) (minute a) hs (input_tokens a) (pick a) (LowestTpmV2.init c ttl) with
                 | (r, h) => (Some <$> r, BaseStrategy.dual_cache (LowestTpmV2.base h)) end)
    (λ a g hs c, match LowestTpmV2.async_get_available_deployments (now a) (minute a) hs (input_tokens a) (pick a) (LowestTpmV2.init c ttl) with
                 | (r, h) => (Some <$> r, BaseStrategy.dual_cache (LowestTpmV2.base h)) end).

(** The budget limiter as a callback of the router. *)
Definition budget_filter (glp : string → pyval → res string) (now : Z) (s : BudgetLimiter.t R)
    (model : string) (healthy : list pyval) (messages : pyval) (kw : option dict) : M (DualCache.t R) (list pyval) := λ c,
  match BudgetLimiter.async_filter_deployments glp now healthy kw (BudgetLimiter.set_dual c s) with
  | (r, s') => (r, BudgetLimiter.dual_cache s')
  end.
End pickers.

(** ** The set-up *)

(** A strategy is given by its name or as a member of the enumeration, which is equal to no
    text. *)
Inductive strategy := ByName (s : string) | ByMember (s : string).

Definition RoutingStrategy : list string :=
  ["least-busy"; "latency-based-routing"; "cost-based-routing"; "usage-based-routing-v2"; "usage-based-routing"; "provider-budget-routing"].
Definition valid_strategy_strings : list string := "simple-shuffle" :: RoutingStrategy.

(** [routing_strategy == RoutingStrategy.X.value or routing_strategy == RoutingStrategy.X]. *)
Definition is_strategy (o : option strategy) (value : string) : bool :=
  match o with Some (ByName s) | Some (ByMember s) => String.eqb s value | None => false end.

Definition is_valid (o : option strategy) : bool :=
  match o with
  | None => true
  | Some (ByName s) => bool_decide (s ∈ valid_strategy_strings)
  | Some (ByMember s) => bool_decide (s ∈ RoutingStrategy)
  end.

(** The handlers of a router. *)
Record handlers (R : Type) := mkHandlers {
  h_leastbusy : option (picker R);
  h_tpm : option (pick_fn R);
  h_tpm_v2 : option (picker R);
  h_latency : option (picker R);
  h_cost : option (picker R)
}.
Arguments mkHandlers {R}. Arguments h_leastbusy {R}. Arguments h_tpm {R}. Arguments h_tpm_v2 {R}.
Arguments h_latency {R}. Arguments h_cost {R}.

Section init.
Context `{PyRuntime} {R : Type} `{RedisCacheI R}.
Variable model_cost : dict.
Variable sample : dict → dict.
Variable kw : option dict.

(** [routing_strategy_args], as the handlers parse it. *)
Record strategy_args := mkArgs { a_ttl : option Z; a_latency : LowestLatency.RoutingArgs }.

Definition routing_strategy_init (o : option strategy) (args : strategy_args) (h : handlers R) : res (handlers R) :=
  if negb (is_valid o) then Raise ValueError
  else Ok (
    if is_strategy o "least-busy" then mkHandlers (Some least_busy) (h_tpm h) (h_tpm_v2 h) (h_latency h) (h_cost h)
    else if is_strategy o "usage-based-routing" then mkHandlers (h_leastbusy h) (Some lowest_tpm) (h_tpm_v2 h) (h_latency h) (h_cost h)
    else if is_strategy o "usage-based-routing-v2"
    then mkHandlers (h_leastbusy h) (h_tpm h) (Some (lowest_tpm_v2 (a_ttl args))) (h_latency h) (h_cost h)
    else if is_strategy o "latency-based-routing"
    then mkHandlers (h_leastbusy h) (h_tpm h) (h_tpm_v2 h) (Some (lowest_latency sample (a_latency args) kw)) (h_cost h)
    else if is_strategy o "cost-based-routing"
    then mkHandlers (h_leastbusy h) (h_tpm h) (h_tpm_v2 h) (h_latency h) (Some (lowest_cost model_cost))
    else h).

(** The router before its strategy is set up. *)
Definition no_handlers : handlers R := mkHandlers None None None None None.

(** [self.routing_strategy], as later comparisons with texts see it. *)
Definition strategy_text (o : option strategy) : string :=
  match o with Some (ByName s) => s | Some (ByMember s) => "RoutingStrategy." +:+ s | None => "None" end.

Definition configure (o : option strategy) (h : handlers R) (cfg : config R) : config R :=
  mkConfig R (pattern_router cfg) (team_pattern_routers cfg) (default_deployment cfg) (fallbacks cfg) (enable_pre_call_checks cfg)
    (enable_tag_filtering cfg) (tag_filtering_match_any cfg) (strategy_text o) (h_leastbusy h) (h_tpm h) (h_tpm_v2 h) (h_cost h)
    (h_latency h) (auto_routers cfg) (complexity_routers cfg) (model_alias_map cfg) (redact_user_api_key_info cfg) (callbacks cfg)
    (model_dump cfg) (format_field cfg) (provider_of cfg) (checks_env cfg).
End init.
Arguments configure {R}. Arguments no_handlers {R}.

(** ** The handlers are lawful *)

Section laws.
Context `{PyRuntime} {R : Type} `{RedisCacheI R}.

Lemma evaluate_sub judge healthy items l :
  evaluate judge healthy items = Ok l → ∀ x, x ∈ potential l → x.1 ∈ healthy.
Proof.
  revert l. induction items as [|[item v] items IH]; intros l; cbn [evaluate]; [intros [= <-] x Hx; by apply elem_of_nil in Hx|].
  destruct (LowestTpm.find_last healthy item None) as [[m|]|] eqn:Ef; [| |done]; unfold mbind at 1, res_bind at 1; [|apply IH].
  destruct (judge v m) as [[metric ok]|]; [|done]. unfold mbind at 1, res_bind at 1.
  destruct (evaluate judge healthy items) as [l'|]; [|done]. intros [= <-] x.
  assert (m ∈ healthy) as Hm by (by apply find_last_sub in Ef as [?|?]). unfold potential. cbn. destruct ok; [|by apply IH].
  intros [->|Hx]%elem_of_cons; [done|]. by eapply IH.
Qed.

Lemma insert_by_sub x l l' : insert_by x l = Ok l' → ∀ y, y ∈ l' → y = x ∨ y ∈ l.
Proof.
  revert l'. induction l as [|z l IH]; intros l'; cbn [insert_by]; [intros [= <-] y; set_solver|].
  destruct (py_lt x.2 z.2) as [[]|]; [intros [= <-] y; set_solver| |done]. unfold mbind at 1, res_bind at 1.
  destruct (insert_by x l) as [l''|]; [|done]. intros [= <-] y [->|Hy]%elem_of_cons; [set_solver|].
  destruct (IH l'' eq_refl y Hy); set_solver.
Qed.

Lemma sorted_by_sub l l' : sorted_by l = Ok l' → ∀ y, y ∈ l' → y ∈ l.
Proof.
  unfold sorted_by. assert (∀ acc l', sort_onto acc l = Ok l' → ∀ y, y ∈ l' → y ∈ acc ∨ y ∈ l) as Hs.
  { induction l as [|x l IH]; intros acc l0; cbn [sort_onto]; [intros [= <-]; set_solver|].
    destruct (insert_by x acc) as [acc'|] eqn:Ei; [|done]. unfold mbind, res_bind. intros E y Hy.
    destruct (IH _ _ E y Hy) as [Ha|]; [|set_solver]. destruct (insert_by_sub _ _ _ Ei y Ha); set_solver. }
  intros E y Hy. destruct (Hs _ _ E y Hy) as [Hn|]; [by apply elem_of_nil in Hn|done].
Qed.

#[export] Instance lowest_cost_lawful model_cost : LawfulPicker (lowest_cost (R := R) model_cost).
Proof.
  split; intros a g hs c d c'; cbn; [done|].
  destruct (LowestCost.async_get_available_deployments _ _ _ _ _ _ _) as [r h] eqn:Er. intros [= -> _].
  unfold LowestCost.async_get_available_deployments in Er.
  apply m_bind_ok in Er as (counts & h1 & _ & Er). apply m_bind_ok in Er as (filled & h2 & _ & Er).
  apply m_bind_ok in Er as (judged & h3 & Ej & Er). unfold m_lift in Ej. injection Ej as Ej _.
  destruct (potential judged) as [|p0 p] eqn:Ep; [done|]. apply m_bind_ok in Er as (sorted & h4 & Es & Er).
  unfold m_lift in Es. injection Es as Es _. destruct sorted as [|x sorted]; [done|]. injection Er as <- _.
  eapply evaluate_sub; [exact Ej|]. rewrite Ep. eapply sorted_by_sub; [exact Es|]. by left.
Qed.

Lemma choose_sub sample args minute hs input kw pick items d kw' :
  LowestLatency.choose sample args minute hs input kw pick items = Ok (Some d, kw') → d ∈ hs.
Proof.
  unfold LowestLatency.choose. destruct (evaluate _ hs _) as [judged|] eqn:Ej; [|done]. unfold mbind at 1, res_bind at 1.
  destruct (potential judged) as [|p0 p] eqn:Ep; [done|]. destruct (sorted_by (p0 :: p)) as [sorted|] eqn:Es; [|done].
  unfold mbind at 1, res_bind at 1. destruct (random_choice pick _) as [chosen|] eqn:Ec; [|done]. unfold mbind, res_bind.
  destruct (LowestLatency.note_latencies kw _) as [kw''|]; [|done]. intros [= <- _]. eapply evaluate_sub; [exact Ej|]. rewrite Ep.
  eapply sorted_by_sub; [exact Es|]. apply random_choice_sub in Ec. unfold LowestLatency.valid_deployments in Ec.
  destruct sorted; [by apply elem_of_nil in Ec|]. by apply list_elem_of_filter in Ec as [_ Ec].
Qed.

#[export] Instance lowest_latency_lawful sample args kw : LawfulPicker (lowest_latency (R := R) sample args kw).
Proof.
  assert (∀ getter a g hs (h h' : LowestLatency.t R) d kw',
    LowestLatency._get_available_deployments sample getter (now a) (minute a) g hs (input_tokens a) kw (pick a) h = (Ok (Some d, kw'), h') →
    d ∈ hs) as Hrun.
  { intros getter a g hs h h' d kw' Er. unfold LowestLatency._get_available_deployments in Er.
    apply m_bind_ok in Er as (h0 & h1 & _ & Er). apply m_bind_ok in Er as (counts & h2 & _ & Er).
    apply m_bind_ok in Er as (filled & h3 & _ & Er). injection Er as Er _. by eapply choose_sub. }
  split; intros a g hs c d c'; cbn.
  - destruct (LowestLatency.get_available_deployments _ _ _ _ _ _ _ _ _) as [[[o kw']|] h] eqn:Er; cbn; [|done].
    intros [= -> _]. by eapply Hrun.
  - destruct (LowestLatency.async_get_available_deployments _ _ _ _ _ _ _ _ _) as [[[o kw']|] h] eqn:Er; cbn; [|done].
    intros [= -> _]. by eapply Hrun.
Qed.
Lemma deployment_lookup_sub hs item acc m :
  LowestTpmV2.deployment_lookup hs item acc = Ok (Some m) → m ∈ hs ∨ acc = Some m.
Proof.
  revert acc. induction hs as [|x hs IH]; intros acc; cbn [LowestTpmV2.deployment_lookup]; [intros [= ->]; by right|].
  destruct (py_get_or x _ _) as [info|]; [|done]. unfold mbind at 1, res_bind at 1. destruct (py_get info "id") as [id|]; [|done].
  unfold mbind at 1, res_bind at 1. destruct (hashable id); [|done]. intros [Hm|E]%IH; [left; by right|].
  destruct (py_eqb _ _); [|by right]. injection E as ->. left. by left.
Qed.

Lemma potential_loop_sub hs rpm input items lowest acc l :
  LowestTpmV2.potential_loop hs rpm input items lowest acc = Ok l → acc ⊆ hs → l ⊆ hs.
Proof.
  revert lowest acc. induction items as [|[key v] items IH]; intros lowest acc; cbn [LowestTpmV2.potential_loop]; [by intros [= <-]|].
  destruct (LowestTpmV2.deployment_lookup hs _ None) as [[m|]|] eqn:El; [| |done]; unfold mbind at 1, res_bind at 1; [|apply IH].
  assert (m ∈ hs) as Hm by (by apply deployment_lookup_sub in El as [?|?]).
  destruct (is_none v); [apply IH|]. destruct (LowestTpmV2.within_limits _ _ _ _ _) as [[]|]; [| |done];
    unfold mbind at 1, res_bind at 1; [|apply IH].
  destruct (match lowest with Some _ => _ | None => _ end); [intros E Ha; eapply IH; [exact E|]; set_solver|].
  destruct (match lowest with Some _ => _ | None => _ end) as [[]|]; [| |done]; unfold mbind at 1, res_bind at 1; [|apply IH].
  intros E Ha. eapply IH; [exact E|]. set_solver.
Qed.

Lemma common_checks_sub hs tk tv rk rv input pick d :
  LowestTpmV2._common_checks_available_deployment hs tk tv rk rv input pick = Ok (Some d) → d ∈ hs.
Proof.
  unfold LowestTpmV2._common_checks_available_deployment. destruct tv as [tv|], rv as [rv|]; try done.
  destruct (LowestTpmV2.zeros _ _) as [all|]; [|done]. unfold mbind at 1, res_bind at 1.
  destruct (LowestTpmV2._return_potential_deployments _ _ _ _) as [l|] eqn:El; [|done]. unfold mbind, res_bind.
  apply potential_loop_sub in El; [|by intros ? ?%elem_of_nil]. destruct l as [|x l]; [done|].
  destruct (random_choice pick (x :: l)) as [y|] eqn:Ec; [|done]. intros [= <-]. by apply El, (random_choice_sub pick).
Qed.

#[export] Instance lowest_tpm_v2_lawful ttl : LawfulPicker (lowest_tpm_v2 (R := R) ttl).
Proof.
  assert (∀ (o : option pyval) e (h h' : LowestTpmV2.t R) d,
    (match o with Some d => mret d | None => m_raise e end : M (LowestTpmV2.t R) pyval) h = (Ok d, h') → o = Some d) as Hsome.
  { intros [x|] e h h' d; cbn; [by intros [= -> _]|done]. }
  split; intros a g hs c d c'; cbn.
  - destruct (LowestTpmV2.get_available_deployments _ _ _ _ _ _) as [[x|] h] eqn:Er; cbn; [|done]. intros [= -> _].
    unfold LowestTpmV2.get_available_deployments in Er. do 4 (apply m_bind_ok in Er as (? & ? & _ & Er)).
    apply m_bind_ok in Er as (o & h5 & Ec & Er). apply Hsome in Er as ->. injection Ec as Ec _. by eapply common_checks_sub.
  - destruct (LowestTpmV2.async_get_available_deployments _ _ _ _ _ _) as [[x|] h] eqn:Er; cbn; [|done]. intros [= -> _].
    unfold LowestTpmV2.async_get_available_deployments in Er. do 3 (apply m_bind_ok in Er as (? & ? & _ & Er)).
    apply m_bind_ok in Er as (o & h5 & Ec & Er). apply Hsome in Er as ->. injection Ec as Ec _. by eapply common_checks_sub.
Qed.

Lemma filter_loop_sub glp (s : BudgetLimiter.t R) c m tags idx hs l :
  BudgetLimiter.filter_loop glp s c m tags idx hs = Ok l → l ⊆ hs.
Proof.
  revert idx l. induction hs as [|d hs IH]; intros idx l; cbn [BudgetLimiter.filter_loop]; [by intros [= <-]|].
  destruct (if BudgetLimiter.provider_ok _ _ _ _ _ _ then _ else _) as [keep|]; [|done]. unfold mbind at 1, res_bind at 1.
  destruct (BudgetLimiter.filter_loop _ _ _ _ _ _ _) as [l'|] eqn:El; [|done]. intros [= <-]. apply IH in El. destruct keep; set_solver.
Qed.

Lemma budget_filter_sub glp now (s : BudgetLimiter.t R) m hs msgs kw c l c' :
  budget_filter glp now s m hs msgs kw c = (Ok l, c') → ∀ d, d ∈ l → d ∈ hs.
Proof.
  unfold budget_filter. destruct (BudgetLimiter.async_filter_deployments _ _ _ _ _) as [r s'] eqn:Er. intros [= -> _].
  unfold BudgetLimiter.async_filter_deployments in Er. destruct hs as [|h0 hs]; [by injection Er as <- _|].
  apply m_bind_ok in Er as (s1 & s2 & _ & Er). apply m_bind_ok in Er as (col & s3 & _ & Er).
  destruct (BudgetLimiter.cache_keys col); [by injection Er as <- _|]. do 4 (apply m_bind_ok in Er as (? & ? & _ & Er)).
  apply m_bind_ok in Er as (pot & s8 & Ef & Er). injection Ef as Ef _. apply filter_loop_sub in Ef.
  destruct pot; [done|]. injection Er as <- _. intros d. apply Ef.
Qed.

(** C7: Whatever strategy a router accepts, its handlers pick among what they are offered; with
    the budget limiter among its callbacks the configuration is one for which a selected
    deployment is eligible. *)
Theorem configured_router_lawful model_cost sample kw o args h glp now s cfg
    (Hinit : routing_strategy_init (R := R) model_cost sample kw o args no_handlers = Ok h)
    (Hcb : callbacks cfg = [budget_filter glp now s]) :
  lawful_config (configure o h cfg).
Proof.
  unfold routing_strategy_init in Hinit. destruct (is_valid o); [|done]. injection Hinit as <-.
  split; cbn; [repeat (case_match; cbn; try done; try (intros ? [= <-]; apply _))..|].
  - intros f. repeat (case_match; cbn; try done). intros [= <-]. apply lowest_tpm_offered.
  - rewrite Hcb. constructor; [|constructor]. intros m ds msgs kw' c ds' c'. apply budget_filter_sub.
Qed.

(** Every documented strategy is accepted and no other text; of the accepted ones,
    [simple-shuffle] and [provider-budget-routing] make no handler. *)
Theorem strategies_accepted model_cost sample kw args s :
  is_ok (routing_strategy_init (R := R) model_cost sample kw (Some (ByName s)) args no_handlers)
    = bool_decide (s ∈ valid_strategy_strings) ∧
  (routing_strategy_init (R := R) model_cost sample kw (Some (ByName s)) args no_handlers = Ok no_handlers ↔
    s = "simple-shuffle" ∨ s = "provider-budget-routing").
Proof.
  unfold routing_strategy_init, is_valid. split; [by case_bool_decide|].
  case_bool_decide as Hs; cbn [negb is_strategy].
  - unfold valid_strategy_strings, RoutingStrategy in Hs. rewrite !elem_of_cons, elem_of_nil in Hs.
    naive_solver.
  - split; [done|]. intros [-> | ->]; exfalso; apply Hs; unfold valid_strategy_strings, RoutingStrategy; set_solver.
Qed.

(** A strategy given as a member of the enumeration is accepted, and its handler made, and
    then no pick of the router uses it: the name is compared with texts. *)
Theorem member_never_used (a : moment) model ds s h cfg (r : Cooldown.t R) d r' (Hs : s ∈ RoutingStrategy) :
  is_valid (Some (ByMember s)) = true ∧
  (routing_strategy (configure (Some (ByMember s)) h cfg) ∉ async_strategies) ∧
  sync_pick_by_strategy (configure (Some (ByMember s)) h cfg) a model ds r ≠ (ROk d, r').
Proof.
  cbn [is_valid routing_strategy configure strategy_text]. split_and!; [by apply bool_decide_eq_true| |].
  - unfold async_strategies. rewrite !elem_of_cons, elem_of_nil. naive_solver.
  - unfold sync_pick_by_strategy, handler_of, Routing.is_strategy. cbn [routing_strategy configure strategy_text].
    cbn. intros Hp. apply r_bind_ok in Hp as (o & r1 & Ho & Hp). injection Ho as <- _. by apply sync_selected_ok in Hp.
Qed.
End laws.

(** ** A concrete router *)

Module Sample.
#[local] Existing Instance toy_runtime.
#[local] Existing Instance RedisCache.toy_client.
#[local] Existing Instance RedisCache.RedisCache_instance.
#[local] Abbreviation redis := (RedisCache.t RedisCache.toy).

Definition args : strategy_args := mkArgs None LowestLatency.default_args.
Definition made (o : option strategy) : res (handlers redis) := routing_strategy_init [] (λ d, d) None o args no_handlers.

(** The sample router with the budget limiter among its callbacks. *)
Definition limited : config redis :=
  let c := Routing.Sample.ex_config "cost-based-routing" in
  mkConfig redis (pattern_router c) [] None None false (PBool false) false "cost-based-routing" None None None None None [] [] [] false
    [budget_filter BudgetLimiter.Sample.provider_of 0 BudgetLimiter.Sample.openai_daily]
    (model_dump c) (format_field c) (provider_of c) (checks_env c).

Lemma configured_router_lawful_witness :
  ∃ h, made (Some (ByName "cost-based-routing")) = Ok h ∧ lawful_config (configure (Some (ByName "cost-based-routing")) h limited).
Proof.
  eexists. split; [reflexivity|].
  apply (configured_router_lawful (R := redis) [] (λ d, d) None (Some (ByName "cost-based-routing")) args _
    BudgetLimiter.Sample.provider_of 0 BudgetLimiter.Sample.openai_daily limited); reflexivity.
Defined.

(** With prices unknown the first deployment that is eligible is picked. *)
Example cost_based_pick :
  match made (Some (ByName "cost-based-routing")) with
  | Ok h => (async_get_available_deployment (configure (Some (ByName "cost-based-routing")) h limited) Routing.Sample.second "gpt"
               Routing.Sample.red PNone false Routing.Sample.ex_router).1
  | Raise e => RRaise (Py e)
  end = ROk (dep_val Routing.Sample.offline).
Proof. vm_compute. reflexivity. Qed.
End Sample.
End Pickers.
