(* ===== verification/SpendQueue.v ===== *)
(** * SpendQueue: [proxy/db/db_transaction_queue/]

    The in-memory buffers between a finished request and the database: the spend queue
    (one entry per charged entity), the daily queues (one entry per usage record) and the
    queue of discovered tools.  An [asyncio.Queue] is a list with a bound; putting into a
    full queue suspends the coroutine, which the outcome [Waits] records together with the
    state reached so far.  The [await]s of a queue that is neither full nor empty do not
    yield, so every method below runs without interleaving.  The three thresholds come
    from the environment and are a [config].

    Theorems: compaction and flushing conserve the spend of every entity; a compacted queue
    holds one entry per entity, so a producer does not wait while there are fewer entities
    than the threshold; the daily aggregation adds up every metric of a key; a tool is
    queued once between two flushes. *)

From stdpp Require Import base gmap sets list strings.
From Stdlib Require Import ZArith QArith Lqa Lia ZifyBool Ascii.
From S2P Require Import Prelude PyStr.

#[local] Open Scope Z_scope.

(** ** Methods that may wait *)

(** What a coroutine has done when it returns, raises, or is suspended at a full queue. *)
Inductive outcome (S A : Type) : Type :=
| Done (r : res A) (s : S)
| Waits (s : S).
Arguments Done {S A}. Arguments Waits {S A}.

Definition reached {S A} (o : outcome S A) : S := match o with Done _ s | Waits s => s end.
Definition result {S A} (o : outcome S A) : option (res A) :=
  match o with Done r _ => Some r | Waits _ => None end.

Definition W (S A : Type) : Type := S → outcome S A.

#[export] Instance W_ret {S} : MRet (W S) := λ A a s, Done (Ok a) s.
#[export] Instance W_bind {S} : MBind (W S) := λ A B f m s,
  match m s with
  | Done (Ok a) s' => f a s'
  | Done (Raise e) s' => Done (Raise e) s'
  | Waits s' => Waits s'
  end.

Definition w_raise {S A} (e : exn) : W S A := λ s, Done (Raise e) s.
Definition w_lift {S A} (r : res A) : W S A := λ s, Done r s.
Definition w_get {S} : W S S := λ s, Done (Ok s) s.
Definition w_modify {S} (f : S → S) : W S unit := λ s, Done (Ok ()) (f s).

Definition w_try {S A} (m : W S A) (h : exn → W S A) : W S A := λ s,
  match m s with Done (Raise e) s' => h e s' | o => o end.

Definition w_zoom {S T A} (get : S → T) (set : T → S → S) (m : W T A) : W S A := λ s,
  match m (get s) with Done r t => Done r (set t s) | Waits t => Waits (set t s) end.

Fixpoint w_iter {S A} (body : A → W S unit) (l : list A) : W S unit :=
  match l with
  | [] => mret ()
  | x :: l' => body x ;; w_iter body l'
  end.

Lemma w_bind_reached {S A B} (P : S → Prop) (m : W S A) (f : A → W S B) s :
  P (reached (m s)) → (∀ a s', P s' → P (reached (f a s'))) → P (reached ((m ≫= f) s)).
Proof. intros Hm Hf. unfold mbind, W_bind. destruct (m s) as [[a|e] s'|s']; cbn in *; auto. Qed.

Lemma w_bind_done {S A B} (m : W S A) (f : A → W S B) s a s' :
  m s = Done (Ok a) s' → (m ≫= f) s = f a s'.
Proof. intros E. unfold mbind, W_bind. by rewrite E. Qed.

Lemma w_bind_done_inv {S A B} (m : W S A) (f : A → W S B) s b s' :
  (m ≫= f) s = Done (Ok b) s' → ∃ a s1, m s = Done (Ok a) s1 ∧ f a s1 = Done (Ok b) s'.
Proof. unfold mbind, W_bind. destruct (m s) as [[a|]|]; [eauto|done..]. Qed.

(** ** The queue of [asyncio] and [BaseUpdateQueue] *)

Record config := mkConfig {
  LITELLM_ASYNCIO_QUEUE_MAXSIZE : Z;
  MAX_SIZE_IN_MEMORY_QUEUE : Z;
  MAX_IN_MEMORY_QUEUE_FLUSH_COUNT : Z
}.

(** The defaults of [constants.py]. *)
Definition default_config : config := mkConfig 1000 800 1000.

Module BaseUpdateQueue.
Section ops.
Context (cfg : config) {A : Type}.

Definition qsize (q : list A) : Z := Z.of_nat (length q).

(** [asyncio.Queue.full]: a bound that is not positive is no bound. *)
Definition full (q : list A) : bool :=
  (0 <? LITELLM_ASYNCIO_QUEUE_MAXSIZE cfg) && (LITELLM_ASYNCIO_QUEUE_MAXSIZE cfg <=? qsize q).

Definition put (x : A) : W (list A) unit := λ q, if full q then Waits q else Done (Ok ()) (q ++ [x]).

Definition add_update (update : A) : W (list A) unit := put update.

(** The loop of [flush_all_updates_from_in_memory_queue]. *)
Fixpoint flush_loop (updates q : list A) : list A * list A :=
  match q with
  | [] => (updates, [])
  | x :: q' =>
      if MAX_IN_MEMORY_QUEUE_FLUSH_COUNT cfg <=? qsize updates then (updates, q)
      else flush_loop (updates ++ [x]) q'
  end.

Definition flush_all_updates_from_in_memory_queue : W (list A) (list A) := λ q,
  let '(updates, q') := flush_loop [] q in Done (Ok updates) q'.
End ops.

Section facts.
Context (cfg : config) {A : Type}.
Implicit Types (q updates : list A).

Lemma qsize_app q q' : qsize (q ++ q') = qsize q + qsize q'.
Proof. unfold qsize. rewrite length_app. lia. Qed.

Lemma full_false q :
  full cfg q = false ↔ LITELLM_ASYNCIO_QUEUE_MAXSIZE cfg <= 0 ∨ qsize q < LITELLM_ASYNCIO_QUEUE_MAXSIZE cfg.
Proof. unfold full. lia. Qed.

(** A flush takes the oldest entries, at most the configured number. *)
Lemma flush_loop_split updates q :
  ∃ n, flush_loop cfg updates q = (updates ++ take n q, drop n q) ∧
    (n = length q ∨ MAX_IN_MEMORY_QUEUE_FLUSH_COUNT cfg <= qsize updates + Z.of_nat n).
Proof.
  revert updates. induction q as [|x q IH]; intros updates; cbn [flush_loop].
  - exists 0%nat. rewrite app_nil_r. eauto.
  - destruct (_ <=? _) eqn:E.
    + exists 0%nat. rewrite take_0, drop_0, app_nil_r. split; [done|right; lia].
    + destruct (IH (updates ++ [x])) as (n & -> & Hn). exists (S n). rewrite firstn_cons, skipn_cons, <- app_assoc.
      split; [done|]. rewrite qsize_app in Hn. unfold qsize in Hn |- *. cbn [length] in *. destruct Hn; [left|right]; lia.
Qed.

Lemma flush_split q :
  ∃ n, flush_all_updates_from_in_memory_queue cfg q = Done (Ok (take n q)) (drop n q) ∧
    (n = length q ∨ MAX_IN_MEMORY_QUEUE_FLUSH_COUNT cfg <= Z.of_nat n).
Proof.
  unfold flush_all_updates_from_in_memory_queue. destruct (flush_loop_split [] q) as (n & -> & Hn).
  exists n. split; [done|]. unfold qsize in Hn. cbn [length] in Hn. destruct Hn; [left|right]; lia.
Qed.

(** A queue no longer than the flush count is emptied. *)
Lemma flush_all q :
  qsize q <= MAX_IN_MEMORY_QUEUE_FLUSH_COUNT cfg →
  flush_all_updates_from_in_memory_queue cfg q = Done (Ok q) [].
Proof.
  intros Hq. destruct (flush_split q) as (n & -> & Hn).
  assert (length q ≤ n)%nat by (unfold qsize in Hq; lia). by rewrite take_ge, drop_ge.
Qed.
End facts.
End BaseUpdateQueue.
Export BaseUpdateQueue (qsize, full).

(** ** Spend updates *)

Inductive Litellm_EntityType : Type :=
| KEY | USER | END_USER | TEAM | TEAM_MEMBER | ORGANIZATION | PROJECT | TAG | AGENT | PROXY.

#[export] Instance Litellm_EntityType_eq_dec : EqDecision Litellm_EntityType.
Proof. solve_decision. Defined.

(** [f"{entity_type}"] of a member of a plain [Enum]. *)
Definition entity_type_str (ty : Litellm_EntityType) : string :=
  "Litellm_EntityType." +:+
  match ty with
  | KEY => "KEY" | USER => "USER" | END_USER => "END_USER" | TEAM => "TEAM" | TEAM_MEMBER => "TEAM_MEMBER"
  | ORGANIZATION => "ORGANIZATION" | PROJECT => "PROJECT" | TAG => "TAG" | AGENT => "AGENT" | PROXY => "PROXY"
  end.

(** A [TypedDict] whose entries may be missing; [update.get(...)] does not tell a missing
    entry from [None]. *)
Record SpendUpdateQueueItem := mkItem {
  entity_type : option Litellm_EntityType;
  entity_id : option string;
  response_cost : option Q
}.

(** [DBSpendUpdateTransactions]: the spend to add per entity, in one dict per table. *)
#[local] Abbreviation spend_dict := (list (string * Q)).
Definition DBSpendUpdateTransactions : Type := list (string * option spend_dict).

Definition transaction_fields : list string :=
  ["user_list_transactions"; "end_user_list_transactions"; "key_list_transactions"; "team_list_transactions";
   "team_member_list_transactions"; "org_list_transactions"; "tag_list_transactions"; "agent_list_transactions"].

Definition empty_transactions : DBSpendUpdateTransactions := (λ f, (f, Some [])) <$> transaction_fields.

Definition entity_type_to_dict_key (ty : Litellm_EntityType) : option string :=
  match ty with
  | USER => Some "user_list_transactions"
  | END_USER => Some "end_user_list_transactions"
  | KEY => Some "key_list_transactions"
  | TEAM => Some "team_list_transactions"
  | TEAM_MEMBER => Some "team_member_list_transactions"
  | ORGANIZATION => Some "org_list_transactions"
  | TAG => Some "tag_list_transactions"
  | AGENT => Some "agent_list_transactions"
  | PROJECT | PROXY => None
  end.

(** [x or 0] of an optional number. *)
Definition or_zero (x : option Q) : Q := default 0%Q x.

Module SpendUpdateQueue.

(** The key of [_in_memory_map]. *)
Definition item_key (u : SpendUpdateQueueItem) : string :=
  default "None" (entity_type_str <$> entity_type u) +:+ ":" +:+ default "None" (entity_id u).

Definition set_cost (c : Q) (u : SpendUpdateQueueItem) : SpendUpdateQueueItem :=
  mkItem (entity_type u) (entity_id u) (Some c).

Definition merge_item (m : list (string * SpendUpdateQueueItem)) (update : SpendUpdateQueueItem)
    : list (string * SpendUpdateQueueItem) :=
  let _key := item_key update in
  match dget _key m with
  | None => dset _key update m
  | Some u =>
      let current_cost := or_zero (response_cost u) in
      let update_cost := or_zero (response_cost update) in
      dset _key (set_cost (current_cost + update_cost)%Q u) m
  end.

Definition _get_aggregated_spend_update_queue_item (updates : list SpendUpdateQueueItem)
    : list SpendUpdateQueueItem :=
  let _in_memory_map := foldl merge_item [] updates in snd <$> _in_memory_map.

(** One turn of the loop of [get_aggregated_db_spend_update_transactions]; [x or 0] of a
    number is the number. *)
Definition add_transaction (t : DBSpendUpdateTransactions) (update : SpendUpdateQueueItem)
    : DBSpendUpdateTransactions :=
  let entity_id := default "" (entity_id update) in
  let response_cost := or_zero (response_cost update) in
  match entity_type update with
  | None => t
  | Some ty =>
      match entity_type_to_dict_key ty with
      | None => t
      | Some dict_key =>
          let transactions_dict := default [] (mjoin (dget dict_key t)) in
          dset dict_key
            (Some (dset entity_id (default 0%Q (dget entity_id transactions_dict) + response_cost)%Q
                     transactions_dict)) t
      end
  end.

Definition get_aggregated_db_spend_update_transactions (updates : list SpendUpdateQueueItem)
    : DBSpendUpdateTransactions :=
  foldl add_transaction empty_transactions updates.

Section ops.
Context (cfg : config).
#[local] Abbreviation queue := (list SpendUpdateQueueItem).

Definition aggregate_queue_updates : W queue unit :=
  updates ← BaseUpdateQueue.flush_all_updates_from_in_memory_queue cfg;
  w_iter (BaseUpdateQueue.put cfg) (_get_aggregated_spend_update_queue_item updates).

Definition add_update (update : SpendUpdateQueueItem) : W queue unit :=
  BaseUpdateQueue.put cfg update ;;
  q ← w_get;
  if MAX_SIZE_IN_MEMORY_QUEUE cfg <=? qsize q then aggregate_queue_updates else mret ().

Definition flush_and_get_aggregated_db_spend_update_transactions : W queue DBSpendUpdateTransactions :=
  updates ← BaseUpdateQueue.flush_all_updates_from_in_memory_queue cfg;
  mret (get_aggregated_db_spend_update_transactions updates).
End ops.

(** *** What the queue owes an entity *)

(** The update charges the entity [id] of kind [ty]; the commit reads a missing id as the
    empty one. *)
Definition charges (ty : Litellm_EntityType) (id : string) (u : SpendUpdateQueueItem) : bool :=
  bool_decide (entity_type u = Some ty) && String.eqb (default "" (entity_id u)) id.

Definition charge (ty : Litellm_EntityType) (id : string) (u : SpendUpdateQueueItem) : Q :=
  if charges ty id u then or_zero (response_cost u) else 0%Q.

Fixpoint owed (ty : Litellm_EntityType) (id : string) (q : list SpendUpdateQueueItem) : Q :=
  match q with [] => 0%Q | u :: q' => (charge ty id u + owed ty id q')%Q end.

(** What a set of transactions adds to an entity. *)
Definition spend_of (ty : Litellm_EntityType) (id : string) (t : DBSpendUpdateTransactions) : Q :=
  match entity_type_to_dict_key ty with
  | None => 0%Q
  | Some f => default 0%Q (dget id (default [] (mjoin (dget f t))))
  end.

Lemma owed_app ty id q q' : (owed ty id (q ++ q') == owed ty id q + owed ty id q')%Q.
Proof. induction q as [|u q IH]; cbn [owed app]; [ring|]. rewrite IH. ring. Qed.

Lemma owed_split ty id n q : (owed ty id (take n q) + owed ty id (drop n q) == owed ty id q)%Q.
Proof. by rewrite <- owed_app, take_drop. Qed.

(** Every field is present. *)
Definition complete (t : DBSpendUpdateTransactions) : Prop := ∀ f, f ∈ transaction_fields → ∃ d, dget f t = Some (Some d).

Lemma entity_type_to_dict_key_inj ty ty' f :
  entity_type_to_dict_key ty = Some f → entity_type_to_dict_key ty' = Some f → ty = ty'.
Proof. destruct ty, ty'; cbn; congruence. Qed.

Lemma dict_key_field ty f : entity_type_to_dict_key ty = Some f → f ∈ transaction_fields.
Proof. destruct ty; cbn; intros [= <-]; unfold transaction_fields; set_solver. Qed.

Lemma spend_of_add ty id t u :
  is_Some (entity_type_to_dict_key ty) →
  (spend_of ty id (add_transaction t u) == spend_of ty id t + charge ty id u)%Q.
Proof.
  intros [f Hf]. unfold spend_of, add_transaction, charge, charges. rewrite Hf.
  destruct (entity_type u) as [ty'|]; [|rewrite bool_decide_false by done; cbn [andb]; ring].
  destruct (decide (ty' = ty)) as [->|Hne].
  - rewrite Hf, dget_dset_eq, bool_decide_true by done.
    generalize (default "" (entity_id u)), (or_zero (response_cost u)), (default [] (mjoin (dget f t))).
    intros e c d. cbn. rewrite dget_dset. destruct (String.eqb_spec e id) as [->|]; cbn; ring.
  - rewrite bool_decide_false by congruence. cbn [andb].
    destruct (entity_type_to_dict_key ty') as [f'|] eqn:E; [|ring].
    rewrite dget_dset_ne; [ring|]. intros ->. eauto using entity_type_to_dict_key_inj.
Qed.

Lemma spend_of_fold ty id updates t :
  is_Some (entity_type_to_dict_key ty) →
  (spend_of ty id (foldl add_transaction t updates) == spend_of ty id t + owed ty id updates)%Q.
Proof.
  intros Hf. revert t. induction updates as [|u l IH]; intros t; cbn [foldl owed]; [ring|].
  rewrite IH, spend_of_add by done. ring.
Qed.

Lemma spend_of_empty ty id : spend_of ty id empty_transactions = 0%Q.
Proof. by destruct ty. Qed.

(** The transactions add to every entity what the updates charge it. *)
Lemma spend_of_aggregated ty id updates :
  is_Some (entity_type_to_dict_key ty) →
  (spend_of ty id (get_aggregated_db_spend_update_transactions updates) == owed ty id updates)%Q.
Proof.
  intros Hf. unfold get_aggregated_db_spend_update_transactions.
  rewrite spend_of_fold, spend_of_empty by done. ring.
Qed.

(** *** Compaction *)

(** The updates the writer produces name an entity. *)
Definition named (u : SpendUpdateQueueItem) : Prop := is_Some (entity_id u).

Definition no_colon : string → bool := str_all (λ a, negb (Ascii.eqb a ":"%char)).

Lemma type_no_colon (o : option Litellm_EntityType) : no_colon (default "None" (entity_type_str <$> o)) = true.
Proof. by destruct o as [[]|]. Qed.

Lemma type_str_inj (o o' : option Litellm_EntityType) :
  default "None" (entity_type_str <$> o) = default "None" (entity_type_str <$> o') → o = o'.
Proof. destruct o as [[]|], o' as [[]|]; done. Qed.

(** Two named updates share a key only when they charge the same entity. *)
Lemma item_key_inj u v : named u → named v → item_key u = item_key v → entity_type u = entity_type v ∧ entity_id u = entity_id v.
Proof.
  intros [i Hi] [j Hj]. unfold item_key. rewrite Hi, Hj. change (default "None" (Some ?x)) with x. intros E.
  pose proof (split_once_app ":"%char _ i (type_no_colon (entity_type u))) as Hu.
  pose proof (split_once_app ":"%char _ j (type_no_colon (entity_type v))) as Hv.
  change (?a +:+ String ":"%char ?b) with (a +:+ ":" +:+ b) in Hu, Hv.
  rewrite E, Hv in Hu. injection Hu as Et ->. split; [by apply type_str_inj|done].
Qed.

Lemma charges_same ty id u v :
  entity_type u = entity_type v → entity_id u = entity_id v → charges ty id u = charges ty id v.
Proof. unfold charges. by intros -> ->. Qed.

(** The map holds every update under its key. *)
Definition keyed (m : list (string * SpendUpdateQueueItem)) : Prop :=
  dict_wf m ∧ Forall (λ kv, item_key kv.2 = kv.1 ∧ named kv.2) m.

Lemma keyed_nil : keyed [].
Proof. split; [apply NoDup_nil_2|constructor]. Qed.

Lemma keyed_get m k u : keyed m → dget k m = Some u → item_key u = k ∧ named u.
Proof. intros [_ Hm] Hk. apply dget_Some_in in Hk. rewrite Forall_forall in Hm. exact (Hm _ Hk). Qed.

Lemma Forall_dset {V} (P : string * V → Prop) k v (m : list (string * V)) :
  (∀ x, P x → String.eqb k x.1 = true → P (x.1, v)) → P (k, v) → Forall P m → Forall P (dset k v m).
Proof.
  intros Hr Hk. induction m as [|[k' v'] m IH]; intros Hm; cbn [dset]; [by constructor|].
  apply Forall_cons in Hm as [Hx Hm]. destruct (String.eqb k k') eqn:E; constructor; auto.
  exact (Hr (k', v') Hx E).
Qed.

Lemma keyed_merge m u : keyed m → named u → keyed (merge_item m u).
Proof.
  intros Hm Hu. unfold merge_item. destruct (dget (item_key u) m) as [v|] eqn:E.
  - destruct (keyed_get _ _ _ Hm E) as [Hk Hv]. destruct Hm as [Hwf Hall]. split; [by apply dset_wf|].
    apply Forall_dset; [|done..]. intros [k x] _ Ek%String.eqb_eq. split; [|done]. by transitivity (item_key u).
  - destruct Hm as [Hwf Hall]. split; [by apply dset_wf|]. apply Forall_dset; [|done..].
    intros [k x] _ Ek%String.eqb_eq. split; [|done]. by transitivity (item_key u).
Qed.

Lemma owed_dset ty id k v v' m :
  dget k m = Some v →
  (owed ty id (snd <$> dset k v' m) + charge ty id v == owed ty id (snd <$> m) + charge ty id v')%Q.
Proof.
  induction m as [|[k' x] m IH]; cbn [dget dset]; [done|]. destruct (String.eqb k k').
  - intros [= ->]. cbn. ring.
  - intros Hk. rewrite !fmap_cons. cbn [owed snd]. specialize (IH Hk). rewrite <- Qplus_assoc, IH. ring.
Qed.

Lemma snd_dset_new {V} k (v : V) m : dget k m = None → snd <$> dset k v m = (snd <$> m) ++ [v].
Proof.
  induction m as [|[k' x] m IH]; cbn [dget dset]; [done|]. destruct (String.eqb k k'); [done|].
  intros Hk. by rewrite !fmap_cons, IH.
Qed.

Lemma owed_merge ty id m u :
  keyed m → named u →
  (owed ty id (snd <$> merge_item m u) == owed ty id (snd <$> m) + charge ty id u)%Q.
Proof.
  intros Hm Hu. unfold merge_item. destruct (dget (item_key u) m) as [v|] eqn:E.
  - destruct (keyed_get _ _ _ Hm E) as [Hk Hv]. destruct (item_key_inj v u Hv Hu Hk) as [Ht Hi].
    pose proof (owed_dset ty id _ v (set_cost (or_zero (response_cost v) + or_zero (response_cost u))%Q v) m E) as Ho.
    unfold charge in Ho |- *.
    change (charges ty id (set_cost ?c v)) with (charges ty id v) in Ho. rewrite (charges_same ty id v u Ht Hi) in Ho.
    destruct (charges ty id u); cbn [set_cost response_cost or_zero default] in Ho; cbn in Ho; lra.
  - rewrite snd_dset_new, owed_app by done. cbn [owed]. ring.
Qed.

Lemma merge_fold ty id updates m :
  keyed m → Forall named updates →
  keyed (foldl merge_item m updates) ∧
  (owed ty id (snd <$> foldl merge_item m updates) == owed ty id (snd <$> m) + owed ty id updates)%Q.
Proof.
  revert m. induction updates as [|u l IH]; intros m Hm Hn; cbn [foldl owed]; [split; [done|ring]|].
  apply Forall_cons in Hn as [Hu Hn]. destruct (IH (merge_item m u)) as [Hk Ho]; [by apply keyed_merge|done|].
  split; [done|]. rewrite Ho, owed_merge by done. ring.
Qed.

(** The compacted updates charge every entity the same. *)
Lemma owed_compacted ty id updates :
  Forall named updates →
  (owed ty id (_get_aggregated_spend_update_queue_item updates) == owed ty id updates)%Q.
Proof.
  intros Hn. unfold _get_aggregated_spend_update_queue_item.
  destruct (merge_fold ty id updates [] keyed_nil Hn) as [_ ->]. cbn. ring.
Qed.

Lemma compacted_named updates : Forall named updates → Forall named (_get_aggregated_spend_update_queue_item updates).
Proof.
  intros Hn. unfold _get_aggregated_spend_update_queue_item.
  destruct (merge_fold KEY "" updates [] keyed_nil Hn) as [[_ Hall] _].
  rewrite Forall_fmap. eapply Forall_impl; [exact Hall|]. by intros x [_ Hx].
Qed.

Lemma length_merge m u : (length (merge_item m u) ≤ S (length m))%nat.
Proof.
  unfold merge_item. destruct (dget (item_key u) m) eqn:E; rewrite length_dset; unfold dmem; rewrite E; lia.
Qed.

Lemma compacted_length updates : (length (_get_aggregated_spend_update_queue_item updates) ≤ length updates)%nat.
Proof.
  unfold _get_aggregated_spend_update_queue_item. rewrite length_fmap.
  enough (∀ m, length (foldl merge_item m updates) ≤ length m + length updates)%nat as H by (apply (H [])).
  induction updates as [|u l IH]; intros m; cbn [foldl length]; [lia|].
  etrans; [apply IH|]. pose proof (length_merge m u). lia.
Qed.

Lemma merge_keys ks m u :
  dkeys m ⊆ ks → item_key u ∈ ks → dkeys (merge_item m u) ⊆ ks.
Proof.
  intros Hm Hu. unfold merge_item.
  destruct (dget (item_key u) m); rewrite dkeys_dset; destruct (dmem _ _); set_solver.
Qed.

(** A compacted queue has one update per entity. *)
Lemma compacted_distinct updates :
  Forall named updates → NoDup (item_key <$> _get_aggregated_spend_update_queue_item updates) ∧
  item_key <$> _get_aggregated_spend_update_queue_item updates ⊆ item_key <$> updates.
Proof.
  intros Hn. unfold _get_aggregated_spend_update_queue_item.
  destruct (merge_fold KEY "" updates [] keyed_nil Hn) as [[Hwf Hall] _].
  assert (Heq : item_key <$> (snd <$> foldl merge_item [] updates) = dkeys (foldl merge_item [] updates)).
  { unfold dkeys. rewrite <- list_fmap_compose. apply list_fmap_ext. intros i x Hx.
    by destruct (proj1 (Forall_lookup _ _) Hall i x Hx). }
  rewrite Heq. split; [done|]. clear.
  enough (∀ m ks, dkeys m ⊆ ks → item_key <$> updates ⊆ ks → dkeys (foldl merge_item m updates) ⊆ ks) as H.
  { apply H; [|done]. intros x Hx. by apply elem_of_nil in Hx. }
  induction updates as [|u l IH]; intros m ks Hm Hu; cbn [foldl]; [done|].
  rewrite fmap_cons in Hu. apply IH; [|set_solver]. apply merge_keys; set_solver.
Qed.

(** *** The methods *)

Section methods.
Context (cfg : config).
Implicit Types (q : list SpendUpdateQueueItem).

Definition bounded (q : list SpendUpdateQueueItem) : Prop :=
  LITELLM_ASYNCIO_QUEUE_MAXSIZE cfg <= 0 ∨ qsize q <= LITELLM_ASYNCIO_QUEUE_MAXSIZE cfg.

Lemma put_ok u q : full cfg q = false → BaseUpdateQueue.put cfg u q = Done (Ok ()) (q ++ [u]).
Proof. unfold BaseUpdateQueue.put. by intros ->. Qed.

Lemma put_all l q : bounded (q ++ l) → w_iter (BaseUpdateQueue.put cfg) l q = Done (Ok ()) (q ++ l).
Proof.
  revert q. induction l as [|u l IH]; intros q Hb; cbn [w_iter]; [by rewrite app_nil_r|].
  rewrite (w_bind_done _ _ _ _ _ (put_ok u q ltac:(apply BaseUpdateQueue.full_false; unfold bounded in Hb;
    rewrite BaseUpdateQueue.qsize_app in Hb; unfold qsize in *; cbn [length] in Hb; lia))).
  rewrite IH; [by rewrite <- app_assoc|]. by rewrite <- app_assoc.
Qed.

(** Compaction returns without waiting, keeps every debt and does not lengthen the queue. *)
Lemma aggregate_spec q :
  bounded q → Forall named q →
  ∃ q', aggregate_queue_updates cfg q = Done (Ok ()) q' ∧ Forall named q' ∧ qsize q' <= qsize q ∧
    ∀ ty id, (owed ty id q' == owed ty id q)%Q.
Proof.
  intros Hb Hn. unfold aggregate_queue_updates. destruct (BaseUpdateQueue.flush_split cfg q) as (n & Hf & _).
  rewrite (w_bind_done _ _ _ _ _ Hf).
  set (l := _get_aggregated_spend_update_queue_item (take n q)).
  assert (Hlen : qsize (drop n q ++ l) <= qsize q).
  { rewrite BaseUpdateQueue.qsize_app. unfold qsize. pose proof (compacted_length (take n q)) as Hc. fold l in Hc.
    rewrite length_take in Hc. rewrite length_drop. lia. }
  exists (drop n q ++ l). rewrite put_all by (unfold bounded in *; lia). split_and!; [done| |done|].
  - apply Forall_app. split; [by apply Forall_drop|]. apply compacted_named. by apply Forall_take.
  - intros ty id. rewrite owed_app. unfold l. rewrite owed_compacted by by apply Forall_take.
    rewrite <- (owed_split ty id n q). ring.
Qed.

(** An update is queued, or its producer waits at a full queue and nothing changes. *)
Lemma add_update_spec u q :
  bounded q → Forall named q → named u →
  (full cfg q = true ∧ add_update cfg u q = Waits q) ∨
  ∃ q', add_update cfg u q = Done (Ok ()) q' ∧ bounded q' ∧ Forall named q' ∧
    ∀ ty id, (owed ty id q' == owed ty id q + charge ty id u)%Q.
Proof.
  intros Hb Hn Hu. unfold add_update. destruct (full cfg q) eqn:Ef.
  { left. split; [done|]. unfold mbind, W_bind, BaseUpdateQueue.put. by rewrite Ef. }
  right. rewrite (w_bind_done _ _ _ _ _ (put_ok u q Ef)). rewrite (w_bind_done w_get _ (q ++ [u]) _ _ eq_refl).
  assert (Hb' : bounded (q ++ [u])).
  { apply BaseUpdateQueue.full_false in Ef. unfold bounded. rewrite BaseUpdateQueue.qsize_app. unfold qsize in *. cbn [length]. lia. }
  assert (Hn' : Forall named (q ++ [u])) by (apply Forall_app; split; [done|by constructor]).
  assert (Ho : ∀ ty id, (owed ty id (q ++ [u]) == owed ty id q + charge ty id u)%Q)
    by (intros; rewrite owed_app; cbn [owed]; ring).
  destruct (MAX_SIZE_IN_MEMORY_QUEUE cfg <=? qsize (q ++ [u])).
  - destruct (aggregate_spec _ Hb' Hn') as (q' & -> & Hnq & Hle & Hoq). exists q'. split_and!; [done| |done|].
    + unfold bounded in *. lia.
    + intros ty id. rewrite Hoq. apply Ho.
  - eauto.
Qed.

(** A flush hands over the oldest updates. *)
Lemma flush_spec q :
  ∃ t q', flush_and_get_aggregated_db_spend_update_transactions cfg q = Done (Ok t) q' ∧
    qsize q' <= qsize q ∧ (Forall named q → Forall named q') ∧
    ∀ ty id, is_Some (entity_type_to_dict_key ty) → (spend_of ty id t + owed ty id q' == owed ty id q)%Q.
Proof.
  unfold flush_and_get_aggregated_db_spend_update_transactions.
  destruct (BaseUpdateQueue.flush_split cfg q) as (n & Hf & _). rewrite (w_bind_done _ _ _ _ _ Hf).
  eexists _, _. split; [done|]. split_and!.
  - unfold qsize. rewrite length_drop. lia.
  - apply Forall_drop.
  - intros ty id Hty. rewrite spend_of_aggregated by done. apply owed_split.
Qed.

(** *** Runs of the queue *)

(** Producers and the committing job take turns: the queue, the transactions handed over
    and the updates accepted so far. *)
Record run := mkRun {
  pending : list SpendUpdateQueueItem;
  handed : list DBSpendUpdateTransactions;
  accepted : list SpendUpdateQueueItem
}.

Inductive step : run → run → Prop :=
| step_add u q q' out acc :
    named u → add_update cfg u q = Done (Ok ()) q' →
    step (mkRun q out acc) (mkRun q' out (acc ++ [u]))
| step_wait u q q' out acc :
    named u → add_update cfg u q = Waits q' →
    step (mkRun q out acc) (mkRun q' out acc)
| step_flush q q' t out acc :
    flush_and_get_aggregated_db_spend_update_transactions cfg q = Done (Ok t) q' →
    step (mkRun q out acc) (mkRun q' (out ++ [t]) acc).

Definition start : run := mkRun [] [] [].

Fixpoint handed_spend (ty : Litellm_EntityType) (id : string) (l : list DBSpendUpdateTransactions) : Q :=
  match l with [] => 0%Q | t :: l' => (spend_of ty id t + handed_spend ty id l')%Q end.

Lemma handed_app ty id l l' :
  (handed_spend ty id (l ++ l') == handed_spend ty id l + handed_spend ty id l')%Q.
Proof. induction l as [|t l IH]; cbn [handed_spend app]; [ring|]. rewrite IH. ring. Qed.

Record sound (s : run) : Prop := {
  sound_bounded : bounded (pending s);
  sound_named : Forall named (pending s);
  sound_spend ty id : is_Some (entity_type_to_dict_key ty) →
    (handed_spend ty id (handed s) + owed ty id (pending s) == owed ty id (accepted s))%Q
}.

Lemma step_sound s s' : step s s' → sound s → sound s'.
Proof.
  intros Hs [Hb Hn Ho]. destruct Hs as [u q q' out acc Hu E|u q q' out acc Hu E|q q' t out acc E]; cbn [pending handed accepted] in *.
  - destruct (add_update_spec u q Hb Hn Hu) as [[_ E']|(q1 & E' & Hb' & Hn' & Hq)]; [by rewrite E' in E|].
    assert (q1 = q') as -> by congruence. split; cbn; [done..|]. intros ty id Hty.
    rewrite owed_app, Hq, <- (Ho ty id Hty). cbn [owed]. ring.
  - destruct (add_update_spec u q Hb Hn Hu) as [[_ E']|(q1 & E' & _)]; [|by rewrite E' in E].
    by assert (q' = q) as -> by congruence.
  - destruct (flush_spec q) as (t' & q1 & E' & Hle & Hn' & Hq).
    assert (t' = t ∧ q1 = q') as [-> ->] by (split; congruence).
    split; cbn; [unfold bounded in *; lia|auto|]. intros ty id Hty.
    rewrite handed_app. cbn [handed_spend]. rewrite <- (Ho ty id Hty), <- (Hq ty id Hty). ring.
Qed.

Lemma start_sound : sound start.
Proof.
  split; cbn; [|constructor|intros; ring].
  unfold bounded, qsize. cbn. lia.
Qed.


Lemma run_sound s s' : rtc step s s' → sound s → sound s'.
Proof. induction 1; eauto using step_sound. Qed.

(** At every point of every run, what has been handed over for an entity and what is
    still queued for it make up what it has been charged; the queue keeps its bound. *)
Theorem spend_conserved s ty id :
  rtc step start s → is_Some (entity_type_to_dict_key ty) →
  bounded (pending s) ∧
  (handed_spend ty id (handed s) + owed ty id (pending s) == owed ty id (accepted s))%Q.
Proof.
  intros Hr Hty. destruct (run_sound _ _ Hr start_sound) as [Hb _ Ho]. split; [done|]. by apply Ho.
Qed.

(** A queue of fewer entities than the threshold never grows to it. *)
Lemma add_update_room (ks : list string) u q :
  0 < MAX_SIZE_IN_MEMORY_QUEUE cfg <= LITELLM_ASYNCIO_QUEUE_MAXSIZE cfg →
  MAX_SIZE_IN_MEMORY_QUEUE cfg <= MAX_IN_MEMORY_QUEUE_FLUSH_COUNT cfg →
  Z.of_nat (length ks) < MAX_SIZE_IN_MEMORY_QUEUE cfg →
  qsize q < MAX_SIZE_IN_MEMORY_QUEUE cfg → Forall named (q ++ [u]) → item_key <$> (q ++ [u]) ⊆ ks →
  ∃ q', add_update cfg u q = Done (Ok ()) q' ∧ qsize q' < MAX_SIZE_IN_MEMORY_QUEUE cfg ∧ item_key <$> q' ⊆ ks.
Proof.
  intros Hc Hf Hks Hq Hn Hk. unfold add_update.
  assert (Hsz : qsize (q ++ [u]) = qsize q + 1) by (rewrite BaseUpdateQueue.qsize_app; done).
  rewrite (w_bind_done _ _ _ _ _ (put_ok u q ltac:(apply BaseUpdateQueue.full_false; lia))).
  rewrite (w_bind_done w_get _ (q ++ [u]) _ _ eq_refl).
  destruct (MAX_SIZE_IN_MEMORY_QUEUE cfg <=? qsize (q ++ [u])) eqn:E; [|exists (q ++ [u]); split_and!; [done|lia|done]].
  unfold aggregate_queue_updates.
  rewrite (w_bind_done _ _ _ _ _ (BaseUpdateQueue.flush_all cfg (q ++ [u]) ltac:(lia))).
  destruct (compacted_distinct (q ++ [u]) Hn) as [Hd Hsub].
  set (l := _get_aggregated_spend_update_queue_item (q ++ [u])) in *.
  assert (Hl : qsize l < MAX_SIZE_IN_MEMORY_QUEUE cfg).
  { unfold qsize. rewrite <- (length_fmap item_key l).
    assert (length (item_key <$> l) ≤ length ks)%nat; [|lia].
    apply submseteq_length, NoDup_submseteq; [done|]. set_solver. }
  exists l. rewrite put_all by (unfold bounded; cbn [app]; lia). split_and!; [done..|]. set_solver.
Qed.

Definition roomy (ks : list string) (s : run) : Prop :=
  item_key <$> accepted s ⊆ ks →
  qsize (pending s) < MAX_SIZE_IN_MEMORY_QUEUE cfg ∧ item_key <$> pending s ⊆ ks.

Lemma step_roomy ks s s' :
  0 < MAX_SIZE_IN_MEMORY_QUEUE cfg <= LITELLM_ASYNCIO_QUEUE_MAXSIZE cfg →
  MAX_SIZE_IN_MEMORY_QUEUE cfg <= MAX_IN_MEMORY_QUEUE_FLUSH_COUNT cfg →
  Z.of_nat (length ks) < MAX_SIZE_IN_MEMORY_QUEUE cfg →
  step s s' → sound s → roomy ks s → roomy ks s'.
Proof.
  intros Hc Hf Hks Hs [Hb Hn _] Hr. unfold roomy in *.
  destruct Hs as [u q q' out acc Hu E|u q q' out acc Hu E|q q' t out acc E]; cbn [pending handed accepted] in *; intros Hk.
  - rewrite fmap_app in Hk. destruct Hr as [Hq Hkq]; [set_solver|].
    destruct (add_update_room ks u q Hc Hf Hks Hq) as (q1 & E1 & Hq1 & Hk1).
    { apply Forall_app; split; [done|by constructor]. }
    { rewrite fmap_app. set_solver. }
    by assert (q1 = q') as -> by congruence.
  - destruct (add_update_spec u q Hb Hn Hu) as [[_ E']|(q1 & E' & _)]; [|by rewrite E' in E].
    assert (q' = q) as -> by congruence. auto.
  - destruct (Hr Hk) as [Hq Hkq]. unfold flush_and_get_aggregated_db_spend_update_transactions in E.
    destruct (BaseUpdateQueue.flush_split cfg q) as (n & Hf' & _). rewrite (w_bind_done _ _ _ _ _ Hf') in E.
    assert (q' = drop n q) as -> by (by injection E). split.
    + unfold qsize in *. rewrite length_drop. lia.
    + rewrite fmap_drop. intros x Hx. apply Hkq. eapply elem_of_submseteq; [exact Hx|].
      apply sublist_submseteq, sublist_drop.
Qed.

Lemma run_roomy ks s s' :
  0 < MAX_SIZE_IN_MEMORY_QUEUE cfg <= LITELLM_ASYNCIO_QUEUE_MAXSIZE cfg →
  MAX_SIZE_IN_MEMORY_QUEUE cfg <= MAX_IN_MEMORY_QUEUE_FLUSH_COUNT cfg →
  Z.of_nat (length ks) < MAX_SIZE_IN_MEMORY_QUEUE cfg →
  rtc step s s' → sound s → roomy ks s → roomy ks s'.
Proof. intros Hc Hf Hks. induction 1; eauto using step_sound, step_roomy. Qed.

(** C15: With thresholds set as the constants ask, the compaction threshold positive, below
    the bound of the queue and not above the number of updates one flush takes: while
    fewer entities than that threshold are charged, no producer ever waits.  In every
    state reached by charges and flushes from an empty queue the next update of one of
    them is accepted, and leaves the queue below the threshold. *)
Theorem producers_never_wait ks s u :
  0 < MAX_SIZE_IN_MEMORY_QUEUE cfg < LITELLM_ASYNCIO_QUEUE_MAXSIZE cfg →
  MAX_SIZE_IN_MEMORY_QUEUE cfg <= MAX_IN_MEMORY_QUEUE_FLUSH_COUNT cfg →
  Z.of_nat (length ks) < MAX_SIZE_IN_MEMORY_QUEUE cfg →
  rtc step start s → item_key <$> accepted s ⊆ ks → named u → item_key u ∈ ks →
  ∃ q', add_update cfg u (pending s) = Done (Ok ()) q' ∧ qsize q' < MAX_SIZE_IN_MEMORY_QUEUE cfg.
Proof.
  intros Hc' Hf Hks Hr Ha Hu Hk. assert (Hc : 0 < MAX_SIZE_IN_MEMORY_QUEUE cfg <= LITELLM_ASYNCIO_QUEUE_MAXSIZE cfg) by lia.
  pose proof (run_sound _ _ Hr start_sound) as [_ Hn _].
  destruct (run_roomy ks _ _ Hc Hf Hks Hr start_sound) as [Hq Hkq]; [|done|].
  { intros _. cbn. split; [unfold qsize; cbn; lia|]. intros x Hx. by apply elem_of_nil in Hx. }
  destruct (add_update_room ks u (pending s) Hc Hf Hks Hq) as (q' & E & Hq' & _); [| |eauto].
  - apply Forall_app; split; [done|by constructor].
  - rewrite fmap_app. set_solver.
Qed.
End methods.

(** One key charged twice; the second charge is compacted with the first. *)
Lemma producers_never_wait_witness :
  let u := mkItem (Some KEY) (Some "k") (Some 1%Q) in
  ∃ q', add_update (mkConfig 3 2 10) u [u] = Done (Ok ()) q' ∧ qsize q' < 2.
Proof.
  set (u := mkItem (Some KEY) (Some "k") (Some 1%Q)).
  apply (producers_never_wait (mkConfig 3 2 10) [item_key u] (mkRun [u] [] [u]) u);
    [cbn; lia|cbn; lia|cbn; lia| |done|by eexists|by left].
  apply rtc_once. apply (step_add (mkConfig 3 2 10) u [] [u] [] []); [by eexists|reflexivity].
Defined.

(** The compaction fires also when its threshold equals the bound of the queue. *)
Theorem equal_thresholds_compact :
  let u := mkItem (Some KEY) (Some "k") (Some 1%Q) in
  add_update (mkConfig 2 2 10) u [u] = Done (Ok ()) [set_cost 2 u].
Proof. reflexivity. Qed.
End SpendUpdateQueue.

(** ** Daily spend *)

Module DailySpendUpdateQueue.
#[local] Abbreviation dict := (list (string * pyval)).

(** A transaction is a dict of metrics; an update holds transactions by key. *)
Abbreviation updates_dict := (list (string * list (string * pyval))).

Definition index (d : dict) (f : string) : res pyval :=
  match dget f d with Some v => Ok v | None => Raise KeyError end.

(** [d[f] += p[f]]. *)
Definition add_metric (p : dict) (d : res dict) (f : string) : res dict :=
  d ← d; v ← index d f; w ← index p f; x ← py_add v w; Ok (dset f x d).

(** [d[f] = (p.get(f, 0) or 0) + d.get(f, 0)]. *)
Definition add_optional_metric (p : dict) (d : res dict) (f : string) : res dict :=
  d ← d;
  x ← py_add (py_or (default (PInt 0) (dget f p)) (PInt 0)) (default (PInt 0) (dget f d));
  Ok (dset f x d).

Definition metrics : list string :=
  ["spend"; "prompt_tokens"; "completion_tokens"; "api_requests"; "successful_requests"; "failed_requests"].
Definition optional_metrics : list string := ["cache_read_input_tokens"; "cache_creation_input_tokens"].

Definition add_payload (daily_transaction payload : dict) : res dict :=
  foldl (add_optional_metric payload) (foldl (add_metric payload) (Ok daily_transaction) metrics) optional_metrics.

Definition aggregate_entry (agg : res updates_dict) (kp : string * dict) : res updates_dict :=
  agg ← agg;
  match dget kp.1 agg with
  | Some daily_transaction => d ← add_payload daily_transaction kp.2; Ok (dset kp.1 d agg)
  | None => Ok (dset kp.1 kp.2 agg)
  end.

Definition get_aggregated_daily_spend_update_transactions (updates : list updates_dict) : res updates_dict :=
  foldl (λ agg _update, foldl aggregate_entry agg _update) (Ok []) updates.

Section ops.
Context (cfg : config).
#[local] Abbreviation queue := (list updates_dict).

Definition aggregate_queue_updates : W queue unit :=
  updates ← BaseUpdateQueue.flush_all_updates_from_in_memory_queue cfg;
  aggregated_updates ← w_lift (get_aggregated_daily_spend_update_transactions updates);
  BaseUpdateQueue.put cfg aggregated_updates.

Definition add_update (update : updates_dict) : W queue unit :=
  BaseUpdateQueue.put cfg update ;;
  q ← w_get;
  if MAX_SIZE_IN_MEMORY_QUEUE cfg <=? qsize q then aggregate_queue_updates else mret ().

Definition flush_and_get_aggregated_daily_spend_update_transactions : W queue updates_dict :=
  updates ← BaseUpdateQueue.flush_all_updates_from_in_memory_queue cfg;
  w_lift (get_aggregated_daily_spend_update_transactions updates).
End ops.

(** *** The totals of a key *)

Definition all_metrics : list string := metrics ++ optional_metrics.

(** The transactions the writer builds: every metric is a number, the optional ones may
    be missing. *)
Definition metered (d : dict) : Prop :=
  (∀ f, f ∈ metrics → ∃ v, dget f d = Some v ∧ is_number v) ∧
  (∀ f v, f ∈ optional_metrics → dget f d = Some v → is_number v).

Definition metric (f : string) (d : dict) : Q := default 0%Q (num <$> dget f d).

(** What the entries with a key add up to. *)
Fixpoint key_total (f k : string) (l : updates_dict) : Q :=
  match l with
  | [] => 0%Q
  | (k', d) :: l' => ((if String.eqb k k' then metric f d else 0) + key_total f k l')%Q
  end.

Definition held (f k : string) (agg : updates_dict) : Q := default 0%Q (metric f <$> dget k agg).

Lemma metric_dset f g v d : metric f (dset g v d) = if String.eqb g f then num v else metric f d.
Proof. unfold metric. rewrite dget_dset. by destruct (String.eqb g f). Qed.

Lemma add_metrics p fs d :
  NoDup fs → (∀ f, f ∈ fs → ∃ v, dget f d = Some v ∧ is_number v) → (∀ f, f ∈ fs → ∃ v, dget f p = Some v ∧ is_number v) →
  ∃ d', foldl (add_metric p) (Ok d) fs = Ok d' ∧
    (∀ f, f ∈ fs → (∃ v, dget f d' = Some v ∧ is_number v) ∧ (metric f d' == metric f d + metric f p)%Q) ∧
    ∀ f, f ∉ fs → dget f d' = dget f d.
Proof.
  intros Hnd. revert d. induction Hnd as [|g fs Hg Hnd IH]; intros d Hd Hp; cbn [foldl].
  { exists d. split_and!; [done| |done]. intros f Hf. by apply elem_of_nil in Hf. }
  destruct (Hd g ltac:(by left)) as (v & Ev & Hv). destruct (Hp g ltac:(by left)) as (w & Ew & Hw).
  destruct (py_add_num v w Hv Hw) as (x & Ex & Hx & Nx).
  assert (Es : add_metric p (Ok d) g = Ok (dset g x d)).
  { unfold add_metric, mbind, res_bind, index. by rewrite Ev, Ew, Ex. }
  rewrite Es. destruct (IH (dset g x d)) as (d' & E' & Hin & Hout).
  { intros f Hf. rewrite dget_dset_ne by (intros ->; done). apply Hd. by right. }
  { intros f Hf. apply Hp. by right. }
  exists d'. split; [done|]. split.
  - intros f [->|Hf]%elem_of_cons.
    + rewrite Hout, dget_dset_eq by done. split; [eauto|]. unfold metric. rewrite Hout, dget_dset_eq, Ev, Ew by done. exact Nx.
    + destruct (Hin f Hf) as [H1 H2]. split; [done|]. rewrite H2, metric_dset.
      by destruct (String.eqb_spec g f) as [->|].
  - intros f Hf. rewrite not_elem_of_cons in Hf. destruct Hf as [Hne Hf]. rewrite Hout, dget_dset_ne; done.
Qed.

Lemma num_or_zero v : is_number v → is_number (py_or v (PInt 0)) ∧ (num (py_or v (PInt 0)) == num v)%Q.
Proof.
  intros Hv. unfold py_or. destruct (truthy v) eqn:E; [done|]. split; [by eexists|].
  destruct Hv as [q Hq]. unfold num. rewrite Hq.
  destruct v as [|b|z|q'| | | | | |]; cbn in *; simplify_eq/=; try done.
  - apply negb_false_iff, Z.eqb_eq in E. by subst.
  - apply negb_false_iff, Qeq_bool_eq in E. by symmetry.
Qed.

Lemma add_optional_metrics p fs d :
  NoDup fs → (∀ f v, f ∈ fs → dget f d = Some v → is_number v) → (∀ f v, f ∈ fs → dget f p = Some v → is_number v) →
  ∃ d', foldl (add_optional_metric p) (Ok d) fs = Ok d' ∧
    (∀ f, f ∈ fs → (∀ v, dget f d' = Some v → is_number v) ∧ (metric f d' == metric f d + metric f p)%Q) ∧
    ∀ f, f ∉ fs → dget f d' = dget f d.
Proof.
  intros Hnd. revert d. induction Hnd as [|g fs Hg Hnd IH]; intros d Hd Hp; cbn [foldl].
  { exists d. split_and!; [done| |done]. intros f Hf. by apply elem_of_nil in Hf. }
  assert (Hdef : ∀ e : dict, (∀ v, dget g e = Some v → is_number v) →
    is_number (default (PInt 0) (dget g e)) ∧ num (default (PInt 0) (dget g e)) = metric g e).
  { intros e He. unfold metric. destruct (dget g e) as [v|]; [by split; [apply He|]|by split; [eexists|]]. }
  destruct (Hdef d ltac:(intros; apply (Hd g); [by left|done])) as [Hv Nv].
  destruct (Hdef p ltac:(intros; apply (Hp g); [by left|done])) as [Hw Nw].
  destruct (num_or_zero _ Hw) as [Hw' Nw'].
  destruct (py_add_num _ _ Hw' Hv) as (x & Ex & Hx & Nx). rewrite Nw', Nv, Nw in Nx.
  assert (Es : add_optional_metric p (Ok d) g = Ok (dset g x d)).
  { unfold add_optional_metric, mbind, res_bind. by rewrite Ex. }
  rewrite Es. destruct (IH (dset g x d)) as (d' & E' & Hin & Hout).
  { intros f v Hf. rewrite dget_dset_ne by (intros ->; done). apply Hd. by right. }
  { intros f v Hf. apply Hp. by right. }
  exists d'. split; [done|]. split.
  - intros f [->|Hf]%elem_of_cons.
    + rewrite Hout, dget_dset_eq by done. split; [by intros v [= <-]|].
      unfold metric at 1. rewrite Hout, dget_dset_eq by done. cbn. rewrite Nx. ring.
    + destruct (Hin f Hf) as [H1 H2]. split; [done|]. rewrite H2, metric_dset.
      by destruct (String.eqb_spec g f) as [->|].
  - intros f Hf. rewrite not_elem_of_cons in Hf. destruct Hf as [Hne Hf]. rewrite Hout, dget_dset_ne; done.
Qed.

Lemma metrics_disjoint f : f ∈ metrics → f ∉ optional_metrics.
Proof. unfold metrics, optional_metrics. set_solver. Qed.

Lemma metrics_NoDup : NoDup metrics ∧ NoDup optional_metrics.
Proof. by split; apply (bool_decide_unpack _). Qed.

(** Adding a payload adds every metric. *)
Lemma add_payload_spec d p :
  metered d → metered p →
  ∃ d', add_payload d p = Ok d' ∧ metered d' ∧ (∀ f, f ∈ all_metrics → (metric f d' == metric f d + metric f p)%Q) ∧
    ∀ f, f ∉ all_metrics → dget f d' = dget f d.
Proof.
  intros [Hd Hdo] [Hp Hpo]. destruct metrics_NoDup as [Hn1 Hn2]. unfold add_payload.
  destruct (add_metrics p metrics d Hn1 Hd Hp) as (d1 & -> & Hin1 & Hout1).
  assert (Hsep : ∀ f, f ∈ optional_metrics → dget f d1 = dget f d).
  { intros f Hf. apply Hout1. intros Hm. by apply metrics_disjoint in Hm. }
  destruct (add_optional_metrics p optional_metrics d1 Hn2) as (d2 & -> & Hin2 & Hout2); [|done|].
  { intros f v Hf. rewrite Hsep by done. by apply Hdo. }
  exists d2. split; [done|]. split; [split|split].
  - intros f Hf. rewrite Hout2 by (by apply metrics_disjoint). by apply Hin1.
  - intros f v Hf. by apply Hin2.
  - intros f [Hf|Hf]%elem_of_app.
    + unfold metric at 1. rewrite Hout2 by (by apply metrics_disjoint). by apply Hin1.
    + destruct (Hin2 f Hf) as [_ ->]. unfold metric at 1. by rewrite (Hsep f Hf).
  - intros f Hf. unfold all_metrics in Hf. rewrite not_elem_of_app in Hf. destruct Hf. rewrite Hout2, Hout1; done.
Qed.

Definition entries_metered (l : updates_dict) : Prop := Forall (λ kd, metered kd.2) l.

Lemma aggregate_entries l agg :
  entries_metered l → dict_wf agg → (∀ k d, dget k agg = Some d → metered d) →
  ∃ agg', foldl aggregate_entry (Ok agg) l = Ok agg' ∧ dict_wf agg' ∧ (∀ k d, dget k agg' = Some d → metered d) ∧
    ∀ k f, f ∈ all_metrics → (held f k agg' == held f k agg + key_total f k l)%Q.
Proof.
  intros Hl. revert agg. induction Hl as [|[k p] l Hp Hl IH]; intros agg Hwf Ha; cbn [foldl].
  { exists agg. split_and!; [done..|]. intros; cbn; ring. }
  cbn [snd] in Hp.
  assert (∃ d, aggregate_entry (Ok agg) (k, p) = Ok (dset k d agg) ∧ metered d ∧
            ∀ f, f ∈ all_metrics → (metric f d == held f k agg + metric f p)%Q) as (d & -> & Hd & Hm).
  { unfold aggregate_entry, held. cbn [fst snd]. unfold mbind at 1, res_bind at 1. destruct (dget k agg) as [d0|] eqn:E.
    - destruct (add_payload_spec d0 p (Ha _ _ E) Hp) as (d & -> & Hd & Hm & _). exists d. done.
    - exists p. split_and!; [done..|]. intros f _. cbn. ring. }
  destruct (IH (dset k d agg)) as (agg' & -> & Hwf' & Ha' & Ht); [by apply dset_wf| |].
  { intros k' d'. rewrite dget_dset. destruct (String.eqb k k'); [by intros [= <-]|apply Ha]. }
  exists agg'. split_and!; [done..|]. intros k' f Hf. rewrite Ht by done. cbn [key_total].
  unfold held at 1. rewrite dget_dset, (String.eqb_sym k' k). destruct (String.eqb_spec k k') as [->|].
  - cbn. rewrite Hm by done. ring.
  - fold (held f k' agg). ring.
Qed.

Lemma aggregate_concat updates agg :
  foldl (λ agg _update, foldl aggregate_entry agg _update) agg updates = foldl aggregate_entry agg (mjoin updates).
Proof. revert agg. induction updates as [|u l IH]; intros agg; cbn [foldl mjoin list_join]; [done|]. rewrite IH. symmetry. apply foldl_app. Qed.

(** The aggregation of metered updates succeeds and adds up every metric of every key. *)
Lemma daily_aggregate_spec updates :
  entries_metered (mjoin updates) →
  ∃ agg, get_aggregated_daily_spend_update_transactions updates = Ok agg ∧ dict_wf agg ∧ entries_metered agg ∧
    ∀ k f, f ∈ all_metrics → (held f k agg == key_total f k (mjoin updates))%Q.
Proof.
  intros Hu. unfold get_aggregated_daily_spend_update_transactions. rewrite aggregate_concat.
  destruct (aggregate_entries (mjoin updates) [] Hu) as (agg & -> & Hwf & Ha & Ht); [apply NoDup_nil_2|done|].
  exists agg. split_and!; [done..| |].
  - apply Forall_forall. intros [k d] Hin. by apply (Ha k), dget_in.
  - intros k f Hf. rewrite Ht by done. cbn. ring.
Qed.

Lemma key_total_app f k l l' : (key_total f k (l ++ l') == key_total f k l + key_total f k l')%Q.
Proof. induction l as [|[k' d] l IH]; cbn [key_total app]; [ring|]. rewrite IH. ring. Qed.

Lemma key_total_absent f k l : k ∉ dkeys l → (key_total f k l == 0)%Q.
Proof.
  induction l as [|[k' d] l IH]; cbn [key_total]; [done|]. unfold dkeys in *. rewrite fmap_cons, not_elem_of_cons. intros [Hne Hl].
  cbn [fst] in Hne. apply String.eqb_neq in Hne. rewrite Hne, IH by done. ring.
Qed.

(** In a dict a key has one entry. *)
Lemma key_total_held f k agg : dict_wf agg → (key_total f k agg == held f k agg)%Q.
Proof.
  unfold held. induction agg as [|[k' d] l IH]; intros Hwf; cbn [key_total dget]; [done|].
  unfold dict_wf, dkeys in Hwf. rewrite fmap_cons in Hwf. apply NoDup_cons in Hwf as [Hk Hwf].
  destruct (String.eqb_spec k k') as [->|].
  - rewrite key_total_absent by done. cbn. ring.
  - rewrite IH by done. ring.
Qed.

Section methods.
Context (cfg : config).
Implicit Types (q : list updates_dict).

Definition bounded (q : list updates_dict) : Prop :=
  LITELLM_ASYNCIO_QUEUE_MAXSIZE cfg <= 0 ∨ qsize q <= LITELLM_ASYNCIO_QUEUE_MAXSIZE cfg.

Definition queue_total (f k : string) (q : list updates_dict) : Q := key_total f k (mjoin q).
Definition queue_metered (q : list updates_dict) : Prop := entries_metered (mjoin q).

Lemma queue_metered_app q q' : queue_metered (q ++ q') ↔ queue_metered q ∧ queue_metered q'.
Proof. unfold queue_metered, entries_metered. by rewrite join_app, Forall_app. Qed.

Lemma queue_total_app f k q q' : (queue_total f k (q ++ q') == queue_total f k q + queue_total f k q')%Q.
Proof. unfold queue_total. rewrite join_app. apply key_total_app. Qed.

Lemma queue_one u : mjoin [u] = (u : updates_dict).
Proof. apply app_nil_r. Qed.

(** Compaction merges the oldest updates into one and keeps the totals of every key. *)
Lemma daily_compact_spec q :
  0 < MAX_IN_MEMORY_QUEUE_FLUSH_COUNT cfg → q ≠ [] → bounded q → queue_metered q →
  ∃ q', aggregate_queue_updates cfg q = Done (Ok ()) q' ∧ qsize q' <= qsize q ∧ queue_metered q' ∧
    (qsize q <= MAX_IN_MEMORY_QUEUE_FLUSH_COUNT cfg → qsize q' = 1) ∧
    ∀ k f, f ∈ all_metrics → (queue_total f k q' == queue_total f k q)%Q.
Proof.
  intros Hf Hne Hb Hm. unfold aggregate_queue_updates. destruct (BaseUpdateQueue.flush_split cfg q) as (n & En & Hn).
  rewrite (w_bind_done _ _ _ _ _ En). rewrite <- (take_drop n q) in Hm. apply queue_metered_app in Hm as [Hm1 Hm2].
  destruct (daily_aggregate_spec (take n q) Hm1) as (agg & Ea & Hwf & Hagg & Ht).
  rewrite (w_bind_done _ _ _ agg (drop n q)) by (unfold w_lift; by rewrite Ea).
  assert (0 < n)%nat by (destruct q; [done|cbn [length] in Hn; lia]).
  assert (0 < length q)%nat by (destruct q; [done|cbn; lia]).
  assert (Hsz : qsize (drop n q ++ [agg]) <= qsize q).
  { rewrite BaseUpdateQueue.qsize_app. unfold qsize. rewrite length_drop. cbn [length]. lia. }
  exists (drop n q ++ [agg]). split_and!; [| done | | |].
  - unfold BaseUpdateQueue.put. replace (full cfg (drop n q)) with false; [done|]. symmetry. apply BaseUpdateQueue.full_false.
    unfold bounded in Hb. unfold qsize in *. rewrite length_drop. lia.
  - apply queue_metered_app. split; [done|]. unfold queue_metered. by rewrite queue_one.
  - intros Hle. rewrite BaseUpdateQueue.qsize_app. unfold qsize in *. rewrite length_drop. cbn [length]. lia.
  - intros k f Hin. rewrite queue_total_app. unfold queue_total at 2. rewrite queue_one, key_total_held, Ht by done.
    fold (queue_total f k (take n q)). rewrite <- (take_drop n q) at 3. rewrite queue_total_app. ring.
Qed.

(** A usage record is queued, or its producer waits at a full queue: the totals of every
    key grow by the metrics of the record.  With a threshold below the flush count the
    queue stays under the threshold, so no producer waits. *)
Theorem daily_spend_conserved u q :
  0 < MAX_IN_MEMORY_QUEUE_FLUSH_COUNT cfg → bounded q → queue_metered q → entries_metered u →
  (full cfg q = true ∧ add_update cfg u q = Waits q) ∨
  ∃ q', add_update cfg u q = Done (Ok ()) q' ∧ bounded q' ∧ queue_metered q' ∧
    (∀ k f, f ∈ all_metrics → (queue_total f k q' == queue_total f k q + key_total f k u)%Q) ∧
    (1 < MAX_SIZE_IN_MEMORY_QUEUE cfg <= MAX_IN_MEMORY_QUEUE_FLUSH_COUNT cfg →
     qsize q < MAX_SIZE_IN_MEMORY_QUEUE cfg → qsize q' < MAX_SIZE_IN_MEMORY_QUEUE cfg).
Proof.
  intros Hf Hb Hm Hu. unfold add_update. destruct (full cfg q) eqn:Ef.
  { left. split; [done|]. unfold mbind, W_bind, BaseUpdateQueue.put. by rewrite Ef. }
  right. rewrite (w_bind_done _ _ _ () (q ++ [u])) by (unfold BaseUpdateQueue.put; by rewrite Ef).
  rewrite (w_bind_done w_get _ (q ++ [u]) _ _ eq_refl). apply BaseUpdateQueue.full_false in Ef.
  assert (Hsz : qsize (q ++ [u]) = qsize q + 1) by (rewrite BaseUpdateQueue.qsize_app; done).
  assert (Hb' : bounded (q ++ [u])) by (unfold bounded; lia).
  assert (Hm' : queue_metered (q ++ [u])).
  { apply queue_metered_app. split; [done|]. unfold queue_metered. by rewrite queue_one. }
  assert (Ht : ∀ k f, (queue_total f k (q ++ [u]) == queue_total f k q + key_total f k u)%Q).
  { intros k f. rewrite queue_total_app. unfold queue_total at 2. by rewrite queue_one. }
  destruct (MAX_SIZE_IN_MEMORY_QUEUE cfg <=? qsize (q ++ [u])) eqn:E.
  - assert (Hne : q ++ [u] ≠ []) by (destruct q; discriminate).
    destruct (daily_compact_spec _ Hf Hne Hb' Hm') as (q' & -> & Hle & Hmq & Hone & Htq).
    exists q'. split_and!; [done|unfold bounded in *; lia|done| |lia]. intros k f Hin. rewrite Htq by done. apply Ht.
  - exists (q ++ [u]). split_and!; [done..| |lia]. intros k f _. apply Ht.
Qed.

(** The record is metered when the writer built it; a metric that is not a number makes
    the compaction raise, and the updates it took are gone. *)
Theorem unmetered_compaction_loses u q :
  MAX_SIZE_IN_MEMORY_QUEUE cfg <= qsize q + 1 <= MAX_IN_MEMORY_QUEUE_FLUSH_COUNT cfg → full cfg q = false →
  is_ok (get_aggregated_daily_spend_update_transactions (q ++ [u])) = false →
  reached (add_update cfg u q) = [].
Proof.
  intros Hsz Ef Ha. unfold add_update. rewrite (w_bind_done _ _ _ () (q ++ [u])) by (unfold BaseUpdateQueue.put; by rewrite Ef).
  rewrite (w_bind_done w_get _ (q ++ [u]) _ _ eq_refl).
  assert (Hl : qsize (q ++ [u]) = qsize q + 1) by (rewrite BaseUpdateQueue.qsize_app; done).
  replace (_ <=? _) with true by lia. unfold aggregate_queue_updates.
  rewrite (w_bind_done _ _ _ _ _ (BaseUpdateQueue.flush_all cfg (q ++ [u]) ltac:(lia))).
  unfold mbind, W_bind, w_lift. by destruct (get_aggregated_daily_spend_update_transactions _).
Qed.
End methods.
End DailySpendUpdateQueue.

(** ** Discovered tools *)

Record ToolDiscoveryQueueItem := mkTool {
  tool_name : string;
  origin : option string;
  tool_created_by : option string;
  key_hash : option string;
  tool_team_id : option string;
  key_alias : option string;
  user_agent : option string
}.

Module ToolDiscoveryQueue.
Record t := mk { _seen_tool_names : gset string; _pending : list ToolDiscoveryQueueItem }.

Definition init : t := mk ∅ [].

Definition add_update (item : ToolDiscoveryQueueItem) (q : t) : t :=
  if String.eqb (tool_name item) "" then q
  else if bool_decide (tool_name item ∈ _seen_tool_names q) then q
  else mk (_seen_tool_names q ∪ {[ tool_name item ]}) (_pending q ++ [item]).

Definition flush (q : t) : list ToolDiscoveryQueueItem * t := (_pending q, mk ∅ []).

(** The specification: the first item of every named tool, in order of arrival. *)
Fixpoint first_of_each (seen : gset string) (l : list ToolDiscoveryQueueItem) : list ToolDiscoveryQueueItem :=
  match l with
  | [] => []
  | x :: l' =>
      if String.eqb (tool_name x) "" || bool_decide (tool_name x ∈ seen) then first_of_each seen l'
      else x :: first_of_each (seen ∪ {[ tool_name x ]}) l'
  end.

Lemma adds_spec l q : _pending (foldl (λ q x, add_update x q) q l) = _pending q ++ first_of_each (_seen_tool_names q) l.
Proof.
  revert q. induction l as [|x l IH]; intros q; cbn [foldl first_of_each]; [by rewrite app_nil_r|].
  rewrite IH. unfold add_update. destruct (String.eqb _ _); cbn [orb]; [done|].
  case_bool_decide; [done|]. cbn. by rewrite <- app_assoc.
Qed.

Lemma first_of_each_names seen l x :
  (x ∈ tool_name <$> first_of_each seen l) → (x ∉ seen) ∧ x ≠ "".
Proof.
  revert seen. induction l as [|y l IH]; intros seen; cbn [first_of_each]; [by intros ?%elem_of_nil|].
  destruct (String.eqb_spec (tool_name y) "") as [|Hne]; cbn [orb]; [apply IH|]. case_bool_decide as Hs; [apply IH|].
  rewrite fmap_cons. intros [->|Hx]%elem_of_cons; [done|]. destruct (IH _ Hx). set_solver.
Qed.

Lemma first_of_each_NoDup seen l : NoDup (tool_name <$> first_of_each seen l).
Proof.
  revert seen. induction l as [|y l IH]; intros seen; cbn [first_of_each]; [constructor|].
  destruct (_ || _); [done|]. rewrite fmap_cons. constructor; [|done].
  intros Hx%first_of_each_names. set_solver.
Qed.

Lemma first_of_each_complete seen l x :
  x ∈ tool_name <$> l → x ≠ "" → x ∉ seen → x ∈ tool_name <$> first_of_each seen l.
Proof.
  revert seen. induction l as [|y l IH]; intros seen; [by intros ?%elem_of_nil|].
  rewrite fmap_cons. intros Hx Hne Hs. cbn [first_of_each].
  destruct (String.eqb_spec (tool_name y) "") as [E|Hy]; cbn [orb].
  { apply IH; [|done..]. apply elem_of_cons in Hx as [->|]; [done|done]. }
  case_bool_decide as Hsy.
  { apply IH; [|done..]. apply elem_of_cons in Hx as [->|]; [done|done]. }
  rewrite fmap_cons. destruct (decide (x = tool_name y)) as [->|Hxy]; [by left|]. right.
  apply IH; [|done|set_solver]. apply elem_of_cons in Hx as [->|]; done.
Qed.

(** Between two flushes every named tool that was reported is queued exactly once, and the
    flush makes room for counting it again. *)
Theorem tools_queued_once l :
  let '(items, q) := flush (foldl (λ q x, add_update x q) init l) in
  q = init ∧ NoDup (tool_name <$> items) ∧ ∀ x, (x ∈ tool_name <$> items) ↔ (x ∈ tool_name <$> l) ∧ x ≠ "".
Proof.
  unfold flush. rewrite adds_spec. cbn [_pending init app _seen_tool_names]. split_and!; [done|apply first_of_each_NoDup|].
  intros x. split; [|intros [Hx Hne]; by apply first_of_each_complete]. intros Hx.
  split; [|by destruct (first_of_each_names _ _ _ Hx)].
  revert Hx. generalize (∅ : gset string). induction l as [|y l IH]; intros seen; cbn [first_of_each]; [done|].
  rewrite fmap_cons. destruct (_ || _); [intros Hx; right; by apply (IH seen)|].
  rewrite fmap_cons. intros [->|Hx]%elem_of_cons; [by left|right; eauto].
Qed.
End ToolDiscoveryQueue.
