(* ===== verification/SpendWriter.v ===== *)
(** * SpendWriter: the producers of [proxy/db/db_spend_update_writer.py]

    What happens when a request has been answered: [update_database] appends the spend log
    and starts [_batch_database_updates], which queues one update per charged entity and
    one usage record per daily table.  The payload [get_logging_payload] builds, the lookup
    of the cached user row and SHA-256 are arguments; a [datetime] has already become its
    ISO text, as [update_database] does.  Log texts are left out.

    Theorems: a request charges exactly the entities of its specification, each with the
    cost of the request; a failing helper leaves the others their effect; the record a
    request adds to a daily queue is metered, counts one request and carries the spend of
    the request.  The keys of daily records do not separate all the records the tables
    separate. *)

From stdpp Require Import base gmap sets list strings.
From Stdlib Require Import ZArith QArith Lqa Lia ZifyBool Ascii.
From S2P Require Import Prelude PyStr BudgetLimiter SpendQueue.

#[local] Open Scope Z_scope.

(** [proxy/route_llm_request.py]. *)
Definition ROUTE_ENDPOINT_MAPPING : list (string * string) :=
  [("acompletion", "/chat/completions");
   ("atext_completion", "/completions");
   ("aembedding", "/embeddings");
   ("aimage_generation", "/image/generations");
   ("aspeech", "/audio/speech");
   ("atranscription", "/audio/transcriptions");
   ("amoderation", "/moderations");
   ("arerank", "/rerank");
   ("aresponses", "/responses");
   ("_aresponses_websocket", "/responses");
   ("alist_input_items", "/responses/{response_id}/input_items");
   ("aimage_edit", "/images/edits");
   ("acancel_responses", "/responses/{response_id}/cancel");
   ("acompact_responses", "/responses/compact");
   ("aocr", "/ocr");
   ("asearch", "/search");
   ("avideo_generation", "/videos");
   ("avideo_list", "/videos");
   ("avideo_status", "/videos/{video_id}");
   ("avideo_content", "/videos/{video_id}/content");
   ("avideo_remix", "/videos/{video_id}/remix");
   ("acreate_realtime_client_secret", "/realtime/client_secrets");
   ("arealtime_calls", "/realtime/calls");
   ("acreate_container", "/containers");
   ("alist_containers", "/containers");
   ("aretrieve_container", "/containers/{container_id}");
   ("adelete_container", "/containers/{container_id}");
   ("aupload_container_file", "/containers/{container_id}/files");
   ("alist_container_files", "/containers/{container_id}/files");
   ("aretrieve_container_file", "/containers/{container_id}/files/{file_id}");
   ("adelete_container_file", "/containers/{container_id}/files/{file_id}");
   ("aretrieve_container_file_content", "/containers/{container_id}/files/{file_id}/content");
   ("acreate_skill", "/skills");
   ("alist_skills", "/skills");
   ("aget_skill", "/skills/{skill_id}");
   ("adelete_skill", "/skills/{skill_id}");
   ("aingest", "/rag/ingest");
   ("acreate_interaction", "/interactions");
   ("aget_interaction", "/interactions/{interaction_id}");
   ("adelete_interaction", "/interactions/{interaction_id}");
   ("acancel_interaction", "/interactions/{interaction_id}/cancel");
   ("acreate_eval", "/evals");
   ("alist_evals", "/evals");
   ("aget_eval", "/evals/{eval_id}");
   ("aupdate_eval", "/evals/{eval_id}");
   ("adelete_eval", "/evals/{eval_id}");
   ("acancel_eval", "/evals/{eval_id}/cancel");
   ("acreate_run", "/evals/{eval_id}/runs");
   ("alist_runs", "/evals/{eval_id}/runs");
   ("aget_run", "/evals/{eval_id}/runs/{run_id}");
   ("acancel_run", "/evals/{eval_id}/runs/{run_id}/cancel");
   ("adelete_run", "/evals/{eval_id}/runs/{run_id}")].

(** [safe_json_loads(data, default)]. *)
Definition safe_json_loads `{PyRuntime} (data : string) (dflt : pyval) : pyval := default dflt (json_loads data).

Module DBSpendUpdateWriter.
#[local] Abbreviation dict := (list (string * pyval)).
#[local] Abbreviation updates_dict := (list (string * dict)).

Record t := mk {
  spend_update_queue : list SpendUpdateQueueItem;
  tool_discovery_queue : ToolDiscoveryQueue.t;
  daily_spend_update_queue : list updates_dict;
  daily_team_spend_update_queue : list updates_dict;
  daily_end_user_spend_update_queue : list updates_dict;
  daily_agent_spend_update_queue : list updates_dict;
  daily_org_spend_update_queue : list updates_dict;
  daily_tag_spend_update_queue : list updates_dict;
  spend_log_transactions : list dict                  (* of the Prisma client *)
}.

Definition init : t := mk [] ToolDiscoveryQueue.init [] [] [] [] [] [] [].

(** The daily tables. *)
Inductive daily_kind := DUser | DTeam | DEndUser | DAgent | DOrg | DTag.

#[export] Instance daily_kind_eq_dec : EqDecision daily_kind.
Proof. solve_decision. Defined.

Definition daily_queue (k : daily_kind) (w : t) : list updates_dict :=
  match k with
  | DUser => daily_spend_update_queue w
  | DTeam => daily_team_spend_update_queue w
  | DEndUser => daily_end_user_spend_update_queue w
  | DAgent => daily_agent_spend_update_queue w
  | DOrg => daily_org_spend_update_queue w
  | DTag => daily_tag_spend_update_queue w
  end.

Definition set_spend_queue (q : list SpendUpdateQueueItem) (w : t) : t :=
  mk q (tool_discovery_queue w) (daily_spend_update_queue w) (daily_team_spend_update_queue w)
     (daily_end_user_spend_update_queue w) (daily_agent_spend_update_queue w)
     (daily_org_spend_update_queue w) (daily_tag_spend_update_queue w) (spend_log_transactions w).
Definition set_tools (q : ToolDiscoveryQueue.t) (w : t) : t :=
  mk (spend_update_queue w) q (daily_spend_update_queue w) (daily_team_spend_update_queue w)
     (daily_end_user_spend_update_queue w) (daily_agent_spend_update_queue w)
     (daily_org_spend_update_queue w) (daily_tag_spend_update_queue w) (spend_log_transactions w).
Definition set_logs (l : list dict) (w : t) : t :=
  mk (spend_update_queue w) (tool_discovery_queue w) (daily_spend_update_queue w) (daily_team_spend_update_queue w)
     (daily_end_user_spend_update_queue w) (daily_agent_spend_update_queue w)
     (daily_org_spend_update_queue w) (daily_tag_spend_update_queue w) l.
Definition set_daily (k : daily_kind) (q : list updates_dict) (w : t) : t :=
  let pick k' old := if bool_decide (k = k') then q else old in
  mk (spend_update_queue w) (tool_discovery_queue w)
     (pick DUser (daily_spend_update_queue w)) (pick DTeam (daily_team_spend_update_queue w))
     (pick DEndUser (daily_end_user_spend_update_queue w)) (pick DAgent (daily_agent_spend_update_queue w))
     (pick DOrg (daily_org_spend_update_queue w)) (pick DTag (daily_tag_spend_update_queue w))
     (spend_log_transactions w).

Definition on_spend {A} (m : W (list SpendUpdateQueueItem) A) : W t A := w_zoom spend_update_queue set_spend_queue m.
Definition on_daily {A} (k : daily_kind) (m : W (list updates_dict) A) : W t A := w_zoom (daily_queue k) (set_daily k) m.

(** The client is connected to a database, or [None]. *)
Definition prisma_client : Type := bool.

Section producers.
Context `{PyRuntime} (cfg : config).

Definition enqueue (ty : Litellm_EntityType) (id : string) (response_cost : option Q) : W t unit :=
  on_spend (SpendUpdateQueue.add_update cfg (mkItem (Some ty) (Some id) response_cost)).

Definition _update_key_db (response_cost : option Q) (hashed_token : option string) (prisma : prisma_client) : W t unit :=
  w_try
    match hashed_token with
    | Some token => if prisma then enqueue KEY token response_cost else mret ()
    | None => mret ()
    end w_raise.

(** [existing_user_obj]: reading the cached row and validating it, which may raise. *)
Definition _update_user_db (existing_user_obj : res unit) (max_budget : Q) (response_cost : option Q)
    (user_id : option string) (prisma : prisma_client) (litellm_proxy_budget_name end_user_id : option string) : W t unit :=
  w_lift existing_user_obj ;;
  w_try
    (if prisma then
       let user_ids := [user_id] ++ (if negb (Qle_bool max_budget 0) then [litellm_proxy_budget_name] else []) in
       w_iter (λ _id, match _id with Some i => enqueue USER i response_cost | None => mret () end) user_ids ;;
       match end_user_id with Some e => enqueue END_USER e response_cost | None => mret () end
     else mret ())
    (λ _, mret ()).

Definition team_member_key (team_id user_id : string) : string :=
  "team_id::" +:+ team_id +:+ "::user_id::" +:+ user_id.

Definition _update_team_db (response_cost : option Q) (team_id user_id : option string) (prisma : prisma_client) : W t unit :=
  w_try
    match team_id with
    | Some team =>
        if prisma then
          enqueue TEAM team response_cost ;;
          w_try match user_id with
                | Some user => enqueue TEAM_MEMBER (team_member_key team user) response_cost
                | None => mret ()
                end (λ _, mret ())
        else mret ()
    | None => mret ()
    end w_raise.

Definition _update_org_db (response_cost : option Q) (org_id : option string) (prisma : prisma_client) : W t unit :=
  w_try
    match org_id with
    | Some org => if prisma then enqueue ORGANIZATION org response_cost else mret ()
    | None => mret ()
    end w_raise.

Definition _update_agent_db (response_cost : option Q) (agent_id : option string) (prisma : prisma_client) : W t unit :=
  w_try
    match agent_id with
    | Some agent => if prisma then enqueue AGENT agent response_cost else mret ()
    | None => mret ()
    end w_raise.

(** The tags of [request_tags], a list or its JSON text; [None] when there is nothing to do. *)
Definition tags_of (request_tags : pyval) : res (option (list pyval)) :=
  match request_tags with
  | PStr s =>
      let tags := safe_json_loads s (PList []) in
      if truthy tags then Some <$> BudgetLimiter.iterate tags else Ok None
  | PList l => Ok (Some l)
  | _ => Ok None
  end.

Definition _update_tag_db (response_cost : option Q) (request_tags : pyval) (prisma : prisma_client) : W t unit :=
  w_try
    (if is_none request_tags || negb prisma then mret ()
     else
       tags ← w_lift (tags_of request_tags);
       match tags with
       | None => mret ()
       | Some l =>
           w_iter (λ tag_name, match tag_name with
                               | PStr s => if truthy (PStr s) then enqueue TAG s response_cost else mret ()
                               | _ => mret ()
                               end) l
       end) w_raise.

(** *** Daily records *)

(** [PrismaClient.get_request_status]; a text that is no JSON and metadata without [get]
    count as success. *)
Definition get_request_status (payload : dict) : string :=
  let payload_metadata := default (PDict []) (dget "metadata" payload) in
  let payload_metadata_json :=
    match payload_metadata with PStr s => json_loads s | v => Some v end in
  match payload_metadata_json with
  | Some (PDict d) =>
      match dget "status" d with
      | Some v => if py_eqb v (PStr "failure") then "failure" else "success"
      | None => "success"
      end
  | _ => "success"
  end.

Definition expected_keys (type : string) : res (list string) :=
  let common_expected_keys := ["startTime"; "api_key"] in
  if String.eqb type "user" then Ok ("user" :: common_expected_keys)
  else if String.eqb type "team" then Ok ("team_id" :: common_expected_keys)
  else if String.eqb type "org" then Ok ("organization_id" :: common_expected_keys)
  else if String.eqb type "request_tags" then Ok ("request_tags" :: common_expected_keys)
  else if String.eqb type "end_user" then Ok ("end_user_id" :: common_expected_keys)
  else if String.eqb type "agent" then Ok ("agent_id" :: common_expected_keys)
  else Raise ValueError.

Definition index (d : dict) (k : string) : res pyval :=
  match dget k d with Some v => Ok v | None => Raise KeyError end.

(** [payload.get(k, None)]. *)
Definition get (d : dict) (k : string) : pyval := default PNone (dget k d).

(** [json.loads(v)]. *)
Definition loads (v : pyval) : res pyval :=
  match v with
  | PStr s => match json_loads s with Some x => Ok x | None => Raise ValueError end
  | _ => Raise TypeError
  end.

(** [ROUTE_ENDPOINT_MAPPING.get(call_type)] when the request has a call type. *)
Definition endpoint_of (call_type : pyval) : res pyval :=
  if truthy call_type then
    if hashable call_type then
      Ok match call_type with
         | PStr s => match dget s ROUTE_ENDPOINT_MAPPING with Some e => PStr e | None => PNone end
         | _ => PNone
         end
    else Raise TypeError
  else Ok PNone.

Definition b2v (b : bool) : pyval := PInt (Z.b2z b).

(** The record built once the payload has been accepted. *)
Definition base_transaction (payload : dict) (date : string) (request_status : string) (usage_obj : pyval) : res dict :=
  endpoint ← endpoint_of (get payload "call_type");
  api_key ← index payload "api_key";
  prompt_tokens ← index payload "prompt_tokens";
  completion_tokens ← index payload "completion_tokens";
  spend ← index payload "spend";
  cache_read ← py_get_or usage_obj "cache_read_input_tokens" (PInt 0);
  cache_creation ← py_get_or usage_obj "cache_creation_input_tokens" (PInt 0);
  Ok [("date", PStr date); ("api_key", api_key); ("model", get payload "model");
      ("model_group", get payload "model_group");
      ("mcp_namespaced_tool_name", get payload "mcp_namespaced_tool_name");
      ("custom_llm_provider", get payload "custom_llm_provider"); ("endpoint", endpoint);
      ("prompt_tokens", prompt_tokens); ("completion_tokens", completion_tokens); ("spend", spend);
      ("api_requests", PInt 1);
      ("successful_requests", b2v (String.eqb request_status "success"));
      ("failed_requests", b2v (negb (String.eqb request_status "success")));
      ("cache_read_input_tokens", py_or cache_read (PInt 0));
      ("cache_creation_input_tokens", py_or cache_creation (PInt 0))].

(** [usage_obj]. *)
Definition usage_object (payload : dict) : res pyval :=
  metadata ← index payload "metadata";
  _metadata ← loads metadata;
  usage ← py_get_or _metadata "usage_object" (PDict []);
  Ok (py_or usage (PDict [])).

(** The guards of [_common_add_spend_log_transaction_to_daily_transaction] after the
    expected keys: a tool or a model with its provider and group. *)
Definition names_usage (payload : dict) : bool :=
  if negb (dmem "model" payload || dmem "mcp_namespaced_tool_name" payload) then false
  else if dmem "mcp_namespaced_tool_name" payload then true
  else negb (dmem "model" payload &&
             (negb (dmem "custom_llm_provider" payload) || negb (dmem "model_group" payload))).

Definition _common_add_spend_log_transaction_to_daily_transaction (payload : dict) (type : string) : res (option dict) :=
  keys ← expected_keys type;
  if negb (forallb (λ k, dmem k payload) keys) then Ok None
  else if negb (names_usage payload) then Ok None
  else
    let request_status := get_request_status payload in
    usage_obj ← usage_object payload;
    start_time ← index payload "startTime";
    match start_time with
    | PStr s =>
        let date := default "" (head (split_on "T" s)) in
        Some <$> base_transaction payload date request_status usage_obj
    | _ => Ok None
    end.

(** The f-string of the keys: entity, date, key, model, provider and endpoint. *)
Definition daily_transaction_key (entity : pyval) (base payload : dict) : res string :=
  date ← index base "date";
  api_key ← index payload "api_key";
  model ← index payload "model";
  provider ← index payload "custom_llm_provider";
  let endpoint_str := py_or (get base "endpoint") (PStr "") in
  Ok (str_join "_" (py_str <$> [entity; date; api_key; model; provider; endpoint_str])).

Definition add_daily (k : daily_kind) (key : string) (tx : dict) : W t unit :=
  on_daily k (DailySpendUpdateQueue.add_update cfg [(key, tx)]).

Definition add_spend_log_transaction_to_daily_user_transaction (payload : dict) (prisma : prisma_client) : W t unit :=
  if negb prisma then mret () else
  base ← w_lift (_common_add_spend_log_transaction_to_daily_transaction payload "user");
  match base with
  | None => mret ()
  | Some base =>
      user ← w_lift (index payload "user");
      key ← w_lift (daily_transaction_key user base payload);
      add_daily DUser key (("user_id", user) :: base)
  end.

Definition add_spend_log_transaction_to_daily_team_transaction (payload : dict) (prisma : prisma_client) : W t unit :=
  if negb prisma then mret () else
  base ← w_lift (_common_add_spend_log_transaction_to_daily_transaction payload "team");
  match base with
  | None => mret ()
  | Some base =>
      team ← w_lift (index payload "team_id");
      if is_none team then mret () else
      key ← w_lift (daily_transaction_key team base payload);
      add_daily DTeam key (("team_id", team) :: base)
  end.

Definition add_spend_log_transaction_to_daily_org_transaction (payload : dict) (prisma : prisma_client)
    (org_id : option string) : W t unit :=
  if negb prisma then mret () else
  match org_id with
  | None => mret ()
  | Some org =>
      let payload_with_org := dset "organization_id" (PStr org) payload in
      base ← w_lift (_common_add_spend_log_transaction_to_daily_transaction payload_with_org "org");
      match base with
      | None => mret ()
      | Some base =>
          key ← w_lift (daily_transaction_key (PStr org) base payload_with_org);
          add_daily DOrg key (("organization_id", PStr org) :: base)
      end
  end.

Definition add_spend_log_transaction_to_daily_end_user_transaction (payload : dict) (prisma : prisma_client) : W t unit :=
  if negb prisma then mret () else
  let end_user_id := get payload "end_user" in
  if is_none end_user_id || py_eqb end_user_id (PStr "") then mret () else
  let payload_with_end_user_id := dset "end_user_id" end_user_id payload in
  base ← w_lift (_common_add_spend_log_transaction_to_daily_transaction payload_with_end_user_id "end_user");
  match base with
  | None => mret ()
  | Some base =>
      key ← w_lift (daily_transaction_key end_user_id base payload_with_end_user_id);
      add_daily DEndUser key (("end_user_id", end_user_id) :: base)
  end.

Definition add_spend_log_transaction_to_daily_agent_transaction (payload : dict) (prisma : prisma_client) : W t unit :=
  if negb prisma then mret () else
  agent ← w_lift (index payload "agent_id");
  if is_none agent then mret () else
  let payload_with_agent_id := dset "agent_id" agent payload in
  base ← w_lift (_common_add_spend_log_transaction_to_daily_transaction payload_with_agent_id "agent");
  match base with
  | None => mret ()
  | Some base =>
      key ← w_lift (daily_transaction_key agent base payload_with_agent_id);
      add_daily DAgent key (("agent_id", agent) :: base)
  end.

Definition add_spend_log_transaction_to_daily_tag_transaction (payload : dict) (prisma : prisma_client) : W t unit :=
  if negb prisma then mret () else
  base ← w_lift (_common_add_spend_log_transaction_to_daily_transaction payload "request_tags");
  match base with
  | None => mret ()
  | Some base =>
      tags ← w_lift (index payload "request_tags");
      if is_none tags then mret () else
      request_tags ← w_lift match tags with
                            | PStr _ => v ← loads tags; BudgetLimiter.iterate v
                            | PList l => Ok l
                            | _ => Raise ValueError
                            end;
      w_iter (λ tag,
        key ← w_lift (daily_transaction_key tag base payload);
        request_id ← w_lift (index payload "request_id");
        add_daily DTag key (("tag", tag) :: base ++ [("request_id", request_id)])) request_tags
  end.

(** The task started for a request: eleven helpers, each guarded. *)
Record request := mkRequest {
  response_cost : option Q;
  user_id : option string;
  hashed_token : option string;
  team_id : option string;
  org_id : option string;
  end_user_id : option string;
  payload_copy : dict;
  request_tags : pyval
}.

Definition opt_str (v : pyval) : option string := match v with PStr s => Some s | _ => None end.

Definition guarded (m : W t unit) : W t unit := w_try m (λ _, mret ()).

Definition _batch_database_updates (existing_user_obj : res unit) (max_budget : Q) (litellm_proxy_budget_name : option string)
    (prisma : prisma_client) (r : request) : W t unit :=
  guarded (_update_user_db existing_user_obj max_budget (response_cost r) (user_id r) prisma
             litellm_proxy_budget_name (end_user_id r)) ;;
  guarded (_update_key_db (response_cost r) (hashed_token r) prisma) ;;
  guarded (_update_team_db (response_cost r) (team_id r) (user_id r) prisma) ;;
  guarded (_update_org_db (response_cost r) (org_id r) prisma) ;;
  guarded (_update_tag_db (response_cost r) (request_tags r) prisma) ;;
  guarded (_update_agent_db (response_cost r) (opt_str (get (payload_copy r) "agent_id")) prisma) ;;
  guarded (add_spend_log_transaction_to_daily_user_transaction (payload_copy r) prisma) ;;
  guarded (add_spend_log_transaction_to_daily_end_user_transaction (payload_copy r) prisma) ;;
  guarded (add_spend_log_transaction_to_daily_agent_transaction (payload_copy r) prisma) ;;
  guarded (add_spend_log_transaction_to_daily_team_transaction (payload_copy r) prisma) ;;
  guarded (add_spend_log_transaction_to_daily_org_transaction (payload_copy r) prisma (org_id r)) ;;
  guarded (add_spend_log_transaction_to_daily_tag_transaction (payload_copy r) prisma).

Definition _insert_spend_log_to_db (payload : dict) (prisma : prisma_client) : W t unit :=
  if prisma then w_modify (λ w, set_logs (spend_log_transactions w ++ [payload]) w) else mret ().
End producers.

(** ** What a request is charged *)

Section charging.
Context `{PyRuntime} (cfg : config).
Implicit Types (w : t).

(** The entities a request is charged to, in the order they are queued. *)
Definition entity : Type := Litellm_EntityType * string.

Definition when {A} (o : option A) (f : A → entity) : list entity := match o with Some x => [f x] | None => [] end.

Definition charged_tags (request_tags : pyval) : list entity :=
  match tags_of request_tags with
  | Ok (Some l) =>
      mjoin ((λ v, match v with PStr s => if String.eqb s "" then [] else [(TAG, s)] | _ => [] end) <$> l)
  | _ => []
  end.

Definition charged_entities (max_budget : Q) (litellm_proxy_budget_name : option string) (r : request) : list entity :=
  when (user_id r) (λ u, (USER, u)) ++
  (if Qle_bool max_budget 0 then [] else when litellm_proxy_budget_name (λ b, (USER, b))) ++
  when (end_user_id r) (λ e, (END_USER, e)) ++
  when (hashed_token r) (λ k, (KEY, k)) ++
  when (team_id r) (λ tm, (TEAM, tm)) ++
  match team_id r, user_id r with
  | Some tm, Some u => [(TEAM_MEMBER, team_member_key tm u)]
  | _, _ => []
  end ++
  when (org_id r) (λ o, (ORGANIZATION, o)) ++
  charged_tags (request_tags r) ++
  when (opt_str (get (payload_copy r) "agent_id")) (λ a, (AGENT, a)).

(** The charge of [cost] to each entity of a list. *)
Fixpoint bill (cost : Q) (l : list entity) (ty : Litellm_EntityType) (id : string) : Q :=
  match l with
  | [] => 0%Q
  | e :: l' => ((if bool_decide (e = (ty, id)) then cost else 0) + bill cost l' ty id)%Q
  end.

Lemma bill_app cost l l' ty id : (bill cost (l ++ l') ty id == bill cost l ty id + bill cost l' ty id)%Q.
Proof. induction l as [|e l IH]; cbn [bill app]; [ring|]. rewrite IH. ring. Qed.

Definition queue_ok (w : t) : Prop :=
  SpendUpdateQueue.bounded cfg (spend_update_queue w) ∧ Forall SpendUpdateQueue.named (spend_update_queue w).

(** A step that, when it is not suspended, returns and charges exactly the entities [l]. *)
Definition bills (cost : Q) (l : list entity) (m : W t unit) : Prop :=
  ∀ w r w', queue_ok w → m w = Done r w' →
    r = Ok () ∧ queue_ok w' ∧
    ∀ ty id, (SpendUpdateQueue.owed ty id (spend_update_queue w') ==
              SpendUpdateQueue.owed ty id (spend_update_queue w) + bill cost l ty id)%Q.

Lemma bills_ret cost : bills cost [] (mret ()).
Proof. intros w r w' Hq [= <- <-]. split_and!; [done..|]. intros. cbn. ring. Qed.

Lemma bills_bind cost l l' m m' : bills cost l m → bills cost l' m' → bills cost (l ++ l') (m ;; m').
Proof.
  intros Hm Hm' w r w' Hq E. unfold mbind, W_bind in E. destruct (m w) as [r1 w1|] eqn:E1; [|done].
  destruct (Hm _ _ _ Hq E1) as (-> & Hq1 & Ho1). destruct (Hm' _ _ _ Hq1 E) as (-> & Hq2 & Ho2).
  split_and!; [done..|]. intros ty id. rewrite Ho2, Ho1, bill_app. ring.
Qed.

Lemma bills_try cost l m h : bills cost l m → bills cost l (w_try m h).
Proof.
  intros Hm w r w' Hq E. unfold w_try in E. destruct (m w) as [r1 w1|] eqn:E1; [|done].
  destruct (Hm _ _ _ Hq E1) as (-> & Hq1 & Ho1). cbn in E. injection E as <- <-. done.
Qed.

Lemma bills_enqueue ty id (cost : option Q) : bills (or_zero cost) [(ty, id)] (enqueue cfg ty id cost).
Proof.
  intros w r w' [Hb Hn] E. unfold enqueue, on_spend, w_zoom in E.
  set (u := mkItem (Some ty) (Some id) cost) in *.
  destruct (SpendUpdateQueue.add_update_spec cfg u (spend_update_queue w) Hb Hn (ex_intro _ id eq_refl))
    as [[_ Ea]|(q' & Ea & Hb' & Hn' & Ho)]; rewrite Ea in E; [done|]. injection E as <- <-.
  split_and!; [done..|]. intros ty' id'. cbn [spend_update_queue set_spend_queue]. rewrite Ho. cbn [bill].
  unfold SpendUpdateQueue.charge, SpendUpdateQueue.charges. cbn -[or_zero].
  destruct (decide ((ty, id) = (ty', id'))) as [[= -> ->]|Hne].
  - rewrite !bool_decide_true, String.eqb_refl by done. cbn -[or_zero]. ring.
  - rewrite (bool_decide_false ((ty, id) = (ty', id'))) by done.
    destruct (bool_decide_reflect (Some ty = Some ty')) as [[= ->]|]; cbn -[or_zero]; [|ring].
    destruct (String.eqb_spec id id') as [->|]; [done|]. ring.
Qed.

Lemma bills_iter {A} cost (f : A → list entity) (body : A → W t unit) l :
  (∀ x, bills cost (f x) (body x)) → bills cost (mjoin (f <$> l)) (w_iter body l).
Proof.
  intros Hb. induction l as [|x l IH]; cbn [w_iter]; [apply bills_ret|]. rewrite fmap_cons.
  change (bills cost (f x ++ mjoin (f <$> l)) (body x ;; w_iter body l)). by apply bills_bind.
Qed.

(** A step that leaves the spend queue alone. *)
Definition quiet {A} (m : W t A) : Prop := ∀ w, spend_update_queue (reached (m w)) = spend_update_queue w.

Lemma quiet_ret {A} (a : A) : quiet (mret a).
Proof. done. Qed.

Lemma quiet_lift {A} (r : res A) : quiet (w_lift r).
Proof. done. Qed.

Lemma quiet_bind {A B} (m : W t A) (f : A → W t B) : quiet m → (∀ a, quiet (f a)) → quiet (m ≫= f).
Proof.
  intros Hm Hf w. specialize (Hm w). unfold mbind, W_bind. destruct (m w) as [[a|]|]; cbn in *; [|done..].
  by rewrite Hf.
Qed.

Lemma quiet_daily {A} k (m : W (list updates_dict) A) : quiet (on_daily k m).
Proof. intros w. unfold on_daily, w_zoom. by destruct (m _). Qed.

Lemma quiet_iter {A} (body : A → W t unit) l : (∀ x, quiet (body x)) → quiet (w_iter body l).
Proof. intros Hb. induction l as [|x l IH]; cbn [w_iter]; [apply quiet_ret|]. apply quiet_bind; auto. Qed.

Lemma quiet_guarded cost m : quiet m → bills cost [] (guarded m).
Proof.
  intros Hm w r w' [Hb Hn] E. specialize (Hm w). unfold guarded, w_try in E.
  assert (r = Ok () ∧ spend_update_queue w' = spend_update_queue w) as [-> Hq].
  { destruct (m w) as [[[]|e] s|] eqn:Em; cbn in *; unfold mret, W_ret in E; simplify_eq; done. }
  unfold queue_ok. rewrite Hq. split_and!; [done..|]. intros. cbn. ring.
Qed.
End charging.

Ltac quiet_tac :=
  repeat first
    [ apply quiet_ret | apply quiet_lift | apply quiet_daily
    | apply quiet_iter; intros ? | apply quiet_bind; [|intros ?]
    | match goal with |- quiet (match ?x with _ => _ end) => destruct x end
    | match goal with |- quiet (let _ := ?x in _) => cbv zeta end
    | unfold add_daily ].

Section theorems.
Context `{PyRuntime} (cfg : config).

Lemma bills_eq cost l l' m : l = l' → bills cfg cost l m → bills cfg cost l' m.
Proof. by intros ->. Qed.

Lemma bills_when {A} cost (o : option A) f (m : A → W t unit) :
  (∀ x, bills cfg cost [f x] (m x)) → bills cfg cost (when o f) match o with Some x => m x | None => mret () end.
Proof. intros Hm. destruct o; [apply Hm|apply bills_ret]. Qed.

Lemma bills_user_db (max_budget : Q) c u b e :
  bills cfg (or_zero c)
    (when u (λ u, (USER, u)) ++ (if Qle_bool max_budget 0 then [] else when b (λ b, (USER, b))) ++ when e (λ e, (END_USER, e)))
    (_update_user_db cfg (Ok ()) max_budget c u true b e).
Proof.
  unfold _update_user_db.
  change (w_lift (Ok ()) ;; ?m) with m. apply bills_try.
  eapply bills_eq; [symmetry; apply app_assoc|].
  apply bills_bind; [|apply bills_when; intros; apply bills_enqueue].
  set (one := λ i : option string, when i (λ u, (USER, u))).
  eapply (bills_eq _ (mjoin (one <$> ([u] ++ (if negb (Qle_bool max_budget 0) then [b] else []))))).
  - destruct (Qle_bool max_budget 0); cbn; by rewrite ?app_nil_r.
  - apply bills_iter. intros i. apply bills_when. intros; apply bills_enqueue.
Qed.

Lemma bills_team_db c tm u :
  bills cfg (or_zero c)
    (when tm (λ tm, (TEAM, tm)) ++
     match tm, u with Some tm, Some u => [(TEAM_MEMBER, team_member_key tm u)] | _, _ => [] end)
    (_update_team_db cfg c tm u true).
Proof.
  unfold _update_team_db. apply bills_try. destruct tm as [tm|]; [|apply bills_ret].
  apply bills_bind; [apply bills_enqueue|]. apply bills_try. destruct u; [apply bills_enqueue|apply bills_ret].
Qed.

Lemma bills_tag_db c tags l :
  tags_of tags = Ok l → bills cfg (or_zero c) (charged_tags tags) (_update_tag_db cfg c tags true).
Proof.
  intros Et. unfold _update_tag_db, charged_tags. rewrite Et. apply bills_try.
  destruct (is_none tags) eqn:En; cbn [orb negb].
  { destruct tags; try done. cbn in Et. injection Et as <-. apply bills_ret. }
  change (w_lift (Ok l) ≫= ?f) with (f l). destruct l as [l|]; [|apply bills_ret].
  apply bills_iter. intros v. destruct v; try apply bills_ret. cbn [truthy].
  destruct (String.eqb s ""); cbn [negb]; [apply bills_ret|apply bills_enqueue].
Qed.

Lemma daily_helpers_quiet p o :
  quiet (add_spend_log_transaction_to_daily_user_transaction cfg p true) ∧
  quiet (add_spend_log_transaction_to_daily_end_user_transaction cfg p true) ∧
  quiet (add_spend_log_transaction_to_daily_agent_transaction cfg p true) ∧
  quiet (add_spend_log_transaction_to_daily_team_transaction cfg p true) ∧
  quiet (add_spend_log_transaction_to_daily_org_transaction cfg p true o) ∧
  quiet (add_spend_log_transaction_to_daily_tag_transaction cfg p true).
Proof.
  unfold add_spend_log_transaction_to_daily_user_transaction, add_spend_log_transaction_to_daily_end_user_transaction,
    add_spend_log_transaction_to_daily_agent_transaction, add_spend_log_transaction_to_daily_team_transaction,
    add_spend_log_transaction_to_daily_org_transaction, add_spend_log_transaction_to_daily_tag_transaction.
  split_and!; quiet_tac.
Qed.

(** C12: When the cache is read without error, the proxy has a database and the tags of
    the request parse: a request whose task finishes has charged its cost, once for
    every occurrence, to exactly its user, end user, key, team, team member,
    organization, tags and agent and, if the proxy has a positive budget of its own, to
    the user that stands for the proxy. *)
Theorem request_charged max_budget budget_name r w o w' :
  is_ok (tags_of (request_tags r)) = true → queue_ok cfg w →
  _batch_database_updates cfg (Ok ()) max_budget budget_name true r w = Done o w' →
  o = Ok () ∧ queue_ok cfg w' ∧
  ∀ ty id, (SpendUpdateQueue.owed ty id (spend_update_queue w') ==
            SpendUpdateQueue.owed ty id (spend_update_queue w) +
            bill (or_zero (response_cost r)) (charged_entities max_budget budget_name r) ty id)%Q.
Proof.
  intros Ht. destruct (tags_of (request_tags r)) as [l|] eqn:Et; [|done]. clear Ht.
  destruct (daily_helpers_quiet (payload_copy r) (org_id r)) as (H1 & H2 & H3 & H4 & H5 & H6).
  assert (Hb : bills cfg (or_zero (response_cost r)) (charged_entities max_budget budget_name r)
                 (_batch_database_updates cfg (Ok ()) max_budget budget_name true r)).
  { unfold _batch_database_updates, charged_entities. rewrite !(app_assoc (when (user_id r) _)), (app_assoc _ _ (when (hashed_token r) _ ++ _)).
    rewrite <- (app_assoc (when (user_id r) _)).
    apply bills_bind; [apply bills_try, bills_user_db|].
    apply bills_bind; [apply bills_try, bills_try, bills_when; intros; apply bills_enqueue|].
    rewrite (app_assoc (when (team_id r) _)).
    apply bills_bind; [apply bills_try, bills_team_db|].
    apply bills_bind; [apply bills_try, bills_try, bills_when; intros; apply bills_enqueue|].
    apply bills_bind; [apply bills_try; by eapply bills_tag_db|].
    rewrite <- (app_nil_r (when (opt_str _) _)).
    apply bills_bind; [apply bills_try, bills_try, bills_when; intros; apply bills_enqueue|].
    do 5 (apply (bills_bind cfg _ [] []); [by apply quiet_guarded|]). by apply quiet_guarded. }
  intros Hq E. exact (Hb _ _ _ Hq E).
Qed.
End theorems.

(** A request of a user in a team, with a tag twice. *)
Definition ex_request : request :=
  mkRequest (Some 3%Q) (Some "ann") (Some "k") (Some "red") None None [] (PList [PStr "a"; PStr "b"; PStr "a"]).

Lemma request_charged_witness :
  ∃ w', @_batch_database_updates toy_runtime default_config (Ok ()) 0 None true ex_request init = Done (Ok ()) w' ∧
    (SpendUpdateQueue.owed TAG "a" (spend_update_queue w') ==
     0 + bill 3 (@charged_entities toy_runtime 0 None ex_request) TAG "a")%Q.
Proof.
  eexists. split; [reflexivity|].
  eapply (@request_charged toy_runtime default_config 0 None ex_request init (Ok ())); [reflexivity| |reflexivity].
  split; [|constructor]. unfold SpendUpdateQueue.bounded, qsize. cbn. lia.
Defined.

(** ** Daily records *)

Section daily.
Context `{PyRuntime} (cfg : config).
Import DailySpendUpdateQueue (metrics, optional_metrics, all_metrics, metered, metric, key_total, queue_total, queue_metered, bounded, daily_spend_conserved, num_or_zero).

(** Token counts and spend are numbers, the cache counts of the usage object numbers or [None]. *)
Definition accountable (payload : dict) : Prop :=
  (∀ f v, f ∈ ["prompt_tokens"; "completion_tokens"; "spend"] → dget f payload = Some v → is_number v) ∧
  (∀ d f v, usage_object payload = Ok (PDict d) → f ∈ optional_metrics → dget f d = Some v → is_number v ∨ v = PNone).

Lemma or_zero_number v : is_number v ∨ v = PNone → is_number (py_or v (PInt 0)).
Proof. intros [Hv| ->]; [by apply num_or_zero|by eexists]. Qed.

Lemma base_transaction_spec payload date status usage_obj base :
  accountable payload → usage_object payload = Ok usage_obj →
  base_transaction payload date status usage_obj = Ok base →
  metered base ∧ metric "api_requests" base = 1%Q ∧
  (metric "successful_requests" base + metric "failed_requests" base == 1)%Q ∧
  ∀ f, f ∈ ["prompt_tokens"; "completion_tokens"; "spend"] → metric f base = metric f payload.
Proof.
  intros [Hn Hu] Eu E. unfold base_transaction, index, mbind, res_bind in E.
  destruct (endpoint_of _) as [ep|]; [|done]. destruct (dget "api_key" payload) as [ak|]; [|done].
  destruct (dget "prompt_tokens" payload) as [pt|] eqn:Ept; [|done].
  destruct (dget "completion_tokens" payload) as [ct|] eqn:Ect; [|done].
  destruct (dget "spend" payload) as [sp|] eqn:Esp; [|done].
  destruct usage_obj as [| | | | | | | |d|]; try done. cbn [py_get_or] in E. injection E as <-.
  assert (Hcache : ∀ f, f ∈ optional_metrics → is_number (py_or (default (PInt 0) (dget f d)) (PInt 0))).
  { intros f Hf. apply or_zero_number. destruct (dget f d) as [v|] eqn:Ev; [eauto|left; by eexists]. }
  assert (Hb : ∀ b, is_number (b2v b)) by (intros b; by eexists).
  split_and!.
  - split.
    + intros f Hf. unfold metrics in Hf. repeat (apply elem_of_cons in Hf as [->|Hf]; [eexists; split; [reflexivity|]|]);
        [eapply Hn; [|done]; set_solver|eapply Hn; [|done]; set_solver|eapply Hn; [|done]; set_solver|by eexists|done..|by apply elem_of_nil in Hf].
    + intros f v Hf. pose proof (Hcache f Hf) as Hc. unfold optional_metrics in Hf.
      repeat (apply elem_of_cons in Hf as [->|Hf]; [intros [= <-]; exact Hc|]). by apply elem_of_nil in Hf.
  - done.
  - by destruct (String.eqb status "success").
  - intros f Hf. unfold metric.
    repeat (apply elem_of_cons in Hf as [->|Hf]; [by rewrite ?Ept, ?Ect, ?Esp|]). by apply elem_of_nil in Hf.
Qed.

(** The record of an accepted payload: metered, one request, the spend of the payload. *)
Lemma common_spec payload type base :
  accountable payload → _common_add_spend_log_transaction_to_daily_transaction payload type = Ok (Some base) →
  metered base ∧ metric "api_requests" base = 1%Q ∧
  (metric "successful_requests" base + metric "failed_requests" base == 1)%Q ∧
  ∀ f, f ∈ ["prompt_tokens"; "completion_tokens"; "spend"] → metric f base = metric f payload.
Proof.
  intros Ha E. unfold _common_add_spend_log_transaction_to_daily_transaction, mbind, res_bind in E.
  destruct (expected_keys type); [|done]. destruct (negb _); [done|]. destruct (negb _); [done|].
  destruct (usage_object payload) as [u|] eqn:Eu; [|done]. destruct (index payload "startTime") as [st|]; [|done].
  destruct st; try done. unfold fmap, res_fmap in E.
  destruct (base_transaction _ _ _ _) as [b|] eqn:Eb; [|done]. injection E as <-.
  exact (base_transaction_spec _ _ _ _ _ Ha Eu Eb).
Qed.

Definition daily_ok (k : daily_kind) (w : t) : Prop :=
  bounded cfg (daily_queue k w) ∧ queue_metered (daily_queue k w).

Lemma daily_queue_set k q w : daily_queue k (set_daily k q w) = q.
Proof. by destruct k. Qed.

Lemma daily_queue_set_ne k k' q w : k ≠ k' → daily_queue k' (set_daily k q w) = daily_queue k' w.
Proof. by destruct k, k'. Qed.

(** The names of the entity columns. *)
Definition entity_fields : list string := ["user_id"; "team_id"; "end_user_id"; "agent_id"; "organization_id"; "tag"].

Lemma metric_tagged f0 v f d : f0 ∈ entity_fields → f ∈ all_metrics → metric f ((f0, v) :: d) = metric f d.
Proof.
  intros Hf0 Hf. unfold metric. cbn [dget]. destruct (String.eqb_spec f f0) as [->|]; [|done].
  exfalso. revert Hf0 Hf. unfold entity_fields, all_metrics, metrics, optional_metrics. cbn. set_solver.
Qed.

Lemma metered_tagged f0 v d : f0 ∈ entity_fields → metered d → metered ((f0, v) :: d).
Proof.
  intros Hf0 [H1 H2]. assert (∀ f, f ∈ all_metrics → String.eqb f f0 = false) as Hne.
  { intros f Hf. apply String.eqb_neq. intros ->. revert Hf0 Hf.
    unfold entity_fields, all_metrics, metrics, optional_metrics. cbn. set_solver. }
  split; intros f; cbn [dget].
  - intros Hf. rewrite Hne by (apply elem_of_app; by left). by apply H1.
  - intros x Hf. rewrite Hne by (apply elem_of_app; by right). by apply H2.
Qed.

(** The usage record of a request lands in the daily queue of its table under its key: the
    totals of that key grow by one request, its tokens and its spend, and nothing else
    changes. *)
Theorem daily_record_counted payload type base k key f0 v w r w' :
  accountable payload → _common_add_spend_log_transaction_to_daily_transaction payload type = Ok (Some base) →
  f0 ∈ entity_fields → 0 < MAX_IN_MEMORY_QUEUE_FLUSH_COUNT cfg → daily_ok k w →
  add_daily cfg k key ((f0, v) :: base) w = Done r w' →
  r = Ok () ∧ daily_ok k w' ∧ (∀ k', k' ≠ k → daily_queue k' w' = daily_queue k' w) ∧
  (∀ key' f, f ∈ all_metrics →
     (queue_total f key' (daily_queue k w') ==
      queue_total f key' (daily_queue k w) + if String.eqb key' key then metric f base else 0)%Q) ∧
  metric "api_requests" base = 1%Q ∧ metric "spend" base = metric "spend" payload.
Proof.
  intros Ha Ec Hf0 Hfl [Hb Hm] E. destruct (common_spec _ _ _ Ha Ec) as (Hmet & Hone & _ & Hsame).
  unfold add_daily, on_daily, w_zoom in E.
  destruct (daily_spend_conserved cfg [(key, (f0, v) :: base)] (daily_queue k w) Hfl Hb Hm) as [[_ Ew]|(q' & Ed & Hb' & Hm' & Ht & _)].
  { constructor; [|constructor]. by apply metered_tagged. }
  { by rewrite Ew in E. }
  rewrite Ed in E. injection E as <- <-. split_and!.
  - done.
  - unfold daily_ok. by rewrite daily_queue_set.
  - intros k' Hk. by apply daily_queue_set_ne.
  - intros key' f Hf. rewrite daily_queue_set, Ht by done. cbn [key_total].
    rewrite metric_tagged by done. ring.
  - done.
  - apply Hsame. set_solver.
Qed.
End daily.

(** *** Keys that do not separate *)

Definition ex_payload (model provider tool : string) : dict :=
  [("user", PStr "u"); ("startTime", PStr "2025-01-01T00:00:00"); ("api_key", PStr "k"); ("model", PStr model);
   ("custom_llm_provider", PStr provider); ("model_group", PStr "g"); ("mcp_namespaced_tool_name", PStr tool);
   ("prompt_tokens", PInt 1); ("completion_tokens", PInt 1); ("spend", PFloat 1); ("metadata", PStr "{}")].

(** The row a record belongs to in the daily table: its unique columns. *)
Definition unique_columns (base : dict) : list pyval :=
  get base <$> ["date"; "api_key"; "model"; "custom_llm_provider"; "mcp_namespaced_tool_name"; "endpoint"].

Definition key_and_row `{PyRuntime} (payload : dict) : option (string * list pyval) :=
  match _common_add_spend_log_transaction_to_daily_transaction payload "user" with
  | Ok (Some base) =>
      match daily_transaction_key (get payload "user") base payload with
      | Ok key => Some (key, unique_columns base)
      | Raise _ => None
      end
  | _ => None
  end.

(** Records of different rows share a key, and the aggregation adds one to the other: the
    key leaves out the tool, and joins model and provider without escaping. *)
Theorem daily_keys_collide (H : PyRuntime) :
  json_loads "{}" = Some (PDict []) →
  (∃ key r1 r2, key_and_row (ex_payload "m" "p" "tool_a") = Some (key, r1) ∧
                key_and_row (ex_payload "m" "p" "tool_b") = Some (key, r2) ∧ r1 ≠ r2) ∧
  (∃ key r1 r2, key_and_row (ex_payload "m_x" "p" "t") = Some (key, r1) ∧
                key_and_row (ex_payload "m" "x_p" "t") = Some (key, r2) ∧ r1 ≠ r2).
Proof.
  intros Hj. split; do 3 eexists; unfold key_and_row, _common_add_spend_log_transaction_to_daily_transaction,
    get_request_status, usage_object, loads; cbn -[ROUTE_ENDPOINT_MAPPING]; rewrite ?Hj; cbn; by split_and!.
Qed.

Definition json_runtime : PyRuntime := {|
  json_loads := λ s, if String.eqb s "{}" then Some (PDict []) else None;
  json_dumps := λ _, None; literal_eval := λ _, None; obj_sizeof := λ _, 0;
  float_str := λ _, ""; container_str := λ _, "" |}.

Lemma daily_keys_collide_witness :
  ∃ key r1 r2, @key_and_row json_runtime (ex_payload "m" "p" "tool_a") = Some (key, r1) ∧
               @key_and_row json_runtime (ex_payload "m" "p" "tool_b") = Some (key, r2) ∧ r1 ≠ r2.
Proof. exact (proj1 (daily_keys_collide json_runtime eq_refl)). Defined.
End DBSpendUpdateWriter.
