(* ===== verification/SpendCommit.v ===== *)
(** * SpendCommit: the commits of [proxy/db/db_spend_update_writer.py]

    The job that moves queued spend into the database.  Prisma and the database are the
    class [Prisma]: a batch of updates in a transaction may raise at any time, and
    [PrismaLaws] states what is documented, that a committed batch applies its operations
    in order, and [WholeBatches] that a batch that raises has been applied whole or not
    at all: it is a transaction, but its reply can be lost after it was committed.  The pauses between attempts, the texts
    logged and the failure events are left out; a key commit takes the time it writes to
    [last_active] as an argument.

    Theorems: a commit that returns adds to every row the spend of its entity, once for
    every batch that was committed without its reply arriving and once more; it is
    exactly once when no reply is lost.  Team members are written to the rows of their
    team and user as long as the ids do not contain the separator.  A daily commit writes at most one hundred rows and
    forgets the rest. *)

From stdpp Require Import base gmap sets list strings.
From Stdlib Require Import ZArith QArith Lqa Lia ZifyBool Ascii.
From S2P Require Import Prelude Heapq PyHeapq PyStr InMemoryCache RedisCache DualCache SpendQueue SpendWriter.

#[local] Open Scope Z_scope.

(** ** The database *)

(** The value of a column in an update: [{"increment": v}], or [v] itself. *)
Inductive column_update := Increment (v : pyval) | SetTo (v : pyval).

(** The calls queued on a batcher. *)
Inductive db_op : Type :=
| UpdateMany (table : string) (where_ : list (string * pyval)) (data : list (string * column_update))
| Upsert (table : string) (where_ create : list (string * pyval)) (update : list (string * column_update)).

(** [db_tx]: the batch in a transaction, [db_batch]: without one; [cell]: a numeric column
    of the row with the given unique columns, [None] when there is no such row. *)
Class Prisma (D : Type) := {
  db_tx : list db_op → M D unit;
  db_batch : list db_op → M D unit;
  cell : D → string → list (string * pyval) → string → option Q
}.

(** What an operation does to a cell. *)
Definition same_row (table : string) (w : list (string * pyval)) (table' : string) (w' : list (string * pyval)) : bool :=
  String.eqb table table' && py_eqb (PDict w) (PDict w').

Definition apply_update (f : string) (data : list (string * column_update)) (q : Q) : Q :=
  match dget f data with
  | Some (Increment v) => (q + num v)%Q
  | Some (SetTo v) => num v
  | None => q
  end.

Definition apply_op (table : string) (w : list (string * pyval)) (f : string) (c : option Q) (op : db_op) : option Q :=
  match op with
  | UpdateMany table' w' data => if same_row table w table' w' then apply_update f data <$> c else c
  | Upsert table' w' create update =>
      if same_row table w table' w' then
        Some match c with
             | Some q => apply_update f update q
             | None => num (default PNone (dget f create))
             end
      else c
  end.

Definition apply_ops (table : string) (w : list (string * pyval)) (f : string) (c : option Q) (ops : list db_op) : option Q :=
  foldl (apply_op table w f) c ops.

(** Numbers of a column are compared by value. *)
Definition same_cell : option Q → option Q → Prop := option_Forall2 Qeq.

Class PrismaLaws (D : Type) `{Prisma D} := {
  tx_commits ops (d d' : D) : db_tx ops d = (Ok (), d') →
    ∀ table w f, same_cell (cell d' table w f) (apply_ops table w f (cell d table w f) ops);
  batch_commits ops (d d' : D) : db_batch ops d = (Ok (), d') →
    ∀ table w f, same_cell (cell d' table w f) (apply_ops table w f (cell d table w f) ops)
}.

(** The cells are as before, or as the operations leave them. *)
Definition untouched {D} `{Prisma D} (d d' : D) : Prop := ∀ table w f, cell d' table w f = cell d table w f.
Definition applied {D} `{Prisma D} (ops : list db_op) (d d' : D) : Prop :=
  ∀ table w f, same_cell (cell d' table w f) (apply_ops table w f (cell d table w f) ops).

(** A batch is a transaction.  One that raises has been rolled back, or it was committed
    and the reply got lost. *)
Class WholeBatches (D : Type) `{Prisma D} := {
  tx_whole ops (d d' : D) e : db_tx ops d = (Raise e, d') → untouched d d' ∨ applied ops d d';
  batch_whole ops (d d' : D) e : db_batch ops d = (Raise e, d') → untouched d d' ∨ applied ops d d'
}.

(** No reply is lost: what raises was rolled back. *)
Definition replies_kept (D : Type) `{Prisma D} : Prop :=
  ∀ ops (d d' : D) e, db_tx ops d = (Raise e, d') ∨ db_batch ops d = (Raise e, d') → untouched d d'.

Module SpendCommit.
#[local] Abbreviation dict := (list (string * pyval)).
#[local] Abbreviation spend_dict := (list (string * Q)).

Section ops.
Context {D : Type} `{Prisma D}.

(** [for i in range(n_retry_times + 1)]: a connection error is retried until the last
    attempt, any other error is raised at once. *)
Fixpoint retry_loop (attempt : M D unit) (n_retry_times : Z) (iterations : list Z) : M D unit :=
  match iterations with
  | [] => mret ()
  | i :: rest => λ d,
      match attempt d with
      | (Ok (), d') => (Ok (), d')
      | (Raise DBConnectionError, d') =>
          if n_retry_times <=? i then (Raise DBConnectionError, d') else retry_loop attempt n_retry_times rest d'
      | (Raise e, d') => (Raise e, d')
      end
  end.

Definition with_retries (n_retry_times : Z) (attempt : M D unit) : M D unit :=
  retry_loop attempt n_retry_times (seqZ 0 (n_retry_times + 1)).

(** [update_many(where={field: id}, data={"spend": {"increment": c}})]. *)
Definition increment_spend (table : string) (w : dict) (c : Q) : db_op :=
  UpdateMany table w [("spend", Increment (PFloat c))].

(** [transactions is not None and len(transactions.keys()) > 0]. *)
Definition if_any (transactions : option spend_dict) (m : spend_dict → M D unit) : M D unit :=
  match transactions with Some ((_ :: _) as l) => m l | _ => mret () end.

Definition _update_entity_spend_in_db (transactions : option spend_dict) (table_accessor where_field : string)
    (n_retry_times : Z) : M D unit :=
  if_any transactions (λ l,
    with_retries n_retry_times
      (db_tx ((λ x : string * Q, increment_spend table_accessor [(where_field, PStr x.1)] x.2) <$> l))).

(** The blocks of [_commit_spend_updates_to_db]. *)
Definition update_user_table (n_retry_times : Z) (transactions : option spend_dict) : M D unit :=
  if_any transactions (λ l,
    with_retries n_retry_times
      (db_tx ((λ x : string * Q, increment_spend "litellm_usertable" [("user_id", PStr x.1)] x.2) <$> l))).

(** [ProxyUpdateSpend.update_end_user_spend]. *)
Definition update_end_user_spend (n_retry_times : Z) (l : spend_dict) : M D unit :=
  with_retries n_retry_times
    (db_tx ((λ x : string * Q,
       Upsert "litellm_endusertable" [("user_id", PStr x.1)]
         [("user_id", PStr x.1); ("spend", PFloat x.2); ("blocked", PBool false)]
         [("spend", Increment (PFloat x.2))]) <$> l)).

Definition update_key_table (now : pyval) (n_retry_times : Z) (transactions : option spend_dict) : M D unit :=
  if_any transactions (λ l,
    with_retries n_retry_times
      (db_tx ((λ x : string * Q,
         UpdateMany "litellm_verificationtoken" [("token", PStr x.1)]
           [("spend", Increment (PFloat x.2)); ("last_active", SetTo now)]) <$> l))).

Definition update_team_table (n_retry_times : Z) (transactions : option spend_dict) : M D unit :=
  if_any transactions (λ l,
    with_retries n_retry_times
      (db_tx ((λ x : string * Q, increment_spend "litellm_teamtable" [("team_id", PStr x.1)] x.2) <$> l))).

Definition update_org_table (n_retry_times : Z) (transactions : option spend_dict) : M D unit :=
  if_any transactions (λ l,
    with_retries n_retry_times
      (db_tx ((λ x : string * Q,
         increment_spend "litellm_organizationtable" [("organization_id", PStr x.1)] x.2) <$> l))).
End ops.

(** [key.split("::")]. *)
Fixpoint split_colons (s : string) : list string :=
  match s with
  | EmptyString => [""]
  | String a s' =>
      let rest := match split_colons s' with [] => [String a ""] | x :: l => String a x :: l end in
      match s' with
      | String b s'' => if Ascii.eqb a ":" && Ascii.eqb b ":" then "" :: split_colons s'' else rest
      | EmptyString => rest
      end
  end.

(** [key.split("::")[1]] and [key.split("::")[3]]. *)
Definition team_and_user (key : string) : res (string * string) :=
  match split_colons key !! 1%nat, split_colons key !! 3%nat with
  | Some team_id, Some user_id => Ok (team_id, user_id)
  | _, _ => Raise IndexError
  end.

Fixpoint res_map {A B} (f : A → res B) (l : list A) : res (list B) :=
  match l with
  | [] => Ok []
  | x :: l' => y ← f x; ys ← res_map f l'; Ok (y :: ys)
  end.

(** *** The whole commit *)

Record world (D R : Type) := mkWorld { db : D; user_api_key_cache : option (DualCache.t R) }.
Arguments mkWorld {D R}. Arguments db {D R}. Arguments user_api_key_cache {D R}.

Section commit.
Context {D : Type} `{Prisma D} {R : Type} `{PyRuntime} `{RedisCacheI R}.

Definition on_db {A} (m : M D A) : M (world D R) A := m_zoom db (λ d w, mkWorld d (user_api_key_cache w)) m.

(** [user_api_key_cache.async_delete_cache(key)] for every membership, when the proxy has the cache. *)
Definition invalidate_memberships (now : Z) (team_memberships_to_invalidate : list (string * string)) : M (world D R) unit :=
  m_iter (λ ut : string * string, λ w,
    match user_api_key_cache w with
    | None => (Ok (), w)
    | Some c =>
        let cache_key := "team_membership:" +:+ ut.1 +:+ ":" +:+ ut.2 in
        let '(r, c') := DualCache.async_delete_cache now cache_key c in (r, mkWorld (db w) (Some c'))
    end) team_memberships_to_invalidate.

Definition member_op (x : string * Q) : res db_op :=
  tu ← team_and_user x.1;
  Ok (increment_spend "litellm_teammembership" [("team_id", PStr tu.1); ("user_id", PStr tu.2)] x.2).

Definition update_team_member_table (now : Z) (n_retry_times : Z) (transactions : option spend_dict) : M (world D R) unit :=
  match transactions with
  | Some ((_ :: _) as l) =>
      to_invalidate ← m_lift (res_map (λ x : string * Q, tu ← team_and_user x.1; Ok (tu.2, tu.1)) l);
      on_db (with_retries n_retry_times (ops ← m_lift (res_map member_op l); db_tx ops)) ;;
      invalidate_memberships now to_invalidate
  | _ => mret ()
  end.

(** [db_spend_update_transactions[field]]. *)
Definition field (t : DBSpendUpdateTransactions) (f : string) : M (world D R) (option spend_dict) :=
  m_lift match dget f t with Some o => Ok o | None => Raise KeyError end.

Definition _commit_spend_updates_to_db (now : Z) (last_active : pyval) (n_retry_times : Z)
    (t : DBSpendUpdateTransactions) : M (world D R) unit :=
  user_list_transactions ← field t "user_list_transactions";
  on_db (update_user_table n_retry_times user_list_transactions) ;;
  end_user_list_transactions ← field t "end_user_list_transactions";
  on_db (if_any end_user_list_transactions (update_end_user_spend n_retry_times)) ;;
  key_list_transactions ← field t "key_list_transactions";
  on_db (update_key_table last_active n_retry_times key_list_transactions) ;;
  team_list_transactions ← field t "team_list_transactions";
  on_db (update_team_table n_retry_times team_list_transactions) ;;
  team_member_list_transactions ← field t "team_member_list_transactions";
  update_team_member_table now n_retry_times team_member_list_transactions ;;
  org_list_transactions ← field t "org_list_transactions";
  on_db (update_org_table n_retry_times org_list_transactions) ;;
  tag_list_transactions ← field t "tag_list_transactions";
  on_db (_update_entity_spend_in_db tag_list_transactions "litellm_tagtable" "tag_name" n_retry_times) ;;
  agent_list_transactions ← field t "agent_list_transactions";
  on_db (_update_entity_spend_in_db agent_list_transactions "litellm_agentstable" "agent_id" n_retry_times).
End commit.

(** *** Daily spend *)

Section daily.
Context {D : Type} `{Prisma D}.

Definition index (d : dict) (k : string) : res pyval :=
  match dget k d with Some v => Ok v | None => Raise KeyError end.
Definition get (d : dict) (k : string) : pyval := default PNone (dget k d).
Definition or_empty (v : pyval) : pyval := py_or v (PStr "").

Definition BATCH_SIZE : nat := 100.

(** The sort key of a transaction. *)
Definition sort_key (entity_id_field : string) (x : string * dict) : pyval :=
  PTuple ((λ f, or_empty (get x.2 f)) <$> ["date"; entity_id_field; "api_key"; "model"; "custom_llm_provider"]).

(** [sorted(items, key=...)]: stable. *)
Fixpoint insert_by (key : string * dict → pyval) (x : string * dict) (l : list (string * dict))
    : res (list (string * dict)) :=
  match l with
  | [] => Ok [x]
  | y :: l' =>
      lt ← py_lt (key y) (key x);
      if lt : bool then l'' ← insert_by key x l'; Ok (y :: l'') else Ok (x :: y :: l')
  end.
Fixpoint sorted_items (key : string * dict → pyval) (l : list (string * dict)) : res (list (string * dict)) :=
  match l with
  | [] => Ok []
  | x :: l' => l'' ← sorted_items key l'; insert_by key x l''
  end.

(** The where clause: the entity and the other columns of the unique constraint. *)
Definition where_clause (entity_id_field : string) (tx : dict) : res dict :=
  date ← index tx "date";
  api_key ← index tx "api_key";
  model ← index tx "model";
  Ok [(entity_id_field, get tx entity_id_field); ("date", date); ("api_key", api_key); ("model", model);
      ("custom_llm_provider", or_empty (get tx "custom_llm_provider"));
      ("mcp_namespaced_tool_name", or_empty (get tx "mcp_namespaced_tool_name"));
      ("endpoint", or_empty (get tx "endpoint"))].

Definition optional_entries {A} (f : pyval → A) (tx : dict) (keys : list string) : list (string * A) :=
  mjoin ((λ k, match dget k tx with Some v => [(k, f v)] | None => [] end) <$> keys).

Definition cache_columns : list string := ["cache_read_input_tokens"; "cache_creation_input_tokens"].

(** [if entity_type == "tag" and "request_id" in transaction]. *)
Definition request_id_key (entity_type : string) : list string :=
  if String.eqb entity_type "tag" then ["request_id"] else [].

Definition common_data (entity_type entity_id_field : string) (tx : dict) : res dict :=
  date ← index tx "date";
  api_key ← index tx "api_key";
  prompt_tokens ← index tx "prompt_tokens";
  completion_tokens ← index tx "completion_tokens";
  spend ← index tx "spend";
  api_requests ← index tx "api_requests";
  successful_requests ← index tx "successful_requests";
  failed_requests ← index tx "failed_requests";
  Ok ([(entity_id_field, get tx entity_id_field); ("date", date); ("api_key", api_key);
       ("model", get tx "model"); ("model_group", get tx "model_group");
       ("mcp_namespaced_tool_name", or_empty (get tx "mcp_namespaced_tool_name"));
       ("custom_llm_provider", get tx "custom_llm_provider"); ("endpoint", or_empty (get tx "endpoint"));
       ("prompt_tokens", prompt_tokens); ("completion_tokens", completion_tokens); ("spend", spend);
       ("api_requests", api_requests); ("successful_requests", successful_requests);
       ("failed_requests", failed_requests)] ++
      optional_entries id tx (cache_columns ++ request_id_key entity_type)).

Definition update_data (entity_type : string) (tx : dict) : res (list (string * column_update)) :=
  prompt_tokens ← index tx "prompt_tokens";
  completion_tokens ← index tx "completion_tokens";
  spend ← index tx "spend";
  api_requests ← index tx "api_requests";
  successful_requests ← index tx "successful_requests";
  failed_requests ← index tx "failed_requests";
  Ok ([("prompt_tokens", Increment prompt_tokens); ("completion_tokens", Increment completion_tokens);
       ("spend", Increment spend); ("api_requests", Increment api_requests);
       ("successful_requests", Increment successful_requests); ("failed_requests", Increment failed_requests)] ++
      optional_entries Increment tx cache_columns ++
      optional_entries SetTo tx (request_id_key entity_type) ++
      [("endpoint", SetTo (or_empty (get tx "endpoint")))]).

Definition daily_op (entity_type entity_id_field table_name : string) (x : string * dict) : res db_op :=
  w ← where_clause entity_id_field x.2;
  create ← common_data entity_type entity_id_field x.2;
  update ← update_data entity_type x.2;
  Ok (Upsert table_name w create update).

(** One attempt: the first hundred transactions in the order of their keys, which leave
    the dict when they have been written. *)
Definition daily_attempt (entity_type entity_id_field table_name : string) : M (D * list (string * dict)) unit := λ s,
  match sorted_items (sort_key entity_id_field) s.2 with
  | Raise e => (Raise e, s)
  | Ok l =>
      let transactions_to_process := take BATCH_SIZE l in
      match transactions_to_process with
      | [] => (Ok (), s)
      | _ =>
          match res_map (daily_op entity_type entity_id_field table_name) transactions_to_process with
          | Raise e => (Raise e, s)
          | Ok ops =>
              let '(r, d) := db_batch ops s.1 in
              (r, (d, match r with
                      | Ok _ => foldr (λ x rest, ddel x.1 rest) s.2 transactions_to_process
                      | Raise _ => s.2
                      end))
          end
      end
  end.

Fixpoint daily_loop (attempt : M (D * list (string * dict)) unit) (n_retry_times : Z) (iterations : list Z)
    : M (D * list (string * dict)) unit :=
  match iterations with
  | [] => mret ()
  | i :: rest => λ s,
      match attempt s with
      | (Ok (), s') => (Ok (), s')
      | (Raise DBConnectionError, s') =>
          if n_retry_times <=? i then (Raise DBConnectionError, s') else daily_loop attempt n_retry_times rest s'
      | (Raise e, s') => (Raise e, s')
      end
  end.

(** The handler around the loop forgets the transactions of the last attempt; when the
    sort itself raised there are none. *)
Definition _update_daily_spend (n_retry_times : Z) (entity_type entity_id_field table_name : string)
    : M (D * list (string * dict)) unit :=
  m_try (daily_loop (daily_attempt entity_type entity_id_field table_name) n_retry_times (seqZ 0 (n_retry_times + 1)))
    (λ e s,
       (Raise e, (s.1, match sorted_items (sort_key entity_id_field) s.2 with
                       | Ok l => foldr (λ x rest, ddel x.1 rest) s.2 (take BATCH_SIZE l)
                       | Raise _ => s.2
                       end))).

Definition update_daily_user_spend (n : Z) := _update_daily_spend n "user" "user_id" "litellm_dailyuserspend".
Definition update_daily_team_spend (n : Z) := _update_daily_spend n "team" "team_id" "litellm_dailyteamspend".
Definition update_daily_org_spend (n : Z) := _update_daily_spend n "org" "organization_id" "litellm_dailyorganizationspend".
Definition update_daily_end_user_spend (n : Z) := _update_daily_spend n "end_user" "end_user_id" "litellm_dailyenduserspend".
Definition update_daily_agent_spend (n : Z) := _update_daily_spend n "agent" "agent_id" "litellm_dailyagentspend".
Definition update_daily_tag_spend (n : Z) := _update_daily_spend n "tag" "tag" "litellm_dailytagspend".
End daily.

(** ** What a commit applies *)

#[export] Instance same_cell_equivalence : Equivalence same_cell.
Proof. unfold same_cell. apply _. Qed.

#[export] Instance apply_update_proper f data : Proper (Qeq ==> Qeq) (apply_update f data).
Proof. intros q q' Hq. unfold apply_update. destruct (dget f data) as [[v|v]|]; [by rewrite Hq|done..]. Qed.

#[export] Instance apply_op_proper table w f : Proper (same_cell ==> eq ==> same_cell) (apply_op table w f).
Proof.
  intros c c' Hc op ? <-. destruct op as [tb w' data|tb w' cr up]; cbn [apply_op]; destruct (same_row _ _ _ _); [|done| |done].
  - destruct Hc as [q q' Hq|]; cbn; constructor. by rewrite Hq.
  - constructor. destruct Hc as [q q' Hq|]; [by rewrite Hq|done].
Qed.

#[export] Instance apply_ops_proper table w f : Proper (same_cell ==> eq ==> same_cell) (apply_ops table w f).
Proof.
  intros c c' Hc ops ? <-. unfold apply_ops. revert c c' Hc. induction ops as [|op ops IH]; intros c c' Hc; cbn [foldl]; [done|].
  apply IH. by rewrite Hc.
Qed.

Lemma apply_ops_app table w f c ops ops' :
  apply_ops table w f c (ops ++ ops') = apply_ops table w f (apply_ops table w f c ops) ops'.
Proof. apply foldl_app. Qed.

Definition op_table (op : db_op) : string := match op with UpdateMany tb _ _ | Upsert tb _ _ _ => tb end.

(** Operations on other tables do not touch a row. *)
Lemma apply_ops_other table w f c ops :
  Forall (λ op, op_table op ≠ table) ops → apply_ops table w f c ops = c.
Proof.
  unfold apply_ops. intros Ho. revert c. induction Ho as [|op ops Hop Ho IH]; intros c; cbn [foldl]; [done|].
  rewrite IH. destruct op as [tb w' data|tb w' cr up]; cbn in *; unfold same_row;
    by rewrite (proj2 (String.eqb_neq table tb)) by congruence.
Qed.

(** A batch that was committed [k] times. *)
Definition times (k : nat) (ops : list db_op) : list db_op := mjoin (replicate k ops).

Lemma apply_times table w f c k ops :
  apply_ops table w f c (times k ops) = Nat.iter k (λ c, apply_ops table w f c ops) c.
Proof.
  revert c. induction k as [|k IH]; intros c; [done|]. unfold times in *. cbn [replicate mjoin list_join].
  rewrite apply_ops_app, IH. by rewrite Nat.iter_succ_r.
Qed.

Lemma times_all (P : db_op → Prop) k ops : Forall P ops → Forall P (times k ops).
Proof. intros Hp. induction k as [|k IH]; [constructor|]. unfold times in *. cbn. by apply Forall_app. Qed.

Section facts.
Context {D : Type} `{PrismaLaws D} `{!WholeBatches D}.

Lemma applied_nil (d d' : D) : untouched d d' → applied [] d d'.
Proof. intros E table w f. by rewrite E. Qed.

Lemma applied_refl (d : D) : applied [] d d.
Proof. by apply applied_nil. Qed.

Lemma applied_app ops ops' (d d1 d2 : D) : applied ops d d1 → applied ops' d1 d2 → applied (ops ++ ops') d d2.
Proof. intros H1 H2 table w f. rewrite (H2 table w f), (H1 table w f), apply_ops_app. done. Qed.

(** [kept]: whether replies are known not to be lost.  How often a batch can be
    committed by [n] retries. *)
Definition at_most (kept : bool) (n : Z) : nat := if kept then 1 else Z.to_nat (n + 1).

(** A failed attempt, counted. *)
Lemma tx_failed (kept : bool) ops (d d' : D) e :
  (kept = true → replies_kept D) → db_tx ops d = (Raise e, d') →
  ∃ k, applied (times k ops) d d' ∧ (k ≤ if kept then 0 else 1)%nat.
Proof.
  intros Hk E. destruct kept.
  - exists 0%nat. split; [|done]. apply applied_nil. eapply (Hk eq_refl). eauto.
  - destruct (tx_whole ops d d' e E) as [Hu|Ha].
    + exists 0%nat. split; [by apply applied_nil|lia].
    + exists 1%nat. split; [|lia]. unfold times. cbn. by rewrite app_nil_r.
Qed.

(** A run that returns has applied the batch once, and once more for every failed attempt
    that had been committed. *)
Lemma retry_loop_applied (kept : bool) ops n its (d d' : D) r :
  (kept = true → replies_kept D) →
  its ≠ [] → (∀ i, last its = Some i → n <= i) → retry_loop (db_tx ops) n its d = (r, d') →
  ∃ k, applied (times k ops) d d' ∧ (k ≤ if kept then 1 else length its)%nat ∧ (is_ok r = true → (1 ≤ k)%nat).
Proof.
  intros Hk. revert d. induction its as [|i its IH]; intros d Hne Hlast; [done|]. cbn [retry_loop].
  destruct (db_tx ops d) as [[[]|e] d1] eqn:E.
  - intros [= <- <-]. exists 1%nat. split; [|by destruct kept; cbn; split; lia].
    intros table w f. unfold times. cbn. rewrite app_nil_r. by apply tx_commits.
  - destruct (tx_failed kept ops d d1 e Hk E) as (k0 & Ha0 & Hk0).
    assert (Hraise : (Raise e, d1) = (r, d') →
      ∃ k, applied (times k ops) d d' ∧ (k ≤ if kept then 1 else length (i :: its))%nat ∧ (is_ok r = true → (1 ≤ k)%nat)).
    { intros [= <- <-]. exists k0. split_and!; [done| |done]. destruct kept; cbn; lia. }
    destruct e; try exact Hraise. destruct (n <=? i) eqn:Ei; [exact Hraise|].
    destruct its as [|j its]; [specialize (Hlast i eq_refl); lia|].
    intros El. destruct (IH d1) as (k & Ha & Hle & Hok); [done|intros m Hm; by apply Hlast|exact El|].
    exists (k0 + k)%nat. split_and!; [|destruct kept; cbn in *; lia|intros Hr; specialize (Hok Hr); lia].
    unfold times in *. rewrite replicate_add, join_app. by eapply applied_app.
Qed.

Lemma with_retries_applied (kept : bool) ops n (d d' : D) r :
  (kept = true → replies_kept D) → 0 <= n → with_retries n (db_tx ops) d = (r, d') →
  ∃ k, applied (times k ops) d d' ∧ (k ≤ at_most kept n)%nat ∧ (is_ok r = true → (1 ≤ k)%nat).
Proof.
  intros Hk Hn E. unfold with_retries, at_most in *.
  replace (Z.to_nat (n + 1)) with (length (seqZ 0 (n + 1))) by apply length_seqZ.
  eapply retry_loop_applied; [done| |intros i Hi|exact E].
  - rewrite seqZ_cons by lia. done.
  - rewrite last_lookup, length_seqZ in Hi. apply lookup_seqZ in Hi. lia.
Qed.
End facts.

Section blocks.
Context {D : Type} `{PrismaLaws D} `{!WholeBatches D} {R : Type} `{PyRuntime} `{RedisCacheI R}.
Context (kept : bool) (Hkept : kept = true → replies_kept D) (n : Z) (Hn : 0 <= n).
#[local] Abbreviation world := (world D R).

(** A step commits a batch some number of times, at least once when it returns. *)
Definition writes (ops : list db_op) (m : M world unit) : Prop :=
  ∀ w r w', m w = (r, w') →
    ∃ k, applied (times k ops) (db w) (db w') ∧ (k ≤ at_most kept n)%nat ∧ (is_ok r = true → (1 ≤ k)%nat).

(** A step commits the batches in order, each some number of times. *)
Definition writes_in_order (batches : list (list db_op)) (m : M world unit) : Prop :=
  ∀ w r w', m w = (r, w') →
    ∃ ks, length ks = length batches ∧ applied (mjoin (zip_with times ks batches)) (db w) (db w') ∧
      Forall (λ k, (k ≤ at_most kept n)%nat) ks ∧ (is_ok r = true → Forall (λ k, (1 ≤ k)%nat) ks).

Lemma writes_one ops m : writes ops m → writes_in_order [ops] m.
Proof.
  intros Hm w r w' E. destruct (Hm _ _ _ E) as (k & Ha & Hle & Hok). exists [k]. cbn. rewrite app_nil_r.
  split_and!; [done|done|by repeat constructor|]. intros Hr. specialize (Hok Hr). by repeat constructor.
Qed.

Lemma no_more_batches batches : mjoin (zip_with times (replicate (length batches) 0%nat) batches) = [].
Proof. by induction batches. Qed.

Lemma writes_cons ops batches m m' :
  writes ops m → writes_in_order batches m' → writes_in_order (ops :: batches) (m ;; m').
Proof.
  intros Hm Hm' w r w' E. unfold mbind, M_bind in E. destruct (m w) as [[[]|e] w1] eqn:E1;
    destruct (Hm _ _ _ E1) as (k & Ha & Hle & Hok).
  - destruct (Hm' _ _ _ E) as (ks & Hlen & Hks & Hall & Hr). exists (k :: ks). cbn. split_and!; [by rewrite Hlen| |by constructor|].
    + exact (applied_app _ _ _ _ _ Ha Hks).
    + intros Hi. constructor; [by apply Hok|by apply Hr].
  - injection E as <- <-. exists (k :: replicate (length batches) 0%nat). cbn. rewrite no_more_batches, app_nil_r.
    split_and!; [by rewrite length_replicate|done| |done]. constructor; [done|]. apply Forall_replicate. lia.
Qed.

Lemma writes_field t f o batches m :
  dget f t = Some o → writes_in_order batches (m o) → writes_in_order batches (x ← field t f; m x).
Proof. intros Ef Hm w r w' E. unfold field, mbind, M_bind, m_lift in E. rewrite Ef in E. exact (Hm _ _ _ E). Qed.

Lemma writes_nothing (m : M world unit) : (∀ w, m w = (Ok (), w)) → writes [] m.
Proof.
  intros Hm w r w' E. rewrite Hm in E. injection E as <- <-. exists 1%nat. split_and!; [|unfold at_most; destruct kept; lia|lia].
  cbn. apply applied_refl.
Qed.

Lemma writes_table (mk : string * Q → db_op) tr :
  writes (mk <$> default [] tr) (on_db (if_any tr (λ l, with_retries n (db_tx (mk <$> l))))).
Proof.
  destruct tr as [[|x l]|]; [by apply writes_nothing; intros []| |by apply writes_nothing; intros []].
  intros w r w' E. unfold on_db, m_zoom in E.
  destruct (if_any _ _ (db w)) as [r1 d1] eqn:E1. injection E as <- <-.
  exact (with_retries_applied kept _ n _ _ _ Hkept Hn E1).
Qed.

(** The updates of the team memberships; keys that cannot be split give none. *)
Definition member_ops (tr : option spend_dict) : list db_op :=
  match res_map member_op (default [] tr) with Ok ops => ops | Raise _ => [] end.

Lemma member_ops_ok l tus :
  res_map (λ x : string * Q, tu ← team_and_user x.1; Ok (tu.2, tu.1)) l = Ok tus → ∃ ops, res_map member_op l = Ok ops.
Proof.
  revert tus. induction l as [|x l IH]; intros tus; cbn [res_map]; [eauto|].
  destruct (team_and_user x.1) as [tu|] eqn:Etu; [|done]. destruct (res_map _ l) as [tus'|] eqn:E; [|done].
  destruct (IH _ eq_refl) as [ops Eo]. unfold mbind, res_bind, member_op at 1. rewrite Etu, Eo. eauto.
Qed.

Lemma invalidate_db now l (w : world) : db (invalidate_memberships now l w).2 = db w.
Proof.
  revert w. induction l as [|ut l IH]; intros w; [done|]. unfold invalidate_memberships in *. cbn [m_iter].
  unfold mbind at 1, M_bind at 1. destruct (user_api_key_cache w) as [c|]; [|apply IH].
  destruct (DualCache.async_delete_cache _ _ c) as [[[]|] c']; [|done]. by rewrite IH.
Qed.

Lemma writes_members now tr : writes (member_ops tr) (update_team_member_table now n tr).
Proof.
  destruct tr as [[|x l]|]; [by apply writes_nothing| |by apply writes_nothing].
  intros w r w' E. unfold update_team_member_table in E. unfold member_ops. cbn [default].
  destruct (res_map (λ x, tu ← team_and_user x.1; Ok (tu.2, tu.1)) (x :: l)) as [tus|e] eqn:Et.
  2: { unfold mbind, M_bind, m_lift in E. injection E as <- <-. exists 0%nat. split_and!; [apply applied_refl|lia|done]. }
  destruct (member_ops_ok _ _ Et) as [ops Eo]. unfold id. rewrite Eo.
  rewrite Eo in E. change (m_lift (Ok ops) ≫= λ ops, db_tx ops) with (db_tx ops) in E.
  change (m_lift (Ok tus) ≫= ?f) with (f tus) in E. unfold mbind, M_bind, on_db, m_zoom in E.
  destruct (with_retries n (db_tx ops) (db w)) as [[[]|e] d1] eqn:Ed;
    destruct (with_retries_applied kept _ _ _ _ _ Hkept Hn Ed) as (k & Ha & Hle & Hok); exists k.
  - pose proof (invalidate_db now tus (mkWorld d1 (user_api_key_cache w))) as Hi.
    rewrite E in Hi. cbn in Hi. rewrite Hi. by split_and!; [|done|intros _; apply Hok].
  - injection E as <- <-. done.
Qed.

(** The batches of a commit, table by table. *)
Definition end_user_op (x : string * Q) : db_op :=
  Upsert "litellm_endusertable" [("user_id", PStr x.1)]
    [("user_id", PStr x.1); ("spend", PFloat x.2); ("blocked", PBool false)] [("spend", Increment (PFloat x.2))].
Definition key_op (la : pyval) (x : string * Q) : db_op :=
  UpdateMany "litellm_verificationtoken" [("token", PStr x.1)] [("spend", Increment (PFloat x.2)); ("last_active", SetTo la)].
Definition id_op (table column : string) (x : string * Q) : db_op := increment_spend table [(column, PStr x.1)] x.2.

Definition dict_of (t : DBSpendUpdateTransactions) (f : string) : spend_dict := default [] (mjoin (dget f t)).

Definition batches (la : pyval) (t : DBSpendUpdateTransactions) : list (list db_op) :=
  [id_op "litellm_usertable" "user_id" <$> dict_of t "user_list_transactions";
   end_user_op <$> dict_of t "end_user_list_transactions";
   key_op la <$> dict_of t "key_list_transactions";
   id_op "litellm_teamtable" "team_id" <$> dict_of t "team_list_transactions";
   member_ops (mjoin (dget "team_member_list_transactions" t));
   id_op "litellm_organizationtable" "organization_id" <$> dict_of t "org_list_transactions";
   id_op "litellm_tagtable" "tag_name" <$> dict_of t "tag_list_transactions";
   id_op "litellm_agentstable" "agent_id" <$> dict_of t "agent_list_transactions"].

(** A commit writes its batches in order; when it returns it has written them all. *)
Lemma commit_in_order now la t :
  (∀ f, f ∈ transaction_fields → is_Some (dget f t)) →
  writes_in_order (batches la t) (_commit_spend_updates_to_db now la n t).
Proof.
  intros Hf. unfold _commit_spend_updates_to_db, batches, dict_of.
  assert (Hget : ∀ f, f ∈ transaction_fields → ∃ o, dget f t = Some o) by (intros f Hin; apply Hf, Hin).
  unfold transaction_fields in Hget.
  destruct (Hget "user_list_transactions" ltac:(set_solver)) as [o1 E1].
  destruct (Hget "end_user_list_transactions" ltac:(set_solver)) as [o2 E2].
  destruct (Hget "key_list_transactions" ltac:(set_solver)) as [o3 E3].
  destruct (Hget "team_list_transactions" ltac:(set_solver)) as [o4 E4].
  destruct (Hget "team_member_list_transactions" ltac:(set_solver)) as [o5 E5].
  destruct (Hget "org_list_transactions" ltac:(set_solver)) as [o6 E6].
  destruct (Hget "tag_list_transactions" ltac:(set_solver)) as [o7 E7].
  destruct (Hget "agent_list_transactions" ltac:(set_solver)) as [o8 E8].
  rewrite E1, E2, E3, E4, E5, E6, E7, E8. change (mjoin (Some ?o)) with o.
  eapply writes_field; [exact E1|]. apply writes_cons; [by apply writes_table|].
  eapply writes_field; [exact E2|]. apply writes_cons; [by apply writes_table|].
  eapply writes_field; [exact E3|]. apply writes_cons; [by apply writes_table|].
  eapply writes_field; [exact E4|]. apply writes_cons; [by apply writes_table|].
  eapply writes_field; [exact E5|]. apply writes_cons; [by apply writes_members|].
  eapply writes_field; [exact E6|]. apply writes_cons; [by apply writes_table|].
  eapply writes_field; [exact E7|]. apply writes_cons; [by apply writes_table|].
  eapply writes_field; [exact E8|]. apply writes_one. by apply writes_table.
Qed.
End blocks.

(** *** Rows *)

(** What the batches write, by table. *)
Definition tables : list string :=
  ["litellm_usertable"; "litellm_endusertable"; "litellm_verificationtoken"; "litellm_teamtable";
   "litellm_teammembership"; "litellm_organizationtable"; "litellm_tagtable"; "litellm_agentstable"].

Lemma member_ops_table tr : Forall (λ op, op_table op = "litellm_teammembership") (member_ops tr).
Proof.
  unfold member_ops. generalize (default [] tr). intros l.
  destruct (res_map member_op l) as [ops|] eqn:E; [|constructor]. revert ops E.
  induction l as [|x l IH]; intros ops; cbn [res_map]; [intros [= <-]; constructor|].
  unfold mbind, res_bind, member_op at 1. destruct (team_and_user x.1) as [tu|]; [|done].
  destruct (res_map member_op l) as [ops'|]; [|done]. intros [= <-]. constructor; [done|auto].
Qed.

Lemma batches_tables la t : Forall2 (λ tb b, Forall (λ op, op_table op = tb) b) tables (batches la t).
Proof.
  unfold tables, batches. repeat constructor; try apply member_ops_table; apply Forall_fmap, Forall_true; done.
Qed.

(** A row sees the batch of its table, as often as it has been committed. *)
Lemma apply_batches tbs bs ks i tb b k w f c :
  NoDup tbs → Forall2 (λ tb b, Forall (λ op, op_table op = tb) b) tbs bs →
  tbs !! i = Some tb → bs !! i = Some b → ks !! i = Some k →
  apply_ops tb w f c (mjoin (zip_with times ks bs)) = Nat.iter k (λ c, apply_ops tb w f c b) c.
Proof.
  intros Hnd H2. revert ks i c. induction H2 as [|tb' b' tbs bs Hb H2 IH]; intros ks i c Htb Hbs Hks; [done|].
  apply NoDup_cons in Hnd as [Hni Hnd]. destruct ks as [|k0 ks]; [done|].
  cbn [zip_with mjoin list_join]. rewrite apply_ops_app. destruct i as [|i]; simplify_eq/=.
  - rewrite apply_times. apply apply_ops_other. apply Forall_forall. intros op Hop.
    assert (Forall (λ op, op_table op ∈ tbs) (mjoin (zip_with times ks bs))) as Hall.
    { clear -H2. revert ks. induction H2 as [|tb b tbs bs Hb H2 IH]; intros [|k0 ks]; [constructor..|].
      cbn [zip_with mjoin list_join]. apply Forall_app. split.
      - apply times_all. eapply Forall_impl; [exact Hb|]. intros op ->. by left.
      - eapply Forall_impl; [apply IH|]. intros op Hop. by right. }
    intros Heq. apply Hni. rewrite <- Heq. rewrite Forall_forall in Hall. by apply Hall.
  - rewrite (apply_ops_other _ _ _ c (times k0 b')).
    + exact (IH Hnd ks i c Htb Hbs Hks).
    + apply times_all. eapply Forall_impl; [exact Hb|]. intros op Hop. rewrite Hop. intros ->. apply Hni. by eapply list_elem_of_lookup_2.
Qed.

(** A batch over a dict meets the row of an id once, if the dict has the id. *)
Lemma apply_dict table w (hit : option Q → Q → option Q) (mk : string * Q → db_op) key (l : spend_dict) c :
  dict_wf l →
  (∀ x c, x ∈ l → apply_op table w "spend" c (mk x) = if String.eqb key x.1 then hit c x.2 else c) →
  apply_ops table w "spend" c (mk <$> l) = match dget key l with Some a => hit c a | None => c end.
Proof.
  intros Hwf Hmk. revert c. induction l as [|[k a] l IH]; intros c; [done|].
  unfold dict_wf, dkeys in Hwf. rewrite fmap_cons in Hwf. apply NoDup_cons in Hwf as [Hk Hwf].
  rewrite fmap_cons. unfold apply_ops. cbn [foldl dget].
  rewrite (Hmk (k, a)) by by left. cbn [fst snd]. fold (apply_ops table w "spend").
  change (foldl _ ?c (mk <$> l)) with (apply_ops table w "spend" c (mk <$> l)).
  rewrite IH by (try done; intros x c' Hx; apply Hmk; by right).
  destruct (String.eqb_spec key k) as [->|]; [|done]. by rewrite (proj2 (dget_None k l) Hk).
Qed.

Definition add_to (c : option Q) (a : Q) : option Q := (λ q, (q + a)%Q) <$> c.
Definition add_or_create (c : option Q) (a : Q) : option Q := Some (default a ((λ q, (q + a)%Q) <$> c)).

Lemma same_row_id table column a b :
  same_row table [(column, PStr a)] table [(column, PStr b)] = String.eqb a b.
Proof. unfold same_row. cbn. rewrite !String.eqb_refl. cbn. by rewrite orb_false_r, andb_true_r. Qed.

Lemma id_op_row table column id x c :
  apply_op table [(column, PStr id)] "spend" c (id_op table column x) = if String.eqb id x.1 then add_to c x.2 else c.
Proof. unfold id_op, increment_spend. cbn [apply_op]. rewrite same_row_id. by destruct c. Qed.

Lemma key_op_row la id x c :
  apply_op "litellm_verificationtoken" [("token", PStr id)] "spend" c (key_op la x) = if String.eqb id x.1 then add_to c x.2 else c.
Proof. unfold key_op. cbn [apply_op]. rewrite same_row_id. by destruct c. Qed.

Lemma end_user_op_row id x c :
  apply_op "litellm_endusertable" [("user_id", PStr id)] "spend" c (end_user_op x) =
  if String.eqb id x.1 then add_or_create c x.2 else c.
Proof. unfold end_user_op. cbn [apply_op]. rewrite same_row_id. by destruct c. Qed.

(** *** Splitting the key of a team member *)

(** [s] has no separator, also when a colon follows it. *)
Definition clean (s : string) : bool := negb (str_contains "::" (s +:+ ":")).
Definition no_separator (s : string) : bool := negb (str_contains "::" s).

Lemma split_colons_cons a b s :
  (Ascii.eqb a ":" && Ascii.eqb b ":") = false →
  split_colons (String a (String b s)) =
  match split_colons (String b s) with [] => [String a ""] | x :: l => String a x :: l end.
Proof. intros E. cbn [split_colons]. by rewrite E. Qed.

Lemma contains_cons a s : str_contains "::" (String a s) = false → str_contains "::" s = false ∧ String.prefix "::" (String a s) = false.
Proof. cbn [str_contains]. rewrite orb_false_iff. tauto. Qed.

Lemma prefix_colons a b s : String.prefix "::" (String a (String b s)) = Ascii.eqb a ":" && Ascii.eqb b ":".
Proof.
  cbn [String.prefix]. destruct (Ascii.ascii_dec ":" a) as [<-|Ha].
  - destruct (Ascii.ascii_dec ":" b) as [<-|Hb]; [by destruct s|].
    symmetry. rewrite Ascii.eqb_refl. cbn [andb]. apply Ascii.eqb_neq. congruence.
  - symmetry. rewrite (proj2 (Ascii.eqb_neq a ":")) by congruence. done.
Qed.

(** The text up to the first separator is the first part. *)
Lemma split_colons_clean s rest :
  clean s = true → split_colons (s +:+ "::" +:+ rest) = s :: split_colons rest.
Proof.
  unfold clean. rewrite negb_true_iff. induction s as [|a s IH]; intros Hs.
  - done.
  - rewrite str_app_cons in Hs |- *. apply contains_cons in Hs as [Hs Hp]. specialize (IH Hs).
    destruct s as [|b s].
    + change ("" +:+ ":") with ":" in Hp. rewrite prefix_colons in Hp.
      change ("" +:+ "::" +:+ rest) with (String ":" (String ":" rest)) in IH |- *.
      rewrite andb_true_r in Hp. rewrite split_colons_cons by (rewrite Hp; done). by rewrite IH.
    + rewrite str_app_cons in Hp, IH |- *. rewrite prefix_colons in Hp. rewrite split_colons_cons by done. by rewrite IH.
Qed.

Lemma split_colons_last s : no_separator s = true → split_colons s = [s].
Proof.
  unfold no_separator. rewrite negb_true_iff. induction s as [|a s IH]; intros Hs; [done|].
  apply contains_cons in Hs as [Hs Hp]. specialize (IH Hs). destruct s as [|b s]; [done|].
  rewrite prefix_colons in Hp. rewrite split_colons_cons by done. by rewrite IH.
Qed.

(** The ids read from the key of a team member are the ids it was made of, when neither
    contains the separator and the team does not end in a colon. *)
Lemma member_key_split team user :
  clean team = true → no_separator user = true →
  team_and_user (DBSpendUpdateWriter.team_member_key team user) = Ok (team, user).
Proof.
  intros Ht Hu. unfold team_and_user, DBSpendUpdateWriter.team_member_key.
  change ("team_id::" +:+ team +:+ "::user_id::" +:+ user) with ("team_id" +:+ "::" +:+ (team +:+ "::" +:+ ("user_id" +:+ "::" +:+ user))).
  rewrite (split_colons_clean "team_id") by done. rewrite split_colons_clean by done.
  rewrite (split_colons_clean "user_id") by done. by rewrite split_colons_last.
Qed.

(** The keys [_update_team_db] makes from ids without the separator. *)
Definition member_keys (l : spend_dict) : Prop :=
  Forall (λ x : string * Q, ∃ team user, x.1 = DBSpendUpdateWriter.team_member_key team user ∧
                              clean team = true ∧ no_separator user = true) l.

Definition member_row (team user : string) : dict := [("team_id", PStr team); ("user_id", PStr user)].

Lemma same_row_member tb t1 u1 t2 u2 :
  same_row tb (member_row t1 u1) tb (member_row t2 u2) = String.eqb t1 t2 && String.eqb u1 u2.
Proof.
  unfold same_row. cbn. rewrite String.eqb_refl. cbn. by rewrite !orb_false_r, andb_true_r.
Qed.

Definition member_op_of (x : string * Q) : db_op :=
  match member_op x with Ok op => op | Raise _ => UpdateMany "" [] [] end.

Lemma member_ops_map l : member_keys l → res_map member_op l = Ok (member_op_of <$> l).
Proof.
  induction 1 as [|x l (team & user & Ex & Ht & Hu) Hl IH]; cbn [res_map]; [done|].
  rewrite fmap_cons, IH. unfold member_op_of, member_op, mbind, res_bind. by rewrite Ex, member_key_split.
Qed.

Lemma member_op_row team user x c :
  clean team = true → no_separator user = true → member_keys [x] →
  apply_op "litellm_teammembership" (member_row team user) "spend" c (member_op_of x) =
  if String.eqb (DBSpendUpdateWriter.team_member_key team user) x.1 then add_to c x.2 else c.
Proof.
  intros Ht Hu Hx. apply Forall_singleton in Hx as (team' & user' & Ex & Ht' & Hu').
  unfold member_op_of, member_op. rewrite Ex, member_key_split by done. cbn [mbind res_bind fst snd].
  unfold increment_spend. cbn [apply_op]. change [("team_id", PStr team'); ("user_id", PStr user')] with (member_row team' user').
  rewrite same_row_member. destruct (String.eqb_spec (DBSpendUpdateWriter.team_member_key team user)
    (DBSpendUpdateWriter.team_member_key team' user')) as [E|Hne].
  - pose proof (member_key_split team user Ht Hu) as H1'. rewrite E, member_key_split in H1' by done. injection H1' as -> ->.
    rewrite !String.eqb_refl. by destruct c.
  - destruct (String.eqb_spec team team') as [->|]; [|done]. destruct (String.eqb_spec user user') as [->|]; done.
Qed.

(** The row an entity's spend is kept in; a team member's, when the key was made from ids
    without the separator. *)
Definition row_of (ty : Litellm_EntityType) (id : string) : option (string * dict) :=
  match ty with
  | USER => Some ("litellm_usertable", [("user_id", PStr id)])
  | END_USER => Some ("litellm_endusertable", [("user_id", PStr id)])
  | KEY => Some ("litellm_verificationtoken", [("token", PStr id)])
  | TEAM => Some ("litellm_teamtable", [("team_id", PStr id)])
  | ORGANIZATION => Some ("litellm_organizationtable", [("organization_id", PStr id)])
  | TAG => Some ("litellm_tagtable", [("tag_name", PStr id)])
  | AGENT => Some ("litellm_agentstable", [("agent_id", PStr id)])
  | TEAM_MEMBER =>
      match team_and_user id with
      | Ok (team, user) =>
          if String.eqb id (DBSpendUpdateWriter.team_member_key team user) && clean team && no_separator user
          then Some ("litellm_teammembership", member_row team user) else None
      | Raise _ => None
      end
  | PROJECT | PROXY => None
  end.

(** The spend of a row after the transactions: existing rows grow, an end user's row is
    created when it is missing. *)
Definition expected (ty : Litellm_EntityType) (id : string) (t : DBSpendUpdateTransactions) (c : option Q) : option Q :=
  match entity_type_to_dict_key ty with
  | None => c
  | Some f =>
      match dget id (dict_of t f) with
      | None => c
      | Some a => if bool_decide (ty = END_USER) then add_or_create c a else add_to c a
      end
  end.

Definition batch_index (ty : Litellm_EntityType) : nat :=
  match ty with USER => 0 | END_USER => 1 | KEY => 2 | TEAM => 3 | TEAM_MEMBER => 4 | ORGANIZATION => 5 | TAG => 6 | _ => 7 end.

Lemma tables_NoDup : NoDup tables.
Proof. by apply (bool_decide_unpack _). Qed.

(** One batch, on the row of a team member. *)
Lemma member_batch_row t team user c :
  dict_wf (dict_of t "team_member_list_transactions") → member_keys (dict_of t "team_member_list_transactions") →
  clean team = true → no_separator user = true →
  apply_ops "litellm_teammembership" (member_row team user) "spend" c (member_ops (mjoin (dget "team_member_list_transactions" t)))
  = expected TEAM_MEMBER (DBSpendUpdateWriter.team_member_key team user) t c.
Proof.
  intros Hwf Hk Ht Hu. unfold member_ops. fold (dict_of t "team_member_list_transactions"). rewrite member_ops_map by done.
  rewrite (apply_dict _ _ add_to _ (DBSpendUpdateWriter.team_member_key team user)); [done|done|].
  intros x c' Hx. apply member_op_row; [done..|]. constructor; [|constructor].
  unfold member_keys in Hk. rewrite Forall_forall in Hk. by apply Hk.
Qed.

(** Transactions as the queue and the buffer produce them: every field, no repeated id,
    and the keys of team members made from ids without the separator. *)
Definition well_formed (t : DBSpendUpdateTransactions) : Prop :=
  (∀ f, f ∈ transaction_fields → is_Some (dget f t)) ∧ (∀ f, dict_wf (dict_of t f)) ∧
  member_keys (dict_of t "team_member_list_transactions").

Lemma batches_row la t ks ty id tb w c :
  well_formed t → row_of ty id = Some (tb, w) → length ks = length (batches la t) →
  ∃ k, ks !! batch_index ty = Some k ∧
    apply_ops tb w "spend" c (mjoin (zip_with times ks (batches la t))) = Nat.iter k (expected ty id t) c.
Proof.
  intros (_ & Hwf & Hm) Hrow Hlen.
  assert (tables !! batch_index ty = Some tb ∧
    ∃ b, batches la t !! batch_index ty = Some b ∧ ∀ c, apply_ops tb w "spend" c b = expected ty id t c) as [Ht (b & Hb & He)].
  { destruct ty; try done;
      try (injection Hrow as <- <-; (split; [done|]); (eexists; split; [reflexivity|]); intros c';
      unfold expected; cbn [entity_type_to_dict_key];
      first [apply (apply_dict _ _ add_to); [done|intros; apply id_op_row]
            |apply (apply_dict _ _ add_to); [done|intros; apply key_op_row]
            |apply (apply_dict _ _ add_or_create); [done|intros; apply end_user_op_row]]).
    cbn [row_of] in Hrow. destruct (team_and_user id) as [[team user]|]; [|done].
    destruct (_ && _) eqn:E; [|done]. injection Hrow as <- <-.
    apply andb_true_iff in E as [[->%String.eqb_eq Hc]%andb_true_iff Hs]. split; [done|]. eexists. split; [reflexivity|].
    intros c'. by apply member_batch_row. }
  destruct (lookup_lt_is_Some_2 ks (batch_index ty)) as [k Hk]; [rewrite Hlen; by eapply lookup_lt_Some|].
  exists k. split; [done|].
  rewrite (apply_batches tables (batches la t) ks _ tb b k w "spend" c tables_NoDup (batches_tables la t) Ht Hb Hk).
  clear Hk. induction k as [|k IH]; [done|]. cbn [Nat.iter nat_rect]. unfold Nat.iter in *. cbn. by rewrite IH, He.
Qed.

Section theorems.
Context {D : Type} `{PrismaLaws D} `{!WholeBatches D} {R : Type} `{PyRuntime} `{RedisCacheI R}.

(** A run of the commit charges the row of an entity some number of times. *)
Lemma commit_row (kept : bool) now la n t (w w' : world D R) r ty id tb wh :
  (kept = true → replies_kept D) →
  0 <= n → well_formed t → _commit_spend_updates_to_db now la n t w = (r, w') → row_of ty id = Some (tb, wh) →
  ∃ k, same_cell (cell (db w') tb wh "spend") (Nat.iter k (expected ty id t) (cell (db w) tb wh "spend")) ∧
    (k ≤ at_most kept n)%nat ∧ (r = Ok () → (1 ≤ k)%nat).
Proof.
  intros Hkept Hn Hwf E Hrow. destruct (commit_in_order kept Hkept n Hn now la t (proj1 Hwf) w _ _ E) as (ks & Hlen & Ha & Hle & Hok).
  destruct (batches_row la t ks ty id tb wh (cell (db w) tb wh "spend") Hwf Hrow Hlen) as (k & Hk & Er).
  exists k. rewrite <- Er. split_and!; [apply Ha|by eapply (Forall_lookup_1 _ _ _ _ Hle)|].
  intros ->. by eapply (Forall_lookup_1 _ _ _ _ (Hok eq_refl)).
Qed.

(** C13: A commit charges the row of every entity whole (existing rows, those of team
    members with ids without the separator included; an end user's row is created if it
    is missing): if it returns, the row has been charged its spend at least once, and at
    most once for each of the [n + 1] attempts (an attempt whose reply was lost counts,
    and is repeated). If every batch that raises was rolled back, a commit that returns
    has added the spend exactly once, whatever connection errors were retried, and one
    that raises has added it whole or not at all. *)
Theorem commit_all_or_nothing now la n t (w w' : world D R) r ty id tb wh :
  0 <= n → well_formed t → _commit_spend_updates_to_db now la n t w = (r, w') → row_of ty id = Some (tb, wh) →
  let charged k := same_cell (cell (db w') tb wh "spend") (Nat.iter k (expected ty id t) (cell (db w) tb wh "spend")) in
  (∃ k : nat, charged k ∧ Z.of_nat k <= n + 1 ∧ (r = Ok () → (1 ≤ k)%nat)) ∧
  (replies_kept D → (r = Ok () → charged 1%nat) ∧ (r ≠ Ok () → charged 0%nat ∨ charged 1%nat)).
Proof.
  intros Hn Hwf E Hrow charged. split.
  - destruct (commit_row false now la n t w w' r ty id tb wh ltac:(done) Hn Hwf E Hrow) as (k & Ha & Hle & Hok).
    exists k. unfold at_most in Hle. split_and!; [done|lia|done].
  - intros Hk. destruct (commit_row true now la n t w w' r ty id tb wh (λ _, Hk) Hn Hwf E Hrow) as (k & Ha & Hle & Hok).
    cbn in Hle. split.
    + intros Hr. specialize (Hok Hr). by replace k with 1%nat in Ha by lia.
    + intros _. destruct k as [|[|k]]; [by left|by right|lia].
Qed.
End theorems.

(** A team or user whose id contains the separator is charged to other rows. *)
Theorem separator_misattributes :
  team_and_user (DBSpendUpdateWriter.team_member_key "red" "ann") = Ok ("red", "ann") ∧
  team_and_user (DBSpendUpdateWriter.team_member_key "red::user_id::bob" "ann") = Ok ("red", "bob") ∧
  team_and_user (DBSpendUpdateWriter.team_member_key "red:" "ann") = Ok ("red", "ann").
Proof. by split_and!. Qed.

(** ** The daily commit *)

(** The theorems on rows assume that no reply is lost. *)
Section daily_facts.
Context {D : Type} `{PrismaLaws D} (Hkept : replies_kept D).
Context (entity_type entity_id_field table : string).

Definition drop_keys (done l : list (string * dict)) : list (string * dict) := foldr (λ x rest, ddel x.1 rest) l done.

Lemma daily_attempt_applied d l s r d' l' :
  sorted_items (sort_key entity_id_field) l = Ok s →
  daily_attempt entity_type entity_id_field table (d, l) = (r, (d', l')) →
  match r with
  | Ok _ => ∃ ops, res_map (daily_op entity_type entity_id_field table) (take BATCH_SIZE s) = Ok ops ∧
              applied ops d d' ∧ l' = drop_keys (take BATCH_SIZE s) l
  | Raise _ => applied [] d d' ∧ l' = l
  end.
Proof.
  intros Es. unfold daily_attempt. cbn [fst snd]. rewrite Es.
  destruct (take BATCH_SIZE s) as [|x b] eqn:Et.
  { intros [= <- <- <-]. exists []. split_and!; [done|apply applied_refl|done]. }
  rewrite <- Et. clear Et x b. destruct (res_map _ _) as [ops|e] eqn:Eo.
  2: { intros [= <- <- <-]. split; [apply applied_refl|done]. }
  destruct (db_batch ops d) as [[[]|e] d1] eqn:Ed; intros [= <- <- <-].
  - exists ops. split_and!; [done| |done]. intros tb w f. by apply batch_commits.
  - split; [|done]. apply applied_nil. eapply Hkept. eauto.
Qed.

(** An attempt that raises leaves the dict for the next one; the first that succeeds ends
    the commit. *)
Lemma daily_loop_applied n its d l s r d' l' :
  sorted_items (sort_key entity_id_field) l = Ok s → its ≠ [] → (∀ i, last its = Some i → n <= i) →
  daily_loop (daily_attempt entity_type entity_id_field table) n its (d, l) = (r, (d', l')) →
  match r with
  | Ok _ => ∃ ops, res_map (daily_op entity_type entity_id_field table) (take BATCH_SIZE s) = Ok ops ∧
              applied ops d d' ∧ l' = drop_keys (take BATCH_SIZE s) l
  | Raise _ => applied [] d d' ∧ l' = l
  end.
Proof.
  intros Es. revert d. induction its as [|i its IH]; intros d Hne Hlast; [done|]. cbn [daily_loop].
  destruct (daily_attempt _ _ _ (d, l)) as [[[]|e] [d1 l1]] eqn:E; pose proof (daily_attempt_applied _ _ _ _ _ _ Es E) as Ha.
  - intros [= <- <- <-]. exact Ha.
  - destruct Ha as [Ha ->]. assert (Hraise : (Raise e, (d1, l)) = (r, (d', l')) →
      match r with Ok _ => ∃ ops, res_map (daily_op entity_type entity_id_field table) (take BATCH_SIZE s) = Ok ops ∧
              applied ops d d' ∧ l' = drop_keys (take BATCH_SIZE s) l | Raise _ => applied [] d d' ∧ l' = l end)
      by (by intros [= <- <- <-]).
    destruct e; try exact Hraise. destruct (n <=? i) eqn:Ei; [exact Hraise|].
    destruct its as [|j its]; [specialize (Hlast i eq_refl); lia|]. intros El.
    specialize (IH d1 ltac:(done) ltac:(intros k Hk; apply Hlast; done) El). destruct r as [u|e'].
    + destruct IH as (ops & E1 & E2 & E3). exists ops. split_and!; [done| |done]. exact (applied_app [] ops _ _ _ Ha E2).
    + destruct IH as [E1 E2]. split; [|done]. exact (applied_app [] [] _ _ _ Ha E1).
Qed.

(** A daily commit that returns has written the first hundred transactions in the order of
    their keys, once each, and dropped them from the dict; the others are neither written
    nor queued again.  One that raises has written nothing. *)
Lemma daily_commit_spec n d l s r d' l' :
  0 <= n → sorted_items (sort_key entity_id_field) l = Ok s →
  _update_daily_spend n entity_type entity_id_field table (d, l) = (r, (d', l')) →
  l' = drop_keys (take BATCH_SIZE s) l ∧
  match r with
  | Ok _ => ∃ ops, res_map (daily_op entity_type entity_id_field table) (take BATCH_SIZE s) = Ok ops ∧ applied ops d d'
  | Raise _ => applied [] d d'
  end.
Proof.
  intros Hn Es. unfold _update_daily_spend, m_try.
  destruct (daily_loop _ _ _ (d, l)) as [r1 [d1 l1]] eqn:El.
  assert (Hits : seqZ 0 (n + 1) ≠ []) by (rewrite seqZ_cons by lia; done).
  assert (Hlast : ∀ i, last (seqZ 0 (n + 1)) = Some i → n <= i)
    by (intros i Hi; rewrite last_lookup, length_seqZ in Hi; apply lookup_seqZ in Hi; lia).
  pose proof (daily_loop_applied n _ d l s _ _ _ Es Hits Hlast El) as Ha. destruct r1 as [u|e].
  - intros [= <- <- <-]. destruct Ha as (ops & E1 & E2 & E3). eauto.
  - cbn [fst snd]. destruct Ha as [Ha ->]. rewrite Es. intros [= <- <- <-]. done.
Qed.
End daily_facts.

Section daily_rows.
Context {D : Type} `{PrismaLaws D} `{!WholeBatches D}.
Context (entity_type entity_id_field table : string).
Import DailySpendUpdateQueue (metrics, optional_metrics, all_metrics, metered, metric).

Lemma metrics_cases f (P : string → Prop) :
  f ∈ all_metrics → P "spend" → P "prompt_tokens" → P "completion_tokens" → P "api_requests" → P "successful_requests" →
  P "failed_requests" → P "cache_read_input_tokens" → P "cache_creation_input_tokens" → P f.
Proof. intros Hf. intros. unfold all_metrics, metrics, optional_metrics in *. set_unfold. naive_solver. Qed.

(** The upsert of a transaction adds its metrics to the row, or creates the row with them. *)
Lemma daily_op_metrics x op :
  entity_id_field ∈ DBSpendUpdateWriter.entity_fields → daily_op entity_type entity_id_field table x = Ok op →
  ∃ wh cr up, op = Upsert table wh cr up ∧ where_clause entity_id_field x.2 = Ok wh ∧
    ∀ f, f ∈ all_metrics →
      (∀ q, (apply_update f up q == q + metric f x.2)%Q) ∧ num (default PNone (dget f cr)) = metric f x.2.
Proof.
  intros Hid. destruct x as [k tx]. unfold daily_op. cbn [snd].
  destruct (where_clause entity_id_field tx) as [wh|] eqn:Ew; [|done]. cbn [mbind res_bind].
  unfold common_data, update_data, index, mbind, res_bind.
  destruct (dget "date" tx); [|done]. destruct (dget "api_key" tx); [|done].
  destruct (dget "prompt_tokens" tx) as [pt|] eqn:E1; [|done]. destruct (dget "completion_tokens" tx) as [ct|] eqn:E2; [|done].
  destruct (dget "spend" tx) as [sp|] eqn:E3; [|done]. destruct (dget "api_requests" tx) as [ar|] eqn:E4; [|done].
  destruct (dget "successful_requests" tx) as [sr|] eqn:E5; [|done]. destruct (dget "failed_requests" tx) as [fr|] eqn:E6; [|done].
  intros [= <-]. do 3 eexists. split; [reflexivity|]. split; [done|].
  assert (Hne : ∀ f, f ∈ all_metrics → String.eqb f entity_id_field = false).
  { intros f Hf. apply String.eqb_neq. intros ->. revert Hid Hf.
    unfold DBSpendUpdateWriter.entity_fields, all_metrics, metrics, optional_metrics. cbn. set_solver. }
  intros f Hf. pose proof (Hne f Hf) as Hnf. revert Hnf. clear Hne.
  unfold apply_update, metric, optional_entries, cache_columns, request_id_key.
  pattern f. apply (metrics_cases f _ Hf); intros Hnf; cbn [dget app]; rewrite Hnf;
    destruct (dget "cache_read_input_tokens" tx) eqn:E7, (dget "cache_creation_input_tokens" tx) eqn:E8;
    destruct (String.eqb entity_type "tag"); destruct (dget "request_id" tx) eqn:E9; cbn; rewrite ?E9, ?E1, ?E2, ?E3, ?E4, ?E5, ?E6, ?E7, ?E8; cbn;
    (split; [intros q; ring|reflexivity]).
Qed.

(** The transaction belongs to the row with the unique columns [wh]. *)
Definition matches (wh : dict) (x : string * dict) : bool :=
  match where_clause entity_id_field x.2 with Ok w => py_eqb (PDict wh) (PDict w) | Raise _ => false end.

(** What a list of transactions adds to a row. *)
Fixpoint row_total (f : string) (wh : dict) (l : list (string * dict)) : Q :=
  match l with
  | [] => 0%Q
  | x :: l' => ((if matches wh x then metric f x.2 else 0) + row_total f wh l')%Q
  end.

(** A row is created by its first transaction and grows by every one. *)
Definition row_after (f : string) (wh : dict) (l : list (string * dict)) (c : option Q) : option Q :=
  if existsb (matches wh) l then Some (default 0 c + row_total f wh l)%Q else c.

Lemma row_total_none f wh l : existsb (matches wh) l = false → (row_total f wh l == 0)%Q.
Proof.
  induction l as [|x l IH]; cbn [existsb row_total]; [done|]. rewrite orb_false_iff. intros [-> Hl]. rewrite IH by done. ring.
Qed.

Lemma daily_ops_row l ops f wh c :
  entity_id_field ∈ DBSpendUpdateWriter.entity_fields → f ∈ all_metrics →
  res_map (daily_op entity_type entity_id_field table) l = Ok ops →
  same_cell (apply_ops table wh f c ops) (row_after f wh l c).
Proof.
  intros Hid Hf. revert ops c. induction l as [|x l IH]; intros ops c; cbn [res_map].
  { intros [= <-]. done. }
  destruct (daily_op _ _ _ x) as [op|] eqn:Eo; [|done]. cbn [mbind res_bind].
  destruct (res_map _ l) as [ops'|]; [|done]. intros [= <-].
  destruct (daily_op_metrics _ _ Hid Eo) as (w & cr & up & -> & Ew & Hm). destruct (Hm f Hf) as [Hup Hcr].
  unfold apply_ops. cbn [foldl]. change (foldl _ ?c ops') with (apply_ops table wh f c ops').
  rewrite (IH _ _ eq_refl). unfold row_after. cbn [existsb row_total].
  assert (matches wh x = py_eqb (PDict wh) (PDict w)) as -> by (unfold matches; by rewrite Ew).
  cbn [apply_op]. unfold same_row. rewrite String.eqb_refl. cbn [andb].
  destruct (py_eqb (PDict wh) (PDict w)); cbn [orb].
  - destruct (existsb (matches wh) l) eqn:El; constructor.
    + destruct c as [q|]; cbn; [rewrite Hup|rewrite Hcr]; ring.
    + rewrite (row_total_none _ _ _ El). destruct c as [q|]; cbn; [rewrite Hup|rewrite Hcr]; ring.
  - destruct (existsb (matches wh) l); [|done]. constructor. ring.
Qed.

Lemma insert_by_perm key x l l' : insert_by key x l = Ok l' → l' ≡ₚ x :: l.
Proof.
  revert l'. induction l as [|y l IH]; intros l'; cbn [insert_by]; [by intros [= <-]|].
  destruct (py_lt (key y) (key x)) as [[]|]; cbn [mbind res_bind]; [| |done].
  - destruct (insert_by key x l) as [l''|]; [|done]. intros [= <-]. rewrite (IH _ eq_refl). apply Permutation_swap.
  - by intros [= <-].
Qed.

Lemma sorted_items_perm key l s : sorted_items key l = Ok s → s ≡ₚ l.
Proof.
  revert s. induction l as [|x l IH]; intros s; cbn [sorted_items]; [by intros [= <-]|].
  destruct (sorted_items key l) as [l''|]; [|done]. cbn [mbind res_bind]. intros Hp%insert_by_perm. rewrite Hp. by rewrite (IH l'' eq_refl).
Qed.

Lemma row_total_perm f wh l l' : l ≡ₚ l' → (row_total f wh l == row_total f wh l')%Q.
Proof. induction 1 as [|x l l' _ IH|x y l|l1 l2 l3 _ IH1 _ IH2]; cbn [row_total]; [done|by rewrite IH|ring|by rewrite IH1]. Qed.

Lemma row_after_perm f wh l l' c : l ≡ₚ l' → same_cell (row_after f wh l c) (row_after f wh l' c).
Proof.
  intros Hp. unfold row_after. assert (existsb (matches wh) l = existsb (matches wh) l') as ->.
  { apply eq_true_iff_eq. rewrite !existsb_exists. split; intros (x & Hx & Hm); exists x; (split; [|done]);
      apply list_elem_of_In; apply list_elem_of_In in Hx; [by rewrite <- Hp|by rewrite Hp]. }
  destruct (existsb _ l'); [|done]. constructor. by rewrite (row_total_perm _ _ _ _ Hp).
Qed.

(** A daily commit of at most a hundred records that returns adds every record's metrics to
    its row, creating the rows that are missing, if no reply is lost. *)
Theorem daily_commit_exact n d l d' l' wh f :
  replies_kept D → 0 <= n → (length l ≤ BATCH_SIZE)%nat → is_ok (sorted_items (sort_key entity_id_field) l) = true →
  entity_id_field ∈ DBSpendUpdateWriter.entity_fields → f ∈ all_metrics →
  _update_daily_spend n entity_type entity_id_field table (d, l) = (Ok (), (d', l')) →
  same_cell (cell d' table wh f) (row_after f wh l (cell d table wh f)).
Proof.
  intros Hkept Hn Hlen Hs Hid Hf E. destruct (sorted_items _ l) as [s|] eqn:Es; [|done].
  destruct (daily_commit_spec Hkept _ _ _ n d l s _ _ _ Hn Es E) as [_ (ops & Eo & Ha)].
  pose proof (sorted_items_perm _ _ _ Es) as Hp. pose proof (Permutation_length Hp) as Hl.
  rewrite take_ge in Eo by lia. rewrite (Ha table wh f), (daily_ops_row _ _ f wh _ Hid Hf Eo). by apply row_after_perm.
Qed.

(** However a daily commit ends, it writes to its own table only. *)
Lemma daily_op_table x op : daily_op entity_type entity_id_field table x = Ok op → op_table op = table.
Proof.
  unfold daily_op, mbind, res_bind. destruct (where_clause _ _); [|done]. destruct (common_data _ _ _); [|done].
  destruct (update_data _ _); [|done]. by intros [= <-].
Qed.

Lemma daily_ops_table l ops :
  res_map (daily_op entity_type entity_id_field table) l = Ok ops → Forall (λ op, op_table op = table) ops.
Proof.
  revert ops. induction l as [|x l IH]; intros ops; cbn [res_map]; [by intros [= <-]; constructor|].
  destruct (daily_op _ _ _ x) as [op|] eqn:Eo; [|done]. cbn [mbind res_bind].
  destruct (res_map _ l) as [ops'|]; [|done]. intros [= <-]. constructor; [by eapply daily_op_table|auto].
Qed.

Lemma daily_attempt_table tb wh f s :
  tb ≠ table →
  same_cell (cell (daily_attempt entity_type entity_id_field table s).2.1 tb wh f) (cell s.1 tb wh f).
Proof.
  intros Hne. unfold daily_attempt. destruct (sorted_items _ _) as [l|]; [|done].
  destruct (take BATCH_SIZE l) as [|x b]; [done|]. destruct (res_map _ _) as [ops|] eqn:Eo; [|done].
  destruct (db_batch ops s.1) as [[[]|e] d1] eqn:Ed; cbn [fst snd].
  - rewrite (batch_commits _ _ _ Ed tb wh f), apply_ops_other; [done|].
    eapply Forall_impl; [by eapply daily_ops_table|]. cbn. congruence.
  - destruct (batch_whole _ _ _ _ Ed) as [Hu|Ha]; [by rewrite (Hu tb wh f)|].
    rewrite (Ha tb wh f), apply_ops_other; [done|].
    eapply Forall_impl; [by eapply daily_ops_table|]. cbn. congruence.
Qed.

Lemma daily_table tb wh f n s :
  tb ≠ table →
  same_cell (cell (_update_daily_spend n entity_type entity_id_field table s).2.1 tb wh f) (cell s.1 tb wh f).
Proof.
  intros Hne. unfold _update_daily_spend, m_try.
  assert (Hl : ∀ its s, same_cell (cell (daily_loop (daily_attempt entity_type entity_id_field table) n its s).2.1 tb wh f) (cell s.1 tb wh f)).
  { induction its as [|i its IH]; intros s0; cbn [daily_loop]; [done|].
    pose proof (daily_attempt_table tb wh f s0 Hne) as Ha.
    destruct (daily_attempt _ _ _ s0) as [[[]|e] s1]; cbn [fst snd] in *; [done|].
    destruct e; try done. destruct (n <=? i); [done|]. by rewrite IH. }
  specialize (Hl (seqZ 0 (n + 1)) s). by destruct (daily_loop _ _ _ s) as [[[]|e] s1].
Qed.

(** With more than a hundred records the commit returns all the same: the rows of the
    records after the first hundred are not written. *)
Theorem daily_commit_forgets n d l s d' l' wh f :
  replies_kept D → 0 <= n → sorted_items (sort_key entity_id_field) l = Ok s →
  entity_id_field ∈ DBSpendUpdateWriter.entity_fields → f ∈ all_metrics →
  _update_daily_spend n entity_type entity_id_field table (d, l) = (Ok (), (d', l')) →
  existsb (matches wh) (take BATCH_SIZE s) = false →
  same_cell (cell d' table wh f) (cell d table wh f).
Proof.
  intros Hkept Hn Es Hid Hf E Hno. destruct (daily_commit_spec Hkept _ _ _ n d l s _ _ _ Hn Es E) as [_ (ops & Eo & Ha)].
  rewrite (Ha table wh f), (daily_ops_row _ _ f wh _ Hid Hf Eo). unfold row_after. by rewrite Hno.
Qed.
End daily_rows.

(** ** A database in memory *)

(** The rows at the start, the operations committed since, and the outcomes of the next
    batches: [Some e] fails with [e]. *)
Record toy_db := mkToyDb {
  toy_rows : list (string * dict * string * Q);
  toy_log : list db_op;
  toy_script : list (option exn)
}.

Definition toy_base (d : toy_db) (table : string) (w : dict) (f : string) : option Q :=
  snd <$> find (λ x : string * dict * string * Q, same_row table w x.1.1.1 x.1.1.2 && String.eqb f x.1.2) (toy_rows d).

Definition toy_cell (d : toy_db) (table : string) (w : dict) (f : string) : option Q :=
  apply_ops table w f (toy_base d table w f) (toy_log d).

Definition toy_tx (ops : list db_op) : M toy_db unit := λ d,
  match toy_script d with
  | Some e :: script => (Raise e, mkToyDb (toy_rows d) (toy_log d) script)
  | None :: script => (Ok (), mkToyDb (toy_rows d) (toy_log d ++ ops) script)
  | [] => (Ok (), mkToyDb (toy_rows d) (toy_log d ++ ops) [])
  end.

#[export] Instance toy_prisma : Prisma toy_db := {| db_tx := toy_tx; db_batch := toy_tx; cell := toy_cell |}.

Lemma toy_tx_commits ops d d' : toy_tx ops d = (Ok (), d') →
  ∀ table w f, same_cell (toy_cell d' table w f) (apply_ops table w f (toy_cell d table w f) ops).
Proof.
  unfold toy_tx, toy_cell. destruct (toy_script d) as [|[e|] script]; intros [= <-] table w f; cbn [toy_log];
    by rewrite apply_ops_app.
Qed.

Lemma toy_tx_rolls_back ops d d' e : toy_tx ops d = (Raise e, d') →
  ∀ table w f, toy_cell d' table w f = toy_cell d table w f.
Proof. unfold toy_tx. destruct (toy_script d) as [|[e'|] script]; by intros [= _ <-]. Qed.

#[export] Instance toy_prisma_laws : PrismaLaws toy_db.
Proof. split; apply toy_tx_commits. Qed.

Lemma toy_kept : replies_kept toy_db.
Proof. intros ops d d' e [E|E] tb w f; exact (toy_tx_rolls_back _ _ _ _ E tb w f). Qed.

#[export] Instance toy_whole : WholeBatches toy_db.
Proof. split; intros ops d d' e E; left; intros tb w f; exact (toy_tx_rolls_back _ _ _ _ E tb w f). Qed.

(** A database behind a connection that can be lost after the commit: the batch is applied
    and the error raised all the same. *)
Record lossy_db := Lossy { inner : toy_db }.

Definition lossy_tx (ops : list db_op) : M lossy_db unit := λ d,
  let d' := mkToyDb (toy_rows (inner d)) (toy_log (inner d) ++ ops) (tail (toy_script (inner d))) in
  (match toy_script (inner d) with Some e :: _ => Raise e | _ => Ok () end, Lossy d').

#[export] Instance lossy_prisma : Prisma lossy_db :=
  {| db_tx := lossy_tx; db_batch := lossy_tx; cell d := toy_cell (inner d) |}.

#[export] Instance lossy_prisma_laws : PrismaLaws lossy_db.
Proof.
  split; intros ops d d' E table w f; unfold db_tx, db_batch, lossy_prisma, lossy_tx in E; injection E as _ <-;
    unfold cell, lossy_prisma, toy_cell; cbn [inner toy_log]; by rewrite apply_ops_app.
Qed.

#[export] Instance lossy_whole : WholeBatches lossy_db.
Proof.
  split; intros ops d d' e E; right; intros table w f; unfold db_tx, db_batch, lossy_prisma, lossy_tx in E; injection E as _ <-;
    unfold cell, lossy_prisma, toy_cell; cbn [inner toy_log]; by rewrite apply_ops_app.
Qed.

(** Key [k] has spent 1 and is charged 3. *)
Definition ex_rows : list (string * dict * string * Q) :=
  [("litellm_verificationtoken", [("token", PStr "k")], "spend", 1%Q);
   ("litellm_teammembership", [("team_id", PStr "red"); ("user_id", PStr "ann")], "spend", 1%Q)].

Definition ex_transactions : DBSpendUpdateTransactions :=
  dset "team_member_list_transactions" (Some [(DBSpendUpdateWriter.team_member_key "red" "ann", 3%Q)])
    (dset "key_list_transactions" (Some [("k", 3%Q)]) empty_transactions).

#[local] Existing Instance toy_runtime.
#[local] Existing Instance RedisCache.toy_client.
#[local] Existing Instance RedisCache.RedisCache_instance.
#[local] Abbreviation toy_world := (world toy_db (RedisCache.t RedisCache.toy)).
#[local] Abbreviation lossy_world := (world lossy_db (RedisCache.t RedisCache.toy)).

Definition ex_world (script : list (option exn)) : toy_world := mkWorld (mkToyDb ex_rows [] script) None.

Lemma ex_well_formed : well_formed ex_transactions.
Proof.
  split_and!; [| |repeat constructor; exists "red", "ann"; by split_and!].
  - intros f Hf. unfold transaction_fields in Hf. set_unfold. destruct_or!; subst; eexists; reflexivity.
  - intros f. unfold dict_of, ex_transactions. cbn [empty_transactions transaction_fields fmap list_fmap dset String.eqb Ascii.eqb Bool.eqb].
    cbn. repeat case_match; cbn; apply (bool_decide_unpack _); done.
Qed.

(** A lost connection after the commit: the retry counts the spend twice. *)
Theorem lost_reply_counts_twice :
  ∃ w' : lossy_world,
    _commit_spend_updates_to_db 0 PNone 1 ex_transactions (mkWorld (Lossy (mkToyDb ex_rows [] [Some DBConnectionError])) None) = (Ok (), w') ∧
    same_cell (cell (db w') "litellm_verificationtoken" [("token", PStr "k")] "spend") (Some 7%Q).
Proof. eexists. split; [reflexivity|]. by vm_compute; constructor. Qed.

Lemma commit_all_or_nothing_witness :
  (∃ w' : toy_world, _commit_spend_updates_to_db 0 PNone 1 ex_transactions (ex_world [Some DBConnectionError]) = (Ok (), w') ∧
    same_cell (cell (db w') "litellm_teammembership" (member_row "red" "ann") "spend") (Some 4%Q)) ∧
  (∃ (w' : lossy_world) (k : nat),
    _commit_spend_updates_to_db 0 PNone 1 ex_transactions (mkWorld (Lossy (mkToyDb ex_rows [] [Some DBConnectionError])) None) = (Ok (), w') ∧
    same_cell (cell (db w') "litellm_verificationtoken" [("token", PStr "k")] "spend")
      (Nat.iter k (expected KEY "k" ex_transactions) (Some 1%Q)) ∧ Z.of_nat k <= 2 ∧ (1 ≤ k)%nat).
Proof.
  split.
  - set (w := ex_world [Some DBConnectionError]). exists (_commit_spend_updates_to_db 0 PNone 1 ex_transactions w).2.
    split; [reflexivity|].
    destruct (commit_all_or_nothing 0 PNone 1 ex_transactions w (_commit_spend_updates_to_db 0 PNone 1 ex_transactions w).2
      (Ok ()) TEAM_MEMBER (DBSpendUpdateWriter.team_member_key "red" "ann") "litellm_teammembership" (member_row "red" "ann"))
      as [_ Hc]; [lia|apply ex_well_formed|reflexivity|reflexivity|]. exact (proj1 (Hc toy_kept) eq_refl).
  - set (w := mkWorld (Lossy (mkToyDb ex_rows [] [Some DBConnectionError])) None : lossy_world).
    exists (_commit_spend_updates_to_db 0 PNone 1 ex_transactions w).2.
    destruct (commit_all_or_nothing 0 PNone 1 ex_transactions w (_commit_spend_updates_to_db 0 PNone 1 ex_transactions w).2
      (Ok ()) KEY "k" "litellm_verificationtoken" [("token", PStr "k")]) as [(k & Hc & Hle & Hok) _];
      [lia|apply ex_well_formed|reflexivity|reflexivity|].
    exists k. split; [reflexivity|]. split; [exact Hc|]. split; [exact Hle|by apply Hok].
Defined.

(** A record of one request for a model, and a hundred and one of them. *)
Definition ex_record (model : string) : string * dict :=
  (model, [("user_id", PStr "ann"); ("date", PStr "2025-01-01"); ("api_key", PStr "k"); ("model", PStr model);
           ("custom_llm_provider", PStr "p"); ("prompt_tokens", PInt 5); ("completion_tokens", PInt 2);
           ("spend", PFloat 3); ("api_requests", PInt 1); ("successful_requests", PInt 1); ("failed_requests", PInt 0)]).

Definition ex_model (i : nat) : string := String (Ascii.ascii_of_nat (33 + i)) "".
Definition ex_records (n : nat) : list (string * dict) := (ex_record ∘ ex_model) <$> seq 0 n.

Definition ex_where (model : string) : dict :=
  match where_clause "user_id" (ex_record model).2 with Ok w => w | Raise _ => [] end.

Lemma daily_commit_exact_witness :
  let d := mkToyDb [] [] [Some DBConnectionError] in
  ∃ d' l', _update_daily_spend 1 "user" "user_id" "litellm_dailyuserspend" (d, ex_records 3) = (Ok (), (d', l')) ∧
    same_cell (cell d' "litellm_dailyuserspend" (ex_where (ex_model 1)) "spend")
      (row_after "user_id" "spend" (ex_where (ex_model 1)) (ex_records 3)
         (cell d "litellm_dailyuserspend" (ex_where (ex_model 1)) "spend")).
Proof.
  do 2 eexists. split; [reflexivity|].
  eapply (daily_commit_exact "user" "user_id" "litellm_dailyuserspend" 1 (mkToyDb [] [] [Some DBConnectionError]) (ex_records 3));
    [apply toy_kept|lia|unfold BATCH_SIZE; cbn; lia|reflexivity| | |reflexivity].
  - unfold DBSpendUpdateWriter.entity_fields. set_solver.
  - unfold DailySpendUpdateQueue.all_metrics, DailySpendUpdateQueue.metrics. set_solver.
Defined.

Lemma daily_commit_forgets_witness :
  let d := mkToyDb [] [] [] in
  ∃ d' l', _update_daily_spend 1 "user" "user_id" "litellm_dailyuserspend" (d, ex_records 101) = (Ok (), (d', l')) ∧
    same_cell (cell d' "litellm_dailyuserspend" (ex_where (ex_model 100)) "spend")
      (cell d "litellm_dailyuserspend" (ex_where (ex_model 100)) "spend").
Proof.
  do 2 eexists. split; [vm_compute; reflexivity|].
  eapply (daily_commit_forgets "user" "user_id" "litellm_dailyuserspend" 1 (mkToyDb [] [] []) (ex_records 101));
    [apply toy_kept|lia|vm_compute; reflexivity| | |vm_compute; reflexivity|vm_compute; reflexivity].
  - unfold DBSpendUpdateWriter.entity_fields. set_solver.
  - unfold DailySpendUpdateQueue.all_metrics, DailySpendUpdateQueue.metrics. set_solver.
Defined.
End SpendCommit.
