(* ===== verification/RedisBuffer.v ===== *)
(** * RedisBuffer: [redis_update_buffer.py] and the list commands of [redis_cache.py]

    With [use_redis_transaction_buffer] every proxy instance pushes its aggregated spend to
    lists in Redis, as JSON, and the instance that holds the lock drains them.  The client
    is the class [RedisLists]: a pipeline of list commands may raise, and [ListLaws] states
    what Redis documents for the replies and the lists.  JSON is the interpreter's; the
    theorems assume that it reads back what it wrote.  The major version of the server,
    read once from [INFO], is an argument; gauges and log texts are left out.

    Theorems: the two ways of draining, for servers with and without [LPOP key count],
    return the same batches; a store adds what the queues held to the lists and a drain
    returns what it takes from them, so spend is conserved from the queues of all
    instances to the commit. *)

From stdpp Require Import base gmap sets list strings.
From Stdlib Require Import ZArith QArith Lqa Lia ZifyBool.
From S2P Require Import Prelude Heapq PyHeapq PyStr SpendQueue SpendWriter SpendCommit.

#[local] Open Scope Z_scope.

(** ** The client *)

Inductive list_cmd : Type :=
| RPush (key : string) (values : list string)
| LPop (key : string)
| LPopCount (key : string) (count : Z).

(** A reply, or the exception a pipeline returns in its place. *)
Inductive reply : Type :=
| RInt (n : Z)
| RNil
| RText (s : string)
| RTexts (l : list string)
| RError (e : exn).

Class RedisLists (R : Type) := {
  rl_connect : M R unit;
  rl_execute : list list_cmd → M R (list reply);
  rl_list : R → string → list string
}.

(** The commands on the lists of a server. *)
Definition run_cmd (st : string → list string) (c : list_cmd) : reply * (string → list string) :=
  let set k l := λ k', if String.eqb k k' then l else st k' in
  match c with
  | RPush k vs => let l := st k ++ vs in (RInt (Z.of_nat (length l)), set k l)
  | LPop k => match st k with [] => (RNil, st) | x :: l => (RText x, set k l) end
  | LPopCount k n =>
      match st k with
      | [] => (RNil, st)
      | l => (RTexts (take (Z.to_nat n) l), set k (drop (Z.to_nat n) l))
      end
  end.

Fixpoint run_cmds (st : string → list string) (cs : list list_cmd) : list reply * (string → list string) :=
  match cs with
  | [] => ([], st)
  | c :: cs' => let '(r, st1) := run_cmd st c in let '(rs, st2) := run_cmds st1 cs' in (r :: rs, st2)
  end.

(** A pipeline that returns has run its commands in order. *)
Class ListLaws (R : Type) `{RedisLists R} := {
  connect_lists (r : R) k : rl_list (rl_connect r).2 k = rl_list r k;
  execute_runs cs (r r' : R) rs : rl_execute cs r = (Ok rs, r') →
    rs = (run_cmds (rl_list r) cs).1 ∧ ∀ k, rl_list r' k = (run_cmds (rl_list r) cs).2 k
}.

Module RedisLists.
Section ops.
Context {R : Type} `{RedisLists R} (major_version : Z).

(** Raise the first error among the replies. *)
Fixpoint raise_errors (rs : list reply) : res () :=
  match rs with
  | [] => Ok ()
  | RError e :: _ => Raise e
  | _ :: rs' => raise_errors rs'
  end.

Definition _pipeline_rpush_helper (rpush_list : list (string * list string)) : M R (list reply) :=
  results ← rl_execute ((λ op, RPush op.1 op.2) <$> rpush_list);
  m_lift (raise_errors results) ;;
  mret results.

Definition async_rpush_pipeline (rpush_list : list (string * list string)) : M R (list reply) :=
  match rpush_list with
  | [] => mret []
  | _ => rl_connect ;; _pipeline_rpush_helper rpush_list
  end.

(** [lpop_op["count"] or 1]. *)
Definition count_or_one (count : Z) : Z := if count =? 0 then 1 else count.

(** [[r for r in ... if r is not None]] of single pops. *)
Definition texts (rs : list reply) : list string :=
  omap (λ r, match r with RText s => Some s | _ => None end) rs.

Definition is_nil (r : reply) : bool := match r with RNil => true | _ => false end.

(** The replies of the single pops, regrouped by key. *)
Fixpoint regroup (counts : list Z) (flat : list reply) : list reply :=
  match counts with
  | [] => []
  | n :: counts' =>
      let key_results := filter (λ r, is_nil r = false) (take (Z.to_nat n) flat) in
      (match key_results with
       | [] => RNil
       | _ => RTexts (texts key_results)
       end) :: regroup counts' (drop (Z.to_nat n) flat)
  end.

(** The decoded result sets; the empty one is [None]. *)
Definition decode_reply (r : reply) : option (list string) :=
  match r with RTexts ((_ :: _) as l) => Some l | _ => None end.

Definition _pipeline_lpop_helper (lpop_list : list (string * Z)) : M R (list (option (list string))) :=
  raw_results ←
    (if 7 <=? major_version
     then rl_execute ((λ op, LPopCount op.1 op.2) <$> lpop_list)
     else
       flat_results ← rl_execute (mjoin ((λ op, replicate (Z.to_nat (count_or_one op.2)) (LPop op.1)) <$> lpop_list));
       mret (regroup ((λ op, count_or_one op.2) <$> lpop_list) flat_results));
  m_lift (raise_errors raw_results) ;;
  mret (decode_reply <$> raw_results).

Definition async_lpop_pipeline (lpop_list : list (string * Z)) : M R (list (option (list string))) :=
  match lpop_list with
  | [] => mret []
  | _ => rl_connect ;; _pipeline_lpop_helper lpop_list
  end.
End ops.

(** ** Draining *)

Section facts.
Context {R : Type} `{ListLaws R}.
Implicit Types (st : string → list string).

Lemma run_cmds_app st cs cs' :
  run_cmds st (cs ++ cs') =
  (let '(rs, st1) := run_cmds st cs in let '(rs', st2) := run_cmds st1 cs' in (rs ++ rs', st2)).
Proof.
  revert st. induction cs as [|c cs IH]; intros st; cbn [run_cmds app].
  - by destruct (run_cmds st cs').
  - destruct (run_cmd st c) as [r st1]. rewrite IH. destruct (run_cmds st1 cs) as [rs st2].
    by destruct (run_cmds st2 cs').
Qed.

Lemma run_cmds_length st cs : length (run_cmds st cs).1 = length cs.
Proof.
  revert st. induction cs as [|c cs IH]; intros st; cbn [run_cmds]; [done|].
  destruct (run_cmd st c) as [r st1]. specialize (IH st1). destruct (run_cmds st1 cs). cbn in *. by f_equal.
Qed.

(** Lists with the same contents. *)
Lemma run_cmd_ext st st' c : (∀ k, st k = st' k) →
  (run_cmd st c).1 = (run_cmd st' c).1 ∧ ∀ k, (run_cmd st c).2 k = (run_cmd st' c).2 k.
Proof.
  intros Hk. destruct c as [key vs|key|key n]; cbn [run_cmd]; rewrite (Hk key).
  - split; [done|]. intros k. cbn. by destruct (String.eqb key k).
  - destruct (st' key); cbn; (split; [done|]); intros k; [done|]. by destruct (String.eqb key k).
  - destruct (st' key); cbn; (split; [done|]); intros k; [done|]. by destruct (String.eqb key k).
Qed.

Lemma run_cmds_ext st st' cs : (∀ k, st k = st' k) →
  (run_cmds st cs).1 = (run_cmds st' cs).1 ∧ ∀ k, (run_cmds st cs).2 k = (run_cmds st' cs).2 k.
Proof.
  revert st st'. induction cs as [|c cs IH]; intros st st' Hk; cbn [run_cmds]; [done|].
  destruct (run_cmd_ext st st' c Hk) as [Hr Hs]. destruct (run_cmd st c) as [r1 s1], (run_cmd st' c) as [r2 s2].
  cbn in Hr, Hs. subst r2. destruct (IH s1 s2 Hs) as [Hr' Hs'].
  destruct (run_cmds s1 cs), (run_cmds s2 cs). cbn in *. by subst.
Qed.

(** Popping [n] times takes what popping [n] at once takes. *)
Lemma pop_many st k n :
  ∃ st', run_cmds st (replicate n (LPop k)) =
    ((RText <$> take n (st k)) ++ replicate (n - length (st k)) RNil, st') ∧
    ∀ k', st' k' = if String.eqb k k' then drop n (st k) else st k'.
Proof.
  revert st. induction n as [|n IH]; intros st; cbn [replicate run_cmds].
  - exists st. split; [done|]. intros k'. rewrite drop_0. by destruct (String.eqb_spec k k') as [->|].
  - cbn [run_cmd]. destruct (st k) as [|x l] eqn:E.
    + destruct (IH st) as (st' & -> & Hs). exists st'. rewrite E in Hs |- *. rewrite take_nil.
      split; [cbn [length]; by rewrite !Nat.sub_0_r|]. intros k'. rewrite Hs, !drop_nil. done.
    + destruct (IH (λ k', if String.eqb k k' then l else st k')) as (st' & -> & Hs). rewrite String.eqb_refl in Hs |- *.
      exists st'. split; [done|]. intros k'. rewrite Hs. by destruct (String.eqb k k').
Qed.

Lemma texts_pops (l : list string) : texts (RText <$> l) = l.
Proof. unfold texts. induction l as [|x l IH]; [done|]. rewrite fmap_cons. cbn. by rewrite IH. Qed.

Lemma regroup_pops (l : list string) m n counts flat :
  (length l + m)%nat = Z.to_nat n →
  regroup (n :: counts) (((RText <$> l) ++ replicate m RNil) ++ flat) =
  (match l with [] => RNil | _ => RTexts l end) :: regroup counts flat.
Proof.
  intros Hn. cbn [regroup]. rewrite take_app_length', drop_app_length' by (rewrite length_app, length_fmap, length_replicate; lia).
  f_equal. rewrite filter_app.
  assert (filter (λ r, is_nil r = false) (replicate m RNil) = []) as ->.
  { induction m as [|m IH]; [done|]. cbn [replicate]. rewrite filter_cons_False by done. clear -m.
    induction m as [|m IH]; [done|]. cbn [replicate]. by rewrite filter_cons_False. }
  rewrite app_nil_r. assert (filter (λ r, is_nil r = false) (RText <$> l) = RText <$> l) as ->.
  { clear. induction l as [|x l IH]; [done|]. rewrite fmap_cons, filter_cons_True by done. by rewrite IH. }
  destruct l as [|x l]; [done|]. rewrite fmap_cons. change (RText x :: (RText <$> l)) with (RText <$> x :: l). by rewrite texts_pops.
Qed.

(** The specification of a drain: the first [count] entries of every list, [None] for an
    empty one. *)
Definition some_texts (l : list string) : option (list string) := match l with [] => None | _ => Some l end.

Fixpoint drain (st : string → list string) (ops : list (string * Z)) : list (option (list string)) * (string → list string) :=
  match ops with
  | [] => ([], st)
  | (k, n) :: ops' =>
      let '(out, st') := drain (λ k', if String.eqb k k' then drop (Z.to_nat n) (st k) else st k') ops' in
      (some_texts (take (Z.to_nat n) (st k)) :: out, st')
  end.

Lemma drain_ext st st' ops : (∀ k, st k = st' k) →
  (drain st ops).1 = (drain st' ops).1 ∧ ∀ k, (drain st ops).2 k = (drain st' ops).2 k.
Proof.
  revert st st'. induction ops as [|[k n] ops IH]; intros st st' Hk; cbn [drain]; [done|].
  match goal with |- context [drain ?s ops] => pose proof (IH s (λ k', if String.eqb k k' then drop (Z.to_nat n) (st' k) else st' k')) as Hi end.
  destruct Hi as [H1 H2]; [intros k'; cbn; by rewrite !Hk|].
  destruct (drain _ ops) as [o1 s1], (drain _ ops) as [o2 s2]. cbn in *. rewrite Hk. by subst.
Qed.

Definition counted (ops : list (string * Z)) : Prop := Forall (λ op, 0 < op.2) ops.

Lemma take_some (n : Z) (x : string) l : 0 < n → ∃ y l', take (Z.to_nat n) (x :: l) = y :: l'.
Proof. intros Hn. destruct (Z.to_nat n) as [|m] eqn:E; [lia|]. cbn. eauto. Qed.

(** [LPOP key count] drains. *)
Lemma lpop_count_drains st ops :
  counted ops →
  let '(rs, st') := run_cmds st ((λ op, LPopCount op.1 op.2) <$> ops) in
  raise_errors rs = Ok () ∧ decode_reply <$> rs = (drain st ops).1 ∧ ∀ k, st' k = (drain st ops).2 k.
Proof.
  intros Hc. revert st. induction Hc as [|[k n] ops Hn Hc IH]; intros st; [done|]. cbn [fst snd] in Hn.
  rewrite fmap_cons. cbn [run_cmds drain fst snd].
  set (st1 := λ k', if String.eqb k k' then drop (Z.to_nat n) (st k) else st k').
  assert (∃ r s, run_cmd st (LPopCount k n) = (r, s) ∧ (∀ k', s k' = st1 k') ∧ raise_errors [r] = Ok () ∧
            decode_reply r = some_texts (take (Z.to_nat n) (st k))) as (r & s & -> & Hs & He & Hd).
  { cbn [run_cmd]. unfold st1. destruct (st k) as [|x l] eqn:E.
    - exists RNil, st. rewrite take_nil. split_and!; [done| |done..]. intros k'. rewrite drop_nil.
      by destruct (String.eqb_spec k k') as [<-|].
    - do 2 eexists. split; [reflexivity|]. split_and!; [done..|].
      destruct (take_some n x l Hn) as (y & l' & ->). done. }
  specialize (IH s). destruct (drain_ext s st1 ops Hs) as [H1 H2].
  destruct (run_cmds s _) as [rs st'], (drain st1 ops) as [o so]. destruct IH as (I1 & I2 & I3). cbn [fst snd] in *.
  split_and!.
  - destruct r; cbn in *; done.
  - rewrite fmap_cons, Hd, I2. cbn. by rewrite H1.
  - intros k'. by rewrite I3, H2.
Qed.

(** Single pops, regrouped, drain. *)
Lemma single_pops_drain st ops :
  counted ops →
  let '(rs, st') := run_cmds st (mjoin ((λ op, replicate (Z.to_nat (count_or_one op.2)) (LPop op.1)) <$> ops)) in
  let raw := regroup ((λ op, count_or_one op.2) <$> ops) rs in
  raise_errors raw = Ok () ∧ decode_reply <$> raw = (drain st ops).1 ∧ ∀ k, st' k = (drain st ops).2 k.
Proof.
  intros Hc. revert st. induction Hc as [|[k n] ops Hn Hc IH]; intros st; [done|]. cbn [fst snd] in Hn.
  rewrite !fmap_cons. cbn [mjoin list_join drain fst snd].
  assert (Hone : count_or_one n = n) by (unfold count_or_one; by replace (n =? 0) with false by lia).
  rewrite !Hone, run_cmds_app.
  destruct (pop_many st k (Z.to_nat n)) as (st1 & -> & Hs).
  set (st2 := λ k', if String.eqb k k' then drop (Z.to_nat n) (st k) else st k').
  specialize (IH st1). destruct (drain_ext st1 st2 ops Hs) as [H1 H2].
  change (list_join ((λ op, replicate (Z.to_nat (count_or_one op.2)) (LPop op.1)) <$> ops))
    with (mjoin ((λ op : string * Z, replicate (Z.to_nat (count_or_one op.2)) (LPop op.1)) <$> ops)).
  destruct (run_cmds st1 _) as [rs st'], (drain st2 ops) as [o so]. destruct IH as (I1 & I2 & I3). cbn [fst snd] in *.
  cbv zeta. rewrite regroup_pops by (rewrite length_take; lia).
  assert (Hd : ∀ l, decode_reply (match l with [] => RNil | _ => RTexts l end) = some_texts l) by (by intros []).
  split_and!.
  - by destruct (take _ (st k)).
  - rewrite fmap_cons, Hd, I2. by rewrite H1.
  - intros k'. by rewrite I3, H2.
Qed.

Lemma lpop_helper_drains v ops (r r' : R) out :
  counted ops → _pipeline_lpop_helper v ops r = (Ok out, r') →
  out = (drain (rl_list r) ops).1 ∧ ∀ k, rl_list r' k = (drain (rl_list r) ops).2 k.
Proof.
  intros Hc E. unfold _pipeline_lpop_helper in E. destruct (7 <=? v).
  - apply m_bind_ok in E as (raw & r2 & Ex & E). destruct (execute_runs _ _ _ _ Ex) as [-> Hl].
    pose proof (lpop_count_drains (rl_list r) ops Hc) as Hd.
    destruct (run_cmds _ _) as [rs st']. destruct Hd as (He & Hd & Hst). cbn [fst snd] in *.
    rewrite He in E. injection E as <- <-. split; [done|]. intros k. by rewrite Hl.
  - apply m_bind_ok in E as (raw & r2 & Ex & E). apply m_bind_ok in Ex as (flat & r3 & Ex & Er).
    destruct (execute_runs _ _ _ _ Ex) as [-> Hl]. injection Er as <- <-.
    pose proof (single_pops_drain (rl_list r) ops Hc) as Hd.
    destruct (run_cmds _ _) as [rs st']. destruct Hd as (He & Hd & Hst). cbn [fst snd] in *.
    rewrite He in E. injection E as <- <-. split; [done|]. intros k. by rewrite Hl.
Qed.

(** Whatever the version of the server, a drain that returns has taken the first [count]
    entries of every list, in order, and left the rest. *)
Lemma lpop_pipeline_drains v ops (r r' : R) out :
  counted ops → async_lpop_pipeline v ops r = (Ok out, r') →
  out = (drain (rl_list r) ops).1 ∧ ∀ k, rl_list r' k = (drain (rl_list r) ops).2 k.
Proof.
  intros Hc. destruct ops as [|op ops]; [by intros [= <- <-]|]. unfold async_lpop_pipeline.
  intros (u & r1 & Ec & E)%m_bind_ok. pose proof (connect_lists r) as Hcon. rewrite Ec in Hcon. cbn in Hcon.
  destruct (drain_ext (rl_list r1) (rl_list r) (op :: ops) Hcon) as [<- Hs]. setoid_rewrite <- Hs.
  by eapply lpop_helper_drains.
Qed.

(** A drain gives the same texts and leaves the same lists on a server that pops many
    entries at once and on one that pops them one by one. *)
Theorem server_versions_agree v v' ops (r r1 r2 : R) out out' :
  counted ops → v < 7 <= v' →
  async_lpop_pipeline v ops r = (Ok out, r1) → async_lpop_pipeline v' ops r = (Ok out', r2) →
  out = out' ∧ ∀ k, rl_list r1 k = rl_list r2 k.
Proof.
  intros Hc _ E1 E2. destruct (lpop_pipeline_drains _ _ _ _ _ Hc E1) as [-> H1].
  destruct (lpop_pipeline_drains _ _ _ _ _ Hc E2) as [-> H2]. split; [done|]. intros k. by rewrite H1, H2.
Qed.
End facts.
End RedisLists.

(** ** [litellm_core_utils/safe_json_dumps.py] *)

Definition DEFAULT_MAX_RECURSE_DEPTH : nat := 100.

Section json.
Context `{PyRuntime}.

(** [sorted(l)]. *)
Fixpoint insert_sorted (x : pyval) (l : list pyval) : res (list pyval) :=
  match l with
  | [] => Ok [x]
  | y :: l' => lt ← py_lt y x; if lt : bool then l'' ← insert_sorted x l'; Ok (y :: l'') else Ok (x :: y :: l')
  end.
Definition py_sorted (l : list pyval) : res (list pyval) :=
  foldr (λ x acc, acc ← acc; insert_sorted x acc) (Ok []) l.

(** [_serialize(obj, seen, depth)] with [fuel = max_depth + 1 - depth]; the values of the
    model are trees, so no object is met inside itself. *)
Fixpoint _serialize (fuel : nat) (obj : pyval) {struct fuel} : res pyval :=
  match fuel with
  | O => Ok (PStr "MaxDepthExceeded")
  | S fuel' =>
      match obj with
      | PNone | PBool _ | PInt _ | PFloat _ | PStr _ => Ok obj
      | PDict d => PDict <$> SpendCommit.res_map (λ kv, v ← _serialize fuel' kv.2; Ok (kv.1, v)) d
      | PList l => PList <$> SpendCommit.res_map (_serialize fuel') l
      | PTuple l => PTuple <$> SpendCommit.res_map (_serialize fuel') l
      | PSet l => l' ← SpendCommit.res_map (_serialize fuel') l; PList <$> py_sorted l'
      | PTimedelta _ => Ok (PStr (py_str obj))
      end
  end.

Definition safe_dumps (data : pyval) : res string :=
  safe_data ← _serialize (S DEFAULT_MAX_RECURSE_DEPTH) data;
  match json_dumps safe_data with Some s => Ok s | None => Raise TypeError end.

(** [json.loads] of a text. *)
Definition py_loads (s : string) : res pyval :=
  match json_loads s with Some v => Ok v | None => Raise ValueError end.
End json.

(** ** The buffer *)

Module RedisUpdateBuffer.
#[local] Abbreviation dict := (list (string * pyval)).
#[local] Abbreviation updates_dict := (list (string * dict)).
#[local] Abbreviation spend_dict := (list (string * Q)).

(** [secret_managers.str_to_bool]. *)
Definition str_to_bool (value : string) : option bool :=
  let value_lower := lower (strip value) in
  if String.eqb value_lower "true" then Some true
  else if String.eqb value_lower "false" then Some false
  else None.

(** The truth of what [_should_commit_spend_updates_to_redis] returns, from
    [general_settings.get("use_redis_transaction_buffer", False)]. *)
Definition _should_commit_spend_updates_to_redis (setting : pyval) : bool :=
  match setting with
  | PStr s => default false (str_to_bool s)
  | v => truthy v
  end.

Definition REDIS_UPDATE_BUFFER_KEY : string := "litellm_spend_update_buffer".
Definition buffer_key (k : DBSpendUpdateWriter.daily_kind) : string :=
  match k with
  | DBSpendUpdateWriter.DUser => "litellm_daily_spend_update_buffer"
  | DBSpendUpdateWriter.DTeam => "litellm_daily_team_spend_update_buffer"
  | DBSpendUpdateWriter.DOrg => "litellm_daily_org_spend_update_buffer"
  | DBSpendUpdateWriter.DEndUser => "litellm_daily_end_user_spend_update_buffer"
  | DBSpendUpdateWriter.DAgent => "litellm_daily_agent_spend_update_buffer"
  | DBSpendUpdateWriter.DTag => "litellm_daily_tag_spend_update_buffer"
  end.

(** The order of the queues in the store and in the drain. *)
Definition daily_kinds : list DBSpendUpdateWriter.daily_kind :=
  [DBSpendUpdateWriter.DUser; DBSpendUpdateWriter.DTeam; DBSpendUpdateWriter.DOrg; DBSpendUpdateWriter.DEndUser;
   DBSpendUpdateWriter.DAgent; DBSpendUpdateWriter.DTag].

(** The transactions as the dicts that are serialized. *)
Definition spend_val (d : spend_dict) : pyval := PDict ((λ x : string * Q, (x.1, PFloat x.2)) <$> d).
Definition transactions_val (t : DBSpendUpdateTransactions) : dict :=
  (λ x, (x.1, match x.2 with Some d => spend_val d | None => PNone end)) <$> t.
Definition daily_val (d : updates_dict) : dict := (λ x, (x.1, PDict x.2)) <$> d.

(** The parsed JSON read as transactions; any other shape fails where it is used. *)
Definition read_spend (v : pyval) : res (option spend_dict) :=
  match v with
  | PNone => Ok None
  | PDict d =>
      Some <$> SpendCommit.res_map (λ x, match as_num x.2 with Some q => Ok (x.1, q) | None => Raise TypeError end) d
  | _ => Raise AttributeError
  end.
Definition read_transactions (v : pyval) : res DBSpendUpdateTransactions :=
  match v with
  | PDict d => SpendCommit.res_map (λ x, o ← read_spend x.2; Ok (x.1, o)) d
  | _ => Raise AttributeError
  end.
Definition read_daily (v : pyval) : res updates_dict :=
  match v with
  | PDict d => SpendCommit.res_map (λ x, match x.2 with PDict tx => Ok (x.1, tx) | _ => Raise TypeError end) d
  | _ => Raise AttributeError
  end.

(** The inner loops of [_combine_list_of_transactions]. *)
Definition combine_field (transaction combined : DBSpendUpdateTransactions) (field : string) : DBSpendUpdateTransactions :=
  match mjoin (dget field transaction) with
  | Some ((_ :: _) as l) =>
      let add (acc : spend_dict) (x : string * Q) : spend_dict :=
        dset x.1 (default 0%Q (dget x.1 acc) + x.2)%Q acc in
      dset field (Some (foldl add (default [] (mjoin (dget field combined))) l)) combined
  | _ => combined
  end.

Definition _combine_list_of_transactions (l : list DBSpendUpdateTransactions) : DBSpendUpdateTransactions :=
  foldl (λ combined transaction, foldl (combine_field transaction) combined transaction_fields) empty_transactions l.

Section ops.
Context `{PyRuntime} {R : Type} `{RedisLists R} (cfg : config) (major_version : Z) (MAX_REDIS_BUFFER_DEQUEUE_COUNT : Z).

Definition _parse_list_of_transactions (l : list string) : res (list DBSpendUpdateTransactions) :=
  SpendCommit.res_map (λ s, v ← py_loads s; read_transactions v) l.

(** A proxy instance: its writer and, when it has one, its Redis. *)
Record node := mkNode { writer : DBSpendUpdateWriter.t; redis_cache : option R }.

Definition on_writer {A} (m : W DBSpendUpdateWriter.t A) : W node A :=
  w_zoom writer (λ w n, mkNode w (redis_cache n)) m.

Definition on_redis {A} (r : R) (m : M R A) : W node A := λ n,
  let '(x, r') := m r in Done x (mkNode (writer n) (Some r')).

(** The entries of the pipeline: one list entry per queue that is not empty. *)
Definition rpush_ops (configs : list (dict * string)) : res (list (string * list string)) :=
  SpendCommit.res_map (λ c, s ← safe_dumps (PDict c.1); Ok (c.2, [s]))
    (filter (λ c : dict * string, c.1 ≠ []) configs).

Definition flush_daily (k : DBSpendUpdateWriter.daily_kind) : W node updates_dict :=
  on_writer (DBSpendUpdateWriter.on_daily k
    (DailySpendUpdateQueue.flush_and_get_aggregated_daily_spend_update_transactions cfg)).

Definition store_in_memory_spend_updates_in_redis : W node unit :=
  n ← w_get;
  match redis_cache n with
  | None => mret ()
  | Some _ =>
      db ← on_writer (DBSpendUpdateWriter.on_spend
             (SpendUpdateQueue.flush_and_get_aggregated_db_spend_update_transactions cfg));
      user ← flush_daily DBSpendUpdateWriter.DUser;
      team ← flush_daily DBSpendUpdateWriter.DTeam;
      org ← flush_daily DBSpendUpdateWriter.DOrg;
      end_user ← flush_daily DBSpendUpdateWriter.DEndUser;
      agent ← flush_daily DBSpendUpdateWriter.DAgent;
      tag ← flush_daily DBSpendUpdateWriter.DTag;
      rpush_list ← w_lift (rpush_ops
        ((transactions_val db, REDIS_UPDATE_BUFFER_KEY) ::
         zip (daily_val <$> [user; team; org; end_user; agent; tag]) (buffer_key <$> daily_kinds)));
      n ← w_get;
      match rpush_list, redis_cache n with
      | _ :: _, Some r => on_redis r (RedisLists.async_rpush_pipeline rpush_list ;; mret ())
      | _, _ => mret ()
      end
  end.

(** The seven results of a drain, parsed and combined. *)
Record drained := mkDrained {
  db_spend : option DBSpendUpdateTransactions;
  daily_results : list (option updates_dict)
}.

Definition read_slot (raw : option (list string)) : res (option updates_dict) :=
  match raw with
  | None => Ok None
  | Some l =>
      list_of_daily ← SpendCommit.res_map (λ s, v ← py_loads s; read_daily v) l;
      Some <$> DailySpendUpdateQueue.get_aggregated_daily_spend_update_transactions list_of_daily
  end.

Definition lpop_list : list (string * Z) :=
  (REDIS_UPDATE_BUFFER_KEY, MAX_REDIS_BUFFER_DEQUEUE_COUNT) ::
  ((λ k, (buffer_key k, MAX_REDIS_BUFFER_DEQUEUE_COUNT)) <$> daily_kinds).

Definition get_all_transactions_from_redis_buffer_pipeline (r : R) : res drained * R :=
  (raw ← RedisLists.async_lpop_pipeline major_version lpop_list;
   let raw_results := raw ++ replicate (7 - length raw) None in
   db ← m_lift match mjoin (raw_results !! 0%nat) with
               | None => Ok None
               | Some l =>
                   parsed ← _parse_list_of_transactions l;
                   Ok (match parsed with [] => None | _ => Some (_combine_list_of_transactions parsed) end)
               end;
   daily ← m_lift (SpendCommit.res_map (λ slot, read_slot (mjoin (raw_results !! slot))) (seq 1 6));
   mret (mkDrained db daily)) r.
End ops.

(** ** Combining *)

Import SpendUpdateQueue (spend_of, owed, handed_spend).
Import SpendCommit (dict_of).

Definition add_amount (acc : spend_dict) (x : string * Q) : spend_dict := dset x.1 (default 0%Q (dget x.1 acc) + x.2)%Q acc.

Lemma add_amounts id acc (l : spend_dict) :
  dict_wf l → (default 0%Q (dget id (foldl add_amount acc l)) == default 0%Q (dget id acc) + default 0%Q (dget id l))%Q.
Proof.
  revert acc. induction l as [|[k a] l IH]; intros acc Hwf; cbn [foldl dget]; [cbn; ring|].
  unfold dict_wf, dkeys in Hwf. rewrite fmap_cons in Hwf. apply NoDup_cons in Hwf as [Hk Hwf].
  rewrite IH by done. unfold add_amount. cbn [fst snd]. rewrite dget_dset, (String.eqb_sym id k).
  destruct (String.eqb_spec k id) as [->|]; [|done]. rewrite (proj2 (dget_None id l) Hk). cbn. ring.
Qed.

Lemma add_amounts_wf acc l : dict_wf acc → dict_wf (foldl add_amount acc l).
Proof. revert acc. induction l as [|x l IH]; intros acc Ha; cbn [foldl]; [done|]. by apply IH, dset_wf. Qed.

Lemma combine_field_dict tr c f f' :
  dict_of (combine_field tr c f) f' =
  if String.eqb f f' then foldl add_amount (dict_of c f) (dict_of tr f) else dict_of c f'.
Proof.
  unfold combine_field, dict_of. destruct (mjoin (dget f tr)) as [[|x l]|] eqn:E.
  - cbn [default]. destruct (String.eqb_spec f f') as [<-|]; done.
  - rewrite dget_dset. destruct (String.eqb_spec f f') as [<-|]; done.
  - destruct (String.eqb_spec f f') as [<-|]; done.
Qed.

Lemma combine_fields_dict tr fs c f :
  NoDup fs →
  dict_of (foldl (combine_field tr) c fs) f =
  if bool_decide (f ∈ fs) then foldl add_amount (dict_of c f) (dict_of tr f) else dict_of c f.
Proof.
  intros Hnd. revert c. induction Hnd as [|g fs Hg Hnd IH]; intros c; cbn [foldl]; [done|].
  rewrite IH, combine_field_dict. destruct (String.eqb_spec g f) as [->|Hne].
  - rewrite bool_decide_false, bool_decide_true by set_solver. done.
  - assert (bool_decide (f ∈ g :: fs) = bool_decide (f ∈ fs)) as -> by (apply bool_decide_ext; set_solver). done.
Qed.

Lemma transaction_fields_NoDup : NoDup transaction_fields.
Proof. by apply (bool_decide_unpack _). Qed.

Lemma spend_of_dict ty id t f : entity_type_to_dict_key ty = Some f → spend_of ty id t = default 0%Q (dget id (dict_of t f)).
Proof. unfold spend_of, dict_of. by intros ->. Qed.

Definition dicts_wf (t : DBSpendUpdateTransactions) : Prop := ∀ f, dict_wf (dict_of t f).

Lemma combine_one ty id tr c :
  is_Some (entity_type_to_dict_key ty) → dicts_wf tr →
  (spend_of ty id (foldl (combine_field tr) c transaction_fields) == spend_of ty id c + spend_of ty id tr)%Q.
Proof.
  intros [f Hf] Hwf. rewrite !(spend_of_dict _ _ _ _ Hf), combine_fields_dict by exact transaction_fields_NoDup.
  rewrite bool_decide_true by (by eapply SpendUpdateQueue.dict_key_field). by apply add_amounts.
Qed.

Lemma combine_one_wf tr c : dicts_wf c → dicts_wf (foldl (combine_field tr) c transaction_fields).
Proof.
  intros Hc f. rewrite combine_fields_dict by exact transaction_fields_NoDup. case_bool_decide; [|done].
  by apply add_amounts_wf.
Qed.

Lemma empty_dicts f : dict_of empty_transactions f = [].
Proof.
  unfold dict_of, empty_transactions. generalize transaction_fields. intros l.
  induction l as [|g l IH]; [done|]. rewrite fmap_cons. cbn [dget]. by destruct (String.eqb f g).
Qed.

(** Combining the batches of a drain adds up the spend of every entity. *)
Lemma combine_spend ty id l :
  is_Some (entity_type_to_dict_key ty) → Forall dicts_wf l →
  (spend_of ty id (_combine_list_of_transactions l) == handed_spend ty id l)%Q.
Proof.
  intros Hty Hl. unfold _combine_list_of_transactions.
  enough (∀ c, (spend_of ty id (foldl (λ c t, foldl (combine_field t) c transaction_fields) c l) ==
                spend_of ty id c + handed_spend ty id l)%Q) as Hc.
  { rewrite Hc, SpendUpdateQueue.spend_of_empty. ring. }
  induction Hl as [|t l Ht Hl IH]; intros c; cbn [foldl handed_spend]; [ring|].
  rewrite IH, combine_one by done. ring.
Qed.

(** *** The JSON of the transactions *)

Lemma res_map_ext_ok {A B} (f : A → res B) (g : A → B) l :
  (∀ x, x ∈ l → f x = Ok (g x)) → SpendCommit.res_map f l = Ok (g <$> l).
Proof.
  induction l as [|x l IH]; intros Hf; cbn [SpendCommit.res_map]; [done|]. rewrite (Hf x) by by left.
  cbn [mbind res_bind]. rewrite IH by (intros y Hy; apply Hf; by right). done.
Qed.

Lemma read_transactions_val t : read_transactions (PDict (transactions_val t)) = Ok t.
Proof.
  unfold read_transactions, transactions_val.
  induction t as [|[f o] t IH]; [done|]. rewrite fmap_cons. cbn [SpendCommit.res_map fst snd].
  assert (read_spend (match o with Some d => spend_val d | None => PNone end) = Ok o) as ->.
  { destruct o as [d|]; [|done]. unfold spend_val. cbn [read_spend].
    assert (SpendCommit.res_map (λ x : string * pyval, match as_num x.2 with Some q => Ok (x.1, q) | None => Raise TypeError end)
              ((λ x : string * Q, (x.1, PFloat x.2)) <$> d) = Ok d) as ->; [|done].
    induction d as [|[i q] d IHd]; [done|]. rewrite fmap_cons. cbn [SpendCommit.res_map fst snd as_num mbind res_bind]. by rewrite IHd. }
  cbn [mbind res_bind]. by rewrite IH.
Qed.

Lemma serialize_dict `{PyRuntime} n d :
  _serialize (S n) (PDict d) = PDict <$> SpendCommit.res_map (λ kv, v ← _serialize n kv.2; Ok (kv.1, v)) d.
Proof. done. Qed.

(** A dict whose values are kept is kept. *)
Lemma serialize_kept `{PyRuntime} n d :
  (∀ kv, kv ∈ d → _serialize n kv.2 = Ok kv.2) → _serialize (S n) (PDict d) = Ok (PDict d).
Proof.
  intros Hd. rewrite serialize_dict, (res_map_ext_ok _ id); [by rewrite list_fmap_id|].
  intros [k v] Hx. specialize (Hd _ Hx). cbn [fst snd] in Hd |- *. by rewrite Hd.
Qed.

Lemma serialize_transactions `{PyRuntime} t n :
  _serialize (S (S (S n))) (PDict (transactions_val t)) = Ok (PDict (transactions_val t)).
Proof.
  apply serialize_kept. intros [k v] Hx. apply list_elem_of_fmap in Hx as ([k' o] & [= -> ->] & _). cbn [fst snd].
  destruct o as [d|]; [|done]. apply serialize_kept. intros [i u] Hi.
  apply list_elem_of_fmap in Hi as ([i' q] & [= -> ->] & _). done.
Qed.

(** ** Storing and draining *)

(** JSON reads back the transactions it wrote. *)
Class TransactionsRoundtrip `{PyRuntime} : Prop :=
  transactions_roundtrip t s :
    json_dumps (PDict (transactions_val t)) = Some s → json_loads s = Some (PDict (transactions_val t)).

Section facts.
Context `{PyRuntime} {R : Type} `{ListLaws R} `{!TransactionsRoundtrip} (cfg : config) (v count : Z).

Definition parse (s : string) : res DBSpendUpdateTransactions := x ← py_loads s; read_transactions x.

(** What the entries of the list hold for an entity. *)
Fixpoint buffered (ty : Litellm_EntityType) (id : string) (l : list string) : Q :=
  match l with
  | [] => 0%Q
  | s :: l' => ((match parse s with Ok t => spend_of ty id t | Raise _ => 0 end) + buffered ty id l')%Q
  end.

Definition buffer_ok (l : list string) : Prop := Forall (λ s, ∃ t, parse s = Ok t ∧ dicts_wf t) l.

Lemma buffered_app ty id l l' : (buffered ty id (l ++ l') == buffered ty id l + buffered ty id l')%Q.
Proof. induction l as [|s l IH]; cbn [buffered app]; [ring|]. rewrite IH. ring. Qed.

Lemma safe_dumps_parse t s : safe_dumps (PDict (transactions_val t)) = Ok s → parse s = Ok t.
Proof.
  pose proof (serialize_transactions t 98) as Hs. change (S (S (S 98))) with (S DEFAULT_MAX_RECURSE_DEPTH) in Hs.
  unfold safe_dumps. rewrite Hs. cbn [mbind res_bind].
  destruct (json_dumps _) as [s'|] eqn:E; [|done]. intros [= <-].
  unfold parse, py_loads. rewrite (transactions_roundtrip _ _ E). apply read_transactions_val.
Qed.

Lemma safe_dumps_total t : is_Some (json_dumps (PDict (transactions_val t))) → ∃ s, safe_dumps (PDict (transactions_val t)) = Ok s.
Proof.
  pose proof (serialize_transactions t 98) as Hs. change (S (S (S 98))) with (S DEFAULT_MAX_RECURSE_DEPTH) in Hs.
  intros [s Es]. exists s. unfold safe_dumps. rewrite Hs. cbn [mbind res_bind]. by rewrite Es.
Qed.

Lemma parse_all l : buffer_ok l → ∃ ts, _parse_list_of_transactions l = Ok ts ∧ Forall dicts_wf ts ∧ length ts = length l ∧
  ∀ ty id, (handed_spend ty id ts == buffered ty id l)%Q.
Proof.
  unfold _parse_list_of_transactions. induction 1 as [|s l (t & Et & Hwf) Hl (ts & IH & Hts & Hlen & Ho)]; cbn [SpendCommit.res_map].
  { exists []. split_and!; [done..|]. intros; reflexivity. }
  fold (parse s). rewrite Et. cbn [mbind res_bind]. change (λ s, v ← py_loads s; read_transactions v) with parse in *.
  rewrite IH. exists (t :: ts). split_and!; [done|by constructor|cbn; by f_equal|].
  intros ty id. cbn [handed_spend buffered]. rewrite Et, Ho. reflexivity.
Qed.

(** *** Drain *)

Lemma drain_cons st k n ops :
  let st1 := λ k', if String.eqb k k' then drop (Z.to_nat n) (st k) else st k' in
  (RedisLists.drain st ((k, n) :: ops)).1 = RedisLists.some_texts (take (Z.to_nat n) (st k)) :: (RedisLists.drain st1 ops).1 ∧
  (RedisLists.drain st ((k, n) :: ops)).2 = (RedisLists.drain st1 ops).2.
Proof. cbn [RedisLists.drain]. by destruct (RedisLists.drain _ ops). Qed.

Lemma drain_other st ops k : k ∉ ops.*1 → (RedisLists.drain st ops).2 k = st k.
Proof.
  revert st. induction ops as [|[k' n] ops IH]; intros st Hk; [done|]. rewrite fmap_cons, not_elem_of_cons in Hk. destruct Hk as [Hne Hk].
  rewrite (proj2 (drain_cons st k' n ops)), IH by done. cbn in Hne. by rewrite (proj2 (String.eqb_neq k' k)) by congruence.
Qed.

Lemma buffer_keys_other k : buffer_key k ≠ REDIS_UPDATE_BUFFER_KEY.
Proof. by destruct k. Qed.

(** A drain hands over the oldest batches of the list and leaves the others. *)
Lemma drain_spend (r r' : R) d :
  0 < count → buffer_ok (rl_list r REDIS_UPDATE_BUFFER_KEY) →
  get_all_transactions_from_redis_buffer_pipeline v count r = (Ok d, r') →
  buffer_ok (rl_list r' REDIS_UPDATE_BUFFER_KEY) ∧
  ∀ ty id, is_Some (entity_type_to_dict_key ty) →
    (match db_spend d with Some t => spend_of ty id t | None => 0 end + buffered ty id (rl_list r' REDIS_UPDATE_BUFFER_KEY) ==
     buffered ty id (rl_list r REDIS_UPDATE_BUFFER_KEY))%Q.
Proof.
  intros Hc Hok E. unfold get_all_transactions_from_redis_buffer_pipeline in E.
  apply m_bind_ok in E as (raw & r1 & El & E).
  apply RedisLists.lpop_pipeline_drains in El as [-> Hl]; [|repeat constructor; exact Hc].
  assert (Hkey : rl_list r1 REDIS_UPDATE_BUFFER_KEY = drop (Z.to_nat count) (rl_list r REDIS_UPDATE_BUFFER_KEY)).
  { rewrite Hl. unfold lpop_list. rewrite (proj2 (drain_cons _ _ _ _)), drain_other; [by rewrite String.eqb_refl|].
    rewrite <- list_fmap_compose. intros (k & Hk & _)%list_elem_of_fmap. by apply (buffer_keys_other k). }
  assert (Hraw : ∃ out, (RedisLists.drain (rl_list r) (lpop_list count)).1 =
    RedisLists.some_texts (take (Z.to_nat count) (rl_list r REDIS_UPDATE_BUFFER_KEY)) :: out).
  { eexists. exact (proj1 (drain_cons _ _ _ _)). }
  destruct Hraw as [out Hraw]. rewrite Hraw in E. clear Hraw Hl.
  cbn [app lookup list_lookup] in E. change (mjoin (Some ?x)) with x in E.
  apply m_bind_ok in E as (db & r2 & Edb & E). apply m_bind_ok in E as (daily & r3 & Edl & E).
  injection E as <- <-. injection Edl as _ <-. injection Edb as Edb <-. cbn [db_spend].
  set (l := rl_list r REDIS_UPDATE_BUFFER_KEY) in *. rewrite Hkey.
  assert (Hok' : buffer_ok (take (Z.to_nat count) l) ∧ buffer_ok (drop (Z.to_nat count) l)).
  { apply Forall_app. by rewrite take_drop. }
  destruct Hok' as [Hok1 Hok2]. split; [done|]. intros ty id Hty.
  rewrite <- (take_drop (Z.to_nat count) l) at 2. rewrite buffered_app.
  destruct (parse_all _ Hok1) as (ts & Ep & Hwf & Hlen & Ho).
  destruct (take (Z.to_nat count) l) as [|s l'] eqn:Et; cbn [RedisLists.some_texts] in Edb.
  - injection Edb as <-. cbn. ring.
  - rewrite Ep in Edb. cbn [mbind res_bind] in Edb. destruct ts as [|t ts]; [done|]. injection Edb as <-.
    rewrite combine_spend by done. by rewrite Ho.
Qed.

(** *** Store *)

(** A pipeline of pushes appends to every list the values pushed to it, in order. *)
Definition pushed_to (k : string) (ops : list (string * list string)) : list string :=
  mjoin ((λ op : string * list string, if String.eqb op.1 k then op.2 else []) <$> ops).

Lemma run_pushes st ops k : (run_cmds st ((λ op, RPush op.1 op.2) <$> ops)).2 k = st k ++ pushed_to k ops.
Proof.
  revert st. induction ops as [|[k' vs] ops IH]; intros st; [by rewrite app_nil_r|]. rewrite fmap_cons. cbn [run_cmds run_cmd fst snd].
  match goal with |- context [run_cmds ?s _] => specialize (IH s) end.
  destruct (run_cmds _ _) as [rs st']. cbn [snd] in *. rewrite IH. unfold pushed_to. rewrite fmap_cons. cbn [mjoin list_join fst snd].
  destruct (String.eqb_spec k' k) as [->|]; [by rewrite <- app_assoc|done].
Qed.

Lemma push_pipeline_appends ops (r r' : R) k u :
  (RedisLists.async_rpush_pipeline ops ;; mret ()) r = (Ok u, r') → rl_list r' k = rl_list r k ++ pushed_to k ops.
Proof.
  intros (rs & r1 & E & [= _ <-])%m_bind_ok. destruct ops as [|op ops]; [injection E as _ <-; by rewrite app_nil_r|].
  unfold RedisLists.async_rpush_pipeline in E. apply m_bind_ok in E as ([] & r2 & Ec & E).
  unfold RedisLists._pipeline_rpush_helper in E. apply m_bind_ok in E as (rs' & r3 & Ex & E).
  apply m_bind_ok in E as (u' & r4 & Er & E). injection Er as _ <-. injection E as _ <-.
  destruct (execute_runs _ _ _ _ Ex) as [_ ->]. rewrite run_pushes. pose proof (connect_lists r k) as Hcon.
  rewrite Ec in Hcon. cbn in Hcon. by rewrite Hcon.
Qed.

Lemma pushed_to_none k ops : Forall (λ op : string * list string, op.1 ≠ k) ops → pushed_to k ops = [].
Proof.
  unfold pushed_to. induction 1 as [|op ops Hop Ho IH]; [done|]. rewrite fmap_cons. cbn [mjoin list_join].
  rewrite (proj2 (String.eqb_neq _ _) Hop). exact IH.
Qed.

Lemma rpush_ops_keys configs ops k :
  rpush_ops configs = Ok ops → Forall (λ c : dict * string, c.2 ≠ k) configs → Forall (λ op : string * list string, op.1 ≠ k) ops.
Proof.
  unfold rpush_ops. intros E Hc.
  assert (Hf : Forall (λ c : dict * string, c.2 ≠ k) (filter (λ c : dict * string, c.1 ≠ []) configs)).
  { rewrite Forall_forall in Hc |- *. intros c [_ Hin]%list_elem_of_filter. by apply Hc. }
  clear Hc. revert ops E. induction Hf as [|c l Hk Hl IH]; intros ops; cbn [SpendCommit.res_map]; [by intros [= <-]|].
  destruct (safe_dumps _) as [s|]; [|done]. cbn [mbind res_bind]. destruct (SpendCommit.res_map _ l) as [ops'|]; [|done].
  intros [= <-]. constructor; [done|by apply IH].
Qed.

Lemma rpush_ops_cons c configs ops :
  c.1 ≠ [] → rpush_ops (c :: configs) = Ok ops →
  ∃ s ops', safe_dumps (PDict c.1) = Ok s ∧ rpush_ops configs = Ok ops' ∧ ops = (c.2, [s]) :: ops'.
Proof.
  intros Hne. unfold rpush_ops. rewrite filter_cons_True by done. cbn [SpendCommit.res_map].
  destruct (safe_dumps _) as [s|]; [|done]. cbn [mbind res_bind].
  destruct (SpendCommit.res_map _ _) as [ops'|]; [|done]. intros [= <-]. eauto.
Qed.

(** The spend transactions have their eight fields, so they are never skipped as empty. *)
Lemma aggregated_nonempty l t : t ≠ [] → foldl SpendUpdateQueue.add_transaction t l ≠ [].
Proof.
  revert t. induction l as [|u l IH]; intros t Ht; [done|]. cbn [foldl]. apply IH. unfold SpendUpdateQueue.add_transaction.
  destruct (entity_type u) as [ty|]; [|done]. destruct (entity_type_to_dict_key ty); [|done].
  destruct t as [|[k x] t]; [done|]. cbn [dset]. by destruct (String.eqb _ _).
Qed.

Lemma aggregated_wf l t : dicts_wf t → dicts_wf (foldl SpendUpdateQueue.add_transaction t l).
Proof.
  revert t. induction l as [|u l IH]; intros t Ht; [done|]. cbn [foldl]. apply IH. unfold SpendUpdateQueue.add_transaction.
  destruct (entity_type u) as [ty|]; [|done]. destruct (entity_type_to_dict_key ty) as [f|]; [|done].
  intros g. unfold dict_of. rewrite dget_dset. destruct (String.eqb f g) eqn:E; [|apply Ht].
  change (mjoin (Some ?x)) with x. change (default [] (Some ?x)) with x. apply dset_wf. apply (Ht f).
Qed.

#[local] Abbreviation queue n := (DBSpendUpdateWriter.spend_update_queue (writer n)).

(** A step that touches neither the spend queue nor Redis. *)
Lemma flush_daily_keeps k (n n' : @node R) d :
  flush_daily cfg k n = Done (Ok d) n' → queue n' = queue n ∧ redis_cache n' = redis_cache n.
Proof.
  unfold flush_daily, on_writer, w_zoom.
  pose proof (DBSpendUpdateWriter.quiet_daily k
    (DailySpendUpdateQueue.flush_and_get_aggregated_daily_spend_update_transactions cfg) (writer n)) as Hq.
  destruct (DBSpendUpdateWriter.on_daily _ _ (writer n)) as [rr w|]; [|done]. intros [= _ <-]. done.
Qed.

(** A store that returns has moved what it took from the queue to the end of the list. *)
Lemma store_spend (n n' : @node R) r :
  redis_cache n = Some r → store_in_memory_spend_updates_in_redis cfg n = Done (Ok ()) n' →
  ∃ r' t s, redis_cache n' = Some r' ∧ rl_list r' REDIS_UPDATE_BUFFER_KEY = rl_list r REDIS_UPDATE_BUFFER_KEY ++ [s] ∧
    parse s = Ok t ∧ dicts_wf t ∧ (Forall SpendUpdateQueue.named (queue n) → Forall SpendUpdateQueue.named (queue n')) ∧
    qsize (queue n') <= qsize (queue n) ∧
    ∀ ty id, is_Some (entity_type_to_dict_key ty) → (spend_of ty id t + owed ty id (queue n') == owed ty id (queue n))%Q.
Proof.
  intros Hr E. unfold store_in_memory_spend_updates_in_redis in E.
  rewrite (w_bind_done w_get _ n _ _ eq_refl), Hr in E.
  apply w_bind_done_inv in E as (t & n1 & Ef & E).
  assert (Hn1 : redis_cache n1 = Some r ∧ t ≠ [] ∧ dicts_wf t ∧
    (Forall SpendUpdateQueue.named (queue n) → Forall SpendUpdateQueue.named (queue n1)) ∧ qsize (queue n1) <= qsize (queue n) ∧
    ∀ ty id, is_Some (entity_type_to_dict_key ty) → (spend_of ty id t + owed ty id (queue n1) == owed ty id (queue n))%Q).
  { unfold on_writer, DBSpendUpdateWriter.on_spend, w_zoom in Ef.
    unfold SpendUpdateQueue.flush_and_get_aggregated_db_spend_update_transactions in Ef.
    destruct (BaseUpdateQueue.flush_split cfg (queue n)) as (m & Hm & _). rewrite (w_bind_done _ _ _ _ _ Hm) in Ef.
    injection Ef as <- <-. cbn [writer redis_cache DBSpendUpdateWriter.spend_update_queue DBSpendUpdateWriter.set_spend_queue].
    split_and!; [done|by apply aggregated_nonempty| |apply Forall_drop|unfold qsize; rewrite length_drop; lia|].
    - apply aggregated_wf. intros f. rewrite empty_dicts. apply NoDup_nil_2.
    - intros ty id Hty. rewrite SpendUpdateQueue.spend_of_aggregated by done. apply SpendUpdateQueue.owed_split. }
  destruct Hn1 as (Hr1 & Hne & Hwf & Hnamed & Hsz & Ho).
  apply w_bind_done_inv in E as (u1 & n2 & [Q2 R2]%flush_daily_keeps & E).
  apply w_bind_done_inv in E as (u2 & n3 & [Q3 R3]%flush_daily_keeps & E).
  apply w_bind_done_inv in E as (u3 & n4 & [Q4 R4]%flush_daily_keeps & E).
  apply w_bind_done_inv in E as (u4 & n5 & [Q5 R5]%flush_daily_keeps & E).
  apply w_bind_done_inv in E as (u5 & n6 & [Q6 R6]%flush_daily_keeps & E).
  apply w_bind_done_inv in E as (u6 & n7 & [Q7 R7]%flush_daily_keeps & E).
  apply w_bind_done_inv in E as (ops & n8 & Eops & E). injection Eops as Eops <-.
  rewrite (w_bind_done w_get _ n7 _ _ eq_refl) in E.
  assert (Hq7 : queue n7 = queue n1 ∧ redis_cache n7 = Some r) by (split; congruence). destruct Hq7 as [Hq7 Hr7].
  apply rpush_ops_cons in Eops as (s & ops' & Es & Eops & ->); [|by destruct t].
  rewrite Hr7 in E. cbn [fst snd] in *. unfold on_redis in E.
  destruct ((RedisLists.async_rpush_pipeline _ ;; mret ()) r) as [x r'] eqn:Ep. injection E as -> <-.
  exists r', t, s. cbn [writer redis_cache]. rewrite Hq7. split_and!; [done| |by apply safe_dumps_parse|done..].
  rewrite (push_pipeline_appends _ _ _ REDIS_UPDATE_BUFFER_KEY _ Ep). f_equal.
  change (([s] ++ pushed_to REDIS_UPDATE_BUFFER_KEY ops') = [s]). rewrite pushed_to_none; [done|].
  eapply rpush_ops_keys; [exact Eops|]. by repeat constructor.
Qed.

(** ** A cluster of proxies *)

(** The writers of the instances, the Redis they share, the transactions drained for
    commit and the updates charged so far. *)
Record cluster := mkCluster {
  nodes : list DBSpendUpdateWriter.t;
  shared : R;
  for_commit : list DBSpendUpdateTransactions;
  charged : list SpendUpdateQueueItem
}.

#[local] Abbreviation spend_queue := DBSpendUpdateWriter.spend_update_queue.

Inductive step : cluster → cluster → Prop :=
| step_charge i w u q' ns r out acc :
    ns !! i = Some w → SpendUpdateQueue.named u →
    SpendUpdateQueue.add_update cfg u (spend_queue w) = Done (Ok ()) q' →
    step (mkCluster ns r out acc) (mkCluster (<[i := DBSpendUpdateWriter.set_spend_queue q' w]> ns) r out (acc ++ [u]))
| step_store i w w' ns r r' out acc :
    ns !! i = Some w →
    store_in_memory_spend_updates_in_redis cfg (mkNode w (Some r)) = Done (Ok ()) (mkNode w' (Some r')) →
    step (mkCluster ns r out acc) (mkCluster (<[i := w']> ns) r' out acc)
| step_drain d ns r r' out acc :
    get_all_transactions_from_redis_buffer_pipeline v count r = (Ok d, r') →
    step (mkCluster ns r out acc) (mkCluster ns r' (out ++ option_list (db_spend d)) acc).

Fixpoint owed_by (ty : Litellm_EntityType) (id : string) (ns : list DBSpendUpdateWriter.t) : Q :=
  match ns with [] => 0%Q | w :: ns' => (owed ty id (spend_queue w) + owed_by ty id ns')%Q end.

Lemma owed_by_insert ty id i w w' ns :
  ns !! i = Some w →
  (owed_by ty id (<[i := w']> ns) + owed ty id (spend_queue w) == owed_by ty id ns + owed ty id (spend_queue w'))%Q.
Proof.
  revert i. induction ns as [|x ns IH]; intros [|i]; cbn [lookup list_lookup]; [done..| |].
  - intros [= ->]. cbn. ring.
  - intros Hi. specialize (IH i Hi). change (<[S i := w']> (x :: ns)) with (x :: <[i := w']> ns). cbn [owed_by].
    rewrite <- !Qplus_assoc, IH. ring.
Qed.

Record conserving (c : cluster) : Prop := {
  c_buffer : buffer_ok (rl_list (shared c) REDIS_UPDATE_BUFFER_KEY);
  c_queues : Forall (λ w, SpendUpdateQueue.bounded cfg (spend_queue w) ∧ Forall SpendUpdateQueue.named (spend_queue w)) (nodes c);
  c_spend ty id : is_Some (entity_type_to_dict_key ty) →
    (handed_spend ty id (for_commit c) + buffered ty id (rl_list (shared c) REDIS_UPDATE_BUFFER_KEY) +
     owed_by ty id (nodes c) == owed ty id (charged c))%Q
}.

Lemma step_conserving c c' : 0 < count → step c c' → conserving c → conserving c'.
Proof.
  intros Hcount Hs [Hb Hq Hsp]. destruct Hs as [i w u q' ns r out acc Hi Hu E|i w w' ns r r' out acc Hi E|d ns r r' out acc E];
    cbn [nodes shared for_commit charged] in *.
  - destruct (proj1 (Forall_lookup _ _) Hq i w Hi) as [Hbw Hnw].
    destruct (SpendUpdateQueue.add_update_spec cfg u _ Hbw Hnw Hu) as [[_ E']|(q1 & E' & Hb1 & Hn1 & Ho)]; [by rewrite E' in E|].
    assert (q1 = q') as -> by congruence. split; cbn [nodes shared for_commit charged]; [done|by apply Forall_insert|].
    intros ty id Hty. pose proof (owed_by_insert ty id i w (DBSpendUpdateWriter.set_spend_queue q' w) ns Hi) as Hins.
    cbn [DBSpendUpdateWriter.spend_update_queue DBSpendUpdateWriter.set_spend_queue] in Hins. rewrite Ho in Hins.
    rewrite SpendUpdateQueue.owed_app, <- (Hsp ty id Hty). cbn [owed]. lra.
  - destruct (proj1 (Forall_lookup _ _) Hq i w Hi) as [Hbw Hnw].
    destruct (store_spend (mkNode w (Some r)) _ r eq_refl E) as (r1 & t & s & [= <-] & Hl & Hp & Hwf & Hnamed & Hsz & Ho).
    cbn [writer] in *. split; cbn [nodes shared for_commit charged].
    + rewrite Hl. apply Forall_app. split; [done|]. constructor; [eauto|constructor].
    + apply Forall_insert; [done|]. split; [unfold SpendUpdateQueue.bounded in *; lia|auto].
    + intros ty id Hty. pose proof (owed_by_insert ty id i w w' ns Hi) as Hins. rewrite <- (Ho ty id Hty) in Hins.
      rewrite Hl, buffered_app. cbn [buffered]. rewrite Hp, <- (Hsp ty id Hty). lra.
  - destruct (drain_spend r r' d Hcount Hb E) as [Hb' Ho]. split; cbn [nodes shared for_commit charged]; [done..|].
    intros ty id Hty. rewrite SpendUpdateQueue.handed_app. rewrite <- (Hsp ty id Hty), <- (Ho ty id Hty).
    destruct (db_spend d) as [t|]; [change (option_list (Some t)) with [t]|change (option_list None) with (@nil DBSpendUpdateTransactions)]; cbn [handed_spend]; ring.
Qed.

(** C11: However many proxies share the Redis and however their charges, stores and drains
    interleave, as long as every push to the lists and every drain of them succeeds: the
    spend drained for commit, the spend in the lists and the spend in the queues of all
    instances add up to what every entity has been charged, if they did at the start.
    (A push that fails loses what it took from the queue: [failed_push_loses].) *)
Theorem cluster_conserves_spend c c' ty id :
  0 < count → conserving c → rtc step c c' → is_Some (entity_type_to_dict_key ty) →
  (handed_spend ty id (for_commit c') + buffered ty id (rl_list (shared c') REDIS_UPDATE_BUFFER_KEY) +
   owed_by ty id (nodes c') == owed ty id (charged c'))%Q.
Proof.
  intros Hcount Hc Hr Hty. assert (conserving c') as [_ _ H']; [|by apply H'].
  clear Hty. induction Hr; [done|]. eauto using step_conserving.
Qed.

(** When the push fails, what the store had taken from the queue is gone. *)
Theorem failed_push_loses (w : DBSpendUpdateWriter.t) r r1 e :
  qsize (spend_queue w) <= MAX_IN_MEMORY_QUEUE_FLUSH_COUNT cfg → (∀ k, DBSpendUpdateWriter.daily_queue k w = []) →
  (∀ x, is_Some (json_dumps x)) → rl_connect r = (Ok (), r1) → (∀ cs, rl_execute cs r1 = (Raise e, r1)) →
  ∃ n', store_in_memory_spend_updates_in_redis cfg (mkNode w (Some r)) = Done (Raise e) n' ∧
    queue n' = [] ∧ redis_cache n' = Some r1.
Proof.
  intros Hsz Hd Hj Hcon Hex. unfold store_in_memory_spend_updates_in_redis.
  rewrite (w_bind_done w_get _ _ _ _ eq_refl). cbn [redis_cache].
  set (w1 := DBSpendUpdateWriter.set_spend_queue [] w).
  set (t := SpendUpdateQueue.get_aggregated_db_spend_update_transactions (spend_queue w)).
  rewrite (w_bind_done _ _ _ t (mkNode w1 (Some r))).
  2: { unfold on_writer, DBSpendUpdateWriter.on_spend, w_zoom, SpendUpdateQueue.flush_and_get_aggregated_db_spend_update_transactions.
       cbn [writer]. by rewrite (w_bind_done _ _ _ _ _ (BaseUpdateQueue.flush_all cfg _ Hsz)). }
  assert (Hflush : ∀ k, flush_daily cfg k (mkNode w1 (Some r)) = Done (Ok []) (mkNode w1 (Some r))).
  { intros k. unfold flush_daily, on_writer, DBSpendUpdateWriter.on_daily, w_zoom. cbn [writer].
    assert (Hk : DBSpendUpdateWriter.daily_queue k w1 = []) by (rewrite <- (Hd k); by destruct k).
    rewrite Hk. cbn. f_equal. f_equal. pose proof (Hd k) as Hk'. destruct w, k; cbn in *; by subst. }
  do 6 rewrite (w_bind_done _ _ _ _ _ (Hflush _)).
  assert (∃ s, rpush_ops ((transactions_val t, REDIS_UPDATE_BUFFER_KEY) ::
     zip (daily_val <$> [[]; []; []; []; []; []]) (buffer_key <$> daily_kinds)) = Ok [(REDIS_UPDATE_BUFFER_KEY, [s])]) as [s Hs].
  { destruct (safe_dumps_total t (Hj _)) as [s Es]. exists s. unfold rpush_ops. rewrite filter_cons_True.
    - cbn [SpendCommit.res_map fst snd]. by rewrite Es.
    - cbn [fst]. unfold t, SpendUpdateQueue.get_aggregated_db_spend_update_transactions, transactions_val.
      intros Hnil%fmap_nil_inv. by apply aggregated_nonempty in Hnil. }
  rewrite (w_bind_done _ _ _ [(REDIS_UPDATE_BUFFER_KEY, [s])] (mkNode w1 (Some r))) by (unfold w_lift; by rewrite Hs).
  rewrite (w_bind_done w_get _ (mkNode w1 (Some r)) _ _ eq_refl). cbn [redis_cache]. unfold on_redis.
  assert ((RedisLists.async_rpush_pipeline [(REDIS_UPDATE_BUFFER_KEY, [s])] ;; mret ()) r = (Raise e, r1)) as ->.
  { unfold RedisLists.async_rpush_pipeline, RedisLists._pipeline_rpush_helper, mbind, M_bind. by rewrite Hcon, Hex. }
  eexists. done.
Qed.
End facts.

(** ** A server in memory and a run *)

Record toy_server := mkServer { server_lists : string → list string; server_fails : bool }.

#[export] Instance toy_lists : RedisLists toy_server := {|
  rl_connect := mret ();
  rl_execute cs s :=
    if server_fails s then (Raise RuntimeError, s)
    else let '(rs, st) := run_cmds (server_lists s) cs in (Ok rs, mkServer st false);
  rl_list := server_lists
|}.

#[export] Instance toy_list_laws : ListLaws toy_server.
Proof.
  split; [done|]. intros cs r r' rs. cbn. destruct (server_fails r); [done|].
  destruct (run_cmds _ _) as [rs' st]. by intros [= <- <-].
Qed.

Lemma server_versions_agree_witness :
  let st := λ k, if String.eqb k "a" then ["x"; "y"; "z"] else [] in
  let out := [Some ["x"; "y"]; None] in
  ∃ r1 r2 : toy_server,
    RedisLists.async_lpop_pipeline 6 [("a", 2); ("b", 2)] (mkServer st false) = (Ok out, r1) ∧
    RedisLists.async_lpop_pipeline 7 [("a", 2); ("b", 2)] (mkServer st false) = (Ok out, r2) ∧
    ∀ k, rl_list r1 k = rl_list r2 k.
Proof.
  do 2 eexists. split; [reflexivity|]. split; [reflexivity|].
  eapply (RedisLists.server_versions_agree 6 7 [("a", 2); ("b", 2)]
            (mkServer (λ k, if String.eqb k "a" then ["x"; "y"; "z"] else []) false));
    [repeat constructor|lia|reflexivity..].
Defined.

(** Structural equality of the values the transactions are made of. *)
Fixpoint same_val (a b : pyval) {struct a} : bool :=
  match a, b with
  | PNone, PNone => true
  | PFloat p, PFloat q => (Qnum p =? Qnum q) && Pos.eqb (Qden p) (Qden q)
  | PDict d, PDict e =>
      (fix go (d e : dict) : bool :=
         match d, e with
         | [], [] => true
         | (k, x) :: d', (k', y) :: e' => String.eqb k k' && same_val x y && go d' e'
         | _, _ => false
         end) d e
  | _, _ => false
  end.

Lemma same_val_eq a b : same_val a b = true → a = b.
Proof.
  revert b. induction a as [| | |p| | | | |d Hd|] using pyval_ind'; intros [| | |q| | | | |e|]; try done; cbn [same_val].
  - rewrite andb_true_iff, Z.eqb_eq, Pos.eqb_eq. intros [E1 E2]. destruct p, q; cbn in *; by subst.
  - intros Hs. f_equal. revert e Hs. induction Hd as [|[k x] d Hx Hd IH]; intros [|[k' y] e]; try done.
    rewrite !andb_true_iff, String.eqb_eq. intros [[-> Hv] He]. f_equal; [f_equal; by apply Hx|by apply IH].
Qed.

Definition ex_item : SpendUpdateQueueItem := mkItem (Some KEY) (Some "k") (Some 3%Q).
Definition ex_spend : DBSpendUpdateTransactions := SpendUpdateQueue.get_aggregated_db_spend_update_transactions [ex_item].

(** JSON that writes the transactions of the example and nothing else. *)
Definition one_text_runtime : PyRuntime := {|
  json_dumps v := if same_val v (PDict (transactions_val ex_spend)) then Some "t" else None;
  json_loads s := if String.eqb s "t" then Some (PDict (transactions_val ex_spend)) else None;
  literal_eval _ := None; obj_sizeof _ := 0; float_str _ := ""; container_str _ := "" |}.

Lemma one_text_roundtrip : @TransactionsRoundtrip one_text_runtime.
Proof.
  intros t s. unfold json_dumps, json_loads, one_text_runtime.
  destruct (same_val (PDict (transactions_val t)) (PDict (transactions_val ex_spend))) eqn:E; [|done].
  apply same_val_eq in E. rewrite E. by intros [= <-].
Qed.

(** Two proxies; the second is charged, stores, and the list is drained. *)
Definition ex_writers : list DBSpendUpdateWriter.t := [DBSpendUpdateWriter.init; DBSpendUpdateWriter.init].
Definition ex_start : @cluster toy_server := mkCluster ex_writers (mkServer (λ _, []) false) [] [].

Section examples.
#[local] Existing Instance one_text_runtime.

Lemma ex_conserving : conserving default_config ex_start.
Proof.
  split; cbn [ex_start nodes shared for_commit charged].
  - constructor.
  - assert (Hi : SpendUpdateQueue.bounded default_config [] ∧ Forall SpendUpdateQueue.named []).
    { split; [|constructor]. unfold SpendUpdateQueue.bounded, qsize. cbn. lia. }
    unfold ex_writers. by repeat constructor.
  - intros ty id _. cbn. ring.
Qed.

Lemma ex_run : ∃ c', rtc (step default_config 7 100) ex_start c' ∧ for_commit c' = [ex_spend].
Proof.
  eexists. split.
  - eapply rtc_l; [eapply (step_charge _ _ _ 1%nat DBSpendUpdateWriter.init ex_item); [reflexivity|by eexists|reflexivity]|].
    eapply rtc_l; [eapply (step_store _ _ _ 1%nat); reflexivity|].
    eapply rtc_l; [eapply step_drain; reflexivity|]. apply rtc_refl.
  - done.
Qed.

Lemma cluster_conserves_spend_witness :
  ∃ c', rtc (step default_config 7 100) ex_start c' ∧
    (handed_spend KEY "k" (for_commit c') + buffered KEY "k" (rl_list (shared c') REDIS_UPDATE_BUFFER_KEY) +
     owed_by KEY "k" (nodes c') == owed KEY "k" (charged c'))%Q.
Proof.
  destruct ex_run as (c' & Hr & _). exists c'. split; [exact Hr|].
  pose proof one_text_roundtrip. eapply (cluster_conserves_spend default_config 7 100 ex_start c' KEY "k"); [lia|apply ex_conserving|exact Hr|by eexists].
Defined.
End examples.

(** JSON that writes every value, and a server that fails. *)
Definition total_runtime : PyRuntime := {|
  json_dumps _ := Some "t"; json_loads _ := None; literal_eval _ := None; obj_sizeof _ := 0; float_str _ := "";
  container_str _ := "" |}.

Lemma failed_push_loses_witness :
  let w := DBSpendUpdateWriter.set_spend_queue [ex_item] DBSpendUpdateWriter.init in
  let r := mkServer (λ _, []) true in
  ∃ n', @store_in_memory_spend_updates_in_redis total_runtime _ _ default_config (mkNode w (Some r)) = Done (Raise RuntimeError) n' ∧
    DBSpendUpdateWriter.spend_update_queue (writer n') = [] ∧ redis_cache n' = Some r.
Proof.
  apply (@failed_push_loses total_runtime toy_server toy_lists default_config); [by vm_compute|by intros []|by eexists|done|done].
Defined.
End RedisUpdateBuffer.
