(* ===== verification/PodLock.v ===== *)
(** * PodLock: [proxy/db/db_transaction_queue/pod_lock_manager.py]

    The lock that elects the instance that commits.  [acquire_lock] sets a key with
    [SET NX EX] and, when that fails, reads it to see whether the instance holds the lock
    already; [release_lock] reads the key and deletes it when it holds the own id.  The two
    commands of each method are separate round trips, so the methods of several instances
    interleave between them: [step] is the resulting machine.  Times are arguments, the
    server is the [RedisClient] of RedisCache with the laws of [LockLaws]; a command that
    raises may have taken effect.

    Theorems: instances that finish within the time to live exclude one another, whatever
    commands fail; an instance that overruns it can delete the lock of another, which lets
    a third one in; with a namespace the lock is never released. *)

From stdpp Require Import base gmap sets list strings.
From Stdlib Require Import ZArith Lia ZifyBool.
From S2P Require Import Prelude PyStr RedisCache.

#[local] Open Scope Z_scope.

Module PodLockManager.

Definition DEFAULT_CRON_JOB_LOCK_TTL_SECONDS : Z := 60.

Definition get_redis_lock_key (cronjob_id : string) : string := "cronjob_lock:" +:+ cronjob_id.

Section ops.
Context `{PyRuntime} {R : Type} `{RedisClient R}.
#[local] Abbreviation cache := (RedisCache.t R).

(** [async_set_cache(key, value, nx=True, ttl=ttl)]: the reply, or [None] when the command fails. *)
Definition async_set_cache_nx (now : Z) (key : string) (value : pyval) (ttl : Z) : M cache pyval :=
  RedisCache.on_client rc_connect ;;
  c ← m_get;
  let key := RedisCache.check_and_fix_namespace key c in
  m_try (json ← m_lift (RedisCache.dumps value);
         RedisCache.on_client (rc_set now key json true (Some ttl)))
        (λ _, mret PNone).

(** The first command of [acquire_lock]. *)
Definition acquire_set (now : Z) (pod_id cronjob_id : string) : M cache bool :=
  acquired ← async_set_cache_nx now (get_redis_lock_key cronjob_id) (PStr pod_id) DEFAULT_CRON_JOB_LOCK_TTL_SECONDS;
  mret (truthy acquired).

(** Reading the key and comparing it with the own id. *)
Definition holds (now : Z) (pod_id cronjob_id : string) : M cache bool :=
  current_value ← RedisCache.async_get_cache now (get_redis_lock_key cronjob_id);
  mret (negb (is_none current_value) && py_eqb current_value (PStr pod_id)).

(** [acquire_lock] with the times of its two commands; [None] without Redis. *)
Definition acquire_lock (now now' : Z) (pod_id cronjob_id : string) : M (option cache) (option bool) := λ o,
  match o with
  | None => (Ok None, None)
  | Some c =>
      let '(r, c') :=
        m_try (acquired ← acquire_set now pod_id cronjob_id;
               if acquired : bool then mret true else holds now' pod_id cronjob_id)
              (λ _, mret false) c in
      (Some <$> r, Some c')
  end.

Definition release_delete (now : Z) (cronjob_id : string) : M cache unit :=
  RedisCache.async_delete_cache now (get_redis_lock_key cronjob_id).

Definition release_lock (now now' : Z) (pod_id cronjob_id : string) : M (option cache) unit := λ o,
  match o with
  | None => (Ok (), None)
  | Some c =>
      let '(r, c') :=
        m_try (mine ← holds now pod_id cronjob_id;
               if mine : bool then release_delete now' cronjob_id else mret ())
              (λ _, mret ()) c in
      (r, Some c')
  end.
End ops.

(** ** The laws of the server *)

(** [value_at r t k]: what the key holds at time [t] if no command comes in between. *)
Class LockLaws (R : Type) `{RedisClient R} := {
  value_at : R → Z → string → option string;
  expires r t t' k v : t <= t' → value_at r t' k = Some v → value_at r t k = Some v;
  connect_keeps r t k : value_at (rc_connect r).2 t k = value_at r t k;
  get_reads now k r : ∀ t k', value_at (rc_get now k r).2 t k' = value_at r t k';
  get_value now k r v : (rc_get now k r).1 = Ok v → v = value_at r now k;
  (** [SET NX EX] writes when the key is free, and tells. *)
  set_taken now k v ex r o : value_at r now k = Some o →
    (∀ t k', value_at (rc_set now k v true (Some ex) r).2 t k' = value_at r t k') ∧
    ∀ reply, (rc_set now k v true (Some ex) r).1 = Ok reply → truthy reply = false;
  set_free now k v ex r : value_at r now k = None →
    (∀ t k', k' ≠ k → value_at (rc_set now k v true (Some ex) r).2 t k' = value_at r t k') ∧
    let written := ∀ t, now <= t →
      value_at (rc_set now k v true (Some ex) r).2 t k = if t <? now + seconds ex then Some v else None in
    match (rc_set now k v true (Some ex) r).1 with
    | Ok reply => truthy reply = true ∧ written
    | Raise _ => written ∨ ∀ t, value_at (rc_set now k v true (Some ex) r).2 t k = value_at r t k
    end;
  (** A deletion removes the key; one that fails may have removed it. *)
  delete_other now k r t k' : k' ≠ k → value_at (rc_delete now [k] r).2 t k' = value_at r t k';
  delete_key now k r : match (rc_delete now [k] r).1 with
    | Ok _ => ∀ t, value_at (rc_delete now [k] r).2 t k = None
    | Raise _ => (∀ t, value_at (rc_delete now [k] r).2 t k = None) ∨
                 ∀ t, value_at (rc_delete now [k] r).2 t k = value_at r t k
    end
}.

(** ** The machine of several instances *)

Inductive phase := Idle | Asked | Holding | Releasing.

#[export] Instance phase_eq_dec : EqDecision phase.
Proof. solve_decision. Defined.

Section machine.
Context `{PyRuntime} {R : Type} `{LockLaws R} (cronjob_id : string).
#[local] Abbreviation cache := (RedisCache.t R).

(** The server as the instances see it, the time, where every instance is in its methods,
    and when its last write of the key took effect. *)
Record sys := mkSys {
  store : cache;
  clock : Z;
  phases : string → phase;
  set_at : string → Z
}.

Definition upd {A} (p : string) (x : A) (f : string → A) : string → A := λ q, if String.eqb p q then x else f q.

Definition lock_value (c : cache) (t : Z) : option string :=
  value_at (RedisCache.redis_client c) t (RedisCache.check_and_fix_namespace (get_redis_lock_key cronjob_id) c).

(** The next command of an instance, or the passing of time. *)
Inductive action :=
| Tick (t : Z)
| TrySet (p : string)
| CheckOwner (p : string)
| ReleaseGet (p : string)
| ReleaseDelete (p : string).

Definition in_phase (s : sys) (p : string) (ph : phase) : bool := bool_decide (phases s p = ph).

Definition do_step (s : sys) (a : action) : option sys :=
  match a with
  | Tick t => if clock s <=? t then Some (mkSys (store s) t (phases s) (set_at s)) else None
  | TrySet p =>
      if in_phase s p Idle then
        let '(r, c) := acquire_set (clock s) p cronjob_id (store s) in
        let wrote := bool_decide (lock_value (store s) (clock s) = None ∧ lock_value c (clock s) ≠ None) in
        Some (mkSys c (clock s)
                (upd p (match r with Ok true => Holding | Ok false => Asked | Raise _ => Idle end) (phases s))
                (if wrote then upd p (clock s) (set_at s) else set_at s))
      else None
  | CheckOwner p =>
      if in_phase s p Asked then
        let '(r, c) := holds (clock s) p cronjob_id (store s) in
        Some (mkSys c (clock s) (upd p (match r with Ok true => Holding | _ => Idle end) (phases s)) (set_at s))
      else None
  | ReleaseGet p =>
      if in_phase s p Holding then
        let '(r, c) := holds (clock s) p cronjob_id (store s) in
        Some (mkSys c (clock s) (upd p (match r with Ok true => Releasing | _ => Idle end) (phases s)) (set_at s))
      else None
  | ReleaseDelete p =>
      if in_phase s p Releasing then
        let '(_, c) := release_delete (clock s) cronjob_id (store s) in
        Some (mkSys c (clock s) (upd p Idle (phases s)) (set_at s))
      else None
  end.

Definition step (s s' : sys) : Prop := ∃ a, do_step s a = Some s'.

(** The instance is between an acquisition and the end of its release. *)
Definition inside (s : sys) (p : string) : Prop := phases s p = Holding ∨ phases s p = Releasing.

(** Every instance inside is within the time to live of its lock. *)
Definition timely (s : sys) : Prop :=
  ∀ p, inside s p → clock s < set_at s p + seconds DEFAULT_CRON_JOB_LOCK_TTL_SECONDS.

(** ** What the commands do *)

(** The text stored for an id; ids survive JSON. *)
Definition encode (p : string) : string := default "" (json_dumps (PStr p)).

Class PodIds : Prop := {
  encode_dumps p : json_dumps (PStr p) = Some (encode p);
  encode_loads p : json_loads (encode p) = Some (PStr p)
}.

Context `{!PodIds}.

Lemma encode_inj p q : encode p = encode q → p = q.
Proof. intros E. pose proof (encode_loads p) as Hp. rewrite E, encode_loads in Hp. congruence. Qed.

(** The values of the lock in two states agree. *)
Definition same_lock (c c' : cache) : Prop := ∀ t, lock_value c' t = lock_value c t.

(** The lock is set at [now] by [p]. *)
Definition locked_from (now : Z) (p : string) (c' : cache) : Prop :=
  ∀ t, now <= t → lock_value c' t = if t <? now + seconds DEFAULT_CRON_JOB_LOCK_TTL_SECONDS then Some (encode p) else None.

Lemma on_client_value {A} (m : M R A) (c : cache) :
  (RedisCache.on_client m c).1 = (m (RedisCache.redis_client c)).1 ∧
  ∀ t, lock_value (RedisCache.on_client m c).2 t =
       value_at (m (RedisCache.redis_client c)).2 t (RedisCache.check_and_fix_namespace (get_redis_lock_key cronjob_id) c).
Proof. unfold RedisCache.on_client, m_zoom. by destruct (m _). Qed.

Lemma connect_same c : same_lock c (RedisCache.on_client rc_connect c).2.
Proof. intros t. rewrite (proj2 (on_client_value _ _)). apply connect_keeps. Qed.

Lemma on_client_namespace {A} (m : M R A) (c : cache) :
  RedisCache.namespace (RedisCache.on_client m c).2 = RedisCache.namespace c.
Proof. unfold RedisCache.on_client, m_zoom. by destruct (m _). Qed.

(** [SET NX EX]: nothing changes, or the lock was free and is set; success means the latter. *)
Lemma acquire_set_spec now p c r c' :
  acquire_set now p cronjob_id c = (r, c') →
  (r ≠ Ok true ∧ same_lock c c') ∨ (lock_value c now = None ∧ locked_from now p c').
Proof.
  unfold acquire_set, async_set_cache_nx. intros E.
  assert (Hc : same_lock c (RedisCache.on_client rc_connect c).2) by apply connect_same.
  unfold m_try, mbind, M_bind, m_get, m_lift, mret, M_ret in E.
  destruct (RedisCache.on_client rc_connect c) as [[[]|e] c1]; cbn [snd] in Hc.
  2: { injection E as <- <-. left. done. }
  unfold RedisCache.dumps in E. rewrite encode_dumps in E.
  set (key := RedisCache.check_and_fix_namespace (get_redis_lock_key cronjob_id) c1) in *.
  destruct (on_client_value (rc_set now key (encode p) true (Some DEFAULT_CRON_JOB_LOCK_TTL_SECONDS)) c1) as [Hr Hv].
  destruct (lock_value c1 now) as [o|] eqn:Eo.
  - left. destruct (set_taken now key (encode p) DEFAULT_CRON_JOB_LOCK_TTL_SECONDS (RedisCache.redis_client c1) o Eo) as [Hk Hf].
    fold key in Hv. destruct (RedisCache.on_client _ c1) as [[reply|e] c2]; cbn [fst snd] in Hr, Hv.
    + injection E as <- <-. split; [by rewrite (Hf reply (eq_sym Hr))|]. intros t. by rewrite Hv, Hk, <- Hc.
    + injection E as <- <-. split; [done|]. intros t. by rewrite Hv, Hk, <- Hc.
  - destruct (set_free now key (encode p) DEFAULT_CRON_JOB_LOCK_TTL_SECONDS (RedisCache.redis_client c1) Eo) as [_ Hf].
    assert (Hfree : lock_value c now = None) by (by rewrite <- Hc).
    fold key in Hv. rewrite <- Hr in Hf. destruct (RedisCache.on_client _ c1) as [[reply|e] c2]; cbn [fst snd] in Hr, Hv, Hf.
    + injection E as <- <-. right. split; [done|]. intros t Ht. rewrite Hv. by apply Hf.
    + injection E as <- <-. destruct Hf as [Hw|Hs].
      * right. split; [done|]. intros t Ht. rewrite Hv. by apply Hw.
      * left. split; [done|]. intros t. by rewrite Hv, Hs, <- Hc.
Qed.

(** Reading the owner changes nothing; the answer [True] means the key holds a text of the id. *)
Lemma holds_spec now p c r c' :
  holds now p cronjob_id c = (r, c') →
  same_lock c c' ∧ (r = Ok true → ∃ x, lock_value c now = Some x ∧ (∀ q, x = encode q → q = p)).
Proof.
  unfold holds, RedisCache.async_get_cache. intros E.
  assert (Hc : same_lock c (RedisCache.on_client rc_connect c).2) by apply connect_same.
  unfold m_try, mbind, M_bind, m_get, m_lift, mret, M_ret in E.
  destruct (RedisCache.on_client rc_connect c) as [[[]|e] c1]; cbn [snd] in Hc.
  2: { injection E as <- <-. done. }
  set (key := RedisCache.check_and_fix_namespace (get_redis_lock_key cronjob_id) c1) in *.
  destruct (on_client_value (rc_get now key) c1) as [Hr Hv]. fold key in Hv.
  pose proof (get_reads now key (RedisCache.redis_client c1)) as Hg.
  pose proof (get_value now key (RedisCache.redis_client c1)) as Hgv. rewrite <- Hr in Hgv.
  destruct (RedisCache.on_client (rc_get now key) c1) as [[o|e] c2]; cbn [fst snd] in Hv, Hgv.
  2: { injection E as <- <-. split; [|done]. intros t. by rewrite Hv, Hg, <- Hc. }
  assert (Hsame : same_lock c c2) by (intros t; by rewrite Hv, Hg, <- Hc).
  specialize (Hgv o eq_refl). change (value_at (RedisCache.redis_client c1) now key) with (lock_value c1 now) in Hgv.
  rewrite Hc in Hgv. destruct (RedisCache._get_cache_logic o) as [v|e] eqn:El.
  2: { injection E as <- <-. done. }
  injection E as <- <-. split; [done|]. intros Htrue. injection Htrue as Htrue.
  apply andb_true_iff in Htrue as [_ Hp]. destruct o as [x|]; [|by injection El as <-].
  exists x. split; [done|]. intros q ->. cbn in El. rewrite encode_loads in El. injection El as <-. by apply String.eqb_eq in Hp.
Qed.

(** The deletion leaves the lock as it was or removes it. *)
Lemma release_spec now c r c' :
  release_delete now cronjob_id c = (r, c') → same_lock c c' ∨ ∀ t, lock_value c' t = None.
Proof.
  unfold release_delete, RedisCache.async_delete_cache. intros E.
  assert (Hc : same_lock c (RedisCache.on_client rc_connect c).2) by apply connect_same.
  unfold mbind, M_bind in E. destruct (RedisCache.on_client rc_connect c) as [[[]|e] c1]; cbn [snd] in Hc.
  2: { injection E as <- <-. by left. }
  set (raw := get_redis_lock_key cronjob_id) in *.
  destruct (on_client_value (rc_delete now [raw]) c1) as [Hr Hv]. rewrite E in Hv. cbn [snd] in Hv.
  destruct (decide (RedisCache.check_and_fix_namespace raw c1 = raw)) as [Heq|Hne].
  - fold raw in Hv. rewrite Heq in Hv. pose proof (delete_key now raw (RedisCache.redis_client c1)) as Hd.
    assert (Hkeep : (∀ t, value_at (rc_delete now [raw] (RedisCache.redis_client c1)).2 t raw = value_at (RedisCache.redis_client c1) t raw) → same_lock c c').
    { intros Hs t. rewrite Hv, Hs, <- Hc. unfold lock_value. fold raw. by rewrite Heq. }
    destruct (rc_delete now [raw] (RedisCache.redis_client c1)).1 as [u|e].
    + right. intros t. by rewrite Hv.
    + destruct Hd as [Hd|Hd]; [right; intros t; by rewrite Hv|left; by apply Hkeep].
  - left. intros t. rewrite Hv, delete_other by done. by rewrite <- Hc.
Qed.

(** ** Mutual exclusion *)

#[local] Abbreviation ttl := (seconds DEFAULT_CRON_JOB_LOCK_TTL_SECONDS).
#[local] Abbreviation value s t := (lock_value (store s) t).

(** The lock of [p] lasts as long as its last write said. *)
Definition owns (s : sys) (p : string) : Prop :=
  clock s < set_at s p + ttl ∧
  ∀ t, clock s <= t → value s t = if t <? set_at s p + ttl then Some (encode p) else None.

(** An instance inside that is on time owns the lock, and whatever the key holds is the
    lock of an instance. *)
Record lock_inv (s : sys) : Prop := {
  inv_inside p : inside s p → clock s < set_at s p + ttl → owns s p;
  inv_value x : value s (clock s) = Some x → ∃ p, x = encode p ∧ owns s p
}.

Lemma owns_value s p : owns s p → value s (clock s) = Some (encode p).
Proof. intros [Hc Hv]. rewrite Hv by lia. by replace (clock s <? set_at s p + ttl) with true by lia. Qed.

Lemma owns_unique s p q : owns s p → owns s q → p = q.
Proof. intros Hp%owns_value Hq%owns_value. rewrite Hp in Hq. apply encode_inj. congruence. Qed.

(** Owning depends on the lock, the time and the last write only. *)
Lemma owns_same s s' p :
  clock s' = clock s → set_at s' p = set_at s p → same_lock (store s) (store s') → owns s p → owns s' p.
Proof. intros Hc Ha Hs [Ha1 Ha2]. unfold owns. rewrite Hc, Ha. split; [done|]. intros t Ht. rewrite Hs. by apply Ha2. Qed.

Lemma inside_upd s c n p ph f q :
  inside (mkSys c n (upd p ph (phases s)) f) q →
  (q = p ∧ (ph = Holding ∨ ph = Releasing)) ∨ (q ≠ p ∧ inside s q).
Proof. unfold inside, upd. cbn. destruct (String.eqb_spec p q) as [->|]; [by left|right]. split; [congruence|done]. Qed.

(** A step that keeps the lock keeps the invariant, if the instance that moves inside owns it. *)
Lemma same_lock_inv s c p ph :
  lock_inv s → same_lock (store s) c → (ph = Holding ∨ ph = Releasing → owns s p ∨ inside s p) →
  lock_inv (mkSys c (clock s) (upd p ph (phases s)) (set_at s)).
Proof.
  intros [Hi Hv] Hs Hp. set (s' := mkSys _ _ _ _).
  assert (Ho : ∀ q, owns s q → owns s' q) by (intros q; by apply owns_same).
  split.
  - intros q [[-> Hph]|[_ Hq]]%inside_upd Ht; apply Ho; [|by apply Hi].
    destruct (Hp Hph) as [|Hq]; [done|by apply Hi].
  - intros x Hx. cbn [store clock s'] in Hx. rewrite Hs in Hx. destruct (Hv x Hx) as (q & -> & Hq). eauto.
Qed.

Lemma do_step_inv s a s' : timely s → lock_inv s → do_step s a = Some s' → lock_inv s'.
Proof.
  intros Ht Hinv. pose proof Hinv as [Hi Hv]. destruct a as [t|p|p|p|p]; cbn [do_step].
  - destruct (clock s <=? t) eqn:Et; [|done]. intros [= <-].
    assert (Ho : ∀ q, owns s q → t < set_at s q + ttl → owns (mkSys (store s) t (phases s) (set_at s)) q).
    { intros q [Ha1 Ha2] Hlt. split; [done|]. intros t' Ht'. cbn in *. apply Ha2. lia. }
    split.
    + intros q Hq Hlt. apply Ho; [|done]. apply Hi; [done|]. cbn in Hlt. lia.
    + intros x Hx. cbn in Hx. destruct (Hv x) as (q & -> & Hq); [by eapply expires; [|exact Hx]; lia|].
      exists q. split; [done|]. apply Ho; [done|]. destruct Hq as [Ha1 Ha2]. rewrite Ha2 in Hx by lia.
      destruct (Z.ltb_spec t (set_at s q + ttl)); [done|congruence].
  - destruct (in_phase s p Idle); [|done]. destruct (acquire_set _ _ _ _) as [r c] eqn:E. intros [= <-].
    apply acquire_set_spec in E as [[Hr Hs]|[Hfree Hl]].
    + rewrite bool_decide_false by (rewrite Hs; tauto). apply same_lock_inv; [done..|].
      intros [Hh|Hh]; destruct r as [[]|]; try discriminate; by destruct Hr.
    + assert (Hval : lock_value c (clock s) = Some (encode p)).
      { rewrite Hl by lia. by replace (clock s <? clock s + ttl) with true by (unfold seconds, DEFAULT_CRON_JOB_LOCK_TTL_SECONDS; lia). }
      rewrite bool_decide_true by (by rewrite Hval).
      assert (Ho : owns (mkSys c (clock s) (upd p (match r with Ok true => Holding | Ok false => Asked | Raise _ => Idle end) (phases s))
                                 (upd p (clock s) (set_at s))) p).
      { unfold owns, upd. cbn. rewrite String.eqb_refl. split; [unfold seconds, DEFAULT_CRON_JOB_LOCK_TTL_SECONDS; lia|]. exact Hl. }
      split.
      * intros q [[-> _]|[_ Hq]]%inside_upd _; [done|]. pose proof (owns_value _ _ (Hi q Hq (Ht q Hq))). congruence.
      * intros x Hx. cbn in Hx. exists p. split; [congruence|done].
  - destruct (in_phase s p Asked); [|done]. destruct (holds _ _ _ _) as [r c] eqn:E. intros [= <-].
    apply holds_spec in E as [Hs Hr]. apply same_lock_inv; [done..|].
    intros Hh. assert (r = Ok true) as -> by (destruct r as [[]|]; [done|naive_solver..]).
    destruct (Hr eq_refl) as (x & Hx & Hq). destruct (Hv x Hx) as (q & -> & Ho). left. by rewrite <- (Hq q eq_refl).
  - destruct (in_phase s p Holding) eqn:Ep; [|done]. destruct (holds _ _ _ _) as [r c] eqn:E. intros [= <-].
    apply holds_spec in E as [Hs Hr]. apply same_lock_inv; [done..|]. intros _. right. left. by apply bool_decide_eq_true in Ep.
  - destruct (in_phase s p Releasing) eqn:Ep; [|done]. destruct (release_delete _ _ _) as [r c] eqn:E. intros [= <-].
    apply release_spec in E as [Hs|Hnone]; [apply same_lock_inv; [done..|]; by intros [|]|].
    apply bool_decide_eq_true in Ep. assert (Hp : inside s p) by (by right). split.
    + intros q [[-> [|]]|[Hne Hq]]%inside_upd _; [done..|]. destruct Hne.
      exact (owns_unique s q p (Hi q Hq (Ht q Hq)) (Hi p Hp (Ht p Hp))).
    + intros x Hx. cbn in Hx. by rewrite Hnone in Hx.
Qed.

(** A step taken while every instance inside is within its time to live. *)
Definition timely_step (s s' : sys) : Prop := timely s ∧ step s s'.

(** Nobody is inside and the lock is free. *)
Definition unlocked (s : sys) : Prop := (∀ p, ¬ inside s p) ∧ value s (clock s) = None.

(** C14: Instances that finish within the time to live exclude one another: at every moment at
    most one is between acquiring and releasing, whichever commands fail. *)
Theorem mutual_exclusion s0 s p q :
  unlocked s0 → rtc timely_step s0 s → timely s → inside s p → inside s q → p = q.
Proof.
  intros [Hnone Hfree] Hr Ht Hp Hq.
  assert (Hinv : lock_inv s0) by (split; [intros x Hx; by destruct (Hnone x)|intros x Hx; congruence]).
  assert (lock_inv s) as [Hi _].
  { clear Hnone Hfree Ht Hp Hq. induction Hr as [s|s s1 s2 [Ht [a Ha]] Hr IH]; [done|]. eauto using do_step_inv. }
  eapply owns_unique; apply Hi; auto.
Qed.
End machine.

(** ** A concrete server *)

#[local] Existing Instance RedisCache.toy_client.

#[export, program] Instance toy_lock_laws : LockLaws RedisCache.toy := {|
  value_at r t k := RedisCache.toy_lookup t k r
|}.
Next Obligation.
  intros r t t' k v Ht. unfold RedisCache.toy_lookup. destruct (RedisCache.toy_data r !! k) as [[x e]|]; [|done].
  destruct (Z.ltb_spec t' e); [|done]. intros [= ->]. by replace (t <? e) with true by lia.
Qed.
Next Obligation. done. Qed.
Next Obligation. intros now k [[] d] t k'; done. Qed.
Next Obligation. intros now k [[] d] v; [done|]. by intros [= <-]. Qed.
Next Obligation.
  intros now k v ex [[] d] o Ho; [done|]. cbn [rc_set RedisCache.toy_client RedisCache.toy_op RedisCache.toy_down].
  unfold RedisCache.toy_op. cbn. rewrite Ho. cbn. split; [done|]. by intros reply [= <-].
Qed.
Next Obligation.
  intros now k v ex [[] d] Hf.
  { split; [done|]. by right. }
  cbn. unfold RedisCache.toy_op. cbn. rewrite Hf. cbn. unfold RedisCache.toy_lookup. cbn. split.
  - intros t k' Hne. by rewrite lookup_insert_ne.
  - split; [done|]. intros t Ht. by rewrite lookup_insert_eq.
Qed.
Next Obligation.
  intros now k [[] d] t k' Hne; [done|]. cbn. unfold RedisCache.toy_op, RedisCache.toy_lookup. cbn. by rewrite lookup_delete_ne.
Qed.
Next Obligation.
  intros now k [[] d]; [by right|]. cbn. intros t. unfold RedisCache.toy_lookup. cbn. by rewrite lookup_delete_eq.
Qed.

(** Its JSON writes texts as themselves. *)
Definition text_runtime : PyRuntime := {|
  json_loads s := Some (PStr s); json_dumps v := match v with PStr s => Some s | _ => None end;
  literal_eval _ := None; obj_sizeof _ := 0; float_str _ := ""; container_str _ := "" |}.

Section examples.
#[local] Existing Instance text_runtime.

#[local] Instance text_ids : PodIds.
Proof. by split. Qed.

Definition empty_redis (ns : option string) : RedisCache.t RedisCache.toy :=
  RedisCache.init (RedisCache.mkToy false ∅) None ns None.
Definition start (ns : option string) : @sys RedisCache.toy := mkSys (empty_redis ns) 0 (λ _, Idle) (λ _, 0).

Fixpoint run (s : @sys RedisCache.toy) (l : list action) : option (@sys RedisCache.toy) :=
  match l with [] => Some s | a :: l' => s' ← do_step "job" s a; run s' l' end.

Lemma run_steps s l s' : run s l = Some s' → rtc (step "job") s s'.
Proof.
  revert s. induction l as [|a l IH]; intros s; cbn [run]; [intros [= <-]; done|].
  destruct (do_step "job" s a) as [s1|] eqn:E; [|done]. cbn. intros Hr. eapply rtc_l; [by exists a|]. auto.
Qed.

(** An instance that overruns its time to live between the two commands of [release_lock]
    deletes the lock of the next owner, and a third instance enters while that owner is
    inside and on time. *)
Theorem overrun_breaks_exclusion :
  ∃ s, rtc (step "job") (start None) s ∧ inside s "b" ∧ inside s "c" ∧
    clock s < set_at s "b" + seconds DEFAULT_CRON_JOB_LOCK_TTL_SECONDS.
Proof.
  eexists. split; [apply (run_steps _ [TrySet "a"; Tick (seconds 59); ReleaseGet "a"; Tick (seconds 61); TrySet "b";
    ReleaseDelete "a"; TrySet "c"]); vm_compute; reflexivity|].
  split_and!; [by left|by left|done].
Qed.

(** With a namespace the deletion addresses another key: after a complete release the lock
    is still taken, and the next instance is refused until the time to live has passed. *)
Theorem namespaced_lock_not_released :
  ∃ s, rtc (step "job") (start (Some "ns")) s ∧ phases s "a" = Idle ∧ phases s "b" = Idle ∧
    lock_value "job" (store s) (clock s) = Some "a" ∧ (acquire_lock 2 3 "b" "job" (Some (store s))).1 = Ok (Some false).
Proof.
  eexists. split; [apply (run_steps _ [TrySet "a"; Tick 1; ReleaseGet "a"; ReleaseDelete "a"]); vm_compute; reflexivity|].
  by split_and!.
Qed.

(** One instance has acquired the lock. *)
Definition entered : @sys RedisCache.toy :=
  mkSys (acquire_set 0 "a" "job" (empty_redis None)).2 0 (upd "a" Holding (λ _, Idle)) (upd "a" 0 (λ _, 0)).

Lemma entered_step : do_step "job" (start None) (TrySet "a") = Some entered.
Proof. reflexivity. Qed.

Lemma entered_timely : timely entered.
Proof. intros p. unfold inside, entered, upd. cbn [phases clock set_at]. destruct (String.eqb "a" p); [done|by intros [|]]. Qed.

Lemma mutual_exclusion_witness : unlocked "job" (start None) ∧ ∀ p, inside entered p → p = "a".
Proof.
  assert (Hu : unlocked "job" (start None)) by (split; [by intros p [|]|done]).
  split; [exact Hu|]. intros p Hp.
  apply (mutual_exclusion "job" (start None) entered p "a" Hu); [|exact entered_timely|exact Hp|by left].
  apply rtc_once. split; [by intros q [|]|]. exists (TrySet "a"). exact entered_step.
Defined.
End examples.
End PodLockManager.
