(* ===== verification/SpendPipeline.v ===== *)
(** * SpendPipeline: from the queues to the database

    [db_update_spend_transaction_handler] of [db_spend_update_writer.py], which runs every
    minute: without the Redis buffer it flushes the queues and commits them; with the
    buffer it pushes them to Redis, tries to become the committing instance, drains the
    lists and commits what it drained, and releases the lock.  The parts are those of
    SpendQueue, SpendWriter, SpendCommit, RedisBuffer and PodLock; the lists and the lock
    are two views of one Redis with different keys.  [batch_upsert_tools] of
    [tool_registry_writer.py] takes the ids it generates as an argument.

    Theorems: without the buffer, a run empties the spend queue; one that returns has moved
    what was owed to the existing rows of every entity, once if no reply of the database
    is lost; a daily queue with more
    than a hundred keys is emptied but not written; with the buffer the discovered tools
    are never written. *)

From stdpp Require Import base gmap sets list strings.
From Stdlib Require Import ZArith QArith Lqa Lia ZifyBool.
From S2P Require Import Prelude PyStr InMemoryCache RedisCache DualCache SpendQueue SpendWriter SpendCommit RedisBuffer PodLock.

#[local] Open Scope Z_scope.

(** ** [proxy/db/tool_registry_writer.py] *)

Module ToolRegistry.
Section ops.
Context {D : Type} `{Prisma D} (now : pyval) (uuid4 : nat → string).

Definition or_none (o : option string) : pyval := match o with Some s => PStr s | None => PNone end.

(** The upsert of a tool; one call is a batch of one. *)
Definition upsert_tool (i : nat) (item : ToolDiscoveryQueueItem) : db_op :=
  let origin := py_or (or_none (origin item)) (PStr "user_defined") in
  let created_by := py_or (or_none (tool_created_by item)) (PStr "system") in
  Upsert "litellm_tooltable" [("tool_name", PStr (tool_name item))]
    [("tool_id", PStr (uuid4 i)); ("tool_name", PStr (tool_name item)); ("origin", origin);
     ("input_policy", PStr "untrusted"); ("output_policy", PStr "untrusted"); ("call_count", PInt 1);
     ("created_by", created_by); ("updated_by", created_by); ("key_hash", or_none (key_hash item));
     ("team_id", or_none (tool_team_id item)); ("key_alias", or_none (key_alias item));
     ("user_agent", or_none (user_agent item)); ("last_used_at", now)]
    [("call_count", Increment (PInt 1)); ("updated_at", SetTo now); ("last_used_at", SetTo now)].

(** Items without a name are left out; the first error ends the loop and is logged. *)
Definition batch_upsert_tools (items : list ToolDiscoveryQueueItem) : M D unit :=
  m_try (m_iter (λ op, db_batch [op]) (imap upsert_tool (filter (λ i, tool_name i ≠ "") items)))
    (λ _, mret ()).
End ops.

Section facts.
Context {D : Type} `{PrismaLaws D} `{!WholeBatches D} (now : pyval) (uuid4 : nat → string).

(** Registering tools touches no other table. *)
Lemma upserts_table tb w f ops (d : D) :
  Forall (λ op, SpendCommit.op_table op ≠ tb) ops → same_cell (cell (m_iter (λ op, db_batch [op]) ops d).2 tb w f) (cell d tb w f).
Proof.
  intros Ho. revert d. induction Ho as [|op ops Hop Ho IH]; intros d; cbn [m_iter]; [done|]. unfold mbind, M_bind.
  destruct (db_batch [op] d) as [[[]|e] d1] eqn:E; cbn [snd].
  - rewrite IH, (batch_commits _ _ _ E tb w f). rewrite SpendCommit.apply_ops_other; [done|]. by constructor.
  - destruct (batch_whole _ _ _ _ E) as [Hu|Ha]; [by rewrite (Hu tb w f)|].
    rewrite (Ha tb w f), SpendCommit.apply_ops_other; [done|]. by constructor.
Qed.

Lemma tools_table tb w f items (d : D) :
  tb ≠ "litellm_tooltable" → same_cell (cell (batch_upsert_tools now uuid4 items d).2 tb w f) (cell d tb w f).
Proof.
  intros Hne. unfold batch_upsert_tools, m_try.
  pose proof (upserts_table tb w f (imap (upsert_tool now uuid4) (filter (λ i, tool_name i ≠ "") items)) d) as Ht.
  destruct (m_iter _ _ d) as [[[]|e] d1]; cbn [snd] in *; apply Ht, Forall_forall; intros op Hop;
    apply elem_of_lookup_imap in Hop as (i & x & -> & _); cbn; congruence.
Qed.
End facts.
End ToolRegistry.

(** ** The job *)

Module SpendPipeline.
Import DBSpendUpdateWriter (daily_kind, DUser, DTeam, DEndUser, DAgent, DOrg, DTag).
#[local] Abbreviation dict := (list (string * pyval)).
#[local] Abbreviation updates_dict := (list (string * dict)).

(** A proxy instance with its database: the writer, the Redis lists, the lock. *)
Record proxy (D C L K : Type) := mkProxy {
  writer : DBSpendUpdateWriter.t;
  world : SpendCommit.world D C;
  lists : option L;
  lock : option (RedisCache.t K)
}.
Arguments mkProxy {D C L K}. Arguments writer {D C L K}. Arguments world {D C L K}.
Arguments lists {D C L K}. Arguments lock {D C L K}.

Section ops.
Context `{PyRuntime} {D C L K : Type} `{Prisma D} `{RedisCacheI C} `{RedisLists L} `{RedisClient K}.
Context (cfg : config) (major_version dequeue_count : Z) (pod_id : string).
Context (tool_now : pyval) (uuid4 : nat → string).
#[local] Abbreviation state := (proxy D C L K).

Definition on_writer {A} (m : W DBSpendUpdateWriter.t A) : W state A :=
  w_zoom writer (λ w s, mkProxy w (world s) (lists s) (lock s)) m.

Definition on_world {A} (m : M (SpendCommit.world D C) A) : W state A := λ s,
  let '(r, w) := m (world s) in Done r (mkProxy (writer s) w (lists s) (lock s)).

Definition on_node {A} (m : W (@RedisUpdateBuffer.node L) A) : W state A :=
  w_zoom (λ s, RedisUpdateBuffer.mkNode (writer s) (lists s))
         (λ n s, mkProxy (RedisUpdateBuffer.writer n) (world s) (RedisUpdateBuffer.redis_cache n) (lock s)) m.

Definition on_lock {A} (m : M (option (RedisCache.t K)) A) : W state A := λ s,
  let '(r, k) := m (lock s) in Done r (mkProxy (writer s) (world s) (lists s) k).

Definition flush_spend : W state DBSpendUpdateTransactions :=
  on_writer (DBSpendUpdateWriter.on_spend
    (SpendUpdateQueue.flush_and_get_aggregated_db_spend_update_transactions cfg)).

Definition flush_daily (k : daily_kind) : W state updates_dict :=
  on_writer (DBSpendUpdateWriter.on_daily k
    (DailySpendUpdateQueue.flush_and_get_aggregated_daily_spend_update_transactions cfg)).

(** The daily commit of a table; what is left of the dict afterwards is dropped. *)
Definition update_daily (k : daily_kind) (n_retry_times : Z) : M (D * updates_dict) unit :=
  match k with
  | DUser => SpendCommit.update_daily_user_spend n_retry_times
  | DTeam => SpendCommit.update_daily_team_spend n_retry_times
  | DOrg => SpendCommit.update_daily_org_spend n_retry_times
  | DTag => SpendCommit.update_daily_tag_spend n_retry_times
  | DEndUser => SpendCommit.update_daily_end_user_spend n_retry_times
  | DAgent => SpendCommit.update_daily_agent_spend n_retry_times
  end.

Definition commit_daily (k : daily_kind) (n_retry_times : Z) (transactions : updates_dict) : W state unit :=
  on_world (SpendCommit.on_db (λ d,
    let '(r, s) := update_daily k n_retry_times (d, transactions) in (r, s.1))).

Definition flush_and_commit_daily (k : daily_kind) (n_retry_times : Z) : W state unit :=
  transactions ← flush_daily k; commit_daily k n_retry_times transactions.

Definition _flush_tool_discovery_queue : W state unit :=
  w_try
    (items ← on_writer (λ w,
       let '(items, q) := ToolDiscoveryQueue.flush (DBSpendUpdateWriter.tool_discovery_queue w) in
       Done (Ok items) (DBSpendUpdateWriter.set_tools q w));
     match items with
     | [] => mret ()
     | _ => on_world (SpendCommit.on_db (ToolRegistry.batch_upsert_tools tool_now uuid4 items))
     end)
    (λ _, mret ()).

Definition _commit_spend_updates_to_db_without_redis_buffer (now : Z) (last_active : pyval) (n_retry_times : Z) : W state unit :=
  db_spend_update_transactions ← flush_spend;
  on_world (SpendCommit._commit_spend_updates_to_db now last_active n_retry_times db_spend_update_transactions) ;;
  flush_and_commit_daily DUser n_retry_times ;;
  flush_and_commit_daily DTeam n_retry_times ;;
  flush_and_commit_daily DOrg n_retry_times ;;
  flush_and_commit_daily DTag n_retry_times ;;
  flush_and_commit_daily DEndUser n_retry_times ;;
  flush_and_commit_daily DAgent n_retry_times ;;
  _flush_tool_discovery_queue.

Definition drain_lists : W state RedisUpdateBuffer.drained := λ s,
  match lists s with
  | None => Done (Ok (RedisUpdateBuffer.mkDrained None (replicate 6 None))) s
  | Some l =>
      let '(r, l') := RedisUpdateBuffer.get_all_transactions_from_redis_buffer_pipeline major_version dequeue_count l in
      Done r (mkProxy (writer s) (world s) (Some l') (lock s))
  end.

Definition commit_if_any (k : daily_kind) (n_retry_times : Z) (slot : option (option updates_dict)) : W state unit :=
  match mjoin slot with Some transactions => commit_daily k n_retry_times transactions | None => mret () end.

(** The body of the [try] of the committing instance. *)
Definition commit_drained (now : Z) (last_active : pyval) (n_retry_times : Z) : W state unit :=
  d ← drain_lists;
  match RedisUpdateBuffer.db_spend d with
  | Some t => on_world (SpendCommit._commit_spend_updates_to_db now last_active n_retry_times t)
  | None => mret ()
  end ;;
  let slot i := RedisUpdateBuffer.daily_results d !! (i : nat) in
  commit_if_any DUser n_retry_times (slot 0%nat) ;;
  commit_if_any DTeam n_retry_times (slot 1%nat) ;;
  commit_if_any DOrg n_retry_times (slot 2%nat) ;;
  commit_if_any DTag n_retry_times (slot 5%nat) ;;
  commit_if_any DEndUser n_retry_times (slot 3%nat) ;;
  commit_if_any DAgent n_retry_times (slot 4%nat).

Definition DB_SPEND_UPDATE_JOB_NAME : string := "db_spend_update_job".

(** The times of the commands of the lock are arguments. *)
Definition _commit_spend_updates_to_db_with_redis (t1 t2 t3 t4 : Z) (now : Z) (last_active : pyval) (n_retry_times : Z)
    : W state unit :=
  on_node (RedisUpdateBuffer.store_in_memory_spend_updates_in_redis cfg) ;;
  acquired ← on_lock (PodLockManager.acquire_lock t1 t2 pod_id DB_SPEND_UPDATE_JOB_NAME);
  match acquired with
  | Some true =>
      w_try (commit_drained now last_active n_retry_times) (λ _, mret ()) ;;
      on_lock (PodLockManager.release_lock t3 t4 pod_id DB_SPEND_UPDATE_JOB_NAME)
  | _ => mret ()
  end.

Definition db_update_spend_transaction_handler (use_redis_transaction_buffer : pyval) (t1 t2 t3 t4 : Z) (now : Z)
    (last_active : pyval) (n_retry_times : Z) : W state unit :=
  if RedisUpdateBuffer._should_commit_spend_updates_to_redis use_redis_transaction_buffer
  then _commit_spend_updates_to_db_with_redis t1 t2 t3 t4 now last_active n_retry_times
  else _commit_spend_updates_to_db_without_redis_buffer now last_active n_retry_times.
End ops.

(** ** What the job achieves *)

(** *** Steps that leave a part of the state alone *)

Definition fixes {S T A} (g : S → T) (m : W S A) : Prop := ∀ s, g (reached (m s)) = g s.

Lemma fixes_bind {S T A B} (g : S → T) (m : W S A) (f : A → W S B) : fixes g m → (∀ a, fixes g (f a)) → fixes g (m ≫= f).
Proof.
  intros Hm Hf s. apply (w_bind_reached (λ s', g s' = g s)); [apply Hm|]. intros a s' <-. apply Hf.
Qed.

Lemma fixes_ret {S T A} (g : S → T) (a : A) : fixes g (mret a).
Proof. done. Qed.

Lemma fixes_lift {S T A} (g : S → T) (r : res A) : fixes g (w_lift r).
Proof. done. Qed.

Lemma fixes_get {S T} (g : S → T) : fixes g w_get.
Proof. done. Qed.

Lemma fixes_try {S T A} (g : S → T) (m : W S A) h : fixes g m → (∀ e, fixes g (h e)) → fixes g (w_try m h).
Proof. intros Hm Hh s. specialize (Hm s). unfold w_try. destruct (m s) as [[a|e] s1|s1]; cbn in *; [done| |done]. by rewrite Hh. Qed.

Lemma fixes_zoom {S S' T A} (get : S → S') (set : S' → S → S) (g : S → T) (m : W S' A) :
  (∀ s, g (set (reached (m (get s))) s) = g s) → fixes g (w_zoom get set m).
Proof. intros Hg s. specialize (Hg s). unfold w_zoom. by destruct (m (get s)). Qed.

Create HintDb fixes.
#[export] Hint Resolve fixes_bind fixes_ret fixes_lift fixes_get fixes_try : fixes.


Section facts.
Context `{PyRuntime} {D C L K : Type} `{PrismaLaws D} `{!WholeBatches D} `{RedisCacheI C} `{RedisLists L} `{RedisClient K}.
Context (cfg : config) (major_version dequeue_count : Z) (pod_id : string) (tool_now : pyval) (uuid4 : nat → string).
#[local] Abbreviation state := (proxy D C L K).
#[local] Abbreviation spend_queue s := (DBSpendUpdateWriter.spend_update_queue (writer s)).
#[local] Abbreviation stored s := (cell (SpendCommit.db (world s))).

(** A step that ends, and touches neither the spend queue nor a table. *)
Definition keeps (tb : string) (m : W state unit) : Prop :=
  ∀ s, ∃ r s', m s = Done r s' ∧ spend_queue s' = spend_queue s ∧
    ∀ w f, same_cell (stored s' tb w f) (stored s tb w f).

Lemma keeps_bind tb m m' : keeps tb m → keeps tb m' → keeps tb (m ;; m').
Proof.
  intros Hm Hm' s. destruct (Hm s) as ([[]|e] & s1 & E & Hq & Hc).
  - destruct (Hm' s1) as (r & s2 & E' & Hq' & Hc'). exists r, s2. rewrite (w_bind_done _ _ _ _ _ E).
    split_and!; [done|congruence|]. intros w f. by rewrite Hc', Hc.
  - exists (Raise e), s1. unfold mbind, W_bind. by rewrite E.
Qed.

Definition daily_table (k : daily_kind) : string :=
  match k with
  | DUser => "litellm_dailyuserspend" | DTeam => "litellm_dailyteamspend" | DOrg => "litellm_dailyorganizationspend"
  | DTag => "litellm_dailytagspend" | DEndUser => "litellm_dailyenduserspend" | DAgent => "litellm_dailyagentspend"
  end.

Lemma update_daily_table k n tb w f (s : D * updates_dict) :
  tb ≠ daily_table k → same_cell (cell (update_daily k n s).2.1 tb w f) (cell s.1 tb w f).
Proof. intros Hne. destruct k; by apply SpendCommit.daily_table. Qed.

Lemma keeps_daily tb k n : tb ≠ daily_table k → keeps tb (flush_and_commit_daily cfg k n).
Proof.
  intros Hne s. unfold flush_and_commit_daily, flush_daily, on_writer, DBSpendUpdateWriter.on_daily, w_zoom.
  unfold DailySpendUpdateQueue.flush_and_get_aggregated_daily_spend_update_transactions.
  destruct (BaseUpdateQueue.flush_split cfg (DBSpendUpdateWriter.daily_queue k (writer s))) as (m & Hf & _).
  unfold mbind, W_bind. rewrite Hf. unfold w_lift.
  destruct (DailySpendUpdateQueue.get_aggregated_daily_spend_update_transactions _) as [tx|e].
  2: { do 2 eexists. split; [done|]. cbn. by destruct k. }
  unfold commit_daily, on_world, SpendCommit.on_db, m_zoom. cbn [world SpendCommit.db].
  pose proof (λ w f, update_daily_table k n tb w f (SpendCommit.db (world s), tx) Hne) as Ht.
  destruct (update_daily _ _ _) as [r [d l]]. do 2 eexists. split; [done|]. cbn in *. split; [by destruct k|done].
Qed.

Lemma keeps_tools tb : tb ≠ "litellm_tooltable" → keeps tb (_flush_tool_discovery_queue tool_now uuid4).
Proof.
  intros Hne s. unfold _flush_tool_discovery_queue, w_try, on_writer, w_zoom, mbind, W_bind. cbn.
  destruct (ToolDiscoveryQueue._pending _) as [|x items]; [by do 2 eexists|].
  unfold on_world, SpendCommit.on_db, m_zoom. cbn [world SpendCommit.db].
  pose proof (λ w f, ToolRegistry.tools_table tool_now uuid4 tb w f (x :: items) (SpendCommit.db (world s)) Hne) as Ht.
  destruct (ToolRegistry.batch_upsert_tools _ _ _ _) as [[[]|e] d]; do 2 eexists; (split; [done|]); done.
Qed.

Lemma keeps_rest tb n :
  tb ∈ SpendCommit.tables →
  keeps tb (flush_and_commit_daily cfg DUser n ;; flush_and_commit_daily cfg DTeam n ;; flush_and_commit_daily cfg DOrg n ;;
            flush_and_commit_daily cfg DTag n ;; flush_and_commit_daily cfg DEndUser n ;; flush_and_commit_daily cfg DAgent n ;;
            _flush_tool_discovery_queue tool_now uuid4).
Proof.
  intros Htb. assert (Hne : ∀ k, tb ≠ daily_table k).
  { intros k ->. revert Htb. destruct k; unfold SpendCommit.tables; cbn; set_solver. }
  repeat (apply keeps_bind; [by apply keeps_daily|]). apply keeps_tools.
  intros ->. revert Htb. unfold SpendCommit.tables. set_solver.
Qed.

(** The keys of the team members in a queue are made from ids without the separator. *)
Definition member_items (l : list SpendUpdateQueueItem) : Prop :=
  Forall (λ u, entity_type u = Some TEAM_MEMBER →
    ∃ team user, default "" (entity_id u) = DBSpendUpdateWriter.team_member_key team user ∧
      SpendCommit.clean team = true ∧ SpendCommit.no_separator user = true) l.

Lemma dset_keys (P : string → Prop) k (v : Q) l :
  Forall (λ x, P x.1) l → P k → Forall (λ x, P x.1) (dset k v l).
Proof.
  induction 1 as [|[k' v'] l Hx Hl IH]; intros Hk; cbn [dset]; [by repeat constructor|].
  destruct (String.eqb_spec k k') as [->|]; constructor; auto.
Qed.

Lemma aggregated_members l :
  member_items l → SpendCommit.member_keys (SpendCommit.dict_of
    (SpendUpdateQueue.get_aggregated_db_spend_update_transactions l) "team_member_list_transactions").
Proof.
  unfold SpendUpdateQueue.get_aggregated_db_spend_update_transactions, SpendCommit.member_keys. intros Hl.
  assert (Hempty : Forall (λ x : string * Q, ∃ team user, x.1 = DBSpendUpdateWriter.team_member_key team user ∧
    SpendCommit.clean team = true ∧ SpendCommit.no_separator user = true)
    (SpendCommit.dict_of empty_transactions "team_member_list_transactions")) by (rewrite RedisUpdateBuffer.empty_dicts; constructor).
  revert Hempty. generalize empty_transactions. induction Hl as [|u l Hu Hl IH]; intros t Ht; cbn [foldl]; [done|].
  apply IH. unfold SpendUpdateQueue.add_transaction. destruct (entity_type u) as [ty|] eqn:Ety; [|done].
  destruct (entity_type_to_dict_key ty) as [f'|] eqn:Ef; [|done]. unfold SpendCommit.dict_of. rewrite dget_dset.
  destruct (String.eqb_spec f' "team_member_list_transactions") as [->|]; [|done].
  change (mjoin (Some ?x)) with x. change (default [] (Some ?x)) with x.
  apply (dset_keys (λ k, ∃ team user, k = DBSpendUpdateWriter.team_member_key team user ∧
    SpendCommit.clean team = true ∧ SpendCommit.no_separator user = true)); [exact Ht|].
  apply Hu. destruct ty; done.
Qed.

Lemma aggregated_well_formed l :
  member_items l → SpendCommit.well_formed (SpendUpdateQueue.get_aggregated_db_spend_update_transactions l).
Proof.
  intros Hl. split_and!; [| |by apply aggregated_members].
  - clear Hl. unfold SpendUpdateQueue.get_aggregated_db_spend_update_transactions. intros f Hf.
    assert (is_Some (dget f empty_transactions)) as Hs.
    { unfold transaction_fields in Hf. set_unfold. destruct_or!; subst; by eexists. }
    revert Hs. generalize empty_transactions. induction l as [|u l IH]; intros t Ht; cbn [foldl]; [done|].
    apply IH. unfold SpendUpdateQueue.add_transaction. destruct (entity_type u) as [ty|]; [|done].
    destruct (entity_type_to_dict_key ty) as [f'|]; [|done]. rewrite dget_dset. by destruct (String.eqb f' f).
  - apply RedisUpdateBuffer.aggregated_wf. intros f. rewrite RedisUpdateBuffer.empty_dicts. apply NoDup_nil_2.
Qed.

(** What the transactions expect of an existing row is the spend they hold for it, as
    often as they are committed. *)
Lemma expected_row ty id t tb wh q :
  SpendCommit.row_of ty id = Some (tb, wh) →
  same_cell (SpendCommit.expected ty id t (Some q)) (Some (q + SpendUpdateQueue.spend_of ty id t)%Q).
Proof.
  intros Hrow. unfold SpendCommit.expected. assert (Hk : is_Some (entity_type_to_dict_key ty)) by (destruct ty; done).
  destruct Hk as [f Hf]. rewrite Hf, (RedisUpdateBuffer.spend_of_dict _ _ _ _ Hf).
  destruct (dget id (SpendCommit.dict_of t f)) as [a|]; cbn.
  - by case_bool_decide; constructor.
  - constructor. cbn. ring.
Qed.

#[local] Instance expected_proper ty id t : Proper (same_cell ==> same_cell) (SpendCommit.expected ty id t).
Proof.
  intros c c' Hc. unfold SpendCommit.expected. destruct (entity_type_to_dict_key ty); [|done].
  destruct (dget id _) as [a|]; [|done]. destruct Hc as [q q' Hq|]; case_bool_decide; cbn; constructor; cbn; by rewrite ?Hq.
Qed.

Lemma expected_times ty id t tb wh q k :
  SpendCommit.row_of ty id = Some (tb, wh) →
  same_cell (Nat.iter k (SpendCommit.expected ty id t) (Some q))
    (Some (q + inject_Z (Z.of_nat k) * SpendUpdateQueue.spend_of ty id t)%Q).
Proof.
  intros Hrow. induction k as [|k IH]; [constructor; cbn; ring|].
  change (Nat.iter (S k) ?f ?x) with (f (Nat.iter k f x)). rewrite IH, (expected_row ty id t tb wh _ Hrow). constructor.
  rewrite Nat2Z.inj_succ. unfold Z.succ. rewrite inject_Z_plus. ring.
Qed.

Lemma row_of_table ty id tb wh :
  SpendCommit.row_of ty id = Some (tb, wh) → tb ∈ SpendCommit.tables ∧ is_Some (entity_type_to_dict_key ty).
Proof.
  intros Hrow. split; [|destruct ty; try done; by eexists].
  assert (tb ∈ SpendCommit.tables); [|done]. unfold SpendCommit.tables. destruct ty; try done;
    try (injection Hrow as <- <-; set_solver). cbn in Hrow. repeat case_match; try done. injection Hrow as <- <-. set_solver.
Qed.

Lemma flush_spend_all (s : state) :
  qsize (spend_queue s) <= MAX_IN_MEMORY_QUEUE_FLUSH_COUNT cfg →
  flush_spend cfg s = Done (Ok (SpendUpdateQueue.get_aggregated_db_spend_update_transactions (spend_queue s)))
    (mkProxy (DBSpendUpdateWriter.set_spend_queue [] (writer s)) (world s) (lists s) (lock s)).
Proof.
  intros Hq. unfold flush_spend, on_writer, DBSpendUpdateWriter.on_spend, w_zoom,
    SpendUpdateQueue.flush_and_get_aggregated_db_spend_update_transactions.
  by rewrite (w_bind_done _ _ _ _ _ (BaseUpdateQueue.flush_all cfg _ Hq)).
Qed.

(** C10: Without the buffer the job always ends and empties the spend queue (which it can
    take in one flush).  The existing row of an entity, team members with ids without
    the separator included, then has what was queued for it added whole: at least once
    if the job returned, and at most once for each of the [n + 1] attempts, as an attempt
    whose reply was lost is repeated.  If every batch that raises was rolled back, it
    has been added exactly once or, only if the job raised, not at all. *)
Theorem spend_reaches_database now la n (s : state) ty id tb wh q :
  0 <= n → qsize (spend_queue s) <= MAX_IN_MEMORY_QUEUE_FLUSH_COUNT cfg → member_items (spend_queue s) →
  SpendCommit.row_of ty id = Some (tb, wh) → stored s tb wh "spend" = Some q →
  ∃ r s', _commit_spend_updates_to_db_without_redis_buffer cfg tool_now uuid4 now la n s = Done r s' ∧
    spend_queue s' = [] ∧
    let charged k := same_cell (stored s' tb wh "spend")
                       (Some (q + inject_Z (Z.of_nat k) * SpendUpdateQueue.owed ty id (spend_queue s))%Q) in
    (∃ k : nat, charged k ∧ Z.of_nat k <= n + 1 ∧ (r = Ok () → (1 ≤ k)%nat)) ∧
    (replies_kept D → charged 1%nat ∨ (r ≠ Ok () ∧ charged 0%nat)).
Proof.
  intros Hn Hq Hm Hrow Hcell. destruct (row_of_table _ _ _ _ Hrow) as [Htb Hty].
  unfold _commit_spend_updates_to_db_without_redis_buffer. rewrite (w_bind_done _ _ _ _ _ (flush_spend_all s Hq)).
  set (t := SpendUpdateQueue.get_aggregated_db_spend_update_transactions (spend_queue s)).
  set (s1 := mkProxy _ _ _ _).
  destruct (SpendCommit._commit_spend_updates_to_db now la n t (world s)) as [r w] eqn:Ec.
  assert (Hspend : ∀ k, same_cell (Nat.iter k (SpendCommit.expected ty id t) (stored s tb wh "spend"))
    (Some (q + inject_Z (Z.of_nat k) * SpendUpdateQueue.owed ty id (spend_queue s))%Q)).
  { intros k. rewrite Hcell, (expected_times ty id t tb wh q k Hrow). constructor. unfold t. by rewrite SpendUpdateQueue.spend_of_aggregated. }
  assert (Hcharged : ∀ kept : bool, (kept = true → replies_kept D) →
    ∃ k, same_cell (cell (SpendCommit.db w) tb wh "spend")
           (Some (q + inject_Z (Z.of_nat k) * SpendUpdateQueue.owed ty id (spend_queue s))%Q) ∧
      (k ≤ SpendCommit.at_most kept n)%nat ∧ (r = Ok () → (1 ≤ k)%nat)).
  { intros kept Hk. destruct (SpendCommit.commit_row kept now la n t _ w r ty id tb wh Hk Hn (aggregated_well_formed _ Hm) Ec Hrow)
      as (k & Hc & Hle & Hok). exists k. by rewrite <- Hspend. }
  assert (E1 : on_world (SpendCommit._commit_spend_updates_to_db now la n t) s1 = Done r (mkProxy (writer s1) w (lists s) (lock s))).
  { unfold on_world. cbn [world s1]. by rewrite Ec. }
  assert (Hend : ∃ r' s', _commit_spend_updates_to_db_without_redis_buffer cfg tool_now uuid4 now la n s = Done r' s' ∧
    spend_queue s' = [] ∧ same_cell (stored s' tb wh "spend") (cell (SpendCommit.db w) tb wh "spend") ∧ (r' = Ok () → r = Ok ())).
  { unfold _commit_spend_updates_to_db_without_redis_buffer. rewrite (w_bind_done _ _ _ _ _ (flush_spend_all s Hq)). fold t s1.
    destruct r as [[]|e].
    - rewrite (w_bind_done _ _ _ _ _ E1).
      destruct (keeps_rest tb n Htb (mkProxy (writer s1) w (lists s) (lock s))) as (r & s' & E2 & Hq' & Hc). eauto 10.
    - exists (Raise e), (mkProxy (writer s1) w (lists s) (lock s)). split; [unfold mbind, W_bind; by rewrite E1|]. done. }
  destruct Hend as (r' & s' & E & Hq' & Hc & Hr'). exists r', s'. split; [|split; [done|split]].
  - unfold _commit_spend_updates_to_db_without_redis_buffer in E. rewrite (w_bind_done _ _ _ _ _ (flush_spend_all s Hq)) in E. exact E.
  - destruct (Hcharged false ltac:(done)) as (k & Ha & Hle & Hok). exists k. rewrite Hc. unfold SpendCommit.at_most in Hle.
    split_and!; [done|lia|auto].
  - intros Hk. destruct (Hcharged true (λ _, Hk)) as ([|[|k]] & Ha & Hle & Hok); cbn in Hle; [right|left|lia].
    + split; [|by rewrite Hc]. intros Hr. specialize (Hok (Hr' Hr)). lia.
    + by rewrite Hc.
Qed.

(** *** Discovered tools *)

#[local] Abbreviation node_tools := (λ n : @RedisUpdateBuffer.node L, DBSpendUpdateWriter.tool_discovery_queue (RedisUpdateBuffer.writer n)).
#[local] Abbreviation tools := (λ s : state, DBSpendUpdateWriter.tool_discovery_queue (writer s)).

Lemma node_flush_daily_fixes k : fixes node_tools (RedisUpdateBuffer.flush_daily cfg k).
Proof.
  apply fixes_zoom. intros n. cbn. unfold DBSpendUpdateWriter.on_daily, w_zoom.
  by destruct (DailySpendUpdateQueue.flush_and_get_aggregated_daily_spend_update_transactions cfg _), k.
Qed.

Lemma node_flush_spend_fixes :
  fixes node_tools (RedisUpdateBuffer.on_writer (DBSpendUpdateWriter.on_spend
    (SpendUpdateQueue.flush_and_get_aggregated_db_spend_update_transactions cfg))).
Proof.
  apply fixes_zoom. intros n. cbn. unfold DBSpendUpdateWriter.on_spend, w_zoom.
  by destruct (SpendUpdateQueue.flush_and_get_aggregated_db_spend_update_transactions cfg _).
Qed.

Lemma store_fixes : fixes node_tools (RedisUpdateBuffer.store_in_memory_spend_updates_in_redis cfg).
Proof.
  unfold RedisUpdateBuffer.store_in_memory_spend_updates_in_redis. apply fixes_bind; [auto with fixes|]. intros n.
  destruct (RedisUpdateBuffer.redis_cache n); [|auto with fixes].
  apply fixes_bind; [apply node_flush_spend_fixes|]. intros db.
  do 6 (apply fixes_bind; [apply node_flush_daily_fixes|intros ?d]).
  apply fixes_bind; [auto with fixes|]. intros ops. apply fixes_bind; [auto with fixes|]. intros n'.
  destruct ops; [auto with fixes|]. destruct (RedisUpdateBuffer.redis_cache n') as [r|]; [|auto with fixes].
  intros n''. unfold RedisUpdateBuffer.on_redis. by destruct ((RedisLists.async_rpush_pipeline _ ;; _) r).
Qed.

Lemma world_fixes {A} (m : M (SpendCommit.world D C) A) : fixes tools (on_world m).
Proof. intros s. unfold on_world. by destruct (m (world s)). Qed.

Lemma lock_fixes {A} (m : M (option (RedisCache.t K)) A) : fixes tools (on_lock m).
Proof. intros s. unfold on_lock. by destruct (m (lock s)). Qed.

Lemma commit_if_any_fixes k n slot : fixes tools (commit_if_any k n slot).
Proof. unfold commit_if_any. destruct (mjoin slot); [apply world_fixes|auto with fixes]. Qed.

Lemma drain_lists_fixes : fixes tools (drain_lists major_version dequeue_count).
Proof.
  intros s. unfold drain_lists. destruct (lists s); [|done].
  by destruct (RedisUpdateBuffer.get_all_transactions_from_redis_buffer_pipeline _ _ _).
Qed.

(** With the buffer switched on no run of the job takes anything from the queue of
    discovered tools: they are never registered. *)
Theorem buffer_never_registers_tools setting t1 t2 t3 t4 now la n (s : state) :
  RedisUpdateBuffer._should_commit_spend_updates_to_redis setting = true →
  tools (reached (db_update_spend_transaction_handler cfg major_version dequeue_count pod_id tool_now uuid4
                    setting t1 t2 t3 t4 now la n s)) = tools s.
Proof.
  intros Hset. unfold db_update_spend_transaction_handler. rewrite Hset. revert s.
  change (fixes tools (_commit_spend_updates_to_db_with_redis cfg major_version dequeue_count pod_id t1 t2 t3 t4 now la n)).
  unfold _commit_spend_updates_to_db_with_redis. apply fixes_bind.
  { apply fixes_zoom. intros s. exact (store_fixes (RedisUpdateBuffer.mkNode (writer s) (lists s))). }
  intros _. apply fixes_bind; [apply lock_fixes|]. intros [[]|]; [|auto with fixes..].
  apply fixes_bind; [|intros; apply lock_fixes]. apply fixes_try; [|auto with fixes].
  unfold commit_drained. apply fixes_bind; [apply drain_lists_fixes|]. intros d.
  apply fixes_bind; [destruct (RedisUpdateBuffer.db_spend d); [apply world_fixes|auto with fixes]|]. intros _.
  repeat (apply fixes_bind; [apply commit_if_any_fixes|]; intros _). apply commit_if_any_fixes.
Qed.
End facts.

(** ** Runs *)

(** JSON that writes texts as themselves and the transactions of one charge as [t]. *)
Definition ex_runtime : PyRuntime := {|
  json_dumps v := match v with
                  | PStr s => Some s
                  | _ => if RedisUpdateBuffer.same_val v (PDict (RedisUpdateBuffer.transactions_val RedisUpdateBuffer.ex_spend))
                         then Some "t" else None
                  end;
  json_loads s := if String.eqb s "t" then Some (PDict (RedisUpdateBuffer.transactions_val RedisUpdateBuffer.ex_spend)) else Some (PStr s);
  literal_eval _ := None; obj_sizeof _ := 0; float_str _ := ""; container_str _ := "" |}.

Section examples.
#[local] Existing Instance ex_runtime.
#[local] Existing Instance SpendCommit.toy_prisma.
#[local] Existing Instance SpendCommit.toy_prisma_laws.
#[local] Existing Instance SpendCommit.toy_whole.
#[local] Existing Instance RedisCache.toy_client.
#[local] Existing Instance RedisCache.RedisCache_instance.
#[local] Existing Instance RedisUpdateBuffer.toy_lists.
#[local] Abbreviation toy_proxy := (proxy SpendCommit.toy_db (RedisCache.t RedisCache.toy) RedisUpdateBuffer.toy_server RedisCache.toy).

Definition ex_tool : ToolDiscoveryQueueItem := mkTool "search" None None None None None None.

(** A proxy with a charge of 3 to key [k] in its queue and a discovered tool. *)
Definition ex_proxy (queue : list SpendUpdateQueueItem) (batches : list string) (script : list (option exn)) : toy_proxy :=
  mkProxy (DBSpendUpdateWriter.set_tools (ToolDiscoveryQueue.add_update ex_tool ToolDiscoveryQueue.init)
             (DBSpendUpdateWriter.set_spend_queue queue DBSpendUpdateWriter.init))
    (SpendCommit.mkWorld (SpendCommit.mkToyDb SpendCommit.ex_rows [] script) None)
    (Some (RedisUpdateBuffer.mkServer (λ k, if String.eqb k RedisUpdateBuffer.REDIS_UPDATE_BUFFER_KEY then batches else []) false))
    (Some (PodLockManager.empty_redis None)).

#[local] Abbreviation key_row := [("token", PStr "k")].
#[local] Abbreviation key_spend s := (cell (SpendCommit.db (world s)) "litellm_verificationtoken" key_row "spend").

Lemma spend_reaches_database_witness :
  let s := ex_proxy [RedisUpdateBuffer.ex_item] [] [Some DBConnectionError] in
  ∃ r s', _commit_spend_updates_to_db_without_redis_buffer default_config PNone (λ _, "id") 0 PNone 1 s = Done r s' ∧
    DBSpendUpdateWriter.spend_update_queue (writer s') = [] ∧
    (same_cell (key_spend s') (Some (1 + 1 * SpendUpdateQueue.owed KEY "k" [RedisUpdateBuffer.ex_item])%Q) ∨
     (r ≠ Ok () ∧ same_cell (key_spend s') (Some (1 + 0 * SpendUpdateQueue.owed KEY "k" [RedisUpdateBuffer.ex_item])%Q))).
Proof.
  destruct (spend_reaches_database default_config PNone (λ _, "id") 0 PNone 1
           (ex_proxy [RedisUpdateBuffer.ex_item] [] [Some DBConnectionError]) KEY "k" "litellm_verificationtoken" key_row 1%Q) as (r & s' & E & Hq & _ & Hc);
    [lia|by vm_compute|repeat constructor; discriminate|reflexivity..|].
  exists r, s'. split; [exact E|]. split; [exact Hq|]. exact (Hc SpendCommit.toy_kept).
Defined.

Lemma buffer_never_registers_tools_witness :
  let s := ex_proxy [RedisUpdateBuffer.ex_item] [] [] in
  ToolDiscoveryQueue._pending (DBSpendUpdateWriter.tool_discovery_queue
    (writer (reached (db_update_spend_transaction_handler default_config 7 100 "pod" PNone (λ _, "id")
      (PBool true) 0 0 0 0 0 PNone 1 s)))) = [ex_tool].
Proof.
  cbv zeta. rewrite (buffer_never_registers_tools default_config 7 100 "pod" PNone (λ _, "id") (PBool true) 0 0 0 0 0 PNone 1
    (ex_proxy [RedisUpdateBuffer.ex_item] [] [])); reflexivity.
Defined.

(** What a run with the buffer leaves: how it ended, the spend of the row, the spend owed by
    the queue, and the batches in the list. *)
Definition outcome_of (s : toy_proxy) : option (option Q * Q * list string) :=
  match _commit_spend_updates_to_db_with_redis default_config 7 100 "pod" 0 0 0 0 0 PNone 0 s with
  | Done (Ok ()) s' =>
      Some (key_spend s', SpendUpdateQueue.owed KEY "k" (DBSpendUpdateWriter.spend_update_queue (writer s')),
            match lists s' with Some l => rl_list l RedisUpdateBuffer.REDIS_UPDATE_BUFFER_KEY | None => [] end)
  | _ => None
  end.

(** A commit that fails after the lists were drained is logged and forgotten: the batches
    have left the list and the row of their key is as before.  Without the failure the
    queued charge and the batch of the list both reach the row. *)
Theorem failed_commit_loses_drained :
  outcome_of (ex_proxy [RedisUpdateBuffer.ex_item] ["t"] [Some RuntimeError]) = Some (Some 1%Q, 0%Q, []) ∧
  outcome_of (ex_proxy [RedisUpdateBuffer.ex_item] ["t"] []) = Some (Some 7%Q, 0%Q, []).
Proof. by split; vm_compute. Qed.
End examples.
End SpendPipeline.
