(* ===== verification/RateLimiter.v ===== *)
(** * RateLimiter: the counters of [proxy/hooks/parallel_request_limiter_v3.py]

    Requests, tokens and parallel requests are counted per descriptor (a key, a user, a
    team, ...) in windows of [window_size] seconds.  The counters live in the in-memory
    level of a dual cache and, when there is a Redis, in the store of its Lua scripts,
    which several proxies share.  [InternalUsageCache] only forwards to the dual cache.
    The scripts are modelled as programs over a store with expiry times; that a client
    runs them atomically is the class [ScriptLaws].  Counters are integers.

    What the counters promise is proved in [RateWindows]; the hooks that call them are
    in [LimitHook]. *)

From stdpp Require Import base gmap sets list strings.
From Stdlib Require Import Ascii ZArith QArith Lia ZifyBool.
From S2P Require Import Prelude PyStr InMemoryCache RedisCache DualCache.

#[local] Open Scope Z_scope.

(** ** Scripts *)

(** The store of a Redis server: numbers with an optional expiry time. *)
Module LuaScripts.
Abbreviation store := (gmap string (Z * option Z)).

Section ops.
Context (t : Z).                              (* the time of the server *)

Definition live (e : option Z) : bool := match e with Some x => t <? x | None => true end.
Definition entry (k : string) (st : store) : option (Z * option Z) :=
  match st !! k with Some (v, e) => if live e then Some (v, e) else None | None => None end.

Definition GET (k : string) (st : store) : option Z := fst <$> entry k st.
Definition SET (k : string) (v : Z) (st : store) : store := <[k := (v, None)]> st.
Definition EXPIRE (k : string) (secs : Z) (st : store) : store :=
  match entry k st with Some (v, _) => <[k := (v, Some (t + seconds secs))]> st | None => st end.
Definition INCRBY (k : string) (n : Z) (st : store) : Z * store :=
  let '(v, e) := default (0, None) (entry k st) in (v + n, <[k := (v + n, e)]> st).
(** [TTL(key) == -1]: the key exists and never expires. *)
Definition no_ttl (k : string) (st : store) : bool :=
  match entry k st with Some (_, None) => true | _ => false end.
Definition expire_if_no_ttl (k : string) (secs : Z) (st : store) : store :=
  if no_ttl k st then EXPIRE k secs st else st.

(** One window and counter of [BATCH_RATE_LIMITER_SCRIPT]. *)
Definition count_pair (now window_size : Z) (window_key counter_key : string) (st : store) : (Z * Z) * store :=
  let fresh := match GET window_key st with Some s => window_size <=? now - s | None => true end in
  if fresh then
    let st := SET counter_key 1 (SET window_key now st) in
    ((now, 1), EXPIRE counter_key window_size (EXPIRE window_key window_size st))
  else
    let '(counter, st1) := INCRBY counter_key 1 st in
    ((default 0 (GET window_key st), counter), expire_if_no_ttl counter_key window_size st1).

Fixpoint BATCH_RATE_LIMITER_SCRIPT (now window_size : Z) (keys : list string) (st : store) : list (Z * Z) * store :=
  match keys with
  | window_key :: counter_key :: keys' =>
      let '(x, st1) := count_pair now window_size window_key counter_key st in
      let '(xs, st2) := BATCH_RATE_LIMITER_SCRIPT now window_size keys' st1 in (x :: xs, st2)
  | _ => ([], st)
  end.

Fixpoint TOKEN_INCREMENT_SCRIPT (ops : list (string * Z * Z)) (st : store) : list Z * store :=
  match ops with
  | (key, increment_value, ttl_seconds) :: ops' =>
      let '(v, st1) := INCRBY key increment_value st in
      let st2 := if 0 <? ttl_seconds then expire_if_no_ttl key ttl_seconds st1 else st1 in
      let '(vs, st3) := TOKEN_INCREMENT_SCRIPT ops' st2 in (v :: vs, st3)
  | [] => ([], st)
  end.
End ops.
End LuaScripts.

(** The scripts as a client registers them; a call may raise.  The replies are the texts
    of the window starts and the counters, in turn. *)
Class RateScripts (R : Type) := {
  rs_batch : Z → list string → Z → Z → M R (list pyval);
  rs_tokens : Z → list (string * Z * Z) → M R unit;
  rs_store : R → LuaScripts.store;
  rs_cluster : R → bool                       (* a [RedisClusterCache] *)
}.

Definition replies (l : list (Z * Z)) : list pyval := mjoin ((λ x, [PStr (str_of_Z x.1); PInt x.2]) <$> l).

Class ScriptLaws (R : Type) `{RateScripts R} := {
  batch_runs t keys now w (r r' : R) vs : rs_batch t keys now w r = (Ok vs, r') →
    (vs, rs_store r') = prod_map replies id (LuaScripts.BATCH_RATE_LIMITER_SCRIPT t now w keys (rs_store r));
  batch_cluster t keys now w (r : R) : rs_cluster (rs_batch t keys now w r).2 = rs_cluster r;
  tokens_runs t ops (r r' : R) : rs_tokens t ops r = (Ok (), r') →
    rs_store r' = (LuaScripts.TOKEN_INCREMENT_SCRIPT t ops (rs_store r)).2
}.

Module RateLimiter.
#[local] Abbreviation dict := (list (string * pyval)).

(** ** Descriptors *)

Record RateLimitDescriptorRateLimitObject := mkLimit {
  requests_per_unit : pyval;
  tokens_per_unit : pyval;
  max_parallel_requests : pyval;
  limit_window_size : pyval
}.

Record RateLimitDescriptor := mkDescriptor {
  key : string;
  value : string;
  rate_limit : option RateLimitDescriptorRateLimitObject
}.

Record RateLimitStatus := mkStatus {
  over : bool;                                (* code == "OVER_LIMIT" *)
  current_limit : Z;
  limit_remaining : Z;
  rate_limit_type : string;
  status_descriptor_key : string
}.

Record RateLimitResponse := mkResponse { overall_over : bool; statuses : list RateLimitStatus }.

(** An entry of [key_metadata]. *)
Record metadata := mkMetadata {
  requests_limit : option Z;
  tokens_limit : option Z;
  max_parallel_requests_limit : option Z;
  metadata_window_size : Z;
  descriptor_key : string
}.

(** [int(v)]. *)
Definition py_int (v : pyval) : res Z :=
  match v with
  | PInt z => Ok z
  | PBool b => Ok (Z.b2z b)
  | PFloat q => Ok (Z.quot (Qnum q) (QDen q))
  | PStr s => match int_of_str s with Some z => Ok z | None => Raise ValueError end
  | _ => Raise TypeError
  end.

Definition opt_int (v : pyval) : res (option Z) :=
  if is_none v then Ok None else Some <$> py_int v.

Definition tag (key value : string) : string := "{" +:+ key +:+ ":" +:+ value +:+ "}".
Definition window_key (d : RateLimitDescriptor) : string := tag (key d) (value d) +:+ ":window".
Definition create_rate_limit_keys (key value rate_limit_type : string) : string :=
  tag key value +:+ ":" +:+ rate_limit_type.

Definition empty_limit : RateLimitDescriptorRateLimitObject := mkLimit PNone PNone PNone PNone.
Definition limit_of (d : RateLimitDescriptor) : RateLimitDescriptorRateLimitObject := default empty_limit (rate_limit d).

(** The limits of a descriptor in the order of their keys. *)
Definition limits (d : RateLimitDescriptor) : list (string * pyval) :=
  [("requests", requests_per_unit (limit_of d)); ("tokens", tokens_per_unit (limit_of d));
   ("max_parallel_requests", max_parallel_requests (limit_of d))].

Definition descriptor_keys (d : RateLimitDescriptor) : list string :=
  mjoin ((λ x : string * pyval, if is_none x.2 then [] else [window_key d; create_rate_limit_keys (key d) (value d) x.1]) <$> limits d).

(** ** Slots of a cluster *)

Definition REDIS_CLUSTER_SLOTS : Z := 16384.
Definition REDIS_NODE_HASHTAG_NAME : string := "all_keys".

(** [binascii.crc_hqx]: the polynomial 0x1021, bit by bit from the high end. *)
Fixpoint crc_bits (n : nat) (crc : Z) : Z :=
  match n with
  | O => crc
  | S n' =>
      let crc2 := Z.shiftl crc 1 in
      crc_bits n' (Z.land (if Z.testbit crc 15 then Z.lxor crc2 4129 else crc2) 65535)
  end.
Definition crc_byte (crc : Z) (a : ascii) : Z :=
  crc_bits 8 (Z.lxor crc (Z.shiftl (Z.of_N (Ascii.N_of_ascii a)) 8)).
Fixpoint crc_hqx (s : string) (crc : Z) : Z :=
  match s with EmptyString => crc | String a s' => crc_hqx s' (crc_byte crc a) end.

(** The text between the first opening brace and the next closing one, unless it is empty. *)
Definition hash_tag (key : string) : string :=
  let '(_, after) := split_once "{" key in
  match after with
  | None => key
  | Some rest =>
      match split_once "}" rest with
      | (_, None) => key
      | (inner, Some _) => if String.eqb inner "" then key else inner
      end
  end.

Definition keyslot_for_redis_cluster (key : string) : Z := crc_hqx (hash_tag key) 0 mod REDIS_CLUSTER_SLOTS.

(** A key joins the group of its slot; groups are in the order of their first keys. *)
Definition join_group (groups : list (string * list string)) (key : string) : list (string * list string) :=
  let slot_key := "slot_" +:+ str_of_Z (keyslot_for_redis_cluster key) in
  dset slot_key (default [] (dget slot_key groups) ++ [key]) groups.

Definition _group_keys_by_hash_tag (cluster : bool) (keys : list string) : list (string * list string) :=
  if cluster then foldl join_group [] keys else [(REDIS_NODE_HASHTAG_NAME, keys)].

Section ops.
Context `{PyRuntime} {R : Type} `{RedisCacheI R} `{RateScripts R}.
Context (window_size : Z).
#[local] Abbreviation cache := (DualCache.t R).

Definition descriptor_metadata (d : RateLimitDescriptor) : res metadata :=
  requests_limit ← opt_int (requests_per_unit (limit_of d));
  tokens_limit ← opt_int (tokens_per_unit (limit_of d));
  parallel_limit ← opt_int (max_parallel_requests (limit_of d));
  w ← py_int (py_or (limit_window_size (limit_of d)) (PInt window_size));
  Ok (mkMetadata requests_limit tokens_limit parallel_limit w (key d)).

(** The loop that collects the keys and their metadata. *)
Fixpoint collect (descriptors : list RateLimitDescriptor) (keys : list string) (meta : list (string * metadata))
    : res (list string * list (string * metadata)) :=
  match descriptors with
  | [] => Ok (keys, meta)
  | d :: rest =>
      match descriptor_keys d with
      | [] => collect rest keys meta
      | ks => m ← descriptor_metadata d; collect rest (keys ++ ks) (dset (window_key d) m meta)
      end
  end.

(** *** Verdicts *)

Definition limit_for (counter_key : string) (m : metadata) : option (string * Z) :=
  if endswith counter_key ":requests" then pair "requests" <$> requests_limit m
  else if endswith counter_key ":max_parallel_requests" then pair "max_parallel_requests" <$> max_parallel_requests_limit m
  else if endswith counter_key ":tokens" then pair "tokens" <$> tokens_limit m
  else None.

(** One round of the loop: the status of a counter, when it has a limit. *)
Definition judge (window_key counter_key : string) (counter_value : pyval) (meta : list (string * metadata))
    : res (option RateLimitStatus) :=
  match dget window_key meta with
  | None => Raise KeyError
  | Some m =>
      match limit_for counter_key m with
      | None => Ok None
      | Some (ty, limit) =>
          if is_none counter_value then Ok (Some (mkStatus false limit limit ty (descriptor_key m)))
          else n ← py_int counter_value; Ok (Some (mkStatus (limit <? n) limit (limit - n) ty (descriptor_key m)))
      end
  end.

Fixpoint is_cache_list_over_limit (keys : list string) (cache_values : list pyval) (meta : list (string * metadata))
    : res RateLimitResponse :=
  match cache_values with
  | [] => Ok (mkResponse false [])
  | _ :: rest =>
      match keys, rest with
      | w :: c :: keys', counter_value :: values' =>
          s ← judge w c counter_value meta;
          r ← is_cache_list_over_limit keys' values' meta;
          Ok match s with
             | Some st => mkResponse (over st || overall_over r) (st :: statuses r)
             | None => r
             end
      | _, _ => Raise IndexError
      end
  end.

(** *** The window in memory *)

Definition ttl : ttl_kw := Some (Some (seconds window_size)).

Definition now_int (now : Z) : Z := now / 1000000.

(** One window and counter. *)
Definition slide (now n : Z) (window_key counter_key : string) : M cache (list pyval) :=
  window_start ← DualCache.async_get_cache now window_key true None;
  fresh ← m_lift (if is_none window_start then Ok true
                  else s ← py_int window_start; Ok (window_size <=? n - s));
  if fresh : bool then
    DualCache.async_set_cache now window_key (PStr (str_of_Z n)) true ttl ;;
    DualCache.async_set_cache now counter_key (PInt 1) true ttl ;;
    mret [PStr (str_of_Z n); PInt 1]
  else
    current_counter ← DualCache.async_get_cache now counter_key true None;
    z ← m_lift (if is_none current_counter then Ok 0 else py_int current_counter);
    DualCache.async_set_cache now counter_key (PInt (z + 1)) true ttl ;;
    mret [window_start; PInt (z + 1)].

Fixpoint in_memory_cache_sliding_window (now n : Z) (keys : list string) : M cache (list pyval) :=
  match keys with
  | [] => mret []
  | w :: c :: keys' =>
      x ← slide now n w c;
      xs ← in_memory_cache_sliding_window now n keys';
      mret (x ++ xs)
  | _ => m_raise IndexError
  end.

(** *** The window in Redis *)

Definition on_script {A} (m : M R A) : M cache A := λ c,
  match DualCache.redis_cache c with
  | None => (Raise RuntimeError, c)
  | Some r => let '(x, r') := m r in (x, DualCache.set_redis (Some r') c)
  end.

Definition is_cluster (c : cache) : bool :=
  match DualCache.redis_cache c with Some r => rs_cluster r | None => false end.

(** A group whose script fails is counted in memory. *)
Definition _execute_redis_batch_rate_limiter_script (now : Z) (keys_to_fetch : list string) : M cache (list pyval) := λ c,
  match DualCache.redis_cache c with
  | None => (Ok [], c)
  | Some _ =>
      (groups ← m_map (λ g : string * list string,
         m_try (on_script (rs_batch now g.2 (now_int now) window_size))
               (λ _, in_memory_cache_sliding_window now (now_int now) g.2))
         (_group_keys_by_hash_tag (is_cluster c) keys_to_fetch);
       mret (mjoin groups)) c
  end.

(** The copy of the counters into the in-memory cache. *)
Fixpoint remember (now : Z) (keys : list string) (values : list pyval) : M cache unit :=
  match values with
  | [] => mret ()
  | window_value :: rest =>
      match keys, rest with
      | w :: c :: keys', counter_value :: values' =>
          DualCache.async_set_cache now c counter_value true ttl ;;
          DualCache.async_set_cache now w window_value true ttl ;;
          remember now keys' values'
      | _, _ => m_raise IndexError
      end
  end.

(** What a read-only check takes for keys it could not read. *)
Definition unread (now : Z) (k : string) : pyval :=
  if endswith k ":window" then PStr (str_of_Z (now_int now)) else PInt 0.

Definition should_rate_limit (now : Z) (descriptors : list RateLimitDescriptor) (read_only : bool) : M cache RateLimitResponse :=
  '(keys, meta) ← m_lift (collect descriptors [] []);
  cache_values ← DualCache.async_batch_get_cache now keys true None;
  local ← m_lift match cache_values with
                 | Some vs => is_cache_list_over_limit keys vs meta
                 | None => Ok (mkResponse false [])
                 end;
  if overall_over local then mret local
  else
    c ← m_get;
    values ←
      (if read_only then
         vs ← DualCache.async_batch_get_cache now keys false None;
         mret (default (unread now <$> keys) vs)
       else
         match DualCache.redis_cache c with
         | Some _ =>
             vs ← _execute_redis_batch_rate_limiter_script now keys;
             remember now keys vs ;;
             mret vs
         | None => in_memory_cache_sliding_window now (now_int now) keys
         end);
    m_lift (is_cache_list_over_limit keys values meta).

(** *** After a call *)

(** [RedisPipelineIncrementOperation]s: key, value and time to live in seconds. *)
Definition increment_op : Type := string * Z * Z.

Definition _create_pipeline_operations (key value : string) (total_tokens : Z) : list increment_op :=
  [(create_rate_limit_keys key value "tokens", total_tokens, window_size)].

Definition regular_pipeline (now : Z) (ops : list increment_op) : M cache unit :=
  DualCache.async_increment_cache_pipeline now
    ((λ op : increment_op, (op.1.1, PInt op.1.2, Some (seconds op.2))) <$> ops) false ;;
  mret ().

Definition _execute_token_increment_script (now : Z) (ops : list increment_op) : M cache unit := λ c,
  m_iter (λ g : string * list string,
      on_script (rs_tokens now (filter (λ op : increment_op, op.1.1 ∈ g.2) ops)))
    (_group_keys_by_hash_tag (is_cluster c) ((λ op : increment_op, op.1.1) <$> ops)) c.

Definition async_increment_tokens_with_ttl_preservation (now : Z) (ops : list increment_op) : M cache unit := λ c,
  match ops, DualCache.redis_cache c with
  | [], _ => (Ok (), c)
  | _, None => regular_pipeline now ops c
  | _, Some _ => m_try (_execute_token_increment_script now ops) (λ _, regular_pipeline now ops) c
  end.
End ops.
End RateLimiter.

(** ** Concrete instances *)

Module Toy.
(** A JSON that knows integers. *)
Definition int_runtime : PyRuntime := {|
  json_loads s := PInt <$> int_of_str s;
  json_dumps := @json_dumps toy_runtime;
  literal_eval := @literal_eval toy_runtime;
  obj_sizeof _ := 0;
  float_str := @float_str toy_runtime;
  container_str := @container_str toy_runtime
|}.

(** A server that runs the scripts and nothing else. *)
Record server := mkServer { data : LuaScripts.store; clustered : bool }.
Definition set_data (d : LuaScripts.store) (s : server) : server := mkServer d (clustered s).

Definition scripts_only (S : Type) : RedisCacheI S := {|
  rd_set_cache _ _ _ _ := m_raise RuntimeError;
  rd_async_set_cache _ _ _ _ := m_raise RuntimeError;
  rd_get_cache _ _ := m_raise RuntimeError;
  rd_async_get_cache _ _ := m_raise RuntimeError;
  rd_async_batch_get_cache _ _ := m_raise RuntimeError;
  rd_increment_cache _ _ _ _ := m_raise RuntimeError;
  rd_async_increment _ _ _ _ := m_raise RuntimeError;
  rd_async_set_cache_pipeline _ _ _ := m_raise RuntimeError;
  rd_async_increment_pipeline _ _ := m_raise RuntimeError;
  rd_async_set_cache_sadd _ _ _ _ := m_raise RuntimeError;
  rd_flush_cache _ := m_raise RuntimeError;
  rd_delete_cache _ _ := m_raise RuntimeError;
  rd_async_delete_cache _ _ := m_raise RuntimeError;
  rd_async_get_ttl _ _ := m_raise RuntimeError
|}.
Definition server_redis : RedisCacheI server := scripts_only server.

Definition server_scripts : RateScripts server := {|
  rs_batch t keys now w s :=
    let '(l, st) := LuaScripts.BATCH_RATE_LIMITER_SCRIPT t now w keys (data s) in (Ok (replies l), set_data st s);
  rs_tokens t ops s := (Ok (), set_data (LuaScripts.TOKEN_INCREMENT_SCRIPT t ops (data s)).2 s);
  rs_store := data;
  rs_cluster := clustered
|}.

Lemma server_laws : @ScriptLaws server server_scripts.
Proof.
  split; cbn.
  - intros t keys now w r r' vs. destruct (LuaScripts.BATCH_RATE_LIMITER_SCRIPT t now w keys (data r)) as [l st].
    by intros [= <- <-].
  - intros t keys now w r. by destruct (LuaScripts.BATCH_RATE_LIMITER_SCRIPT t now w keys (data r)).
  - by intros t ops r r' [= <-].
Qed.

(** A cache with room for 200 entries, with and without a server behind it. *)
Definition cache (s : option server) : DualCache.t server :=
  @DualCache.init server DualCache.default_settings (Some InMemoryCache.init_default) s None None None 1000.
End Toy.
