(* ===== verification/RateWindows.v ===== *)
(** * RateWindows: what the counters of [RateLimiter] promise

    The abstract limiter is a table of counters: a request that finds one of its counters
    over its limit is refused, any other counts in each of them and is refused when one of
    them gets over its limit.  The in-memory limiter refines it within a window, response
    by response, when the cache has room for the counters; with a Redis that is no
    cluster the replies of the script do. *)

From stdpp Require Import base gmap sets list strings.
From Stdlib Require Import Ascii ZArith QArith Lia ZifyBool.
From S2P Require Import Prelude PyStr InMemoryCache RedisCache DualCache RateLimiter.

#[local] Open Scope Z_scope.

(** ** The abstract limiter *)

Module Abstract.
Import RateLimiter.

#[local] Abbreviation table := (gmap string Z).

(** What the loop of [is_cache_list_over_limit] says of one counter. *)
Definition status (meta : list (string * metadata)) (p : string * string) (n : option Z) : option RateLimitStatus :=
  m ← dget p.1 meta;
  '(ty, limit) ← limit_for p.2 m;
  Some match n with
       | None => mkStatus false limit limit ty (descriptor_key m)
       | Some n => mkStatus (limit <? n) limit (limit - n) ty (descriptor_key m)
       end.

Definition respond (meta : list (string * metadata)) (l : list ((string * string) * option Z)) : RateLimitResponse :=
  let sts := omap (λ x, status meta x.1 x.2) l in mkResponse (existsb over sts) sts.

Definition count (tbl : table) (c : string) : Z := default 0 (tbl !! c).

(** The counters count one by one, in turn. *)
Fixpoint bump (ps : list (string * string)) (tbl : table) : list ((string * string) * option Z) * table :=
  match ps with
  | [] => ([], tbl)
  | p :: ps' =>
      let n := count tbl p.2 + 1 in
      let '(l, tbl') := bump ps' (<[p.2 := n]> tbl) in ((p, Some n) :: l, tbl')
  end.

Definition check (ps : list (string * string)) (meta : list (string * metadata)) (tbl : table) : RateLimitResponse * table :=
  let before := respond meta ((λ p, (p, tbl !! p.2)) <$> ps) in
  if overall_over before then (before, tbl)
  else let '(l, tbl') := bump ps tbl in (respond meta l, tbl').

(** The windows and counters of a list of keys. *)
Fixpoint flatten (ps : list (string * string)) : list string :=
  match ps with [] => [] | (w, c) :: ps' => w :: c :: flatten ps' end.

Definition descriptor_pairs (d : RateLimitDescriptor) : list (string * string) :=
  (λ x : string * pyval, (window_key d, create_rate_limit_keys (key d) (value d) x.1)) <$> filter (λ x : string * pyval, negb (is_none x.2)) (limits d).

Definition request_pairs (ds : list RateLimitDescriptor) : list (string * string) := mjoin (descriptor_pairs <$> ds).

(** *** Keys *)

Lemma join_cons {A} (x : list A) l : mjoin (x :: l) = x ++ mjoin l.
Proof. done. Qed.

Lemma flatten_app ps qs : flatten (ps ++ qs) = flatten ps ++ flatten qs.
Proof. induction ps as [|[w c] ps IH]; cbn; [done|by rewrite IH]. Qed.

Lemma descriptor_keys_flatten d : descriptor_keys d = flatten (descriptor_pairs d).
Proof.
  unfold descriptor_keys, descriptor_pairs. induction (limits d) as [|[ty v] l IH]; [done|].
  rewrite filter_cons, fmap_cons, join_cons, IH. cbn [snd fst]. by destruct (is_none v).
Qed.

Lemma collect_keys w ds keys meta keys' meta' :
  collect w ds keys meta = Ok (keys', meta') → keys' = keys ++ flatten (request_pairs ds).
Proof.
  revert keys meta. induction ds as [|d ds IH]; intros keys meta; cbn [collect].
  { intros [= <- _]. cbn. by rewrite app_nil_r. }
  unfold request_pairs in *. rewrite fmap_cons, join_cons, flatten_app, <-descriptor_keys_flatten.
  destruct (descriptor_keys d) as [|k ks]; [by intros ->%IH|].
  unfold mbind, res_bind. destruct (descriptor_metadata w d); [|done]. intros ->%IH. by rewrite <-app_assoc.
Qed.

(** A window key and a counter key of one descriptor. *)
Definition paired (w c : string) : Prop :=
  ∃ k v ty, w = tag k v +:+ ":window" ∧ c = create_rate_limit_keys k v ty ∧
    ty ∈ ["requests"; "tokens"; "max_parallel_requests"].

Lemma request_paired ds : Forall (λ p, paired p.1 p.2) (request_pairs ds).
Proof.
  apply Forall_forall. intros p (l & Hp & (d & -> & _)%list_elem_of_fmap)%list_elem_of_join.
  apply list_elem_of_fmap in Hp as ([ty v] & -> & [_ Hx]%list_elem_of_filter).
  exists (key d), (value d), ty. split_and!; [done..|]. unfold limits in Hx. set_solver.
Qed.

Lemma counter_tag k v ty k' v' ty' :
  ty ∈ ["requests"; "tokens"; "max_parallel_requests"; "window"] →
  ty' ∈ ["requests"; "tokens"; "max_parallel_requests"; "window"] →
  create_rate_limit_keys k v ty = create_rate_limit_keys k' v' ty' → ty = ty' ∧ tag k v = tag k' v'.
Proof.
  unfold create_rate_limit_keys. intros Ht Ht' E.
  assert (ty = ty') as <-.
  { apply dec_stable. intros Hne.
    assert (endswith (tag k v +:+ ":" +:+ ty) (":" +:+ ty) = true) as He by apply endswith_app.
    assert (endswith (tag k v +:+ ":" +:+ ty) (":" +:+ ty') = true) as He' by (rewrite E; apply endswith_app).
    erewrite endswith_excl in He'; [done|exact He|..];
      set_unfold in Ht; set_unfold in Ht'; naive_solver. }
  split; [done|]. by apply str_app_inj_r in E.
Qed.

Lemma paired_window w w' c : paired w c → paired w' c → w = w'.
Proof.
  intros (k & v & ty & -> & -> & Ht) (k' & v' & ty' & -> & E & Ht').
  apply counter_tag in E as [_ ->]; [done|set_solver..].
Qed.

Lemma paired_ne w c w' c' : paired w c → paired w' c' → w ≠ c'.
Proof.
  intros (k & v & ty & -> & -> & Ht) (k' & v' & ty' & -> & -> & Ht') E.
  destruct (counter_tag k v "window" k' v' ty') as [<- _]; [set_solver..|done|]. set_unfold in Ht'. naive_solver.
Qed.

(** *** Responses *)

Lemma judge_status meta w c n :
  is_Some (dget w meta) →
  judge w c (match n with Some z => PInt z | None => PNone end) meta = Ok (status meta (w, c) n).
Proof.
  intros [m Hm]. unfold judge, status. cbn. rewrite Hm. cbn. destruct (limit_for c m) as [[ty limit]|]; [|done].
  by destruct n.
Qed.

(** The values of windows are not looked at. *)
Fixpoint interleave (ws : list pyval) (l : list ((string * string) * option Z)) : list pyval :=
  match ws, l with
  | wv :: ws', (_, n) :: l' => wv :: match n with Some z => PInt z | None => PNone end :: interleave ws' l'
  | _, _ => []
  end.

Lemma over_limit_respond meta l ws :
  length ws = length l → Forall (λ x, is_Some (dget x.1.1 meta)) l →
  is_cache_list_over_limit (flatten l.*1) (interleave ws l) meta = Ok (respond meta l).
Proof.
  intros Hlen Hm. revert ws Hlen. induction Hm as [|[[w c] n] l Hx Hm IH]; intros [|wv ws] Hlen; try done.
  cbn [flatten fmap list_fmap fst interleave is_cache_list_over_limit].
  rewrite judge_status by done. injection Hlen as Hlen. unfold mbind, res_bind. rewrite (IH ws Hlen).
  unfold respond. cbn [omap list_omap fst snd]. by destruct (status meta (w, c) n).
Qed.

Lemma bump_pairs ps tbl : (bump ps tbl).1.*1 = ps.
Proof.
  revert tbl. induction ps as [|p ps IH]; intros tbl; [done|]. cbn. specialize (IH (<[p.2:=count tbl p.2 + 1]> tbl)).
  destruct (bump ps _). cbn in *. by rewrite IH.
Qed.

Lemma collect_meta w ds keys meta keys' meta' :
  collect w ds keys meta = Ok (keys', meta') →
  (∀ k, is_Some (dget k meta) → is_Some (dget k meta')) ∧ Forall (λ p, is_Some (dget p.1 meta')) (request_pairs ds).
Proof.
  revert keys meta. induction ds as [|d ds IH]; intros keys meta; cbn [collect].
  { intros [= _ <-]. split; [done|by constructor]. }
  unfold request_pairs in *. rewrite fmap_cons, join_cons, descriptor_keys_flatten.
  destruct (descriptor_pairs d) as [|p ps] eqn:Ed; [cbn; by intros ?%IH|].
  destruct (flatten (p :: ps)) as [|k ks] eqn:Ef; [by destruct p|].
  unfold mbind, res_bind. destruct (descriptor_metadata w d) as [m|]; [|done]. intros [Hmono Hall]%IH. split.
  - intros k' [m' Hk]. apply Hmono. rewrite dget_dset. destruct (String.eqb _ _); by eexists.
  - apply Forall_app. split; [|done]. rewrite <-Ed. apply Forall_forall.
    intros p' (x & -> & _)%list_elem_of_fmap. apply Hmono. cbn. rewrite dget_dset_eq. by eexists.
Qed.

Lemma collect_limits w ds keys meta :
  collect w ds [] [] = Ok (keys, meta) →
  keys = flatten (request_pairs ds) ∧ Forall (λ p, is_Some (dget p.1 meta)) (request_pairs ds).
Proof. intros E. split; [exact (collect_keys _ _ _ _ _ _ E)|exact (proj2 (collect_meta _ _ _ _ _ _ E))]. Qed.

(** *** Counting *)

Definition occurrences (x : string) (ps : list (string * string)) : Z :=
  Z.of_nat (length (filter (λ p : string * string, p.2 = x) ps)).

Lemma occurrences_cons x p ps : occurrences x (p :: ps) = occurrences x ps + (if decide (p.2 = x) then 1 else 0).
Proof. unfold occurrences. rewrite filter_cons. case_decide; cbn [length]; lia. Qed.

Lemma bump_count x ps tbl : count (bump ps tbl).2 x = count tbl x + occurrences x ps.
Proof.
  revert tbl. induction ps as [|p ps IH]; intros tbl; [unfold occurrences; cbn; lia|].
  cbn [bump]. specialize (IH (<[p.2 := count tbl p.2 + 1]> tbl)). destruct (bump ps _) as [l tbl']. cbn in *.
  rewrite IH, occurrences_cons. unfold count. case_decide as Hx.
  - rewrite Hx, lookup_insert_eq. cbn. lia.
  - rewrite lookup_insert_ne by done. lia.
Qed.

(** The last value a counter takes is its value afterwards. *)
Lemma bump_last x ps tbl :
  0 < occurrences x ps → ∃ p, p.2 = x ∧ p ∈ ps ∧ (p, Some (count (bump ps tbl).2 x)) ∈ (bump ps tbl).1.
Proof.
  revert tbl. induction ps as [|q ps IH]; intros tbl Hp; [done|].
  rewrite occurrences_cons in Hp. pose proof (bump_count x ps (<[q.2 := count tbl q.2 + 1]> tbl)) as Hc. cbn [bump].
  specialize (IH (<[q.2 := count tbl q.2 + 1]> tbl)). destruct (bump ps _) as [l tbl']. cbn [fst snd] in *.
  destruct (decide (0 < occurrences x ps)) as [Hpos|Hz].
  - destruct (IH Hpos) as (p & E & Hin & Hl). exists p. split_and!; [done|by right..].
  - case_decide as Hx; [|lia]. assert (occurrences x ps = 0) as Hz' by (unfold occurrences in *; lia).
    exists q. split_and!; [done|by left|]. 
    assert (count (<[q.2 := count tbl q.2 + 1]> tbl) x = count tbl q.2 + 1) as E by (unfold count at 1; by rewrite <-Hx, lookup_insert_eq).
    rewrite Hc, Hz', E, Z.add_0_r. by left.
Qed.

(** Counters of which none is over its limit are within it. *)
Lemma bumped_within x n ps meta tbl :
  (∀ p, p ∈ ps → p.2 = x → ∃ m ty, dget p.1 meta = Some m ∧ limit_for x m = Some (ty, n)) →
  0 < occurrences x ps → overall_over (respond meta (bump ps tbl).1) = false → count (bump ps tbl).2 x ≤ n.
Proof.
  intros Hlim Hx Hr. pose proof (bump_last x ps tbl Hx) as (p & Ep & Hin & Hl). destruct (bump ps tbl) as [l t].
  cbn in Hl, Hr |- *. destruct (Hlim p Hin Ep) as (m & ty & Hm & Hlf). apply not_true_iff_false in Hr.
  apply Z.le_ngt. intros Hlt. apply Hr. apply existsb_exists.
  exists (mkStatus (n <? count t x) n (n - count t x) ty (descriptor_key m)). split; [|cbn; lia].
  apply list_elem_of_In, list_elem_of_omap. eexists. split; [exact Hl|]. cbn. unfold status. by rewrite Hm, Ep; cbn; rewrite Hlf.
Qed.

(** An admitted request leaves each of its counters within its limit. *)
Lemma admitted_within x n ps meta tbl r tbl' :
  (∀ p, p ∈ ps → p.2 = x → ∃ m ty, dget p.1 meta = Some m ∧ limit_for x m = Some (ty, n)) →
  check ps meta tbl = (r, tbl') → 0 < occurrences x ps → overall_over r = false → count tbl' x ≤ n.
Proof.
  intros Hlim. unfold check. destruct (overall_over _) eqn:Eo; [intros [= <- <-]; congruence|].
  pose proof (bumped_within x n ps meta tbl Hlim) as Hb. destruct (bump ps tbl) as [l t]. intros [= <- <-] Hx Hr. by apply Hb.
Qed.

Lemma check_mono x ps meta tbl r tbl' :
  check ps meta tbl = (r, tbl') → count tbl x ≤ count tbl' x ∧ (overall_over r = false → count tbl' x = count tbl x + occurrences x ps).
Proof.
  unfold check. destruct (overall_over _) eqn:Eo; [intros [= <- <-]; split; [lia|congruence]|].
  pose proof (bump_count x ps tbl) as Hc. destruct (bump ps tbl) as [l t]. intros [= <- <-]. cbn in Hc.
  split; [unfold occurrences in Hc; lia|done].
Qed.
End Abstract.

(** [json.loads] of the digits of a number. *)
Class JsonInts `{PyRuntime} := loads_int n : 0 ≤ n → json_loads (str_of_Z n) = Some (PInt n).

(** ** The limiter in memory *)

Module Local.
Import RateLimiter Abstract.

Section facts.
Context `{PyRuntime} {R : Type} `{RedisCacheI R} `{RateScripts R}.
Context (window_size lo dl : Z) (k : Z * Z * Z) (U : gset string).
Implicit Types c : DualCache.t R.
#[local] Abbreviation im := DualCache.in_memory_cache.

(** A span within one window, and a cache that takes the counters of [U]. *)
Record span : Prop := {
  sp_lo : 0 ≤ lo;
  sp_short : now_int dl - now_int lo < window_size;
  sp_room : Z.of_nat (size U) < k.1.1;
  sp_int im z : InMemoryCache.cfg im = k → InMemoryCache.check_value_size im (PInt z) = true;
  sp_str im s : InMemoryCache.cfg im = k → InMemoryCache.check_value_size im (PStr (str_of_Z s)) = true
}.

(** A cache without Redis that holds [g], all of it until after the span. *)
Record calm (g : gmap string pyval) c : Prop := {
  calm_redis : DualCache.redis_cache c = None;
  calm_inv : InMemoryCache.inv k (im c);
  calm_dict : InMemoryCache.cache_dict (im c) = g;
  calm_dom : dom g ⊆ U;
  calm_live x e : InMemoryCache.ttl_dict (im c) !! x = Some e → dl ≤ e
}.

Definition read (g : gmap string pyval) (x : string) : pyval :=
  match g !! x with Some v => InMemoryCache.loads_or_self v | None => PNone end.

Lemma set_im_same c : DualCache.set_im (im c) c = c.
Proof. by destruct c. Qed.

Lemma calm_get now x g c : now ≤ dl → calm g c → InMemoryCache.get_cache now x (im c) = (Ok (read g x), im c).
Proof.
  intros Hnow [_ _ <- _ Hl]. unfold read, InMemoryCache.get_cache.
  destruct (InMemoryCache.cache_dict (im c) !! x) as [v|] eqn:E; [|done].
  unfold InMemoryCache.evict_element_if_expired, InMemoryCache._is_key_expired.
  destruct (InMemoryCache.ttl_dict (im c) !! x) as [e|] eqn:Et.
  - specialize (Hl x e Et). destruct (Z.ltb_spec e now); [lia|]. by rewrite E.
  - by rewrite E.
Qed.

Lemma calm_read now x g c : now ≤ dl → calm g c → DualCache.async_get_cache now x true None c = (Ok (read g x), c).
Proof.
  intros Hnow Hc. unfold DualCache.async_get_cache, DualCache.read_through, m_try, mbind, M_bind, m_get.
  rewrite (DualCache.on_im_run _ _ _ _ (calm_get now x g c Hnow Hc)), set_im_same.
  destruct (read g x); cbn; try done. by rewrite (calm_redis _ _ Hc).
Qed.

Lemma calm_batch now xs local g c :
  now ≤ dl → calm g c → DualCache.async_batch_get_cache now xs local None c = (Ok (Some (read g <$> xs)), c).
Proof.
  intros Hnow Hc. assert (InMemoryCache.async_batch_get_cache now xs (im c) = (Ok (read g <$> xs), im c)) as E.
  { unfold InMemoryCache.async_batch_get_cache. induction xs as [|x xs IH]; [done|]. cbn [m_map].
    rewrite (m_bind_run _ _ _ _ _ (calm_get now x g c Hnow Hc)). by rewrite (m_bind_run _ _ _ _ _ IH). }
  unfold DualCache.async_batch_get_cache, DualCache.batch_body, m_try, mbind, M_bind, m_get.
  rewrite (DualCache.on_im_run _ _ _ _ E), set_im_same. by rewrite (calm_redis _ _ Hc).
Qed.

Lemma span_ttl now : span → lo ≤ now → dl ≤ now + seconds window_size.
Proof. intros [? Hs _ _ _] ?. unfold now_int, seconds in *. Z.to_euclidean_division_equations. lia. Qed.

(** A write that lasts until after the span. *)
Lemma calm_store now x v ttl g c :
  Z.of_nat (size U) < k.1.1 → x ∈ U → InMemoryCache.check_value_size (im c) v = true → dl ≤ InMemoryCache.expiry now ttl (im c) → calm g c →
  ∃ m, InMemoryCache.set_cache now x v ttl (im c) = (Ok (), m) ∧ calm (<[x := v]> g) (DualCache.set_im m c).
Proof.
  intros Hroom Hx Hv Hexp [Hr [Hw Hk] Hd Hdom Hl].
  assert (InMemoryCache.max_size_in_memory (im c) = k.1.1) as Hmax by (by rewrite <-Hk).
  assert (Z.of_nat (size (InMemoryCache.cache_dict (im c))) < InMemoryCache.max_size_in_memory (im c)) as Hsz.
  { rewrite Hmax, Hd, <-size_dom. pose proof (subseteq_size _ _ Hdom). lia. }
  destruct (InMemoryCache.set_cache_entry now x v ttl (im c) Hw) as (Hv' & e & He & Hor); [lia|auto|].
  pose proof (InMemoryCache.set_cache_ok now x v ttl (im c) Hw) as Hok.
  pose proof (InMemoryCache.set_cache_preserves k now x v ttl (im c) (conj Hw Hk)) as Hinv.
  pose proof (λ y, InMemoryCache.set_cache_frame now x v ttl (im c) y Hsz) as Hfr.
  destruct (InMemoryCache.set_cache now x v ttl (im c)) as [r m] eqn:E. cbn in Hok, Hinv, Hfr, Hv', He. subst r.
  exists m. split; [done|].
  assert (InMemoryCache.cache_dict m = <[x := v]> g) as Em.
  { apply map_eq. intros y. destruct (decide (y = x)) as [->|Hne]; [by rewrite lookup_insert_eq|].
    rewrite lookup_insert_ne by done. by rewrite (proj1 (Hfr y Hne)), Hd. }
  split; cbn; [done|done|done|set_solver|]. intros y e' Hy. destruct (decide (y = x)) as [->|Hne].
  - rewrite He in Hy. injection Hy as <-. destruct Hor as [->|[Ht _]]; [done|by eapply Hl].
  - rewrite (proj2 (Hfr y Hne)) in Hy. by eapply Hl.
Qed.

Lemma calm_write now x v g c :
  span → lo ≤ now → now ≤ dl → x ∈ U → (∀ im, InMemoryCache.cfg im = k → InMemoryCache.check_value_size im v = true) →
  calm g c → ∃ c', DualCache.async_set_cache now x v true (ttl window_size) c = (Ok (), c') ∧ calm (<[x := v]> g) c'.
Proof.
  intros Hs Hlo Hnow Hx Hv Hc.
  destruct (calm_store now x v (ttl window_size) g c (sp_room Hs) Hx (Hv _ (proj2 (calm_inv _ _ Hc)))) as (m & E & Hm);
    [exact (span_ttl now Hs Hlo)|done|].
  exists (DualCache.set_im m c). split; [|done].
  unfold DualCache.async_set_cache, InMemoryCache.async_set_cache, DualCache.with_default_ttl, m_try, mbind, M_bind, m_get.
  unfold ttl in *. rewrite (DualCache.on_im_run _ _ _ _ E). unfold DualCache.on_redis. cbn. by rewrite (calm_redis _ _ Hc).
Qed.

(** The cache holds the counters of the table; a window that is not open has none. *)
Record tracks (tbl : gmap string Z) (g : gmap string pyval) : Prop := {
  tr_count w x : paired w x → g !! x = PInt <$> tbl !! x;
  tr_closed w x : paired w x → g !! w = None → g !! x = None;
  tr_open w x v : paired w x → g !! w = Some v → ∃ s, v = PStr (str_of_Z s) ∧ now_int lo ≤ s ≤ now_int dl
}.

Lemma read_count (tbl : gmap string Z) (g : gmap string pyval) x :
  g !! x = PInt <$> tbl !! x → read g x = match tbl !! x with Some n => PInt n | None => PNone end.
Proof. intros Hx. unfold read. rewrite Hx. by destruct (tbl !! x). Qed.

Lemma read_counter tbl g w x : paired w x → tracks tbl g → read g x = match tbl !! x with Some n => PInt n | None => PNone end.
Proof. intros Hp Ht. exact (read_count _ _ _ (tr_count _ _ Ht w x Hp)). Qed.

Lemma tracks_count tbl g w x n :
  paired w x → is_Some (g !! w) → tracks tbl g → tracks (<[x := n]> tbl) (<[x := PInt n]> g).
Proof.
  intros Hp Hw [Hc Hn Ho]. split.
  - intros w' y Hp'. destruct (decide (x = y)) as [->|Hne]; [by rewrite !lookup_insert_eq|].
    rewrite !lookup_insert_ne by done. by eapply Hc.
  - intros w' y Hp' Hg. rewrite lookup_insert_ne in Hg by (apply not_eq_sym; by eapply paired_ne).
    destruct (decide (x = y)) as [->|Hne]; [|rewrite lookup_insert_ne by done; by eapply Hn].
    rewrite (paired_window _ _ _ Hp' Hp) in Hg. destruct Hw. congruence.
  - intros w' y v Hp' Hg. rewrite lookup_insert_ne in Hg by (apply not_eq_sym; by eapply paired_ne). by eapply Ho.
Qed.

Lemma tracks_open tbl g w x s :
  paired w x → now_int lo ≤ s ≤ now_int dl → tracks tbl g → tracks tbl (<[w := PStr (str_of_Z s)]> g).
Proof.
  intros Hp Hs [Hc Hn Ho]. split.
  - intros w' y Hp'. rewrite lookup_insert_ne by (by eapply paired_ne). by eapply Hc.
  - intros w' y Hp' Hg. rewrite lookup_insert_ne by (by eapply paired_ne).
    destruct (decide (w = w')) as [->|Hne]; [by rewrite lookup_insert_eq in Hg|].
    rewrite lookup_insert_ne in Hg by done. by eapply Hn.
  - intros w' y v Hp' Hg. destruct (decide (w = w')) as [->|Hne].
    + rewrite lookup_insert_eq in Hg. injection Hg as <-. by eexists.
    + rewrite lookup_insert_ne in Hg by done. by eapply Ho.
Qed.

Context {HJ : JsonInts}.

(** One window and counter: the counter counts, whether or not the window was open. *)
Lemma slide_counts now w x tbl g c :
  span → lo ≤ now → now ≤ dl → paired w x → w ∈ U → x ∈ U → calm g c → tracks tbl g →
  ∃ g' c' wv, slide window_size now (now_int now) w x c = (Ok [wv; PInt (count tbl x + 1)], c') ∧
    calm g' c' ∧ tracks (<[x := count tbl x + 1]> tbl) g'.
Proof.
  intros Hs Hlo Hnow Hp Hw Hx Hc Ht. unfold slide. rewrite (m_bind_run _ _ _ _ _ (calm_read now w g c Hnow Hc)).
  assert (now_int lo ≤ now_int now ≤ now_int dl) as Hn by (unfold now_int; split; apply Z.div_le_mono; lia).
  destruct (g !! w) as [v|] eqn:Eg.
  - destruct (tr_open _ _ Ht w x v Hp Eg) as (s & -> & Hr).
    assert (0 ≤ s) as Hs0 by (pose proof (sp_lo Hs); assert (0 ≤ now_int lo) by (unfold now_int; apply Z.div_pos; lia); lia).
    assert (read g w = PInt s) as -> by (unfold read; rewrite Eg; cbn; by rewrite (loads_int s Hs0)).
    rewrite (m_bind_run _ _ _ false c) by (cbn; pose proof (sp_short Hs); unfold m_lift; do 2 f_equal; lia).
    rewrite (m_bind_run _ _ _ _ _ (calm_read now x g c Hnow Hc)), (read_counter tbl g w x Hp Ht).
    rewrite (m_bind_run _ _ _ (count tbl x) c) by (unfold count; by destruct (tbl !! x)).
    destruct (calm_write now x (PInt (count tbl x + 1)) g c) as (c' & E & Hc'); [done..|intros; by apply (sp_int Hs)|done|].
    rewrite (m_bind_run _ _ _ _ _ E). eexists _, c', _. split; [done|]. split; [done|]. eapply tracks_count; [done|by eexists|done].
  - assert (read g w = PNone) as -> by (unfold read; by rewrite Eg).
    rewrite (m_bind_run _ _ _ true c) by done.
    assert (count tbl x = 0) as ->.
    { pose proof (tr_closed _ _ Ht w x Hp Eg) as Hg. rewrite (tr_count _ _ Ht w x Hp) in Hg. unfold count. by destruct (tbl !! x). }
    destruct (calm_write now w (PStr (str_of_Z (now_int now))) g c) as (c1 & E1 & Hc1); [done..|intros; by apply (sp_str Hs)|done|].
    rewrite (m_bind_run _ _ _ _ _ E1).
    destruct (calm_write now x (PInt 1) (<[w := PStr (str_of_Z (now_int now))]> g) c1) as (c2 & E2 & Hc2);
      [done..|intros; by apply (sp_int Hs)|done|].
    rewrite (m_bind_run _ _ _ _ _ E2). eexists _, c2, _. split; [done|]. split; [done|].
    eapply tracks_count; [done|rewrite lookup_insert_eq; by eexists|by eapply tracks_open].
Qed.

Lemma window_bumps now ps tbl g c :
  span → lo ≤ now → now ≤ dl → Forall (λ p, paired p.1 p.2) ps → Forall (λ p, p.1 ∈ U ∧ p.2 ∈ U) ps → calm g c → tracks tbl g →
  ∃ g' c' ws, in_memory_cache_sliding_window window_size now (now_int now) (flatten ps) c = (Ok (interleave ws (bump ps tbl).1), c') ∧
    length ws = length ps ∧ calm g' c' ∧ tracks (bump ps tbl).2 g'.
Proof.
  intros Hs Hlo Hnow. revert tbl g c. induction ps as [|[w x] ps IH]; intros tbl g c Hp Hu Hc Ht.
  { by exists g, c, []. }
  apply Forall_cons in Hp as [Hp Hps], Hu as [[Hw Hx] Hu]. cbn [flatten in_memory_cache_sliding_window bump fst snd] in *.
  destruct (slide_counts now w x tbl g c) as (g1 & c1 & wv & E1 & Hc1 & Ht1); [done..|].
  destruct (IH _ g1 c1 Hps Hu Hc1 Ht1) as (g2 & c2 & ws & E2 & Hlen & Hc2 & Ht2).
  rewrite (m_bind_run _ _ _ _ _ E1), (m_bind_run _ _ _ _ _ E2).
  destruct (bump ps _) as [l tbl'] eqn:Eb. exists g2, c2, (wv :: ws). split_and!; [done|cbn; lia|done|done].
Qed.

Lemma local_values (tbl : gmap string Z) (g : gmap string pyval) ps :
  Forall (λ p : string * string, g !! p.2 = PInt <$> tbl !! p.2) ps →
  read g <$> flatten ps = interleave ((λ p : string * string, read g p.1) <$> ps) ((λ p, (p, tbl !! p.2)) <$> ps).
Proof.
  intros Hp. induction Hp as [|[w x] ps Hp _ IH]; [done|]. cbn in *. rewrite IH. by rewrite (read_count tbl g x Hp).
Qed.

(** What a request is told before it counts. *)
Lemma local_respond (tbl : gmap string Z) (g : gmap string pyval) meta ps :
  Forall (λ p : string * string, g !! p.2 = PInt <$> tbl !! p.2) ps → Forall (λ p : string * string, is_Some (dget p.1 meta)) ps →
  is_cache_list_over_limit (flatten ps) (read g <$> flatten ps) meta = Ok (respond meta ((λ p, (p, tbl !! p.2)) <$> ps)).
Proof.
  intros Hg Hm. rewrite (local_values tbl g ps Hg). set (before := (λ p, (p, tbl !! p.2)) <$> ps).
  replace ps with before.*1 at 1 by (unfold before; rewrite <-list_fmap_compose; by apply list_fmap_id).
  apply over_limit_respond; [unfold before; by rewrite !length_fmap|]. unfold before. by apply Forall_fmap.
Qed.

(** One request. *)
Lemma check_refines now ds keys meta tbl g c :
  span → lo ≤ now → now ≤ dl → collect window_size ds [] [] = Ok (keys, meta) →
  Forall (λ p, p.1 ∈ U ∧ p.2 ∈ U) (request_pairs ds) → calm g c → tracks tbl g →
  ∃ g' c', should_rate_limit window_size now ds false c = (Ok (check (request_pairs ds) meta tbl).1, c') ∧
    calm g' c' ∧ tracks (check (request_pairs ds) meta tbl).2 g'.
Proof.
  intros Hs Hlo Hnow Ecol Hu Hc Ht. pose proof (request_paired ds) as Hp. set (ps := request_pairs ds) in *.
  destruct (collect_limits _ _ _ _ Ecol) as [-> Hm]. fold ps in Hm, Ecol.
  unfold should_rate_limit. rewrite (m_bind_run _ _ _ (flatten ps, meta) c) by (unfold m_lift; by rewrite Ecol).
  rewrite (m_bind_run _ _ _ _ _ (calm_batch now (flatten ps) true g c Hnow Hc)).
  assert (Forall (λ p : string * string, g !! p.2 = PInt <$> tbl !! p.2) ps) as Hg
    by (eapply Forall_impl; [exact Hp|]; intros p Hpp; exact (tr_count _ _ Ht p.1 p.2 Hpp)).
  pose proof (local_respond tbl g meta ps Hg Hm) as E. set (before := (λ p, (p, tbl !! p.2)) <$> ps) in *.
  rewrite (m_bind_run _ _ _ (respond meta before) c) by (unfold m_lift; by rewrite E).
  unfold check. fold before. destruct (overall_over (respond meta before)); [by exists g, c|].
  rewrite (m_bind_run _ _ _ c c) by done. rewrite (calm_redis _ _ Hc).
  destruct (window_bumps now ps tbl g c) as (g' & c' & ws & Ew & Hlen & Hc' & Ht'); [done..|].
  rewrite (m_bind_run _ _ _ _ _ Ew). pose proof (bump_pairs ps tbl) as Eb. destruct (bump ps tbl) as [l tbl']. cbn in *.
  exists g', c'. split; [|done]. unfold m_lift. f_equal. rewrite <-Eb. apply over_limit_respond.
  - rewrite Hlen, <-Eb. by rewrite length_fmap.
  - by rewrite <-Eb, Forall_fmap in Hm.
Qed.

(** Requests one after another, each with its time and its descriptors. *)
Definition serve (reqs : list (Z * list RateLimitDescriptor)) : M (DualCache.t R) (list RateLimitResponse) :=
  m_map (λ q, should_rate_limit window_size q.1 q.2 false) reqs.

Definition meta_of (ds : list RateLimitDescriptor) : list (string * metadata) :=
  match collect window_size ds [] [] with Ok (_, meta) => meta | Raise _ => [] end.

Fixpoint run (reqs : list (Z * list RateLimitDescriptor)) (tbl : gmap string Z) : list RateLimitResponse :=
  match reqs with
  | [] => []
  | (_, ds) :: rest => let '(r, tbl') := check (request_pairs ds) (meta_of ds) tbl in r :: run rest tbl'
  end.

(** A request of the span whose limits are numbers and whose counters have room. *)
Definition fits (q : Z * list RateLimitDescriptor) : Prop :=
  lo ≤ q.1 ≤ dl ∧ is_ok (collect window_size q.2 [] []) = true ∧ Forall (λ p, p.1 ∈ U ∧ p.2 ∈ U) (request_pairs q.2).

Lemma serve_run reqs tbl g c :
  span → Forall fits reqs → calm g c → tracks tbl g → (serve reqs c).1 = Ok (run reqs tbl).
Proof.
  intros Hs Hf. unfold serve. revert tbl g c. induction Hf as [|[now ds] reqs ([Hlo Hnow] & Hok & Hu) _ IH]; intros tbl g c Hc Ht; [done|].
  cbn [fst snd m_map run] in *. unfold meta_of. destruct (collect window_size ds [] []) as [[keys meta]|] eqn:Ecol; [|done].
  destruct (check_refines now ds keys meta tbl g c) as (g' & c' & E & Hc' & Ht'); [done..|].
  rewrite (m_bind_run _ _ _ _ _ E). destruct (check _ _ tbl) as [r tbl']. cbn in *. specialize (IH _ _ _ Hc' Ht').
  destruct (m_map _ reqs c') as [rs c''] eqn:Em. cbn in IH. subst rs. by rewrite (m_bind_run _ _ _ _ _ Em).
Qed.

(** The cache before the first request of the span. *)
Definition idle c : Prop := calm ∅ c.

Lemma tracks_empty : tracks ∅ ∅.
Proof. by split. Qed.

(** C16: Without Redis, starting from a cache in which no counter is live, and when the
    limits are numbers and the cache has room for all the counters of the requests (no
    counter is ever evicted): the limiter answers the requests of a span within one
    window exactly as the table of counters does, response by response: verdicts, limits
    and what remains of them. *)
Theorem local_limiter_refines reqs c
    (Hs : span) (Hf : Forall fits reqs) (Hc : idle c) :
  (serve reqs c).1 = Ok (run reqs ∅).
Proof. by eapply serve_run; [..|apply tracks_empty]. Qed.

(** *** Limits *)

(** A counter of a request, and its limit there. *)
Definition uses (x : string) (q : Z * list RateLimitDescriptor) : bool := 0 <? occurrences x (request_pairs q.2).
Definition limited (x : string) (n : Z) (q : Z * list RateLimitDescriptor) : Prop :=
  ∀ p, p ∈ request_pairs q.2 → p.2 = x → ∃ m ty, dget p.1 (meta_of q.2) = Some m ∧ limit_for x m = Some (ty, n).

(** How many of the requests that count in [x] were admitted. *)
Definition admitted (x : string) (reqs : list (Z * list RateLimitDescriptor)) (rs : list RateLimitResponse) : Z :=
  Z.of_nat (length (filter (λ qr : _ * RateLimitResponse, uses x qr.1 && negb (overall_over qr.2) = true) (zip reqs rs))).

Lemma run_within x n reqs tbl : Forall (limited x n) reqs → admitted x reqs (run reqs tbl) ≤ Z.max 0 (n - count tbl x).
Proof.
  intros Hl. revert tbl. induction Hl as [|[now ds] reqs Hq _ IH]; intros tbl; [unfold admitted; cbn; lia|].
  cbn [run]. destruct (check _ _ tbl) as [r tbl'] eqn:E. specialize (IH tbl'). unfold admitted in *.
  destruct (check_mono x _ _ _ _ _ E) as [Hle Hadd]. cbn [zip zip_with]. rewrite filter_cons. cbn [fst snd].
  destruct (uses x (now, ds)) eqn:Eu; [|rewrite decide_False by done; lia].
  destruct (overall_over r) eqn:Er; [rewrite decide_False by done; lia|]. rewrite decide_True by done. cbn [length].
  unfold uses in Eu. unfold limited in Hq. cbn [snd] in Eu, Hq. specialize (Hadd eq_refl).
  assert (count tbl' x ≤ n) by (eapply admitted_within; [exact Hq|exact E|lia|exact Er]). lia.
Qed.

(** Whatever other limits its requests have, a counter with limit [n] admits at
    most [n] requests within a window. *)
Theorem local_limit_respected x n reqs c
    (Hs : span) (Hf : Forall fits reqs) (Hc : idle c) (Hl : Forall (limited x n) reqs) :
  ∃ rs, (serve reqs c).1 = Ok rs ∧ admitted x reqs rs ≤ Z.max 0 n.
Proof.
  exists (run reqs ∅). split; [by eapply serve_run; [..|apply tracks_empty]|].
  pose proof (run_within x n reqs ∅ Hl) as Hr. unfold count in Hr. rewrite lookup_empty in Hr. cbn in Hr. lia.
Qed.

(** A descriptor that only limits requests. *)
Definition rpm_only (dk dv : string) (n : Z) : RateLimitDescriptor :=
  mkDescriptor dk dv (Some (mkLimit (PInt n) PNone PNone (PInt window_size))).

(** The table after [i] requests: the counter stops one past the limit. *)
Definition rpm_count (n : Z) (i : nat) : option Z := if decide (i = 0%nat) then None else Some (Z.min (Z.of_nat i) (n + 1)).

(** The answer to request number [i]. *)
Definition rpm_response (dk : string) (n : Z) (i : nat) : RateLimitResponse :=
  mkResponse (n <=? Z.of_nat i) [mkStatus (n <=? Z.of_nat i) n (n - Z.min (Z.of_nat i + 1) (n + 1)) "requests" dk].

Lemma rpm_only_meta dk dv n :
  ∃ m, meta_of [rpm_only dk dv n] = [(tag dk dv +:+ ":window", m)] ∧ descriptor_key m = dk ∧
    limit_for (create_rate_limit_keys dk dv "requests") m = Some ("requests", n).
Proof.
  assert (∃ w, py_int (py_or (PInt window_size) (PInt window_size)) = Ok w) as [w Ew] by (unfold py_or; destruct (truthy _); by eexists).
  exists (mkMetadata (Some n) None None w dk). split_and!; [|done|].
  - unfold meta_of. cbn [collect]. unfold descriptor_metadata. cbn -[py_or]. by rewrite Ew.
  - unfold limit_for. by rewrite (endswith_app _ ":requests" : endswith (create_rate_limit_keys dk dv "requests") ":requests" = true).
Qed.

Lemma rpm_only_pairs dk dv n :
  request_pairs [rpm_only dk dv n] = [(tag dk dv +:+ ":window", create_rate_limit_keys dk dv "requests")].
Proof. done. Qed.

Lemma rpm_only_run dk dv n times i tbl :
  0 ≤ n → tbl !! create_rate_limit_keys dk dv "requests" = rpm_count n i →
  run ((λ now, (now, [rpm_only dk dv n])) <$> times) tbl = imap (λ j _, rpm_response dk n (i + j)) times.
Proof.
  intros Hn. set (x := create_rate_limit_keys dk dv "requests"). revert i tbl.
  destruct (rpm_only_meta dk dv n) as (m & Em & Ed & El). fold x in El.
  induction times as [|now times IH]; intros i tbl Hx; [done|].
  assert (∀ o, respond (meta_of [rpm_only dk dv n]) [((tag dk dv +:+ ":window", x), o)] =
    let z := default 0 o in mkResponse (n <? z) [mkStatus (n <? z) n (n - z) "requests" dk]) as Er.
  { intros o. unfold respond, status. cbn -[x]. rewrite Em. cbn -[x]. rewrite String.eqb_refl. cbn -[x]. rewrite El. cbn. rewrite Ed.
    destruct o as [z|]; cbn; [by destruct (n <? z)|]. destruct (Z.ltb_spec n 0); [lia|]. do 3 f_equal. lia. }
  cbn [fmap list_fmap run imap]. unfold check. rewrite rpm_only_pairs. fold x. cbn [fmap list_fmap bump snd]. rewrite Er, Hx.
  assert (count tbl x = Z.min (Z.of_nat i) (n + 1)) as Ec.
  { unfold count. rewrite Hx. unfold rpm_count. case_decide; cbn; lia. }
  replace (default 0 (rpm_count n i)) with (count tbl x) by (unfold count; by rewrite Hx). rewrite Ec.
  cbn [overall_over]. rewrite Nat.add_0_r. unfold rpm_response at 1.
  destruct (Z.ltb_spec n (Z.min (Z.of_nat i) (n + 1))) as [Hlt|Hge].
  - destruct (Z.leb_spec n (Z.of_nat i)); [|lia]. f_equal; [do 3 f_equal; lia|].
    rewrite (IH (S i)); [apply imap_ext; intros; cbn; by rewrite Nat.add_succ_r|].
    rewrite Hx. unfold rpm_count. repeat case_decide; try done; try lia; f_equal; lia.
  - rewrite Er. cbn [default id]. f_equal.
    + replace (n <? Z.min (Z.of_nat i) (n + 1) + 1) with (n <=? Z.of_nat i) by lia. do 3 f_equal. cbn. lia.
    + rewrite (IH (S i)); [apply imap_ext; intros; cbn; by rewrite Nat.add_succ_r|].
      rewrite lookup_insert_eq. unfold rpm_count. rewrite decide_False by done. f_equal. lia.
Qed.

Lemma rpm_only_fits dk dv n now :
  lo ≤ now ≤ dl → tag dk dv +:+ ":window" ∈ U → create_rate_limit_keys dk dv "requests" ∈ U → fits (now, [rpm_only dk dv n]).
Proof.
  intros Hnow Hw Hx. split_and!; cbn [fst snd]; [by apply Hnow|by apply Hnow| |rewrite rpm_only_pairs; by apply Forall_singleton].
  destruct (rpm_only_meta dk dv n) as (m & Em & _). unfold meta_of in Em. by destruct (collect _ _ _ _).
Qed.

Lemma rpm_only_serve dk dv n times c :
  span → 0 ≤ n → idle c → Forall (λ now, lo ≤ now ≤ dl) times →
  tag dk dv +:+ ":window" ∈ U → create_rate_limit_keys dk dv "requests" ∈ U →
  (serve ((λ now, (now, [rpm_only dk dv n])) <$> times) c).1 = Ok (imap (λ i _, rpm_response dk n i) times).
Proof.
  intros Hs Hn Hc Ht Hw Hx. rewrite (serve_run _ ∅ ∅ c Hs); [|apply Forall_fmap; eapply Forall_impl; [exact Ht|]|done|apply tracks_empty].
  - by rewrite (rpm_only_run dk dv n times 0).
  - intros now Hnow. by apply rpm_only_fits.
Qed.

(** A limit of [n] requests admits exactly the first [n] of a window, and tells
    each how many remain. *)
Theorem local_limiter_exact dk dv n times c
    (Hs : span) (Hn : 0 ≤ n) (Hc : idle c) (Ht : Forall (λ now, lo ≤ now ≤ dl) times)
    (Hw : tag dk dv +:+ ":window" ∈ U) (Hx : create_rate_limit_keys dk dv "requests" ∈ U) :
  (serve ((λ now, (now, [rpm_only dk dv n])) <$> times) c).1 = Ok (imap (λ i _, rpm_response dk n i) times).
Proof. by apply rpm_only_serve. Qed.
End facts.
End Local.

(** ** The script *)

Module Script.
Import LuaScripts RateLimiter Abstract.

Section facts.
Context (window_size lo dl : Z).
Context (Hshort : now_int dl - now_int lo < window_size).
Implicit Types st : store.

(** What a key answers during the whole span. *)
Definition holds st (x : string) (o : option Z) : Prop := ∀ t, lo ≤ t ≤ dl → GET t x st = o.

(** A value that is kept beyond the span. *)
Definition kept (e : option Z) : Prop := match e with Some x => dl < x | None => True end.

Lemma kept_holds st x v e : st !! x = Some (v, e) → kept e → holds st x (Some v).
Proof.
  intros Hx He t Ht. unfold GET, entry, live. rewrite Hx. destruct e as [e|]; [|done]. cbn in He.
  destruct (Z.ltb_spec t e); [done|lia].
Qed.

Lemma holds_kept st x v t : lo ≤ t ≤ dl → holds st x (Some v) → ∃ e, st !! x = Some (v, e) ∧ kept e.
Proof.
  intros Ht Hh. specialize (Hh dl ltac:(lia)). unfold GET, entry, live in Hh.
  destruct (st !! x) as [[v' [e|]]|]; cbn in *; [|by simplify_eq; exists None|done].
  destruct (Z.ltb_spec dl e); [|done]. simplify_eq/=. by exists (Some e).
Qed.

Lemma holds_insert st x y p o : x ≠ y → holds st x o → holds (<[y := p]> st) x o.
Proof. intros Hne Hh t Ht. unfold GET, entry. rewrite lookup_insert_ne by done. by apply Hh. Qed.

Lemma kept_expire t : lo ≤ t → kept (Some (t + seconds window_size)).
Proof. intros Ht. unfold kept, now_int, seconds in *. Z.to_euclidean_division_equations. lia. Qed.

Lemma expire_lookup t x y secs st v e : st !! x = Some (v, e) → kept e → t ≤ dl →
  EXPIRE t x secs st !! y = if decide (x = y) then Some (v, Some (t + seconds secs)) else st !! y.
Proof.
  intros Hx He Ht. unfold EXPIRE, entry. rewrite Hx.
  assert (live t e = true) as -> by (destruct e as [e|]; cbn in *; lia).
  case_decide as E; [by rewrite E, lookup_insert_eq|by rewrite lookup_insert_ne].
Qed.

(** The store keeps the counters of the table; a window that is not open has none. *)
Record stracks (tbl : gmap string Z) st : Prop := {
  st_count w x : paired w x → holds st x (tbl !! x);
  st_window w x : paired w x → holds st w None ∧ tbl !! x = None ∨ ∃ s, holds st w (Some s) ∧ now_int lo ≤ s
}.

(** A store that changed only the keys of a pair. *)
Lemma stracks_update tbl st st' w x n s :
  paired w x → (∀ y, y ≠ w → y ≠ x → st' !! y = st !! y) → holds st' x (Some n) → holds st' w (Some s) → now_int lo ≤ s →
  stracks tbl st → stracks (<[x := n]> tbl) st'.
Proof.
  intros Hp Hfr Hx Hw Hs [Hc Hn].
  assert (∀ y o, y ≠ w → y ≠ x → holds st y o → holds st' y o) as Hframe.
  { intros y o H1 H2 Hh t Ht. unfold GET, entry. rewrite Hfr by done. by apply Hh. }
  split; intros w' y Hp'.
  - destruct (decide (x = y)) as [->|Hne]; [by rewrite lookup_insert_eq|]. rewrite lookup_insert_ne by done.
    apply Hframe; [apply not_eq_sym; by eapply paired_ne|done|by eapply Hc].
  - destruct (decide (w = w')) as [->|Hne]; [right; by exists s|].
    assert (x ≠ y) by (intros ->; by rewrite (paired_window _ _ _ Hp Hp') in Hne).
    assert (w' ≠ x) by (by eapply paired_ne). rewrite lookup_insert_ne by done.
    destruct (Hn w' y Hp') as [[Hh Ht]|(s' & Hh & Hle)]; [left|right; exists s']; auto.
Qed.

Lemma count_pair_counts t w x tbl st :
  lo ≤ t ≤ dl → paired w x → stracks tbl st →
  ∃ wv st', count_pair t (now_int t) window_size w x st = ((wv, count tbl x + 1), st') ∧ stracks (<[x := count tbl x + 1]> tbl) st'.
Proof.
  intros Ht Hp Hst. pose proof (paired_ne w x w x Hp Hp) as Hne. unfold count_pair.
  assert (now_int lo ≤ now_int t ≤ now_int dl) as Hn by (unfold now_int; split; apply Z.div_le_mono; lia).
  destruct (st_window _ _ Hst w x Hp) as [[Hw Hx]|(s & Hw & Hs)]; rewrite (Hw t Ht).
  - unfold count. rewrite Hx. set (st1 := SET x 1 (SET w (now_int t) st)).
    assert (st1 !! w = Some (now_int t, None)) as E1 by (unfold st1, SET; by rewrite lookup_insert_ne, lookup_insert_eq).
    assert (∀ y, EXPIRE t w window_size st1 !! y = if decide (w = y) then _ else _) as E2 by (intros y; by eapply expire_lookup; [exact E1|done|lia]).
    assert (EXPIRE t w window_size st1 !! x = Some (1, None)) as E3 by (rewrite E2, decide_False by done; apply lookup_insert_eq).
    assert (∀ y, EXPIRE t x window_size (EXPIRE t w window_size st1) !! y = if decide (x = y) then _ else _) as E4
      by (intros y; by eapply expire_lookup; [exact E3|done|lia]).
    eexists _, _. split; [done|]. eapply (stracks_update tbl st _ w x 1 (now_int t)); [done| | | |lia|done].
    + intros y H1 H2. rewrite E4, E2, !decide_False by done. unfold st1, SET. by rewrite !lookup_insert_ne.
    + eapply kept_holds; [rewrite E4, decide_True by done; done|apply kept_expire; lia].
    + eapply kept_holds; [rewrite E4, decide_False, E2, decide_True by done; done|apply kept_expire; lia].
  - destruct (Z.leb_spec window_size (now_int t - s)); [lia|].
    pose proof (st_count _ _ Hst w x Hp) as Hx. unfold INCRBY.
    assert (∃ e, default (0, None) (entry t x st) = (count tbl x, e) ∧ kept e) as (e & E & He).
    { unfold count. destruct (tbl !! x) as [v|].
      - destruct (holds_kept st x v t Ht Hx) as (e & Ex & He). exists e. split; [|done]. unfold entry. rewrite Ex.
        by assert (live t e = true) as -> by (destruct e as [e|]; cbn in *; lia).
      - exists None. specialize (Hx t Ht). unfold GET in Hx. by destruct (entry t x st). }
    rewrite E. set (st1 := <[x := (count tbl x + 1, e)]> st). eexists _, _. split; [done|].
    assert (st1 !! x = Some (count tbl x + 1, e)) as E1 by apply lookup_insert_eq.
    assert (∀ y, y ≠ x → expire_if_no_ttl t x window_size st1 !! y = st !! y) as Hfr.
    { intros y Hy. unfold expire_if_no_ttl. destruct (no_ttl t x st1).
      - erewrite (expire_lookup t x y) by (done || lia). rewrite decide_False by done. by apply lookup_insert_ne.
      - by apply lookup_insert_ne. }
    eapply (stracks_update tbl st _ w x _ s); [done|auto| | |done|done].
    + unfold expire_if_no_ttl. destruct (no_ttl t x st1); [|by eapply kept_holds].
      eapply kept_holds; [erewrite (expire_lookup t x x) by (done || lia); by rewrite decide_True|apply kept_expire; lia].
    + intros t' Ht'. unfold GET, entry. rewrite Hfr by done. by apply Hw.
Qed.

(** The script counts as the table does. *)
Lemma script_bumps t ps tbl st :
  lo ≤ t ≤ dl → Forall (λ p, paired p.1 p.2) ps → stracks tbl st →
  ∃ ws st', BATCH_RATE_LIMITER_SCRIPT t (now_int t) window_size (flatten ps) st = (ws, st') ∧
    replies ws = interleave ((λ x, PStr (str_of_Z x.1)) <$> ws) (bump ps tbl).1 ∧ length ws = length ps ∧ stracks (bump ps tbl).2 st'.
Proof.
  intros Ht Hp. revert tbl st. induction Hp as [|[w x] ps Hp _ IH]; intros tbl st Hst; [by exists [], st|].
  destruct (count_pair_counts t w x tbl st Ht Hp Hst) as (wv & st1 & E1 & Hst1).
  destruct (IH _ _ Hst1) as (ws & st2 & E2 & Er & Hlen & Hst2).
  cbn [flatten BATCH_RATE_LIMITER_SCRIPT bump fst snd]. rewrite E1, E2. destruct (bump ps _) as [l tbl'].
  exists ((wv, count tbl x + 1) :: ws), st2. split_and!; [done| |cbn; lia|done].
  unfold replies in *. rewrite fmap_cons, join_cons, Er. done.
Qed.
End facts.
End Script.

(** ** Several proxies on one Redis *)

Module Shared.
Import RateLimiter Abstract Script.

Section facts.
Context `{PyRuntime} {R : Type} `{RedisCacheI R} `{ScriptLaws R}.
Context (window_size lo dl : Z).
Implicit Types c : DualCache.t R.

(** Each proxy has a cache of its own in front of the common Redis. *)
Definition world : Type := list (DualCache.t R) * R.

(** Proxy [i] checks a request. *)
Definition ask (i : nat) (now : Z) (ds : list RateLimitDescriptor) : M world (res RateLimitResponse) := λ '(cs, r),
  match cs !! i with
  | None => (Ok (Raise RuntimeError), (cs, r))
  | Some c =>
      let '(a, c') := should_rate_limit window_size now ds false (DualCache.set_redis (Some r) c) in
      (Ok a, (<[i := c']> cs, default r (DualCache.redis_cache c')))
  end.

Definition serve_all (reqs : list (nat * (Z * list RateLimitDescriptor))) : M world (list (res RateLimitResponse)) :=
  m_map (λ q, ask q.1 q.2.1 q.2.2) reqs.

(** Scripts that do not fail. *)
Definition up : Prop := ∀ t keys now w (r : R), is_ok (rs_batch t keys now w r).1 = true.

Lemma set_local_redis r now x v ttl : preserves (DualCache.redis_is r) (DualCache.async_set_cache now x v true ttl).
Proof. intros c <-. by destruct (DualCache.local_only_leaves_redis now x v [] [] [] ttl c) as (_ & ? & _). Qed.

Lemma batch_local_redis r now xs : preserves (DualCache.redis_is r) (DualCache.async_batch_get_cache now xs true None).
Proof. intros c <-. by destruct (DualCache.local_only_leaves_redis now EmptyString PNone [] [] xs None c) as (_ & _ & _ & _ & _ & ? & _). Qed.

Lemma remember_redis r now keys vs : preserves (DualCache.redis_is r) (remember window_size now keys vs).
Proof.
  revert keys vs. fix IH 1. intros [|w [|x keys]] [|wv [|cv vs]]; cbn [remember]; try (apply preserves_ret || apply preserves_raise).
  repeat (apply preserves_bind; [apply set_local_redis|intros _]). apply IH.
Qed.

(** The script of a request, through one proxy. *)
Lemma execute_runs now keys c r :
  up → DualCache.redis_cache c = Some r → rs_cluster r = false →
  ∃ c' r', _execute_redis_batch_rate_limiter_script window_size now keys c =
      (Ok (replies (LuaScripts.BATCH_RATE_LIMITER_SCRIPT now (now_int now) window_size keys (rs_store r)).1), c') ∧
    DualCache.redis_cache c' = Some r' ∧ rs_cluster r' = false ∧
    rs_store r' = (LuaScripts.BATCH_RATE_LIMITER_SCRIPT now (now_int now) window_size keys (rs_store r)).2.
Proof.
  intros Hup Hr Hcl. unfold _execute_redis_batch_rate_limiter_script, is_cluster, _group_keys_by_hash_tag. rewrite Hr, Hcl.
  pose proof (Hup now keys (now_int now) window_size r) as Hok. pose proof (batch_cluster now keys (now_int now) window_size r) as Hc.
  destruct (rs_batch now keys (now_int now) window_size r) as [[vs|] r'] eqn:Eb; [|done]. cbn in Hc.
  pose proof (batch_runs _ _ _ _ _ _ _ Eb) as Es. destruct (LuaScripts.BATCH_RATE_LIMITER_SCRIPT _ _ _ _ _) as [l st]. injection Es as -> Est.
  exists (DualCache.set_redis (Some r') c), r'. split_and!; [|done|congruence|done].
  cbn [m_map snd]. unfold m_try, on_script, mbind, M_bind, mret, M_ret. rewrite Hr, Eb. cbn. by rewrite app_nil_r.
Qed.

(** What a check through a proxy does to the store: nothing when it is refused without
    asking, otherwise one run of the script, whose counters give the verdict. *)
Lemma ask_cases now ds c r a c' :
  up → DualCache.redis_cache c = Some r → rs_cluster r = false →
  should_rate_limit window_size now ds false c = (a, c') →
  ∃ r', DualCache.redis_cache c' = Some r' ∧ rs_cluster r' = false ∧
    (rs_store r' = rs_store r ∧ (∀ x, a = Ok x → overall_over x = true) ∨
     ∃ keys meta, collect window_size ds [] [] = Ok (keys, meta) ∧
       let s := LuaScripts.BATCH_RATE_LIMITER_SCRIPT now (now_int now) window_size keys (rs_store r) in
       rs_store r' = s.2 ∧ (∀ x, a = Ok x → is_cache_list_over_limit keys (replies s.1) meta = Ok x)).
Proof.
  intros Hup Hr Hcl. unfold should_rate_limit. unfold mbind at 1, M_bind, m_lift.
  destruct (collect window_size ds [] []) as [[keys meta]|]; [|intros [= <- <-]; exists r; split_and!; [done..|by left]].
  unfold mbind at 1, M_bind.
  pose proof (batch_local_redis (Some r) now keys c Hr) as Hr1.
  destruct (DualCache.async_batch_get_cache now keys true None c) as [[vs|e] c1]; cbn in Hr1; red in Hr1;
    [|intros [= <- <-]; exists r; split_and!; [done..|by left]].
  unfold mbind at 1, M_bind.
  destruct (match vs with Some vs => _ | None => _ end) as [local|]; [|intros [= <- <-]; exists r; split_and!; [done..|by left]].
  destruct (overall_over local) eqn:Eo.
  { intros [= <- <-]. exists r. split_and!; [done..|]. left. split; [done|]. intros x [= <-]. done. }
  rewrite (m_bind_run _ _ _ c1 c1) by done. rewrite Hr1.
  destruct (execute_runs now keys c1 r Hup Hr1 Hcl) as (c2 & r2 & E2 & Hr2 & Hcl2 & Hs2).
  unfold mbind at 1, M_bind. rewrite (m_bind_run _ _ _ _ _ E2). unfold mbind at 1, M_bind.
  pose proof (remember_redis (Some r2) now keys (replies (LuaScripts.BATCH_RATE_LIMITER_SCRIPT now (now_int now) window_size keys (rs_store r)).1) c2 Hr2) as Hr3.
  destruct (remember _ now keys _ c2) as [[[]|e] c3]; cbn in Hr3; red in Hr3; intros [= <- <-]; exists r2;
    (split_and!; [done..|]); right; exists keys, meta; split_and!; try done.
Qed.

Definition passed (a : res RateLimitResponse) : bool := match a with Ok x => negb (overall_over x) | Raise _ => false end.

(** How many of the requests that count in [x] were admitted, by any proxy. *)
Definition admitted (x : string) (reqs : list (nat * (Z * list RateLimitDescriptor))) (rs : list (res RateLimitResponse)) : Z :=
  Z.of_nat (length (filter (λ qr : (nat * (Z * list RateLimitDescriptor)) * res RateLimitResponse, Local.uses x qr.1.2 && passed qr.2 = true) (zip reqs rs))).

(** One request in terms of the table. *)
Lemma ask_step x n i now ds cs r tbl :
  now_int dl - now_int lo < window_size → up → lo ≤ now ≤ dl → Local.limited window_size x n (now, ds) →
  rs_cluster r = false → stracks lo dl tbl (rs_store r) →
  ∃ a cs' r' tbl', ask i now ds (cs, r) = (Ok a, (cs', r')) ∧ rs_cluster r' = false ∧ stracks lo dl tbl' (rs_store r') ∧
    count tbl x ≤ count tbl' x ∧
    (Local.uses x (now, ds) && passed a = true → count tbl x + 1 ≤ count tbl' x ≤ n).
Proof.
  intros Hsh Hup Hnow Hlim Hcl Hst. unfold ask. destruct (cs !! i) as [c|].
  2: { exists (Raise RuntimeError), cs, r, tbl. split_and!; [done..|]. cbn. by rewrite andb_false_r. }
  destruct (should_rate_limit window_size now ds false (DualCache.set_redis (Some r) c)) as [a c'] eqn:E.
  destruct (ask_cases now ds (DualCache.set_redis (Some r) c) r a c' Hup) as (r' & Hr' & Hcl' & Hor); [done..|].
  rewrite Hr'. cbn [default id]. destruct Hor as [[Hs Hov]|(keys & meta & Ecol & Hs & Hval)].
  { exists a, (<[i := c']> cs), r', tbl. rewrite Hs. split_and!; [done..|]. intros [_ Hp]%andb_true_iff.
    destruct a as [y|]; [|done]. cbn in Hp. by rewrite (Hov y eq_refl) in Hp. }
  pose proof (request_paired ds) as Hp. destruct (collect_limits _ _ _ _ Ecol) as [-> Hm].
  destruct (script_bumps window_size lo dl Hsh now (request_pairs ds) tbl (rs_store r) Hnow Hp Hst) as (ws & st' & Ews & Er & Hlen & Hst').
  rewrite Ews in Hs, Hval. cbn [fst snd] in Hs, Hval. pose proof (bump_count x (request_pairs ds) tbl) as Hc.
  exists a, (<[i := c']> cs), r', (bump (request_pairs ds) tbl).2. rewrite Hs. split_and!; [done..|rewrite Hc; unfold occurrences; lia|].
  intros [Hu Hpa]%andb_true_iff. unfold Local.uses in Hu. cbn [snd] in Hu. split; [lia|].
  destruct a as [y|]; [|done]. specialize (Hval y eq_refl). cbn in Hpa. apply negb_true_iff in Hpa.
  pose proof (bump_pairs (request_pairs ds) tbl) as Ebp.
  assert (is_cache_list_over_limit (flatten (request_pairs ds)) (replies ws) meta = Ok (respond meta (bump (request_pairs ds) tbl).1)) as Eo.
  { rewrite Er. rewrite <-Ebp at 1. apply over_limit_respond.
    - apply (f_equal length) in Ebp. rewrite length_fmap in Ebp. by rewrite length_fmap, Hlen.
    - by rewrite <-Ebp, Forall_fmap in Hm. }
  rewrite Eo in Hval. injection Hval as <-.
  apply (bumped_within x n (request_pairs ds) meta tbl); [|lia|done].
  intros p Hin Hx. destruct (Hlim p Hin Hx) as (m & ty & Hdm & Hl). exists m, ty. split; [|done].
  unfold Local.meta_of in Hdm. cbn [snd] in Hdm. by rewrite Ecol in Hdm.
Qed.

Lemma serve_all_within x n reqs cs r tbl :
  now_int dl - now_int lo < window_size → up →
  Forall (λ q, lo ≤ q.2.1 ≤ dl ∧ Local.limited window_size x n q.2) reqs →
  rs_cluster r = false → stracks lo dl tbl (rs_store r) →
  ∃ rs w', serve_all reqs (cs, r) = (Ok rs, w') ∧ admitted x reqs rs ≤ Z.max 0 (n - count tbl x).
Proof.
  intros Hsh Hup Hf. unfold serve_all. revert cs r tbl.
  induction Hf as [|[i [now ds]] reqs [Hnow Hlim] _ IH]; intros cs r tbl Hcl Hst.
  { eexists [], _. split; [done|]. unfold admitted. cbn. lia. }
  cbn [fst snd] in *. destruct (ask_step x n i now ds cs r tbl) as (a & cs' & r' & tbl' & E & Hcl' & Hst' & Hle & Hadd); [done..|].
  destruct (IH cs' r' tbl' Hcl' Hst') as (rs & w' & E' & Hrs). exists (a :: rs), w'. cbn [m_map fst snd].
  rewrite (m_bind_run _ _ _ _ _ E), (m_bind_run _ _ _ _ _ E'). split; [done|]. unfold admitted in *.
  cbn [zip zip_with]. rewrite filter_cons. cbn [fst snd].
  destruct (Local.uses x (now, ds) && passed a) eqn:Eu.
  - rewrite decide_True by done. cbn [length]. specialize (Hadd eq_refl). lia.
  - rewrite decide_False by done. lia.
Qed.

(** C17: Proxies that share a Redis that is not a cluster and has no live counter when
    the window starts admit together at most [n] requests within a window for a counter
    that has limit [n] in all of them, whatever their own caches hold and however their
    requests interleave, as long as the scripts do not fail. *)
Theorem shared_limit_respected x n reqs cs r
    (Hsh : now_int dl - now_int lo < window_size) (Hup : up)
    (Hf : Forall (λ q, lo ≤ q.2.1 ≤ dl ∧ Local.limited window_size x n q.2) reqs)
    (Hcl : rs_cluster r = false) (Hnew : stracks lo dl ∅ (rs_store r)) :
  ∃ rs w', serve_all reqs (cs, r) = (Ok rs, w') ∧ admitted x reqs rs ≤ Z.max 0 n.
Proof.
  destruct (serve_all_within x n reqs cs r ∅ Hsh Hup Hf Hcl Hnew) as (rs & w' & E & Hr).
  exists rs, w'. split; [done|]. unfold count in Hr. rewrite lookup_empty in Hr. cbn in Hr. lia.
Qed.
End facts.
End Shared.

(** ** Slots of a cluster *)

Module Slots.
Import RateLimiter Abstract.

Lemma crc_bits_range n crc : 0 ≤ crc < 65536 ∨ (0 < n)%nat → 0 ≤ crc_bits n crc < 65536.
Proof.
  revert crc. induction n as [|n IH]; intros crc Hc; [cbn; lia|]. cbn [crc_bits]. apply IH. left.
  change 65535 with (Z.ones 16). rewrite Z.land_ones by lia. apply Z.mod_pos_bound. lia.
Qed.

Lemma crc_hqx_range s crc : 0 ≤ crc < 65536 → 0 ≤ crc_hqx s crc < 65536.
Proof.
  revert crc. induction s as [|a s IH]; intros crc Hc; [done|]. cbn [crc_hqx]. apply IH. apply crc_bits_range. right. lia.
Qed.

(** The text up to the first closing brace does not depend on what follows. *)
Lemma split_once_prefix c a s s' :
  ∃ i r r', split_once c (a +:+ String c s) = (i, Some r) ∧ split_once c (a +:+ String c s') = (i, Some r').
Proof.
  induction a as [|x a (i & r & r' & E & E')]; rewrite ?str_app_cons, ?str_app_nil_l; cbn [split_once].
  - rewrite Ascii.eqb_refl. by eexists _, _, _.
  - destruct (Ascii.eqb x c); [by eexists _, _, _|]. rewrite E, E'. by eexists _, _, _.
Qed.

Lemma hash_tag_suffix k v s s' : startswith k "}" = false → hash_tag (tag k v +:+ s) = hash_tag (tag k v +:+ s').
Proof.
  intros Hk. unfold hash_tag, tag. rewrite !str_app_assoc.
  rewrite !(str_app_cons "{" ""), !str_app_nil_l. cbn [split_once]. rewrite Ascii.eqb_refl.
  assert (∀ t, k +:+ ":" +:+ v +:+ "}" +:+ t = (k +:+ ":" +:+ v) +:+ String "}" t) as E by (intros; by rewrite !str_app_assoc).
  rewrite !E. destruct (split_once_prefix "}" (k +:+ ":" +:+ v) s s') as (i & r & r' & E1 & E2). rewrite E1, E2.
  destruct (String.eqb_spec i ""); [|done]. subst i. exfalso. clear E2.
  revert E1. destruct k as [|a k]; rewrite ?str_app_cons, ?str_app_nil_l; cbn [split_once].
  - rewrite str_app_cons. cbn [split_once]. change (Ascii.eqb ":" "}") with false. cbn iota. destruct (split_once _ _). intros; by simplify_eq.
  - destruct (Ascii.eqb_spec a "}") as [->|]; [by rewrite (prefix_app_self "}" k : startswith (String "}" k) "}" = true) in Hk|]. destruct (split_once _ _). intros; by simplify_eq.
Qed.

(** A slot of the cluster is in range, and all keys of a descriptor, its window and
    its counters, are in the same slot: a script that gets them runs on one node. *)
Theorem descriptor_slot d x
    (Hk : startswith (key d) "}" = false) (Hx : x ∈ descriptor_keys d) :
  keyslot_for_redis_cluster x = keyslot_for_redis_cluster (window_key d) ∧ 0 ≤ keyslot_for_redis_cluster x < REDIS_CLUSTER_SLOTS.
Proof.
  split; [|apply Z.mod_pos_bound; done]. unfold keyslot_for_redis_cluster. do 2 f_equal.
  assert (∃ s, x = tag (key d) (value d) +:+ s) as [s ->].
  { unfold descriptor_keys in Hx. apply list_elem_of_join in Hx as (l & Hx & ([ty v] & -> & _)%list_elem_of_fmap).
    cbn in Hx. destruct (is_none v); [by apply not_elem_of_nil in Hx|].
    apply elem_of_cons in Hx as [->|[->|[]%not_elem_of_nil]%elem_of_cons]; by eexists. }
  by apply hash_tag_suffix.
Qed.

(** *** Groups *)

Definition slot_key (x : string) : string := "slot_" +:+ str_of_Z (keyslot_for_redis_cluster x).

Lemma dset_perm k x (groups : list (string * list string)) :
  dict_wf groups → mjoin (dset k (default [] (dget k groups) ++ [x]) groups).*2 ≡ₚ x :: mjoin groups.*2.
Proof.
  induction groups as [|[k' l] groups IH]; intros Hw; [done|]. cbn [dset dget]. destruct (String.eqb_spec k k') as [->|Hne].
  - cbn [fmap list_fmap snd default id]. rewrite !join_cons. solve_Permutation.
  - cbn [fmap list_fmap snd]. rewrite !join_cons. apply NoDup_cons in Hw as [_ Hw]. rewrite (IH Hw). solve_Permutation.
Qed.

Definition sound_groups (groups : list (string * list string)) : Prop :=
  dict_wf groups ∧ Forall (λ g : string * list string, Forall (λ x, slot_key x = g.1) g.2) groups.

Lemma join_group_sound groups x : sound_groups groups → sound_groups (join_group groups x).
Proof.
  intros [Hw Hs]. unfold join_group. fold (slot_key x). split; [by apply dset_wf|]. apply Forall_forall. intros [k l] Hin.
  apply (dget_in _ _ _ (dset_wf _ _ _ Hw)) in Hin. rewrite dget_dset in Hin. rewrite Forall_forall in Hs.
  destruct (String.eqb_spec (slot_key x) k) as [<-|Hne]; [|apply dget_Some_in in Hin; by apply (Hs _ Hin)].
  injection Hin as <-. cbn. apply Forall_app. split; [|by apply Forall_singleton].
  destruct (dget (slot_key x) groups) as [l'|] eqn:E; [|done]. apply dget_Some_in in E. by apply (Hs _ E).
Qed.

(** On a cluster the keys are grouped by slot: every group holds keys of one slot,
    different groups are of different slots, and no key is lost or repeated. *)
Theorem groups_partition (keys : list string) :
  let groups := _group_keys_by_hash_tag true keys in
  NoDup groups.*1 ∧ Forall (λ g : string * list string, Forall (λ x, slot_key x = g.1) g.2) groups ∧ mjoin groups.*2 ≡ₚ keys.
Proof.
  assert (∀ acc, sound_groups acc →
    sound_groups (foldl join_group acc keys) ∧ mjoin (foldl join_group acc keys).*2 ≡ₚ mjoin acc.*2 ++ keys) as Hg.
  { induction keys as [|x keys IH]; intros acc Ha; cbn [foldl]; [by rewrite app_nil_r|].
    destruct (IH (join_group acc x) (join_group_sound _ _ Ha)) as [Hs Hp]. split; [done|]. rewrite Hp.
    unfold join_group. rewrite (dset_perm _ x acc (proj1 Ha)). solve_Permutation. }
  destruct (Hg []) as [[Hw Hs] Hp]; [by repeat constructor|]. by split_and!.
Qed.
End Slots.

(** ** Concrete runs *)

Module RateExamples.
Import RateLimiter Abstract Toy.
#[local] Existing Instance int_runtime.
#[local] Existing Instance server_redis.
#[local] Existing Instance server_scripts.
#[local] Existing Instance server_laws.

#[local] Instance int_json : JsonInts.
Proof. intros n Hn. cbn. by rewrite (int_of_str_of_Z n Hn). Qed.

Definition config : Z * Z * Z := (200, seconds 600, 1024).

(** The keys of a key limit and a team limit. *)
Definition room : gset string :=
  list_to_set ["{api_key:k}:window"; "{api_key:k}:requests"; "{team:t}:window"; "{team:t}:requests"; "{team:t}:tokens"].

Lemma span_from w (U : gset string) : 59 < w → Z.of_nat (size U) < 200 → Local.span w (seconds 60) (seconds 119) config U.
Proof.
  intros Hw HU. split; [done|exact Hw|exact HU|..]; intros im z [= _ _ Hk]; unfold InMemoryCache.check_value_size; rewrite Hk; cbn;
    apply orb_true_r.
Qed.

Lemma minute_span : Local.span 60 (seconds 60) (seconds 119) config room.
Proof. by apply span_from. Qed.

Lemma idle_in (U : gset string) : Local.idle (seconds 119) config U (cache None).
Proof.
  split; [done|split; [by apply InMemoryCache.wf_init|done]|done|set_solver|].
  intros x e Hx. exact (False_ind _ (lookup_empty_Some x e Hx)).
Qed.

Lemma minute_idle : Local.idle (seconds 119) config room (cache None).
Proof. apply idle_in. Qed.

(** A key limited to 2 requests under a team limited to 3 requests and 5 tokens. *)
Definition both : list RateLimitDescriptor :=
  [mkDescriptor "api_key" "k" (Some (mkLimit (PInt 2) PNone PNone PNone));
   mkDescriptor "team" "t" (Some (mkLimit (PInt 3) (PInt 5) PNone PNone))].

Definition requests : list (Z * list RateLimitDescriptor) := (λ now, (seconds now, both)) <$> [60; 61; 90; 119].

Lemma requests_fit : Forall (Local.fits 60 (seconds 60) (seconds 119) room) requests.
Proof. unfold requests. apply Forall_fmap. repeat constructor; cbn; try done; vm_compute; set_solver. Qed.

Lemma local_limiter_refines_witness :
  (Local.serve 60 requests (cache None)).1 = Ok (Local.run 60 requests ∅) ∧
  overall_over <$> Local.run 60 requests ∅ = [false; false; true; true].
Proof.
  split; [|vm_compute; reflexivity].
  exact (Local.local_limiter_refines 60 (seconds 60) (seconds 119) config room requests (cache None) minute_span requests_fit minute_idle).
Defined.

Lemma local_limiter_exact_witness :
  (Local.serve 60 ((λ now, (now, [Local.rpm_only 60 "api_key" "k" 2])) <$> [seconds 60; seconds 70; seconds 119]) (cache None)).1 =
    Ok (imap (λ i _, Local.rpm_response "api_key" 2 i) [seconds 60; seconds 70; seconds 119]).
Proof.
  apply (Local.local_limiter_exact 60 (seconds 60) (seconds 119) config room "api_key" "k" 2);
    [apply minute_span|done|apply minute_idle|repeat constructor; done|vm_compute; set_solver|vm_compute; set_solver].
Defined.

Lemma scripts_up : Shared.up (R := server).
Proof. intros t keys now w r. cbn. by destruct (LuaScripts.BATCH_RATE_LIMITER_SCRIPT t now w keys (data r)). Qed.

Lemma both_limited now : Local.limited 60 "{api_key:k}:requests" 2 (now, both).
Proof.
  intros p Hp Hx. vm_compute in Hp. set_unfold in Hp. destruct Hp as [->|[->|[->|[]]]]; try done.
  vm_compute. by eexists _, _.
Qed.

Lemma empty_tracks lo dl : Script.stracks lo dl ∅ ∅.
Proof. split; [done|]. intros w x _. by left. Qed.

Definition refusals (r : res (list RateLimitResponse)) : option (list bool) :=
  match r with Ok l => Some (overall_over <$> l) | Raise _ => None end.
Definition passes (r : res (list (res RateLimitResponse))) : option (list bool) :=
  match r with Ok l => Some (Shared.passed <$> l) | Raise _ => None end.

(** Two proxies take turns. *)
Definition turns : list (nat * (Z * list RateLimitDescriptor)) :=
  (λ q, (q.1, (seconds q.2, both))) <$> [(0%nat, 60); (1%nat, 61); (1%nat, 62); (0%nat, 63)].
Definition proxies : list (DualCache.t server) := [cache None; cache None].
Definition redis : server := mkServer ∅ false.

Lemma shared_limit_respected_witness :
  ∃ rs w', Shared.serve_all 60 turns (proxies, redis) = (Ok rs, w') ∧ Shared.admitted "{api_key:k}:requests" turns rs ≤ Z.max 0 2.
Proof.
  apply (Shared.shared_limit_respected 60 (seconds 60) (seconds 119) "{api_key:k}:requests" 2 turns proxies redis);
    [done|apply scripts_up| |done|apply empty_tracks].
  unfold turns. apply Forall_fmap. repeat constructor; try done; apply both_limited.
Defined.

(** The bound is reached: the first proxy takes one of the two, the second the other. *)
Example turns_taken : passes (Shared.serve_all 60 turns (proxies, redis)).1 = Some [true; true; false; false].
Proof. vm_compute. reflexivity. Qed.

Lemma descriptor_slot_witness :
  keyslot_for_redis_cluster "{team:t}:tokens" = keyslot_for_redis_cluster "{team:t}:window" ∧ 0 ≤ keyslot_for_redis_cluster "{team:t}:tokens" < 16384.
Proof. apply (Slots.descriptor_slot (mkDescriptor "team" "t" (Some (mkLimit (PInt 3) (PInt 5) PNone PNone)))); [done|vm_compute; set_solver]. Defined.

(** *** What the counters do not do *)

(** The tokens counter also counts requests: five calls without a token use up a limit of
    five tokens. *)
Definition five_tokens : list RateLimitDescriptor := [mkDescriptor "team" "t" (Some (mkLimit PNone (PInt 5) PNone PNone))].

Theorem requests_count_as_tokens :
  refusals (Local.serve 60 ((λ now, (seconds now, five_tokens)) <$> [60; 61; 62; 63; 64; 65]) (cache None)).1 =
    Some [false; false; false; false; false; true].
Proof. vm_compute. reflexivity. Qed.

(** The counts of a refused request stay: while the key is refused for its own limit the
    team's counter grows, and the team's other key is refused with two calls made. *)
Definition team_of (k : string) (n : Z) : list RateLimitDescriptor :=
  [mkDescriptor "team" "t" (Some (mkLimit (PInt 2) PNone PNone PNone)); mkDescriptor "api_key" k (Some (mkLimit (PInt n) PNone PNone PNone))].

Theorem refused_requests_count :
  refusals (Local.serve 60 [(seconds 60, team_of "a" 0); (seconds 61, team_of "b" 5); (seconds 62, team_of "b" 5)] (cache None)).1 =
    Some [true; false; true].
Proof. vm_compute. reflexivity. Qed.

(** A proxy keeps the counters it read for a whole window of its own: it learns at second
    119 that the limit is used up, and at 130 still refuses, ten seconds into the next
    window, while the other proxy is admitted. *)
Definition late : list (nat * (Z * list RateLimitDescriptor)) :=
  let one := [mkDescriptor "api_key" "k" (Some (mkLimit (PInt 1) PNone PNone PNone))] in
  (λ q, (q.1, (seconds q.2, one))) <$> [(0%nat, 60); (1%nat, 119); (1%nat, 130); (0%nat, 130)].

Theorem stale_copy_refuses : passes (Shared.serve_all 60 late (proxies, redis)).1 = Some [true; false; false; true].
Proof. vm_compute. reflexivity. Qed.

(** On a cluster the values come back group by group but are read in the order of the
    keys.  A descriptor listed twice with another in between: the second count of the
    team's model is taken for that of the agent, which is refused at its first call. *)
Definition around : list RateLimitDescriptor :=
  [mkDescriptor "model_per_team" "t:m" (Some (mkLimit (PInt 4) PNone PNone PNone));
   mkDescriptor "agent" "a" (Some (mkLimit (PInt 1) PNone PNone PNone));
   mkDescriptor "model_per_team" "t:m" (Some (mkLimit (PInt 4) PNone PNone PNone))].

Theorem cluster_mixes_values :
  passes (Shared.serve_all 60 [(0%nat, (seconds 60, around))] (proxies, mkServer ∅ true)).1 = Some [false] ∧
  passes (Shared.serve_all 60 [(0%nat, (seconds 60, around))] (proxies, mkServer ∅ false)).1 = Some [true].
Proof. vm_compute. auto. Qed.
End RateExamples.
