(* ===== verification/LimitHook.v ===== *)
(** * LimitHook: the limits of a request, and the hooks around a call

    The rest of [proxy/hooks/parallel_request_limiter_v3.py]: the descriptors of a request
    (key, user, team, team member, end user, model, agent, organization), the check before
    a call, and the counters after it; with the limit readers of [proxy/auth/auth_utils.py]
    and [get_model_group_from_litellm_kwargs].

    The model of a request is a string or absent; token counts are integers.  The router's
    deployments and failure counts, the agent registry and the batch limiter are arguments.
    A refusal is a value ([Refuse], the HTTP error 429), as is an admission.

    Theorems: without Redis a key with no other limit than [n] requests has exactly its
    first [n] calls of a window admitted; a response over a limit always refuses; the tokens of a call are counted for
    every descriptor it was checked against but the organization's; what is counted after
    a call never touches a request counter. *)

From stdpp Require Import base gmap sets list strings.
From Stdlib Require Import Ascii ZArith QArith Lia ZifyBool.
From S2P Require Import Prelude PyStr InMemoryCache RedisCache DualCache CostCalc RateLimiter RateWindows.

#[local] Open Scope Z_scope.

Module LimitHook.
Import RateLimiter.
#[local] Abbreviation dict := (list (string * pyval)).

(** What the limiter reads of a [UserAPIKeyAuth]. *)
Record KeyLimits := mkKey {
  api_key : option string;
  rpm_limit : option Z;
  tpm_limit : option Z;
  max_parallel : option Z;                    (* max_parallel_requests *)
  user_id : option string;
  user_rpm_limit : option Z;
  user_tpm_limit : option Z;
  team_id : option string;
  team_rpm_limit : option Z;
  team_tpm_limit : option Z;
  team_member_rpm_limit : option Z;
  team_member_tpm_limit : option Z;
  end_user_id : option string;
  end_user_rpm_limit : option Z;
  end_user_tpm_limit : option Z;
  org_id : option string;
  organization_rpm_limit : option Z;
  organization_tpm_limit : option Z;
  key_metadata : dict;                        (* metadata *)
  model_max_budget : dict;
  team_metadata : option dict;
  organization_metadata : option dict;
  agent_id : option string
}.

Record Agent := mkAgent {
  agent_rpm_limit : option Z;
  agent_tpm_limit : option Z;
  session_rpm_limit : option Z;
  session_tpm_limit : option Z
}.

Definition num_or_none (o : option Z) : pyval := match o with Some z => PInt z | None => PNone end.
(** An optional string in an f-string, and as a condition. *)
Definition shown (o : option string) : string := default "None" o.
Definition given (o : option string) : bool := match o with Some s => negb (String.eqb s "") | None => false end.
Definition has (o : option Z) : bool := match o with Some _ => true | None => false end.

(** ** [auth_utils] *)

(** [metadata.get(k)] on a dict that may be missing or empty. *)
Definition meta_get (d : option dict) (k : string) : pyval :=
  match d with Some d => default PNone (dget k d) | None => PNone end.

(** The limits of [model_max_budget], per model. *)
Definition budget_limits (limit_key : string) (budgets : dict) : dict :=
  omap (λ mb : string * pyval,
    match mb.2 with
    | PDict b => let v := default PNone (dget limit_key b) in if is_none v then None else Some (mb.1, v)
    | _ => None
    end) budgets.

(** [get_key_model_rpm_limit] and [get_key_model_tpm_limit], which differ in their keys. *)
Definition key_model_limit (model_key limit_key : string) (u : KeyLimits) : pyval :=
  let result := meta_get (Some (key_metadata u)) model_key in
  if truthy result then result
  else
    match budget_limits limit_key (model_max_budget u) with
    | [] => meta_get (team_metadata u) model_key
    | l => PDict l
    end.
Definition get_key_model_rpm_limit : KeyLimits → pyval := key_model_limit "model_rpm_limit" "rpm_limit".
Definition get_key_model_tpm_limit : KeyLimits → pyval := key_model_limit "model_tpm_limit" "tpm_limit".

Definition get_model_rate_limit_from_metadata (accessor : KeyLimits → option dict) (rate_limit_key : string) (u : KeyLimits) : pyval :=
  meta_get (accessor u) rate_limit_key.
Definition get_team_model_rpm_limit (u : KeyLimits) : pyval := meta_get (team_metadata u) "model_rpm_limit".
Definition get_team_model_tpm_limit (u : KeyLimits) : pyval := meta_get (team_metadata u) "model_tpm_limit".

(** [m in v]. *)
Definition contains (m : option string) (v : pyval) : res bool :=
  match v with
  | PDict d => Ok (match m with Some s => dmem s d | None => false end)
  | PList l | PTuple l | PSet l => Ok (existsb (py_eqb (match m with Some s => PStr s | None => PNone end)) l)
  | PStr s => match m with Some x => Ok (str_contains x s) | None => Raise TypeError end
  | _ => Raise TypeError
  end.

(** ** Descriptors *)

Section ops.
Context `{PyRuntime} {R : Type} `{RedisCacheI R} `{RateScripts R}.
Context (window_size : Z).
#[local] Abbreviation cache := (DualCache.t R).

Definition descriptor (key value : string) (rpm tpm parallel : pyval) : RateLimitDescriptor :=
  mkDescriptor key value (Some (mkLimit rpm tpm parallel (PInt window_size))).

(** [if m in limits: limit = limits[m]]. *)
Definition limit_in (m : option string) (limits : pyval) : res pyval :=
  b ← contains m limits;
  if b : bool then match m with Some s => py_index limits s | None => Raise TypeError end else Ok PNone.

(** The descriptor of a model under a team or an organization. *)
Definition model_limits (key owner : string) (m : option string) (rpm tpm : pyval) : res (list RateLimitDescriptor) :=
  if is_none rpm && is_none tpm then Ok []
  else
    let tpm := py_or tpm (PDict []) in
    let rpm := py_or rpm (PDict []) in
    in_tpm ← contains m tpm;
    in_rpm ← (if in_tpm : bool then Ok true else contains m rpm);
    if in_rpm : bool then
      t ← limit_in m tpm;
      r ← limit_in m rpm;
      Ok [descriptor key (owner +:+ ":" +:+ shown m) r t PNone]
    else Ok [].

Definition create_organization_rate_limit_descriptor (u : KeyLimits) (m : option string) : res (list RateLimitDescriptor) :=
  let global :=
    match org_id u with
    | Some o => if has (organization_rpm_limit u) || has (organization_tpm_limit u)
                then [descriptor "organization" o (num_or_none (organization_rpm_limit u)) (num_or_none (organization_tpm_limit u)) PNone]
                else []
    | None => []
    end in
  specific ← model_limits "model_per_organization" (shown (org_id u)) m
               (get_model_rate_limit_from_metadata organization_metadata "model_rpm_limit" u)
               (get_model_rate_limit_from_metadata organization_metadata "model_tpm_limit" u);
  Ok (global ++ specific).

Definition _add_model_per_key_rate_limit_descriptor (u : KeyLimits) (m : option string) : res (list RateLimitDescriptor) :=
  match m with
  | None => Ok []
  | Some s =>
      let tpm := get_key_model_tpm_limit u in
      let rpm := get_key_model_rpm_limit u in
      if String.eqb s "" then Ok []
      else if is_none tpm && is_none rpm then Ok []
      else
        let tpm := py_or tpm (PDict []) in
        let rpm := py_or rpm (PDict []) in
        in_tpm ← contains m tpm;
        in_rpm ← (if in_tpm : bool then Ok true else contains m rpm);
        if in_rpm : bool then
          t ← py_get tpm s;
          r ← py_get rpm s;
          Ok [descriptor "model_per_key" (shown (api_key u) +:+ ":" +:+ s) r t PNone]
        else Ok []
  end.

Definition _should_enforce_rate_limit (limit_type : pyval) (model_has_failures : bool) : bool :=
  if py_eqb limit_type (PStr "dynamic") then model_has_failures else true.

Definition _get_enforced_limit (limit_value : option Z) (limit_type : pyval) (model_has_failures : bool) : option Z :=
  if _should_enforce_rate_limit limit_type model_has_failures then limit_value else None.

Definition _is_dynamic_rate_limiting_enabled (rpm_limit_type tpm_limit_type : pyval) : bool :=
  py_eqb rpm_limit_type (PStr "dynamic") || py_eqb tpm_limit_type (PStr "dynamic").

(** [data.get(k) or {}]. *)
Definition sub_dict (k : string) (data : dict) : pyval := py_or (default PNone (dget k data)) (PDict []).

Definition _get_resolved_agent_id (u : KeyLimits) (data : dict) : res pyval :=
  match agent_id u with
  | Some a => if String.eqb a "" then py_get (sub_dict "metadata" data) "agent_id" else Ok (PStr a)
  | None => py_get (sub_dict "metadata" data) "agent_id"
  end.

Definition _get_session_id_from_data (data : dict) : res (option string) :=
  let s := default PNone (dget "litellm_session_id" data) in
  if truthy s then Ok (Some (py_str s))
  else
    s ← py_get (sub_dict "metadata" data) "session_id";
    if truthy s then Ok (Some (py_str s))
    else
      s ← py_get (sub_dict "litellm_metadata" data) "session_id";
      if truthy s then Ok (Some (py_str s)) else Ok None.

(** [get_agent]: the lookup in [global_agent_registry]. *)
Definition _create_agent_rate_limit_descriptors (get_agent : pyval → option Agent) (a : pyval) (data : dict)
    : res (list RateLimitDescriptor) :=
  match get_agent a with
  | None => Ok []
  | Some agent =>
      let own :=
        if has (agent_rpm_limit agent) || has (agent_tpm_limit agent)
        then [descriptor "agent" (py_str a) (num_or_none (agent_rpm_limit agent)) (num_or_none (agent_tpm_limit agent)) PNone]
        else [] in
      session ←
        (if has (session_rpm_limit agent) || has (session_tpm_limit agent) then
           session_id ← _get_session_id_from_data data;
           Ok match session_id with
              | Some s => [descriptor "agent_session" (py_str a +:+ ":" +:+ s) (num_or_none (session_rpm_limit agent)) (num_or_none (session_tpm_limit agent)) PNone]
              | None => []
              end
         else Ok []);
      Ok (own ++ session)
  end.

(** The model of a request. *)
Definition requested_model (data : dict) : option string :=
  match dget "model" data with Some (PStr s) => Some s | _ => None end.

(** An owner with an id and at least one limit. *)
Definition owner_limits (key : string) (id : option string) (value : string) (rpm tpm : option Z) : list RateLimitDescriptor :=
  if given id && (has rpm || has tpm) then [descriptor key value (num_or_none rpm) (num_or_none tpm) PNone] else [].

Definition key_limits (u : KeyLimits) (rpm_limit_type tpm_limit_type : pyval) (model_has_failures : bool) : list RateLimitDescriptor :=
  if given (api_key u) && (has (rpm_limit u) || has (tpm_limit u) || has (max_parallel u))
  then [descriptor "api_key" (shown (api_key u))
          (num_or_none (_get_enforced_limit (rpm_limit u) rpm_limit_type model_has_failures))
          (num_or_none (_get_enforced_limit (tpm_limit u) tpm_limit_type model_has_failures))
          (num_or_none (max_parallel u))]
  else [].

Definition _create_rate_limit_descriptors (get_agent : pyval → option Agent) (u : KeyLimits) (data : dict)
    (rpm_limit_type tpm_limit_type : pyval) (model_has_failures : bool) : res (list RateLimitDescriptor) :=
  let m := requested_model data in
  let owners :=
    key_limits u rpm_limit_type tpm_limit_type model_has_failures ++
    owner_limits "user" (user_id u) (shown (user_id u)) (user_rpm_limit u) (user_tpm_limit u) ++
    owner_limits "team" (team_id u) (shown (team_id u)) (team_rpm_limit u) (team_tpm_limit u) ++
    owner_limits "team_member" (user_id u) (shown (team_id u) +:+ ":" +:+ shown (user_id u)) (team_member_rpm_limit u) (team_member_tpm_limit u) ++
    owner_limits "end_user" (end_user_id u) (shown (end_user_id u)) (end_user_rpm_limit u) (end_user_tpm_limit u) in
  per_key ← _add_model_per_key_rate_limit_descriptor u m;
  per_team ← model_limits "model_per_team" (shown (team_id u)) m (get_team_model_rpm_limit u) (get_team_model_tpm_limit u);
  a ← _get_resolved_agent_id u data;
  agents ← (if truthy a then _create_agent_rate_limit_descriptors get_agent a data else Ok []);
  Ok (owners ++ per_key ++ per_team ++ agents).

(** Added once more for the team's metadata. *)
Definition _add_team_model_rate_limit_descriptor_from_metadata (u : KeyLimits) (m : option string) : res (list RateLimitDescriptor) :=
  let rpm := get_model_rate_limit_from_metadata team_metadata "model_rpm_limit" u in
  let tpm := get_model_rate_limit_from_metadata team_metadata "model_tpm_limit" u in
  if is_none rpm && is_none tpm then Ok []
  else
    let tpm := py_or tpm (PDict []) in
    let rpm := py_or rpm (PDict []) in
    in_tpm ← contains m tpm;
    in_rpm ← (if in_tpm : bool then Ok true else contains m rpm);
    match in_rpm : bool, m with
    | true, Some s =>
        t ← py_get tpm s;
        r ← py_get rpm s;
        Ok [descriptor "model_per_team" (shown (team_id u) +:+ ":" +:+ s) r t PNone]
    | _, _ => Ok []
    end.

(** ** Before a call *)

Definition DYNAMIC_RATE_LIMIT_ERROR_THRESHOLD_PER_MINUTE : Z := 1.

(** The router: the deployments of a model, and the failures of a deployment in the
    current minute. *)
Record Router := mkRouter {
  get_model_list : string → res (list dict);
  failures_for_current_minute : pyval → res Z
}.

Fixpoint any_failing (router : Router) (deployments : list dict) : res bool :=
  match deployments with
  | [] => Ok false
  | d :: rest =>
      deployment_id ← py_get (default (PDict []) (dget "model_info" d)) "id";
      if negb (truthy deployment_id) then any_failing router rest
      else
        failure_count ← failures_for_current_minute router deployment_id;
        if DYNAMIC_RATE_LIMIT_ERROR_THRESHOLD_PER_MINUTE <? failure_count then Ok true else any_failing router rest
  end.

(** An error enforces the limits. *)
Definition _check_model_has_recent_failures (llm_router : option Router) (model : string) : bool :=
  match llm_router with
  | None => false
  | Some router =>
      match (model_list ← get_model_list router model; any_failing router model_list) with
      | Ok b => b
      | Raise _ => true
      end
  end.

(** What the hook comes to: the response goes into the request data when there was
    something to check; the HTTP error 429 has a text and three headers. *)
Inductive verdict : Type :=
| Admit (response : option RateLimitResponse)
| Refuse (detail retry_after rate_limit_type reset_at : string).

(** [strftime] is an argument.  A response without an exceeded status admits. *)
Definition _handle_rate_limit_error (strftime : Z → string) (now : Z) (response : RateLimitResponse)
    (descriptors : list RateLimitDescriptor) : verdict :=
  match List.find over (statuses response) with
  | None => Admit None
  | Some status =>
      let dk := status_descriptor_key status in
      let value := match List.find (λ d, String.eqb (key d) dk) descriptors with Some d => value d | None => "unknown" end in
      let reset := strftime (now + seconds window_size) in
      Refuse ("Rate limit exceeded for " +:+ dk +:+ ": " +:+ value +:+ ". Limit type: " +:+ rate_limit_type status +:+
              ". Current limit: " +:+ str_of_Z (current_limit status) +:+ ", Remaining: " +:+
              str_of_Z (Z.max 0 (limit_remaining status)) +:+ ". Limit resets at: " +:+ reset)
             (str_of_Z window_size) (rate_limit_type status) reset
  end.

(** All descriptors of a request. *)
Definition descriptors_of (get_agent : pyval → option Agent) (llm_router : option Router) (u : KeyLimits) (data : dict)
    : res (list RateLimitDescriptor) :=
  let rpm_limit_type := default PNone (dget "rpm_limit_type" (key_metadata u)) in
  let tpm_limit_type := default PNone (dget "tpm_limit_type" (key_metadata u)) in
  let m := requested_model data in
  let model_has_failures :=
    match m with
    | Some s => _is_dynamic_rate_limiting_enabled rpm_limit_type tpm_limit_type && negb (String.eqb s "")
                && _check_model_has_recent_failures llm_router s
    | None => false
    end in
  descriptors ← _create_rate_limit_descriptors get_agent u data rpm_limit_type tpm_limit_type model_has_failures;
  per_team ← _add_team_model_rate_limit_descriptor_from_metadata u m;
  organization ← create_organization_rate_limit_descriptor u m;
  Ok (descriptors ++ per_team ++ organization).

(** [batch_limiter]: the hook of [get_rate_limiter_for_call_type], for batches. *)
Definition async_pre_call_hook (get_agent : pyval → option Agent) (llm_router : option Router) (strftime : Z → string)
    (batch_limiter : option (M cache verdict)) (now : Z) (u : KeyLimits) (data : dict) (call_type : string) : M cache verdict :=
  match String.eqb call_type "acreate_batch", batch_limiter with
  | true, Some hook => hook
  | _, _ =>
      descriptors ← m_lift (descriptors_of get_agent llm_router u data);
      match descriptors with
      | [] => mret (Admit None)
      | _ =>
          response ← should_rate_limit window_size now descriptors false;
          mret (if overall_over response then _handle_rate_limit_error strftime now response descriptors
                else Admit (Some response))
      end
  end.

(** ** After a call *)

(** A [Usage], or the dict of the Responses API. *)
Inductive usage : Type :=
| UsageObject (u : CostCalc.Usage)
| UsageDict (d : dict).

(** [d.get(k, 0) or 0], a number. *)
Definition count_in (k : string) (d : dict) : Z := default 0 (as_int (py_or (default (PInt 0) (dget k d)) (PInt 0))).

Definition _get_total_tokens_from_usage (u : option usage) (rate_limit_type : string) : Z :=
  let cached_counts := String.eqb rate_limit_type "input" || String.eqb rate_limit_type "total" in
  let '(total, cached) :=
    match u with
    | None | Some (UsageDict []) => (0, 0)
    | Some (UsageObject x) =>
        (if String.eqb rate_limit_type "output" then CostCalc.completion_tokens x
         else if String.eqb rate_limit_type "input" then CostCalc.prompt_tokens x
         else if String.eqb rate_limit_type "total" then CostCalc.total_tokens x else 0,
         if cached_counts then
           match CostCalc.prompt_tokens_details x with Some p => default 0 (CostCalc.cached_tokens p) | None => 0 end
         else 0)
    | Some (UsageDict d) =>
        (if String.eqb rate_limit_type "output" then count_in "completion_tokens" d
         else if String.eqb rate_limit_type "input" then count_in "prompt_tokens" d
         else if String.eqb rate_limit_type "total" then count_in "total_tokens" d else 0,
         if cached_counts then
           match py_or (default PNone (dget "prompt_tokens_details" d)) (PDict []) with
           | PDict p => count_in "cached_tokens" p
           | _ => 0
           end
         else 0)
    end in
  if 0 <? cached then Z.max 0 (total - cached) else total.

Definition get_rate_limit_type (general_settings : dict) : string :=
  match default (PStr "total") (dget "token_rate_limit_type" general_settings) with
  | PStr s => if existsb (String.eqb s) ["output"; "input"; "total"] then s else "total"
  | _ => "total"
  end.

Definition get_model_group_from_litellm_kwargs (kwargs : dict) : res pyval :=
  let name := if dmem "litellm_metadata" kwargs then "litellm_metadata" else "metadata" in
  md ← py_get (sub_dict "litellm_params" kwargs) name;
  py_get (py_or md (PDict [])) "model_group".

(** The metadata of the standard logging object. *)
Definition logging_metadata (kwargs : dict) : res pyval :=
  md ← py_get (sub_dict "standard_logging_object" kwargs) "metadata"; Ok (py_or md (PDict [])).

Definition parallel_done (user_api_key : pyval) : increment_op :=
  (create_rate_limit_keys "api_key" (py_str user_api_key) "max_parallel_requests", -1, window_size).

(** [if a and b: ...] over the ids of an operation. *)
Definition when (ids : list pyval) (key value : string) (total_tokens : Z) : list increment_op :=
  if forallb truthy ids then _create_pipeline_operations window_size key value total_tokens else [].

Definition pair_id (a b : pyval) : string := py_str a +:+ ":" +:+ py_str b.

(** The operations of a call: the parallel request of the key ends, and the tokens count. *)
Definition success_operations (kwargs : dict) (total_tokens : Z) : res (list increment_op) :=
  md ← logging_metadata kwargs;
  user_api_key ← py_get md "user_api_key_hash";
  user_id ← py_get md "user_api_key_user_id";
  team_id ← py_get md "user_api_key_team_id";
  org_id ← py_get md "user_api_key_org_id";
  logged_end_user ← py_get md "user_api_key_end_user_id";
  let end_user_id := py_or (default PNone (dget "user" kwargs)) logged_end_user in
  model_group ← get_model_group_from_litellm_kwargs kwargs;
  agent_id ← py_get md "agent_id";
  session ← py_get md "session_id";
  trace ← py_get md "trace_id";
  let session_id := py_or session trace in
  Ok ((if truthy user_api_key then [parallel_done user_api_key] else []) ++
      when [user_api_key] "api_key" (py_str user_api_key) total_tokens ++
      when [user_id] "user" (py_str user_id) total_tokens ++
      when [team_id] "team" (py_str team_id) total_tokens ++
      when [team_id; user_id] "team_member" (pair_id team_id user_id) total_tokens ++
      when [end_user_id] "end_user" (py_str end_user_id) total_tokens ++
      when [model_group; user_api_key] "model_per_key" (pair_id user_api_key model_group) total_tokens ++
      when [model_group; team_id] "model_per_team" (pair_id team_id model_group) total_tokens ++
      when [model_group; org_id] "model_per_organization" (pair_id org_id model_group) total_tokens ++
      when [agent_id] "agent" (py_str agent_id) total_tokens ++
      when [agent_id; session_id] "agent_session" (pair_id agent_id session_id) total_tokens).

(** [u]: the usage of a response that has one.  Errors are logged. *)
Definition async_log_success_event (now : Z) (general_settings kwargs : dict) (u : option usage) : M cache unit :=
  m_try
    (ops ← m_lift (success_operations kwargs (_get_total_tokens_from_usage u (get_rate_limit_type general_settings)));
     async_increment_tokens_with_ttl_preservation now ops)
    (λ _, mret ()).

(** A failed call ends its parallel request, through the pipeline of the dual cache. *)
Definition async_log_failure_event (now : Z) (kwargs : dict) : M cache unit :=
  m_try
    (md ← m_lift (logging_metadata kwargs);
     user_api_key ← m_lift (py_get md "user_api_key_hash");
     if truthy user_api_key then regular_pipeline now [parallel_done user_api_key] else mret ())
    (λ _, mret ()).

(** The headers of a response. *)
Definition rate_limit_headers (headers : dict) (response : RateLimitResponse) : dict :=
  foldl (λ h st,
    let prefix := "x-ratelimit-" +:+ status_descriptor_key st in
    dset (prefix +:+ "-limit-" +:+ rate_limit_type st) (PInt (current_limit st))
      (dset (prefix +:+ "-remaining-" +:+ rate_limit_type st) (PInt (limit_remaining st)) h))
    headers (statuses response).

Definition async_post_call_success_hook (data_response : option RateLimitResponse) (hidden_params : pyval) : pyval :=
  match data_response, hidden_params with
  | Some response, PDict hp =>
      match py_or (default (PDict []) (dget "additional_headers" hp)) (PDict []) with
      | PDict h => PDict (dset "additional_headers" (PDict (rate_limit_headers h response)) hp)
      | _ => hidden_params
      end
  | _, _ => hidden_params
  end.
End ops.

(** ** Theorems *)

Section facts.
Context `{JsonInts} {R : Type} `{RedisCacheI R} `{RateScripts R}.
Context (window_size : Z) (get_agent : pyval → option Agent) (llm_router : option Router) (strftime : Z → string).
Implicit Types c : DualCache.t R.

Lemma over_exists keys vs meta r : is_cache_list_over_limit keys vs meta = Ok r → overall_over r = existsb over (statuses r).
Proof.
  revert keys r. induction vs as [[|v [|v' vs]] IH] using (induction_ltof1 _ (@length pyval)); intros keys r; unfold ltof in IH.
  - destruct keys; by intros [= <-].
  - destruct keys as [|? [|? ?]]; done.
  - destruct keys as [|w [|x keys]]; try done. cbn [is_cache_list_over_limit]. unfold mbind, res_bind.
    destruct (judge w x v' meta) as [st|]; [|done]. destruct (is_cache_list_over_limit keys vs meta) as [r'|] eqn:E; [|done].
    apply IH in E; [|cbn; lia]. intros [= <-]. destruct st as [st|]; [|done]. cbn. by rewrite E.
Qed.

Lemma response_over now ds ro c r c' :
  should_rate_limit window_size now ds ro c = (Ok r, c') → overall_over r = existsb over (statuses r).
Proof.
  unfold should_rate_limit. intros ([keys meta] & c1 & E1 & K1)%m_bind_ok.
  apply m_bind_ok in K1 as (vs & c2 & E2 & K2). apply m_bind_ok in K2 as (local & c3 & E3 & K3).
  destruct (overall_over local) eqn:Eo.
  - injection K3 as <- <-. injection E3 as E3 _. destruct vs as [vs|]; [by eapply over_exists|injection E3 as <-; done].
  - apply m_bind_ok in K3 as (? & c4 & _ & K4). apply m_bind_ok in K4 as (vs' & c5 & _ & K5). injection K5 as K5 _. by eapply over_exists.
Qed.

(** A call is admitted only when every limit it was checked against has room, and a
    refusal names a limit that is exceeded: no response over a limit slips through. *)
Theorem hook_sound batch now u data call_type c v c'
    (Hcall : call_type ≠ "acreate_batch")
    (Hrun : async_pre_call_hook window_size get_agent llm_router strftime batch now u data call_type c = (Ok v, c')) :
  ∃ ds, descriptors_of window_size get_agent llm_router u data = Ok ds ∧
    match v with
    | Admit None => ds = []
    | Admit (Some r) => Forall (λ st, over st = false) (statuses r)
    | Refuse _ _ ty _ => ∃ r st c1, should_rate_limit window_size now ds false c = (Ok r, c1) ∧ st ∈ statuses r ∧ over st = true ∧ ty = rate_limit_type st
    end.
Proof.
  unfold async_pre_call_hook in Hrun. apply String.eqb_neq in Hcall. rewrite Hcall in Hrun.
  apply m_bind_ok in Hrun as (ds & c1 & E1 & Hrun). injection E1 as E1 <-. exists ds. split; [done|].
  destruct ds as [|d ds]; [by injection Hrun as <- _|]. apply m_bind_ok in Hrun as (r & c2 & E2 & Hrun).
  injection Hrun as <- <-. pose proof (response_over _ _ _ _ _ _ E2) as Ho. destruct (overall_over r) eqn:Er.
  - unfold _handle_rate_limit_error. destruct (List.find over (statuses r)) as [st|] eqn:Ef.
    + apply List.find_some in Ef as [Hin Hov]. exists r, st, c2. split_and!; [done|by apply list_elem_of_In|done|done].
    + exfalso. symmetry in Ho. apply existsb_exists in Ho as (st & Hin & Hov).
      by rewrite (List.find_none _ _ Ef st Hin) in Hov.
  - apply Forall_forall. intros st Hin. apply not_true_iff_false. intros Hov.
    assert (existsb over (statuses r) = true) by (apply existsb_exists; exists st; split; [by apply list_elem_of_In|done]). congruence.
Qed.

(** *** The key's request limit *)

(** A key that only has a request limit. *)
Definition rpm_key (a : string) (n : Z) : KeyLimits :=
  mkKey (Some a) (Some n) None None None None None None None None None None None None None None None None [] [] None None None.

(** A call without metadata. *)
Definition plain (data : dict) : Prop := dget "metadata" data = None.

Lemma rpm_key_descriptors a n data :
  a ≠ "" → plain data → descriptors_of window_size get_agent llm_router (rpm_key a n) data = Ok [Local.rpm_only window_size "api_key" a n].
Proof.
  intros Ha Hd. unfold descriptors_of. cbn [key_metadata rpm_key dget default].
  assert (_is_dynamic_rate_limiting_enabled PNone PNone = false) as Hdyn by done.
  set (f := match requested_model data with Some _ => _ | None => _ end).
  assert (_create_rate_limit_descriptors window_size get_agent (rpm_key a n) data PNone PNone f = Ok [Local.rpm_only window_size "api_key" a n]) as ->.
  { unfold _create_rate_limit_descriptors, key_limits, given. cbn [rpm_key api_key]. apply String.eqb_neq in Ha. rewrite Ha.
    unfold _get_resolved_agent_id, sub_dict. cbn [agent_id rpm_key]. rewrite Hd.
    assert (_add_model_per_key_rate_limit_descriptor window_size (rpm_key a n) (requested_model data) = Ok []) as ->; [|done].
    unfold _add_model_per_key_rate_limit_descriptor. destruct (requested_model data) as [s|]; [|done]. by destruct (String.eqb s ""). }
  done.
Qed.

Lemma m_map_post {S A B B'} (f : A → M S B) (g : A → M S B') (h : A → B → B') l s ys :
  (∀ x s, x ∈ l → g x s = match f x s with (Ok b, s') => (Ok (h x b), s') | (Raise e, s') => (Raise e, s') end) →
  (m_map f l s).1 = Ok ys → (m_map g l s).1 = Ok (zip_with h l ys).
Proof.
  revert s ys. induction l as [|x l IH]; intros s ys Hg; cbn [m_map].
  { intros [= <-]. done. }
  unfold mbind, M_bind. rewrite Hg by left. destruct (f x s) as [[b|e] s1]; [|done]. specialize (IH s1).
  destruct (m_map f l s1) as [[bs|] s2]; cbn; [|done]. intros [= <-]. specialize (IH bs (λ y t Hy, Hg y t (list_elem_of_further _ _ _ Hy)) eq_refl).
  destruct (m_map g l s1) as [r s3]. cbn in IH. by subst r.
Qed.

Lemma m_map_fmap {S A A' B} (f : A → M S B) (g : A' → A) l s : m_map f (g <$> l) s = m_map (λ x, f (g x)) l s.
Proof.
  revert s. induction l as [|x l IH]; intros s; [done|]. cbn [fmap list_fmap m_map]. unfold mbind, M_bind.
  destruct (f (g x) s) as [[b|] s']; [|done]. cbn in IH. by rewrite IH.
Qed.

Lemma zip_with_imap {A B C} (h : A → B → C) (f : nat → A → B) l : zip_with h l (imap f l) = imap (λ i x, h x (f i x)) l.
Proof. revert f. induction l as [|x l IH]; intros f; [done|]. cbn. f_equal. apply IH. Qed.

(** The verdict on call number [i] at [now]. *)
Definition rpm_verdict (a : string) (n : Z) (i : nat) (now : Z) : verdict :=
  if Z.of_nat i <? n then Admit (Some (Local.rpm_response "api_key" n i))
  else Refuse ("Rate limit exceeded for api_key: " +:+ a +:+ ". Limit type: requests. Current limit: " +:+ str_of_Z n +:+
               ", Remaining: 0. Limit resets at: " +:+ strftime (now + seconds window_size))
         (str_of_Z window_size) "requests" (strftime (now + seconds window_size)).

(** C18: Without Redis, starting from a cache in which no counter is live and that has
    room for those of the key: a key whose only limit is [n] requests, called without
    metadata and with no other key calling, has exactly its first [n] calls of a window
    admitted, each told what remains, and every later one refused with the error 429
    that names the key, the limit and the time it resets. *)
Theorem key_limit_enforced (lo dl : Z) (k : Z * Z * Z) (U : gset string) batch a n calls c
    (Hs : Local.span window_size lo dl k U) (Hn : 0 ≤ n) (Ha : a ≠ "") (Hc : Local.idle dl k U c)
    (Ht : Forall (λ q : Z * dict, lo ≤ q.1 ≤ dl ∧ plain q.2) calls)
    (Hw : tag "api_key" a +:+ ":window" ∈ U) (Hx : create_rate_limit_keys "api_key" a "requests" ∈ U) :
  (m_map (λ q : Z * dict, async_pre_call_hook window_size get_agent llm_router strftime batch q.1 (rpm_key a n) q.2 "acompletion") calls c).1 =
    Ok (imap (λ i q, rpm_verdict a n i q.1) calls).
Proof.
  set (ds := [Local.rpm_only window_size "api_key" a n]).
  rewrite (m_map_post (λ q, should_rate_limit window_size q.1 ds false) _
    (λ q r, if overall_over r then _handle_rate_limit_error window_size strftime q.1 r ds else Admit (Some r))
    calls c (imap (λ i _, Local.rpm_response "api_key" n i) calls)).
  - f_equal. rewrite zip_with_imap. apply imap_ext. intros i [now data] _. unfold rpm_verdict, Local.rpm_response, _handle_rate_limit_error.
    cbn [fst overall_over statuses List.find over status_descriptor_key rate_limit_type current_limit limit_remaining].
    destruct (Z.leb_spec n (Z.of_nat i)), (Z.ltb_spec (Z.of_nat i) n); try lia; [|done].
    cbn [status_descriptor_key rate_limit_type current_limit limit_remaining].
    replace (Z.max 0 (n - Z.min (Z.of_nat i + 1) (n + 1))) with 0 by lia. reflexivity.
  - intros [now data] s Hin. rewrite Forall_forall in Ht. destruct (Ht _ Hin) as [_ Hpl]. unfold async_pre_call_hook. cbn [fst snd].
    change (String.eqb "acompletion" "acreate_batch") with false. unfold m_lift, mbind, M_bind. rewrite (rpm_key_descriptors a n data Ha Hpl).
    by destruct (should_rate_limit _ _ _ _ s) as [[r|] s'].
  - pose proof (Local.rpm_only_serve window_size lo dl k U "api_key" a n calls.*1 c Hs Hn Hc) as Hserve.
    rewrite Forall_fmap in Hserve. unfold Local.serve in Hserve. rewrite !m_map_fmap, imap_fmap in Hserve.
    apply Hserve; [|done|done]. eapply Forall_impl; [exact Ht|]. by intros q [? _].
Qed.

(** *** Which counters a call has *)

(** The key and value of a descriptor of a request. *)
Inductive origin (u : KeyLimits) (data : dict) : string → string → Prop :=
| from_key a : api_key u = Some a → a ≠ "" → origin u data "api_key" a
| from_user i : user_id u = Some i → i ≠ "" → origin u data "user" i
| from_team t : team_id u = Some t → t ≠ "" → origin u data "team" t
| from_member i : user_id u = Some i → i ≠ "" → origin u data "team_member" (shown (team_id u) +:+ ":" +:+ i)
| from_end_user e : end_user_id u = Some e → e ≠ "" → origin u data "end_user" e
| from_key_model m : requested_model data = Some m → origin u data "model_per_key" (shown (api_key u) +:+ ":" +:+ m)
| from_team_model m : requested_model data = Some m → origin u data "model_per_team" (shown (team_id u) +:+ ":" +:+ m)
| from_org o : org_id u = Some o → origin u data "organization" o
| from_org_model m : requested_model data = Some m → origin u data "model_per_organization" (shown (org_id u) +:+ ":" +:+ m)
| from_agent a : _get_resolved_agent_id u data = Ok a → truthy a = true → origin u data "agent" (py_str a)
| from_session a s : _get_resolved_agent_id u data = Ok a → truthy a = true → _get_session_id_from_data data = Ok (Some s) →
    origin u data "agent_session" (py_str a +:+ ":" +:+ s).

Lemma given_some o : given o = true → ∃ s, o = Some s ∧ s ≠ "".
Proof. destruct o as [s|]; [|done]. cbn. intros Hs. exists s. split; [done|]. by destruct (String.eqb_spec s ""). Qed.

Lemma owner_origin key id v rpm tpm d :
  d ∈ owner_limits window_size key id v rpm tpm → given id = true ∧ RateLimiter.key d = key ∧ value d = v.
Proof.
  unfold owner_limits. destruct (given id && (has rpm || has tpm)) eqn:E; [|by intros ?%not_elem_of_nil].
  intros ->%list_elem_of_singleton. by apply andb_true_iff in E as [-> _].
Qed.

Lemma model_limits_origin k o m rpm tpm ds d :
  model_limits window_size k o m rpm tpm = Ok ds → d ∈ ds → ∃ s, m = Some s ∧ key d = k ∧ value d = o +:+ ":" +:+ s.
Proof.
  unfold model_limits. destruct (is_none rpm && is_none tpm); [intros [= <-] []%not_elem_of_nil|]. unfold mbind, res_bind.
  destruct (contains m (py_or tpm (PDict []))) as [b|] eqn:Et; [|done].
  destruct (if b then Ok true else contains m (py_or rpm (PDict []))) as [b'|] eqn:Er; [|done].
  destruct b'; [|intros [= <-] []%not_elem_of_nil].
  destruct (limit_in m (py_or tpm (PDict []))) as [t|] eqn:E1; [|done]. destruct (limit_in m (py_or rpm (PDict []))) as [r|] eqn:E2; [|done].
  intros [= <-] ->%list_elem_of_singleton. destruct m as [s|]; [by exists s|]. exfalso.
  unfold limit_in, mbind, res_bind in E1, E2. rewrite Et in E1. destruct b; [done|]. by rewrite Er in E2.
Qed.

Lemma key_model_origin u m ds d :
  _add_model_per_key_rate_limit_descriptor window_size u m = Ok ds → d ∈ ds →
  ∃ s, m = Some s ∧ key d = "model_per_key" ∧ value d = shown (api_key u) +:+ ":" +:+ s.
Proof.
  unfold _add_model_per_key_rate_limit_descriptor. destruct m as [s|]; [|intros [= <-] []%not_elem_of_nil]. cbn zeta.
  destruct (String.eqb s ""); [intros [= <-] []%not_elem_of_nil|].
  destruct (is_none _ && is_none _); [intros [= <-] []%not_elem_of_nil|]. unfold mbind, res_bind.
  destruct (contains _ _) as [b|]; [|done]. destruct (if b then _ else _) as [[]|]; [|intros [= <-] []%not_elem_of_nil|done].
  destruct (py_get _ s); [|done]. destruct (py_get _ s); [|done]. intros [= <-] ->%list_elem_of_singleton. by exists s.
Qed.

Lemma team_model_origin u m ds d :
  _add_team_model_rate_limit_descriptor_from_metadata window_size u m = Ok ds → d ∈ ds →
  ∃ s, m = Some s ∧ key d = "model_per_team" ∧ value d = shown (team_id u) +:+ ":" +:+ s.
Proof.
  unfold _add_team_model_rate_limit_descriptor_from_metadata. cbn zeta.
  destruct (is_none _ && is_none _); [intros [= <-] []%not_elem_of_nil|]. unfold mbind, res_bind.
  destruct (contains _ _) as [b|]; [|done].
  destruct (if b then _ else _) as [[]|]; [|intros [= <-] []%not_elem_of_nil|done]. destruct m as [s|]; [|intros [= <-] []%not_elem_of_nil].
  destruct (py_get _ s); [|done]. destruct (py_get _ s); [|done]. intros [= <-] ->%list_elem_of_singleton. by exists s.
Qed.

Lemma agent_origin u a data ds d :
  _get_resolved_agent_id u data = Ok a → truthy a = true →
  _create_agent_rate_limit_descriptors window_size get_agent a data = Ok ds → d ∈ ds → origin u data (key d) (value d).
Proof.
  intros Ha Ht. unfold _create_agent_rate_limit_descriptors. destruct (get_agent a) as [ag|]; [|intros [= <-] []%not_elem_of_nil].
  unfold mbind, res_bind. destruct (if has (session_rpm_limit ag) || _ then _ else _) as [l|] eqn:Es; [|done].
  intros [= <-] [Hd|Hd]%elem_of_app.
  - destruct (has (agent_rpm_limit ag) || _); [|by apply not_elem_of_nil in Hd]. apply list_elem_of_singleton in Hd as ->. by apply from_agent.
  - destruct (has (session_rpm_limit ag) || _); [|injection Es as <-; by apply not_elem_of_nil in Hd].
    destruct (_get_session_id_from_data data) as [[s|]|] eqn:Ess; [..|done]; injection Es as <-; [|by apply not_elem_of_nil in Hd].
    apply list_elem_of_singleton in Hd as ->. by apply from_session.
Qed.

Lemma descriptors_origin u data ds d :
  descriptors_of window_size get_agent llm_router u data = Ok ds → d ∈ ds → origin u data (key d) (value d).
Proof.
  unfold descriptors_of. set (f := match requested_model data with Some _ => _ | None => _ end). unfold mbind, res_bind.
  destruct (_create_rate_limit_descriptors _ _ _ _ _ _ f) as [l1|] eqn:E1; [|done].
  destruct (_add_team_model_rate_limit_descriptor_from_metadata window_size u (requested_model data)) as [l2|] eqn:E2; [|done].
  destruct (create_organization_rate_limit_descriptor window_size u (requested_model data)) as [l3|] eqn:E3; [|done].
  intros [= <-] [Hd|[Hd|Hd]%elem_of_app]%elem_of_app.
  - clear E2 E3. unfold _create_rate_limit_descriptors, mbind, res_bind in E1.
    destruct (_add_model_per_key_rate_limit_descriptor window_size u (requested_model data)) as [pk|] eqn:Ek; [|done].
    destruct (model_limits window_size "model_per_team" _ _ _ _) as [pt|] eqn:Et; [|done].
    destruct (_get_resolved_agent_id u data) as [a|] eqn:Ea; [|done].
    destruct (if truthy a then _ else _) as [ag|] eqn:Eg; [|done]. injection E1 as <-.
    rewrite !elem_of_app in Hd. destruct Hd as [[Hd|[Hd|[Hd|[Hd|Hd]]]]|[Hd|[Hd|Hd]]].
    + unfold key_limits in Hd. destruct (given (api_key u) && _) eqn:Eu; [|by apply not_elem_of_nil in Hd].
      apply andb_true_iff in Eu as [(s & Es & Hs)%given_some _]. apply list_elem_of_singleton in Hd as ->. rewrite Es. by apply from_key.
    + apply owner_origin in Hd as ((s & Es & Hs)%given_some & -> & ->). rewrite Es. by apply from_user.
    + apply owner_origin in Hd as ((s & Es & Hs)%given_some & -> & ->). rewrite Es. by apply from_team.
    + apply owner_origin in Hd as ((s & Es & Hs)%given_some & -> & ->). rewrite Es. by apply from_member.
    + apply owner_origin in Hd as ((s & Es & Hs)%given_some & -> & ->). rewrite Es. by apply from_end_user.
    + apply (key_model_origin _ _ _ _ Ek) in Hd as (s & Es & -> & ->). by apply from_key_model.
    + apply (model_limits_origin _ _ _ _ _ _ _ Et) in Hd as (s & Es & -> & ->). by apply from_team_model.
    + destruct (truthy a) eqn:Eta; [by eapply agent_origin|]. injection Eg as <-. by apply not_elem_of_nil in Hd.
  - apply (team_model_origin _ _ _ _ E2) in Hd as (s & Es & -> & ->). by apply from_team_model.
  - unfold create_organization_rate_limit_descriptor, mbind, res_bind in E3.
    destruct (model_limits window_size "model_per_organization" _ _ _ _) as [po|] eqn:Eo; [|done]. injection E3 as <-.
    apply elem_of_app in Hd as [Hd|Hd].
    + destruct (org_id u) as [o|] eqn:Eorg; [|by apply not_elem_of_nil in Hd]. destruct (_ || _); [|by apply not_elem_of_nil in Hd].
      apply list_elem_of_singleton in Hd as ->. by apply from_org.
    + apply (model_limits_origin _ _ _ _ _ _ _ Eo) in Hd as (s & Es & -> & ->). by apply from_org_model.
Qed.

(** *** What is counted after a call *)

Definition opt_str (o : option string) : pyval := match o with Some s => PStr s | None => PNone end.

(** The log of a call names the same owners, model, agent and session as its check. *)
Record logged (u : KeyLimits) (data kwargs md : dict) : Prop := {
  lg_md : logging_metadata kwargs = Ok (PDict md);
  lg_key : default PNone (dget "user_api_key_hash" md) = opt_str (api_key u);
  lg_user : default PNone (dget "user_api_key_user_id" md) = opt_str (user_id u);
  lg_team : default PNone (dget "user_api_key_team_id" md) = opt_str (team_id u);
  lg_org : default PNone (dget "user_api_key_org_id" md) = opt_str (org_id u);
  lg_end_user : py_or (default PNone (dget "user" kwargs)) (default PNone (dget "user_api_key_end_user_id" md)) = opt_str (end_user_id u);
  lg_model : get_model_group_from_litellm_kwargs kwargs = Ok (opt_str (requested_model data));
  lg_agent : _get_resolved_agent_id u data = Ok (default PNone (dget "agent_id" md));
  lg_session s : _get_session_id_from_data data = Ok (Some s) →
    s ≠ "" ∧ py_or (default PNone (dget "session_id" md)) (default PNone (dget "trace_id" md)) = PStr s
}.

(** The ids a descriptor is named by are there. *)
Definition named (u : KeyLimits) (data : dict) (k : string) : Prop :=
  (k = "model_per_key" → given (api_key u) = true) ∧
  (k = "team_member" ∨ k = "model_per_team" → given (team_id u) = true) ∧
  (k = "model_per_organization" → given (org_id u) = true) ∧
  (k = "model_per_key" ∨ k = "model_per_team" ∨ k = "model_per_organization" → given (requested_model data) = true).

Lemma truthy_given o : given o = true → truthy (opt_str o) = true ∧ py_str (opt_str o) = shown o.
Proof. destruct o as [s|]; [|done]. cbn. by destruct (String.eqb s ""). Qed.

Lemma given_ne s : s ≠ "" → given (Some s) = true.
Proof. intros Hs. cbn. by destruct (String.eqb_spec s ""). Qed.

Lemma when_in ids k v v' tot :
  forallb truthy ids = true → v = v' → (create_rate_limit_keys k v' "tokens", tot, window_size) ∈ when window_size ids k v tot.
Proof. intros E ->. unfold when. rewrite E. by left. Qed.

Lemma pair_given o o' ids k tot :
  given o = true → given o' = true → forallb truthy ids = true →
  (create_rate_limit_keys k (shown o +:+ ":" +:+ shown o') "tokens", tot, window_size) ∈ when window_size ids k (pair_id (opt_str o) (opt_str o')) tot.
Proof.
  intros Ho Ho' Hi. apply when_in; [done|]. unfold pair_id.
  by rewrite (proj2 (truthy_given o Ho)), (proj2 (truthy_given o' Ho')).
Qed.

(** Finds the operation of a key in the list. *)
Ltac counted := rewrite !elem_of_app; repeat first [left; (apply pair_given || apply when_in) | apply pair_given | apply when_in | right].

Ltac all_given := cbn [forallb]; repeat match goal with G : given ?o = true |- context [truthy (opt_str ?o)] => rewrite (proj1 (truthy_given o G)) end; done.

(** C19: The tokens of a call are counted, in full, for every descriptor it was checked against but that of the organization. *)
Theorem tokens_counted u data kwargs md tot ds d
    (Hlog : logged u data kwargs md)
    (Hds : descriptors_of window_size get_agent llm_router u data = Ok ds) (Hd : d ∈ ds)
    (Hname : named u data (key d)) (Horg : key d ≠ "organization") :
  ∃ ops, success_operations window_size kwargs tot = Ok ops ∧
    (create_rate_limit_keys (key d) (value d) "tokens", tot, window_size) ∈ ops.
Proof.
  destruct Hlog as [Hmd Hk Hu Ht Ho He Hm Ha Hs]. unfold success_operations, mbind, res_bind. rewrite Hmd, Hm. cbn [py_get].
  rewrite Hk, Hu, Ht, Ho, He. eexists. split; [done|].
  destruct (descriptors_origin u data ds d Hds Hd) as [a Ea Hne|i Ei Hne|t Et Hne|i Ei Hne|e Ee Hne|m Em|m Em|o Eo|m Em|a Ea Hta|a s Ea Hta Es];
    destruct Hname as (Hnk & Hnt & Hno & Hnm);
    repeat match goal with
           | E : _ = Some ?s, N : ?s ≠ "" |- _ => apply given_ne in N; rewrite <-E in N
           end.
  - counted; [all_given|by rewrite Ea].
  - counted; [all_given|by rewrite Ei].
  - counted; [all_given|by rewrite Et].
  - specialize (Hnt (or_introl eq_refl)). replace i with (shown (user_id u)) by (by rewrite Ei). counted; [done..|all_given].
  - counted; [all_given|by rewrite Ee].
  - specialize (Hnk eq_refl). specialize (Hnm (or_introl eq_refl)). replace m with (shown (requested_model data)) by (by rewrite Em).
    counted; [done..|all_given].
  - specialize (Hnt (or_intror eq_refl)). specialize (Hnm (or_intror (or_introl eq_refl))).
    replace m with (shown (requested_model data)) by (by rewrite Em). counted; [done..|all_given].
  - done.
  - specialize (Hno eq_refl). specialize (Hnm (or_intror (or_intror eq_refl))).
    replace m with (shown (requested_model data)) by (by rewrite Em). counted; [done..|all_given].
  - rewrite Ha in Ea. injection Ea as Ea. counted; [cbn [forallb]; by rewrite Ea, Hta|by rewrite Ea].
  - rewrite Ha in Ea. injection Ea as Ea. destruct (Hs s Es) as [Hne Hss]. counted; [cbn [forallb]; rewrite Ea, Hta, Hss; cbn; by destruct (String.eqb_spec s "")|].
    unfold pair_id. by rewrite Hss, Ea.
Qed.

(** The keys of what is counted after a call. *)
Lemma success_keys kwargs tot ops op :
  success_operations window_size kwargs tot = Ok ops → op ∈ ops →
  ∃ k v ty, op.1.1 = create_rate_limit_keys k v ty ∧ (ty = "tokens" ∨ ty = "max_parallel_requests") ∧
    k ∈ ["api_key"; "user"; "team"; "team_member"; "end_user"; "model_per_key"; "model_per_team"; "model_per_organization"; "agent"; "agent_session"].
Proof.
  assert (∀ ids k v, op ∈ when window_size ids k v tot → op.1.1 = create_rate_limit_keys k v "tokens") as Hw.
  { intros ids k v. unfold when. destruct (forallb truthy ids); [|by intros ?%not_elem_of_nil]. by intros ->%list_elem_of_singleton. }
  unfold success_operations, mbind, res_bind. destruct (logging_metadata kwargs) as [md|]; [|done].
  repeat (destruct (py_get md _); [|done]). destruct (get_model_group_from_litellm_kwargs kwargs); [|done].
  repeat (destruct (py_get md _); [|done]). intros [= <-]. rewrite !elem_of_app.
  intros Hop. destruct_or! Hop; [|apply Hw in Hop; rewrite Hop; eexists _, _, _; (split; [done|]; split; [by left|set_solver])..].
  destruct (truthy _); [|by apply not_elem_of_nil in Hop]. apply list_elem_of_singleton in Hop as ->.
  eexists _, _, _. split; [done|]. split; [by right|set_solver].
Qed.

(** The tokens counter of an organization, which [should_rate_limit] compares with
    [organization_tpm_limit], is never given the tokens of a call. *)
Theorem organization_tokens_uncounted kwargs tot ops o :
  success_operations window_size kwargs tot = Ok ops → create_rate_limit_keys "organization" o "tokens" ∉ (λ op : increment_op, op.1.1) <$> ops.
Proof.
  intros E (op & Ek & Hin)%list_elem_of_fmap. destruct (success_keys _ _ _ _ E Hin) as (k & v & ty & Eop & _ & Hk).
  rewrite Eop in Ek.
  assert (∀ k v ty, startswith (create_rate_limit_keys k v ty) ("{" +:+ k +:+ ":") = true) as Hst.
  { intros k' v' ty'. unfold create_rate_limit_keys, tag. rewrite !str_app_assoc. apply startswith_iff. eexists. by rewrite !str_app_assoc. }
  pose proof (Hst "organization" o "tokens") as Hs. rewrite Ek in Hs. pose proof (Hst k v ty) as Hs'.
  erewrite startswith_excl in Hs; [done|exact Hs'|..]; set_unfold in Hk; naive_solver.
Qed.

(** What is counted after a call leaves the request counters alone. *)
Lemma success_leaves_requests kwargs tot ops k v :
  success_operations window_size kwargs tot = Ok ops → create_rate_limit_keys k v "requests" ∉ (λ op : increment_op, op.1.1) <$> ops.
Proof.
  intros E (op & Ek & Hin)%list_elem_of_fmap. destruct (success_keys _ _ _ _ E Hin) as (k' & v' & ty & Eop & Hty & _).
  rewrite Eop in Ek. apply Abstract.counter_tag in Ek as [<- _]; [naive_solver|set_solver|destruct Hty as [->| ->]; set_solver].
Qed.

Lemma dget_self m (r : pyval) : dget m [(m, r)] = Some r.
Proof. cbn [dget]. by rewrite String.eqb_refl. Qed.

Lemma model_limits_single k o m r :
  model_limits window_size k o (Some m) (PDict [(m, r)]) PNone = Ok [descriptor window_size k (o +:+ ":" +:+ m) r PNone PNone].
Proof.
  unfold model_limits, limit_in, py_or. cbn [is_none andb truthy contains py_index]. unfold mbind, res_bind, dmem.
  by rewrite dget_self.
Qed.

Lemma team_model_single u m r :
  get_team_model_rpm_limit u = PDict [(m, r)] → get_team_model_tpm_limit u = PNone →
  _add_team_model_rate_limit_descriptor_from_metadata window_size u (Some m) =
    Ok [descriptor window_size "model_per_team" (shown (team_id u) +:+ ":" +:+ m) r PNone PNone].
Proof.
  intros Hr Ht. unfold _add_team_model_rate_limit_descriptor_from_metadata, get_model_rate_limit_from_metadata.
  fold (get_team_model_rpm_limit u) (get_team_model_tpm_limit u). rewrite Hr, Ht.
  unfold py_or. cbn [is_none andb truthy contains py_get]. unfold mbind, res_bind, dmem. by rewrite dget_self.
Qed.

(** The limit of a model under a team is added by two functions: every request counts
    twice against it. *)
Theorem team_model_listed_twice u data m r ds
    (Hm : requested_model data = Some m)
    (Hrpm : get_team_model_rpm_limit u = PDict [(m, r)]) (Htpm : get_team_model_tpm_limit u = PNone)
    (Hds : descriptors_of window_size get_agent llm_router u data = Ok ds) :
  ∃ l1 l2 l3, let d := descriptor window_size "model_per_team" (shown (team_id u) +:+ ":" +:+ m) r PNone PNone in
    ds = l1 ++ d :: l2 ++ d :: l3.
Proof.
  revert Hds. unfold descriptors_of. set (f := match requested_model data with Some _ => _ | None => _ end).
  unfold _create_rate_limit_descriptors. rewrite Hrpm, Htpm, Hm, model_limits_single, (team_model_single u m r Hrpm Htpm). unfold mbind, res_bind.
  destruct (_add_model_per_key_rate_limit_descriptor window_size u (Some m)) as [pk|]; [|done].
  destruct (_get_resolved_agent_id u data) as [a|]; [|done]. destruct (if truthy a then _ else _) as [ag|]; [|done].
  destruct (create_organization_rate_limit_descriptor window_size u (Some m)) as [po|]; [|done]. intros [= <-].
  set (owners := key_limits _ _ _ _ _ ++ _). exists (owners ++ pk), ag, po. cbn zeta. clearbody owners. by rewrite <-!app_assoc.
Qed.
End facts.

(** ** Concrete runs *)

Module HookExamples.
Import Toy.
#[local] Existing Instance int_runtime.
#[local] Existing Instance server_redis.
#[local] Existing Instance server_scripts.
#[local] Existing Instance RateExamples.int_json.

Definition no_agent : pyval → option Agent := λ _, None.
Definition clock (t : Z) : string := str_of_Z (t / 1000000).
Definition chat : dict := [("model", PStr "gpt")].

Definition hook (now : Z) (u : KeyLimits) (data : dict) : M (DualCache.t server) verdict :=
  async_pre_call_hook 60 no_agent None clock None (seconds now) u data "acompletion".

Definition admits (r : res verdict) : option bool := match r with Ok (Admit _) => Some true | Ok _ => Some false | Raise _ => None end.

Lemma key_limit_enforced_witness :
  (m_map (λ q : Z * dict, async_pre_call_hook 60 no_agent None clock None q.1 (rpm_key "k" 2) q.2 "acompletion")
     [(seconds 60, chat); (seconds 61, []); (seconds 119, chat)] (cache None)).1 =
    Ok (imap (λ i q, rpm_verdict 60 clock "k" 2 i q.1) [(seconds 60, chat); (seconds 61, []); (seconds 119, chat)]).
Proof.
  apply (key_limit_enforced 60 no_agent None clock (seconds 60) (seconds 119) RateExamples.config RateExamples.room None "k" 2);
    [apply RateExamples.minute_span|done|done|apply RateExamples.minute_idle|repeat constructor; done|vm_compute; set_solver|vm_compute; set_solver].
Defined.

(** A member of a team, both limited, with a limit for the model under the team. *)
Definition member : KeyLimits :=
  mkKey (Some "k") None None (Some 1) (Some "u") (Some 5) None (Some "t") (Some 9) (Some 100) None None None None None (Some "o") None (Some 50)
    [] [] (Some [("model_rpm_limit", PDict [("gpt", PInt 4)])]) None None.

Lemma hook_sound_witness : ∃ ds, descriptors_of 60 no_agent None member chat = Ok ds ∧ length ds = 7%nat.
Proof.
  assert (Hv : is_ok (hook 60 member chat (cache None)).1 = true) by (vm_compute; reflexivity).
  destruct (hook 60 member chat (cache None)) as [[v|e] c'] eqn:E; [clear Hv|discriminate Hv].
  destruct (hook_sound 60 no_agent None clock None (seconds 60) member chat "acompletion" (cache None) v c') as (ds & Eds & _);
    [discriminate|exact E|]. exists ds. split; [exact Eds|]. clear E. vm_compute in Eds. injection Eds as <-. reflexivity.
Defined.

(** The log of a call of the member. *)
Definition call_metadata : dict :=
  [("user_api_key_hash", PStr "k"); ("user_api_key_user_id", PStr "u"); ("user_api_key_team_id", PStr "t"); ("user_api_key_org_id", PStr "o")].
Definition call_log : dict :=
  [("standard_logging_object", PDict [("metadata", PDict call_metadata)]);
   ("litellm_params", PDict [("metadata", PDict [("model_group", PStr "gpt")])])].

Lemma call_logged : logged member chat call_log call_metadata.
Proof. by split. Qed.

Lemma tokens_counted_witness :
  ∃ ops, success_operations 60 call_log 120 = Ok ops ∧ ("{model_per_team:t:gpt}:tokens", 120, 60) ∈ ops.
Proof.
  destruct (descriptors_of 60 no_agent None member chat) as [ds|] eqn:E; [|vm_compute in E; discriminate].
  apply (tokens_counted 60 no_agent None member chat call_log call_metadata 120 ds
    (descriptor 60 "model_per_team" "t:gpt" (PInt 4) PNone PNone) call_logged E); [|split_and!; by vm_compute|done].
  vm_compute in E. injection E as <-. set_solver.
Defined.

(** *** What the hooks do not do *)

(** A team's limit of 1 request for a model refuses the first one, since it is counted twice. *)
Definition team_model : KeyLimits :=
  mkKey (Some "k") None None None None None None (Some "t") None None None None None None None None None None
    [] [] (Some [("model_rpm_limit", PDict [("gpt", PInt 1)])]) None None.

Theorem team_model_limit_halved : admits (hook 60 team_model chat (cache None)).1 = Some false.
Proof. vm_compute. reflexivity. Qed.

(** A run of checks and completions; the verdicts of the checks. *)
Inductive event := Check (now : Z) | Done (now : Z).

Fixpoint play (u : KeyLimits) (events : list event) (c : DualCache.t server) : list (option bool) :=
  match events with
  | [] => []
  | Check now :: rest => let '(r, c') := hook now u chat c in admits r :: play u rest c'
  | Done now :: rest => play u rest (async_log_success_event 60 (seconds now) [] call_log None c).2
  end.

(** A key limited to [n] parallel requests, and perhaps to [rpm] requests. *)
Definition parallel_key (rpm : option Z) (n : Z) : KeyLimits :=
  mkKey (Some "k") rpm None (Some n) None None None None None None None None None None None None None None [] [] None None None.

(** A parallel request that was refused is never ended: once a second request has been
    refused, the key stays refused after the first is done. *)
Theorem refused_parallel_request_stays :
  play (parallel_key None 1) [Check 60; Check 61; Done 62; Check 63] (cache None) = [Some true; Some false; Some false] ∧
  play (parallel_key None 1) [Check 60; Done 62; Check 63] (cache None) = [Some true; Some true].
Proof. vm_compute. auto. Qed.

(** The count of parallel requests ends with the window: a second request is admitted
    while the first, which takes longer, is still running. *)
Theorem parallel_requests_forgotten : play (parallel_key None 1) [Check 60; Check 121] (cache None) = [Some true; Some true].
Proof. vm_compute. reflexivity. Qed.

(** A request that ends after its window takes the counter below zero, and with a request
    limit beside it no new window resets it: from then on two requests run in parallel. *)
Theorem late_completion_adds_a_slot :
  play (parallel_key (Some 100) 1) [Check 60; Done 200; Check 201; Check 202; Check 203] (cache None) =
    [Some true; Some true; Some true; Some false].
Proof. vm_compute. reflexivity. Qed.
End HookExamples.
End LimitHook.
