(* ===== verification/BatchLimiter.v ===== *)
(** * BatchLimiter: [proxy/hooks/batch_rate_limiter.py]

    Before a batch is created its input file is counted, the remaining capacity of every
    limit is compared with what the batch needs, and the counters are raised by that much.
    Reading and counting the file is an argument.

    Theorem: without Redis a batch is refused exactly when one limit has less left than it
    needs, and then nothing changes; otherwise the request and token counters of its
    descriptors grow by exactly its requests and tokens. *)

From stdpp Require Import base gmap sets list strings.
From Stdlib Require Import Ascii ZArith QArith Lia ZifyBool.
From S2P Require Import Prelude PyStr InMemoryCache RedisCache DualCache RateLimiter RateWindows LimitHook.

#[local] Open Scope Z_scope.

Module BatchLimiter.
Import RateLimiter LimitHook Abstract.
#[local] Abbreviation dict := (list (string * pyval)).

Record BatchFileUsage := mkBatch { total_tokens : Z; request_count : Z }.

(** What a batch needs of a limit. *)
Definition required_capacity (batch_usage : BatchFileUsage) (ty : string) : Z :=
  if String.eqb ty "requests" then request_count batch_usage
  else if String.eqb ty "tokens" then total_tokens batch_usage else 0.

Definition short (batch_usage : BatchFileUsage) (st : RateLimitStatus) : bool :=
  limit_remaining st <? required_capacity batch_usage (rate_limit_type st).

Section ops.
Context `{PyRuntime} {R : Type} `{RedisCacheI R} `{RateScripts R}.
Context (window_size : Z) (get_agent : pyval → option Agent) (strftime : Z → string).
#[local] Abbreviation cache := (DualCache.t R).

(** The first descriptor with the key of the status, else the first one. *)
Definition blamed (st : RateLimitStatus) (descriptors : list RateLimitDescriptor) : RateLimitDescriptor :=
  default (default (mkDescriptor "" "" None) (head descriptors))
    (List.find (λ d, String.eqb (key d) (status_descriptor_key st)) descriptors).

Definition _raise_rate_limit_error (now : Z) (st : RateLimitStatus) (descriptors : list RateLimitDescriptor)
    (batch_usage : BatchFileUsage) (limit_type : string) : verdict :=
  let d := blamed st descriptors in
  let reset := strftime (now + seconds window_size) in
  let remaining := str_of_Z (Z.max 0 (limit_remaining st)) in
  let limit := str_of_Z (current_limit st) in
  Refuse ("Batch rate limit exceeded for " +:+ key d +:+ ": " +:+ value d +:+ ". Batch contains " +:+
          (if String.eqb limit_type "requests"
           then str_of_Z (request_count batch_usage) +:+ " requests but only " +:+ remaining +:+ " requests remaining out of " +:+ limit +:+ " RPM limit. "
           else str_of_Z (total_tokens batch_usage) +:+ " tokens but only " +:+ remaining +:+ " tokens remaining out of " +:+ limit +:+ " TPM limit. ") +:+
          "Limit resets at: " +:+ reset)
    (str_of_Z window_size) limit_type reset.

(** The increments of a descriptor. *)
Definition descriptor_operations (batch_usage : BatchFileUsage) (d : RateLimitDescriptor) : list increment_op :=
  match rate_limit d with
  | None => []
  | Some l =>
      (if is_none (requests_per_unit l) then []
       else [(create_rate_limit_keys (key d) (value d) "requests", request_count batch_usage, window_size)]) ++
      (if is_none (tokens_per_unit l) then []
       else [(create_rate_limit_keys (key d) (value d) "tokens", total_tokens batch_usage, window_size)])
  end.

Definition batch_operations (batch_usage : BatchFileUsage) (ds : list RateLimitDescriptor) : list increment_op :=
  mjoin (descriptor_operations batch_usage <$> ds).

(** Before the first await, and after it: others run in between. *)
Definition batch_check (now : Z) (u : KeyLimits) (data : dict) (batch_usage : BatchFileUsage) : M cache (verdict * list increment_op) :=
  descriptors ← m_lift (_create_rate_limit_descriptors window_size get_agent u data PNone PNone false);
  response ← should_rate_limit window_size now descriptors true;
  mret match List.find (short batch_usage) (statuses response) with
       | Some st => (_raise_rate_limit_error now st descriptors batch_usage (rate_limit_type st), [])
       | None => (Admit None, batch_operations batch_usage descriptors)
       end.

Definition _check_and_increment_batch_counters (now : Z) (u : KeyLimits) (data : dict) (batch_usage : BatchFileUsage) : M cache verdict :=
  '(v, ops) ← batch_check now u data batch_usage;
  async_increment_tokens_with_ttl_preservation now ops ;;
  mret v.

(** [count_input_file_usage] is an argument; any error but the refusal lets the batch pass. *)
Definition async_pre_call_hook (count_input_file_usage : pyval → res BatchFileUsage) (now : Z) (u : KeyLimits) (data : dict)
    (call_type : string) : M cache verdict :=
  if negb (String.eqb call_type "acreate_batch") then mret (Admit None)
  else
    let input_file_id := default PNone (dget "input_file_id" data) in
    if negb (truthy input_file_id) then mret (Admit None)
    else
      m_try (batch_usage ← m_lift (count_input_file_usage input_file_id);
             _check_and_increment_batch_counters now u data batch_usage)
            (λ _, mret (Admit None)).
End ops.

(** ** Theorems *)

(** The entries of the cache after the increments. *)
Fixpoint reserve_in (ops : list increment_op) (tbl : gmap string Z) (g : gmap string pyval) : gmap string pyval :=
  match ops with [] => g | (x, n, _) :: ops' => reserve_in ops' (<[x := count tbl x + n]> tbl) (<[x := PInt (count tbl x + n)]> g) end.

Section facts.
Context `{JsonInts} {R : Type} `{RedisCacheI R} `{RateScripts R}.
Context (window_size lo dl : Z) (k : Z * Z * Z) (U : gset string) (get_agent : pyval → option Agent) (strftime : Z → string).
Implicit Types c : DualCache.t R.
#[local] Abbreviation calm := (Local.calm dl k U).

Lemma calm_increment now x n tbl g c :
  Local.span window_size lo dl k U → now ≤ dl → dl ≤ now + k.1.2 → x ∈ U → g !! x = PInt <$> tbl !! x → calm g c →
  ∃ m, InMemoryCache.async_increment now x (PInt n) None (DualCache.in_memory_cache c) = (Ok (PInt (count tbl x + n)), m) ∧
    calm (<[x := PInt (count tbl x + n)]> g) (DualCache.set_im m c).
Proof.
  intros Hs Hnow Hdl Hx Hg Hc. pose proof (Local.calm_inv _ _ _ _ _ Hc) as [_ Hk].
  destruct (Local.calm_store dl k U now x (PInt (count tbl x + n)) None g c (Local.sp_room _ _ _ _ _ Hs) Hx) as (m & E & Hm);
    [by apply (Local.sp_int _ _ _ _ _ Hs)|unfold InMemoryCache.expiry; by rewrite <-Hk in Hdl|done|].
  exists m. split; [|done]. unfold InMemoryCache.async_increment, InMemoryCache.async_get_cache, InMemoryCache.async_set_cache.
  rewrite (m_bind_run _ _ _ _ _ (Local.calm_get dl k U now x g c Hnow Hc)), (Local.read_count tbl g x Hg).
  rewrite (m_bind_run _ _ _ (PInt (count tbl x + n)) (DualCache.in_memory_cache c)).
  - by rewrite (m_bind_run _ _ _ _ _ E).
  - unfold count, m_lift. destruct (tbl !! x) as [z|]; [|done]. unfold py_or. cbn. destruct (Z.eqb_spec z 0) as [->|]; done.
Qed.

Lemma calm_pipeline now ops tbl g c :
  Local.span window_size lo dl k U → now ≤ dl → dl ≤ now + k.1.2 →
  Forall (λ op : increment_op, op.1.1 ∈ U) ops → (∀ op, op ∈ ops → g !! op.1.1 = PInt <$> tbl !! op.1.1) → calm g c →
  ∃ m, is_ok (InMemoryCache.async_increment_pipeline now ((λ op : increment_op, (op.1.1, PInt op.1.2)) <$> ops) None (DualCache.in_memory_cache c)).1 = true ∧
    m = (InMemoryCache.async_increment_pipeline now ((λ op : increment_op, (op.1.1, PInt op.1.2)) <$> ops) None (DualCache.in_memory_cache c)).2 ∧
    calm (reserve_in ops tbl g) (DualCache.set_im m c).
Proof.
  intros Hs Hnow Hdl Hu. unfold InMemoryCache.async_increment_pipeline. revert tbl g c.
  induction Hu as [|[[x n] t] ops Hx _ IH]; intros tbl g c Hg Hc.
  { eexists. split_and!; [done|done|]. cbn. by rewrite Local.set_im_same. }
  destruct (calm_increment now x n tbl g c) as (m & E & Hm); [done..|exact (Hg (x, n, t) ltac:(by left))|done|].
  destruct (IH (<[x := count tbl x + n]> tbl) (<[x := PInt (count tbl x + n)]> g) (DualCache.set_im m c)) as (m' & Hok & Em & Hm').
  { intros op Hop. cbn. destruct (decide (x = op.1.1)) as [<-|Hne]; [by rewrite !lookup_insert_eq|].
    rewrite !lookup_insert_ne by done. apply Hg. by right. }
  { exact Hm. }
  exists m'. cbn [fmap list_fmap m_map fst snd reserve_in]. rewrite (m_bind_run _ _ _ _ _ E). cbn in Hok, Em.
  unfold mbind, M_bind. destruct (m_map _ _ m) as [[ys|] s']; [|done]. cbn in Em. by subst m'.
Qed.

(** The requests and tokens a batch is told about. *)
Definition before (ds : list RateLimitDescriptor) (tbl : gmap string Z) : list RateLimitStatus :=
  statuses (respond (Local.meta_of window_size ds) ((λ p, (p, tbl !! p.2)) <$> request_pairs ds)).

Lemma read_only_response now ds tbl g c :
  Local.span window_size lo dl k U → now ≤ dl → is_ok (collect window_size ds [] []) = true →
  Forall (λ p : string * string, g !! p.2 = PInt <$> tbl !! p.2) (request_pairs ds) → calm g c →
  ∃ r, should_rate_limit window_size now ds true c = (Ok r, c) ∧ statuses r = before ds tbl.
Proof.
  intros Hs Hnow Hok Hg Hc. unfold before, Local.meta_of. destruct (collect window_size ds [] []) as [[keys meta]|] eqn:Ecol; [|done].
  destruct (collect_limits _ _ _ _ Ecol) as [-> Hm]. set (ps := request_pairs ds) in *.
  eexists. split; [|done]. unfold should_rate_limit.
  rewrite (m_bind_run _ _ _ (flatten ps, meta) c) by (unfold m_lift; by rewrite Ecol).
  rewrite (m_bind_run _ _ _ _ _ (Local.calm_batch dl k U now (flatten ps) true g c Hnow Hc)).
  pose proof (Local.local_respond tbl g meta ps Hg Hm) as E.
  rewrite (m_bind_run _ _ _ _ c) by (unfold m_lift; by rewrite E).
  destruct (overall_over _); [done|]. rewrite (m_bind_run _ _ _ c c) by done.
  rewrite (m_bind_run _ _ _ (Local.read g <$> flatten ps) c).
  - unfold m_lift. by rewrite E.
  - by rewrite (m_bind_run _ _ _ _ _ (Local.calm_batch dl k U now (flatten ps) false g c Hnow Hc)).
Qed.

(** *** What the counters say of a batch

    Stated of the limits of the descriptors and a table of their counters. *)

Definition counter (d : RateLimitDescriptor) (ty : string) : string := create_rate_limit_keys (key d) (value d) ty.

(** A limit [n] of the descriptor has less left than the batch needs of it: its
    requests, its tokens, or nothing of the parallel requests. *)
Inductive lacking (usage : BatchFileUsage) (tbl : gmap string Z) (d : RateLimitDescriptor) : string → Z → Prop :=
  | lacking_requests n :
      py_int (requests_per_unit (limit_of d)) = Ok n → n - count tbl (counter d "requests") < request_count usage →
      lacking usage tbl d "requests" n
  | lacking_tokens n :
      py_int (tokens_per_unit (limit_of d)) = Ok n → n - count tbl (counter d "tokens") < total_tokens usage →
      lacking usage tbl d "tokens" n
  | lacking_parallel n :
      py_int (max_parallel_requests (limit_of d)) = Ok n → n - count tbl (counter d "max_parallel_requests") < 0 →
      lacking usage tbl d "max_parallel_requests" n.

(** The batch is counted: [x] is a request or token counter some descriptor limits. *)
Definition batch_counter (ds : list RateLimitDescriptor) (x : string) : Prop :=
  ∃ d, d ∈ ds ∧ (x = counter d "requests" ∧ requests_per_unit (limit_of d) ≠ PNone ∨
                 x = counter d "tokens" ∧ tokens_per_unit (limit_of d) ≠ PNone).

Lemma is_none_false v : is_none v = false ↔ v ≠ PNone.
Proof. destruct v; cbn; naive_solver. Qed.

Lemma collect_own ds keys meta keys' meta' :
  collect window_size ds keys meta = Ok (keys', meta') → NoDup (window_key <$> ds) →
  (∀ w, w ∉ window_key <$> ds → dget w meta' = dget w meta) ∧
  ∀ d, d ∈ ds → descriptor_pairs d ≠ [] →
    ∃ m, descriptor_metadata window_size d = Ok m ∧ dget (window_key d) meta' = Some m.
Proof.
  revert keys meta. induction ds as [|d ds IH]; intros keys meta; cbn [collect].
  { intros [= _ <-] _. split; [done|]. intros d Hd. by apply not_elem_of_nil in Hd. }
  rewrite fmap_cons, NoDup_cons. intros E [Hn Hnd]. rewrite descriptor_keys_flatten in E.
  destruct (descriptor_pairs d) as [|p ps] eqn:Ed.
  { destruct (IH _ _ E Hnd) as [Hf Ho]. split; [intros w Hw; apply Hf; set_solver|].
    intros d' [->|Hd']%elem_of_cons Hp; [done|by apply Ho]. }
  destruct (flatten (p :: ps)) as [|k0 ks] eqn:Ef; [by destruct p|].
  unfold mbind, res_bind in E. destruct (descriptor_metadata window_size d) as [m|] eqn:Em; [|done].
  destruct (IH _ _ E Hnd) as [Hf Ho]. split.
  - intros w Hw. rewrite Hf by set_solver. rewrite dget_dset.
    destruct (String.eqb_spec (window_key d) w); [set_solver|done].
  - intros d' [->|Hd']%elem_of_cons Hp; [|by apply Ho]. exists m. split; [done|].
    rewrite (Hf _ Hn). by rewrite dget_dset_eq.
Qed.

(** The limits of a descriptor, by the name of their counters. *)
Lemma limit_for_counter d m ty :
  ty ∈ ["requests"; "tokens"; "max_parallel_requests"] →
  limit_for (counter d ty) m =
    pair ty <$> (if String.eqb ty "requests" then requests_limit m
                 else if String.eqb ty "max_parallel_requests" then max_parallel_requests_limit m else tokens_limit m).
Proof.
  intros Ht. pose proof (endswith_app (tag (key d) (value d)) (":" +:+ ty)) as He.
  change (tag (key d) (value d) +:+ ":" +:+ ty) with (counter d ty) in He. unfold limit_for.
  set_unfold in Ht. destruct Ht as [->|[->|[->|[]]]]; cbn [String.eqb Ascii.eqb Bool.eqb].
  - change (":" +:+ "requests") with ":requests" in He. by rewrite He.
  - change (":" +:+ "tokens") with ":tokens" in He. rewrite (endswith_excl _ _ ":requests" He), (endswith_excl _ _ ":max_parallel_requests" He) by done. by rewrite He.
  - change (":" +:+ "max_parallel_requests") with ":max_parallel_requests" in He.
    rewrite (endswith_excl _ _ ":requests" He) by done. by rewrite He.
Qed.

Lemma opt_int_Some v n : v ≠ PNone → opt_int v = Ok (Some n) ↔ py_int v = Ok n.
Proof.
  intros Hv%is_none_false. unfold opt_int. rewrite Hv. destruct (py_int v); cbn; naive_solver.
Qed.

(** The statuses are those of the limits of the descriptors. *)
Lemma before_spec ds tbl st :
  is_ok (collect window_size ds [] []) = true → NoDup (window_key <$> ds) →
  st ∈ before ds tbl ↔ ∃ d ty v n, d ∈ ds ∧ (ty, v) ∈ limits d ∧ py_int v = Ok n ∧
    limit_remaining st = n - count tbl (counter d ty) ∧ current_limit st = n ∧ rate_limit_type st = ty ∧
    status_descriptor_key st = key d ∧ over st = match tbl !! counter d ty with Some z => n <? z | None => false end.
Proof.
  intros Hok Hnd. unfold before, Local.meta_of. destruct (collect window_size ds [] []) as [[keys meta]|] eqn:Ecol; [|done].
  destruct (collect_own _ _ _ _ _ Ecol Hnd) as [_ Hown]. cbn [statuses respond]. clear Ecol Hok.
  assert (∀ d ty v, d ∈ ds → (ty, v) ∈ limits d → v ≠ PNone →
    ∃ n, py_int v = Ok n ∧ status meta (window_key d, counter d ty) (tbl !! counter d ty) =
      Some (mkStatus (match tbl !! counter d ty with Some z => n <? z | None => false end) n (n - count tbl (counter d ty)) ty (key d))) as Hst.
  { intros d ty v Hd Hl Hv.
    assert (ty ∈ ["requests"; "tokens"; "max_parallel_requests"]) as Ht by (unfold limits in Hl; set_solver).
    destruct (Hown d Hd) as (m & Em & Hm).
    { apply is_none_false in Hv. intros E. assert ((window_key d, counter d ty) ∈ descriptor_pairs d) as Hin.
      { apply list_elem_of_fmap. exists (ty, v). split; [done|]. apply list_elem_of_filter. cbn. by rewrite Hv. }
      rewrite E in Hin. by apply not_elem_of_nil in Hin. }
    unfold descriptor_metadata, mbind, res_bind in Em.
    destruct (opt_int (requests_per_unit _)) as [rl|] eqn:Er; [|done]. destruct (opt_int (tokens_per_unit _)) as [tl|] eqn:Et; [|done].
    destruct (opt_int (max_parallel_requests _)) as [pl|] eqn:Ep; [|done]. destruct (py_int (py_or _ _)) as [ws|]; [|done]. injection Em as <-.
    assert (∃ n, py_int v = Ok n ∧ limit_for (counter d ty) (mkMetadata rl tl pl ws (key d)) = Some (ty, n)) as (n & En & El).
    { rewrite (limit_for_counter d _ ty Ht). unfold limits in Hl.
      apply is_none_false in Hv as Hv'. unfold opt_int in *.
      apply elem_of_cons in Hl as [[= -> ->]|[[= -> ->]|[[= -> ->]|[]%elem_of_nil]%elem_of_cons]%elem_of_cons];
        (match goal with |- ∃ n, py_int ?w = Ok n ∧ _ => rewrite Hv' in *; destruct (py_int w) as [n|] end);
        simplify_eq/=; by exists n. }
    exists n. split; [done|]. unfold status. cbn [fst snd]. rewrite Hm. cbn. rewrite El. cbn. unfold count.
    destruct (tbl !! counter d ty); cbn; [done|]. by rewrite Z.sub_0_r. }
  rewrite list_elem_of_omap. split.
  - intros ([[w x] o] & ([w' x'] & [= -> -> ->] & Hp)%list_elem_of_fmap & E).
    apply list_elem_of_join in Hp as (l & Hp & (d & -> & Hd)%list_elem_of_fmap).
    apply list_elem_of_fmap in Hp as ([ty v] & [= -> ->] & [Hv Hl]%list_elem_of_filter). cbn in Hv.
    assert (v ≠ PNone) as Hv' by (apply is_none_false; by destruct (is_none v)).
    destruct (Hst d ty v Hd Hl Hv') as (n & En & Es). cbn [fst snd] in E. fold (counter d ty) in E. rewrite Es in E. injection E as <-.
    exists d, ty, v, n. by split_and!.
  - intros (d & ty & v & n & Hd & Hl & En & Er & Ec & Et & Ek & Eo).
    assert (v ≠ PNone) as Hv by (by intros ->). destruct (Hst d ty v Hd Hl Hv) as (n' & En' & Es). assert (n' = n) as -> by congruence.
    exists (window_key d, counter d ty, tbl !! counter d ty). split.
    + apply list_elem_of_fmap. exists (window_key d, counter d ty). split; [done|].
      apply list_elem_of_join. exists (descriptor_pairs d). split; [|apply list_elem_of_fmap; by exists d].
      apply list_elem_of_fmap. exists (ty, v). split; [done|]. apply list_elem_of_filter. cbn.
      apply is_none_false in Hv. by rewrite Hv.
    + cbn [fst snd]. rewrite Es. destruct st. cbn in *. by subst.
Qed.

(** A status is short exactly when its limit is lacking. *)
Lemma short_lacking usage tbl d ty v n st :
  (ty, v) ∈ limits d → py_int v = Ok n → limit_remaining st = n - count tbl (counter d ty) → rate_limit_type st = ty →
  short usage st = true ↔ lacking usage tbl d ty n.
Proof.
  intros Hl En Er <-. unfold short, required_capacity. rewrite Er, Z.ltb_lt. unfold limits in Hl.
  apply elem_of_cons in Hl as [[= Ety ->]|[[= Ety ->]|[[= Ety ->]|[]%elem_of_nil]%elem_of_cons]%elem_of_cons];
    rewrite Ety in *; cbn [String.eqb Ascii.eqb Bool.eqb]; (split; [by constructor|by inversion 1]).
Qed.

(** What the operations add to a counter. *)
Definition amount (x : string) (ops : list increment_op) : Z :=
  foldr (λ op acc, if String.eqb op.1.1 x then op.1.2 + acc else acc) 0 ops.

Lemma reserve_in_lookup ops tbl g x :
  reserve_in ops tbl g !! x =
    if existsb (λ op : increment_op, String.eqb op.1.1 x) ops then Some (PInt (count tbl x + amount x ops)) else g !! x.
Proof.
  revert tbl g. induction ops as [|[[y n] t] ops IH]; intros tbl g; [done|]. cbn [reserve_in existsb amount foldr fst snd].
  rewrite IH. fold (amount x ops). destruct (String.eqb_spec y x) as [->|Hne]; cbn [orb].
  - unfold count at 1. rewrite !lookup_insert_eq. cbn. destruct (existsb _ ops) eqn:E; [do 2 f_equal; lia|].
    assert (amount x ops = 0) as ->; [|do 2 f_equal; lia]. clear IH.
    induction ops as [|[[z n'] t'] ops IHo]; [done|]. cbn in E |- *. apply orb_false_iff in E as [-> E]. by apply IHo.
  - unfold count. rewrite !lookup_insert_ne by done. done.
Qed.

Lemma operations_limited usage ds op :
  op ∈ batch_operations window_size usage ds → ∃ p, p ∈ request_pairs ds ∧ p.2 = op.1.1.
Proof.
  unfold batch_operations, request_pairs. intros (l & Hop & (d & -> & Hd)%list_elem_of_fmap)%list_elem_of_join.
  unfold descriptor_operations in Hop. destruct (rate_limit d) as [l|] eqn:El; [|by apply not_elem_of_nil in Hop].
  assert (∀ ty v, (ty, v) ∈ limits d → is_none v = false → ∃ p, p ∈ mjoin (descriptor_pairs <$> ds) ∧ p.2 = create_rate_limit_keys (key d) (value d) ty) as Hin.
  { intros ty v Hl Hv. exists (window_key d, create_rate_limit_keys (key d) (value d) ty). split; [|done].
    apply list_elem_of_join. exists (descriptor_pairs d). split; [|apply list_elem_of_fmap; by exists d].
    apply list_elem_of_fmap. exists (ty, v). split; [done|]. apply list_elem_of_filter. cbn. by rewrite Hv. }
  assert (limit_of d = l) as Elim by (unfold limit_of; by rewrite El).
  apply elem_of_app in Hop as [Hop|Hop].
  - destruct (is_none (requests_per_unit l)) eqn:Ev; [by apply not_elem_of_nil in Hop|]. apply list_elem_of_singleton in Hop as ->.
    apply (Hin "requests" (requests_per_unit l)); [|done]. unfold limits. rewrite Elim. set_solver.
  - destruct (is_none (tokens_per_unit l)) eqn:Ev; [by apply not_elem_of_nil in Hop|]. apply list_elem_of_singleton in Hop as ->.
    apply (Hin "tokens" (tokens_per_unit l)); [|done]. unfold limits. rewrite Elim. set_solver.
Qed.

Lemma increments_local now (ops : list increment_op) c m :
  DualCache.redis_cache c = None →
  is_ok (InMemoryCache.async_increment_pipeline now ((λ op : increment_op, (op.1.1, PInt op.1.2)) <$> ops) None (DualCache.in_memory_cache c)).1 = true →
  m = (InMemoryCache.async_increment_pipeline now ((λ op : increment_op, (op.1.1, PInt op.1.2)) <$> ops) None (DualCache.in_memory_cache c)).2 →
  async_increment_tokens_with_ttl_preservation now ops c = (Ok (), DualCache.set_im m c).
Proof.
  intros Hr Hok ->. unfold async_increment_tokens_with_ttl_preservation. rewrite Hr.
  assert (((λ op : increment_op, (op.1.1, PInt op.1.2, Some (seconds op.2))) <$> ops).*1 = (λ op : increment_op, (op.1.1, PInt op.1.2)) <$> ops) as E
    by (rewrite <-list_fmap_compose; done).
  assert (regular_pipeline now ops c = (Ok (), DualCache.set_im (InMemoryCache.async_increment_pipeline now ((λ op : increment_op, (op.1.1, PInt op.1.2)) <$> ops) None (DualCache.in_memory_cache c)).2 c)) as Hp.
  { unfold regular_pipeline, DualCache.async_increment_cache_pipeline. rewrite E. unfold mbind, M_bind, DualCache.on_im, m_zoom.
    destruct (InMemoryCache.async_increment_pipeline _ _ _ _) as [[ys|] m]; [|done]. unfold DualCache.on_redis. cbn. by rewrite Hr. }
  destruct ops as [|op ops]; [|exact Hp]. cbn. by rewrite Local.set_im_same.
Qed.

Lemma amount_app x ops1 ops2 : amount x (ops1 ++ ops2) = amount x ops1 + amount x ops2.
Proof.
  unfold amount. induction ops1 as [|[[y n] t] ops1 IH]; cbn; [done|]. destruct (String.eqb y x); rewrite IH; lia.
Qed.

Lemma amount_absent x ops : existsb (λ op : increment_op, String.eqb op.1.1 x) ops = false → amount x ops = 0.
Proof.
  induction ops as [|[[y n] t] ops IH]; [done|]. cbn. intros [-> E]%orb_false_iff. by apply IH.
Qed.

(** The counter of an operation is that of a limit of a descriptor. *)
Lemma operation_counter usage ds op :
  op ∈ batch_operations window_size usage ds → batch_counter ds op.1.1.
Proof.
  unfold batch_operations. intros (l & Hop & (d & -> & Hd)%list_elem_of_fmap)%list_elem_of_join. exists d. split; [done|].
  unfold descriptor_operations, limit_of in *. destruct (rate_limit d) as [l|]; [|by apply not_elem_of_nil in Hop].
  apply elem_of_app in Hop as [Hop|Hop]; [left|right];
    destruct (is_none _) eqn:Ev in Hop; try (by apply not_elem_of_nil in Hop); apply list_elem_of_singleton in Hop as ->;
    (split; [done|by apply is_none_false]).
Qed.

Lemma operation_absent usage ds x :
  ¬ batch_counter ds x → existsb (λ op : increment_op, String.eqb op.1.1 x) (batch_operations window_size usage ds) = false.
Proof.
  intros Hx. apply not_true_iff_false. intros (op & Hop & E%String.eqb_eq)%existsb_exists.
  apply Hx. rewrite <-E. eapply operation_counter, list_elem_of_In, Hop.
Qed.

(** Counters of descriptors with different windows differ. *)
Lemma counter_other ds d ty :
  window_key d ∉ window_key <$> ds → ty ∈ ["requests"; "tokens"] → ¬ batch_counter ds (counter d ty).
Proof.
  intros Hn Ht (d' & Hd' & Hor). apply Hn, list_elem_of_fmap. exists d'. split; [|done].
  assert (∃ ty', ty' ∈ ["requests"; "tokens"] ∧ counter d ty = counter d' ty') as (ty' & Ht' & E)
    by (destruct Hor as [[E _]|[E _]]; eexists; (split; [|exact E]); set_solver).
  apply counter_tag in E as [_ E]; [|set_solver..]. unfold window_key. by rewrite E.
Qed.

Lemma operations_split usage ds1 d ds2 :
  batch_operations window_size usage (ds1 ++ d :: ds2) =
    batch_operations window_size usage ds1 ++ descriptor_operations window_size usage d ++ batch_operations window_size usage ds2.
Proof. unfold batch_operations. by rewrite fmap_app, fmap_cons, join_app. Qed.

(** What the operations add to the counters of a descriptor. *)
Lemma operations_amount usage ds d ty v n :
  NoDup (window_key <$> ds) → d ∈ ds →
  (ty, v, n) ∈ [("requests", requests_per_unit (limit_of d), request_count usage);
                ("tokens", tokens_per_unit (limit_of d), total_tokens usage)] → v ≠ PNone →
  existsb (λ op : increment_op, String.eqb op.1.1 (counter d ty)) (batch_operations window_size usage ds) = true ∧
  amount (counter d ty) (batch_operations window_size usage ds) = n.
Proof.
  intros Hnd (ds1 & ds2 & ->)%list_elem_of_split Ht Hv. rewrite fmap_app, fmap_cons in Hnd.
  apply NoDup_app in Hnd as (_ & Hn1 & [Hn2 _]%NoDup_cons).
  assert (ty ∈ ["requests"; "tokens"]) as Hty by set_solver.
  assert (window_key d ∉ window_key <$> ds1) as Hn1' by (intros Hd; apply (Hn1 _ Hd); by left).
  pose proof (operation_absent usage _ _ (counter_other ds1 d ty Hn1' Hty)) as E1.
  pose proof (operation_absent usage _ _ (counter_other ds2 d ty Hn2 Hty)) as E2.
  rewrite operations_split, !existsb_app, !amount_app, E1, E2, !(amount_absent _ _ E1), !(amount_absent _ _ E2), orb_false_r.
  cbn [orb]. rewrite Z.add_0_r. cbn [Z.add]. clear E1 E2 Hn1 Hn1' Hn2.
  assert (String.eqb (counter d "requests") (counter d "tokens") = false) as Ert.
  { apply String.eqb_neq. intros [? _]%counter_tag; [done|set_solver..]. }
  assert (String.eqb (counter d "tokens") (counter d "requests") = false) as Etr by (by rewrite String.eqb_sym).
  unfold descriptor_operations, limit_of in *. apply is_none_false in Hv.
  fold (counter d "requests") (counter d "tokens").
  set_unfold in Ht. destruct Ht as [[= -> -> ->]|[[= -> -> ->]|[]]];
    (destruct (rate_limit d) as [l|]; [|done]); cbn [default id] in *; rewrite Hv; clear Hv; destruct (is_none _);
    cbn [app amount foldr existsb fst snd]; rewrite ?String.eqb_refl, ?Ert, ?Etr; cbn; (split; [done|lia]).
Qed.

(** The first status that is short is that of a lacking limit. *)
Lemma find_short usage ds tbl :
  is_ok (collect window_size ds [] []) = true → NoDup (window_key <$> ds) →
  match List.find (short usage) (before ds tbl) with
  | Some st => ∃ d n, d ∈ ds ∧ lacking usage tbl d (rate_limit_type st) n ∧ status_descriptor_key st = key d
  | None => ∀ d ty n, d ∈ ds → ¬ lacking usage tbl d ty n
  end.
Proof.
  intros Hok Hnd. destruct (List.find _ _) as [st|] eqn:Ef.
  - apply List.find_some in Ef as [Hin Hsh]. apply list_elem_of_In in Hin.
    apply (before_spec ds tbl st Hok Hnd) in Hin as (d & ty & v & n & Hd & Hl & En & Er & _ & Et & Ek & _).
    exists d, n. split_and!; [done| |done]. subst ty. by eapply short_lacking.
  - intros d ty n Hd Hlack.
    assert (∃ v, (ty, v) ∈ limits d ∧ py_int v = Ok n) as (v & Hl & En)
      by (unfold limits; inversion Hlack; subst; eexists; (split; [|eassumption]); set_solver).
    set (st := mkStatus (match tbl !! counter d ty with Some z => n <? z | None => false end) n (n - count tbl (counter d ty)) ty (key d)).
    assert (st ∈ before ds tbl) as Hin by (apply before_spec; [done..|]; exists d, ty, v, n; by split_and!).
    apply list_elem_of_In in Hin. pose proof (List.find_none _ _ Ef st Hin) as Hf.
    by rewrite (proj2 (short_lacking usage tbl d ty v n st Hl En eq_refl eq_refl) Hlack) in Hf.
Qed.

(** The error names the descriptor of the status. *)
Lemma error_names now st ds usage d :
  d ∈ ds → status_descriptor_key st = key d →
  ∃ rest, _raise_rate_limit_error window_size strftime now st ds usage (rate_limit_type st) =
    Refuse ("Batch rate limit exceeded for " +:+ key d +:+ ": " +:+ rest) (str_of_Z window_size) (rate_limit_type st)
      (strftime (now + seconds window_size)).
Proof.
  intros Hd Ek. unfold _raise_rate_limit_error, blamed.
  destruct (List.find _ ds) as [d'|] eqn:Ef.
  - apply List.find_some in Ef as [_ E%String.eqb_eq]. cbn [default id]. rewrite E, Ek. by eexists.
  - apply list_elem_of_In in Hd. pose proof (List.find_none _ _ Ef d Hd) as E. cbn in E. by rewrite Ek, String.eqb_refl in E.
Qed.

(** C20: Without Redis and with all counters in memory, descriptors with numbers as limits and windows
    of their own: a batch is refused exactly when a limit of a descriptor has less left
    than the batch needs (its requests of a request limit, its tokens of a token limit,
    nothing of a limit on parallel requests), with the error 429 for the type of such a
    limit that names its descriptor, and no counter changes.  Otherwise every request
    counter of a limited descriptor grows by the number of requests, every token counter
    by the number of tokens, and nothing else changes. *)
Theorem batch_reserved now u data usage ds tbl g c
    (Hs : Local.span window_size lo dl k U) (Hnow : now ≤ dl) (Hdl : dl ≤ now + k.1.2)
    (Hds : _create_rate_limit_descriptors window_size get_agent u data PNone PNone false = Ok ds)
    (Hok : is_ok (collect window_size ds [] []) = true) (Hnd : NoDup (window_key <$> ds))
    (Hu : Forall (λ p, p.1 ∈ U ∧ p.2 ∈ U) (request_pairs ds))
    (Hg : Forall (λ p : string * string, g !! p.2 = PInt <$> tbl !! p.2) (request_pairs ds)) (Hc : calm g c) :
  let run := _check_and_increment_batch_counters window_size get_agent strftime now u data usage c in
  (∃ d ty n rest, d ∈ ds ∧ lacking usage tbl d ty n ∧
     run = (Ok (Refuse ("Batch rate limit exceeded for " +:+ key d +:+ ": " +:+ rest) (str_of_Z window_size) ty
                  (strftime (now + seconds window_size))), c)) ∨
  ((∀ d ty n, d ∈ ds → ¬ lacking usage tbl d ty n) ∧
   ∃ c', run = (Ok (Admit None), c') ∧
     let value x := InMemoryCache.cache_dict (DualCache.in_memory_cache c') !! x in
     (∀ d, d ∈ ds → requests_per_unit (limit_of d) ≠ PNone →
        value (counter d "requests") = Some (PInt (count tbl (counter d "requests") + request_count usage))) ∧
     (∀ d, d ∈ ds → tokens_per_unit (limit_of d) ≠ PNone →
        value (counter d "tokens") = Some (PInt (count tbl (counter d "tokens") + total_tokens usage))) ∧
     (∀ x, ¬ batch_counter ds x → value x = g !! x)).
Proof.
  intros run. unfold run, _check_and_increment_batch_counters, batch_check.
  destruct (read_only_response now ds tbl g c Hs Hnow Hok Hg Hc) as (r & Er & Est).
  pose proof (find_short usage ds tbl Hok Hnd) as Hfind. rewrite <-Est in Hfind.
  rewrite (m_bind_run _ _ _ match List.find (short usage) (statuses r) with
    | Some st => (_raise_rate_limit_error window_size strftime now st ds usage (rate_limit_type st), [])
    | None => (Admit None, batch_operations window_size usage ds) end c).
  2: { rewrite (m_bind_run _ _ _ ds c) by (unfold m_lift; by rewrite Hds). by rewrite (m_bind_run _ _ _ _ _ Er). }
  destruct (List.find (short usage) (statuses r)) as [st|].
  - left. destruct Hfind as (d & n & Hd & Hlack & Ek). destruct (error_names now st ds usage d Hd Ek) as [rest ->].
    by exists d, (rate_limit_type st), n, rest.
  - right. split; [done|]. set (ops := batch_operations window_size usage ds).
    assert (∀ op, op ∈ ops → op.1.1 ∈ U ∧ g !! op.1.1 = PInt <$> tbl !! op.1.1) as Hops.
    { intros op Hop. destruct (operations_limited _ _ _ Hop) as (p & Hp & <-). rewrite Forall_forall in Hu, Hg. split; [by apply Hu|by apply Hg]. }
    destruct (calm_pipeline now ops tbl g c) as (m & Eok & Em & Hm); [done..|apply Forall_forall; apply Hops|apply Hops|done|].
    exists (DualCache.set_im m c). split.
    { by rewrite (m_bind_run _ _ _ () (DualCache.set_im m c)) by (apply increments_local; [exact (Local.calm_redis _ _ _ _ _ Hc)|done|done]). }
    rewrite (Local.calm_dict _ _ _ _ _ Hm).
    split_and!; [intros d Hd Hv|intros d Hd Hv|intros x Hx]; rewrite reserve_in_lookup; unfold ops.
    + by destruct (operations_amount usage ds d "requests" _ (request_count usage) Hnd Hd ltac:(by left) Hv) as [-> ->].
    + by destruct (operations_amount usage ds d "tokens" _ (total_tokens usage) Hnd Hd ltac:(by right; left) Hv) as [-> ->].
    + by rewrite (operation_absent usage ds x Hx).
Qed.
End facts.

(** ** Concrete runs *)

Module BatchExamples.
Import Toy HookExamples.
#[local] Existing Instance int_runtime.
#[local] Existing Instance server_redis.
#[local] Existing Instance server_scripts.
#[local] Existing Instance RateExamples.int_json.

(** A key limited to 5 requests, and a batch of 3. *)
Definition five : KeyLimits := rpm_key "k" 5.
Definition three : BatchFileUsage := mkBatch 40 3.

Definition submit (now : Z) (n : Z) : M (DualCache.t server) verdict :=
  async_pre_call_hook 60 no_agent clock (λ _, Ok (mkBatch 40 n)) (seconds now) five [("input_file_id", PStr "f")] "acreate_batch".

Lemma batch_reserved_witness :
  ∃ c', _check_and_increment_batch_counters 60 no_agent clock (seconds 60) five [] three (cache None) = (Ok (Admit None), c') ∧
    InMemoryCache.cache_dict (DualCache.in_memory_cache c') !! "{api_key:k}:requests" = Some (PInt 3).
Proof.
  destruct (batch_reserved 60 (seconds 60) (seconds 119) RateExamples.config RateExamples.room no_agent clock (seconds 60) five [] three
    [Local.rpm_only 60 "api_key" "k" 5] ∅ ∅ (cache None)) as [(d & ty & n & rest & Hd & Hl & _)|(_ & c' & E & Hx & _)];
    [apply RateExamples.minute_span|done|done|reflexivity|reflexivity|apply NoDup_singleton
    |vm_compute; repeat constructor; set_solver|repeat constructor|apply RateExamples.minute_idle| |].
  - apply list_elem_of_singleton in Hd as ->. exfalso.
    inversion Hl as [n' En Hlt|n' En Hlt|n' En Hlt]; try discriminate En; injection En as <-; vm_compute in Hlt; discriminate Hlt.
  - exists c'. split; [exact E|]. exact (Hx _ ltac:(by left) ltac:(done)).
Defined.

(** The check and the increment are two steps: of two batches of 3 that take turns both are
    admitted under a limit of 5. *)
Definition overlap : M (DualCache.t server) (verdict * verdict) :=
  '(v1, ops1) ← batch_check 60 no_agent clock (seconds 60) five [] three;
  '(v2, ops2) ← batch_check 60 no_agent clock (seconds 60) five [] three;
  async_increment_tokens_with_ttl_preservation (seconds 60) ops1 ;;
  async_increment_tokens_with_ttl_preservation (seconds 60) ops2 ;;
  mret (v1, v2).

Theorem overlapping_batches_exceed :
  let '(r, c) := overlap (cache None) in
  r = Ok (Admit None, Admit None) ∧ InMemoryCache.live_value (seconds 60) "{api_key:k}:requests" (DualCache.in_memory_cache c) = PInt 6.
Proof. vm_compute. auto. Qed.

(** A batch opens no window.  The first ordinary request does, and sets the counter to 1:
    a key that has used up its 5 requests by a batch has 5 more. *)
Definition then_requests : list (option bool) :=
  let '(r, c) := submit 60 5 (cache None) in admits r :: play five [Check 61; Check 62; Check 63; Check 64; Check 65; Check 66] c.

Theorem batch_forgotten : then_requests = [Some true; Some true; Some true; Some true; Some true; Some true; Some false].
Proof. vm_compute. reflexivity. Qed.

(** Without ordinary requests the counter is that of the in-memory default: a batch that
    uses up a minute's requests has the next refused for ten minutes. *)
Definition two_batches (later : Z) : list (option bool) :=
  let '(r, c) := submit 60 5 (cache None) in [admits r; admits (submit later 1 c).1].

Theorem batch_outlives_window : two_batches 600 = [Some true; Some false] ∧ two_batches 661 = [Some true; Some true].
Proof. vm_compute. auto. Qed.
End BatchExamples.
End BatchLimiter.
