(* ===== verification/SessionLimits.v ===== *)
(** * SessionLimits: caps on a session

    [proxy/hooks/max_iterations_limiter.py] counts the calls of a session,
    [proxy/hooks/max_budget_per_session_limiter.py] adds up their cost.  Both count in
    Redis by a script when there is one, else in memory.  The agent registry is an
    argument: the [litellm_params] of an agent.  Money is a rational; the texts of amounts
    in the errors are an argument.

    Theorems: within the lifetime of its counter exactly the first [n] calls of a session
    are let through, without Redis and for any number of proxies with one; a session is
    stopped exactly when the costs of its calls have reached its budget. *)

From stdpp Require Import base gmap sets list strings.
From Stdlib Require Import Ascii ZArith QArith Lia ZifyBool.
From S2P Require Import Prelude PyStr InMemoryCache RedisCache DualCache CostCalc RateLimiter RateWindows.

#[local] Open Scope Z_scope.

(** ** Scripts *)

Module SessionScripts.
Import LuaScripts.

Definition MAX_ITERATIONS_INCREMENT_SCRIPT (t : Z) (key : string) (ttl : Z) (st : store) : Z * store :=
  let '(current, st1) := INCRBY t key 1 st in
  (current, if current =? 1 then EXPIRE t key ttl st1 else st1).

(** Amounts with their expiry times. *)
Abbreviation amounts := (gmap string (Q * option Z)).

Definition amount_of (t : Z) (key : string) (st : amounts) : option (Q * option Z) :=
  match st !! key with Some (v, e) => if live t e then Some (v, e) else None | None => None end.

Definition MAX_BUDGET_SESSION_INCREMENT_SCRIPT (t : Z) (key : string) (amount : Q) (ttl : Z) (st : amounts) : Q * amounts :=
  match amount_of t key st with
  | Some (v, e) => ((v + amount)%Q, <[key := ((v + amount)%Q, e)]> st)
  | None => ((0 + amount)%Q, <[key := ((0 + amount)%Q, Some (t + seconds ttl))]> st)
  end.
End SessionScripts.

Class SessionRedis (R : Type) := {
  ss_iterate : Z → string → Z → M R Z;
  ss_spend : Z → string → Q → Z → M R Q;
  ss_counts : R → LuaScripts.store;
  ss_amounts : R → SessionScripts.amounts
}.

Class SessionLaws (R : Type) `{SessionRedis R} := {
  iterate_runs t key ttl (r r' : R) n : ss_iterate t key ttl r = (Ok n, r') →
    (n, ss_counts r') = SessionScripts.MAX_ITERATIONS_INCREMENT_SCRIPT t key ttl (ss_counts r);
  spend_runs t key amount ttl (r r' : R) q : ss_spend t key amount ttl r = (Ok q, r') →
    (q, ss_amounts r') = SessionScripts.MAX_BUDGET_SESSION_INCREMENT_SCRIPT t key amount ttl (ss_amounts r)
}.

Module SessionLimits.
Import RateLimiter.
#[local] Abbreviation dict := (list (string * pyval)).

Definition DEFAULT_MAX_ITERATIONS_TTL : Z := 3600.
Definition DEFAULT_MAX_BUDGET_PER_SESSION_TTL : Z := 3600.

Section ops.
Context `{PyRuntime} {R : Type} `{RedisCacheI R} `{RateScripts R} `{SessionRedis R}.
Context (ttl : Z) (litellm_params_of : string → option dict) (money : Q → string).
#[local] Abbreviation cache := (DualCache.t R).

Definition sub_dict (k : string) (data : dict) : pyval := py_or (default PNone (dget k data)) (PDict []).

(** [_get_session_id] of both handlers. *)
Definition _get_session_id (data : dict) : res (option string) :=
  s ← py_get (sub_dict "metadata" data) "session_id";
  if negb (is_none s) then Ok (Some (py_str s))
  else
    s ← py_get (sub_dict "litellm_metadata" data) "session_id";
    Ok (if is_none s then None else Some (py_str s)).

(** ** Calls of a session *)

Definition _get_max_iterations (agent_id : option string) (key_metadata : dict) : res (option Z) :=
  let configured :=
    match agent_id with
    | Some a => match litellm_params_of a with Some p => default PNone (dget "max_iterations" p) | None => PNone end
    | None => PNone
    end in
  if negb (is_none configured) then Some <$> py_int configured
  else opt_int (default PNone (dget "max_iterations" key_metadata)).

Definition iterations_key (session_id : string) : string := "{session_iterations:" +:+ session_id +:+ "}:count".

Definition session_ttl : ttl_kw := Some (Some (seconds ttl)).

Definition _in_memory_increment (now : Z) (cache_key : string) : M cache Z :=
  current ← DualCache.async_get_cache now cache_key true None;
  z ← m_lift (if is_none current then Ok 0 else py_int current);
  DualCache.async_set_cache now cache_key (PInt (z + 1)) true session_ttl ;;
  mret (z + 1).

Definition _increment_and_get (now : Z) (cache_key : string) : M cache Z := λ c,
  match DualCache.redis_cache c with
  | None => _in_memory_increment now cache_key c
  | Some _ => m_try (on_script (ss_iterate now cache_key ttl)) (λ _, _in_memory_increment now cache_key) c
  end.

(** [Some detail]: the HTTP error 429. *)
Definition iterations_error (session_id : string) (current_count max_iterations : Z) : string :=
  "Max iterations exceeded for session " +:+ session_id +:+ ". Current count: " +:+ str_of_Z current_count +:+
  ", max_iterations: " +:+ str_of_Z max_iterations +:+ ".".

Definition iterations_hook (now : Z) (agent_id : option string) (key_metadata data : dict) : M cache (option string) :=
  session ← m_lift (_get_session_id data);
  match session with
  | None => mret None
  | Some session_id =>
      limit ← m_lift (_get_max_iterations agent_id key_metadata);
      match limit with
      | None => mret None
      | Some max_iterations =>
          current_count ← _increment_and_get now (iterations_key session_id);
          mret (if max_iterations <? current_count then Some (iterations_error session_id current_count max_iterations) else None)
      end
  end.

(** ** Cost of a session *)

Definition _get_max_budget_per_session (agent_id : option string) : res (option Q) :=
  match agent_id with
  | None => Ok None
  | Some a =>
      match litellm_params_of a with
      | None => Ok None
      | Some p => let b := default PNone (dget "max_budget_per_session" p) in if is_none b then Ok None else Some <$> CostCalc.py_float b
      end
  end.

Definition budget_key (session_id : string) : string := "{session_budget:" +:+ session_id +:+ "}:spend".

Definition amount_or_0 (v : pyval) : res Q := if is_none v then Ok 0%Q else CostCalc.py_float v.

Definition local_spend (now : Z) (cache_key : string) : M cache Q :=
  result ← DualCache.async_get_cache now cache_key true None;
  m_lift (amount_or_0 result).

Definition _get_current_spend (now : Z) (cache_key : string) : M cache Q := λ c,
  match DualCache.redis_cache c with
  | None => local_spend now cache_key c
  | Some _ =>
      m_try (result ← on_script (rd_async_get_cache now cache_key); m_lift (amount_or_0 result))
            (λ _, local_spend now cache_key) c
  end.

Definition _in_memory_increment_spend (now : Z) (cache_key : string) (amount : Q) : M cache Q :=
  current ← local_spend now cache_key;
  DualCache.async_set_cache now cache_key (PFloat (current + amount)%Q) true session_ttl ;;
  mret (current + amount)%Q.

Definition _increment_spend (now : Z) (cache_key : string) (amount : Q) : M cache Q := λ c,
  match DualCache.redis_cache c with
  | None => _in_memory_increment_spend now cache_key amount c
  | Some _ => m_try (on_script (ss_spend now cache_key amount ttl)) (λ _, _in_memory_increment_spend now cache_key amount) c
  end.

Definition budget_error (session_id : string) (spend budget : Q) : string :=
  "Session budget exceeded for session " +:+ session_id +:+ ". Current spend: $" +:+ money spend +:+
  ", max_budget_per_session: $" +:+ money budget +:+ ".".

Definition budget_hook (now : Z) (agent_id : option string) (data : dict) : M cache (option string) :=
  max_budget ← m_lift (_get_max_budget_per_session agent_id);
  session ← m_lift (_get_session_id data);
  match max_budget, session with
  | Some budget, Some session_id =>
      current_spend ← _get_current_spend now (budget_key session_id);
      mret (if Qle_bool budget current_spend then Some (budget_error session_id current_spend budget) else None)
  | _, _ => mret None
  end.

(** The session and the cost a finished call adds, if any. *)
Definition spend_of_call (kwargs : dict) : res (option (string * Q)) :=
  md ← py_get (sub_dict "litellm_params" kwargs) "metadata";
  let md := py_or md (PDict []) in
  session_id ← py_get md "session_id";
  agent_id ← py_get md "agent_id";
  if is_none session_id || is_none agent_id then Ok None
  else
    match litellm_params_of (py_str agent_id) with
    | None => Ok None
    | Some p =>
        if is_none (default PNone (dget "max_budget_per_session" p)) then Ok None
        else
          match as_num (py_or (default PNone (dget "response_cost" kwargs)) (PFloat 0)) with
          | None => Raise TypeError
          | Some cost => Ok (if Qle_bool cost 0 then None else Some (py_str session_id, cost))
          end
    end.

(** Errors are logged. *)
Definition budget_log_success (now : Z) (kwargs : dict) : M cache unit :=
  m_try (spend ← m_lift (spend_of_call kwargs);
         match spend with
         | Some (session_id, cost) => _increment_spend now (budget_key session_id) cost ;; mret ()
         | None => mret ()
         end)
        (λ _, mret ()).
End ops.

(** ** Theorems *)

Section facts.
Context `{PyRuntime} {R : Type} `{RedisCacheI R} `{RateScripts R} `{SessionRedis R}.
Context (ttl lo dl : Z) (k : Z * Z * Z) (U : gset string) (litellm_params_of : string → option dict) (money : Q → string).
Implicit Types c : DualCache.t R.
#[local] Abbreviation calm := (Local.calm dl k U).
#[local] Abbreviation hook now a md data := (iterations_hook ttl litellm_params_of now a md data).

(** A counter after [i] calls. *)
Definition counter (i : nat) : option Z := if decide (i = 0%nat) then None else Some (Z.of_nat i).

Lemma default_counter i : default 0 (counter i) = Z.of_nat i.
Proof. unfold counter. case_decide; cbn; lia. Qed.

Lemma increment_counts now x i g c :
  Local.span ttl lo dl k U → lo ≤ now ≤ dl → x ∈ U → g !! x = PInt <$> counter i → calm g c →
  ∃ c', _in_memory_increment ttl now x c = (Ok (Z.of_nat i + 1), c') ∧ calm (<[x := PInt (Z.of_nat i + 1)]> g) c'.
Proof.
  intros Hs [Hlo Hnow] Hx Hg Hc. unfold _in_memory_increment. rewrite (m_bind_run _ _ _ _ _ (Local.calm_read dl k U now x g c Hnow Hc)).
  rewrite (m_bind_run _ _ _ (Z.of_nat i) c).
  - destruct (Local.calm_write ttl lo dl k U now x (PInt (Z.of_nat i + 1)) g c) as (c' & E & Hc'); [done..|intros; by apply (Local.sp_int _ _ _ _ _ Hs)|done|].
    exists c'. split; [|done]. by rewrite (m_bind_run _ _ _ () c' E).
  - unfold Local.read. rewrite Hg. unfold counter. case_decide as Hi; cbn; [by subst i|done].
Qed.

(** The answer to call number [i] of a session with a cap of [n]. *)
Definition iterations_answer (s : string) (n : Z) (i : nat) : option string :=
  if n <? Z.of_nat i + 1 then Some (iterations_error s (Z.of_nat i + 1) n) else None.

(** A request of session [s] under a cap of [n]. *)
Definition capped (s : string) (n : Z) (agent_id : option string) (key_metadata data : dict) : Prop :=
  _get_session_id data = Ok (Some s) ∧ _get_max_iterations litellm_params_of agent_id key_metadata = Ok (Some n).

Lemma hook_counts now a md data s n c count c' :
  capped s n a md data → _increment_and_get ttl now (iterations_key s) c = (Ok count, c') →
  hook now a md data c = (Ok (if n <? count then Some (iterations_error s count n) else None), c').
Proof.
  intros [Es En] E. unfold iterations_hook. rewrite (m_bind_run _ _ _ (Some s) c) by (unfold m_lift; by rewrite Es).
  rewrite (m_bind_run _ _ _ (Some n) c) by (unfold m_lift; by rewrite En). by rewrite (m_bind_run _ _ _ _ _ E).
Qed.

Lemma counter_S i : Some (PInt (Z.of_nat i + 1)) = PInt <$> counter (S i).
Proof. unfold counter. rewrite decide_False by done. cbn. do 2 f_equal. lia. Qed.

(** Without Redis exactly the first [n] calls of a session are let through while its
    counter lives; each later one is refused with its number. *)
Theorem session_calls_capped s n calls a md c
    (Hs : Local.span ttl lo dl k U) (Hx : iterations_key s ∈ U) (Hc : calm ∅ c)
    (Hq : Forall (λ q : Z * dict, lo ≤ q.1 ≤ dl ∧ capped s n a md q.2) calls) :
  (m_map (λ q : Z * dict, hook q.1 a md q.2) calls c).1 = Ok (imap (λ i _, iterations_answer s n i) calls).
Proof.
  assert (∀ i g c, g !! iterations_key s = PInt <$> counter i → calm g c →
    (m_map (λ q : Z * dict, hook q.1 a md q.2) calls c).1 = Ok (imap (λ j _, iterations_answer s n (i + j)) calls)) as Hrun.
  { clear c Hc. induction Hq as [|[now data] calls [Ht Hcap] _ IH]; intros i g c Hg Hc; [done|]. cbn [fst snd m_map imap] in *.
    destruct (increment_counts now (iterations_key s) i g c) as (c' & E & Hc'); [done..|].
    assert (_increment_and_get ttl now (iterations_key s) c = (Ok (Z.of_nat i + 1), c')) as Ei
      by (unfold _increment_and_get; by rewrite (Local.calm_redis _ _ _ _ _ Hc)).
    rewrite (m_bind_run _ _ _ _ _ (hook_counts now a md data s n c _ c' Hcap Ei)). 
    specialize (IH (S i) (<[iterations_key s := PInt (Z.of_nat i + 1)]> g) c' ltac:(by rewrite lookup_insert_eq, counter_S) Hc').
    destruct (m_map _ calls c') as [r c''] eqn:Em. cbn in IH. subst r.
    rewrite (m_bind_run _ _ _ _ _ Em). rewrite Nat.add_0_r. cbn. do 2 f_equal. apply imap_ext. intros j q _. cbn. by rewrite Nat.add_succ_r. }
  by apply (Hrun 0%nat ∅).
Qed.
End facts.

(** *** Several proxies on one Redis *)

Section shared.
Context `{PyRuntime} {R : Type} `{RedisCacheI R} `{RateScripts R} `{SessionLaws R}.
Context (ttl lo dl : Z) (litellm_params_of : string → option dict).
Context (Hshort : now_int dl - now_int lo < ttl).
Implicit Types c : DualCache.t R.

(** A call through proxy [i]. *)
Definition through {A} (i : nat) (m : M (DualCache.t R) A) : M (list (DualCache.t R) * R) A := λ '(cs, r),
  match cs !! i with
  | None => (Raise RuntimeError, (cs, r))
  | Some c => let '(a, c') := m (DualCache.set_redis (Some r) c) in (a, (<[i := c']> cs, default r (DualCache.redis_cache c')))
  end.

Lemma script_counts t x i (st : LuaScripts.store) :
  lo ≤ t ≤ dl → Script.holds lo dl st x (counter i) →
  ∃ st', SessionScripts.MAX_ITERATIONS_INCREMENT_SCRIPT t x ttl st = (Z.of_nat i + 1, st') ∧ Script.holds lo dl st' x (counter (S i)).
Proof.
  intros Ht Hh. unfold SessionScripts.MAX_ITERATIONS_INCREMENT_SCRIPT, LuaScripts.INCRBY.
  assert (counter (S i) = Some (Z.of_nat i + 1)) as Ec by (unfold counter; rewrite decide_False by done; f_equal; lia). rewrite Ec.
  unfold counter in Hh. case_decide as Hi.
  - subst i. pose proof (Hh t Ht) as Hg. unfold LuaScripts.GET in Hg. destruct (LuaScripts.entry t x st); [done|]. cbn.
    eexists. split; [done|]. eapply Script.kept_holds; [|by apply (Script.kept_expire ttl lo dl Hshort t); lia].
    change (0 + 1) with 1. cbn [Z.eqb Pos.eqb].
    by rewrite (Script.expire_lookup dl t x x ttl _ 1 None), decide_True by (apply lookup_insert_eq || done || lia).
  - destruct (Script.holds_kept lo dl st x _ t Ht Hh) as (e & Ex & He). unfold LuaScripts.entry. rewrite Ex.
    assert (LuaScripts.live t e = true) as -> by (destruct e as [e|]; cbn in *; lia). cbn.
    destruct (Z.eqb_spec (Z.of_nat i + 1) 1); [lia|]. eexists. split; [done|]. eapply Script.kept_holds; [apply lookup_insert_eq|done].
Qed.

(** C21: Proxies that share a Redis let exactly the first [n] calls of a session through,
    whichever of them a call goes through, as long as the script does not fail. *)
Theorem session_calls_capped_shared s n (calls : list (nat * (Z * dict))) a md cs r
    (Hup : ∀ t x (r : R), is_ok (ss_iterate t x ttl r).1 = true)
    (Hnew : Script.holds lo dl (ss_counts r) (iterations_key s) None)
    (Hq : Forall (λ q : nat * (Z * dict), (q.1 < length cs)%nat ∧ lo ≤ q.2.1 ≤ dl ∧ capped litellm_params_of s n a md q.2.2) calls) :
  (m_map (λ q : nat * (Z * dict), through q.1 (iterations_hook ttl litellm_params_of q.2.1 a md q.2.2)) calls (cs, r)).1 =
    Ok (imap (λ i _, iterations_answer s n i) calls).
Proof.
  set (call := λ q : nat * (Z * dict), through q.1 (iterations_hook ttl litellm_params_of q.2.1 a md q.2.2)).
  assert (∀ i cs' r, length cs' = length cs → Script.holds lo dl (ss_counts r) (iterations_key s) (counter i) →
    (m_map call calls (cs', r)).1 = Ok (imap (λ j _, iterations_answer s n (i + j)) calls)) as Hrun.
  { clear r Hnew. induction Hq as [|[p [now data]] calls (Hp & Ht & Hcap) _ IH]; intros i cs' r Hlen Hh; [done|]. cbn [fst snd] in *.
    destruct (script_counts now (iterations_key s) i (ss_counts r) Ht Hh) as (st' & Es & Hh').
    pose proof (Hup now (iterations_key s) r) as Hok. destruct (ss_iterate now (iterations_key s) ttl r) as [[z|] r'] eqn:Ei; [|done].
    pose proof (iterate_runs _ _ _ _ _ _ Ei) as El. rewrite Es in El. injection El as -> Est.
    destruct (lookup_lt_is_Some_2 cs' p) as [c Ec]; [by rewrite Hlen|].
    assert (_increment_and_get ttl now (iterations_key s) (DualCache.set_redis (Some r) c) =
      (Ok (Z.of_nat i + 1), DualCache.set_redis (Some r') (DualCache.set_redis (Some r) c))) as Einc
      by (unfold _increment_and_get, m_try, on_script; cbn; by rewrite Ei).
    assert (call (p, (now, data)) (cs', r) = (Ok (iterations_answer s n i), (<[p := DualCache.set_redis (Some r') (DualCache.set_redis (Some r) c)]> cs', r'))) as Ecall.
    { unfold call, through. cbn [fst snd]. rewrite Ec. by rewrite (hook_counts ttl litellm_params_of now a md data s n _ _ _ Hcap Einc). }
    cbn [m_map imap]. rewrite (m_bind_run _ _ _ _ _ Ecall).
    specialize (IH (S i) (<[p := DualCache.set_redis (Some r') (DualCache.set_redis (Some r) c)]> cs') r'
      ltac:(by rewrite length_insert) ltac:(by rewrite Est)).
    destruct (m_map call calls _) as [res w] eqn:Em. cbn in IH. subst res. rewrite (m_bind_run _ _ _ _ _ Em), Nat.add_0_r. cbn. do 2 f_equal.
    apply imap_ext. intros j q _. cbn. by rewrite Nat.add_succ_r. }
  by apply (Hrun 0%nat).
Qed.
End shared.

(** *** Budgets *)

Section budgets.
Context `{PyRuntime} {R : Type} `{RedisCacheI R} `{RateScripts R} `{SessionRedis R}.
Context (ttl lo dl : Z) (k : Z * Z * Z) (U : gset string) (litellm_params_of : string → option dict) (money : Q → string).
Implicit Types c : DualCache.t R.
#[local] Abbreviation calm := (Local.calm dl k U).

(** A session: requests that ask to run, and calls that finished with a cost. *)
Inductive moment :=
| Ask (now : Z) (data : dict)
| Paid (now : Z) (kwargs : dict).

Definition instant (m : moment) : Z := match m with Ask now _ | Paid now _ => now end.

Fixpoint session (agent_id : option string) (l : list moment) : M (DualCache.t R) (list (option string)) :=
  match l with
  | [] => mret []
  | Ask now data :: l' =>
      x ← budget_hook litellm_params_of money now agent_id data;
      xs ← session agent_id l';
      mret (x :: xs)
  | Paid now kwargs :: l' => budget_log_success ttl litellm_params_of now kwargs ;; session agent_id l'
  end.

(** The answers by the costs so far. *)
Fixpoint answers (s : string) (budget spent : Q) (l : list moment) : list (option string) :=
  match l with
  | [] => []
  | Ask _ _ :: l' => (if Qle_bool budget spent then Some (budget_error money s spent budget) else None) :: answers s budget spent l'
  | Paid _ kwargs :: l' =>
      answers s budget (match spend_of_call litellm_params_of kwargs with Ok (Some (_, cost)) => (spent + cost)%Q | _ => spent end) l'
  end.

(** A moment of session [s] under a budget. *)
Definition budgeted (s : string) (budget : Q) (agent_id : option string) (m : moment) : Prop :=
  lo ≤ instant m ≤ dl ∧
  match m with
  | Ask _ data => _get_session_id data = Ok (Some s) ∧ _get_max_budget_per_session litellm_params_of agent_id = Ok (Some budget)
  | Paid _ kwargs => ∃ cost, spend_of_call litellm_params_of kwargs = Ok (Some (s, cost))
  end.

Lemma local_spend_reads now x o g c :
  now ≤ dl → g !! x = PFloat <$> o → calm g c → local_spend now x c = (Ok (default 0%Q o), c).
Proof.
  intros Hnow Hg Hc. unfold local_spend. rewrite (m_bind_run _ _ _ _ _ (Local.calm_read dl k U now x g c Hnow Hc)).
  unfold Local.read. rewrite Hg. by destruct o.
Qed.

(** Without Redis a request of a session is refused exactly when the costs of its
    finished calls have reached its budget, while the amount lives. *)
Theorem session_budget_exact s budget a l c
    (Hs : Local.span ttl lo dl k U) (Hq : ∀ im q, InMemoryCache.cfg im = k → InMemoryCache.check_value_size im (PFloat q) = true)
    (Hx : budget_key s ∈ U) (Hc : calm ∅ c) (Hl : Forall (budgeted s budget a) l) :
  (session a l c).1 = Ok (answers s budget 0 l).
Proof.
  assert (∀ o g c, g !! budget_key s = PFloat <$> o → calm g c → (session a l c).1 = Ok (answers s budget (default 0%Q o) l)) as Hrun;
    [|exact (Hrun None ∅ c eq_refl Hc)].
  clear c Hc. induction Hl as [|m l [Ht Hm] _ IH]; intros o g c Hg Hc; [done|]. pose proof (Local.calm_redis _ _ _ _ _ Hc) as Hr.
  destruct m as [now data|now kwargs]; cbn [session answers instant] in *.
  - destruct Hm as [Es Eb]. assert (budget_hook litellm_params_of money now a data c =
      (Ok (if Qle_bool budget (default 0%Q o) then Some (budget_error money s (default 0%Q o) budget) else None), c)) as E.
    { unfold budget_hook. rewrite (m_bind_run _ _ _ (Some budget) c) by (unfold m_lift; by rewrite Eb).
      rewrite (m_bind_run _ _ _ (Some s) c) by (unfold m_lift; by rewrite Es).
      rewrite (m_bind_run _ _ _ (default 0%Q o) c); [done|]. unfold _get_current_spend. rewrite Hr.
      by apply (local_spend_reads now _ o g c); [lia|..]. }
    rewrite (m_bind_run _ _ _ _ _ E). specialize (IH o g c Hg Hc). destruct (session a l c) as [r c'] eqn:El. cbn in IH. subst r.
    by rewrite (m_bind_run _ _ _ _ _ El).
  - destruct Hm as [cost Ecost]. rewrite Ecost.
    destruct (Local.calm_write ttl lo dl k U now (budget_key s) (PFloat (default 0%Q o + cost)) g c) as (c' & E & Hc'); [done|lia|lia|done|by intros; apply Hq|done|].
    assert (budget_log_success ttl litellm_params_of now kwargs c = (Ok (), c')) as Ep.
    { unfold budget_log_success, m_try. rewrite (m_bind_run _ _ _ (Some (s, cost)) c) by (unfold m_lift; by rewrite Ecost).
      rewrite (m_bind_run _ _ _ (default 0%Q o + cost)%Q c'); [done|]. unfold _increment_spend. rewrite Hr. unfold _in_memory_increment_spend.
      rewrite (m_bind_run _ _ _ (default 0%Q o) c) by (apply (local_spend_reads now _ o g c); [lia|done|done]).
      by rewrite (m_bind_run _ _ _ () c' E). }
    rewrite (m_bind_run _ _ _ _ _ Ep).
    exact (IH (Some (default 0%Q o + cost)%Q) (<[budget_key s := PFloat (default 0%Q o + cost)]> g) c' ltac:(by rewrite lookup_insert_eq) Hc').
Qed.
End budgets.

(** ** Concrete runs *)

Module SessionExamples.
Import Toy.
#[local] Existing Instance int_runtime.

(** A server that runs the two scripts. *)
Record sessions := mkSessions { counts : LuaScripts.store; amounts : SessionScripts.amounts }.

Definition sessions_redis : RedisCacheI sessions := scripts_only sessions.
Definition sessions_scripts : SessionRedis sessions := {|
  ss_iterate t key ttl s :=
    let '(n, st) := SessionScripts.MAX_ITERATIONS_INCREMENT_SCRIPT t key ttl (counts s) in (Ok n, mkSessions st (amounts s));
  ss_spend t key amount ttl s :=
    let '(q, st) := SessionScripts.MAX_BUDGET_SESSION_INCREMENT_SCRIPT t key amount ttl (amounts s) in (Ok q, mkSessions (counts s) st);
  ss_counts := counts;
  ss_amounts := amounts
|}.
#[local] Existing Instance sessions_redis.
#[local] Existing Instance sessions_scripts.

Lemma sessions_laws : SessionLaws sessions.
Proof.
  split; cbn.
  - intros t key ttl r r' n. by destruct (SessionScripts.MAX_ITERATIONS_INCREMENT_SCRIPT t key ttl (counts r)) as [z st]; intros [= <- <-].
  - intros t key a ttl r r' q. by destruct (SessionScripts.MAX_BUDGET_SESSION_INCREMENT_SCRIPT t key a ttl (amounts r)) as [z st]; intros [= <- <-].
Qed.

Definition empty_cache : DualCache.t sessions :=
  DualCache.init DualCache.default_settings (Some InMemoryCache.init_default) None None None None 1000.

Definition keys : gset string := {[ "{session_iterations:s}:count"; "{session_budget:s}:spend" ]}.

Lemma keys_span : Local.span 3600 (seconds 60) (seconds 119) RateExamples.config keys.
Proof. by apply RateExamples.span_from. Qed.

Lemma keys_idle : Local.calm (seconds 119) RateExamples.config keys ∅ empty_cache.
Proof.
  split; [done|split; [by apply InMemoryCache.wf_init|done]|done|set_solver|].
  intros x e Hx. exact (False_ind _ (lookup_empty_Some x e Hx)).
Qed.

Definition no_params : string → option dict := λ _, None.
Definition in_session : dict := [("metadata", PDict [("session_id", PStr "s")])].
Definition two_calls : dict := [("max_iterations", PInt 2)].

Lemma session_calls_capped_witness :
  (m_map (λ q : Z * dict, iterations_hook 3600 no_params q.1 None two_calls q.2) [(seconds 60, in_session); (seconds 70, in_session); (seconds 119, in_session)] empty_cache).1 =
    Ok [None; None; Some "Max iterations exceeded for session s. Current count: 3, max_iterations: 2."].
Proof.
  apply (session_calls_capped 3600 (seconds 60) (seconds 119) RateExamples.config keys no_params "s" 2);
    [apply keys_span|set_solver|apply keys_idle|]. repeat constructor; done.
Defined.

Lemma session_calls_capped_shared_witness :
  (m_map (λ q : nat * (Z * dict), through q.1 (iterations_hook 3600 no_params q.2.1 None two_calls q.2.2))
     [(0%nat, (seconds 60, in_session)); (1%nat, (seconds 61, in_session)); (0%nat, (seconds 62, in_session))] ([empty_cache; empty_cache], mkSessions ∅ ∅)).1 =
    Ok [None; None; Some "Max iterations exceeded for session s. Current count: 3, max_iterations: 2."].
Proof.
  apply (session_calls_capped_shared (H3 := sessions_laws) 3600 (seconds 60) (seconds 119) no_params ltac:(done) "s" 2);
    [intros t x r; cbn; by destruct (SessionScripts.MAX_ITERATIONS_INCREMENT_SCRIPT t x 3600 (counts r))|by intros t Ht|].
  repeat constructor; done.
Defined.

(** An agent with a budget of one dollar a session. *)
Definition one_dollar : string → option dict := λ a, if String.eqb a "a" then Some [("max_budget_per_session", PInt 1)] else None.
Definition cents (q : Q) : string := str_of_Z (Qnum (Qred (q * 100))).
Definition paid (md : dict) (cost : Q) : dict := [("litellm_params", PDict [("metadata", PDict md)]); ("response_cost", PFloat cost)].
Definition in_agent_session : dict := [("session_id", PStr "s"); ("agent_id", PStr "a")].

Lemma session_budget_exact_witness :
  (session 3600 one_dollar cents (Some "a") [Ask (seconds 60) in_session; Paid (seconds 70) (paid in_agent_session (3 # 5)); Ask (seconds 71) in_session;
     Paid (seconds 80) (paid in_agent_session (3 # 5)); Ask (seconds 90) in_session] empty_cache).1 =
    Ok [None; None; Some "Session budget exceeded for session s. Current spend: $120, max_budget_per_session: $100."].
Proof.
  rewrite (session_budget_exact 3600 (seconds 60) (seconds 119) RateExamples.config keys one_dollar cents "s" 1 (Some "a"));
    [vm_compute; reflexivity|apply keys_span| |set_solver|apply keys_idle|].
  - intros im q [= _ _ Hk]. unfold InMemoryCache.check_value_size. rewrite Hk. cbn. apply orb_true_r.
  - repeat constructor; try done; by eexists.
Defined.

(** A request may name its session in [litellm_metadata], but the cost of a call is only
    added for one named in the metadata of its parameters: such a session never pays. *)
Definition asked_elsewhere : dict := [("litellm_metadata", PDict [("session_id", PStr "s")])].
Definition paid_elsewhere : dict := [("litellm_params", PDict [("litellm_metadata", PDict in_agent_session)]); ("response_cost", PFloat 5)].

Theorem litellm_metadata_session_unpaid :
  _get_session_id asked_elsewhere = Ok (Some "s") ∧ spend_of_call one_dollar paid_elsewhere = Ok None.
Proof. by vm_compute. Qed.
End SessionExamples.
End SessionLimits.
